(* ===== verification/_CoqProject ===== *)
-Q . S2P
Prelude.v
Bytes.v
Disk.v
Tides.v
Split.v
SplitFacts.v
SplitProps.v
Window.v
WindowFacts.v
BalanceFacts.v
MinersFacts.v
WindowProps.v
Grace.v
GraceProps.v
Ledger.v
LedgerFacts.v
BooksFacts.v
LedgerProps.v
BlockLog.v
BlockLogProps.v
Persist.v
PersistFacts.v
PersistProps.v
Cursor.v
Frame.v
Crypto.v
Coinbaser.v
Handshake.v
Mining.v
Pow.v
Coinbase.v
WireProps.v
Verify.v
VerifyFacts.v
VerifyProps.v
State.v
StateProps.v
Settle.v
SettleProps.v
Text.v
Address.v
ClassBudget.v
ClassBudgetProps.v
Node.v
NodeProps.v
Validity.v
ValidityProps.v
Slots.v
SlotsProps.v
Replies.v
RepliesProps.v
Session.v
Paying.v
Found.v
Shares.v
Serve.v
SessionFacts.v
ShareProps.v
CreditProps.v
FramesProps.v
SessionProps.v
SessionKept.v
SessionInv.v
FoundProps.v
Payouts.v
PayoutsProps.v
Solo.v
SoloProps.v
Settings.v
SettingsProps.v
Overflow.v
OverflowProps.v
Protocol.v
ProtocolProps.v
Template.v
TemplateProps.v
Stratum.v
StratumProps.v
Lazarus.v
LazarusProps.v
