(* ===== verification/Prelude.v ===== *)
(** Lazarus Prime: a verification of the pool behind [prime/].

    Prime is the upstream of DATUM gateways. A gateway builds its own block templates, asks Prime
    how to split a block's reward, and sends the shares its miners find; Prime checks each share,
    keeps a sliding window of the work credited, and, for every block found, a ledger of what its
    coinbase paid and what is still owed. Three crates are modelled: [prime/tides] (the accounting),
    [prime/wire] (the protocol and the verification of a share) and [prime/primed] (the server); and
    the pool's own gateway, [lazarus/gateway] with [lazarus/protocol]: the jobs it makes, the sessions
    of its miners, and the valve that sends new miners to other pools. The Prime before this one,
    [lazarus/prime], is modelled behind the same gateway.

    * Parts

    Base. [Prelude] (machine integers by their largest value, the [panics] monad for arithmetic
    under [overflow-checks], [result] for [Result], lemmas and tactics), [Bytes] (little-endian
    encodings), [Text] (a [&str] as its UTF-8 bytes), [Disk] (a directory of files, steps on it, and
    what a crash between or inside them leaves; also a concrete codec, for witnesses).

    Accounting, [prime/tides/src]. [Tides] has the rows; [Split] the coinbase split of [split.rs]
    ([compute], step by step); [Window] the share window and the balances of [lib.rs]; [Grace] the
    stratum grace clocks of [grace.rs]; [Ledger] the operations of [Ledger] and the books of a block
    (debits when it is found, credits when it is confirmed, both undone when it is orphaned);
    [BlockLog] the append-only log; [Persist] the ledger's files.

    Protocol, [prime/wire/src]. [Cursor] ([lib.rs]), [Frame] ([frame.rs], the header and its rolling
    key), [Crypto] ([crypto.rs], nonces and the channel), [Coinbaser] ([coinbaser.rs]), [Handshake],
    [Mining] (command 5 in both directions), [Pow] (targets, merkle branches, the header hash),
    [Coinbase] (parsing, building and assembling a coinbase) and [Verify] (the job slot with its
    caches, what a coinbase pays, and the verdict on a share).

    Server, [prime/primed/src]. [State] (what sessions share, [state.rs]), [Settle] (what a reply
    lists and what a found block does to the books), [Address], [ClassBudget], [Validity]
    ([validity.rs]), [Node] (the poller of [node.rs] and the life of a recorded block), [Slots] and
    [Replies] (what a session holds), then the session of [session.rs]: [Session] (its state and
    monad), [Paying] (the script it is configured with, its requests), [Found], [Shares] and [Serve] (the loop). [Payouts] is
    [payouts.rs], [Solo] is [solo.rs], [Settings] is [config.rs] with the split parameters [main.rs]
    makes of it.

    Gateway, [lazarus/gateway/src]. [Overflow] is [overflow.rs]: JSON values and floats, the meter with
    its hysteresis, the gate every new session passes, and the relay to another pool. [Protocol] is
    what the gateway takes of [lazarus/protocol/src]: addresses ([address.rs]), the split and the
    coinbase ([coinbaser.rs], [cbtx.rs]), the header, its hash and targets ([pow.rs]). [main.rs] is in
    two files: [Template] (a template of the node, trimmed to its weight; the jobs made of it, pooled
    and solo; the board they are published on) and [Stratum] (connections, what is kept of a miner,
    difficulty, the solo book, the queue to Prime, and [handle_miner] line by line).

    Earlier Prime, [lazarus/prime/src]. [Lazarus] has a module per part: [Wire] (the messages,
    [mining.rs] of the protocol), [Check] (the verdict on a share, [verify.rs]), [Books] (the ledger,
    its split and the make-goods taken from it, [ledger.rs]) and [Server] (the messages of a session,
    a block of ours and the start, [main.rs]).

    A file [XFacts] has the lemmas on [X] that several theorems need, [XProps] the properties.

    * How the parts meet

    A share goes through [Serve.serve_once] (a frame is cut, opened and decoded with [Frame],
    [Crypto] and [Mining]), [Shares.on_pow] (slot, chain, parent and coinbaser looked up; verdict by
    [Verify]; entered in the set of [State]; credited to [Window] through [Ledger]), and, when it
    solves a block, [Found.book_candidate] ([Settle.settle] gives the debits and credits,
    [Ledger.book_debits] takes the debits, [BlockLog] the record). [Node.confirm_blocks] later gives
    the record its last word. A coinbaser request goes through [Paying.on_coinbaser_request]:
    [Replies] decides whether it is priced afresh, [Split.compute] prices it on [Window.miners],
    [Coinbaser] encodes it, and [Paying] configures the gateway for it.

    In the gateway the split arrives by [Template.on_frame] on the board, [Template.gbt_pooled] binds it
    to a template and publishes the job, and [Stratum.on_submit] rebuilds the header of a share on it:
    judged, credited, queued for Prime ([Stratum.send_prime]) and, when it solves the block, assembled
    ([Template.assemble_block]). What the gateway computes and what Prime computes of the fields it is
    sent are the same ([ProtocolProps]); what it queues goes over [Wire] to [Server.on_message], which
    rebuilds the header in [Check] and credits the share in [Books].

    * State, effects and interleaving

    A handler of a session is a function in the monad [Session.M]: the session, the state all
    sessions share, an error ([?] on [SessionError]), a panic, and a trace of what was sent and
    done. Where the code awaits, the model lets the other tasks act: the next [Session.Wait] moves the
    clock and replaces the shared state by an arbitrary function of it. [select!] is
    an await before each input. Two operations under one lock are one step. Payouts and the solo
    scan take [others] per question asked of the node.

    The files are a map from names to bytes and an operation is a list of steps. A crash keeps any
    prefix of the steps and any prefix of the bytes of the write it cuts ([Disk]); an I/O failure
    other than a crash is not modelled. Walks over a [HashMap] take the order as an argument, and
    [MinersFacts] shows the listings do not depend on it.

    * Parameters

    Code that is not in the repository is an argument with laws, and has a concrete instance in the
    witnesses only: SHA-256 and BLAKE2b (arguments of [Pow] and [Verify]), NaCl boxes and signatures ([Crypto.Nacl]),
    [serde_json] (a codec that reads back what it wrote and refuses a torn line), [hex], bech32 and
    base58 ([Address]), the TOML parser ([Settings] starts at the parsed keys), the node's JSON-RPC
    (its answers), the clock, and the conversion of an amount written with an exponent, which goes
    through a float. No theorem assumes hashes have no collisions.

    * Bounds and fuel

    Integers are [Z] with the range of their type in the invariants; [trunc], [sat_add], [chk_add]
    are [as], [saturating_add] and [+]. Counters that only grow ([u64] statistics, [usize] lengths)
    are [Z] or [nat] without a bound. Instants are nanoseconds. Loops the source leaves to data run
    on fuel, each with a lemma that the fuel is enough: [Coinbaser.decode_loop] on the number of
    bytes, [Mining.decode_sections] on the bytes plus one, [Pow.branches_loop] on the number of
    transactions, [State.prune_loop] on the number of heights, [Serve.read_frames] on the bytes
    buffered plus two ([FramesProps.frames_run_dry]). The lists the source bounds (512 outputs, 16
    live slots, 1024 identities of a session, 4096 parents and gateways) keep their constants.

    * What the theorems show

    Split ([SplitProps]): the value of a block is conserved to the sat, everybody is paid their
    share and what is owed to them down to the floor, and who is not paid is listed with the reason.
    Window and ledger ([WindowProps], [GraceProps], [LedgerProps]): the invariant of every reachable
    window, nobody has a balance beside a debt, a block's books are exact and undone exactly,
    debits replayed at a restart are the ones the block took. Files ([BlockLogProps],
    [PersistProps]): a kill at any step of a flush loses nothing that was flushed before it, what is
    saved is read back, the log survives any history of appends and crashes.

    Protocol ([WireProps], [VerifyProps], [SlotsProps]): nonces of the two directions never meet,
    messages round-trip, targets are the numbers they stand for, a slot with caches gives the
    verdicts of a slot without, a credited share carries the work it claims, and a coinbase taken
    for the split pays everybody on it.

    Server ([StateProps], [SettleProps], [ClassBudgetProps], [ValidityProps], [NodeProps],
    [RepliesProps], [AddressProps]): a share is credited once, a job is held to the node's chain, a
    found block pays or owes everybody its coinbaser lists, work is refused on proof only. Sessions
    ([ShareProps], [CreditProps], [FoundProps], [FramesProps], [SessionProps], [SessionInv]): a share
    gets one receipt and is credited only past every check, a block a share solves is booked,
    recorded, submitted and settled, the bytes cut into frames give the messages that were written
    wherever the stream is cut, and the invariant of every session under any input and any
    interference. Around them ([PayoutsProps], [SoloProps], [SettingsProps]): the answer to a
    payout request says what moved, a payment leaves the books on the node's word only, no solo
    block is booked twice, and settings that load always split. Gateway ([OverflowProps]): the valve flips
    on a run of readings only, only strangers are sent away and to a pool that answers, no line a
    miner sent is lost, and every relay is taken off the books. Jobs ([ProtocolProps],
    [TemplateProps]): the gateway and Prime agree on the hash, the verdict and the bytes of a share, a
    coinbase reads back as it was written, every job of the board is within the weight and the value of
    its template whatever was trimmed or rescaled, and a solo miner gets a job that pays its own
    address. Sessions of miners ([StratumProps]): a submit changes what counts only as a share that is
    new and proven, what is kept stays bounded under every interleaving of connections, lines and
    broadcasts, the difficulty moves one step, and no session takes a stranger's name. Earlier Prime
    ([LazarusProps]): a share the gateway queued is credited when it arrives, however the ledger is used
    and restarted its listing gives everyone their work, and a split comes to the value of the block
    with make-goods taken from their source only.

    Theorems of kind error show where the code does less than it means to: a kill in the wrong
    moment, a table that is full, an identity interned without its line.

    * What is not modelled

    The RPC client ([rpc.rs]), the HTTP pages and counters of [stats.rs], the task wiring of
    [main.rs], log lines and their throttles, the difficulty of a tip as a float, the reading of the
    hello before it is parsed, [stratum-grind] and the tests. The token bucket is exact below the
    float's precision. A request's answer is a value, not its JSON. The last-seen times and the
    grace book are not part of the saved-and-opened theorem. A kill between a solo block's log line
    and its cursor is outside [Solo.scan], which moves both in one step. Of the gateway: the HTTP pages,
    the solo book on disk, the handshake with Prime, sockets and threads; a line reads the clock once,
    the amounts of a split are added as a release build adds them (they wrap), and the [log2] of libm
    is an argument. Of the earlier Prime: its frames and handshake, JSON, the statistics page, the calls
    to the node, and the pool's window target, a float, which is an argument. The research programs, the public site and the
    patches to third-party programs are not part of the development. *)

From stdpp Require Export base gmap list strings sorting.

From Stdlib Require Export ZArith Lia.
Open Scope Z_scope.

(** * Notations of the library *)

Declare Scope rust_scope.
Delimit Scope rust_scope with rust.

Abbreviation u8_max := 255 (only parsing).
Abbreviation u16_max := 65535 (only parsing).
Abbreviation u32_max := 4294967295 (only parsing).
Abbreviation u64_max := 18446744073709551615 (only parsing).
Abbreviation u128_max := 340282366920938463463374607431768211455 (only parsing).
Abbreviation i64_max := 9223372036854775807 (only parsing).

(** * Machine integers

    An unsigned integer type is named by its largest value [top]. *)

Definition in_range (top z : Z) : Prop := 0 <= z <= top.

(** [as uN]: the value modulo [top + 1]. *)
Definition trunc (top z : Z) : Z := z mod (top + 1).

(** [saturating_add], [saturating_sub]. *)
Definition sat_add (top a b : Z) : Z := Z.min (a + b) top.
Definition sat_sub (a b : Z) : Z := Z.max 0 (a - b).

(** * Panics

    The workspace builds with [overflow-checks], so [a + b] either fits or panics. *)

Inductive panics (A : Type) : Type :=
| Ret (a : A)
| Panic.
Arguments Ret {A} a.
Arguments Panic {A}.

#[export] Instance panics_ret : MRet panics := fun A a => Ret a.
#[export] Instance panics_bind : MBind panics :=
  fun A B f m => match m with Ret a => f a | Panic => Panic end.
#[export] Instance panics_fmap : FMap panics :=
  fun A B f m => match m with Ret a => Ret (f a) | Panic => Panic end.

Definition chk_add (top a b : Z) : panics Z :=
  if a + b <=? top then Ret (a + b) else Panic.
Definition chk_sub (a b : Z) : panics Z :=
  if b <=? a then Ret (a - b) else Panic.
Definition chk_mul (top a b : Z) : panics Z :=
  if a * b <=? top then Ret (a * b) else Panic.

(** [iter().sum()] on an unsigned type. *)
Fixpoint chk_sum (top : Z) (acc : Z) (l : list Z) : panics Z :=
  match l with
  | [] => Ret acc
  | x :: l' => acc' ← chk_add top acc x; chk_sum top acc' l'
  end.

(** * Results *)

Inductive result (E A : Type) : Type :=
| Ok (a : A)
| Err (e : E).
Arguments Ok {E A} a.
Arguments Err {E A} e.

#[export] Instance result_ret {E} : MRet (result E) := fun A a => Ok a.
#[export] Instance result_bind {E} : MBind (result E) :=
  fun A B f m => match m with Ok a => f a | Err e => Err e end.
#[export] Instance result_fmap {E} : FMap (result E) :=
  fun A B f m => match m with Ok a => Ok (f a) | Err e => Err e end.

(** [Option::ok_or]. *)
Definition ok_or {E A} (e : E) (o : option A) : result E A :=
  match o with Some a => Ok a | None => Err e end.

(** * Sums and stable sorting *)

Definition zsum (l : list Z) : Z := foldr Z.add 0 l.

Section StableSort.
Context {A : Type} (leb : A -> A -> bool).

Fixpoint insert_by (x : A) (l : list A) : list A :=
  match l with
  | [] => [x]
  | y :: l' => if leb x y then x :: l else y :: insert_by x l'
  end.

(** [slice::sort_by], which is stable: an element is put in front of its equals that come
    after it. *)
Definition sort_by (l : list A) : list A := foldr insert_by [] l.

Definition le_by (x y : A) : Prop := leb x y = true.
End StableSort.

(** * Tactics *)

(** Split the monadic binds of a hypothesis [H : (x ← m; k) = Ret r] or [= Ok r]. *)
Ltac bind_inv H :=
  repeat match type of H with
  | mbind _ ?m = _ =>
      let E := fresh "E" in
      destruct m eqn:E; cbn [mbind panics_bind result_bind] in H; try discriminate H
  end.

(** Reduce a bind on a known outcome, and nothing else. *)
Ltac mstep := cbn [mbind mret panics_bind panics_ret result_bind result_ret].

Ltac destr_if :=
  match goal with
  | |- context [if ?b then _ else _] => let E := fresh "Hif" in destruct b eqn:E
  | H : context [if ?b then _ else _] |- _ => let E := fresh "Hif" in destruct b eqn:E
  end.

Ltac destr_if_in H :=
  match type of H with
  | context [if ?b then _ else _] => let E := fresh "Hif" in destruct b eqn:E
  end.

(** Turn boolean comparisons of hypotheses into propositions. *)
Ltac bools :=
  repeat match goal with
  | H : (_ && _) = true |- _ => apply andb_true_iff in H; destruct H
  | H : (_ || _) = false |- _ => apply orb_false_iff in H; destruct H
  | H : (_ && _) = false |- _ => apply andb_false_iff in H
  | H : (_ || _) = true |- _ => apply orb_true_iff in H
  | H : negb _ = true |- _ => apply negb_true_iff in H
  | H : negb _ = false |- _ => apply negb_false_iff in H
  | H : (_ <=? _) = true |- _ => apply Z.leb_le in H
  | H : (_ <=? _) = false |- _ => apply Z.leb_gt in H
  | H : (_ <? _) = true |- _ => apply Z.ltb_lt in H
  | H : (_ <? _) = false |- _ => apply Z.ltb_ge in H
  | H : (_ =? _) = true |- _ => apply Z.eqb_eq in H
  | H : (_ =? _) = false |- _ => apply Z.eqb_neq in H
  | H : bool_decide _ = true |- _ => apply bool_decide_eq_true in H
  | H : bool_decide _ = false |- _ => apply bool_decide_eq_false in H
  end.

(** Split conjunctions, and nothing else (not records). *)
Ltac conjs := repeat match goal with |- _ /\ _ => split end.

(** Linear arithmetic with the saturating operations unfolded. *)
Ltac sat_lia := unfold sat_add, sat_sub, in_range in *; lia.

(** * Lemmas *)

Lemma chk_add_ok top a b : a + b <= top -> chk_add top a b = Ret (a + b).
Proof. intros H. unfold chk_add. by rewrite (proj2 (Z.leb_le _ _) H). Qed.

Lemma chk_sub_ok a b : b <= a -> chk_sub a b = Ret (a - b).
Proof. intros H. unfold chk_sub. by rewrite (proj2 (Z.leb_le _ _) H). Qed.

Lemma chk_mul_ok top a b : a * b <= top -> chk_mul top a b = Ret (a * b).
Proof. intros H. unfold chk_mul. by rewrite (proj2 (Z.leb_le _ _) H). Qed.

Lemma chk_add_inv top a b c : chk_add top a b = Ret c -> c = a + b /\ a + b <= top.
Proof. unfold chk_add. destr_if; intros [= <-]. bools. done. Qed.

Lemma chk_sub_inv a b c : chk_sub a b = Ret c -> c = a - b /\ b <= a.
Proof. unfold chk_sub. destr_if; intros [= <-]. bools. done. Qed.

Lemma chk_mul_inv top a b c : chk_mul top a b = Ret c -> c = a * b /\ a * b <= top.
Proof. unfold chk_mul. destr_if; intros [= <-]. bools. done. Qed.

Lemma bind_Ret_inv {A B} (m : panics A) (f : A -> panics B) b :
  (m ≫= f) = Ret b -> exists a, m = Ret a /\ f a = Ret b.
Proof. destruct m; [eauto | discriminate]. Qed.

Lemma bind_Ret {A B} (m : panics A) a (f : A -> panics B) r :
  m = Ret a -> f a = r -> (m ≫= f) = r.
Proof. by intros ->. Qed.

Lemma bind_Ok {E A B} (m : result E A) a (f : A -> result E B) r :
  m = Ok a -> f a = r -> (m ≫= f) = r.
Proof. by intros ->. Qed.

Lemma bind_Ok_inv {E A B} (m : result E A) (f : A -> result E B) b :
  (m ≫= f) = Ok b -> exists a, m = Ok a /\ f a = Ok b.
Proof. destruct m; [eauto | discriminate]. Qed.

Lemma zsum_app l1 l2 : zsum (l1 ++ l2) = zsum l1 + zsum l2.
Proof. induction l1 as [|x l1 IH]; simpl; [done|]. rewrite IH. lia. Qed.

Lemma zsum_cons x l : zsum (x :: l) = x + zsum l.
Proof. done. Qed.

Lemma zsum_perm l1 l2 : l1 ≡ₚ l2 -> zsum l1 = zsum l2.
Proof. induction 1; simpl; lia. Qed.

#[export] Instance zsum_proper : Proper (Permutation ==> eq) zsum.
Proof. intros l1 l2. apply zsum_perm. Qed.

Lemma zsum_nonneg l : Forall (fun x => 0 <= x) l -> 0 <= zsum l.
Proof. induction 1; simpl; lia. Qed.

Lemma zsum_map_le {A} (f g : A -> Z) l :
  (forall x, x ∈ l -> f x <= g x) -> zsum (map f l) <= zsum (map g l).
Proof.
  induction l as [|x l IH]; simpl; intros H; [lia|].
  specialize (IH (fun y Hy => H y (list_elem_of_further _ _ _ Hy))).
  specialize (H x (list_elem_of_here _ _)). lia.
Qed.

Lemma zsum_map_nonneg {A} (f : A -> Z) l :
  (forall x, x ∈ l -> 0 <= f x) -> 0 <= zsum (map f l).
Proof.
  intros H. apply zsum_nonneg, Forall_forall. intros y Hy.
  apply list_elem_of_In, in_map_iff in Hy as (x & <- & Hx). apply H. by apply list_elem_of_In.
Qed.

Lemma zsum_map_add {A} (f g : A -> Z) l :
  zsum (map (fun x => f x + g x) l) = zsum (map f l) + zsum (map g l).
Proof. induction l as [|x l IH]; simpl; lia. Qed.

Lemma zsum_map_mul_r {A} (f : A -> Z) k l :
  zsum (map (fun x => f x * k) l) = zsum (map f l) * k.
Proof. induction l as [|x l IH]; simpl; lia. Qed.

Lemma zsum_elem_le l x : Forall (fun y => 0 <= y) l -> x ∈ l -> x <= zsum l.
Proof.
  induction 1 as [|y l Hy Hl IH]; intros Hx; [by apply elem_of_nil in Hx|].
  apply zsum_nonneg in Hl. apply elem_of_cons in Hx as [->|Hx]; simpl; [lia|].
  specialize (IH Hx). lia.
Qed.

Lemma zsum_map_elem_le {A} (f : A -> Z) l x :
  (forall y, y ∈ l -> 0 <= f y) -> x ∈ l -> f x <= zsum (map f l).
Proof.
  intros Hf Hx. apply zsum_elem_le.
  - apply Forall_forall. intros y (z & -> & Hz)%list_elem_of_fmap. by apply Hf.
  - apply list_elem_of_fmap. eauto.
Qed.

Lemma zsum_filter_le {A} (P : A -> Prop) `{!forall x, Decision (P x)} (f : A -> Z) l :
  (forall x, x ∈ l -> 0 <= f x) -> zsum (map f (filter P l)) <= zsum (map f l).
Proof.
  induction l as [|x l IH]; intros Hf; simpl; [lia|]. rewrite filter_cons.
  assert (0 <= f x) by (apply Hf; left).
  specialize (IH (fun y Hy => Hf y (list_elem_of_further _ _ _ Hy))). case_decide; simpl; lia.
Qed.

Lemma filter_all_list {A} (P : A -> Prop) `{!forall x, Decision (P x)} l : Forall P l -> filter P l = l.
Proof. induction 1 as [|x l Hx _ IH]; [done|]. rewrite filter_cons, decide_True by done. by rewrite IH. Qed.

Lemma filter_none_list {A} (P : A -> Prop) `{!forall x, Decision (P x)} l : Forall (fun x => ~ P x) l -> filter P l = [].
Proof. induction 1 as [|x l Hx _ IH]; [done|]. by rewrite filter_cons, decide_False. Qed.

Lemma zsum_filter_pos {A B} (g : A -> B * Z) l :
  (forall x, x ∈ l -> 0 <= (g x).2) ->
  zsum (map snd (filter (fun c => 0 < c.2) (map g l))) = zsum (map (fun x => (g x).2) l).
Proof.
  induction l as [|x l IH]; intros Hf; simpl; [done|]. rewrite filter_cons.
  assert (0 <= (g x).2) by (apply Hf; left).
  specialize (IH (fun y Hy => Hf y (list_elem_of_further _ _ _ Hy))). case_decide; simpl; lia.
Qed.

Lemma chk_sum_ok top acc l :
  Forall (fun x => 0 <= x) l -> acc + zsum l <= top -> chk_sum top acc l = Ret (acc + zsum l).
Proof.
  intros Hl. revert acc. induction Hl as [|x l Hx Hl IH]; intros acc H; simpl in *.
  - f_equal. lia.
  - apply zsum_nonneg in Hl. rewrite chk_add_ok by lia. cbn. rewrite IH by lia. f_equal. lia.
Qed.

Lemma chk_sum_inv top acc l r :
  chk_sum top acc l = Ret r -> r = acc + zsum l.
Proof.
  revert acc. induction l as [|x l IH]; intros acc; simpl.
  - intros [= <-]. lia.
  - intros (a & Ha & H)%bind_Ret_inv. apply chk_add_inv in Ha as [-> _].
    apply IH in H. lia.
Qed.

(** ** The stable sort *)

Section StableSortLemmas.
Context {A : Type} (leb : A -> A -> bool).

Lemma insert_by_perm x l : insert_by leb x l ≡ₚ x :: l.
Proof.
  induction l as [|y l IH]; simpl; [done|]. destruct (leb x y); [done|].
  rewrite IH. by constructor.
Qed.

Lemma sort_by_perm l : sort_by leb l ≡ₚ l.
Proof.
  induction l as [|x l IH]; simpl; [done|]. rewrite insert_by_perm. by constructor.
Qed.

Hypothesis leb_total : forall x y, leb x y = false -> leb y x = true.
Hypothesis leb_trans : forall x y z, leb x y = true -> leb y z = true -> leb x z = true.

Lemma insert_by_sorted x l : StronglySorted (le_by leb) l -> StronglySorted (le_by leb) (insert_by leb x l).
Proof.
  induction 1 as [|y l Hl IH Hy]; simpl; [repeat constructor|].
  destruct (leb x y) eqn:E.
  - constructor; [by constructor|]. constructor; [done|].
    eapply Forall_impl; [exact Hy|]. intros z Hz. by eapply leb_trans.
  - constructor; [done|]. rewrite insert_by_perm. constructor; [by apply leb_total | done].
Qed.

Lemma sort_by_sorted l : StronglySorted (le_by leb) (sort_by leb l).
Proof. induction l; simpl; [constructor | by apply insert_by_sorted]. Qed.

(** Under an order that tells all elements of [l] apart, the sorted list does not depend on
    the order the elements came in. *)
Lemma strongly_sorted_unique l1 l2 :
  (forall x y, x ∈ l1 -> y ∈ l1 -> leb x y = true -> leb y x = true -> x = y) ->
  StronglySorted (le_by leb) l1 -> StronglySorted (le_by leb) l2 -> l1 ≡ₚ l2 -> l1 = l2.
Proof.
  intros Hanti H1. revert l2. induction H1 as [|x l1 H1 IH Hx]; intros l2 H2 HP.
  - by apply Permutation_nil_l in HP.
  - destruct l2 as [|y l2]; [by apply Permutation_nil_r in HP|].
    inversion H2 as [|? ? H2' Hy]; subst.
    assert (x = y) as <-.
    { assert (Hyin : y ∈ x :: l1) by (rewrite HP; left).
      assert (Hxin : x ∈ y :: l2) by (rewrite <- HP; left).
      apply elem_of_cons in Hyin as [->|Hyin]; [done|].
      apply elem_of_cons in Hxin as [->|Hxin]; [done|].
      apply Hanti; [left | by right | |].
      - by eapply Forall_forall in Hx.
      - by eapply Forall_forall in Hy. }
    f_equal. apply IH; [|done|by eapply Permutation_cons_inv].
    intros a b Ha Hb. apply Hanti; by right.
Qed.

Lemma sort_by_unique l1 l2 :
  (forall x y, x ∈ l1 -> y ∈ l1 -> leb x y = true -> leb y x = true -> x = y) ->
  l1 ≡ₚ l2 -> sort_by leb l1 = sort_by leb l2.
Proof.
  intros Hanti HP. apply strongly_sorted_unique.
  - intros x y Hx Hy. rewrite sort_by_perm in Hx, Hy. by apply Hanti.
  - apply sort_by_sorted.
  - apply sort_by_sorted.
  - by rewrite !sort_by_perm.
Qed.
End StableSortLemmas.

Lemma zsum_map_insert {A} (f : A -> Z) l i x y :
  l !! i = Some x -> zsum (map f (<[i := y]> l)) = zsum (map f l) - f x + f y.
Proof.
  revert i. induction l as [|z l IH]; intros [|i] Hi; cbn in Hi; try done.
  - injection Hi as ->. change (f y + zsum (map f l) = f x + zsum (map f l) - f x + f y). lia.
  - change (f z + zsum (map f (<[i := y]> l)) = f z + zsum (map f l) - f x + f y). rewrite (IH i Hi). lia.
Qed.

(** ** Invariants of a step relation *)

Lemma rtc_invariant {A} (R : relation A) (P : A -> Prop) x y :
  (forall a b, R a b -> P a -> P b) -> rtc R x y -> P x -> P y.
Proof. intros Hstep. induction 1 as [|a b c HR _ IH]; [done|]. intros Ha. apply IH. by eapply Hstep. Qed.

(** ** Sums over the values of a map *)

Section MapSums.
Context `{Countable K} {A : Type} (f : A -> Z).
Implicit Types m : gmap K A.

Definition fsum m : Z := zsum (map (fun e => f e.2) (map_to_list m)).

Lemma fsum_empty : fsum ∅ = 0.
Proof. unfold fsum. by rewrite map_to_list_empty. Qed.

Lemma fsum_insert m k v : m !! k = None -> fsum (<[k := v]> m) = f v + fsum m.
Proof. intros Hk. unfold fsum. by rewrite (map_to_list_insert _ _ _ Hk). Qed.

Lemma fsum_delete m k v : m !! k = Some v -> fsum (delete k m) = fsum m - f v.
Proof.
  intros Hk. rewrite <- (insert_delete_id m k v) at 2 by done.
  rewrite fsum_insert by apply lookup_delete_eq. lia.
Qed.

Lemma fsum_replace m k v v' : m !! k = Some v -> fsum (<[k := v']> m) = fsum m - f v + f v'.
Proof.
  intros Hk. rewrite <- insert_delete_eq, fsum_insert by apply lookup_delete_eq.
  rewrite (fsum_delete m k v Hk). lia.
Qed.

Lemma fsum_zero m : map_Forall (fun _ v => f v = 0) m -> fsum m = 0.
Proof.
  intros Hm. unfold fsum.
  assert (HF : Forall (fun e : K * A => f e.2 = 0) (map_to_list m)).
  { apply Forall_forall. intros [k v] Hin. apply elem_of_map_to_list in Hin. by apply Hm in Hin. }
  induction HF as [|e l He _ IH]; [done|]. cbn [map]. rewrite zsum_cons, He, IH. done.
Qed.

Lemma fsum_nonneg m : map_Forall (fun _ v => 0 <= f v) m -> 0 <= fsum m.
Proof.
  intros Hm. apply zsum_map_nonneg. intros [k v] Hin. apply elem_of_map_to_list in Hin. by apply Hm in Hin.
Qed.
End MapSums.

(** Run the first call of a [panics] computation with an equation for it, and the side
    conditions by linear arithmetic. *)
Tactic Notation "run" uconstr(L) :=
  eapply bind_Ret; [apply L; first [done | lia | idtac] | cbv beta].

Create HintDb lazarus discriminated.
Create Rewrite HintDb lazarus.
#[export] Hint Resolve zsum_nonneg : lazarus.
#[export] Hint Rewrite zsum_app zsum_cons : lazarus.
