(* ===== verification/Bytes.v ===== *)
(** Bytes and little-endian integers.

    A byte is a [Z] in [0..255]; the encodings are the ones [to_le_bytes] and [from_le_bytes]
    of the Rust standard library use, for any width. *)

From S2P Require Import Prelude.
Open Scope Z_scope.

Abbreviation byte := Z (only parsing).
Abbreviation bytes := (list Z) (only parsing).

Definition is_byte (b : Z) : Prop := in_range u8_max b.
Definition is_bytes (l : list Z) : Prop := Forall is_byte l.

#[export] Instance is_byte_dec b : Decision (is_byte b).
Proof. unfold is_byte, in_range. apply _. Defined.

(** [n] little-endian bytes of [z]. *)
Fixpoint le_bytes (n : nat) (z : Z) : list Z :=
  match n with
  | O => []
  | S n' => z mod 256 :: le_bytes n' (z / 256)
  end.

(** The integer a little-endian byte string stands for. *)
Fixpoint of_le (l : list Z) : Z :=
  match l with
  | [] => 0
  | b :: l' => b + 256 * of_le l'
  end.

Definition u16_bytes (z : Z) : list Z := le_bytes 2 z.
Definition u32_bytes (z : Z) : list Z := le_bytes 4 z.
Definition u64_bytes (z : Z) : list Z := le_bytes 8 z.

(** The bytes of a string, and the string of some bytes. *)
Definition str_bytes (s : string) : list Z :=
  map (fun a => Z.of_nat (Ascii.nat_of_ascii a)) (String.list_ascii_of_string s).
Definition bytes_str (l : list Z) : string :=
  String.string_of_list_ascii (map (fun b => Ascii.ascii_of_nat (Z.to_nat b)) l).

(** [String::from_utf8_lossy], on bytes: each maximal ill-formed piece becomes U+FFFD. *)
Definition REPLACEMENT : list Z := [239; 191; 189].
Definition between (a b x : Z) : bool := (a <=? x) && (x <=? b).
Definition cont (x : Z) : bool := between 128 191 x.
(** Which second bytes may follow a first byte of a three- or four-byte sequence. *)
Definition second3 (b c : Z) : bool :=
  ((b =? 224) && between 160 191 c) || (between 225 236 b && cont c)
  || ((b =? 237) && between 128 159 c) || (between 238 239 b && cont c).
Definition second4 (b c : Z) : bool :=
  ((b =? 240) && between 144 191 c) || (between 241 243 b && cont c)
  || ((b =? 244) && between 128 143 c).

Fixpoint utf8_lossy (l : list Z) : list Z :=
  match l with
  | [] => []
  | b :: l1 =>
      if b <? 128 then b :: utf8_lossy l1
      else if between 194 223 b then
        match l1 with
        | c :: l2 => if cont c then b :: c :: utf8_lossy l2 else REPLACEMENT ++ utf8_lossy l1
        | [] => REPLACEMENT
        end
      else if between 224 239 b then
        match l1 with
        | c :: l2 =>
            if second3 b c then
              match l2 with
              | d :: l3 => if cont d then b :: c :: d :: utf8_lossy l3 else REPLACEMENT ++ utf8_lossy l2
              | [] => REPLACEMENT
              end
            else REPLACEMENT ++ utf8_lossy l1
        | [] => REPLACEMENT
        end
      else if between 240 244 b then
        match l1 with
        | c :: l2 =>
            if second4 b c then
              match l2 with
              | d :: l3 =>
                  if cont d then
                    match l3 with
                    | e :: l4 => if cont e then b :: c :: d :: e :: utf8_lossy l4 else REPLACEMENT ++ utf8_lossy l3
                    | [] => REPLACEMENT
                    end
                  else REPLACEMENT ++ utf8_lossy l2
              | [] => REPLACEMENT
              end
            else REPLACEMENT ++ utf8_lossy l1
        | [] => REPLACEMENT
        end
      else REPLACEMENT ++ utf8_lossy l1
  end.

(** What a Rust [String] holds. *)
Definition is_utf8 (l : list Z) : Prop := utf8_lossy l = l.

(** Bitwise operations on words below [2^w]. *)
Definition lnot_w (w z : Z) : Z := 2 ^ w - 1 - z.

Lemma length_le_bytes n z : length (le_bytes n z) = n.
Proof. revert z. induction n; intros z; simpl; auto. Qed.

Lemma le_bytes_is_bytes n z : is_bytes (le_bytes n z).
Proof.
  revert z. induction n as [|n IH]; intros z; simpl; constructor; [|apply IH].
  unfold is_byte, in_range. pose proof (Z.mod_pos_bound z 256). lia.
Qed.

Lemma of_le_bound l : is_bytes l -> 0 <= of_le l < 256 ^ Z.of_nat (length l).
Proof.
  induction 1 as [|b l Hb Hl IH]; [simpl; lia|].
  cbn [of_le length]. unfold is_byte, in_range in Hb.
  rewrite Nat2Z.inj_succ, Z.pow_succ_r by lia. lia.
Qed.

Lemma of_le_le_bytes_mod n z : of_le (le_bytes n z) = z mod 256 ^ Z.of_nat n.
Proof.
  revert z. induction n as [|n IH]; intros z.
  - simpl. by rewrite Z.mod_1_r.
  - cbn [le_bytes of_le]. rewrite IH, Nat2Z.inj_succ, Z.pow_succ_r by lia.
    rewrite Z.rem_mul_r by (try apply Z.pow_nonzero; try apply Z.pow_pos_nonneg; lia). done.
Qed.

Lemma of_le_le_bytes n z : 0 <= z < 256 ^ Z.of_nat n -> of_le (le_bytes n z) = z.
Proof. intros H. rewrite of_le_le_bytes_mod. by apply Z.mod_small. Qed.

Lemma le_bytes_of_le l : is_bytes l -> le_bytes (length l) (of_le l) = l.
Proof.
  induction 1 as [|b l Hb Hl IH]; [done|].
  cbn [length le_bytes of_le]. unfold is_byte, in_range in Hb.
  replace (b + 256 * of_le l) with (b + of_le l * 256) by lia.
  rewrite Z.mod_add, Z.div_add, Z.mod_small, Z.div_small, Z.add_0_l by lia. by rewrite IH.
Qed.

Lemma le_bytes_of_le' n l : is_bytes l -> length l = n -> le_bytes n (of_le l) = l.
Proof. intros H <-. by apply le_bytes_of_le. Qed.

Lemma of_le_inj l1 l2 :
  is_bytes l1 -> is_bytes l2 -> length l1 = length l2 -> of_le l1 = of_le l2 -> l1 = l2.
Proof.
  intros H1 H2 Hlen Heq. rewrite <- (le_bytes_of_le l1), <- (le_bytes_of_le l2) by done.
  by rewrite Hlen, Heq.
Qed.

Lemma of_le_app l1 l2 : of_le (l1 ++ l2) = of_le l1 + 256 ^ Z.of_nat (length l1) * of_le l2.
Proof.
  induction l1 as [|b l1 IH]; [simpl; lia|].
  cbn [app of_le length]. rewrite IH, Nat2Z.inj_succ, Z.pow_succ_r by lia. lia.
Qed.

Lemma of_le_replicate0 n : of_le (replicate n 0) = 0.
Proof. induction n as [|n IH]; [done|]. cbn [replicate of_le]. rewrite IH. lia. Qed.

Lemma is_bytes_app l1 l2 : is_bytes (l1 ++ l2) <-> is_bytes l1 /\ is_bytes l2.
Proof. apply Forall_app. Qed.

Lemma is_bytes_cons b l : is_bytes (b :: l) <-> is_byte b /\ is_bytes l.
Proof. apply Forall_cons. Qed.

Lemma is_bytes_take n l : is_bytes l -> is_bytes (take n l).
Proof. apply Forall_take. Qed.

Lemma is_bytes_drop n l : is_bytes l -> is_bytes (drop n l).
Proof. apply Forall_drop. Qed.

Lemma is_bytes_replicate n b : is_byte b -> is_bytes (replicate n b).
Proof. apply Forall_replicate. Qed.

Lemma of_le_u16 z : in_range u16_max z -> of_le (u16_bytes z) = z.
Proof. intros H. apply of_le_le_bytes. unfold in_range in H. lia. Qed.

Lemma of_le_u32 z : in_range u32_max z -> of_le (u32_bytes z) = z.
Proof. intros H. apply of_le_le_bytes. unfold in_range in H. lia. Qed.

Lemma of_le_u64 z : in_range u64_max z -> of_le (u64_bytes z) = z.
Proof. intros H. apply of_le_le_bytes. unfold in_range in H. lia. Qed.

Lemma length_u16 z : length (u16_bytes z) = 2%nat.
Proof. apply length_le_bytes. Qed.
Lemma length_u32 z : length (u32_bytes z) = 4%nat.
Proof. apply length_le_bytes. Qed.
Lemma length_u64 z : length (u64_bytes z) = 8%nat.
Proof. apply length_le_bytes. Qed.

#[export] Hint Resolve le_bytes_is_bytes is_bytes_take is_bytes_drop : lazarus.
#[export] Hint Rewrite length_le_bytes length_u16 length_u32 length_u64 : lazarus.

Lemma bytes_str_bytes s : bytes_str (str_bytes s) = s.
Proof.
  unfold bytes_str, str_bytes. rewrite map_map.
  rewrite <- (String.string_of_list_ascii_of_string s) at 2. f_equal.
  induction (String.list_ascii_of_string s) as [|a l IH]; [done|]. cbn [map]. rewrite IH.
  by rewrite Nat2Z.id, Ascii.ascii_nat_embedding.
Qed.

Lemma str_bytes_inj s t : str_bytes s = str_bytes t -> s = t.
Proof. intros H. by rewrite <- (bytes_str_bytes s), H, bytes_str_bytes. Qed.

Lemma list_ascii_app s t :
  String.list_ascii_of_string (String.append s t) =
  String.list_ascii_of_string s ++ String.list_ascii_of_string t.
Proof.
  induction s as [|a s IH]; [done|].
  change (String.append (String.String a s) t) with (String.String a (String.append s t)).
  cbn. by rewrite IH.
Qed.

Lemma str_bytes_app s t : str_bytes (String.append s t) = str_bytes s ++ str_bytes t.
Proof. unfold str_bytes. by rewrite list_ascii_app, map_app. Qed.

Lemma str_bytes_is_bytes s : is_bytes (str_bytes s).
Proof.
  unfold str_bytes, is_bytes. induction (String.list_ascii_of_string s) as [|a l IH]; cbn; [done|].
  constructor; [|done]. unfold is_byte, in_range. pose proof (Ascii.nat_ascii_bounded a). lia.
Qed.

Lemma str_bytes_back l : is_bytes l -> str_bytes (bytes_str l) = l.
Proof.
  unfold str_bytes, bytes_str. rewrite String.list_ascii_of_string_of_list_ascii, map_map.
  induction 1 as [|b l Hb _ IH]; [done|]. cbn [map]. rewrite IH. unfold is_byte, in_range in Hb.
  rewrite Ascii.nat_ascii_embedding by lia. f_equal. lia.
Qed.

Lemma bytes_str_inj l1 l2 : is_bytes l1 -> is_bytes l2 -> bytes_str l1 = bytes_str l2 -> l1 = l2.
Proof. intros H1 H2 H. by rewrite <- (str_bytes_back l1), <- (str_bytes_back l2), H. Qed.
