(* ===== verification/Disk.v ===== *)
(** The files a Prime keeps: a directory of named files, the operations the program performs on
    it one after the other, what a crash can leave of them, and reading a file line by line
    ([write_atomic] and the block log's reader of [prime/tides/src/lib.rs]).

    A crash leaves the files as they were between two operations, or with the one under way torn:
    a file being created holds anything, a file being appended to holds a part of what was
    appended. Directory operations reach the disk in the order they were made. *)

From Stdlib Require Import Ascii.
From stdpp Require Import countable.
From S2P Require Import Prelude Bytes.
Open Scope Z_scope.

(** * Files *)

(** The contents of each file of the directory. *)
Abbreviation Disk := (gmap string (list Z)).

Inductive DiskOp :=
| Create (name : string) (data : list Z)    (* File::create, write_all, sync *)
| Append (name : string) (data : list Z)    (* OpenOptions::append(create), write_all *)
| Truncate (name : string) (len : nat)      (* set_len *)
| RemoveFile (name : string)
| HardLink (from to : string)
| Rename (from to : string).

Definition contents (d : Disk) (name : string) : list Z := default [] (d !! name).

Definition run_op (d : Disk) (o : DiskOp) : Disk :=
  match o with
  | Create n data => <[n := data]> d
  | Append n data => <[n := contents d n ++ data]> d
  | Truncate n len => match d !! n with Some b => <[n := take len b]> d | None => d end
  | RemoveFile n => delete n d
  | HardLink a b => match d !! a, d !! b with Some x, None => <[b := x]> d | _, _ => d end
  | Rename a b => match d !! a with Some x => <[b := x]> (delete a d) | None => d end
  end.

Definition run_ops (d : Disk) (ops : list DiskOp) : Disk := foldl run_op d ops.

(** What the directory can look like when the operation is cut off. *)
Definition torn (d : Disk) (o : DiskOp) (d' : Disk) : Prop :=
  d' = d \/ d' = run_op d o \/
  match o with
  | Create n _ => exists junk, d' = <[n := junk]> d
  | Append n data => exists part, prefix part data /\ d' = <[n := contents d n ++ part]> d
  | _ => False
  end.

(** The directories a crash during [ops] can leave. *)
Fixpoint crashes (d : Disk) (ops : list DiskOp) (d' : Disk) : Prop :=
  match ops with
  | [] => d' = d
  | o :: ops' => torn d o d' \/ crashes (run_op d o) ops' d'
  end.

(** * Replacing a file *)

(** [Path::file_stem] and [Path::with_extension] of a file name. *)
Fixpoint after_last_dot (rest : list Ascii.ascii) : option (list Ascii.ascii) :=
  match rest with
  | [] => None
  | c :: rest' => if bool_decide (c = "."%char) then Some rest' else after_last_dot rest'
  end.
Definition file_stem (name : string) : string :=
  match after_last_dot (rev (String.list_ascii_of_string name)) with
  | None | Some [] => name
  | Some stem => String.string_of_list_ascii (rev stem)
  end.
Definition with_extension (name ext : string) : string := (file_stem name ++ "." ++ ext)%string.

Definition tmp_of (path : string) : string := with_extension path "tmp".
Definition bak_of (path : string) : string := with_extension path "json.bak".

(** [write_atomic]. *)
Definition write_atomic (path : string) (data : list Z) : list DiskOp :=
  [Create (tmp_of path) data; RemoveFile (bak_of path); HardLink path (bak_of path);
   Rename (tmp_of path) path].

(** * Lines *)

Definition NL : Z := 10.
Definition CR : Z := 13.

(** [slice::split]: one piece more than there are separators. *)
Fixpoint split_on (sep : Z) (l : list Z) : list (list Z) :=
  match l with
  | [] => [[]]
  | b :: l' =>
      if b =? sep then [] :: split_on sep l'
      else match split_on sep l' with
           | p :: ps => (b :: p) :: ps
           | [] => [[b]]
           end
  end.

(** Up to and including the last newline: [rposition(|b| b == b'\n').map_or(0, |i| i + 1)]. *)
Fixpoint whole_lines (l : list Z) : nat :=
  match l with
  | [] => O
  | b :: l' =>
      match whole_lines l' with
      | O => if b =? NL then 1%nat else O
      | n => S n
      end
  end.

(** [BufRead::lines]: the terminator is a newline, or a carriage return and a newline; what
    follows the last newline is a line unless it is empty. *)
Definition chomp_cr (l : list Z) : list Z :=
  match last l with Some b => if b =? CR then removelast l else l | None => l end.
Definition lines (l : list Z) : list (list Z) :=
  let pieces := split_on NL l in
  map chomp_cr (removelast pieces) ++
  match last pieces with Some [] | None => [] | Some p => [p] end.

(** [str::from_utf8] as a test. *)
Definition utf8_ok (l : list Z) : bool := bool_decide (is_utf8 l).

(** * Lemmas *)

Lemma contents_insert (d : Disk) n b : contents (<[n := b]> d) n = b.
Proof. unfold contents. by rewrite lookup_insert_eq. Qed.

(** ** Crashes *)

Lemma crashes_start ops d : crashes d ops d.
Proof. destruct ops; cbn; [done|]. by left; left. Qed.

Lemma crashes_end ops : forall d, crashes d ops (run_ops d ops).
Proof. induction ops as [|o ops IH]; intros d; cbn; [done|]. right. apply IH. Qed.

Lemma crashes_app d ops1 ops2 d' :
  crashes d (ops1 ++ ops2) d' <-> crashes d ops1 d' \/ crashes (run_ops d ops1) ops2 d'.
Proof.
  revert d. induction ops1 as [|o ops1 IH]; intros d; cbn.
  - split; [by right|]. intros [->|H]; [apply crashes_start | done].
  - rewrite IH. tauto.
Qed.

Lemma run_ops_app d ops1 ops2 : run_ops d (ops1 ++ ops2) = run_ops (run_ops d ops1) ops2.
Proof. apply foldl_app. Qed.

(** The files an operation may touch. *)
Definition op_files (o : DiskOp) : list string :=
  match o with
  | Create n _ | Append n _ | Truncate n _ | RemoveFile n => [n]
  | HardLink _ b => [b]
  | Rename a b => [a; b]
  end.
Definition touches (ops : list DiskOp) : list string := concat (map op_files ops).

Lemma run_op_other d o n : n ∉ op_files o -> run_op d o !! n = d !! n.
Proof.
  destruct o; cbn [run_op op_files]; intros Hn;
    try (rewrite lookup_insert_ne by set_solver; done).
  - destruct (d !! name); [|done]. by rewrite lookup_insert_ne by set_solver.
  - by rewrite lookup_delete_ne by set_solver.
  - destruct (d !! from), (d !! to); try done. by rewrite lookup_insert_ne by set_solver.
  - destruct (d !! from); [|done]. rewrite lookup_insert_ne by set_solver.
    by rewrite lookup_delete_ne by set_solver.
Qed.

Lemma torn_other d o d' n : torn d o d' -> n ∉ op_files o -> d' !! n = d !! n.
Proof.
  intros [->|[->|H]] Hn; [done | by apply run_op_other|].
  destruct o; try done; cbn [op_files] in Hn.
  - destruct H as [junk ->]. by rewrite lookup_insert_ne by set_solver.
  - destruct H as (part & _ & ->). by rewrite lookup_insert_ne by set_solver.
Qed.

Lemma touches_cons o ops n : n ∉ touches (o :: ops) -> (n ∉ op_files o) /\ (n ∉ touches ops).
Proof. unfold touches. cbn [map concat]. rewrite elem_of_app. tauto. Qed.

Lemma run_ops_other ops : forall d n, n ∉ touches ops -> run_ops d ops !! n = d !! n.
Proof.
  induction ops as [|o ops IH]; intros d n Hn; [done|]. apply touches_cons in Hn as [H1 H2].
  cbn. rewrite IH by done. by apply run_op_other.
Qed.

Lemma crashes_other ops : forall d d' n, crashes d ops d' -> n ∉ touches ops -> d' !! n = d !! n.
Proof.
  induction ops as [|o ops IH]; intros d d' n H Hn; cbn in H; [by subst|].
  apply touches_cons in Hn as [H1 H2]. destruct H as [H|H].
  - by eapply torn_other.
  - rewrite (IH _ _ _ H H2). by apply run_op_other.
Qed.

(** ** Replacing a file *)

Section WriteAtomic.
Context (path : string) (data : list Z).
Hypothesis Htmp : tmp_of path <> path.
Hypothesis Hbak : bak_of path <> path.
Hypothesis Hdiff : tmp_of path <> bak_of path.

(** A crash leaves the new file, or the old one (with or without a copy of it). *)
Lemma write_atomic_crash d d' :
  crashes d (write_atomic path data) d' ->
  d' !! path = Some data \/
  (d' !! path = d !! path /\ (d' !! bak_of path = d !! bak_of path \/ d' !! bak_of path = None \/
                              d' !! bak_of path = d !! path)).
Proof using Htmp Hbak Hdiff.
  cbn [write_atomic crashes]. unfold torn; cbn [run_op].
  set (d1 := <[tmp_of path:=data]> d).
  set (d2 := delete (bak_of path) d1).
  set (d3 := match d2 !! path with Some x => match d2 !! bak_of path with None => <[bak_of path:=x]> d2
                                   | Some _ => d2 end | None => d2 end).
  assert (P1 : d1 !! path = d !! path) by (unfold d1; by rewrite lookup_insert_ne).
  assert (B1 : d1 !! bak_of path = d !! bak_of path) by (unfold d1; by rewrite lookup_insert_ne).
  assert (P2 : d2 !! path = d !! path) by (unfold d2; by rewrite lookup_delete_ne).
  assert (B2 : d2 !! bak_of path = None) by (unfold d2; by rewrite lookup_delete_eq).
  assert (T2 : d2 !! tmp_of path = Some data).
  { unfold d2, d1. rewrite lookup_delete_ne by done. by rewrite lookup_insert_eq. }
  assert (P3 : d3 !! path = d !! path /\ (d3 !! bak_of path = d !! path) /\ d3 !! tmp_of path = Some data).
  { unfold d3. rewrite P2, B2. destruct (d !! path) eqn:E; [|by rewrite P2, B2, T2].
    rewrite lookup_insert_ne, lookup_insert_eq, lookup_insert_ne by done. by rewrite P2, T2. }
  destruct P3 as (P3 & B3 & T3).
  intros [[-> | [-> | [junk ->]]] | [[-> | [-> | []]] | [[-> | [-> | []]] | [[-> | [-> | []]] | ->]]]];
    rewrite ?T3, ?P1, ?P2, ?P3, ?B1, ?B2, ?B3; auto.
  - right. rewrite !lookup_insert_ne by done. auto.
  - left. by rewrite lookup_insert_eq.
  - left. by rewrite lookup_insert_eq.
Qed.

Lemma write_atomic_done d : run_ops d (write_atomic path data) !! path = Some data.
Proof using Htmp Hbak Hdiff.
  cbn [write_atomic run_ops foldl run_op].
  set (d1 := <[tmp_of path:=data]> d). set (d2 := delete (bak_of path) d1).
  assert (T2 : d2 !! tmp_of path = Some data).
  { unfold d2, d1. rewrite lookup_delete_ne by done. by rewrite lookup_insert_eq. }
  destruct (d2 !! path) as [x|]; [destruct (d2 !! bak_of path)|];
    rewrite ?lookup_insert_ne by done; rewrite T2; by rewrite lookup_insert_eq.
Qed.
End WriteAtomic.

(** ** Lines *)

(** A file of lines, and one of fixed-size rows. *)
Definition line_bytes (ls : list string) : list Z := concat (map (fun s => str_bytes s ++ [NL]) ls).

Lemma line_bytes_app l1 l2 : line_bytes (l1 ++ l2) = line_bytes l1 ++ line_bytes l2.
Proof. unfold line_bytes. by rewrite map_app, concat_app. Qed.

(** A string [lines] gives back as it was written. *)
Definition line_ok (s : string) : Prop :=
  s <> ""%string /\ (NL ∉ str_bytes s) /\ last (str_bytes s) <> Some CR /\ utf8_ok (str_bytes s) = true.

Lemma split_on_line sep l l' : sep ∉ l -> split_on sep (l ++ sep :: l') = l :: split_on sep l'.
Proof.
  induction l as [|b l IH]; intros Hs; cbn [app split_on].
  - by rewrite Z.eqb_refl.
  - apply not_elem_of_cons in Hs as [Hb Hs]. rewrite (proj2 (Z.eqb_neq b sep)) by congruence.
    by rewrite IH.
Qed.

Lemma split_on_line_bytes ls :
  Forall line_ok ls -> split_on NL (line_bytes ls) = map str_bytes ls ++ [[]].
Proof.
  induction 1 as [|s ls (_ & Hs & _) _ IH]; [done|].
  unfold line_bytes in *. cbn [map concat app]. rewrite <- app_assoc. cbn [app].
  by rewrite split_on_line, IH.
Qed.

Lemma chomp_cr_id l : last l <> Some CR -> chomp_cr l = l.
Proof.
  unfold chomp_cr. destruct (last l) as [b|]; [|done]. intros H. destr_if; [|done]. bools. congruence.
Qed.

Lemma lines_line_bytes ls : Forall line_ok ls -> lines (line_bytes ls) = map str_bytes ls.
Proof.
  intros H. unfold lines. rewrite split_on_line_bytes by done.
  rewrite removelast_last, last_snoc, app_nil_r. induction H as [|s ls (_ & _ & Hs & _) _ IH]; [done|].
  cbn [map]. by rewrite IH, chomp_cr_id.
Qed.

Lemma whole_lines_none l : NL ∉ l -> whole_lines l = O.
Proof.
  induction l as [|b l IH]; [done|]. intros [Hb Hl]%not_elem_of_cons. cbn [whole_lines].
  rewrite (IH Hl). by rewrite (proj2 (Z.eqb_neq b NL)) by congruence.
Qed.

Lemma whole_lines_line l l' :
  whole_lines (l ++ NL :: l') = (length l + 1 + whole_lines l')%nat.
Proof.
  induction l as [|b l IH]; cbn [app whole_lines length].
  - destruct (whole_lines l'); [done | lia].
  - rewrite IH. destruct (length l + 1 + whole_lines l')%nat eqn:E; lia.
Qed.

(** Cutting a torn file of lines back to its last newline leaves the first lines of it. *)
Lemma whole_lines_prefix ls : forall p, Forall line_ok ls -> prefix p (line_bytes ls) ->
  exists k, take (whole_lines p) p = line_bytes (take k ls) /\
    forall n, prefix (line_bytes (take n ls)) p -> (n <= k \/ length ls <= k)%nat.
Proof.
  induction ls as [|s ls IH]; intros p Hls Hp.
  - apply prefix_nil_inv in Hp as ->. exists O. split; [done|]. intros n _. cbn. lia.
  - apply Forall_cons in Hls as [(Hne & Hs & _) Hls].
    change (line_bytes (s :: ls)) with ((str_bytes s ++ [NL]) ++ line_bytes ls) in Hp.
    destruct Hp as [r Hr]. rewrite <- app_assoc in Hr. cbn [app] in Hr.
    apply app_eq_app in Hr as [l [[H1 _]|[-> H2]]]; [|destruct l as [|b l]].
    + exists O. rewrite whole_lines_none; [|rewrite H1 in Hs; rewrite elem_of_app in Hs; tauto].
      split; [done|]. intros [|n] Hn; [lia|]. exfalso. destruct Hn as [x Hx].
      change (line_bytes (take (S n) (s :: ls))) with ((str_bytes s ++ [NL]) ++ line_bytes (take n ls)) in Hx.
      apply (f_equal length) in Hx, H1. rewrite !length_app in *. cbn in *. lia.
    + exists O. rewrite app_nil_r. rewrite (whole_lines_none _ Hs). split; [done|].
      intros [|n] Hn; [lia|]. exfalso. destruct Hn as [x Hx].
      change (line_bytes (take (S n) (s :: ls))) with ((str_bytes s ++ [NL]) ++ line_bytes (take n ls)) in Hx.
      apply (f_equal length) in Hx. rewrite !length_app in Hx. cbn in Hx. lia.
    + injection H2 as <- H2. destruct (IH l Hls) as (k & E & Hk); [by exists r|]. exists (S k). split.
      * rewrite whole_lines_line.
        change (line_bytes (take (S k) (s :: ls))) with ((str_bytes s ++ [NL]) ++ line_bytes (take k ls)).
        rewrite <- E, <- app_assoc. cbn [app].
        replace (length (str_bytes s) + 1 + whole_lines l)%nat
          with (length (str_bytes s) + S (whole_lines l))%nat by lia.
        by rewrite take_app_add.
      * intros [|n] Hn; [lia|]. cbn [length].
        change (line_bytes (take (S n) (s :: ls))) with ((str_bytes s ++ [NL]) ++ line_bytes (take n ls)) in Hn.
        rewrite <- app_assoc in Hn. apply prefix_app_inv in Hn. apply prefix_cons_inv_2 in Hn.
        destruct (Hk n Hn); lia.
Qed.

(** * A codec for any countable type *)

Fixpoint digits (p : positive) : list Z :=
  match p with xH => [93] | xO p => 48 :: digits p | xI p => 49 :: digits p end.

Fixpoint of_digits (l : list Z) : option positive :=
  match l with
  | [] => None
  | b :: l' =>
      if b =? 93 then match l' with [] => Some xH | _ => None end
      else if b =? 48 then xO <$> of_digits l'
      else if b =? 49 then xI <$> of_digits l' else None
  end.

Lemma of_digits_digits p : of_digits (digits p) = Some p.
Proof. induction p as [p IH|p IH|]; cbn; by rewrite ?IH. Qed.

Lemma of_digits_part p : forall l r, digits p = l ++ r -> r <> [] -> of_digits l = None.
Proof.
  induction p as [p IH|p IH|]; intros [|b l] r H Hr; try done; injection H as <- H; cbn.
  - by rewrite (IH _ _ H Hr).
  - by rewrite (IH _ _ H Hr).
  - destruct l; [|done]. cbn in H. by subst r.
Qed.

(** Another value after a part of one, or after all of it, does not read. *)
Lemma of_digits_glued p l' : forall l r, digits p = l ++ r -> of_digits (l ++ 91 :: l') = None.
Proof.
  induction p as [p IH|p IH|]; intros [|b l] r H; try done; injection H as <- H; cbn.
  - by rewrite (IH _ _ H).
  - by rewrite (IH _ _ H).
  - destruct l; done.
Qed.

Lemma digits_chars p : Forall (fun b => 40 < b) (digits p).
Proof. induction p; cbn; constructor; done || lia. Qed.

Section Codec.
Context {A : Type} `{Countable A}.

Definition to_text (a : A) : list Z := 91 :: digits (encode a).
Definition of_text (l : list Z) : option A :=
  match l with b :: l' => if b =? 91 then of_digits l' ≫= decode else None | [] => None end.

Lemma of_to_text a : of_text (to_text a) = Some a.
Proof. cbn. rewrite of_digits_digits. apply decode_encode. Qed.

Lemma of_text_part a p : prefix p (to_text a) -> p <> to_text a -> of_text p = None.
Proof.
  intros [r Hr] Hne. destruct p as [|b p]; [done|]. injection Hr as <- Hr. cbn.
  rewrite (of_digits_part _ _ _ Hr); [done|]. intros ->. apply Hne. by rewrite app_nil_r in Hr; subst.
Qed.

Lemma of_text_glued a p a' : prefix p (to_text a) -> p <> [] -> of_text (p ++ to_text a') = None.
Proof.
  intros [r Hr] Hne. destruct p as [|b p]; [done|]. injection Hr as <- Hr.
  change (to_text a') with (91 :: digits (encode a')). cbn. by rewrite (of_digits_glued _ _ _ _ Hr).
Qed.

Lemma to_text_chars a : Forall (fun b => 40 < b) (to_text a).
Proof. constructor; [lia | apply digits_chars]. Qed.
End Codec.
