(* ===== verification/Tides.v ===== *)
(** Data shared by the TIDES accounting files: work sources, credit rows and the per-miner
    view of the window ([prime/tides/src/lib.rs]). *)

From S2P Require Import Prelude Bytes.
Open Scope Z_scope.

Definition SOURCE_UNKNOWN : Z := 0.
Definition SOURCE_STRATUM : Z := 1.
Definition SOURCE_DATUM : Z := 2.
Definition SOURCE_STRATUM_GRACE : Z := 3.

(** One accepted unit of work, possibly several coalesced shares. *)
Record Credit := {
  ts : Z;      (* u32 *)
  ident : Z;   (* u32, index into the identity table *)
  work : Z;    (* u64 *)
  height : Z;  (* u32 *)
  source : Z   (* u8 *)
}.

#[export] Instance Credit_eq_dec : EqDecision Credit.
Proof. solve_decision. Defined.

(** [Credit::SIZE]. *)
Definition CREDIT_SIZE : nat := 24.

(** [Credit::write]. *)
Definition credit_write (c : Credit) : list Z :=
  u32_bytes (ts c) ++ u32_bytes (ident c) ++ u64_bytes (work c) ++ u32_bytes (height c)
  ++ [source c; 0; 0; 0].

(** [Credit::read] of a 24-byte row. *)
Definition credit_read (b : list Z) : Credit := {|
  ts := of_le (take 4 b);
  ident := of_le (take 4 (drop 4 b));
  work := of_le (take 8 (drop 8 b));
  height := of_le (take 4 (drop 16 b));
  source := nth 20 b 0
|}.

Definition credit_ok (c : Credit) : Prop :=
  in_range u32_max (ts c) /\ in_range u32_max (ident c) /\ in_range u64_max (work c) /\
  in_range u32_max (height c) /\ in_range u8_max (source c).

(** Per-identity view of the window. *)
Record MinerStat := {
  m_identity : string;
  m_work : Z;
  m_stratum_work : Z;
  m_grace_work : Z;
  m_credits : Z;
  m_last_ts : Z;
  m_carry : Z
}.

Definition miner_ok (m : MinerStat) : Prop :=
  in_range u64_max (m_work m) /\ in_range u64_max (m_stratum_work m) /\
  in_range u64_max (m_grace_work m) /\ in_range u64_max (m_carry m).

Lemma length_credit_write c : length (credit_write c) = CREDIT_SIZE.
Proof. reflexivity. Qed.

Lemma credit_write_bytes c : credit_ok c -> is_bytes (credit_write c).
Proof.
  intros (_ & _ & _ & _ & H). unfold credit_write, u32_bytes, u64_bytes, is_bytes.
  rewrite !Forall_app. repeat split; try apply le_bytes_is_bytes.
  repeat constructor; unfold is_byte, in_range; lia || apply H.
Qed.

Lemma credit_read_write c : credit_ok c -> credit_read (credit_write c) = c.
Proof.
  intros (H1 & H2 & H3 & H4 & _). destruct c as [t i w h s]; simpl in *.
  unfold credit_read, credit_write; cbn [ts ident work height source].
  f_equal.
  - exact (of_le_u32 _ H1).
  - exact (of_le_u32 _ H2).
  - exact (of_le_u64 _ H3).
  - exact (of_le_u32 _ H4).
Qed.
