(* ===== verification/Split.v ===== *)
(** Turning a window into coinbase outputs ([prime/tides/src/split.rs]).

    The definitions follow [compute] step by step: fee classes, the DATUM rebate, each miner's
    share, the queue ordered by what is owed, and the two placement passes. Arithmetic that the
    overflow checks guard is in the [panics] monad. *)

From S2P Require Import Prelude Tides.
Open Scope Z_scope.

(** * Data *)

Record SplitParams := {
  fee_bps : Z;
  stratum_fee_bps : Z;
  datum_rebate_bps : Z;
  grace_fee_bps : Z;
  grace_rebate_bps : Z;
  min_payout : Z;
  max_outputs : Z;
  output_budget_bytes : Z;
  stale_after : Z;
  stale_min_payout : Z;
  stale_max_outputs : Z
}.

Record Payee := {
  p_identity : string;
  p_work : Z;
  p_sats : Z;
  p_carry : Z;
  p_script : list Z
}.

Inductive UnpaidReason := NoScript | BelowMinimum | OverBudget.

#[export] Instance UnpaidReason_eq_dec : EqDecision UnpaidReason.
Proof. solve_decision. Defined.

Record Unpaid := {
  u_identity : string;
  u_sats : Z;
  u_earned : Z;
  u_reason : UnpaidReason
}.

Record Split := {
  s_value : Z;
  s_fee_sats : Z;
  s_total_work : Z;
  s_payees : list Payee;
  s_unpaid : list Unpaid;
  s_pool_sats : Z;
  s_carry_paid : Z;
  s_rebate_credits : list (string * Z);
  s_rebate_sats : Z;
  s_rebate_owed_credited : Z;
  s_rebate_deferred : Z
}.

(** * Parameters of a split *)

Definition is_stale (p : SplitParams) (m : MinerStat) (now : Z) : bool :=
  (0 <? stale_after p) && (m_work m =? 0) && (0 <? m_last_ts m)
  && (stale_after p <=? sat_sub now (m_last_ts m)).

(** The payout floor for this miner at time [now]. *)
Definition floor_for (p : SplitParams) (m : MinerStat) (now : Z) : Z :=
  if is_stale p m now then Z.min (stale_min_payout p) (min_payout p) else min_payout p.

(** [SplitParams::default]. *)
Definition split_params_default : SplitParams := {|
  fee_bps := 0; stratum_fee_bps := 0; datum_rebate_bps := 0; grace_fee_bps := 0;
  grace_rebate_bps := 0; min_payout := 546; max_outputs := 512; output_budget_bytes := 14000;
  stale_after := 0; stale_min_payout := 546; stale_max_outputs := 25
|}.

(** [Unpaid::defers]: whether the earned share rolls forward as carry. *)
Definition defers (u : Unpaid) : bool :=
  match u_reason u with NoScript => false | BelowMinimum | OverBudget => 0 <? u_earned u end.

(** * What a found block does to the balances *)

(** [x.min(i64::MAX as u64) as i64]. *)
Definition clamp_i64 (x : Z) : Z := Z.min x i64_max.

Definition rebate_delta (rebate_owed_credited rebate_deferred : Z) : Z :=
  clamp_i64 rebate_deferred - clamp_i64 rebate_owed_credited.

Definition carry_delta (payees : list Payee) (unpaid : list Unpaid)
    (rebate_credits : list (string * Z)) (was_paid : Payee -> bool) : list (string * Z) :=
  map (fun p => (p_identity p, - clamp_i64 (p_carry p)))
    (filter (fun p => (0 <? p_carry p) && was_paid p) payees)
  ++ map (fun u => (u_identity u, clamp_i64 (u_earned u))) (filter (fun u => defers u) unpaid)
  ++ map (fun c => (c.1, clamp_i64 c.2)) (filter (fun c => 0 <? c.2) rebate_credits).

(** [Split::paid_sats]. *)
Definition paid_sats (s : Split) : panics Z := chk_sum u64_max 0 (map p_sats (s_payees s)).

(** [Split::carry_delta] and [Split::rebate_delta]. *)
Definition split_carry_delta (s : Split) (was_paid : Payee -> bool) : list (string * Z) :=
  carry_delta (s_payees s) (s_unpaid s) (s_rebate_credits s) was_paid.
Definition split_rebate_delta (s : Split) : Z :=
  rebate_delta (s_rebate_owed_credited s) (s_rebate_deferred s).

(** * The DATUM rebate *)

(** A miner's payable DATUM work: [m.work - m.stratum_work.min(m.work)]. *)
Definition datum_work (m : MinerStat) : Z := m_work m - Z.min (m_stratum_work m) (m_work m).

Definition eligible (miners : list MinerStat) (script_for : string -> option (list Z))
    : list (string * Z) :=
  map (fun m => (m_identity m, datum_work m))
    (filter (fun m => (0 <? datum_work m) && bool_decide (is_Some (script_for (m_identity m)))) miners).

(** The loop over the eligible miners: credits handed out and their sum. *)
Fixpoint credit_each (pot total credited : Z) (el : list (string * Z))
    : panics (list (string * Z) * Z) :=
  match el with
  | [] => Ret ([], credited)
  | (id, dw) :: el' =>
      prod ← chk_mul u128_max pot dw;
      let c := trunc u64_max (prod / total) in
      credited' ← chk_add u64_max credited c;
      '(rest, sum) ← credit_each pot total credited' el';
      Ret (if 0 <? c then ((id, c) :: rest, sum) else (rest, sum))
  end.

Definition rebate_credits (miners : list MinerStat) (pot : Z)
    (script_for : string -> option (list Z)) : panics (list (string * Z) * Z) :=
  if pot =? 0 then Ret ([], 0) else
  let el := eligible miners script_for in
  total ← chk_sum u64_max 0 (map snd el);
  if total =? 0 then Ret ([], pot) else
  '(credits, credited) ← credit_each pot total 0 el;
  rest ← chk_sub pot credited;
  Ret (credits, rest).

Definition fee_for (value bps : Z) : Z := trunc u64_max ((value * bps) / 10000).

Definition stratum_rebate (value total_work total_sw rebate_bps : Z) : panics Z :=
  if (total_work =? 0) || (rebate_bps =? 0) then Ret 0 else
  a ← chk_mul u128_max value total_sw;
  b ← chk_mul u128_max a rebate_bps;
  Ret (trunc u64_max (b / total_work / 10000)).

(** A miner's window work by fee class: full-fee house stratum, grace stratum, DATUM. *)
Definition classes (m : MinerStat) : Z * Z * Z :=
  let stratum := Z.min (m_stratum_work m) (m_work m) in
  let gw := Z.min (m_grace_work m) stratum in
  (stratum - gw, gw, m_work m - stratum).

(** * [compute] *)

(** The fee and rebate rates [compute] works with. *)
Record Rates := {
  stratum_bps : Z;
  rebate_bps : Z;
  grace_bps : Z;
  grace_reb_bps : Z
}.

Definition rates (p : SplitParams) : Rates :=
  let s := if stratum_fee_bps p =? 0 then fee_bps p else stratum_fee_bps p in
  let g := Z.min (grace_fee_bps p) 10000 in
  {| stratum_bps := s; rebate_bps := Z.min (datum_rebate_bps p) s;
     grace_bps := g; grace_reb_bps := Z.min (grace_rebate_bps p) g |}.

Definition class_sw (m : MinerStat) : Z := (classes m).1.1.
Definition class_gw (m : MinerStat) : Z := (classes m).1.2.
Definition class_dw (m : MinerStat) : Z := (classes m).2.

(** The first loop: full-fee stratum work, grace work and the payout scripts. *)
Definition total_class (f : MinerStat -> Z) (miners : list MinerStat) : Z :=
  foldl (fun acc m => sat_add u64_max acc (f m)) 0 miners.

Definition miner_script (script_for : string -> option (list Z)) (m : MinerStat)
    : option (list Z) :=
  if (0 <? m_work m) || (0 <? m_carry m) then script_for (m_identity m) else None.

(** [by_index]: where a name is listed twice the later entry is the one found. *)
Definition script_by_name (ms : list (MinerStat * option (list Z))) (id : string)
    : option (list Z) :=
  foldl (fun acc x => if bool_decide (m_identity x.1 = id) then x.2 else acc) None ms.

Record Rebate := {
  rb_credits : list (string * Z);
  rb_sats : Z;
  rb_owed_credited : Z;
  rb_deferred : Z
}.

(** The rebate part of [compute]. *)
Definition compute_rebate (ms : list (MinerStat * option (list Z)))
    (total_work value : Z) (r : Rates) (rebate_owed : Z) : panics Rebate :=
  let miners := map fst ms in
  let total_sw := total_class class_sw miners in
  let total_gw := total_class class_gw miners in
  from_stratum ← stratum_rebate value total_work total_sw (rebate_bps r);
  from_grace ← stratum_rebate value total_work total_gw (grace_reb_bps r);
  let from_fee := sat_add u64_max from_stratum from_grace in
  '(credits, _) ←
    (if (0 <? rebate_bps r) || ((0 <? total_gw) && (0 <? grace_reb_bps r)) then
       rebate_credits miners (sat_add u64_max from_fee rebate_owed) (script_by_name ms)
     else Ret ([], 0));
  sats ← chk_sum u64_max 0 (map snd credits);
  Ret (match credits with
       | [] => {| rb_credits := []; rb_sats := sats; rb_owed_credited := 0; rb_deferred := from_fee |}
       | _ => {| rb_credits := credits; rb_sats := sats; rb_owed_credited := rebate_owed;
                 rb_deferred := 0 |}
       end).

(** [u128::from(sw) * u128::from(a) + u128::from(gw) * u128::from(b) + u128::from(dw) * u128::from(c)]. *)
Definition weigh (m : MinerStat) (a b c : Z) : panics Z :=
  x ← chk_mul u128_max (class_sw m) a;
  y ← chk_mul u128_max (class_gw m) b;
  xy ← chk_add u128_max x y;
  z ← chk_mul u128_max (class_dw m) c;
  chk_add u128_max xy z.

(** One miner's earned share of this block and the fee charged on it. *)
Definition share_of (p : SplitParams) (r : Rates) (total_work value : Z) (m : MinerStat)
    : panics (Z * Z) :=
  if (0 <? total_work) && (0 <? m_work m) then
    ks ← chk_sub 10000 (stratum_bps r);
    kg ← chk_sub 10000 (grace_bps r);
    kd ← chk_sub 10000 (fee_bps p);
    keep ← weigh m ks kg kd;
    num ← chk_mul u128_max value keep;
    let earned := trunc u64_max (num / total_work / 10000) in
    charge ← weigh m (stratum_bps r) (grace_bps r) (fee_bps p);
    fnum ← chk_mul u128_max value charge;
    let fee := trunc u64_max (fnum / total_work / 10000) in
    Ret (earned, fee)
  else Ret (0, 0).

Record Shares := {
  sh_fee_sats : Z;
  sh_earned_payable : Z;
  sh_shares : list Z
}.

(** The second loop: every miner's share, the fees and the payable total. *)
Fixpoint compute_shares (p : SplitParams) (r : Rates) (total_work value : Z)
    (fee_sats earned_payable : Z) (ms : list (MinerStat * option (list Z))) : panics Shares :=
  match ms with
  | [] => Ret {| sh_fee_sats := fee_sats; sh_earned_payable := earned_payable; sh_shares := [] |}
  | (m, script) :: ms' =>
      '(earned, fee) ← share_of p r total_work value m;
      s ← compute_shares p r total_work value (sat_add u64_max fee_sats fee)
            (match script with Some _ => sat_add u64_max earned_payable earned | None => earned_payable end) ms';
      Ret {| sh_fee_sats := sh_fee_sats s; sh_earned_payable := sh_earned_payable s;
             sh_shares := earned :: sh_shares s |}
  end.


(** What an identity is owed in all: this block's share plus carry. *)
Definition owed (x : MinerStat * option (list Z) * Z) : Z :=
  sat_add u64_max x.2 (m_carry x.1.1).

(** Largest first; ties keep the window's order. *)
Definition order_queue (q : list (MinerStat * option (list Z) * Z))
    : list (MinerStat * option (list Z) * Z) :=
  sort_by (fun x y => owed y <=? owed x) q.

Record PlaceState := {
  pl_placed : list (MinerStat * list Z * Z);
  pl_unpaid : list Unpaid;
  pl_bytes : Z;
  pl_stale : Z;
  pl_room : Z
}.

Definition need_bytes (script : list Z) : Z := 8 + 1 + Z.of_nat (length script).

(** Why the first pass does not place an identity, if it does not. *)
Definition refusal (p : SplitParams) (now : Z) (st : PlaceState) (m : MinerStat)
    (script : list Z) (total : Z) : option UnpaidReason :=
  if total <? floor_for p m now then Some BelowMinimum
  else if (max_outputs p <=? Z.of_nat (length (pl_placed st)))
          || (output_budget_bytes p <? pl_bytes st + need_bytes script)
          || (is_stale p m now && (stale_max_outputs p <=? pl_stale st))
  then Some OverBudget else None.

(** First pass, one identity. *)
Definition place_one (p : SplitParams) (now : Z) (st : PlaceState)
    (x : MinerStat * option (list Z) * Z) : PlaceState :=
  let '(m, script, earned) := x in
  let total := owed x in
  if total =? 0 then st else
  match script with
  | None =>
      {| pl_placed := pl_placed st;
         pl_unpaid := pl_unpaid st ++ [{| u_identity := m_identity m; u_sats := total;
                                          u_earned := earned; u_reason := NoScript |}];
         pl_bytes := pl_bytes st; pl_stale := pl_stale st; pl_room := pl_room st |}
  | Some script =>
      match refusal p now st m script total with
      | Some reason =>
          {| pl_placed := pl_placed st;
             pl_unpaid := pl_unpaid st ++ [{| u_identity := m_identity m; u_sats := total;
                                              u_earned := earned; u_reason := reason |}];
             pl_bytes := pl_bytes st; pl_stale := pl_stale st;
             pl_room := sat_add u64_max (pl_room st) earned |}
      | None =>
          {| pl_placed := pl_placed st ++ [(m, script, earned)];
             pl_unpaid := pl_unpaid st;
             pl_bytes := pl_bytes st + need_bytes script;
             pl_stale := pl_stale st + (if is_stale p m now then 1 else 0);
             pl_room := pl_room st |}
      end
  end.

Definition place_all (p : SplitParams) (now room : Z)
    (q : list (MinerStat * option (list Z) * Z)) : PlaceState :=
  foldl (place_one p now)
    {| pl_placed := []; pl_unpaid := []; pl_bytes := 0; pl_stale := 0; pl_room := room |} q.

Record PayState := {
  py_payees : list Payee;
  py_unpaid : list Unpaid;
  py_paid : Z;
  py_carry_paid : Z;
  py_room : Z
}.

(** Second pass, one placed identity. *)
Definition pay_one (p : SplitParams) (now : Z) (st : PayState) (x : MinerStat * list Z * Z)
    : panics PayState :=
  let '(m, script, earned) := x in
  let carry := Z.min (m_carry m) (py_room st) in
  sats ← chk_add u64_max earned carry;
  if (sats <? floor_for p m now) || (is_stale p m now && (carry <? m_carry m)) then
    Ret {| py_payees := py_payees st;
           py_unpaid := py_unpaid st ++ [{| u_identity := m_identity m;
                                            u_sats := sat_add u64_max earned (m_carry m);
                                            u_earned := earned; u_reason := OverBudget |}];
           py_paid := py_paid st; py_carry_paid := py_carry_paid st;
           py_room := sat_add u64_max (py_room st) earned |}
  else
    room ← chk_sub (py_room st) carry;
    paid ← chk_add u64_max (py_paid st) sats;
    carry_paid ← chk_add u64_max (py_carry_paid st) carry;
    Ret {| py_payees := py_payees st ++ [{| p_identity := m_identity m; p_work := m_work m;
                                            p_sats := sats; p_carry := carry; p_script := script |}];
           py_unpaid := py_unpaid st; py_paid := paid; py_carry_paid := carry_paid;
           py_room := room |}.

Fixpoint pay_all (p : SplitParams) (now : Z) (st : PayState) (l : list (MinerStat * list Z * Z))
    : panics PayState :=
  match l with
  | [] => Ret st
  | x :: l' => st' ← pay_one p now st x; pay_all p now st' l'
  end.

(** Both passes over the queue, and the remainder the pool keeps. *)
Definition place_and_pay (p : SplitParams) (now value : Z) (sh : Shares)
    (ms : list (MinerStat * option (list Z))) : panics PayState :=
  let room := sat_sub value (sh_earned_payable sh) in
  let st := place_all p now room (order_queue (zip ms (sh_shares sh))) in
  pay_all p now
    {| py_payees := []; py_unpaid := pl_unpaid st; py_paid := 0; py_carry_paid := 0;
       py_room := pl_room st |} (pl_placed st).

Definition compute (miners : list MinerStat) (total_work value : Z) (p : SplitParams)
    (rebate_owed now : Z) (script_for : string -> option (list Z)) : panics Split :=
  let r := rates p in
  let ms := map (fun m => (m, miner_script script_for m)) miners in
  reb ← compute_rebate ms total_work value r rebate_owed;
  sh ← compute_shares p r total_work value 0 0 ms;
  st ← place_and_pay p now value sh ms;
  Ret {| s_value := value; s_fee_sats := sh_fee_sats sh; s_total_work := total_work;
         s_payees := py_payees st; s_unpaid := py_unpaid st;
         s_pool_sats := sat_sub value (py_paid st); s_carry_paid := py_carry_paid st;
         s_rebate_credits := rb_credits reb; s_rebate_sats := rb_sats reb;
         s_rebate_owed_credited := rb_owed_credited reb; s_rebate_deferred := rb_deferred reb |}.

(** The test of the source: fee, floor and proportional shares. *)
Definition demo_script (id : string) : option (list Z) := Some [0; 20; 1].
Definition demo_miner (id : string) (work carry : Z) : MinerStat := {|
  m_identity := id; m_work := work; m_stratum_work := 0; m_grace_work := 0; m_credits := 1;
  m_last_ts := 0; m_carry := carry |}.
Definition demo_params (fee floor : Z) : SplitParams := {|
  fee_bps := fee; stratum_fee_bps := fee; datum_rebate_bps := 0; grace_fee_bps := 0;
  grace_rebate_bps := 0; min_payout := floor; max_outputs := 512; output_budget_bytes := 14000;
  stale_after := 0; stale_min_payout := 546; stale_max_outputs := 25 |}.
