(* ===== verification/SplitFacts.v ===== *)
(** Correctness of the coinbase split of [Split.v]: no panic on admissible inputs, exact
    conservation of the block value, floors and budgets, placement of every identity. *)

From S2P Require Import Prelude Tides Split.
Open Scope Z_scope.

(** * Lemmas: fee classes and shares *)

(** The exact, unbounded reading of a miner's share and of the fee on it. *)
Definition keep_of (p : SplitParams) (m : MinerStat) : Z :=
  class_sw m * (10000 - stratum_bps (rates p)) + class_gw m * (10000 - grace_bps (rates p))
  + class_dw m * (10000 - fee_bps p).
Definition charge_of (p : SplitParams) (m : MinerStat) : Z :=
  class_sw m * stratum_bps (rates p) + class_gw m * grace_bps (rates p) + class_dw m * fee_bps p.
Definition pro_rata (total_work value weight : Z) : Z :=
  if (0 <? total_work) then value * weight / total_work / 10000 else 0.

(** What [compute] may be called with: amounts of their machine types, fees up to 100%, a
    window whose total is at least the work listed, and a product that fits 128 bits (any
    block value up to 21 million coins with up to 2^63 of work does). *)
Record split_ok (miners : list MinerStat) (total_work value : Z) (p : SplitParams)
    (rebate_owed : Z) : Prop := {
  so_miners : Forall miner_ok miners;
  so_fee : 0 <= fee_bps p <= 10000;
  so_stratum_fee : 0 <= stratum_fee_bps p <= 10000;
  so_rebate : 0 <= datum_rebate_bps p;
  so_grace_fee : 0 <= grace_fee_bps p;
  so_grace_rebate : 0 <= grace_rebate_bps p;
  so_work : zsum (map m_work miners) <= total_work;
  so_total : in_range u64_max total_work;
  so_value : in_range u64_max value;
  so_owed : in_range u64_max rebate_owed;
  so_product : value * total_work * 10000 <= u128_max
}.

#[export] Instance miner_ok_dec m : Decision (miner_ok m).
Proof. unfold miner_ok, in_range. apply _. Defined.

Lemma trunc_small top z : in_range top z -> trunc top z = z.
Proof. unfold trunc, in_range. intros. apply Z.mod_small. lia. Qed.

Lemma classes_sum m : class_sw m + class_gw m + class_dw m = m_work m.
Proof. unfold class_sw, class_gw, class_dw, classes; simpl. lia. Qed.

Lemma classes_nonneg m : miner_ok m -> 0 <= class_sw m /\ 0 <= class_gw m /\ 0 <= class_dw m.
Proof.
  unfold miner_ok, in_range, class_sw, class_gw, class_dw, classes; simpl. lia.
Qed.

Lemma class_sw_le m : miner_ok m -> class_sw m <= m_work m.
Proof. intros H%classes_nonneg. pose proof (classes_sum m). lia. Qed.
Lemma class_gw_le m : miner_ok m -> class_gw m <= m_work m.
Proof. intros H%classes_nonneg. pose proof (classes_sum m). lia. Qed.

Lemma datum_work_dw m : datum_work m = class_dw m.
Proof. reflexivity. Qed.

Section Rates.
Context (miners : list MinerStat) (total_work value : Z) (p : SplitParams) (rebate_owed : Z).
Hypothesis OK : split_ok miners total_work value p rebate_owed.

Lemma rates_bounds :
  0 <= stratum_bps (rates p) <= 10000 /\ 0 <= rebate_bps (rates p) <= stratum_bps (rates p) /\
  0 <= grace_bps (rates p) <= 10000 /\ 0 <= grace_reb_bps (rates p) <= grace_bps (rates p).
Proof using OK.
  destruct OK. unfold rates; simpl. destruct (stratum_fee_bps p =? 0); lia.
Qed.

Lemma miner_in m : m ∈ miners -> miner_ok m /\ m_work m <= total_work.
Proof using OK.
  intros Hm. destruct OK as [HF _ _ _ _ _ Hw _ _ _ _].
  split; [by eapply Forall_forall in HF|].
  enough (m_work m <= zsum (map m_work miners)) by lia.
  apply zsum_elem_le.
  - apply Forall_forall. intros y (x & -> & Hx)%list_elem_of_fmap.
    eapply Forall_forall in HF; [|exact Hx]. apply HF.
  - apply list_elem_of_fmap. eauto.
Qed.

Lemma keep_charge m : keep_of p m + charge_of p m = m_work m * 10000.
Proof using. unfold keep_of, charge_of. rewrite <- (classes_sum m). ring. Qed.

Lemma keep_bounds m : miner_ok m -> 0 <= keep_of p m /\ 0 <= charge_of p m.
Proof using OK.
  intros Hm%classes_nonneg. pose proof rates_bounds. destruct OK.
  unfold keep_of, charge_of. split; nia.
Qed.

Lemma weigh_ok m a b c :
  miner_ok m -> 0 <= a <= 10000 -> 0 <= b <= 10000 -> 0 <= c <= 10000 ->
  weigh m a b c = Ret (class_sw m * a + class_gw m * b + class_dw m * c).
Proof using.
  intros Hm Ha Hb Hc. pose proof (classes_nonneg m Hm) as (H1 & H2 & H3).
  pose proof (classes_sum m). destruct Hm as (Hw & _). unfold in_range in Hw.
  assert (class_sw m * a <= class_sw m * 10000) by (apply Z.mul_le_mono_nonneg_l; lia).
  assert (class_gw m * b <= class_gw m * 10000) by (apply Z.mul_le_mono_nonneg_l; lia).
  assert (class_dw m * c <= class_dw m * 10000) by (apply Z.mul_le_mono_nonneg_l; lia).
  unfold weigh.
  run chk_mul_ok. run chk_mul_ok. run chk_add_ok. run chk_mul_ok. apply chk_add_ok. lia.
Qed.

Lemma pro_rata_nonneg w : 0 <= w -> 0 <= pro_rata total_work value w.
Proof using OK.
  intros Hw. unfold pro_rata. destruct OK. unfold in_range in *.
  destruct (Z.ltb_spec 0 total_work); [|lia].
  apply Z.div_pos; [|lia]. apply Z.div_pos; [|lia]. apply Z.mul_nonneg_nonneg; lia.
Qed.

(** A weight within the total work is worth at most [value]. *)
Lemma pro_rata_le w : 0 <= w <= total_work * 10000 -> pro_rata total_work value w <= value.
Proof using OK.
  intros Hw. unfold pro_rata. destruct OK. unfold in_range in *.
  destruct (Z.ltb_spec 0 total_work); [|lia].
  rewrite Z.div_div by lia. apply Z.div_le_upper_bound; [lia|].
  rewrite (Z.mul_comm (total_work * 10000)). apply Z.mul_le_mono_nonneg_l; lia.
Qed.

Lemma share_of_ok m :
  m ∈ miners ->
  share_of p (rates p) total_work value m =
    Ret (pro_rata total_work value (keep_of p m), pro_rata total_work value (charge_of p m)).
Proof using OK.
  intros Hin. destruct (miner_in m Hin) as [Hm Hle].
  pose proof rates_bounds as (Hs & _ & Hg & _). pose proof (keep_bounds m Hm) as [Hk Hc].
  pose proof (keep_charge m) as Hkc. unfold share_of.
  destruct (Z.ltb_spec 0 total_work) as [HT|HT]; cbn [andb]; cycle 1.
  { unfold pro_rata. rewrite (proj2 (Z.ltb_ge _ _)) by lia. done. }
  destruct (Z.ltb_spec 0 (m_work m)) as [Hw|Hw]; cycle 1.
  { assert (keep_of p m = 0 /\ charge_of p m = 0) as [-> ->] by lia.
    unfold pro_rata. rewrite (proj2 (Z.ltb_lt _ _)) by lia. rewrite Z.mul_0_r, Z.div_0_l by lia. done. }
  destruct OK. unfold in_range in *.
  assert (value * keep_of p m <= u128_max).
  { transitivity (value * total_work * 10000); [|done]. rewrite <- Z.mul_assoc.
    apply Z.mul_le_mono_nonneg_l; lia. }
  assert (value * charge_of p m <= u128_max).
  { transitivity (value * total_work * 10000); [|done]. rewrite <- Z.mul_assoc.
    apply Z.mul_le_mono_nonneg_l; lia. }
  do 3 run chk_sub_ok. run weigh_ok. fold (keep_of p m). run chk_mul_ok.
  run weigh_ok. fold (charge_of p m). run chk_mul_ok.
  assert (HP : forall w, 0 <= w <= total_work * 10000 ->
    trunc u64_max (value * w / total_work / 10000) = pro_rata total_work value w).
  { intros w Hw'. pose proof (pro_rata_nonneg w). pose proof (pro_rata_le w Hw').
    unfold pro_rata in *. rewrite (proj2 (Z.ltb_lt _ _) HT) in *.
    apply trunc_small. unfold in_range. lia. }
  rewrite !HP by lia. done.
Qed.

Lemma div_sum_le {A} (f : A -> Z) T l :
  0 < T -> zsum (map (fun x => f x / T) l) <= zsum (map f l) / T.
Proof using.
  intros HT. induction l as [|x l IH]; simpl.
  - rewrite Z.div_0_l; lia.
  - pose proof (Z.div_add_l 0 T 0). transitivity (f x / T + zsum (map f l) / T); [lia|].
    apply Z.div_le_lower_bound; [lia|].
    pose proof (Z.mul_div_le (f x) T HT). pose proof (Z.mul_div_le (zsum (map f l)) T HT). lia.
Qed.

(** Shares of weights that fit in the window add up to at most [value]. *)
Lemma pro_rata_sum_le {A} (w : A -> Z) l :
  (forall x, x ∈ l -> 0 <= w x) -> zsum (map w l) <= total_work * 10000 ->
  zsum (map (fun x => pro_rata total_work value (w x)) l) <= value.
Proof using OK.
  intros Hw Hsum. unfold pro_rata. destruct OK. unfold in_range in *.
  destruct (Z.ltb_spec 0 total_work) as [HT|HT].
  - assert (Heq : map (fun x => value * w x / total_work / 10000) l
       = map (fun x => value * w x / (total_work * 10000)) l).
    { apply map_ext. intros x. rewrite Z.div_div by lia. done. }
    rewrite Heq.
    etransitivity; [apply (div_sum_le (fun x => value * w x)); lia|].
    assert (zsum (map (fun x => value * w x) l) = zsum (map w l) * value) as ->.
    { rewrite <- zsum_map_mul_r. f_equal. apply map_ext. intros; lia. }
    apply Z.div_le_upper_bound; [lia|]. apply Z.mul_le_mono_nonneg_r; lia.
  - clear -so_value0. induction l as [|x l IH]; simpl; [lia|]. lia.
Qed.
End Rates.

(** * Lemmas: the rebate *)

Section RebateLemmas.
Context (miners : list MinerStat) (total_work value : Z) (p : SplitParams) (rebate_owed : Z).
Hypothesis OK : split_ok miners total_work value p rebate_owed.

Lemma foldl_sat_add {A} (f : A -> Z) l acc :
  0 <= acc -> (forall x, x ∈ l -> 0 <= f x) -> acc + zsum (map f l) <= u64_max ->
  foldl (fun acc x => sat_add u64_max acc (f x)) acc l = acc + zsum (map f l).
Proof using.
  revert acc. induction l as [|x l IH]; intros acc Hacc Hf Hsum; simpl in *; [lia|].
  assert (0 <= f x) by (apply Hf; left).
  assert (0 <= zsum (map f l)) by (apply zsum_map_nonneg; intros; apply Hf; by right).
  rewrite IH; [sat_lia | sat_lia | intros; apply Hf; by right | sat_lia].
Qed.

Lemma total_class_ok f :
  (forall m, miner_ok m -> 0 <= f m <= m_work m) ->
  total_class f miners = zsum (map f miners) /\ 0 <= zsum (map f miners) <= total_work.
Proof using OK.
  intros Hf.
  assert (Hin : forall m, m ∈ miners -> 0 <= f m <= m_work m).
  { intros m Hm. apply Hf. eapply miner_in; eauto. }
  assert (0 <= zsum (map f miners)) by (apply zsum_map_nonneg; intros m Hm; by apply Hin).
  assert (zsum (map f miners) <= zsum (map m_work miners))
    by (apply zsum_map_le; intros m Hm; by apply Hin).
  destruct OK. unfold in_range in *. split; [|lia].
  unfold total_class. rewrite foldl_sat_add; [lia | lia | intros m Hm; by apply Hin | lia].
Qed.

Lemma stratum_rebate_ok w bps :
  0 <= w <= total_work -> 0 <= bps <= 10000 ->
  exists r, stratum_rebate value total_work w bps = Ret r /\ 0 <= r <= value /\
    r = pro_rata total_work value (w * bps).
Proof using OK.
  intros Hw Hb. exists (pro_rata total_work value (w * bps)).
  assert (Hr : 0 <= w * bps <= total_work * 10000).
  { split; [apply Z.mul_nonneg_nonneg; lia|]. apply Z.mul_le_mono_nonneg; lia. }
  pose proof (pro_rata_nonneg _ _ _ _ _ OK (w * bps)) as Hn.
  pose proof (pro_rata_le _ _ _ _ _ OK (w * bps) Hr) as Hle.
  split; [|lia].
  unfold stratum_rebate. destruct (Z.eqb_spec total_work 0) as [->|HT]; cbn [orb].
  { unfold pro_rata. done. }
  destruct (Z.eqb_spec bps 0) as [->|HB].
  { unfold pro_rata. rewrite Z.mul_0_r, Z.mul_0_r, Z.div_0_l by lia. by destruct (0 <? total_work). }
  destruct OK. unfold in_range in *.
  assert (value * w <= value * total_work) by (apply Z.mul_le_mono_nonneg_l; lia).
  assert (0 <= value * w) by (apply Z.mul_nonneg_nonneg; lia).
  assert (value * w * bps <= value * total_work * 10000) by (apply Z.mul_le_mono_nonneg; lia).
  run chk_mul_ok. run chk_mul_ok. f_equal. unfold pro_rata in *.
  rewrite (proj2 (Z.ltb_lt 0 total_work)) in * by lia.
  rewrite <- Z.mul_assoc. apply trunc_small. unfold in_range. lia.
Qed.

Lemma credit_each_ok pot total credited el :
  0 < total -> 0 <= pot <= u64_max -> Forall (fun x => 0 <= x.2 <= u64_max) el ->
  0 <= credited -> credited + zsum (map (fun x => pot * x.2 / total) el) <= u64_max ->
  (forall x, x ∈ el -> pot * x.2 / total <= u64_max) ->
  exists cs, credit_each pot total credited el =
      Ret (cs, credited + zsum (map (fun x => pot * x.2 / total) el)) /\
    cs = filter (fun c => 0 < c.2) (map (fun x => (x.1, pot * x.2 / total)) el).
Proof using.
  intros Ht Hpot Hel. revert credited.
  induction Hel as [|[id dw] el Hx Hel IH]; intros credited Hc Hsum Hle; simpl in *.
  { exists []. split; [|done]. do 2 f_equal. lia. }
  assert (Hd : 0 <= pot * dw / total) by (apply Z.div_pos; [apply Z.mul_nonneg_nonneg; lia | lia]).
  assert (Hl : pot * dw / total <= u64_max) by (apply (Hle (id, dw)); left).
  assert (Hn : 0 <= zsum (map (fun x => pot * x.2 / total) el)).
  { apply zsum_map_nonneg. intros x Hxin. eapply Forall_forall in Hel; [|exact Hxin].
    apply Z.div_pos; [apply Z.mul_nonneg_nonneg; lia | lia]. }
  assert (pot * dw <= u64_max * u64_max) by (apply Z.mul_le_mono_nonneg; lia).
  destruct (IH (credited + pot * dw / total)) as (cs & Hcs & Hf); [lia|lia| |].
  { intros x Hxin. apply Hle. by right. }
  rewrite chk_mul_ok by lia; mstep. rewrite trunc_small by (unfold in_range; lia).
  rewrite chk_add_ok by lia; mstep. rewrite Hcs; mstep.
  exists (if 0 <? pot * dw / total then (id, pot * dw / total) :: cs else cs). split.
  - destruct (0 <? pot * dw / total); do 2 f_equal; lia.
  - rewrite filter_cons. cbn [fst snd]. subst cs. case_decide as Hd'; cbn [snd] in Hd'.
    + rewrite (proj2 (Z.ltb_lt _ _)) by lia. done.
    + rewrite (proj2 (Z.ltb_ge _ _)) by lia. done.
Qed.

Lemma datum_work_bounds m : miner_ok m -> 0 <= datum_work m <= m_work m.
Proof using.
  intros Hm. rewrite datum_work_dw. pose proof (classes_nonneg m Hm). pose proof (classes_sum m). lia.
Qed.

Lemma eligible_elem sf x :
  x ∈ eligible miners sf ->
  0 < x.2 <= u64_max /\
  exists m, m ∈ miners /\ m_identity m = x.1 /\ datum_work m = x.2 /\ is_Some (sf (m_identity m)).
Proof using OK.
  intros (m & -> & [Hc Hm]%list_elem_of_filter)%list_elem_of_fmap. apply Is_true_true in Hc. bools.
  destruct (miner_in _ _ _ _ _ OK m Hm) as [Hok Hw]. pose proof (datum_work_bounds m Hok).
  destruct OK as [_ _ _ _ _ _ _ Ht _ _ _]. unfold in_range in Ht.
  split; [simpl; lia | eauto 10].
Qed.

Lemma eligible_sum sf : 0 <= zsum (map snd (eligible miners sf)) <= total_work.
Proof using OK.
  split.
  - apply zsum_map_nonneg. intros x Hx. apply eligible_elem in Hx. lia.
  - destruct (total_class_ok datum_work datum_work_bounds) as [_ Ht]. etransitivity; [|apply Ht].
    unfold eligible. rewrite map_map. apply zsum_filter_le.
    intros m Hm. apply datum_work_bounds. eapply miner_in; eauto.
Qed.

(** The credits of the rebate: pro rata over payable DATUM work, floored, never more than the
    pot, and with what is left over returned. *)
Lemma rebate_credits_ok pot sf :
  0 <= pot <= u64_max ->
  exists cs rest, rebate_credits miners pot sf = Ret (cs, rest) /\
    0 <= rest /\ zsum (map snd cs) + rest = pot /\
    Forall (fun c => 0 < c.2) cs /\
    (forall c, c ∈ cs -> exists m, m ∈ miners /\ m_identity m = c.1 /\ 0 < datum_work m /\
       is_Some (sf (m_identity m))).
Proof using OK.
  intros Hpot. unfold rebate_credits.
  destruct (Z.eqb_spec pot 0) as [->|Hp].
  { exists [], 0. repeat split; try done. intros c Hc. by apply elem_of_nil in Hc. }
  pose proof (eligible_sum sf) as Htot. pose proof (eligible_elem sf) as Hel.
  set (el := eligible miners sf) in *. set (T := zsum (map snd el)) in *.
  pose proof (so_total _ _ _ _ _ OK) as Hu. unfold in_range in Hu.
  rewrite chk_sum_ok; cycle 1.
  { apply Forall_forall. intros y (x & -> & Hx)%list_elem_of_fmap. apply Hel in Hx. lia. }
  { fold T. lia. }
  mstep. rewrite Z.add_0_l. fold T.
  destruct (Z.eqb_spec T 0) as [Ez|Hz].
  { exists [], pot. repeat split; try done; try lia. intros c Hc. by apply elem_of_nil in Hc. }
  assert (Hsum : zsum (map (fun x => pot * x.2 / T) el) <= pot).
  { etransitivity; [apply (div_sum_le (fun x => pot * x.2)); lia|].
    assert (zsum (map (fun x : string * Z => pot * x.2) el) = T * pot) as ->.
    { unfold T. rewrite <- zsum_map_mul_r. f_equal. apply map_ext. intros; lia. }
    rewrite Z.mul_comm, Z.div_mul by lia. lia. }
  assert (Hnn : forall x, x ∈ el -> 0 <= pot * x.2 / T).
  { intros x [H _]%Hel. apply Z.div_pos; [apply Z.mul_nonneg_nonneg; lia|lia]. }
  destruct (credit_each_ok pot T 0 el) as (cs & Hcs & Hf); try lia.
  { apply Forall_forall. intros x [Hx _]%Hel. lia. }
  { intros x Hx. enough (pot * x.2 / T <= zsum (map (fun x => pot * x.2 / T) el)) by lia.
    by apply (zsum_map_elem_le (fun x => pot * x.2 / T)). }
  rewrite Hcs; mstep. rewrite chk_sub_ok by lia; mstep.
  exists cs, (pot - (0 + zsum (map (fun x => pot * x.2 / T) el))). subst cs. repeat split; try lia.
  - rewrite (zsum_filter_pos (fun x => (x.1, pot * x.2 / T))) by done. cbn [snd]. lia.
  - apply Forall_forall. intros c Hc. by apply list_elem_of_filter in Hc as [Hc _].
  - intros c [_ (x & -> & Hx)%list_elem_of_fmap]%list_elem_of_filter.
    destruct (Hel x Hx) as (Hb & m & ? & ? & ? & ?). exists m. simpl. repeat split; auto. lia.
Qed.

Definition fee_rebate : Z :=
  sat_add u64_max
    (pro_rata total_work value (zsum (map class_sw miners) * rebate_bps (rates p)))
    (pro_rata total_work value (zsum (map class_gw miners) * grace_reb_bps (rates p))).

(** The rebate never panics, hands out at most the stratum fee's rebate plus what was owed, and
    defers the fee's part exactly when there is nobody to credit. *)
Lemma compute_rebate_ok ms :
  map fst ms = miners ->
  exists reb, compute_rebate ms total_work value (rates p) rebate_owed = Ret reb /\
    rb_sats reb = zsum (map snd (rb_credits reb)) /\
    Forall (fun c => 0 < c.2) (rb_credits reb) /\
    rb_sats reb <= sat_add u64_max fee_rebate rebate_owed /\
    (rb_credits reb = [] -> rb_owed_credited reb = 0 /\ rb_deferred reb = fee_rebate) /\
    (rb_credits reb <> [] -> rb_owed_credited reb = rebate_owed /\ rb_deferred reb = 0) /\
    (forall c, c ∈ rb_credits reb ->
       exists m, m ∈ miners /\ m_identity m = c.1 /\ 0 < datum_work m).
Proof using OK.
  intros Hms. pose proof (rates_bounds _ _ _ _ _ OK) as (Hs & Hr & Hg & Hgr).
  destruct (total_class_ok class_sw) as [Esw Hsw].
  { intros m Hm. pose proof (classes_nonneg m Hm). pose proof (class_sw_le m Hm). lia. }
  destruct (total_class_ok class_gw) as [Egw Hgw].
  { intros m Hm. pose proof (classes_nonneg m Hm). pose proof (class_gw_le m Hm). lia. }
  unfold compute_rebate. rewrite Hms, Esw, Egw.
  destruct (stratum_rebate_ok _ (rebate_bps (rates p)) Hsw) as (a & Ha & Hab & Ea); [lia|].
  destruct (stratum_rebate_ok _ (grace_reb_bps (rates p)) Hgw) as (b & Hb & Hbb & Eb); [lia|].
  rewrite Ha; mstep. rewrite Hb; mstep.
  assert (Hfee : sat_add u64_max a b = fee_rebate) by (unfold fee_rebate; rewrite <- Ea, <- Eb; done).
  pose proof (so_owed _ _ _ _ _ OK) as Ho. unfold in_range in Ho.
  assert (Hf0 : 0 <= fee_rebate) by (rewrite <- Hfee; sat_lia).
  rewrite Hfee.
  set (pot := sat_add u64_max fee_rebate rebate_owed).
  assert (Hpot : 0 <= pot <= u64_max) by (unfold pot; sat_lia).
  assert (HC : exists cs rest,
    (if (0 <? rebate_bps (rates p)) || ((0 <? zsum (map class_gw miners)) && (0 <? grace_reb_bps (rates p)))
     then rebate_credits miners pot (script_by_name ms) else Ret ([], 0)) = Ret (cs, rest) /\
    0 <= zsum (map snd cs) <= pot /\ Forall (fun c => 0 < c.2) cs /\
    (forall c, c ∈ cs -> exists m, m ∈ miners /\ m_identity m = c.1 /\ 0 < datum_work m)).
  { destr_if; [|exists [], 0; repeat split; simpl; try done; try lia; intros c Hc; by apply elem_of_nil in Hc].
    destruct (rebate_credits_ok pot (script_by_name ms) Hpot) as (cs & rest & E & H1 & H2 & H3 & H4).
    exists cs, rest. repeat split; try done; try lia.
    - apply zsum_map_nonneg. intros c Hc. eapply Forall_forall in H3; [|exact Hc]. lia.
    - intros c (m & ? & ? & ? & _)%H4. eauto. }
  destruct HC as (cs & rest & E & Hsum & Hpos & Hin). rewrite E; mstep.
  rewrite chk_sum_ok; [mstep | | lia]; cycle 1.
  { apply Forall_forall. intros y (c & -> & Hc)%list_elem_of_fmap.
    eapply Forall_forall in Hpos; [|exact Hc]. lia. }
  rewrite Z.add_0_l. eexists. split; [reflexivity|].
  destruct cs as [|c cs]; cbn [rb_credits rb_sats rb_owed_credited rb_deferred];
    repeat split; try done; try lia.
Qed.
End RebateLemmas.

(** * Lemmas: shares *)

Section ShareLemmas.
Context (miners : list MinerStat) (total_work value : Z) (p : SplitParams) (rebate_owed : Z).
Hypothesis OK : split_ok miners total_work value p rebate_owed.

Definition earned_of (m : MinerStat) : Z := pro_rata total_work value (keep_of p m).
Definition fee_of (m : MinerStat) : Z := pro_rata total_work value (charge_of p m).

(** What payable identities (those with a script) earn. *)
Definition payable (ms : list (MinerStat * option (list Z))) : Z :=
  zsum (map (fun x => match x.2 with Some _ => earned_of x.1 | None => 0 end) ms).

Lemma earned_nonneg m : m ∈ miners -> 0 <= earned_of m /\ 0 <= fee_of m.
Proof using OK.
  intros Hm. destruct (miner_in _ _ _ _ _ OK m Hm) as [Hok _].
  pose proof (keep_bounds _ _ _ _ _ OK m Hok). unfold earned_of, fee_of.
  split; eapply pro_rata_nonneg; try exact OK; lia.
Qed.

Lemma weights_sum_le f :
  (forall m, m ∈ miners -> f m <= m_work m * 10000) -> zsum (map f miners) <= total_work * 10000.
Proof using OK.
  intros Hf. transitivity (zsum (map (fun m => m_work m * 10000) miners)).
  - by apply zsum_map_le.
  - rewrite zsum_map_mul_r. pose proof (so_work _ _ _ _ _ OK). lia.
Qed.

(** Everything earned plus every fee is at most the value: nothing is paid out of thin air. *)
Lemma earned_fee_sum_le :
  zsum (map earned_of miners) + zsum (map fee_of miners) <= value.
Proof using OK.
  rewrite <- zsum_map_add.
  transitivity (zsum (map (fun m => pro_rata total_work value (m_work m * 10000)) miners)).
  - apply zsum_map_le. intros m Hm. unfold earned_of, fee_of, pro_rata.
    destruct (Z.ltb_spec 0 total_work) as [HT|]; [|lia].
    rewrite <- (keep_charge p m), !Z.div_div by lia.
    rewrite Z.mul_add_distr_l.
    set (a := value * keep_of p m). set (b := value * charge_of p m). set (d := total_work * 10000).
    assert (0 < d) by lia. apply Z.div_le_lower_bound; [done|].
    pose proof (Z.mul_div_le a d). pose proof (Z.mul_div_le b d). lia.
  - apply (pro_rata_sum_le _ _ _ _ _ OK (fun m => m_work m * 10000)).
    + intros m Hm. destruct (miner_in _ _ _ _ _ OK m Hm) as [[H _] _]. unfold in_range in H. lia.
    + apply weights_sum_le. intros; lia.
Qed.

Lemma earned_le_value m : m ∈ miners -> earned_of m <= value.
Proof using OK.
  intros Hm. pose proof earned_fee_sum_le.
  assert (0 <= zsum (map fee_of miners)) by (apply zsum_map_nonneg; intros; by apply earned_nonneg).
  enough (earned_of m <= zsum (map earned_of miners)) by lia.
  apply zsum_map_elem_le; [|done]. intros y Hy. by apply earned_nonneg.
Qed.

Lemma payable_bounds ms : map fst ms = miners -> 0 <= payable ms <= value.
Proof using OK.
  intros Hms.
  assert (Hin : forall x, x ∈ ms -> 0 <= earned_of x.1).
  { intros x Hx. apply earned_nonneg. rewrite <- Hms. apply list_elem_of_fmap. eauto. }
  split.
  - apply zsum_map_nonneg. intros x Hx. specialize (Hin x Hx). destruct (x.2); lia.
  - transitivity (zsum (map (fun x => earned_of x.1) ms)).
    + apply zsum_map_le. intros x Hx. specialize (Hin x Hx). destruct (x.2); lia.
    + rewrite <- (map_map fst earned_of), Hms. pose proof earned_fee_sum_le.
      assert (0 <= zsum (map fee_of miners)) by (apply zsum_map_nonneg; intros; by apply earned_nonneg).
      lia.
Qed.

Lemma compute_shares_gen ms fs ep :
  (forall x, x ∈ ms -> x.1 ∈ miners) ->
  0 <= fs -> 0 <= ep -> fs + zsum (map (fun x => fee_of x.1) ms) <= u64_max ->
  ep + payable ms <= u64_max ->
  compute_shares p (rates p) total_work value fs ep ms =
    Ret {| sh_fee_sats := fs + zsum (map (fun x => fee_of x.1) ms);
           sh_earned_payable := ep + payable ms;
           sh_shares := map (fun x => earned_of x.1) ms |}.
Proof using OK.
  revert fs ep. induction ms as [|[m sc] ms IH]; intros fs ep Hin Hfs Hep Hf He.
  { simpl. unfold payable. simpl. by rewrite !Z.add_0_r. }
  assert (Hm : m ∈ miners) by (apply (Hin (m, sc)); left).
  assert (Hin' : forall x, x ∈ ms -> x.1 ∈ miners) by (intros x Hx; apply Hin; by right).
  pose proof (earned_nonneg m Hm) as [He0 Hf0].
  assert (Hsf : 0 <= zsum (map (fun x => fee_of x.1) ms)).
  { apply zsum_map_nonneg. intros x Hx. by apply earned_nonneg, Hin'. }
  assert (Hsp : 0 <= payable ms).
  { apply zsum_map_nonneg. intros x Hx. pose proof (earned_nonneg x.1 (Hin' x Hx)). destruct (x.2); lia. }
  unfold payable in He, Hsp. cbn [compute_shares map] in *.
  rewrite zsum_cons in *. cbn [fst snd] in *.
  rewrite (share_of_ok _ _ _ _ _ OK m Hm); mstep. fold (earned_of m) (fee_of m).
  assert (sat_add u64_max fs (fee_of m) = fs + fee_of m) as -> by sat_lia.
  rewrite IH; [mstep | done | lia | destruct sc; sat_lia | lia | unfold payable; destruct sc; sat_lia].
  cbn [sh_fee_sats sh_earned_payable sh_shares]. unfold payable.
  cbn [map]. rewrite zsum_cons. cbn [fst snd]. do 2 f_equal; [lia|]. destruct sc; sat_lia.
Qed.

Lemma compute_shares_ok ms :
  map fst ms = miners ->
  compute_shares p (rates p) total_work value 0 0 ms =
    Ret {| sh_fee_sats := zsum (map fee_of miners); sh_earned_payable := payable ms;
           sh_shares := map earned_of miners |}.
Proof using OK.
  intros Hms. pose proof (payable_bounds ms Hms). pose proof earned_fee_sum_le.
  assert (0 <= zsum (map earned_of miners)) by (apply zsum_map_nonneg; intros; by apply earned_nonneg).
  pose proof (so_value _ _ _ _ _ OK) as Hv. unfold in_range in Hv.
  assert (Hmap : forall f : MinerStat -> Z, map (fun x : MinerStat * option (list Z) => f x.1) ms = map f miners)
    by (intros f; rewrite <- Hms, map_map; done).
  rewrite compute_shares_gen; rewrite ?Hmap; rewrite ?Z.add_0_l; try lia; [done|].
  intros x Hx. rewrite <- Hms. apply list_elem_of_fmap. eauto.
Qed.
End ShareLemmas.

(** * Lemmas: the two placement passes *)

Section Passes.
Context (p : SplitParams) (now : Z).
Implicit Types (x : MinerStat * option (list Z) * Z) (y : MinerStat * list Z * Z).

Definition entry_ok x : Prop := in_range u64_max x.2 /\ miner_ok x.1.1.

(** A queue element as the passes carry it once its script is known. *)
Definition as_queued y : MinerStat * option (list Z) * Z := (y.1.1, Some y.1.2, y.2).

Definition q_payable (q : list (MinerStat * option (list Z) * Z)) : Z :=
  zsum (map (fun x => match x.1.2 with Some _ => x.2 | None => 0 end) q).
Definition placed_sum (l : list (MinerStat * list Z * Z)) : Z := zsum (map snd l).
Definition placed_bytes (l : list (MinerStat * list Z * Z)) : Z :=
  zsum (map (fun y => need_bytes y.1.2) l).
Definition stale_count (l : list (MinerStat * list Z * Z)) : Z :=
  zsum (map (fun y => if is_stale p y.1.1 now then 1 else 0) l).
Definition owing (q : list (MinerStat * option (list Z) * Z)) : list string :=
  map (fun x => m_identity x.1.1) (filter (fun x => owed x <> 0) q).

(** What an unpaid entry says of the queue element it stands for. *)
Definition unpaid_of x (u : Unpaid) : Prop :=
  u_identity u = m_identity x.1.1 /\ u_sats u = owed x /\ u_earned u = x.2 /\ owed x <> 0 /\
  match u_reason u with
  | NoScript => x.1.2 = None
  | BelowMinimum => is_Some x.1.2 /\ owed x < floor_for p x.1.1 now
  | OverBudget => is_Some x.1.2 /\ floor_for p x.1.1 now <= owed x
  end.

Definition placed_in (q : list (MinerStat * option (list Z) * Z)) y : Prop :=
  as_queued y ∈ q /\ floor_for p y.1.1 now <= owed (as_queued y) /\ owed (as_queued y) <> 0.

Record place_inv (room0 : Z) (q : list (MinerStat * option (list Z) * Z)) (st : PlaceState) : Prop := {
  pi_room : pl_room st + placed_sum (pl_placed st) = room0 + q_payable q;
  pi_room_nonneg : 0 <= pl_room st;
  pi_names : map (fun y => m_identity y.1.1) (pl_placed st) ++ map u_identity (pl_unpaid st)
             ≡ₚ owing q;
  pi_placed : Forall (placed_in q) (pl_placed st);
  pi_unpaid : Forall (fun u => exists x, x ∈ q /\ unpaid_of x u) (pl_unpaid st);
  pi_count : Z.of_nat (length (pl_placed st)) <= Z.max 0 (max_outputs p);
  pi_bytes : pl_bytes st = placed_bytes (pl_placed st) /\
             pl_bytes st <= Z.max 0 (output_budget_bytes p);
  pi_stale : pl_stale st = stale_count (pl_placed st) /\
             pl_stale st <= Z.max 0 (stale_max_outputs p)
}.

Lemma owed_zero x : entry_ok x -> owed x = 0 -> x.2 = 0.
Proof using. unfold entry_ok, owed, miner_ok, in_range, sat_add. lia. Qed.

Lemma place_inv_mono room0 q x st :
  place_inv room0 q st -> Forall (placed_in (q ++ [x])) (pl_placed st) /\
  Forall (fun u => exists x', x' ∈ q ++ [x] /\ unpaid_of x' u) (pl_unpaid st).
Proof using.
  intros [_ _ _ Hp Hu _ _ _]. split.
  - eapply Forall_impl; [exact Hp|]. intros y [Hy ?]. split; [|done]. apply elem_of_app. auto.
  - eapply Forall_impl; [exact Hu|]. intros u (x' & ? & ?). exists x'. rewrite elem_of_app. auto.
Qed.

Lemma owing_snoc q x :
  owing (q ++ [x]) = if decide (owed x = 0) then owing q else owing q ++ [m_identity x.1.1].
Proof using.
  unfold owing. rewrite filter_app, map_app. unfold filter at 2; cbn [list_filter].
  destruct (decide (owed x = 0)) as [E|E].
  - rewrite decide_False by (intros H; by apply H). by rewrite app_nil_r.
  - rewrite decide_True by done. done.
Qed.

Lemma q_payable_snoc q x :
  q_payable (q ++ [x]) = q_payable q + match x.1.2 with Some _ => x.2 | None => 0 end.
Proof using. unfold q_payable. rewrite map_app, zsum_app. simpl. lia. Qed.

Lemma placed_sum_nonneg q l :
  Forall entry_ok q -> Forall (placed_in q) l ->
  0 <= placed_sum l.
Proof using.
  intros Hq Hl. apply zsum_map_nonneg. intros y Hy. eapply Forall_forall in Hl as [Hy' _]; [|exact Hy].
  eapply Forall_forall in Hq; [|exact Hy']. destruct Hq as [H _]. unfold in_range in H. simpl in H. lia.
Qed.

Lemma place_one_inv room0 q x st :
  Forall entry_ok (q ++ [x]) -> room0 + q_payable (q ++ [x]) <= u64_max ->
  place_inv room0 q st -> place_inv room0 (q ++ [x]) (place_one p now st x).
Proof using.
  intros Hq Hmax HI. pose proof (place_inv_mono room0 q x st HI) as [HP HU].
  apply Forall_app in Hq as [Hq Hx]. apply Forall_cons in Hx as [Hx _].
  pose proof (placed_sum_nonneg q _ Hq (pi_placed _ _ _ HI)) as Hps.
  rewrite q_payable_snoc in Hmax. destruct HI as [Hroom Hr0 Hn _ _ Hc [Hb1 Hb2] [Hs1 Hs2]].
  destruct x as [[m sc] e]. unfold place_one.
  destruct (Z.eqb_spec (owed (m, sc, e)) 0) as [E0|E0].
  { pose proof (owed_zero _ Hx E0) as He. cbn [snd] in He.
    constructor; try done; rewrite ?q_payable_snoc; cbn [fst snd].
    - destruct sc; lia.
    - rewrite owing_snoc, decide_True by done. done. }
  destruct Hx as [Hxe _]. unfold in_range in Hxe. cbn [snd] in *.
  assert (Hunpaid : forall rs, map (fun y : MinerStat * list Z * Z => m_identity y.1.1) (pl_placed st)
      ++ map u_identity (pl_unpaid st ++ [{| u_identity := m_identity m; u_sats := owed (m, sc, e);
           u_earned := e; u_reason := rs |}]) ≡ₚ owing (q ++ [(m, sc, e)])).
  { intros rs. rewrite owing_snoc, decide_False by done. rewrite map_app, app_assoc, Hn. done. }
  assert (HUn : forall rs, unpaid_of (m, sc, e) {| u_identity := m_identity m; u_sats := owed (m, sc, e);
      u_earned := e; u_reason := rs |} -> Forall (fun u => exists x', x' ∈ q ++ [(m, sc, e)] /\ unpaid_of x' u)
      (pl_unpaid st ++ [{| u_identity := m_identity m; u_sats := owed (m, sc, e); u_earned := e; u_reason := rs |}])).
  { intros rs Hrs. apply Forall_app. split; [done|]. apply Forall_singleton.
    exists (m, sc, e). split; [|done]. apply elem_of_app. right. by left. }
  destruct sc as [sc|]; cycle 1.
  { constructor; cbn [pl_placed pl_unpaid pl_bytes pl_stale pl_room]; try done;
      rewrite ?q_payable_snoc; cbn [fst snd];
      first [lia | by auto | apply HUn; by repeat split]. }
  destruct (refusal p now st m sc (owed (m, Some sc, e))) as [rs|] eqn:Ers.
  - constructor; cbn [pl_placed pl_unpaid pl_bytes pl_stale pl_room]; try done;
      rewrite ?q_payable_snoc; cbn [fst snd] in *;
      first [sat_lia | by auto | apply HUn].
    unfold refusal in Ers. unfold unpaid_of; cbn [u_identity u_sats u_earned u_reason fst snd].
    repeat split; try done.
    destruct (owed (m, Some sc, e) <? floor_for p m now) eqn:Ef; bools.
    + injection Ers as <-. by eauto.
    + destr_if_in Ers; [|done]. injection Ers as <-. by eauto.
  - unfold refusal in Ers.
    destruct (owed (m, Some sc, e) <? floor_for p m now) eqn:Ef; [done|]. destr_if_in Ers; [done|]. bools.
    unfold placed_sum, placed_bytes, stale_count in *.
    constructor; cbn [pl_placed pl_unpaid pl_bytes pl_stale pl_room]; try done;
      rewrite ?q_payable_snoc; unfold placed_sum, placed_bytes, stale_count;
      rewrite ?map_app, ?zsum_app, ?length_app; cbn [fst snd map zsum foldr length].
    + lia.
    + rewrite owing_snoc, decide_False by done. rewrite <- Hn, <- !app_assoc. simpl.
      apply Permutation_app_head. apply Permutation_cons_append.
    + apply Forall_app. split; [done|]. apply Forall_singleton.
      unfold placed_in, as_queued; cbn [fst snd].
      split; [apply elem_of_app; right; by left | by split].
    + lia.
    + split; lia.
    + destruct (is_stale p m now); cbn [andb] in *; split; lia.
Qed.

Lemma place_all_inv room q :
  Forall entry_ok q -> 0 <= room -> room + q_payable q <= u64_max ->
  place_inv room q (place_all p now room q).
Proof using.
  intros Hq Hr Hmax. unfold place_all.
  enough (H : forall l st done, place_inv room done st -> Forall entry_ok (done ++ l) ->
    room + q_payable (done ++ l) <= u64_max -> place_inv room (done ++ l) (foldl (place_one p now) st l)).
  { apply (H q _ []); [|done|done].
    constructor; simpl; try done; unfold q_payable, placed_sum, placed_bytes, stale_count; simpl; lia. }
  intros l. induction l as [|x l IH]; intros st d HI Hd Hm; [by rewrite app_nil_r|].
  simpl. replace (d ++ x :: l) with ((d ++ [x]) ++ l) in * by (by rewrite <- app_assoc).
  apply IH; [|done|done]. apply Forall_app in Hd as [Hd Hl]. apply place_one_inv; [done| |done].
  revert Hm. unfold q_payable. rewrite (map_app _ (d ++ [x])), zsum_app.
  assert (0 <= zsum (map (fun x => match x.1.2 with Some _ => x.2 | None => 0 end) l)).
  { apply zsum_map_nonneg. intros z Hz. eapply Forall_forall in Hl; [|exact Hz].
    destruct Hl as [Hl _]. unfold in_range in Hl. destruct (z.1.2); lia. }
  lia.
Qed.

(** What a payee entry says of the placed element it stands for. *)
Definition payee_of y (e : Payee) : Prop :=
  p_identity e = m_identity y.1.1 /\ p_work e = m_work y.1.1 /\ p_script e = y.1.2 /\
  p_sats e = y.2 + p_carry e /\ 0 <= p_carry e <= m_carry y.1.1 /\
  floor_for p y.1.1 now <= p_sats e /\
  (is_stale p y.1.1 now = true -> p_carry e = m_carry y.1.1).

(** [l] is what the first pass placed, [d] the part of it the second pass has seen. *)
Record pay_inv (total : Z) (un0 : list Unpaid) (d rest : list (MinerStat * list Z * Z))
    (st : PayState) : Prop := {
  yi_total : py_room st + py_paid st + placed_sum rest = total;
  yi_nonneg : 0 <= py_room st /\ 0 <= py_carry_paid st <= py_paid st;
  yi_paid : py_paid st = zsum (map p_sats (py_payees st));
  yi_carry : py_carry_paid st = zsum (map p_carry (py_payees st));
  yi_payees : exists ys, ys `sublist_of` d /\ Forall2 payee_of ys (py_payees st);
  yi_unpaid : exists un1, py_unpaid st = un0 ++ un1 /\
    Forall (fun u => exists y, y ∈ d /\ unpaid_of (as_queued y) u /\
      (y.2 < floor_for p y.1.1 now \/ is_stale p y.1.1 now = true)) un1 /\
    map p_identity (py_payees st) ++ map u_identity un1 ≡ₚ map (fun y => m_identity y.1.1) d
}.

Definition placed_ok y : Prop :=
  entry_ok (as_queued y) /\ floor_for p y.1.1 now <= owed (as_queued y) /\ owed (as_queued y) <> 0.

Lemma pay_one_inv total un0 d y rest st :
  placed_ok y -> Forall placed_ok rest -> total <= u64_max ->
  pay_inv total un0 d (y :: rest) st ->
  exists st', pay_one p now st y = Ret st' /\ pay_inv total un0 (d ++ [y]) rest st'.
Proof using.
  intros [[Hye Hym] [Hfl Hne]] Hrest Hmax [Ht [Hr Hc] Hp Hcs (ys & Hys & HP) (un1 & Hu & HU & Hn)].
  destruct y as [[m sc] e]. unfold as_queued in *. cbn [fst snd] in *.
  assert (Hps : 0 <= placed_sum rest).
  { apply zsum_map_nonneg. intros z Hz. eapply Forall_forall in Hrest as [[H _] _]; [|exact Hz].
    unfold in_range in H. simpl in H. lia. }
  unfold placed_sum in *. cbn [map] in Ht. rewrite zsum_cons in Ht. cbn [snd] in Ht.
  unfold miner_ok, in_range in *. destruct Hym as (Hw & _ & _ & Hca).
  assert (HU' : Forall (fun u => exists y, y ∈ d ++ [(m, sc, e)] /\ unpaid_of (as_queued y) u /\
    (y.2 < floor_for p y.1.1 now \/ is_stale p y.1.1 now = true)) un1).
  { eapply Forall_impl; [exact HU|]. intros u (y & ? & ? & ?). exists y. rewrite elem_of_app. auto. }
  unfold pay_one. set (carry := Z.min (m_carry m) (py_room st)).
  rewrite (chk_add_ok _ e carry) by lia; mstep.
  destr_if.
  - eexists. split; [reflexivity|].
    constructor; cbn [py_room py_paid py_carry_paid py_payees py_unpaid]; try done.
    + unfold placed_sum. sat_lia.
    + sat_lia.
    + exists ys. split; [by apply sublist_inserts_r | done].
    + exists (un1 ++ [{| u_identity := m_identity m; u_sats := sat_add u64_max e (m_carry m);
                        u_earned := e; u_reason := OverBudget |}]).
      repeat split.
      * by rewrite Hu, app_assoc.
      * apply Forall_app. split; [done|]. apply Forall_singleton.
        exists (m, sc, e). split; [apply elem_of_app; right; by left|].
        split; [by repeat split|]. cbn [fst snd]. bools. destruct Hif as [Hif|Hif]; bools; [left; lia | by right].
      * rewrite !map_app, app_assoc, Hn. done.
  - bools. rewrite (chk_sub_ok (py_room st)) by lia; mstep.
    rewrite (chk_add_ok _ (py_paid st)) by lia; mstep.
    rewrite (chk_add_ok _ (py_carry_paid st)) by lia; mstep.
    eexists. split; [reflexivity|].
    constructor; cbn [py_room py_paid py_carry_paid py_payees py_unpaid];
      rewrite ?map_app, ?zsum_app, ?length_app; cbn [map length].
    + unfold placed_sum. lia.
    + lia.
    + rewrite zsum_cons. cbn [p_sats]. simpl. lia.
    + rewrite zsum_cons. cbn [p_carry]. simpl. lia.
    + exists (ys ++ [(m, sc, e)]). split; [by apply sublist_app|].
      apply Forall2_app; [done|]. constructor; [|constructor].
      unfold payee_of; cbn [p_identity p_work p_script p_sats p_carry fst snd].
      repeat split; try done; try lia. intros Es. destruct H0 as [H0|H0]; [congruence|lia].
    + exists un1. repeat split; [done|done|]. cbn [map p_identity fst].
      rewrite <- Hn, <- !app_assoc. apply Permutation_app_head. apply Permutation_app_comm.
Qed.

Lemma pay_all_inv total un0 rest : forall d st,
  Forall placed_ok rest -> total <= u64_max -> pay_inv total un0 d rest st ->
  exists st', pay_all p now st rest = Ret st' /\ pay_inv total un0 (d ++ rest) [] st'.
Proof using.
  induction rest as [|y rest IH]; intros d st Hok Hmax HI.
  { exists st. split; [done|]. by rewrite app_nil_r. }
  apply Forall_cons in Hok as [Hy Hok].
  destruct (pay_one_inv _ _ _ _ _ _ Hy Hok Hmax HI) as (st' & E & HI').
  destruct (IH _ _ Hok Hmax HI') as (st'' & E' & HI''). exists st''. split.
  - cbn [pay_all]. by rewrite E.
  - by rewrite <- app_assoc in HI''.
Qed.

End Passes.

(** * The whole computation *)

Section Compute.
Context (miners : list MinerStat) (total_work value : Z) (p : SplitParams) (rebate_owed : Z).
Context (now : Z) (script_for : string -> option (list Z)).
Hypothesis OK : split_ok miners total_work value p rebate_owed.
Implicit Types (m : MinerStat).

Definition earned m : Z := earned_of total_work value p m.
Definition fee_on m : Z := fee_of total_work value p m.

(** Everything an identity is owed by this block: its share plus its carry. *)
Definition owed_to m : Z := sat_add u64_max (earned m) (m_carry m).

(** A payee is an identity with a script, paid exactly what it earned plus part of its carry,
    and never under its floor. *)
Definition payee_spec (e : Payee) : Prop :=
  exists m, m ∈ miners /\ p_identity e = m_identity m /\ p_work e = m_work m /\
    miner_script script_for m = Some (p_script e) /\
    p_sats e = earned m + p_carry e /\ 0 <= p_carry e <= m_carry m /\
    floor_for p m now <= p_sats e /\ (is_stale p m now = true -> p_carry e = m_carry m).

Definition unpaid_spec (u : Unpaid) : Prop :=
  exists m, m ∈ miners /\ u_identity u = m_identity m /\ u_sats u = owed_to m /\
    u_earned u = earned m /\ owed_to m <> 0 /\
    match u_reason u with
    | NoScript => miner_script script_for m = None
    | BelowMinimum => is_Some (miner_script script_for m) /\ owed_to m < floor_for p m now
    | OverBudget => is_Some (miner_script script_for m) /\ floor_for p m now <= owed_to m
    end.

Record split_spec (s : Split) : Prop := {
  ss_value : s_value s = value;
  ss_conserve : zsum (map p_sats (s_payees s)) + s_pool_sats s = value;
  ss_pool : 0 <= s_pool_sats s;
  ss_carry : s_carry_paid s = zsum (map p_carry (s_payees s));
  ss_fee : s_fee_sats s = zsum (map fee_on miners);
  ss_names : map p_identity (s_payees s) ++ map u_identity (s_unpaid s)
             ≡ₚ map m_identity (filter (fun m => owed_to m <> 0) miners);
  ss_payees : Forall payee_spec (s_payees s);
  ss_unpaid : Forall unpaid_spec (s_unpaid s);
  ss_count : Z.of_nat (length (s_payees s)) <= Z.max 0 (max_outputs p);
  ss_bytes : zsum (map (fun e => need_bytes (p_script e)) (s_payees s))
             <= Z.max 0 (output_budget_bytes p);
  ss_rebate : s_rebate_sats s = zsum (map snd (s_rebate_credits s)) /\
    Forall (fun c => 0 < c.2) (s_rebate_credits s) /\
    s_rebate_sats s <= sat_add u64_max (fee_rebate miners total_work value p) rebate_owed;
  ss_rebate_none : s_rebate_credits s = [] ->
    s_rebate_owed_credited s = 0 /\ s_rebate_deferred s = fee_rebate miners total_work value p;
  ss_rebate_some : s_rebate_credits s <> [] ->
    s_rebate_owed_credited s = rebate_owed /\ s_rebate_deferred s = 0;
  ss_rebate_to : forall c, c ∈ s_rebate_credits s ->
    exists m, m ∈ miners /\ m_identity m = c.1 /\ 0 < datum_work m
}.

Definition queue_entry m : MinerStat * option (list Z) * Z :=
  (m, miner_script script_for m, earned m).

Lemma queue_zip :
  zip (map (fun m => (m, miner_script script_for m)) miners) (map earned miners)
  = map queue_entry miners.
Proof using. clear OK. induction miners as [|m l IH]; simpl; [done|]. rewrite IH. reflexivity. Qed.

Lemma queue_entry_ok m : m ∈ miners -> entry_ok (queue_entry m).
Proof using OK.
  intros Hm. split; [|by eapply miner_in]. unfold in_range, queue_entry; simpl.
  pose proof (earned_nonneg _ _ _ _ _ OK m Hm). pose proof (earned_le_value _ _ _ _ _ OK m Hm).
  pose proof (so_value _ _ _ _ _ OK) as Hv. unfold in_range in Hv. unfold earned. lia.
Qed.

Lemma zsum_sublist_le {A} (f : A -> Z) (l1 l2 : list A) :
  l1 `sublist_of` l2 -> (forall x, x ∈ l2 -> 0 <= f x) -> zsum (map f l1) <= zsum (map f l2).
Proof using.
  induction 1 as [|x l1 l2 _ IH|x l1 l2 _ IH]; intros Hf; simpl; [lia| |].
  - specialize (IH (fun y Hy => Hf y (list_elem_of_further _ _ _ Hy))). lia.
  - specialize (IH (fun y Hy => Hf y (list_elem_of_further _ _ _ Hy))).
    assert (0 <= f x) by (apply Hf; left). lia.
Qed.

Lemma payees_map ys es (f : MinerStat * list Z * Z -> Z) (g : Payee -> Z) :
  Forall2 (payee_of p now) ys es -> (forall y e, payee_of p now y e -> f y = g e) ->
  map g es = map f ys.
Proof using. intros H Hfg. induction H as [|y e ys es Hye _ IH]; simpl; [done|]. by rewrite IH, (Hfg y e). Qed.

(** The queue after both passes, against what the passes leave behind. *)
Lemma place_and_pay_ok q sh :
  q = order_queue (map queue_entry miners) ->
  sh_shares sh = map earned miners ->
  sh_earned_payable sh = payable total_work value p (map (fun m => (m, miner_script script_for m)) miners) ->
  exists st pl, place_and_pay p now value sh (map (fun m => (m, miner_script script_for m)) miners) = Ret st /\
    pl = place_all p now (value - sh_earned_payable sh) q /\
    place_inv p now (value - sh_earned_payable sh) q pl /\
    pay_inv p now value (pl_unpaid pl) (pl_placed pl) [] st.
Proof using OK.
  intros Hq Hs He.
  pose proof (payable_bounds _ _ _ _ _ OK (map (fun m => (m, miner_script script_for m)) miners)) as Hpb.
  rewrite map_map, map_id in Hpb. specialize (Hpb eq_refl).
  pose proof (so_value _ _ _ _ _ OK) as Hv. unfold in_range in Hv.
  assert (Hqp : q ≡ₚ map queue_entry miners) by (rewrite Hq; apply sort_by_perm).
  assert (Hqok : Forall entry_ok q).
  { rewrite Hqp. apply Forall_forall. intros x (m & -> & Hm)%list_elem_of_fmap. by apply queue_entry_ok. }
  assert (Hqpay : q_payable q = sh_earned_payable sh).
  { unfold q_payable. rewrite Hqp, map_map, He. unfold payable. by rewrite map_map. }
  unfold place_and_pay. rewrite Hs, queue_zip, <- Hq.
  assert (sat_sub value (sh_earned_payable sh) = value - sh_earned_payable sh) as -> by (rewrite He; sat_lia).
  pose proof (place_all_inv p now (value - sh_earned_payable sh) q Hqok) as HPI.
  specialize (HPI ltac:(rewrite He; lia) ltac:(rewrite Hqpay; lia)).
  set (pl := place_all _ _ _ q) in *.
  destruct (pay_all_inv p now value (pl_unpaid pl) (pl_placed pl) []
    {| py_payees := []; py_unpaid := pl_unpaid pl; py_paid := 0; py_carry_paid := 0;
       py_room := pl_room pl |}) as (st & E & HY).
  - apply Forall_forall. intros y Hy. pose proof (pi_placed _ _ _ _ _ HPI) as HF.
    eapply Forall_forall in HF as (Hyq & Hf & Hne); [|exact Hy].
    eapply Forall_forall in Hqok as Hyok; [|exact Hyq]. done.
  - lia.
  - pose proof (pi_room _ _ _ _ _ HPI). pose proof (pi_room_nonneg _ _ _ _ _ HPI).
    constructor; cbn [py_room py_paid py_carry_paid py_payees py_unpaid]; try done; try lia.
    + exists []. split; [apply sublist_nil_l | constructor].
    + exists []. rewrite app_nil_r. repeat split; [constructor | done].
  - exists st, pl. split; [done|]. split; [done|]. by split.
Qed.

Lemma queue_elem q x :
  q = order_queue (map queue_entry miners) -> x ∈ q ->
  exists m, m ∈ miners /\ x = queue_entry m /\ owed x = owed_to m.
Proof using.
  intros -> Hx. unfold order_queue in Hx. rewrite sort_by_perm in Hx.
  apply list_elem_of_fmap in Hx as (m & -> & Hm). by exists m.
Qed.

Lemma owing_queue q :
  q = order_queue (map queue_entry miners) ->
  owing q ≡ₚ map m_identity (filter (fun m => owed_to m <> 0) miners).
Proof using.
  intros ->. unfold owing, order_queue. rewrite sort_by_perm. clear OK.
  induction miners as [|m l IH]; [done|]. cbn [map]. rewrite !filter_cons.
  change (owed (queue_entry m)) with (owed_to m).
  destruct (decide (owed_to m <> 0)); [|done]. cbn [map]. by rewrite IH.
Qed.

Lemma unpaid_of_spec q x u :
  q = order_queue (map queue_entry miners) -> x ∈ q -> unpaid_of p now x u -> unpaid_spec u.
Proof using.
  intros Hq Hx (H1 & H2 & H3 & H4 & H5). destruct (queue_elem q x Hq Hx) as (m & Hm & -> & Ho).
  exists m. rewrite Ho in *. split; [done|]. split; [done|]. split; [done|]. split; [done|].
  split; [done|]. destruct (u_reason u); done.
Qed.

Lemma payee_of_spec q ys e y :
  q = order_queue (map queue_entry miners) -> Forall (placed_in p now q) ys -> y ∈ ys ->
  payee_of p now y e -> payee_spec e.
Proof using.
  intros Hq Hys Hy (H1 & H2 & H3 & H4 & H5 & H6 & H7).
  eapply Forall_forall in Hys as [Hyq _]; [|exact Hy].
  destruct (queue_elem q _ Hq Hyq) as (m & Hm & E & _).
  unfold as_queued, queue_entry in E. injection E as E1 E2 E3.
  exists m. rewrite E1 in *. split; [done|]. split; [done|]. split; [done|].
  split; [by rewrite H3|]. split; [by rewrite H4, E3|]. split; [done|]. by split.
Qed.

Lemma pay_bounds pl st q :
  place_inv p now (value - q_payable q) q pl ->
  pay_inv p now value (pl_unpaid pl) (pl_placed pl) [] st ->
  Z.of_nat (length (py_payees st)) <= Z.max 0 (max_outputs p) /\
  zsum (map (fun e => need_bytes (p_script e)) (py_payees st)) <= Z.max 0 (output_budget_bytes p).
Proof using.
  intros HPI HY. destruct (yi_payees _ _ _ _ _ _ _ HY) as (ys & Hys & H2).
  destruct HPI as [_ _ _ _ _ Hc [Hb1 Hb2] _]. split.
  - rewrite <- (Forall2_length _ _ _ H2). apply sublist_length in Hys. lia.
  - rewrite (payees_map ys _ (fun y => need_bytes y.1.2)).
    + etransitivity; [apply (zsum_sublist_le (fun y : MinerStat * list Z * Z => need_bytes y.1.2) _ _ Hys)|].
      * intros y _. unfold need_bytes. lia.
      * unfold placed_bytes in Hb1. lia.
    + exact H2.
    + intros y e (_ & _ & -> & _). done.
Qed.

Definition split_queue : list (MinerStat * option (list Z) * Z) :=
  order_queue (map queue_entry miners).

Definition split_shares : Shares := {|
  sh_fee_sats := zsum (map fee_on miners);
  sh_earned_payable := q_payable split_queue;
  sh_shares := map earned miners
|}.

(** The result of [compute] from its parts. *)
Definition split_of (reb : Rebate) (st : PayState) : Split := {|
  s_value := value; s_fee_sats := zsum (map fee_on miners); s_total_work := total_work;
  s_payees := py_payees st; s_unpaid := py_unpaid st; s_pool_sats := sat_sub value (py_paid st);
  s_carry_paid := py_carry_paid st; s_rebate_credits := rb_credits reb;
  s_rebate_sats := rb_sats reb; s_rebate_owed_credited := rb_owed_credited reb;
  s_rebate_deferred := rb_deferred reb |}.

Lemma split_queue_perm : split_queue ≡ₚ map queue_entry miners.
Proof using. apply sort_by_perm. Qed.

Lemma split_queue_ok : Forall entry_ok split_queue.
Proof using OK.
  rewrite split_queue_perm. apply Forall_forall.
  intros x (m & -> & Hm)%list_elem_of_fmap. by apply queue_entry_ok.
Qed.

(** [compute] runs through on admissible inputs: the rebate, the shares, both passes. *)
Lemma compute_parts :
  exists reb st pl,
    compute miners total_work value p rebate_owed now script_for = Ret (split_of reb st) /\
    compute_rebate (map (fun m => (m, miner_script script_for m)) miners) total_work value (rates p)
      rebate_owed = Ret reb /\
    pl = place_all p now (value - q_payable split_queue) split_queue /\
    0 <= value - q_payable split_queue /\
    place_inv p now (value - q_payable split_queue) split_queue pl /\
    pay_inv p now value (pl_unpaid pl) (pl_placed pl) [] st.
Proof using OK.
  set (ms := map (fun m => (m, miner_script script_for m)) miners).
  assert (Hms : map fst ms = miners) by (unfold ms; rewrite map_map, map_id; done).
  destruct (compute_rebate_ok _ _ _ _ _ OK ms Hms) as (reb & Er & _).
  pose proof (compute_shares_ok _ _ _ _ _ OK ms Hms) as Es.
  assert (Hpay : payable total_work value p ms = q_payable split_queue).
  { unfold q_payable. rewrite split_queue_perm, map_map. unfold payable, ms. by rewrite map_map. }
  rewrite Hpay in Es. pose proof (payable_bounds _ _ _ _ _ OK ms Hms) as Hb. rewrite Hpay in Hb.
  destruct (place_and_pay_ok split_queue split_shares eq_refl eq_refl (eq_sym Hpay))
    as (st & pl & Ep & Epl & HPI & HY). cbn [sh_earned_payable split_shares] in *.
  exists reb, st, pl. split; [|split; [done|split; [done|split; [lia|by split]]]].
  unfold compute. fold ms. rewrite Er; mstep. rewrite Es; mstep.
  eapply bind_Ret; [exact Ep | reflexivity].
Qed.

(** [compute] never panics on admissible inputs, and its result has all of [split_spec]. *)
Lemma compute_ok :
  exists s, compute miners total_work value p rebate_owed now script_for = Ret s /\ split_spec s.
Proof using OK.
  destruct compute_parts as (reb & st & pl & Ec & Er & _ & _ & HPI & HY).
  exists (split_of reb st). split; [done|].
  assert (Hms : map fst (map (fun m => (m, miner_script script_for m)) miners) = miners)
    by (rewrite map_map, map_id; done).
  destruct (compute_rebate_ok _ _ _ _ _ OK _ Hms) as (reb' & Er' & R1 & R2 & R3 & R4 & R5 & R6).
  rewrite Er in Er'. injection Er' as <-.
  pose proof (pay_bounds pl st split_queue HPI HY) as [Hcount Hbytes].
  destruct HY as [Ht [Hr Hc] Hp Hcs (ys & Hys & HP) (un1 & Hu & HU & Hn)].
  unfold placed_sum in Ht. simpl in Ht. unfold split_of.
  constructor; cbn [s_value s_fee_sats s_payees s_unpaid s_pool_sats s_carry_paid s_rebate_credits
    s_rebate_sats s_rebate_owed_credited s_rebate_deferred]; try done.
  - sat_lia.
  - sat_lia.
  - rewrite Hu, map_app, (Permutation_app_comm (map u_identity (pl_unpaid pl))), app_assoc, Hn.
    rewrite <- (owing_queue split_queue eq_refl). apply (pi_names _ _ _ _ _ HPI).
  - apply Forall_forall. intros e He. apply list_elem_of_lookup in He as [i Hi].
    destruct (Forall2_lookup_r _ _ _ _ _ HP Hi) as (y & Hyi & Hpy).
    apply list_elem_of_lookup_2 in Hyi.
    eapply (payee_of_spec split_queue (pl_placed pl));
      [done | apply (pi_placed _ _ _ _ _ HPI) | by eapply elem_of_sublist | exact Hpy].
  - rewrite Hu. apply Forall_app. split.
    + eapply Forall_impl; [apply (pi_unpaid _ _ _ _ _ HPI)|]. intros u (x & Hx & Hux).
      by eapply (unpaid_of_spec split_queue).
    + eapply Forall_impl; [exact HU|]. intros u (y & Hy & Hux & _).
      pose proof (pi_placed _ _ _ _ _ HPI) as HF. eapply Forall_forall in HF as [Hyq _]; [|exact Hy].
      by eapply (unpaid_of_spec split_queue).
Qed.
End Compute.

(** * Who is placed first *)

Section Priority.
Context (p : SplitParams) (now : Z).
Implicit Types (m : MinerStat).

(** An active identity over its floor that the first pass has seen is placed, or there was no
    room for it and everything placed that is no smaller an output is owed at least as much. *)
Definition seen_fairly (d : list (MinerStat * option (list Z) * Z)) (st : PlaceState) : Prop :=
  forall m sc e, (m, Some sc, e) ∈ d -> is_stale p m now = false ->
    floor_for p m now <= owed (m, Some sc, e) -> owed (m, Some sc, e) <> 0 ->
    (m, sc, e) ∈ pl_placed st \/
    ((max_outputs p <= Z.of_nat (length (pl_placed st)) \/
      output_budget_bytes p < pl_bytes st + need_bytes sc) /\
     forall y, y ∈ pl_placed st -> need_bytes sc <= need_bytes y.1.2 ->
       owed (m, Some sc, e) <= owed (as_queued y)).

Lemma place_one_mono st x :
  (length (pl_placed st) <= length (pl_placed (place_one p now st x)))%nat /\
  pl_bytes st <= pl_bytes (place_one p now st x) /\
  (forall y, y ∈ pl_placed st -> y ∈ pl_placed (place_one p now st x)) /\
  (forall y, y ∈ pl_placed (place_one p now st x) -> y ∈ pl_placed st \/
     (as_queued y = x /\ refusal p now st y.1.1 y.1.2 (owed x) = None)).
Proof using.
  destruct x as [[m sc] e]. unfold place_one. destruct (owed (m, sc, e) =? 0); [repeat split; auto; lia|].
  destruct sc as [sc|]; [|cbn [pl_placed pl_bytes]; repeat split; auto; lia].
  destruct (refusal p now st m sc (owed (m, Some sc, e))) eqn:Er; cbn [pl_placed pl_bytes];
    [repeat split; auto; lia|].
  repeat split.
  - rewrite length_app. lia.
  - unfold need_bytes. lia.
  - intros y Hy. apply elem_of_app. by left.
  - intros y [Hy|Hy]%elem_of_app; [by left|]. apply list_elem_of_singleton in Hy as ->. by right.
Qed.

Lemma refusal_none st m sc t :
  refusal p now st m sc t = None ->
  Z.of_nat (length (pl_placed st)) < max_outputs p /\
  pl_bytes st + need_bytes sc <= output_budget_bytes p.
Proof using.
  unfold refusal. intros H. destr_if_in H; [done|]. destr_if_in H; [done|]. bools. lia.
Qed.

Lemma place_one_fair d x st :
  (forall z, z ∈ d -> owed x <= owed z) ->
  (forall y, y ∈ pl_placed st -> as_queued y ∈ d) ->
  seen_fairly d st -> seen_fairly (d ++ [x]) (place_one p now st x).
Proof using.
  intros Hsort Hpl HF m sc e Hin Hst Hfl Hne.
  destruct (place_one_mono st x) as (Hlen & Hby & Hkeep & Hnew).
  apply elem_of_app in Hin as [Hin|Hin].
  - destruct (HF m sc e Hin Hst Hfl Hne) as [Hp|[Hb Hy]]; [left; by apply Hkeep|right].
    split; [lia|]. intros y Hyp Hneed. destruct (Hnew y Hyp) as [Hold|[Hq Hr]]; [by apply Hy|].
    apply refusal_none in Hr. lia.
  - apply list_elem_of_singleton in Hin as <-. unfold place_one in *.
    rewrite (proj2 (Z.eqb_neq _ _) Hne) in *.
    destruct (refusal p now st m sc (owed (m, Some sc, e))) eqn:Er; cbn [pl_placed pl_bytes] in *.
    + right. split; [|intros y Hy _; apply Hsort; by apply Hpl].
      unfold refusal in Er. rewrite Hst in Er. destr_if_in Er; [bools; lia|].
      destr_if_in Er; [|done]. bools. destruct Hif0 as [Hi|Hi]; bools; [|done].
      destruct Hi as [Hi|Hi]; bools; lia.
    + left. apply elem_of_app. right. by left.
Qed.

Lemma place_all_fair room q :
  StronglySorted (le_by (fun x y => owed y <=? owed x)) q ->
  Forall entry_ok q -> 0 <= room -> room + q_payable q <= u64_max ->
  seen_fairly q (place_all p now room q).
Proof using.
  intros Hs Hq Hr Hmax. unfold place_all.
  enough (H : forall l st d, seen_fairly d st -> (forall y, y ∈ pl_placed st -> as_queued y ∈ d) ->
    StronglySorted (le_by (fun x y => owed y <=? owed x)) (d ++ l) ->
    seen_fairly (d ++ l) (foldl (place_one p now) st l)).
  { apply (H q _ []); [|by intros y Hy; apply elem_of_nil in Hy|done].
    intros m sc e Hin. by apply elem_of_nil in Hin. }
  intros l. induction l as [|x l IH]; intros st d HF Hpl Hd; [by rewrite app_nil_r|].
  simpl. replace (d ++ x :: l) with ((d ++ [x]) ++ l) in * by (by rewrite <- app_assoc).
  apply IH; [|intros y Hy|done].
  - apply place_one_fair; [|done|done]. intros z Hz.
    apply StronglySorted_app_1_l in Hd.
    assert (Hzx : le_by (fun x y => owed y <=? owed x) z x)
      by (apply (StronglySorted_app_1_elem_of _ _ _ _ _ Hd); [done | by left]).
    unfold le_by in Hzx. by bools.
  - apply elem_of_app. destruct (place_one_mono st x) as (_ & _ & _ & Hnew).
    destruct (Hnew y Hy) as [Hy'|[-> _]]; [left; by apply Hpl | right; by left].
Qed.

Lemma owed_leb_total (x y : MinerStat * option (list Z) * Z) :
  (owed y <=? owed x) = false -> (owed x <=? owed y) = true.
Proof using. intros H. bools. apply Z.leb_le. lia. Qed.

Lemma owed_leb_trans (x y z : MinerStat * option (list Z) * Z) :
  (owed y <=? owed x) = true -> (owed z <=? owed y) = true -> (owed z <=? owed x) = true.
Proof using. intros H1 H2. bools. apply Z.leb_le. lia. Qed.
End Priority.

Section PriorityOfSplit.
Context (miners : list MinerStat) (total_work value : Z) (p : SplitParams) (rebate_owed : Z).
Context (now : Z) (script_for : string -> option (list Z)).
Hypothesis OK : split_ok miners total_work value p rebate_owed.
Hypothesis distinct : NoDup (map m_identity miners).

Local Abbreviation queue := (split_queue miners total_work value p script_for).

Lemma same_miner m1 m2 :
  m1 ∈ miners -> m2 ∈ miners -> m_identity m1 = m_identity m2 -> m1 = m2.
Proof using distinct.
  intros [i Hi]%list_elem_of_lookup [j Hj]%list_elem_of_lookup E.
  assert (i = j) as ->; [|congruence].
  apply (NoDup_lookup (map m_identity miners) i j (m_identity m1)); [done| |].
  - rewrite list_lookup_fmap, Hi. done.
  - rewrite list_lookup_fmap, Hj. simpl. by rewrite E.
Qed.

(** An identity the first pass placed on its earned share alone, and which is not stale, is
    paid. *)
Lemma placed_paid pl st m sc :
  pay_inv p now value (pl_unpaid pl) (pl_placed pl) [] st ->
  place_inv p now (value - q_payable queue) queue pl ->
  m ∈ miners -> (m, sc, earned total_work value p m) ∈ pl_placed pl ->
  is_stale p m now = false -> floor_for p m now <= earned total_work value p m ->
  m_identity m ∈ map p_identity (py_payees st).
Proof using distinct.
  intros HY HPI Hm Hin Hst Hfl.
  destruct (yi_unpaid _ _ _ _ _ _ _ HY) as (un1 & _ & HU & Hn).
  assert (Hid : m_identity m ∈ map p_identity (py_payees st) ++ map u_identity un1).
  { rewrite Hn. apply list_elem_of_fmap. by exists (m, sc, earned total_work value p m). }
  apply elem_of_app in Hid as [Hid|Hid]; [done|exfalso].
  apply list_elem_of_fmap in Hid as (u & Hu & Huin).
  eapply Forall_forall in HU as (y & Hy & (Hi & _) & Hc); [|exact Huin].
  pose proof (pi_placed _ _ _ _ _ HPI) as HF. eapply Forall_forall in HF as [Hyq _]; [|exact Hy].
  destruct (queue_elem miners total_work value p script_for _ _ eq_refl Hyq) as (m' & Hm' & E & _).
  unfold as_queued, queue_entry in E. injection E as E1 E2 E3.
  cbn [as_queued fst snd] in Hi. unfold as_queued in Hi. cbn [fst] in Hi. rewrite E1 in *.
  assert (m' = m) as -> by (apply same_miner; [done|done|congruence]).
  rewrite E3 in Hc. destruct Hc as [Hc|Hc]; [lia | congruence].
Qed.

(** Whoever the split leaves out although it is mining and its share alone clears the floor is
    owed no more than anyone the split does pay with an output that is no smaller. *)
Lemma priority_ok s x y sx e :
  compute miners total_work value p rebate_owed now script_for = Ret s ->
  x ∈ miners -> y ∈ miners -> e ∈ s_payees s -> p_identity e = m_identity y ->
  miner_script script_for x = Some sx -> (length sx <= length (p_script e))%nat ->
  is_stale p x now = false -> 0 < earned total_work value p x ->
  floor_for p x now <= earned total_work value p x ->
  m_identity x ∉ map p_identity (s_payees s) ->
  owed_to total_work value p x <= owed_to total_work value p y.
Proof using OK distinct.
  intros Hc Hx Hy He Hye Hsx Hlen Hst Hpos Hfl Hout.
  destruct (compute_parts _ _ _ _ _ now script_for OK)
    as (reb & st & pl & Ec & _ & Epl & Hroom & HPI & HY).
  rewrite Ec in Hc. injection Hc as <-. cbn [s_payees split_of] in *.
  pose proof (split_queue_ok _ _ _ _ _ script_for OK) as Hqok.
  pose proof (split_queue_perm miners total_work value p script_for) as Hqp.
  pose proof (so_value _ _ _ _ _ OK) as Hv. unfold in_range in Hv.
  pose proof (place_all_fair p now (value - q_payable queue) queue
    (sort_by_sorted _ owed_leb_total owed_leb_trans _) Hqok Hroom ltac:(lia)) as HF.
  rewrite <- Epl in HF.
  assert (Hxq : (x, Some sx, earned total_work value p x) ∈ queue).
  { rewrite Hqp. apply list_elem_of_fmap. exists x. unfold queue_entry. by rewrite Hsx. }
  destruct (miner_in _ _ _ _ _ OK x Hx) as [(_ & _ & _ & Hcx) _]. unfold in_range in Hcx.
  pose proof (earned_le_value _ _ _ _ _ OK x Hx) as Hev. fold (earned total_work value p x) in Hev.
  assert (Ho : owed (x, Some sx, earned total_work value p x) = owed_to total_work value p x) by done.
  destruct (HF x sx (earned total_work value p x) Hxq Hst) as [Hp|[_ Hy']].
  - rewrite Ho. unfold owed_to. sat_lia.
  - rewrite Ho. unfold owed_to. sat_lia.
  - exfalso. apply Hout. eapply placed_paid; eauto.
  - destruct (yi_payees _ _ _ _ _ _ _ HY) as (ys & Hsub & H2).
    apply list_elem_of_lookup in He as [i Hi].
    destruct (Forall2_lookup_r _ _ _ _ _ H2 Hi) as (z & Hz & Hid & _ & Hscr & _).
    assert (Hzin : z ∈ pl_placed pl) by (eapply elem_of_sublist; [by eapply list_elem_of_lookup_2|done]).
    assert (Hle : need_bytes sx <= need_bytes z.1.2) by (rewrite <- Hscr; unfold need_bytes; lia).
    specialize (Hy' z Hzin Hle). rewrite Ho in Hy'.
    pose proof (pi_placed _ _ _ _ _ HPI) as HF'. eapply Forall_forall in HF' as [Hzq _]; [|exact Hzin].
    destruct (queue_elem miners total_work value p script_for _ _ eq_refl Hzq) as (m & Hm & E & Hom).
    rewrite Hom in Hy'. unfold as_queued, queue_entry in E. injection E as E1 E2 E3.
    rewrite E1 in Hid. assert (m = y) as <- by (apply same_miner; [done|done|congruence]). done.
Qed.
End PriorityOfSplit.
