(* ===== verification/SplitProps.v ===== *)
(** The properties of the coinbase split, each from the lemmas of [SplitFacts.v], with its
    witness on a window of the source's own tests. *)

From S2P Require Import Prelude Tides Split SplitFacts.
Open Scope Z_scope.

(** The window of the source's [carry_accrues_then_pays_out_of_the_pool_remainder], second block. *)
Definition demo_miners : list MinerStat := [demo_miner "big" 9600 0; demo_miner "small" 400 3960].

Lemma demo_ok : split_ok demo_miners 10000 100000 (demo_params 100 4000) 0.
Proof. constructor; unfold in_range; try (cbn; lia). repeat constructor; cbn; lia. Qed.

(** ** Conservation over names *)

Section Balance.
Context (miners : list MinerStat) (total_work value : Z) (p : SplitParams) (rebate_owed : Z).
Context (now : Z) (script_for : string -> option (list Z)).
Hypothesis OK : split_ok miners total_work value p rebate_owed.
Hypothesis distinct : NoDup (map m_identity miners).
Local Abbreviation earned := (earned total_work value p).

Definition earned_by_name (id : string) : Z :=
  match find (fun m => bool_decide (m_identity m = id)) miners with
  | Some m => earned m
  | None => 0
  end.

Lemma earned_by_name_ok m : m ∈ miners -> earned_by_name (m_identity m) = earned m.
Proof using distinct.
  intros Hm. unfold earned_by_name.
  destruct (find _ miners) as [m'|] eqn:E.
  - apply find_some in E as [Hin Hid]. apply bool_decide_eq_true in Hid.
    f_equal. apply (same_miner miners distinct); [by apply list_elem_of_In | done | done].
  - apply find_none with (x := m) in E; [|by apply list_elem_of_In].
    by rewrite bool_decide_eq_true_2 in E.
Qed.

Lemma earned_partition s :
  split_spec miners total_work value p rebate_owed now script_for s ->
  zsum (map (fun e => p_sats e - p_carry e) (s_payees s)) + zsum (map u_earned (s_unpaid s))
  = zsum (map earned miners).
Proof using OK distinct.
  intros S.
  assert (Hp : map (fun e => p_sats e - p_carry e) (s_payees s)
     = map earned_by_name (map p_identity (s_payees s))).
  { rewrite map_map. apply map_ext_Forall.
    eapply Forall_impl; [apply (ss_payees _ _ _ _ _ _ _ _ S)|].
    intros e (m & Hm & Hid & _ & _ & Hsats & _). rewrite Hid, earned_by_name_ok by done. lia. }
  assert (Hu : map u_earned (s_unpaid s) = map earned_by_name (map u_identity (s_unpaid s))).
  { rewrite map_map. apply map_ext_Forall.
    eapply Forall_impl; [apply (ss_unpaid _ _ _ _ _ _ _ _ S)|].
    intros u (m & Hm & Hid & _ & He & _). by rewrite Hid, earned_by_name_ok. }
  rewrite Hp, Hu, <- zsum_app, <- map_app, (ss_names _ _ _ _ _ _ _ _ S), map_map.
  assert (Hin : forall m, m ∈ miners -> m ∈ miners) by done. revert Hin.
  generalize miners at 1 3 4. intros l. induction l as [|m l IH]; intros Hin; [done|].
  assert (Hm : m ∈ miners) by (apply Hin; left).
  specialize (IH (fun y Hy => Hin y (list_elem_of_further _ _ _ Hy))).
  rewrite filter_cons. destruct (decide (owed_to total_work value p m <> 0)) as [Ho|Ho]; cbn [map].
  - rewrite !zsum_cons, IH, earned_by_name_ok by done. done.
  - rewrite zsum_cons, IH.
    pose proof (queue_entry_ok _ _ _ _ _ script_for OK m Hm) as Hq.
    apply owed_zero in Hq; [change (earned m = 0) in Hq; lia|].
    destruct (decide (owed (queue_entry total_work value p script_for m) = 0)); [done|].
    exfalso. by apply Ho.
Qed.
End Balance.

(** * Properties *)

(** C1: On every admissible window and value the split is computed without a panic, and the
    outputs plus the pool's own output add up to exactly the block value, with the pool's
    output never negative: no coinbase built from it overspends or loses a satoshi. *)
Theorem split_conserves_value miners total_work value p rebate_owed now script_for :
  split_ok miners total_work value p rebate_owed ->
  exists s, compute miners total_work value p rebate_owed now script_for = Ret s /\
    s_value s = value /\
    zsum (map p_sats (s_payees s)) + s_pool_sats s = value /\ 0 <= s_pool_sats s.
Proof.
  intros OK. destruct (compute_ok _ _ _ _ _ now script_for OK) as (s & E & S).
  exists s. destruct S. auto.
Qed.

Lemma split_conserves_value_witness :
  exists s, compute demo_miners 10000 100000 (demo_params 100 4000) 0 0 demo_script = Ret s /\
    s_value s = 100000 /\
    zsum (map p_sats (s_payees s)) + s_pool_sats s = 100000 /\ 0 <= s_pool_sats s.
Proof. exact (split_conserves_value _ _ _ _ _ 0 demo_script demo_ok). Defined.

(** C2: Every output goes to an identity of the window, to its own payout script, for exactly
    its proportional share of the block plus some of its own carry, never under its payout
    floor; a stale balance is paid whole. *)
Theorem split_pays_what_is_owed miners total_work value p rebate_owed now script_for s e :
  split_ok miners total_work value p rebate_owed ->
  compute miners total_work value p rebate_owed now script_for = Ret s -> e ∈ s_payees s ->
  exists m, m ∈ miners /\ p_identity e = m_identity m /\ script_for (m_identity m) = Some (p_script e) /\
    p_sats e = pro_rata total_work value (keep_of p m) + p_carry e /\
    0 <= p_carry e <= m_carry m /\ floor_for p m now <= p_sats e /\
    (is_stale p m now = true -> p_carry e = m_carry m).
Proof.
  intros OK Hc He. destruct (compute_ok _ _ _ _ _ now script_for OK) as (s' & E & S).
  rewrite Hc in E. injection E as <-. pose proof (ss_payees _ _ _ _ _ _ _ _ S) as HF.
  eapply Forall_forall in HF as (m & Hm & Hid & _ & Hsc & Hs & Hca & Hfl & Hst); [|exact He].
  exists m. repeat split; try done; try lia.
  unfold miner_script in Hsc. by destruct (_ || _).
Qed.

Lemma split_pays_what_is_owed_witness :
  exists s e, compute demo_miners 10000 100000 (demo_params 100 4000) 0 0 demo_script = Ret s /\
    e ∈ s_payees s /\ p_identity e = "small"%string /\ p_sats e = 4960 /\
    exists m, m ∈ demo_miners /\ p_identity e = m_identity m /\
      demo_script (m_identity m) = Some (p_script e) /\
      p_sats e = pro_rata 10000 100000 (keep_of (demo_params 100 4000) m) + p_carry e /\
      0 <= p_carry e <= m_carry m /\ floor_for (demo_params 100 4000) m 0 <= p_sats e /\
      (is_stale (demo_params 100 4000) m 0 = true -> p_carry e = m_carry m).
Proof.
  eexists _, (Build_Payee "small" 400 4960 1000 [0; 20; 1]).
  split; [vm_compute; reflexivity|]. split; [right; left|]. split; [reflexivity|]. split; [reflexivity|].
  eapply (split_pays_what_is_owed _ _ _ _ _ 0 demo_script); [exact demo_ok | vm_compute; reflexivity |].
  right; left.
Defined.

(** Nobody is lost: the paid and the unpaid identities together are exactly the identities
    the block owes anything (a share, or carry from earlier blocks), each once, and each unpaid
    one is listed with the reason that applies to it. *)
Theorem split_accounts_for_everyone miners total_work value p rebate_owed now script_for s :
  split_ok miners total_work value p rebate_owed ->
  compute miners total_work value p rebate_owed now script_for = Ret s ->
  map p_identity (s_payees s) ++ map u_identity (s_unpaid s)
    ≡ₚ map m_identity (filter (fun m => owed_to total_work value p m <> 0) miners) /\
  Forall (unpaid_spec miners total_work value p now script_for) (s_unpaid s).
Proof.
  intros OK Hc. destruct (compute_ok _ _ _ _ _ now script_for OK) as (s' & E & S).
  rewrite Hc in E. injection E as <-. destruct S. auto.
Qed.

Lemma split_accounts_for_everyone_witness :
  exists s, compute demo_miners 10000 100000 (demo_params 100 4000) 0 0 demo_script = Ret s /\
  map p_identity (s_payees s) ++ map u_identity (s_unpaid s)
    ≡ₚ map m_identity (filter (fun m => owed_to 10000 100000 (demo_params 100 4000) m <> 0) demo_miners) /\
  Forall (unpaid_spec demo_miners 10000 100000 (demo_params 100 4000) 0 demo_script) (s_unpaid s).
Proof.
  eexists. split; [vm_compute; reflexivity|].
  apply (split_accounts_for_everyone _ _ _ _ _ 0 demo_script _ demo_ok). vm_compute. reflexivity.
Defined.

(** A coinbase built from the split fits: at most [max_outputs] payees, and their serialized
    outputs within the byte budget. *)
Theorem split_fits_the_coinbase miners total_work value p rebate_owed now script_for s :
  split_ok miners total_work value p rebate_owed ->
  compute miners total_work value p rebate_owed now script_for = Ret s ->
  Z.of_nat (length (s_payees s)) <= Z.max 0 (max_outputs p) /\
  zsum (map (fun e => 9 + Z.of_nat (length (p_script e))) (s_payees s))
    <= Z.max 0 (output_budget_bytes p).
Proof.
  intros OK Hc. destruct (compute_ok _ _ _ _ _ now script_for OK) as (s' & E & S).
  rewrite Hc in E. injection E as <-. destruct S. auto.
Qed.

Lemma split_fits_the_coinbase_witness :
  exists s, compute demo_miners 10000 100000 (demo_params 100 4000) 0 0 demo_script = Ret s /\
  Z.of_nat (length (s_payees s)) <= 512 /\
  zsum (map (fun e => 9 + Z.of_nat (length (p_script e))) (s_payees s)) <= 14000.
Proof.
  eexists. split; [vm_compute; reflexivity|].
  apply (split_fits_the_coinbase _ _ _ _ _ 0 demo_script _ demo_ok). vm_compute. reflexivity.
Defined.

(** Outputs are placed by what is owed: an identity still mining whose share alone clears
    its floor, but which is left out, is owed no more than anyone the same split pays with an
    output that is no smaller in bytes (so no stale or lesser balance takes its slot). *)
Theorem split_places_largest_first miners total_work value p rebate_owed now script_for s x y sx e :
  split_ok miners total_work value p rebate_owed -> NoDup (map m_identity miners) ->
  compute miners total_work value p rebate_owed now script_for = Ret s ->
  x ∈ miners -> y ∈ miners -> e ∈ s_payees s -> p_identity e = m_identity y ->
  miner_script script_for x = Some sx -> (length sx <= length (p_script e))%nat ->
  is_stale p x now = false -> 0 < pro_rata total_work value (keep_of p x) ->
  floor_for p x now <= pro_rata total_work value (keep_of p x) ->
  m_identity x ∉ map p_identity (s_payees s) ->
  owed_to total_work value p x <= owed_to total_work value p y.
Proof. intros OK Hd. apply (priority_ok _ _ _ _ _ _ _ OK Hd). Qed.

(** Two miners over the floor and one slot: the one owed less is left out. *)
Definition one_slot : SplitParams := {|
  fee_bps := 0; stratum_fee_bps := 0; datum_rebate_bps := 0; grace_fee_bps := 0;
  grace_rebate_bps := 0; min_payout := 546; max_outputs := 1; output_budget_bytes := 14000;
  stale_after := 0; stale_min_payout := 546; stale_max_outputs := 25 |}.

Lemma split_places_largest_first_witness :
  owed_to 10000 100000 one_slot (demo_miner "small" 400 0)
    <= owed_to 10000 100000 one_slot (demo_miner "big" 9600 0).
Proof.
  eapply (split_places_largest_first [demo_miner "big" 9600 0; demo_miner "small" 400 0] 10000 100000
    one_slot 0 0 demo_script _ (demo_miner "small" 400 0) (demo_miner "big" 9600 0) [0; 20; 1]
    (Build_Payee "big" 9600 96000 0 [0; 20; 1])).
  - constructor; unfold in_range; try (cbn; lia). repeat constructor; cbn; lia.
  - apply (bool_decide_unpack _). vm_compute. exact I.
  - vm_compute. reflexivity.
  - right; left.
  - left.
  - left.
  - reflexivity.
  - reflexivity.
  - cbn; lia.
  - reflexivity.
  - vm_compute. reflexivity.
  - vm_compute. discriminate.
  - apply (bool_decide_unpack _). vm_compute. exact I.
Defined.

(** The pool's output holds everything the split defers: fees plus every satoshi earned by
    an identity that is not paid this time, less only the carry it paid out, is never more than
    what the pool's output receives. *)
Theorem split_pool_holds_what_is_deferred miners total_work value p rebate_owed now script_for s :
  split_ok miners total_work value p rebate_owed -> NoDup (map m_identity miners) ->
  compute miners total_work value p rebate_owed now script_for = Ret s ->
  s_fee_sats s + zsum (map u_earned (s_unpaid s)) <= s_pool_sats s + s_carry_paid s.
Proof.
  intros OK Hd Hc. destruct (compute_ok _ _ _ _ _ now script_for OK) as (s' & E & S).
  rewrite Hc in E. injection E as <-.
  pose proof (earned_partition _ _ _ _ _ _ _ OK Hd s S) as Hpart.
  assert (Hsum : zsum (map (earned total_work value p) miners)
    + zsum (map (fee_on total_work value p) miners) <= value)
    by exact (earned_fee_sum_le _ _ _ _ _ OK).
  destruct S as [_ Hcons _ Hcar Hfee _ _ _ _ _ _ _ _ _].
  assert (Hsub : zsum (map (fun e => p_sats e - p_carry e) (s_payees s)) + zsum (map p_carry (s_payees s))
    = zsum (map p_sats (s_payees s))).
  { rewrite <- zsum_map_add. f_equal. apply map_ext. intros; lia. }
  rewrite Hfee. lia.
Qed.

Lemma split_pool_holds_what_is_deferred_witness :
  exists s, compute demo_miners 10000 100000 (demo_params 100 4000) 0 0 demo_script = Ret s /\
  s_fee_sats s + zsum (map u_earned (s_unpaid s)) <= s_pool_sats s + s_carry_paid s.
Proof.
  eexists. split; [vm_compute; reflexivity|].
  apply (split_pool_holds_what_is_deferred _ _ _ _ _ 0 demo_script _ demo_ok).
  - apply (bool_decide_unpack _). vm_compute. exact I.
  - vm_compute. reflexivity.
Defined.

(** The DATUM rebate never credits more than this block's stratum fee rebates plus what was
    owed from earlier blocks, only to identities with DATUM work, and the two ways of booking it
    are exclusive: with somebody to credit the whole owed balance is drawn and nothing deferred,
    with nobody to credit nothing is drawn and this block's rebate is deferred. *)
Theorem split_rebate_is_funded miners total_work value p rebate_owed now script_for s :
  split_ok miners total_work value p rebate_owed ->
  compute miners total_work value p rebate_owed now script_for = Ret s ->
  zsum (map snd (s_rebate_credits s))
    <= sat_add u64_max (fee_rebate miners total_work value p) rebate_owed /\
  (forall c, c ∈ s_rebate_credits s ->
     exists m, m ∈ miners /\ m_identity m = c.1 /\ 0 < datum_work m) /\
  ((s_rebate_credits s = [] /\ s_rebate_owed_credited s = 0 /\
    s_rebate_deferred s = fee_rebate miners total_work value p) \/
   (s_rebate_credits s <> [] /\ s_rebate_owed_credited s = rebate_owed /\ s_rebate_deferred s = 0)).
Proof.
  intros OK Hc. destruct (compute_ok _ _ _ _ _ now script_for OK) as (s' & E & S).
  rewrite Hc in E. injection E as <-.
  destruct S as [_ _ _ _ _ _ _ _ _ _ (Hr1 & _ & Hr2) Hn Hs Hto]. rewrite <- Hr1.
  split; [done|]. split; [done|].
  destruct (s_rebate_credits s) as [|c l] eqn:Ecr; [left | right]; split; auto.
Qed.

Definition rebate_params : SplitParams := {|
  fee_bps := 0; stratum_fee_bps := 1500; datum_rebate_bps := 750; grace_fee_bps := 0;
  grace_rebate_bps := 0; min_payout := 546; max_outputs := 512; output_budget_bytes := 14000;
  stale_after := 0; stale_min_payout := 546; stale_max_outputs := 25 |}.
Definition rebate_miners : list MinerStat := [
  {| m_identity := "hosted"; m_work := 600; m_stratum_work := 600; m_grace_work := 0;
     m_credits := 1; m_last_ts := 0; m_carry := 0 |};
  demo_miner "datum" 400 0].

Lemma split_rebate_is_funded_witness :
  exists s, compute rebate_miners 1000 1000000 rebate_params 77 0 demo_script = Ret s /\
  s_rebate_credits s = [("datum"%string, 45077)] /\
  zsum (map snd (s_rebate_credits s))
    <= sat_add u64_max (fee_rebate rebate_miners 1000 1000000 rebate_params) 77 /\
  (forall c, c ∈ s_rebate_credits s ->
     exists m, m ∈ rebate_miners /\ m_identity m = c.1 /\ 0 < datum_work m) /\
  ((s_rebate_credits s = [] /\ s_rebate_owed_credited s = 0 /\
    s_rebate_deferred s = fee_rebate rebate_miners 1000 1000000 rebate_params) \/
   (s_rebate_credits s <> [] /\ s_rebate_owed_credited s = 77 /\ s_rebate_deferred s = 0)).
Proof.
  eexists. split; [vm_compute; reflexivity|]. split; [reflexivity|].
  apply (split_rebate_is_funded _ _ _ _ _ 0 demo_script); [|vm_compute; reflexivity].
  constructor; unfold in_range; try (cbn; lia). repeat constructor; cbn; lia.
Defined.
