(* ===== verification/Window.v ===== *)
(** The sliding share window and the balances beside it ([Window] of [prime/tides/src/lib.rs]).

    Hash maps are [gmap]s; where the code iterates over one, the definition takes the iteration
    order as a list, so that what does not depend on it can be proved. A queue's front is the
    head of its list. *)

From S2P Require Import Prelude Tides Split.
Open Scope Z_scope.

(** * Data *)

Record Hold := {
  created_ts : Z;
  hold_height : Z;
  ready_height : Z;
  entries : list (string * Z)
}.

Record StaleCarry := { sc_identity : string; sc_sats : Z; sc_last_seen : Z }.

(** Work, credit rows and last timestamp of an identity. *)
Definition Totals : Type := Z * Z * Z.

Record Window := {
  idents : list string;
  ident_index : gmap string Z;
  credits : list Credit;
  totals : gmap Z Totals;
  total_work : Z;
  target_work : Z;
  carry : gmap Z Z;
  rebate_owed : Z;
  last_seen : gmap Z Z;
  holds : gmap string Hold;
  debt : gmap Z Z;
  lifetime_shares : Z;
  lifetime_work : Z
}.

(** [Window::new]. *)
Definition window_new : Window := {|
  idents := []; ident_index := ∅; credits := []; totals := ∅; total_work := 0;
  target_work := 0; carry := ∅; rebate_owed := 0; last_seen := ∅; holds := ∅; debt := ∅;
  lifetime_shares := 0; lifetime_work := 0
|}.

(** ** Field updates *)

Definition with_idents (w : Window) l m : Window := {|
  idents := l; ident_index := m; credits := credits w; totals := totals w;
  total_work := total_work w; target_work := target_work w; carry := carry w;
  rebate_owed := rebate_owed w; last_seen := last_seen w; holds := holds w; debt := debt w;
  lifetime_shares := lifetime_shares w; lifetime_work := lifetime_work w |}.
Definition with_rows (w : Window) cs ts tot : Window := {|
  idents := idents w; ident_index := ident_index w; credits := cs; totals := ts;
  total_work := tot; target_work := target_work w; carry := carry w;
  rebate_owed := rebate_owed w; last_seen := last_seen w; holds := holds w; debt := debt w;
  lifetime_shares := lifetime_shares w; lifetime_work := lifetime_work w |}.
Definition with_target (w : Window) t : Window := {|
  idents := idents w; ident_index := ident_index w; credits := credits w; totals := totals w;
  total_work := total_work w; target_work := t; carry := carry w;
  rebate_owed := rebate_owed w; last_seen := last_seen w; holds := holds w; debt := debt w;
  lifetime_shares := lifetime_shares w; lifetime_work := lifetime_work w |}.
Definition with_carry (w : Window) c : Window := {|
  idents := idents w; ident_index := ident_index w; credits := credits w; totals := totals w;
  total_work := total_work w; target_work := target_work w; carry := c;
  rebate_owed := rebate_owed w; last_seen := last_seen w; holds := holds w; debt := debt w;
  lifetime_shares := lifetime_shares w; lifetime_work := lifetime_work w |}.
Definition with_rebate_owed (w : Window) r : Window := {|
  idents := idents w; ident_index := ident_index w; credits := credits w; totals := totals w;
  total_work := total_work w; target_work := target_work w; carry := carry w;
  rebate_owed := r; last_seen := last_seen w; holds := holds w; debt := debt w;
  lifetime_shares := lifetime_shares w; lifetime_work := lifetime_work w |}.
Definition with_last_seen (w : Window) s : Window := {|
  idents := idents w; ident_index := ident_index w; credits := credits w; totals := totals w;
  total_work := total_work w; target_work := target_work w; carry := carry w;
  rebate_owed := rebate_owed w; last_seen := s; holds := holds w; debt := debt w;
  lifetime_shares := lifetime_shares w; lifetime_work := lifetime_work w |}.
Definition with_holds (w : Window) h : Window := {|
  idents := idents w; ident_index := ident_index w; credits := credits w; totals := totals w;
  total_work := total_work w; target_work := target_work w; carry := carry w;
  rebate_owed := rebate_owed w; last_seen := last_seen w; holds := h; debt := debt w;
  lifetime_shares := lifetime_shares w; lifetime_work := lifetime_work w |}.
Definition with_debt (w : Window) d : Window := {|
  idents := idents w; ident_index := ident_index w; credits := credits w; totals := totals w;
  total_work := total_work w; target_work := target_work w; carry := carry w;
  rebate_owed := rebate_owed w; last_seen := last_seen w; holds := holds w; debt := d;
  lifetime_shares := lifetime_shares w; lifetime_work := lifetime_work w |}.
Definition with_lifetime (w : Window) s l : Window := {|
  idents := idents w; ident_index := ident_index w; credits := credits w; totals := totals w;
  total_work := total_work w; target_work := target_work w; carry := carry w;
  rebate_owed := rebate_owed w; last_seen := last_seen w; holds := holds w; debt := debt w;
  lifetime_shares := s; lifetime_work := l |}.

(** * Identities *)

Definition intern (w : Window) (identity : string) : Window * Z :=
  match ident_index w !! identity with
  | Some i => (w, i)
  | None =>
      let i := trunc u32_max (Z.of_nat (length (idents w))) in
      (with_idents w (idents w ++ [identity]) (<[identity := i]> (ident_index w)), i)
  end.

Definition identity_at (w : Window) (i : Z) : option string := idents w !! Z.to_nat i.
Definition index_of (w : Window) (identity : string) : option Z := ident_index w !! identity.

(** [self.idents[i as usize].clone()]. *)
Definition ident_name (w : Window) (i : Z) : panics string :=
  match identity_at w i with Some s => Ret s | None => Panic end.

(** The entry of an identity in one of the per-identity maps, 0 where there is none. *)
Definition lookup0 (m : gmap Z Z) (i : Z) : Z := default 0 (m !! i).
Definition of_identity (w : Window) (m : gmap Z Z) (identity : string) : Z :=
  match ident_index w !! identity with Some i => lookup0 m i | None => 0 end.

(** [Window::work_of]. *)
Definition work_of (w : Window) (identity : string) : Z :=
  match ident_index w !! identity with
  | Some i => match totals w !! i with Some (wk, _, _) => wk | None => 0 end
  | None => 0
  end.

(** * Work *)

Definition note_seen (w : Window) (i ts : Z) : Window :=
  with_last_seen w (<[i := Z.max (lookup0 (last_seen w) i) ts]> (last_seen w)).

Definition last_seen_of (w : Window) (identity : string) : Z := of_identity w (last_seen w) identity.

Definition set_last_seen (w : Window) (identity : string) (ts : Z) : Window :=
  let '(w, i) := intern w identity in note_seen w i ts.

(** What popping a row does to the totals of its identity. *)
Definition forget_row (m : gmap Z Totals) (c : Credit) : gmap Z Totals :=
  match m !! ident c with
  | Some (wk, n, t) =>
      if sat_sub n 1 =? 0 then delete (ident c) m
      else <[ident c := (sat_sub wk (work c), sat_sub n 1, t)]> m
  | None => m
  end.

Fixpoint trim_rows (target : Z) (rows : list Credit) (m : gmap Z Totals) (tot : Z)
    : list Credit * gmap Z Totals * Z :=
  match rows with
  | [] => ([], m, tot)
  | c :: rows' =>
      if tot <? work c then (rows, m, tot)
      else if tot - work c <? target then (rows, m, tot)
      else trim_rows target rows' (forget_row m c) (tot - work c)
  end.

Definition trim (w : Window) : Window :=
  if target_work w =? 0 then w
  else let '(rows, m, tot) := trim_rows (target_work w) (credits w) (totals w) (total_work w) in
       with_rows w rows m tot.

Definition set_target (w : Window) (target : Z) : Window := trim (with_target w target).

(** The totals of an identity after a credit; [new] is whether it has a row of its own. *)
Definition credit_totals (m : gmap Z Totals) (i wk t : Z) (new : bool) : panics (gmap Z Totals) :=
  let '(w0, n0, _) := default (0, 0, 0) (m !! i) in
  n ← (if new then chk_add u64_max n0 1 else Ret n0);
  Ret (<[i := (sat_add u64_max w0 wk, n, t)]> m).

(** The counters both credit operations start with. *)
Definition count_share (w : Window) (identity : string) (wk t : Z) : panics (Window * Z) :=
  let '(w, i) := intern w identity in
  shares ← chk_add u64_max (lifetime_shares w) 1;
  let w := with_lifetime w shares (sat_add u64_max (lifetime_work w) wk) in
  let w := with_rows w (credits w) (totals w) (sat_add u64_max (total_work w) wk) in
  Ret (note_seen w i t, i).

Definition merges (tail : Credit) (i t h src : Z) : bool :=
  (ident tail =? i) && (ts tail =? t) && (height tail =? h) && (source tail =? src).

(** [Window::credit]: merged into the newest row where identity, second, height and source are
    the same. *)
Definition credit (w : Window) (identity : string) (wk h t src : Z)
    : panics (Window * Credit * bool) :=
  '(w, i) ← count_share w identity wk t;
  match last (credits w) with
  | Some tail =>
      if merges tail i t h src then
        m ← credit_totals (totals w) i wk t false;
        let c := {| ts := ts tail; ident := ident tail; work := sat_add u64_max (work tail) wk;
                    height := height tail; source := source tail |} in
        Ret (trim (with_rows w (removelast (credits w) ++ [c]) m (total_work w)), c, false)
      else
        m ← credit_totals (totals w) i wk t true;
        let c := {| ts := t; ident := i; work := wk; height := h; source := src |} in
        Ret (trim (with_rows w (credits w ++ [c]) m (total_work w)), c, true)
  | None =>
      m ← credit_totals (totals w) i wk t true;
      let c := {| ts := t; ident := i; work := wk; height := h; source := src |} in
      Ret (trim (with_rows w (credits w ++ [c]) m (total_work w)), c, true)
  end.

Definition credit_row (w : Window) (identity : string) (wk h t src : Z)
    : panics (Window * Credit) :=
  '(w, i) ← count_share w identity wk t;
  m ← credit_totals (totals w) i wk t true;
  let c := {| ts := t; ident := i; work := wk; height := h; source := src |} in
  Ret (trim (with_rows w (credits w ++ [c]) m (total_work w)), c).

Definition push_raw (w : Window) (c : Credit) : panics Window :=
  let w := note_seen w (ident c) (ts c) in
  let '(w0, n0, t0) := default (0, 0, 0) (totals w !! ident c) in
  n ← chk_add u64_max n0 1;
  Ret (with_rows w (credits w ++ [c])
         (<[ident c := (sat_add u64_max w0 (work c), n, Z.max t0 (ts c))]> (totals w))
         (sat_add u64_max (total_work w) (work c))).

(** * Balances *)

Definition carry_of (w : Window) (identity : string) : Z := of_identity w (carry w) identity.
Definition debt_of (w : Window) (identity : string) : Z := of_identity w (debt w) identity.

(** [values().fold(0, saturating_add)]. *)
Definition sat_sum (l : list Z) : Z := foldl (sat_add u64_max) 0 l.
Definition total_carry (w : Window) : Z := sat_sum (map snd (map_to_list (carry w))).
Definition total_debt (w : Window) : Z := sat_sum (map snd (map_to_list (debt w))).

(** A map entry stored only while it is not zero. *)
Definition put (m : gmap Z Z) (i v : Z) : gmap Z Z := if v =? 0 then delete i m else <[i := v]> m.

Definition set_rebate_owed (w : Window) (sats : Z) : Window := with_rebate_owed w sats.

(** [x + delta] for an [i64] delta, saturating at both ends. *)
Definition add_signed (x delta : Z) : Z :=
  if delta <? 0 then sat_sub x (- delta) else sat_add u64_max x delta.

Definition adjust_rebate_owed (w : Window) (delta : Z) : Window :=
  with_rebate_owed w (add_signed (rebate_owed w) delta).

Definition set_carry (w : Window) (identity : string) (sats : Z) : Window :=
  let '(w, i) := intern w identity in with_carry w (put (carry w) i sats).

(** [Window::adjust_carry]: the window and the new carry. *)
Definition adjust_carry (w : Window) (identity : string) (delta : Z) : Window * Z :=
  let '(w, i) := intern w identity in
  let new := add_signed (lookup0 (carry w) i) delta in
  (with_carry w (put (carry w) i new), new).

Definition accrue_debt (w : Window) (identity : string) (sats : Z) : Window :=
  if sats =? 0 then w else
  let '(w, i) := intern w identity in
  with_debt w (<[i := sat_add u64_max (lookup0 (debt w) i) sats]> (debt w)).

(** [Window::reduce_debt]: the window and what was collected. *)
Definition reduce_debt (w : Window) (identity : string) (sats : Z) : Window * Z :=
  match ident_index w !! identity with
  | None => (w, 0)
  | Some i =>
      let cur := lookup0 (debt w) i in
      let take := Z.min cur sats in
      (with_debt w (put (debt w) i (cur - take)), take)
  end.

Definition restore_debt (w : Window) (identity : string) (sats : Z) : Window :=
  if sats =? 0 then w else
  let from_carry := Z.min (carry_of w identity) sats in
  let w := if 0 <? from_carry then (adjust_carry w identity (- clamp_i64 from_carry)).1 else w in
  accrue_debt w identity (sats - from_carry).

Definition forgive_debt (w : Window) (identity : string) (sats : Z) : Window :=
  let '(w, from_debt) := reduce_debt w identity sats in
  let back := sats - from_debt in
  if 0 <? back then (adjust_carry w identity (clamp_i64 back)).1 else w.

(** [Window::restore_carry]: the window and the new carry. *)
Definition restore_carry (w : Window) (identity : string) (sats : Z) : Window * Z :=
  let '(w, taken) := reduce_debt w identity sats in
  let rest := sats - taken in
  if rest =? 0 then (w, carry_of w identity) else adjust_carry w identity (clamp_i64 rest).

(** * Listings *)

Definition by_sats (a b : string * Z) : bool :=
  (b.2 <? a.2) || ((a.2 =? b.2) && String.leb a.1 b.1).

Definition name_entry (w : Window) (e : Z * Z) : panics (string * Z) :=
  s ← ident_name w e.1; Ret (s, e.2).

(** [Window::carries] and [Window::debts], with the map's entries in iteration order. *)
Definition carries_in (w : Window) (es : list (Z * Z)) : panics (list (string * Z)) :=
  v ← mapM (name_entry w) es; Ret (sort_by by_sats v).
Definition carries (w : Window) : panics (list (string * Z)) := carries_in w (map_to_list (carry w)).
Definition debts (w : Window) : panics (list (string * Z)) := carries_in w (map_to_list (debt w)).

Definition is_stratum (c : Credit) : bool :=
  (source c =? SOURCE_STRATUM) || (source c =? SOURCE_STRATUM_GRACE).

(** Stratum and grace work per identity. *)
Fixpoint stratum_work (m : gmap Z (Z * Z)) (rows : list Credit) : panics (gmap Z (Z * Z)) :=
  match rows with
  | [] => Ret m
  | c :: rows' =>
      if is_stratum c then
        let '(s, g) := default (0, 0) (m !! ident c) in
        s' ← chk_add u64_max s (work c);
        g' ← (if source c =? SOURCE_STRATUM_GRACE then chk_add u64_max g (work c) else Ret g);
        stratum_work (<[ident c := (s', g')]> m) rows'
      else stratum_work m rows'
  end.

Definition miner_stat (w : Window) (sm : gmap Z (Z * Z)) (e : Z * Totals) : panics MinerStat :=
  let '(i, (wk, n, t)) := e in
  s ← ident_name w i;
  let sg := default (0, 0) (sm !! i) in
  Ret {| m_identity := s; m_work := wk; m_stratum_work := Z.min sg.1 wk;
         m_grace_work := Z.min sg.2 wk; m_credits := n; m_last_ts := t;
         m_carry := lookup0 (carry w) i |}.

(** An identity with carry and no work left in the window. *)
Definition carry_only (w : Window) (e : Z * Z) : panics MinerStat :=
  s ← ident_name w e.1;
  Ret {| m_identity := s; m_work := 0; m_stratum_work := 0; m_grace_work := 0; m_credits := 0;
         m_last_ts := lookup0 (last_seen w) e.1; m_carry := e.2 |}.

Definition miner_before (a b : MinerStat) : bool :=
  (m_work b <? m_work a) || ((m_work a =? m_work b) &&
    ((m_carry b <? m_carry a) || ((m_carry a =? m_carry b) && String.leb (m_identity a) (m_identity b)))).

(** [Window::miners] for one iteration order of [totals] and of [carry]. *)
Definition miners_in (w : Window) (ts : list (Z * Totals)) (cs : list (Z * Z))
    : panics (list MinerStat) :=
  sm ← stratum_work ∅ (credits w);
  v ← mapM (miner_stat w sm) ts;
  v' ← mapM (carry_only w) (filter (fun e => 0 < e.2 /\ totals w !! e.1 = None) cs);
  Ret (sort_by miner_before (v ++ v')).
Definition miners (w : Window) : panics (list MinerStat) :=
  miners_in w (map_to_list (totals w)) (map_to_list (carry w)).

(** [Window::split]. *)
Definition window_split (w : Window) (value : Z) (p : SplitParams) (now : Z)
    (script_for : string -> option (list Z)) : panics Split :=
  ms ← miners w; compute ms (total_work w) value p (rebate_owed w) now script_for.

(** [Window::stale_carries]. *)
Definition stale_entry (w : Window) (now after min : Z) (e : Z * Z) : Prop :=
  Z.max min 1 <= e.2 /\ totals w !! e.1 = None /\ 0 < lookup0 (last_seen w) e.1 /\
  after <= sat_sub now (lookup0 (last_seen w) e.1).
#[export] Instance stale_entry_dec w now after min e : Decision (stale_entry w now after min e).
Proof. unfold stale_entry. apply _. Defined.

Definition stale_carry (w : Window) (e : Z * Z) : panics StaleCarry :=
  s ← ident_name w e.1;
  Ret {| sc_identity := s; sc_sats := e.2; sc_last_seen := lookup0 (last_seen w) e.1 |}.

Definition stale_before (a b : StaleCarry) : bool :=
  (sc_sats b <? sc_sats a) || ((sc_sats a =? sc_sats b) && String.leb (sc_identity a) (sc_identity b)).

Definition stale_carries_in (w : Window) (now after min : Z) (es : list (Z * Z))
    : panics (list StaleCarry) :=
  v ← mapM (stale_carry w) (filter (stale_entry w now after min) es);
  Ret (sort_by stale_before v).
Definition stale_carries (w : Window) (now after min : Z) : panics (list StaleCarry) :=
  stale_carries_in w now after min (map_to_list (carry w)).

(** * Holds *)

(** Take from the entries of one identity: the entries and what is still wanted. *)
Fixpoint draw_entries (identity : string) (wanted : Z) (es : list (string * Z))
    : list (string * Z) * Z :=
  match es with
  | [] => ([], wanted)
  | e :: es' =>
      if bool_decide (e.1 = identity) then
        let take := Z.min e.2 wanted in
        let '(rest, wanted') := draw_entries identity (wanted - take) es' in
        ((e.1, e.2 - take) :: rest, wanted')
      else
        let '(rest, wanted') := draw_entries identity wanted es' in (e :: rest, wanted')
  end.

Definition with_entries (h : Hold) (es : list (string * Z)) : Hold := {|
  created_ts := created_ts h; hold_height := hold_height h; ready_height := ready_height h;
  entries := es |}.

(** One hold: dropped when nothing is left in it. *)
Definition draw_one (identity : string) (st : gmap string Hold * Z) (batch : string)
    : gmap string Hold * Z :=
  let '(hs, wanted) := st in
  if wanted =? 0 then st else
  match hs !! batch with
  | None => st
  | Some h =>
      let '(es, wanted') := draw_entries identity wanted (entries h) in
      let es := filter (fun e => 0 < e.2) es in
      (match es with [] => delete batch hs | _ => <[batch := with_entries h es]> hs end, wanted')
  end.

(** Oldest batch first. *)
Definition hold_before (a b : Z * string) : bool :=
  (a.1 <? b.1) || ((a.1 =? b.1) && String.leb a.2 b.2).
Definition hold_order (hs : gmap string Hold) : list (Z * string) :=
  sort_by hold_before (map (fun e => (created_ts e.2, e.1)) (map_to_list hs)).

(** [Window::draw_from_holds]: the window and what was taken. *)
Definition draw_from_holds (w : Window) (identity : string) (sats : Z) : Window * Z :=
  let '(hs, wanted) := foldl (draw_one identity) (holds w, sats) (map snd (hold_order (holds w))) in
  (with_holds w hs, sats - wanted).

Definition total_held (w : Window) : Z :=
  sat_sum (map snd (concat (map (fun e => entries e.2) (map_to_list (holds w))))).
