(* ===== verification/WindowFacts.v ===== *)
(** The invariant of the share window and the lemmas behind its properties. *)

From S2P Require Import Prelude Tides Split SplitFacts Window.
Open Scope Z_scope.

(** * The invariant *)

(** The rows of one identity. *)
Definition rows_of (i : Z) (rows : list Credit) : list Credit := filter (fun c => ident c = i) rows.
Definition row_work (i : Z) (rows : list Credit) : Z := zsum (map work (rows_of i rows)).
Definition row_count (i : Z) (rows : list Credit) : Z := Z.of_nat (length (rows_of i rows)).

Definition interned (w : Window) (i : Z) : Prop := 0 <= i /\ is_Some (identity_at w i).

(** [totals] is the index of [rows] by identity. *)
Definition totals_ok (rows : list Credit) (m : gmap Z Totals) : Prop :=
  forall i, match m !! i with
  | Some (wk, n, _) => wk = row_work i rows /\ n = row_count i rows /\ 0 < n
  | None => row_count i rows = 0
  end.

Definition balance_ok (w : Window) (i s : Z) : Prop := interned w i /\ 0 < s <= u64_max.

Definition hold_ok (_ : string) (h : Hold) : Prop :=
  entries h <> [] /\ Forall (fun e => 0 < e.2) (entries h).

Record window_ok (w : Window) : Prop := {
  wo_index : forall s i, ident_index w !! s = Some i <-> 0 <= i /\ identity_at w i = Some s;
  wo_room : Z.of_nat (length (idents w)) <= u32_max + 1;
  wo_rows : Forall (fun c => interned w (ident c) /\ in_range u64_max (work c)) (credits w);
  wo_totals : totals_ok (credits w) (totals w);
  wo_total : total_work w = zsum (map work (credits w)) /\ total_work w <= u64_max;
  wo_carry : map_Forall (balance_ok w) (carry w);
  wo_debt : map_Forall (balance_ok w) (debt w);
  wo_seen : map_Forall (fun i t => interned w i /\ 0 <= t) (last_seen w);
  wo_owed : in_range u64_max (rebate_owed w);
  wo_target : 0 <= target_work w;
  wo_holds : map_Forall hold_ok (holds w)
}.

(** * Rows *)

Lemma row_count_nonneg i rows : 0 <= row_count i rows.
Proof. unfold row_count. lia. Qed.

Lemma row_work_cons i c rows :
  row_work i (c :: rows) = (if decide (ident c = i) then work c else 0) + row_work i rows.
Proof.
  unfold row_work, rows_of. rewrite filter_cons. destruct (decide (ident c = i)); simpl; lia.
Qed.

Lemma row_count_cons i c rows :
  row_count i (c :: rows) = (if decide (ident c = i) then 1 else 0) + row_count i rows.
Proof.
  unfold row_count, rows_of. rewrite filter_cons. destruct (decide (ident c = i)); cbn [length]; lia.
Qed.

Lemma row_work_app i r1 r2 : row_work i (r1 ++ r2) = row_work i r1 + row_work i r2.
Proof. unfold row_work, rows_of. by rewrite filter_app, map_app, zsum_app. Qed.

Lemma row_count_app i r1 r2 : row_count i (r1 ++ r2) = row_count i r1 + row_count i r2.
Proof. unfold row_count, rows_of. rewrite filter_app, length_app. lia. Qed.

Lemma row_work_le i rows :
  Forall (fun c => in_range u64_max (work c)) rows -> 0 <= row_work i rows <= zsum (map work rows).
Proof.
  induction 1 as [|c rows Hc _ IH]; [by cbn|]. rewrite row_work_cons. cbn [map]. rewrite zsum_cons.
  unfold in_range in Hc. destruct (decide _); lia.
Qed.

Lemma row_work_zero i rows : row_count i rows = 0 -> row_work i rows = 0.
Proof.
  unfold row_count, row_work. intros H. destruct (rows_of i rows); [done | cbn [length] in H; lia].
Qed.

Lemma row_count_pos c rows : c ∈ rows -> 0 < row_count (ident c) rows.
Proof.
  intros Hc. unfold row_count. destruct (rows_of (ident c) rows) eqn:E; [|cbn [length]; lia].
  assert (Hin : c ∈ rows_of (ident c) rows) by (apply list_elem_of_filter; auto).
  rewrite E in Hin. by apply elem_of_nil in Hin.
Qed.

(** Summed over every identity that has a row, the rows' work is all of it. *)
Lemma zsum_indicator (keys : list Z) k v :
  NoDup keys -> k ∈ keys -> zsum (map (fun i => if decide (k = i) then v else 0) keys) = v.
Proof.
  induction 1 as [|i keys Hi Hk IH]; intros Hin; [by apply elem_of_nil in Hin|].
  cbn [map]. rewrite zsum_cons. destruct (decide (k = i)) as [->|Hne].
  - assert (Hz : zsum (map (fun j => if decide (i = j) then v else 0) keys) = 0).
    { clear IH Hin Hk. induction keys as [|j keys IH]; [done|].
      apply not_elem_of_cons in Hi as [Hj Hi]. cbn [map]. rewrite zsum_cons, IH by done.
      by rewrite decide_False by done. }
    lia.
  - apply elem_of_cons in Hin as [->|Hin]; [done|]. rewrite IH by done. lia.
Qed.

Lemma row_work_total keys rows :
  NoDup keys -> Forall (fun c => ident c ∈ keys) rows ->
  zsum (map (fun i => row_work i rows) keys) = zsum (map work rows).
Proof.
  intros Hk. induction 1 as [|c rows Hc Hr IH].
  - cbn. clear Hk. by induction keys.
  - cbn [map]. rewrite zsum_cons, <- IH, <- (zsum_indicator keys (ident c) (work c)) by done.
    rewrite <- zsum_map_add. f_equal. apply map_ext. intros i. apply row_work_cons.
Qed.

(** * Trimming *)

Lemma forget_row_ok c rows m :
  Forall (fun x => in_range u64_max (work x)) rows ->
  totals_ok (c :: rows) m -> totals_ok rows (forget_row m c).
Proof.
  intros Hr H. pose proof (H (ident c)) as Hc.
  rewrite row_count_cons, row_work_cons, !decide_True in Hc by done.
  pose proof (row_work_le (ident c) rows Hr). pose proof (row_count_nonneg (ident c) rows).
  unfold forget_row. destruct (m !! ident c) as [[[wk n] t]|] eqn:E; [|lia].
  destruct Hc as (-> & -> & _).
  assert (Hrest : forall i, ident c <> i ->
    match m !! i with
    | Some (wk, n, _) => wk = row_work i rows /\ n = row_count i rows /\ 0 < n
    | None => row_count i rows = 0
    end).
  { intros i Hi. specialize (H i).
    rewrite row_count_cons, row_work_cons, !decide_False in H by done.
    rewrite !Z.add_0_l in H. exact H. }
  destr_if; bools; unfold sat_sub in *.
  - intros i. destruct (decide (ident c = i)) as [<-|Hne].
    + rewrite lookup_delete_eq. lia.
    + rewrite lookup_delete_ne by done. by apply Hrest.
  - intros i. destruct (decide (ident c = i)) as [<-|Hne].
    + rewrite lookup_insert_eq. lia.
    + rewrite lookup_insert_ne by done. by apply Hrest.
Qed.

(** What trimming keeps: a suffix of the rows, not less than the target where anything was
    dropped, and nothing more could be dropped. *)
Definition trimmed (target : Z) (rows rows' : list Credit) : Prop :=
  exists old, rows = old ++ rows' /\
    (old <> [] -> target <= zsum (map work rows')) /\
    (forall c rest, rows' = c :: rest -> zsum (map work rest) < target).

Lemma trim_rows_ok target rows : forall m tot,
  Forall (fun x => in_range u64_max (work x)) rows ->
  totals_ok rows m -> tot = zsum (map work rows) ->
  match trim_rows target rows m tot with
  | (rows', m', tot') =>
      totals_ok rows' m' /\ tot' = zsum (map work rows') /\ trimmed target rows rows'
  end.
Proof.
  induction rows as [|c rows IH]; intros m tot HF Hm Ht; cbn [trim_rows].
  - repeat split; try done. exists []. repeat split; done.
  - apply Forall_cons in HF as [Hc HF]. cbn [map] in Ht. rewrite zsum_cons in Ht.
    assert (0 <= zsum (map work rows)).
    { apply zsum_map_nonneg. intros x Hx. eapply Forall_forall in HF; [|exact Hx].
      unfold in_range in HF. lia. }
    destr_if; [bools; unfold in_range in Hc; lia|]. destr_if; bools.
    + split; [done|]. split; [done|]. exists []. split; [done|]. split; [done|].
      intros c' rest [= <- <-]. lia.
    + specialize (IH (forget_row m c) (tot - work c) HF (forget_row_ok _ _ _ HF Hm) ltac:(lia)).
      destruct (trim_rows target rows (forget_row m c) (tot - work c)) as [[rows' m'] tot'].
      destruct IH as (H1 & H2 & old & -> & H3 & H4). repeat split; try done.
      exists (c :: old). split; [done|]. split; [|done].
      intros _. destruct old as [|o old]; [|by apply H3]. cbn [app] in *. lia.
Qed.

(** * The invariant is preserved *)

Lemma map_Forall_put (P : Z -> Z -> Prop) m i v :
  map_Forall P m -> (v <> 0 -> P i v) -> map_Forall P (put m i v).
Proof.
  intros Hm Hv. unfold put. destr_if; bools.
  - by apply map_Forall_delete.
  - apply map_Forall_insert_2; auto.
Qed.

Section FieldUpdates.
Context (w : Window).
Hypothesis OK : window_ok w.

Lemma with_carry_ok c : map_Forall (balance_ok w) c -> window_ok (with_carry w c).
Proof using OK. destruct OK. by constructor. Qed.
Lemma with_debt_ok d : map_Forall (balance_ok w) d -> window_ok (with_debt w d).
Proof using OK. destruct OK. by constructor. Qed.
Lemma with_rebate_owed_ok r : in_range u64_max r -> window_ok (with_rebate_owed w r).
Proof using OK. destruct OK. by constructor. Qed.
Lemma with_holds_ok h : map_Forall hold_ok h -> window_ok (with_holds w h).
Proof using OK. destruct OK. by constructor. Qed.
Lemma with_lifetime_ok s l : window_ok (with_lifetime w s l).
Proof using OK. destruct OK. by constructor. Qed.
Lemma with_target_ok t : 0 <= t -> window_ok (with_target w t).
Proof using OK. destruct OK. by constructor. Qed.
Lemma note_seen_ok i t : interned w i -> 0 <= t -> window_ok (note_seen w i t).
Proof using OK.
  intros Hi Ht. unfold note_seen.
  assert (0 <= lookup0 (last_seen w) i).
  { unfold lookup0. destruct (last_seen w !! i) as [t'|] eqn:E; [|done].
    apply (wo_seen _ OK) in E. tauto. }
  destruct OK. constructor; try done.
  apply map_Forall_insert_2; [|done]. split; [done | lia].
Qed.
Lemma with_rows_ok cs ts tot :
  Forall (fun c => interned w (ident c) /\ in_range u64_max (work c)) cs -> totals_ok cs ts ->
  tot = zsum (map work cs) -> tot <= u64_max -> window_ok (with_rows w cs ts tot).
Proof using OK. intros. destruct OK. by constructor. Qed.

Lemma lookup0_range (m : gmap Z Z) i : map_Forall (balance_ok w) m -> in_range u64_max (lookup0 m i).
Proof.
  intros Hm. unfold lookup0, in_range. destruct (m !! i) eqn:E; cbn; [|lia].
  apply Hm in E as [_ ?]. lia.
Qed.
Lemma carry_range i : in_range u64_max (lookup0 (carry w) i).
Proof using OK. apply lookup0_range, OK. Qed.
Lemma debt_range i : in_range u64_max (lookup0 (debt w) i).
Proof using OK. apply lookup0_range, OK. Qed.
Lemma index_interned s i : ident_index w !! s = Some i -> interned w i.
Proof using OK. intros H. destruct (proj1 (wo_index _ OK s i) H). split; eauto. Qed.

Lemma rows_range : Forall (fun c => in_range u64_max (work c)) (credits w).
Proof using OK. eapply Forall_impl; [apply OK | intros c [_ Hc]; exact Hc]. Qed.
End FieldUpdates.

(** What [intern] does: the same window with a table that knows the identity and keeps every
    entry it had. *)
Record interns (w : Window) (identity : string) (w' : Window) (i : Z) : Prop := {
  in_ok : window_ok w';
  in_index : ident_index w' !! identity = Some i;
  in_at : interned w' i;
  in_old : forall j, interned w j -> interned w' j;
  in_same : forall s j, ident_index w !! s = Some j -> ident_index w' !! s = Some j;
  in_other : forall s, s <> identity -> ident_index w' !! s = ident_index w !! s;
  in_frame : exists l m, w' = with_idents w l m;
  in_fresh : ident_index w !! identity = None -> forall j, interned w j -> j <> i;
  in_len : length (idents w') = length (idents w) \/
    (length (idents w') = S (length (idents w)) /\ ident_index w !! identity = None)
}.

Definition table_room (w : Window) : Prop := Z.of_nat (length (idents w)) <= u32_max.

Lemma with_idents_id w : with_idents w (idents w) (ident_index w) = w.
Proof. by destruct w. Qed.

Lemma intern_ok w identity :
  window_ok w -> table_room w -> interns w identity (intern w identity).1 (intern w identity).2.
Proof.
  intros OK Hroom. unfold intern.
  destruct (ident_index w !! identity) as [i|] eqn:E; cbn [fst snd].
  - constructor; try done.
    + by eapply index_interned.
    + exists (idents w), (ident_index w). by rewrite with_idents_id.
    + intros H. congruence.
    + by left.
  - unfold table_room in Hroom. rewrite trunc_small by (unfold in_range; lia).
    set (n := Z.of_nat (length (idents w))) in *.
    set (w' := with_idents w (idents w ++ [identity]) (<[identity:=n]> (ident_index w))).
    assert (Hn : identity_at w' n = Some identity).
    { unfold identity_at, w', n. cbn [idents with_idents].
      rewrite Nat2Z.id, lookup_app_r by lia. by rewrite Nat.sub_diag. }
    assert (Hold : forall j s, identity_at w j = Some s -> identity_at w' j = Some s).
    { intros j s Hj. unfold identity_at, w' in *. cbn [idents with_idents]. by apply lookup_app_l_Some. }
    assert (Hmono : forall j, interned w j -> interned w' j).
    { intros j [Hj [s Hs]]. split; [done|]. exists s. by apply Hold. }
    assert (Hnot : forall j s, identity_at w j = Some s -> 0 <= j -> j < n).
    { intros j s Hj ?. unfold identity_at in Hj. apply lookup_lt_Some in Hj. lia. }
    constructor.
    + destruct OK as [Hidx Hlen Hrows Htot Htw Hc Hd Hs Ho Ht Hh]. constructor; try done.
      * intros s i. change (ident_index w') with (<[identity:=n]> (ident_index w)).
        destruct (decide (identity = s)) as [<-|Hne].
        -- rewrite lookup_insert_eq. split.
           ++ intros [= <-]. split; [lia | exact Hn].
           ++ intros [Hi Hat]. f_equal. unfold identity_at, w' in Hat. cbn [idents with_idents] in Hat.
              apply lookup_app_Some in Hat as [Hat|[Hge Hat]].
              ** assert (Hx : ident_index w !! identity = Some i) by (apply Hidx; by split). congruence.
              ** apply lookup_lt_Some in Hat. cbn in Hat. lia.
        -- rewrite lookup_insert_ne by done. rewrite Hidx. split; intros [Hi Hat]; split; try done.
           ++ by apply Hold.
           ++ unfold identity_at, w' in Hat. cbn [idents with_idents] in Hat.
              apply lookup_app_Some in Hat as [Hat|[Hge Hat]]; [done|].
              apply list_lookup_singleton_Some in Hat as [_ Hat]. congruence.
      * unfold w'. cbn [idents with_idents]. rewrite length_app. cbn [length]. lia.
      * eapply Forall_impl; [exact Hrows|]. intros c [H ?]. split; [by apply Hmono | done].
      * eapply map_Forall_impl; [exact Hc|]. intros i s [H ?]. split; [by apply Hmono | done].
      * eapply map_Forall_impl; [exact Hd|]. intros i s [H ?]. split; [by apply Hmono | done].
      * eapply map_Forall_impl; [exact Hs|]. intros i s [H ?]. split; [by apply Hmono | done].
    + apply lookup_insert_eq.
    + split; [lia | by exists identity].
    + exact Hmono.
    + intros s j Hj. unfold w'. cbn [ident_index with_idents].
      rewrite lookup_insert_ne; [done|]. intros ->. congruence.
    + intros s Hs. unfold w'. cbn [ident_index with_idents]. by rewrite lookup_insert_ne.
    + by eexists _, _.
    + intros _ j [Hj [s Hs]] ->. apply Hnot in Hs; lia.
    + right. unfold w'. cbn [idents with_idents]. rewrite length_app. cbn [length]. split; [lia | done].
Qed.

Lemma trim_ok w : window_ok w -> window_ok (trim w).
Proof.
  intros OK. unfold trim. destr_if; [done|].
  pose proof (trim_rows_ok (target_work w) (credits w) (totals w) (total_work w)
    (rows_range w OK) (wo_totals _ OK) (proj1 (wo_total _ OK))) as H.
  destruct (trim_rows _ _ _ _) as [[rows m] tot]. destruct H as (Ht & -> & old & Heq & _).
  pose proof (rows_range w OK) as Hr. destruct (wo_total _ OK) as [Htot Hmax].
  rewrite Heq in Hr, Htot. apply Forall_app in Hr as [Hr1 Hr2].
  rewrite map_app, zsum_app in Htot.
  assert (0 <= zsum (map work old)).
  { apply zsum_map_nonneg. intros x Hx. eapply Forall_forall in Hr1; [|exact Hx].
    unfold in_range in Hr1. lia. }
  apply with_rows_ok; try done; [|lia].
  pose proof (wo_rows _ OK) as Hrows. rewrite Heq in Hrows. by apply Forall_app in Hrows as [_ ?].
Qed.

Lemma set_target_ok w t : window_ok w -> 0 <= t -> window_ok (set_target w t).
Proof. intros. by apply trim_ok, with_target_ok. Qed.

Lemma window_new_ok : window_ok window_new.
Proof.
  constructor; try done; try apply map_Forall_empty.
  intros s i. split; [done|]. intros [_ H]. change ([] !! Z.to_nat i = Some s) in H. by rewrite lookup_nil in H.
Qed.

(** * Adding work *)

(** Room for one more share: the counters and tables the code keeps at machine width. *)
Record credit_room (w : Window) (wk : Z) : Prop := {
  cr_work : 0 <= wk;
  cr_total : total_work w + wk <= u64_max;
  cr_shares : lifetime_shares w < u64_max;
  cr_rows : Z.of_nat (length (credits w)) < u64_max;
  cr_table : table_room w
}.

(** The window before the share is put in a row, for the [w'] the invariant still holds of. *)
Record counted (w : Window) (identity : string) (w' : Window) (i : Z) : Prop := {
  ct_ok : window_ok w';
  ct_index : ident_index w' !! identity = Some i;
  ct_at : interned w' i;
  ct_same : forall s j, ident_index w !! s = Some j -> ident_index w' !! s = Some j;
  ct_other : forall s, s <> identity -> ident_index w' !! s = ident_index w !! s;
  ct_fresh : ident_index w !! identity = None -> forall j, interned w j -> j <> i;
  ct_credits : credits w' = credits w;
  ct_totals : totals w' = totals w;
  ct_total : total_work w' = total_work w;
  ct_target : target_work w' = target_work w;
  ct_money : carry w' = carry w /\ debt w' = debt w /\ holds w' = holds w /\
    rebate_owed w' = rebate_owed w
}.

Lemma count_share_ok w identity wk t :
  window_ok w -> credit_room w wk -> 0 <= t ->
  exists w' i, counted w identity w' i /\
    count_share w identity wk t
    = Ret (with_rows w' (credits w) (totals w) (total_work w + wk), i).
Proof.
  intros OK [Hwk Htot Hsh _ Hroom] Ht. unfold count_share.
  pose proof (intern_ok w identity OK Hroom) as Hi.
  destruct (intern w identity) as [w1 i]; cbn [fst snd] in Hi.
  destruct Hi as [OK1 Hidx Hat _ Hsame Hother (l & m & Hf) Hfresh _].
  assert (Hl1 : lifetime_shares w1 = lifetime_shares w) by by rewrite Hf.
  set (w2 := note_seen (with_lifetime w1 (lifetime_shares w + 1)
                (sat_add u64_max (lifetime_work w1) wk)) i t).
  exists w2, i. split.
  - constructor.
    + apply note_seen_ok; [by apply with_lifetime_ok | done | done].
    + exact Hidx.
    + exact Hat.
    + exact Hsame.
    + exact Hother.
    + exact Hfresh.
    + by unfold w2; rewrite Hf.
    + by unfold w2; rewrite Hf.
    + by unfold w2; rewrite Hf.
    + by unfold w2; rewrite Hf.
    + by unfold w2; rewrite Hf.
  - rewrite Hl1, (chk_add_ok _ (lifetime_shares w) 1) by lia. mstep.
    unfold w2. rewrite Hf. cbn. unfold sat_add. rewrite (Z.min_l (total_work w + wk)) by lia. done.
Qed.

Lemma lookup_totals rows m i :
  totals_ok rows m ->
  exists t0, default (0, 0, 0) (m !! i) = (row_work i rows, row_count i rows, t0).
Proof.
  intros H. specialize (H i). destruct (m !! i) as [[[wk n] t]|].
  - destruct H as (-> & -> & _). by exists t.
  - exists 0. cbn. by rewrite H, (row_work_zero _ _ H).
Qed.

Lemma credit_totals_ok rows m i wk t new :
  totals_ok rows m -> Forall (fun c => in_range u64_max (work c)) rows ->
  0 <= wk -> zsum (map work rows) + wk <= u64_max -> Z.of_nat (length rows) < u64_max ->
  credit_totals m i wk t new
  = Ret (<[i := (row_work i rows + wk, row_count i rows + (if new then 1 else 0), t)]> m).
Proof.
  intros Hm Hr Hwk Htot Hlen. destruct (lookup_totals rows m i Hm) as [t0 E].
  unfold credit_totals. rewrite E. pose proof (row_work_le i rows Hr).
  assert (row_count i rows <= Z.of_nat (length rows)).
  { unfold row_count, rows_of. pose proof (length_filter (fun c => ident c = i) rows). lia. }
  unfold sat_add. rewrite Z.min_l by lia.
  destruct new; [rewrite chk_add_ok by lia | rewrite Z.add_0_r]; reflexivity.
Qed.

Lemma totals_snoc rows m c t :
  totals_ok rows m ->
  totals_ok (rows ++ [c])
    (<[ident c := (row_work (ident c) rows + work c, row_count (ident c) rows + 1, t)]> m).
Proof.
  intros H i. pose proof (row_count_nonneg (ident c) rows).
  rewrite row_work_app, row_count_app, row_work_cons, row_count_cons.
  change (row_work i []) with 0. change (row_count i []) with 0.
  destruct (decide (ident c = i)) as [<-|Hne].
  - rewrite lookup_insert_eq. lia.
  - rewrite lookup_insert_ne by done. specialize (H i). rewrite !Z.add_0_r. exact H.
Qed.

Lemma totals_merge rows m c c' wk t :
  totals_ok (rows ++ [c]) m -> ident c' = ident c -> work c' = work c + wk ->
  totals_ok (rows ++ [c'])
    (<[ident c := (row_work (ident c) (rows ++ [c]) + wk, row_count (ident c) (rows ++ [c]), t)]> m).
Proof.
  intros H Hid Hw i. specialize (H i). pose proof (row_count_nonneg (ident c) rows).
  destruct (decide (ident c = i)) as [<-|Hne]; [rewrite lookup_insert_eq | rewrite lookup_insert_ne by done];
    revert H; rewrite !row_work_app, !row_count_app, !row_work_cons, !row_count_cons, Hid, Hw.
  - rewrite !decide_True by done. change (row_work (ident c) []) with 0.
    change (row_count (ident c) []) with 0. intros _. lia.
  - by rewrite !decide_False by done.
Qed.

(** The newest row of a window after a credit, and the window before trimming. *)
Lemma append_ok w w' i c t identity :
  window_ok w -> counted w identity w' i -> credit_room w (work c) -> ident c = i ->
  window_ok (with_rows w' (credits w ++ [c])
    (<[i := (row_work i (credits w) + work c, row_count i (credits w) + 1, t)]> (totals w))
    (total_work w + work c)).
Proof.
  intros OK [OK' _ Hat _ _ _ Hcr Htt _ _ _] [Hwk Hmax _ _ _] <-.
  destruct (wo_total _ OK) as [Htot ?]. apply with_rows_ok; try done.
  - apply Forall_app. split.
    + rewrite <- Hcr. apply OK'.
    + constructor; [|done]. split; [done|]. unfold in_range.
      assert (0 <= total_work w); [|lia]. rewrite Htot. apply zsum_map_nonneg. intros x Hx.
      pose proof (rows_range w OK) as Hr. eapply Forall_forall in Hr; [|exact Hx].
      unfold in_range in Hr. lia.
  - apply totals_snoc, OK.
  - rewrite map_app, zsum_app, Htot. cbn. lia.
Qed.

(** The rows a share leaves before trimming: one more row, or the newest one grown. *)
Inductive shared (rows : list Credit) (c0 : Credit) : list Credit -> Credit -> bool -> Prop :=
| shared_new : shared rows c0 (rows ++ [c0]) c0 true
| shared_merged old tail c :
    rows = old ++ [tail] ->
    ident tail = ident c0 -> ts tail = ts c0 -> height tail = height c0 -> source tail = source c0 ->
    c = {| ts := ts c0; ident := ident c0; work := work tail + work c0; height := height c0;
           source := source c0 |} ->
    shared rows c0 (old ++ [c]) c false.

Definition as_credit (i wk h t src : Z) : Credit :=
  {| ts := t; ident := i; work := wk; height := h; source := src |}.

(** What a credit operation promises, before the window is trimmed. *)
Record credited (w : Window) (identity : string) (wk h t src : Z) (w2 : Window) (c : Credit)
    (appended : bool) : Prop := {
  cd_base : exists w' i rows m, counted w identity w' i /\
    shared (credits w) (as_credit i wk h t src) rows c appended /\
    w2 = with_rows w' rows m (total_work w + wk);
  cd_ok : window_ok w2
}.

Lemma credit_append_ok w identity wk h t src w' i :
  window_ok w -> credit_room w wk -> counted w identity w' i ->
  exists m, credit_totals (totals w) i wk t true = Ret m /\
    credited w identity wk h t src
      (with_rows w' (credits w ++ [as_credit i wk h t src]) m (total_work w + wk))
      (as_credit i wk h t src) true.
Proof.
  intros OK R Hc. pose proof R as [Hwk Hmax _ Hlen _]. destruct (wo_total _ OK) as [Htot _].
  eexists. split.
  - apply credit_totals_ok with (rows := credits w); try lia; [apply OK | by apply rows_range].
  - constructor.
    + eexists _, i, _, _. split; [exact Hc|]. split; [constructor | reflexivity].
    + by eapply (append_ok w w' i (as_credit i wk h t src) t).
Qed.

Lemma credit_ok_spec w identity wk h t src :
  window_ok w -> credit_room w wk -> 0 <= t ->
  exists w2 c b, credited w identity wk h t src w2 c b /\
    credit w identity wk h t src = Ret (trim w2, c, b).
Proof.
  intros OK R Ht. destruct (count_share_ok w identity wk t OK R Ht) as (w' & i & Hc & E).
  unfold credit. rewrite E. mstep. cbn [credits with_rows totals total_work].
  pose proof (credit_append_ok w identity wk h t src w' i OK R Hc) as (m & Em & Hm).
  destruct (last (credits w)) as [tail|] eqn:El; [|rewrite Em; mstep; by eexists _, _, _].
  destr_if; [|rewrite Em; mstep; by eexists _, _, _].
  unfold merges in Hif. bools. subst i.
  apply last_Some in El as (old & Hrows).
  pose proof R as [Hwk Hmax _ Hlen _]. destruct (wo_total _ OK) as [Htot _].
  pose proof (rows_range w OK) as Hr.
  rewrite (credit_totals_ok (credits w)) by (try lia; try apply OK; done). mstep.
  assert (Htail : 0 <= work tail /\ work tail + wk <= u64_max).
  { rewrite Hrows in Hr, Htot. apply Forall_app in Hr as [Hr1 Hr2].
    rewrite map_app, zsum_app in Htot. cbn in Htot.
    apply Forall_cons in Hr2 as [Hr2 _]. unfold in_range in Hr2. split; [lia|].
    assert (0 <= zsum (map work old)); [|lia].
    apply zsum_map_nonneg. intros x Hx. eapply Forall_forall in Hr1; [|exact Hx].
    unfold in_range in Hr1. lia. }
  assert (Hsat : sat_add u64_max (work tail) wk = work tail + wk) by sat_lia.
  rewrite Hsat, Z.add_0_r, Hrows, removelast_last.
  eexists _, _, false. split; [|reflexivity]. constructor.
  - eexists w', _, _, _. split; [exact Hc|]. split.
    + eapply shared_merged; try done. cbn. congruence.
    + reflexivity.
  - pose proof Hc as [OK' Hidx Hat _ _ _ Hcr Htt Htw _ _]. apply (with_rows_ok w' OK'); try done.
    + pose proof (wo_rows _ OK') as Hrow. rewrite Hcr, Hrows in Hrow.
      apply Forall_app in Hrow as [? ?]. apply Forall_app. split; [done|].
      constructor; [|done]. split; [done|]. cbn. unfold in_range. lia.
    + apply (totals_merge old (totals w) tail _ wk t); try done. rewrite <- Hrows. apply OK.
    + rewrite Htot, Hrows, !map_app, !zsum_app. cbn. lia.
Qed.

Lemma credit_row_ok_spec w identity wk h t src :
  window_ok w -> credit_room w wk -> 0 <= t ->
  exists w2 c, credited w identity wk h t src w2 c true /\
    credit_row w identity wk h t src = Ret (trim w2, c).
Proof.
  intros OK R Ht. destruct (count_share_ok w identity wk t OK R Ht) as (w' & i & Hc & E).
  unfold credit_row. rewrite E. mstep. cbn [credits with_rows totals total_work].
  pose proof (credit_append_ok w identity wk h t src w' i OK R Hc) as (m & Em & Hm).
  rewrite Em. mstep. by eexists _, _.
Qed.

Lemma push_raw_ok w c :
  window_ok w -> interned w (ident c) -> in_range u64_max (work c) -> 0 <= ts c ->
  total_work w + work c <= u64_max -> Z.of_nat (length (credits w)) < u64_max ->
  exists w', push_raw w c = Ret w' /\ window_ok w' /\ credits w' = credits w ++ [c] /\
    total_work w' = total_work w + work c.
Proof.
  intros OK Hi Hw Ht Hmax Hlen. unfold push_raw.
  pose proof (note_seen_ok w OK (ident c) (ts c) Hi Ht) as OK1.
  destruct (lookup_totals _ _ (ident c) (wo_totals _ OK)) as [t0 E].
  change (totals (note_seen w (ident c) (ts c))) with (totals w). rewrite E.
  pose proof (row_work_le (ident c) _ (rows_range w OK)). destruct (wo_total _ OK) as [Htot _].
  assert (row_count (ident c) (credits w) <= Z.of_nat (length (credits w))).
  { unfold row_count, rows_of. pose proof (length_filter (fun x => ident x = ident c) (credits w)). lia. }
  unfold in_range in Hw. rewrite chk_add_ok by lia. mstep.
  assert (Hs1 : sat_add u64_max (row_work (ident c) (credits w)) (work c)
    = row_work (ident c) (credits w) + work c) by sat_lia.
  assert (Hs2 : sat_add u64_max (total_work w) (work c) = total_work w + work c) by sat_lia.
  cbn [credits note_seen with_last_seen total_work]. rewrite Hs1, Hs2.
  eexists. split; [reflexivity|]. split; [|done]. apply with_rows_ok; try done.
  - apply Forall_app. split; [apply OK|]. by constructor.
  - apply totals_snoc, OK.
  - rewrite map_app, zsum_app, Htot. cbn. lia.
Qed.
