(* ===== verification/BalanceFacts.v ===== *)
(** Movements of money between the balances of a window: carry and debt by name, the holds, and
    what each operation of [Window] does to them. *)

From S2P Require Import Prelude Tides Split SplitFacts Window WindowFacts.
Open Scope Z_scope.

(** * Balances by name *)

Definition spare (n : nat) (w : Window) : Prop :=
  Z.of_nat (length (idents w)) + Z.of_nat n <= u32_max + 1.

Lemma spare_room n w : spare (S n) w -> table_room w.
Proof. unfold spare, table_room. lia. Qed.

(** The sum of a map of balances. *)
Definition msum (m : gmap Z Z) : Z := zsum (map snd (map_to_list m)).

Lemma msum_insert m i v : m !! i = None -> msum (<[i := v]> m) = v + msum m.
Proof. intros H. unfold msum. by rewrite (map_to_list_insert _ _ _ H). Qed.

Lemma msum_delete m i : msum (delete i m) = msum m - lookup0 m i.
Proof.
  unfold lookup0. destruct (m !! i) as [v|] eqn:E; cbn.
  - rewrite <- (insert_delete_id m i v) at 2 by done.
    rewrite msum_insert by apply lookup_delete_eq. lia.
  - rewrite delete_id by done. lia.
Qed.

Lemma msum_put m i v : msum (put m i v) = msum m - lookup0 m i + v.
Proof.
  unfold put. destr_if; bools.
  - rewrite msum_delete. lia.
  - rewrite <- insert_delete_eq, msum_insert by apply lookup_delete_eq. rewrite msum_delete. lia.
Qed.

Lemma insert_as_put m i v : v <> 0 -> <[i := v]> m = put m i v.
Proof. intros H. unfold put. by rewrite (proj2 (Z.eqb_neq _ _) H). Qed.

Lemma lookup0_put m i v j : lookup0 (put m i v) j = if decide (i = j) then v else lookup0 m j.
Proof.
  unfold lookup0, put. destr_if; bools; destruct (decide (i = j)) as [<-|Hne].
  - by rewrite lookup_delete_eq.
  - by rewrite lookup_delete_ne.
  - by rewrite lookup_insert_eq.
  - by rewrite lookup_insert_ne.
Qed.

Lemma index_inj w s s' i :
  window_ok w -> ident_index w !! s = Some i -> ident_index w !! s' = Some i -> s = s'.
Proof.
  intros OK H H'. apply (wo_index _ OK) in H as [_ H]. apply (wo_index _ OK) in H' as [_ H']. congruence.
Qed.

Section Named.
Context (w w' : Window) (identity : string) (i : Z) (m : gmap Z Z).
Hypothesis I : interns w identity w' i.
Hypothesis M : map_Forall (fun j _ => interned w j) m.

Lemma fresh_lookup : ident_index w !! identity = None -> lookup0 m i = 0.
Proof using I M.
  intros H. unfold lookup0. destruct (m !! i) eqn:E; [|done]. apply M in E.
  exfalso. by apply (in_fresh _ _ _ _ I H i E).
Qed.

Lemma of_identity_intern s : of_identity w' m s = of_identity w m s.
Proof using I M.
  unfold of_identity. destruct (decide (s = identity)) as [->|Hne].
  - rewrite (in_index _ _ _ _ I). destruct (ident_index w !! identity) as [j|] eqn:E.
    + apply (in_same _ _ _ _ I) in E. rewrite (in_index _ _ _ _ I) in E. by injection E as ->.
    + by apply fresh_lookup.
  - by rewrite (in_other _ _ _ _ I).
Qed.

Lemma of_identity_at : lookup0 m i = of_identity w m identity.
Proof using I M. rewrite <- of_identity_intern. unfold of_identity. by rewrite (in_index _ _ _ _ I). Qed.

Lemma of_identity_put v s :
  of_identity w' (put m i v) s = if decide (s = identity) then v else of_identity w m s.
Proof using I M.
  rewrite <- of_identity_intern. unfold of_identity. destruct (decide (s = identity)) as [->|Hne].
  - rewrite (in_index _ _ _ _ I), lookup0_put. by rewrite decide_True.
  - destruct (ident_index w' !! s) as [j|] eqn:E; [|done]. rewrite lookup0_put.
    rewrite decide_False; [done|]. intros <-. apply Hne.
    by eapply index_inj; [apply I | | apply (in_index _ _ _ _ I)].
Qed.
End Named.

Lemma balance_interned w (m : gmap Z Z) : map_Forall (balance_ok w) m -> map_Forall (fun j _ => interned w j) m.
Proof. intros H. eapply map_Forall_impl; [exact H|]. by intros j s [? _]. Qed.

(** ** One movement of money

    What an operation did to the balances: [dc] and [dd] are the new carry and debt of
    [identity]; nothing else moved. *)
Record moved (w : Window) (identity : string) (c d : Z) (w' : Window) : Prop := {
  mv_ok : window_ok w';
  mv_carry : forall s, carry_of w' s = if decide (s = identity) then c else carry_of w s;
  mv_debt : forall s, debt_of w' s = if decide (s = identity) then d else debt_of w s;
  mv_total_carry : msum (carry w') = msum (carry w) - carry_of w identity + c;
  mv_total_debt : msum (debt w') = msum (debt w) - debt_of w identity + d;
  mv_holds : holds w' = holds w;
  mv_owed : rebate_owed w' = rebate_owed w;
  mv_rows : credits w' = credits w /\ totals w' = totals w /\ total_work w' = total_work w;
  mv_same : forall s j, ident_index w !! s = Some j -> ident_index w' !! s = Some j;
  mv_len : length (idents w') = length (idents w) \/
    (length (idents w') = S (length (idents w)) /\ ident_index w !! identity = None /\
     is_Some (ident_index w' !! identity))
}.

Lemma carry_of_range w s : window_ok w -> in_range u64_max (carry_of w s).
Proof.
  intros OK. unfold carry_of, of_identity. destruct (ident_index w !! s); [|unfold in_range; lia].
  by apply carry_range.
Qed.
Lemma debt_of_range w s : window_ok w -> in_range u64_max (debt_of w s).
Proof.
  intros OK. unfold debt_of, of_identity. destruct (ident_index w !! s); [|unfold in_range; lia].
  by apply debt_range.
Qed.

Lemma if_same_name {w : Window} (f : Window -> string -> Z) s identity :
  f w s = (if decide (s = identity) then f w identity else f w s).
Proof. by destruct (decide (s = identity)) as [->|]. Qed.

Lemma moved_refl w identity :
  window_ok w -> moved w identity (carry_of w identity) (debt_of w identity) w.
Proof.
  intros OK. constructor; try done; try lia; intros s; apply if_same_name.
Qed.

Lemma add_signed_range x d : in_range u64_max x -> in_range u64_max (add_signed x d).
Proof. intros H. unfold add_signed. destr_if; bools; sat_lia. Qed.

(** Setting the carry, or the debt, of an interned identity. *)
Lemma put_carry_moved w identity w' i v :
  interns w identity w' i -> window_ok w -> in_range u64_max v ->
  moved w identity v (debt_of w identity) (with_carry w' (put (carry w') i v)).
Proof.
  intros I OK Hv. pose proof (in_frame _ _ _ _ I) as (l & mm & Hf).
  assert (Hc : carry w' = carry w) by by rewrite Hf.
  assert (Hd : debt w' = debt w) by by rewrite Hf.
  pose proof (balance_interned _ _ (wo_carry _ OK)) as Mc.
  pose proof (balance_interned _ _ (wo_debt _ OK)) as Md.
  constructor.
  - apply with_carry_ok; [apply I|]. apply map_Forall_put; [apply (in_ok _ _ _ _ I)|].
    intros ?. split; [apply I | unfold in_range in Hv; lia].
  - intros s. rewrite Hc. apply (of_identity_put w w' identity i (carry w) I Mc).
  - intros s. rewrite <- if_same_name. change (of_identity w' (debt w') s = debt_of w s).
    rewrite Hd. apply (of_identity_intern w w' identity i (debt w) I Md).
  - cbn. rewrite msum_put, Hc, (of_identity_at w w' identity i (carry w) I Mc). done.
  - cbn. rewrite Hd. lia.
  - by rewrite Hf.
  - by rewrite Hf.
  - by rewrite Hf.
  - apply I.
  - pose proof (in_index _ _ _ _ I). destruct (in_len _ _ _ _ I) as [?|[? ?]]; [by left | right; eauto].
Qed.

Lemma put_debt_moved w identity w' i v :
  interns w identity w' i -> window_ok w -> in_range u64_max v ->
  moved w identity (carry_of w identity) v (with_debt w' (put (debt w') i v)).
Proof.
  intros I OK Hv. pose proof (in_frame _ _ _ _ I) as (l & mm & Hf).
  assert (Hc : carry w' = carry w) by by rewrite Hf.
  assert (Hd : debt w' = debt w) by by rewrite Hf.
  pose proof (balance_interned _ _ (wo_carry _ OK)) as Mc.
  pose proof (balance_interned _ _ (wo_debt _ OK)) as Md.
  constructor.
  - apply with_debt_ok; [apply I|]. apply map_Forall_put; [apply (in_ok _ _ _ _ I)|].
    intros ?. split; [apply I | unfold in_range in Hv; lia].
  - intros s. rewrite <- if_same_name. change (of_identity w' (carry w') s = carry_of w s).
    rewrite Hc. apply (of_identity_intern w w' identity i (carry w) I Mc).
  - intros s. rewrite Hd. apply (of_identity_put w w' identity i (debt w) I Md).
  - cbn. rewrite Hc. lia.
  - cbn. rewrite msum_put, Hd, (of_identity_at w w' identity i (debt w) I Md). done.
  - by rewrite Hf.
  - by rewrite Hf.
  - by rewrite Hf.
  - apply I.
  - pose proof (in_index _ _ _ _ I). destruct (in_len _ _ _ _ I) as [?|[? ?]]; [by left | right; eauto].
Qed.

Lemma moved_trans w identity c d w1 c' d' w2 :
  moved w identity c d w1 -> moved w1 identity c' d' w2 -> moved w identity c' d' w2.
Proof.
  intros [_ C1 D1 TC1 TD1 H1 O1 (R1 & R1' & R1'') S1 L1] [OK C2 D2 TC2 TD2 H2 O2 (R2 & R2' & R2'') S2 L2].
  pose proof (C1 identity) as Ec. pose proof (D1 identity) as Ed. rewrite decide_True in Ec, Ed by done.
  constructor; try congruence; try lia.
  - intros s. rewrite C2, C1. by destruct (decide _).
  - intros s. rewrite D2, D1. by destruct (decide _).
  - split; [|split]; congruence.
  - eauto.
  - destruct L1 as [L1|(L1 & N1 & j & I1)], L2 as [L2|(L2 & N2 & I2)].
    + left. congruence.
    + right. split; [congruence|]. split; [|done].
      destruct (ident_index w !! identity) as [j|] eqn:E; [|done]. apply S1 in E. congruence.
    + right. split; [congruence|]. eauto.
    + congruence.
Qed.

Lemma moved_spare n w identity c d w' : moved w identity c d w' -> spare (S n) w -> spare n w'.
Proof. intros M H. unfold spare in *. destruct (mv_len _ _ _ _ _ M) as [->|(-> & _)]; lia. Qed.

Lemma moved_spare_known n w identity c d w' :
  moved w identity c d w' -> is_Some (ident_index w !! identity) -> spare n w -> spare n w'.
Proof.
  intros M [j Hj] H. unfold spare in *. destruct (mv_len _ _ _ _ _ M) as [->|(_ & E & _)]; [lia | congruence].
Qed.

(** An identity with a balance is in the table already. *)
Lemma named_known w m identity : of_identity w m identity <> 0 -> is_Some (ident_index w !! identity).
Proof. unfold of_identity. by destruct (ident_index w !! identity). Qed.

Lemma interns_known w identity i :
  window_ok w -> ident_index w !! identity = Some i -> interns w identity w i.
Proof.
  intros OK H. constructor; try done.
  - by eapply index_interned.
  - exists (idents w), (ident_index w). by rewrite with_idents_id.
  - congruence.
  - by left.
Qed.

(** [intern] wherever there is room, or the identity is already known. *)
Definition can_intern (w : Window) (identity : string) : Prop :=
  spare 1 w \/ is_Some (ident_index w !! identity).

Lemma intern_known_ok w identity :
  window_ok w -> can_intern w identity ->
  interns w identity (intern w identity).1 (intern w identity).2.
Proof.
  intros OK [H|[i H]]; [apply intern_ok; [done | by apply (spare_room 0)]|].
  unfold intern. rewrite H. by apply interns_known.
Qed.

Lemma moved_can_intern w identity c d w' :
  moved w identity c d w' -> can_intern w identity -> can_intern w' identity.
Proof.
  intros M [H|[j H]].
  - destruct (mv_len _ _ _ _ _ M) as [E|(E & _ & I)]; [left | by right].
    unfold spare in *. by rewrite E.
  - right. exists j. by apply (mv_same _ _ _ _ _ M).
Qed.

(** * The operations *)

Lemma adjust_carry_moved w identity delta :
  window_ok w -> can_intern w identity ->
  (adjust_carry w identity delta).2 = add_signed (carry_of w identity) delta /\
  moved w identity (add_signed (carry_of w identity) delta) (debt_of w identity)
    (adjust_carry w identity delta).1.
Proof.
  intros OK R. pose proof (intern_known_ok w identity OK R) as I. unfold adjust_carry.
  destruct (intern w identity) as [w' i]; cbn [fst snd] in *.
  pose proof (in_frame _ _ _ _ I) as (l & mm & Hf).
  assert (Hc : lookup0 (carry w') i = carry_of w identity).
  { replace (carry w') with (carry w) by by rewrite Hf.
    apply (of_identity_at w w' identity i (carry w) I), (balance_interned w), OK. }
  rewrite Hc. split; [done|]. apply put_carry_moved; [done | done |].
  by apply add_signed_range, carry_of_range.
Qed.

Lemma set_carry_moved w identity sats :
  window_ok w -> can_intern w identity -> in_range u64_max sats ->
  moved w identity sats (debt_of w identity) (set_carry w identity sats).
Proof.
  intros OK R Hs. pose proof (intern_known_ok w identity OK R) as I. unfold set_carry.
  destruct (intern w identity) as [w' i]; cbn [fst snd] in *. by apply put_carry_moved.
Qed.

Lemma accrue_debt_moved w identity sats :
  window_ok w -> can_intern w identity -> 0 <= sats ->
  moved w identity (carry_of w identity) (sat_add u64_max (debt_of w identity) sats)
    (accrue_debt w identity sats).
Proof.
  intros OK R Hs. pose proof (debt_of_range w identity OK) as Hd. unfold in_range in Hd.
  unfold accrue_debt. destr_if; bools.
  { subst sats. replace (sat_add u64_max (debt_of w identity) 0) with (debt_of w identity) by sat_lia.
    by apply moved_refl. }
  pose proof (intern_known_ok w identity OK R) as I.
  destruct (intern w identity) as [w' i]; cbn [fst snd] in *.
  pose proof (in_frame _ _ _ _ I) as (l & mm & Hf).
  assert (Hc : lookup0 (debt w') i = debt_of w identity).
  { replace (debt w') with (debt w) by by rewrite Hf.
    apply (of_identity_at w w' identity i (debt w) I), (balance_interned w), OK. }
  rewrite Hc, insert_as_put by sat_lia. apply put_debt_moved; [done | done | sat_lia].
Qed.

Lemma reduce_debt_moved w identity sats :
  window_ok w -> 0 <= sats ->
  (reduce_debt w identity sats).2 = Z.min (debt_of w identity) sats /\
  moved w identity (carry_of w identity) (debt_of w identity - Z.min (debt_of w identity) sats)
    (reduce_debt w identity sats).1.
Proof.
  intros OK Hs. pose proof (debt_of_range w identity OK) as Hr. unfold in_range in Hr.
  unfold reduce_debt. destruct (ident_index w !! identity) as [i|] eqn:E; cbn [fst snd].
  - assert (Hd : lookup0 (debt w) i = debt_of w identity)
      by (unfold debt_of, of_identity; by rewrite E).
    rewrite Hd. split; [done|].
    apply (put_debt_moved w identity w i); [by apply interns_known | done | unfold in_range; lia].
  - assert (Hd : debt_of w identity = 0) by (unfold debt_of, of_identity; by rewrite E).
    rewrite Hd in *. split; [lia|]. replace (0 - Z.min 0 sats) with (debt_of w identity) by lia.
    by apply moved_refl.
Qed.

(** Back on the books: the debt first, the rest as carry. *)
Definition after_restore (c d sats : Z) : Z := sat_add u64_max c (sats - Z.min d sats).

Lemma restore_carry_moved w identity sats :
  window_ok w -> can_intern w identity -> 0 <= sats <= i64_max ->
  (restore_carry w identity sats).2
    = after_restore (carry_of w identity) (debt_of w identity) sats /\
  moved w identity (after_restore (carry_of w identity) (debt_of w identity) sats)
    (debt_of w identity - Z.min (debt_of w identity) sats) (restore_carry w identity sats).1.
Proof.
  intros OK R Hs. pose proof (debt_of_range w identity OK) as Hd. unfold in_range in Hd.
  pose proof (carry_of_range w identity OK) as Hcr. unfold in_range in Hcr.
  destruct (reduce_debt_moved w identity sats OK) as [E M]; [lia|]. unfold restore_carry.
  destruct (reduce_debt w identity sats) as [w1 taken]; cbn [fst snd] in *. subst taken.
  pose proof (mv_carry _ _ _ _ _ M identity) as Ec. rewrite decide_True in Ec by done.
  pose proof (mv_debt _ _ _ _ _ M identity) as Ed. rewrite decide_True in Ed by done.
  unfold after_restore. destr_if; bools.
  - cbn [fst snd]. rewrite Hif, Ec.
    replace (sat_add u64_max (carry_of w identity) 0) with (carry_of w identity) by sat_lia.
    split; [done|]. exact M.
  - destruct (adjust_carry_moved w1 identity (clamp_i64 (sats - Z.min (debt_of w identity) sats))) as [E2 M2];
      [apply M | by eapply moved_can_intern |].
    assert (Hn : add_signed (carry_of w1 identity) (clamp_i64 (sats - Z.min (debt_of w identity) sats))
      = sat_add u64_max (carry_of w identity) (sats - Z.min (debt_of w identity) sats)).
    { rewrite Ec. unfold clamp_i64, add_signed. rewrite Z.min_l by lia. destr_if; bools; [lia | done]. }
    rewrite Hn in E2, M2. rewrite Ed in M2. split; [done|]. by eapply moved_trans.
Qed.

Lemma restore_debt_moved w identity sats :
  window_ok w -> can_intern w identity -> 0 <= sats <= i64_max ->
  moved w identity (carry_of w identity - Z.min (carry_of w identity) sats)
    (sat_add u64_max (debt_of w identity) (sats - Z.min (carry_of w identity) sats))
    (restore_debt w identity sats).
Proof.
  intros OK R Hs. pose proof (debt_of_range w identity OK) as Hd. unfold in_range in Hd.
  pose proof (carry_of_range w identity OK) as Hcr. unfold in_range in Hcr.
  unfold restore_debt. destr_if; bools.
  { subst sats. replace (carry_of w identity - Z.min (carry_of w identity) 0) with (carry_of w identity) by lia.
    replace (sat_add u64_max _ _) with (debt_of w identity) by sat_lia. by apply moved_refl. }
  destr_if; bools.
  - set (take := Z.min (carry_of w identity) sats) in *.
    destruct (adjust_carry_moved w identity (- clamp_i64 take) OK R) as [_ M].
    assert (Hn : add_signed (carry_of w identity) (- clamp_i64 take) = carry_of w identity - take).
    { unfold clamp_i64, add_signed. rewrite Z.min_l by lia. destr_if; bools; [sat_lia | lia]. }
    rewrite Hn in M. set (w1 := (adjust_carry w identity (- clamp_i64 take)).1) in *.
    pose proof (accrue_debt_moved w1 identity (sats - take)) as M2.
    pose proof (mv_carry _ _ _ _ _ M identity) as Ec. rewrite decide_True in Ec by done.
    pose proof (mv_debt _ _ _ _ _ M identity) as Ed. rewrite decide_True in Ed by done.
    rewrite Ec, Ed in M2. eapply moved_trans; [exact M|]. apply M2; [apply M | | lia].
    by eapply moved_can_intern.
  - replace (Z.min (carry_of w identity) sats) with 0 by lia. rewrite !Z.sub_0_r.
    apply accrue_debt_moved; [done | done | lia].
Qed.

Lemma forgive_debt_moved w identity sats :
  window_ok w -> can_intern w identity -> 0 <= sats <= i64_max ->
  moved w identity (after_restore (carry_of w identity) (debt_of w identity) sats)
    (debt_of w identity - Z.min (debt_of w identity) sats) (forgive_debt w identity sats).
Proof.
  intros OK R Hs. destruct (restore_carry_moved w identity sats OK R Hs) as [_ M].
  pose proof (debt_of_range w identity OK) as Hd. unfold in_range in Hd.
  replace (forgive_debt w identity sats) with (restore_carry w identity sats).1; [exact M|].
  destruct (reduce_debt_moved w identity sats OK) as [E _]; [lia|].
  unfold forgive_debt, restore_carry.
  destruct (reduce_debt w identity sats) as [w1 taken]; cbn [snd] in E. subst taken.
  destruct (sats - Z.min (debt_of w identity) sats =? 0) eqn:E1;
    destruct (0 <? sats - Z.min (debt_of w identity) sats) eqn:E2; bools; try lia; done.
Qed.

(** * Holds *)

(** One identity's money in a list of entries, in a hold, in all holds. *)
Definition entries_of (identity : string) (es : list (string * Z)) : Z :=
  zsum (map snd (filter (fun e => e.1 = identity) es)).
Definition hold_of (identity : string) (h : Hold) : Z := entries_of identity (entries h).
Definition held_of (w : Window) (identity : string) : Z := fsum (hold_of identity) (holds w).
(** Everything in a hold, and in all of them. *)
Definition hold_total (h : Hold) : Z := zsum (map snd (entries h)).

Lemma entries_of_cons s e es :
  entries_of s (e :: es) = (if decide (e.1 = s) then e.2 else 0) + entries_of s es.
Proof. unfold entries_of. rewrite filter_cons. destruct (decide (e.1 = s)); simpl; lia. Qed.

Lemma entries_of_nonneg s es : Forall (fun e => 0 <= e.2) es -> 0 <= entries_of s es.
Proof.
  induction 1 as [|e es He _ IH]; [done|]. rewrite entries_of_cons. destruct (decide _); lia.
Qed.

Lemma draw_entries_ok identity es : forall wanted,
  0 <= wanted -> Forall (fun e => 0 <= e.2) es ->
  let '(es', left_) := draw_entries identity wanted es in
  left_ = Z.max 0 (wanted - entries_of identity es) /\
  Forall (fun e => 0 <= e.2) es' /\
  zsum (map snd es') = zsum (map snd es) - (wanted - left_) /\
  forall s, entries_of s es' = entries_of s es - (if decide (s = identity) then wanted - left_ else 0).
Proof.
  induction es as [|e es IH]; intros wanted Hw HF; cbn [draw_entries].
  { unfold entries_of. cbn. split; [lia|]. split; [done|]. split; [lia|]. intros s. destruct (decide _); lia. }
  apply Forall_cons in HF as [He HF]. pose proof (entries_of_nonneg identity es HF).
  destruct (bool_decide (e.1 = identity)) eqn:E; bools.
  - specialize (IH (wanted - Z.min e.2 wanted) ltac:(lia) HF).
    destruct (draw_entries identity (wanted - Z.min e.2 wanted) es) as [es' left_].
    destruct IH as (-> & HF' & Hz & Hs). rewrite entries_of_cons, decide_True by done.
    split; [lia|]. split; [constructor; [cbn; lia | done]|].
    split; [cbn [map snd]; rewrite !zsum_cons; lia|].
    intros s. rewrite !entries_of_cons, Hs. cbn [fst snd].
    destruct (decide (e.1 = s)), (decide (s = identity)); try congruence; lia.
  - specialize (IH wanted Hw HF). destruct (draw_entries identity wanted es) as [es' left_].
    destruct IH as (-> & HF' & Hz & Hs). rewrite entries_of_cons, decide_False by done.
    split; [lia|]. split; [by constructor|].
    split; [cbn [map snd]; rewrite !zsum_cons; lia|].
    intros s. rewrite !entries_of_cons, Hs.
    destruct (decide (e.1 = s)), (decide (s = identity)); try congruence; lia.
Qed.

Lemma entries_of_filter s es :
  Forall (fun e => 0 <= e.2) es -> entries_of s (filter (fun e => 0 < e.2) es) = entries_of s es.
Proof.
  induction 1 as [|e es He _ IH]; [done|]. rewrite filter_cons, entries_of_cons.
  destruct (decide (0 < e.2)); [by rewrite entries_of_cons, IH|]. rewrite IH. destruct (decide _); lia.
Qed.

Lemma total_filter es :
  Forall (fun e : string * Z => 0 <= e.2) es ->
  zsum (map snd (filter (fun e => 0 < e.2) es)) = zsum (map snd es).
Proof.
  induction 1 as [|e es He _ IH]; [done|]. rewrite filter_cons. cbn [map]. rewrite zsum_cons.
  destruct (decide (0 < e.2)); cbn [map]; [rewrite zsum_cons|]; lia.
Qed.

(** What drawing from some batches leaves. *)
Record drawn (identity : string) (hs : gmap string Hold) (wanted : Z) (bs : list string)
    (hs' : gmap string Hold) (left_ : Z) : Prop := {
  dr_left : 0 <= left_ <= wanted;
  dr_ok : map_Forall hold_ok hs';
  dr_held : forall s, fsum (hold_of s) hs'
    = fsum (hold_of s) hs - (if decide (s = identity) then wanted - left_ else 0);
  dr_total : fsum hold_total hs' = fsum hold_total hs - (wanted - left_);
  dr_within : forall b h', hs' !! b = Some h' ->
    exists h, hs !! b = Some h /\ 0 <= hold_of identity h' <= hold_of identity h /\
      created_ts h' = created_ts h /\ ready_height h' = ready_height h;
  dr_done : left_ = 0 \/ forall b h', b ∈ bs -> hs' !! b = Some h' -> hold_of identity h' = 0
}.

Lemma hold_ok_nonneg b h : hold_ok b h -> Forall (fun e => 0 <= e.2) (entries h).
Proof. intros [_ H]. eapply Forall_impl; [exact H|]. cbn. intros. lia. Qed.

Lemma hold_of_nonneg b h s : hold_ok b h -> 0 <= hold_of s h.
Proof. intros H. eapply entries_of_nonneg, hold_ok_nonneg, H. Qed.

Lemma draw_none identity hs wanted bs :
  map_Forall hold_ok hs -> 0 <= wanted ->
  wanted = 0 \/ (forall b h, b ∈ bs -> hs !! b = Some h -> hold_of identity h = 0) ->
  drawn identity hs wanted bs hs wanted.
Proof.
  intros OK Hw Hz. constructor; try done; try lia.
  - intros s. destruct (decide _); lia.
  - intros b h Hb. exists h. repeat split; try done; try lia. eapply hold_of_nonneg. by apply OK.
Qed.

Lemma draw_one_ok identity hs wanted b :
  map_Forall hold_ok hs -> 0 <= wanted ->
  drawn identity hs wanted [b] (draw_one identity (hs, wanted) b).1 (draw_one identity (hs, wanted) b).2.
Proof.
  intros OK Hw. unfold draw_one. destr_if; bools; [subst; apply draw_none; auto|].
  destruct (hs !! b) as [h|] eqn:Eb.
  2:{ cbn [fst snd]. apply draw_none; [done | done |]. right. intros b' h Hb Hl. apply list_elem_of_singleton in Hb. congruence. }
  pose proof (OK _ _ Eb) as Hok. pose proof (hold_ok_nonneg _ _ Hok) as Hnn.
  pose proof (draw_entries_ok identity (entries h) wanted Hw Hnn) as H.
  destruct (draw_entries identity wanted (entries h)) as [es left_].
  destruct H as (Hleft & HF & Hz & Hs).
  pose proof (entries_of_nonneg identity _ Hnn) as Hn0.
  set (es' := filter (fun e => 0 < e.2) es) in *.
  assert (Hs' : forall s, entries_of s es'
     = hold_of s h - (if decide (s = identity) then wanted - left_ else 0)).
  { intros s. unfold es'. rewrite entries_of_filter by done. apply Hs. }
  assert (Hz' : zsum (map snd es') = hold_total h - (wanted - left_)).
  { unfold es'. by rewrite total_filter. }
  assert (Hid : entries_of identity es' = hold_of identity h - (wanted - left_)).
  { rewrite Hs', decide_True; [lia | done]. }
  change (entries_of identity (entries h)) with (hold_of identity h) in *.
  assert (Hpos : Forall (fun e => 0 < e.2) es').
  { apply Forall_forall. intros e He. by apply list_elem_of_filter in He as [? _]. }
  destruct es' as [|e0 es0] eqn:Ees; cbn [fst snd].
  - constructor.
    + lia.
    + by apply map_Forall_delete.
    + intros s. rewrite (fsum_delete _ _ _ _ Eb). specialize (Hs' s). cbn in Hs'. lia.
    + rewrite (fsum_delete _ _ _ _ Eb). cbn in Hz'. lia.
    + intros b' h' Hb'. apply lookup_delete_Some in Hb' as [_ Hb']. exists h'.
      split; [done|]. split; [|done]. split; [|lia]. eapply hold_of_nonneg. by apply OK.
    + right. intros b' h' Hb' Hl. apply list_elem_of_singleton in Hb' as ->.
      by rewrite lookup_delete_eq in Hl.
  - constructor.
    + lia.
    + apply map_Forall_insert_2; [|done]. split; [by cbn | done].
    + intros s. rewrite (fsum_replace _ _ _ _ _ Eb).
      change (hold_of s (with_entries h (e0 :: es0))) with (entries_of s (e0 :: es0)).
      rewrite Hs'. lia.
    + rewrite (fsum_replace _ _ _ _ _ Eb).
      change (hold_total (with_entries h (e0 :: es0))) with (zsum (map snd (e0 :: es0))). lia.
    + intros b' h' Hb'. apply lookup_insert_Some in Hb' as [[<- <-]|[Hne Hb']].
      * exists h. split; [done|]. split; [|done].
        change (hold_of identity (with_entries h (e0 :: es0))) with (entries_of identity (e0 :: es0)). lia.
      * exists h'. split; [done|]. split; [|done]. split; [|lia]. eapply hold_of_nonneg. by apply OK.
    + destruct (decide (left_ = 0)) as [|Hl]; [by left | right].
      intros b' h' Hb' Hl'. apply list_elem_of_singleton in Hb' as ->.
      rewrite lookup_insert_eq in Hl'. injection Hl' as <-.
      change (hold_of identity (with_entries h (e0 :: es0))) with (entries_of identity (e0 :: es0)). lia.
Qed.

Lemma drawn_trans identity hs wanted b bs hs1 l1 hs2 l2 :
  drawn identity hs wanted [b] hs1 l1 -> drawn identity hs1 l1 bs hs2 l2 ->
  drawn identity hs wanted (b :: bs) hs2 l2.
Proof.
  intros [L1 O1 H1 T1 W1 D1] [L2 O2 H2 T2 W2 D2]. constructor; [lia | done | | lia | |].
  - intros s. rewrite H2, H1. destruct (decide _); lia.
  - intros b' h' Hb'. destruct (W2 _ _ Hb') as (h1 & Hh1 & ? & ? & ?).
    destruct (W1 _ _ Hh1) as (h & ? & ? & ? & ?). exists h. repeat split; try done; try lia; congruence.
  - destruct D2 as [|D2]; [by left|]. destruct D1 as [->|D1]; [left; lia|]. right.
    intros b' h' Hb' Hl. apply elem_of_cons in Hb' as [->|Hb']; [|by eapply D2].
    destruct (W2 _ _ Hl) as (h1 & Hh1 & ? & _). specialize (D1 b h1 ltac:(by left) Hh1). lia.
Qed.

Lemma draw_all_ok identity bs : forall hs wanted,
  map_Forall hold_ok hs -> 0 <= wanted ->
  drawn identity hs wanted bs (foldl (draw_one identity) (hs, wanted) bs).1
    (foldl (draw_one identity) (hs, wanted) bs).2.
Proof.
  induction bs as [|b bs IH]; intros hs wanted OK Hw.
  - apply draw_none; [done | done |]. right. intros b h Hb. by apply elem_of_nil in Hb.
  - cbn [foldl]. pose proof (draw_one_ok identity hs wanted b OK Hw) as D1.
    destruct (draw_one identity (hs, wanted) b) as [hs1 l1]; cbn [fst snd] in D1.
    eapply drawn_trans; [exact D1|]. apply IH; apply D1.
Qed.

Lemma hold_order_covers hs b h : hs !! b = Some h -> b ∈ map snd (hold_order hs).
Proof.
  intros Hb. apply list_elem_of_fmap. exists (created_ts h, b). split; [done|].
  unfold hold_order. rewrite sort_by_perm. apply list_elem_of_fmap. exists (b, h). split; [done|].
  by apply elem_of_map_to_list.
Qed.

(** Drawing takes what is wanted or all there is, from that identity only. *)
Lemma draw_from_holds_ok w identity sats :
  window_ok w -> 0 <= sats ->
  let '(w', taken) := draw_from_holds w identity sats in
  taken = Z.min sats (held_of w identity) /\ window_ok w' /\
  (exists hs, w' = with_holds w hs) /\
  (forall s, held_of w' s = held_of w s - (if decide (s = identity) then taken else 0)) /\
  fsum hold_total (holds w') = fsum hold_total (holds w) - taken.
Proof.
  intros OK Hs. unfold draw_from_holds.
  pose proof (draw_all_ok identity (map snd (hold_order (holds w))) (holds w) sats (wo_holds _ OK) Hs) as D.
  destruct (foldl _ _ _) as [hs left_]; cbn [fst snd] in D.
  assert (Hnn : 0 <= fsum (hold_of identity) hs).
  { apply fsum_nonneg. eapply map_Forall_impl; [apply D|]. cbn. intros b h Hh. by eapply hold_of_nonneg. }
  destruct D as [L O H T W D]. pose proof (H identity) as Hid. rewrite decide_True in Hid by done.
  split.
  { destruct D as [->|D]; [unfold held_of; lia|].
    assert (Hz : fsum (hold_of identity) hs = 0); [|unfold held_of; lia].
    apply fsum_zero. intros b h' Hb. destruct (W _ _ Hb) as (h & Hh & _).
    eapply D; [by eapply hold_order_covers | exact Hb]. }
  split; [by apply with_holds_ok|]. split; [by eexists|]. split; [exact H | exact T].
Qed.
