(* ===== verification/MinersFacts.v ===== *)
(** The listing of a window: [Window::miners] does not depend on the order the hash maps are
    iterated in, lists everybody the window or the books owe, and is what a split accepts. *)

From S2P Require Import Prelude Tides Split SplitFacts Window WindowFacts BalanceFacts.
Open Scope Z_scope.

Lemma mapM_Ret {A B} (f : A -> panics B) (g : A -> B) l :
  Forall (fun x => f x = Ret (g x)) l -> mapM f l = Ret (map g l).
Proof.
  induction 1 as [|x l Hx _ IH]; [done|]. cbn [mapM map]. rewrite Hx. mstep. rewrite IH. done.
Qed.

(** * Orders *)

Lemma string_leb_trans a b c : String.leb a b = true -> String.leb b c = true -> String.leb a c = true.
Proof.
  intros H1%Is_true_true H2%Is_true_true. apply Is_true_true.
  change (String.le a c). by transitivity b.
Qed.

Lemma string_leb_flip a b : String.leb a b = false -> String.leb b a = true.
Proof. intros H. destruct (String.leb_total a b) as [H'|H']; [congruence | done]. Qed.

(** Comparing on two integers, larger first, then on a name. *)
Definition name_cmp (k1 k2 : Z) (a : string) (k1' k2' : Z) (b : string) : bool :=
  (k1' <? k1) || ((k1 =? k1') && ((k2' <? k2) || ((k2 =? k2') && String.leb a b))).

Lemma name_cmp_spec k1 k2 a k1' k2' b :
  name_cmp k1 k2 a k1' k2' b = true <->
  k1' < k1 \/ (k1 = k1' /\ (k2' < k2 \/ (k2 = k2' /\ String.leb a b = true))).
Proof.
  unfold name_cmp. rewrite !orb_true_iff, !andb_true_iff, !orb_true_iff, !andb_true_iff.
  rewrite !Z.ltb_lt, !Z.eqb_eq. done.
Qed.

Lemma name_cmp_flip k1 k2 a k1' k2' b :
  name_cmp k1 k2 a k1' k2' b = false -> name_cmp k1' k2' b k1 k2 a = true.
Proof.
  intros H. apply name_cmp_spec.
  destruct (decide (k1 < k1')); [by left|]. destruct (decide (k1' < k1)).
  { exfalso. assert (name_cmp k1 k2 a k1' k2' b = true); [apply name_cmp_spec; by left | congruence]. }
  right. split; [lia|]. destruct (decide (k2 < k2')); [by left|]. destruct (decide (k2' < k2)).
  { exfalso. assert (name_cmp k1 k2 a k1' k2' b = true); [|congruence].
    apply name_cmp_spec. right. split; [lia | by left]. }
  right. split; [lia|]. apply string_leb_flip. destruct (String.leb a b) eqn:E; [|done].
  exfalso. assert (name_cmp k1 k2 a k1' k2' b = true); [|congruence].
  apply name_cmp_spec. right. split; [lia|]. right. split; [lia | done].
Qed.

Lemma name_cmp_trans k1 k2 a k1' k2' b k1'' k2'' c :
  name_cmp k1 k2 a k1' k2' b = true -> name_cmp k1' k2' b k1'' k2'' c = true ->
  name_cmp k1 k2 a k1'' k2'' c = true.
Proof.
  intros H1%name_cmp_spec H2%name_cmp_spec. apply name_cmp_spec.
  destruct H1 as [|[-> [|[-> H1]]]], H2 as [|[-> [|[-> H2]]]]; try (left; lia); try (right; split; [done | left; lia]).
  right. split; [done|]. right. split; [done|]. by eapply string_leb_trans.
Qed.

Lemma name_cmp_antisym k1 k2 a k1' k2' b :
  name_cmp k1 k2 a k1' k2' b = true -> name_cmp k1' k2' b k1 k2 a = true -> a = b.
Proof.
  intros H1%name_cmp_spec H2%name_cmp_spec. apply String.leb_antisym; intuition lia.
Qed.

Lemma miner_before_cmp a b :
  miner_before a b = name_cmp (m_work a) (m_carry a) (m_identity a) (m_work b) (m_carry b) (m_identity b).
Proof. done. Qed.

(** * The rows by source *)

Definition stratum_rows (i : Z) (rows : list Credit) : Z :=
  zsum (map work (filter (fun c => is_stratum c = true) (rows_of i rows))).
Definition grace_rows (i : Z) (rows : list Credit) : Z :=
  zsum (map work (filter (fun c => source c = SOURCE_STRATUM_GRACE) (rows_of i rows))).

Lemma stratum_rows_cons i c rows :
  stratum_rows i (c :: rows)
  = (if decide (ident c = i) then if is_stratum c then work c else 0 else 0) + stratum_rows i rows.
Proof.
  unfold stratum_rows, rows_of. rewrite filter_cons. destruct (decide (ident c = i)); [|done].
  rewrite filter_cons. destruct (is_stratum c); [by rewrite decide_True|]. by rewrite decide_False.
Qed.

Lemma grace_rows_cons i c rows :
  grace_rows i (c :: rows)
  = (if decide (ident c = i) then if source c =? SOURCE_STRATUM_GRACE then work c else 0 else 0)
    + grace_rows i rows.
Proof.
  unfold grace_rows, rows_of. rewrite filter_cons. destruct (decide (ident c = i)); [|done].
  rewrite filter_cons. destruct (source c =? SOURCE_STRATUM_GRACE) eqn:E; bools.
  - by rewrite decide_True. - by rewrite decide_False.
Qed.

Lemma source_rows_bounds i rows :
  Forall (fun c => in_range u64_max (work c)) rows ->
  0 <= grace_rows i rows <= stratum_rows i rows /\ stratum_rows i rows <= row_work i rows.
Proof.
  induction 1 as [|c rows Hc _ IH]; [by cbn|].
  rewrite grace_rows_cons, stratum_rows_cons, row_work_cons. unfold in_range in Hc.
  destruct (decide _); [|lia]. unfold is_stratum.
  destruct (source c =? SOURCE_STRATUM_GRACE) eqn:E; rewrite ?orb_true_r, ?orb_false_r; [lia|].
  destruct (source c =? SOURCE_STRATUM); lia.
Qed.

Definition at0 (m : gmap Z (Z * Z)) (i : Z) : Z * Z := default (0, 0) (m !! i).

Lemma stratum_work_ok rows : forall m,
  Forall (fun c => in_range u64_max (work c)) rows ->
  (forall i, 0 <= (at0 m i).2 <= (at0 m i).1 /\ (at0 m i).1 + row_work i rows <= u64_max) ->
  exists sm, stratum_work m rows = Ret sm /\
    forall i, at0 sm i = ((at0 m i).1 + stratum_rows i rows, (at0 m i).2 + grace_rows i rows).
Proof.
  induction rows as [|c rows IH]; intros m HF Hb; cbn [stratum_work].
  - exists m. split; [done|]. intros i. unfold stratum_rows, grace_rows. cbn.
    rewrite !Z.add_0_r. by destruct (at0 m i).
  - apply Forall_cons in HF as [Hc HF]. unfold in_range in Hc.
    pose proof (Hb (ident c)) as Hb0. rewrite row_work_cons, decide_True in Hb0 by done.
    pose proof (row_work_le (ident c) rows HF) as Hr.
    destruct (is_stratum c) eqn:Es.
    + change (default (0, 0) (m !! ident c)) with (at0 m (ident c)).
      destruct (at0 m (ident c)) as [s g] eqn:E0. cbn [fst snd] in Hb0.
      rewrite (chk_add_ok _ s (work c)) by lia. mstep.
      assert (Hg : (if source c =? SOURCE_STRATUM_GRACE then chk_add u64_max g (work c) else Ret g)
        = Ret (g + if source c =? SOURCE_STRATUM_GRACE then work c else 0)).
      { destruct (source c =? SOURCE_STRATUM_GRACE); [by rewrite chk_add_ok by lia | by rewrite Z.add_0_r]. }
      rewrite Hg. mstep.
      set (g' := g + if source c =? SOURCE_STRATUM_GRACE then work c else 0).
      assert (Hat : forall i, at0 (<[ident c := (s + work c, g')]> m) i
        = if decide (ident c = i) then (s + work c, g') else at0 m i).
      { intros i. unfold at0. destruct (decide (ident c = i)) as [<-|];
          [by rewrite lookup_insert_eq | by rewrite lookup_insert_ne]. }
      destruct (IH (<[ident c := (s + work c, g')]> m) HF) as (sm & Hsm & Hi).
      { intros i. rewrite Hat. specialize (Hb i). rewrite row_work_cons in Hb.
        destruct (decide (ident c = i)) as [<-|]; [|lia]. cbn [fst snd]. unfold g'.
        destruct (source c =? SOURCE_STRATUM_GRACE); lia. }
      exists sm. split; [done|]. intros i. rewrite Hi, Hat, stratum_rows_cons, grace_rows_cons, Es.
      destruct (decide (ident c = i)) as [<-|]; [|done]. rewrite E0. cbn [fst snd]. unfold g'.
      f_equal; lia.
    + destruct (IH m HF) as (sm & Hsm & Hi).
      { intros i. specialize (Hb i). rewrite row_work_cons in Hb. destruct (decide _); lia. }
      exists sm. split; [done|]. intros i. rewrite Hi, stratum_rows_cons, grace_rows_cons, Es.
      apply orb_false_iff in Es as [_ Es]. rewrite Es. by destruct (decide _).
Qed.

(** * The listing *)

Definition name_of (w : Window) (i : Z) : string := default EmptyString (identity_at w i).

Definition listed_row (w : Window) (e : Z * Totals) : MinerStat :=
  {| m_identity := name_of w e.1; m_work := e.2.1.1;
     m_stratum_work := stratum_rows e.1 (credits w); m_grace_work := grace_rows e.1 (credits w);
     m_credits := e.2.1.2; m_last_ts := e.2.2; m_carry := lookup0 (carry w) e.1 |}.
Definition listed_carry (w : Window) (e : Z * Z) : MinerStat :=
  {| m_identity := name_of w e.1; m_work := 0; m_stratum_work := 0; m_grace_work := 0; m_credits := 0;
     m_last_ts := lookup0 (last_seen w) e.1; m_carry := e.2 |}.

Section Listing.
Context (w : Window).
Hypothesis OK : window_ok w.

Local Abbreviation unlisted := (fun e : Z * Z => 0 < e.2 /\ totals w !! e.1 = None).

Lemma name_of_interned i : interned w i -> identity_at w i = Some (name_of w i).
Proof. intros [_ [s Hs]]. unfold name_of. by rewrite Hs. Qed.

Lemma name_of_index i : interned w i -> ident_index w !! name_of w i = Some i.
Proof using OK. intros H. apply (wo_index _ OK). split; [apply H | by apply name_of_interned]. Qed.

Lemma totals_row i x : totals w !! i = Some x ->
  x.1.1 = row_work i (credits w) /\ x.1.2 = row_count i (credits w) /\ 0 < x.1.2 /\ interned w i.
Proof using OK.
  intros Hx. pose proof (wo_totals _ OK i) as H. rewrite Hx in H.
  destruct x as [[wk n] t]. destruct H as (-> & -> & Hn). split; [done|]. split; [done|]. split; [done|].
  unfold row_count in Hn. destruct (rows_of i (credits w)) as [|c l] eqn:E; [cbn in Hn; lia|].
  assert (Hc : c ∈ rows_of i (credits w)) by (rewrite E; left).
  apply list_elem_of_filter in Hc as [<- Hc].
  pose proof (wo_rows _ OK) as HF. eapply Forall_forall in HF as [? _]; [|exact Hc]. done.
Qed.

Lemma miners_in_run ts cs :
  ts ≡ₚ map_to_list (totals w) -> cs ≡ₚ map_to_list (carry w) ->
  miners_in w ts cs
  = Ret (sort_by miner_before (map (listed_row w) ts ++ map (listed_carry w) (filter unlisted cs))).
Proof using OK.
  intros Hts Hcs. unfold miners_in.
  destruct (stratum_work_ok (credits w) ∅ (rows_range w OK)) as (sm & Hsm & Hat).
  { intros i. unfold at0. rewrite lookup_empty. cbn.
    pose proof (row_work_le i (credits w) (rows_range w OK)). destruct (wo_total _ OK). lia. }
  rewrite Hsm. mstep.
  rewrite (mapM_Ret _ (listed_row w)).
  2:{ apply Forall_forall. intros [i x] Hin. rewrite Hts in Hin. apply elem_of_map_to_list in Hin.
      destruct (totals_row i x Hin) as (Hwk & _ & _ & Hi).
      destruct x as [[wk n] t]; cbn [fst snd] in *.
      unfold miner_stat, ident_name. rewrite (name_of_interned i Hi). mstep.
      specialize (Hat i). unfold at0 in Hat. rewrite Hat, lookup_empty. cbn [default fst snd].
      pose proof (source_rows_bounds i (credits w) (rows_range w OK)).
      unfold listed_row. cbn [fst snd]. rewrite !Z.add_0_l, !Z.min_l by lia. done. }
  mstep. rewrite (mapM_Ret _ (listed_carry w)); [done|].
  apply Forall_forall. intros [i v] Hin. apply list_elem_of_filter in Hin as [_ Hin].
  rewrite Hcs in Hin. apply elem_of_map_to_list in Hin. apply (wo_carry _ OK) in Hin as [Hi _].
  unfold carry_only, ident_name. cbn [fst snd]. by rewrite (name_of_interned i Hi).
Qed.

Local Abbreviation all := (map (listed_row w) (map_to_list (totals w))
  ++ map (listed_carry w) (filter unlisted (map_to_list (carry w)))).

Lemma all_elem m : m ∈ all ->
  (exists i x, totals w !! i = Some x /\ m = listed_row w (i, x)) \/
  (exists i v, carry w !! i = Some v /\ totals w !! i = None /\ m = listed_carry w (i, v)).
Proof.
  intros [H|H]%elem_of_app; apply list_elem_of_fmap in H as ([i x] & -> & H).
  - left. apply elem_of_map_to_list in H. eauto.
  - right. apply list_elem_of_filter in H as [[_ Hn] H]. apply elem_of_map_to_list in H. eauto.
Qed.

Lemma all_names_distinct : NoDup (map m_identity all).
Proof using OK.
  assert (Heq : map m_identity all = map (name_of w)
    (map fst (map_to_list (totals w)) ++ map fst (filter unlisted (map_to_list (carry w))))).
  { rewrite !map_app, !map_map. done. }
  rewrite Heq. clear Heq.
  apply (NoDup_fmap_2_strong (name_of w)).
  - assert (Hi : forall i, i ∈ map fst (map_to_list (totals w))
        ++ map fst (filter unlisted (map_to_list (carry w))) -> interned w i).
    { intros i [H|H]%elem_of_app; apply list_elem_of_fmap in H as ([j x] & -> & H).
      - apply elem_of_map_to_list in H. by eapply totals_row.
      - apply list_elem_of_filter in H as [_ H]. apply elem_of_map_to_list in H.
        apply (wo_carry _ OK) in H. apply H. }
    intros i j Hin Hjn E. apply Hi in Hin. apply Hi in Hjn.
    apply name_of_index in Hin. apply name_of_index in Hjn. congruence.
  - apply NoDup_app. split; [apply NoDup_fst_map_to_list|]. split.
    + intros i H H'. apply list_elem_of_fmap in H as ([j x] & -> & H).
      apply list_elem_of_fmap in H' as ([j' v] & Hj & H'). cbn in Hj. subst j'.
      apply elem_of_map_to_list in H. apply list_elem_of_filter in H' as [[_ Hn] _].
      cbn in Hn. congruence.
    + eapply sublist_NoDup; [apply (NoDup_fst_map_to_list (carry w))|].
      apply (fmap_sublist fst), sublist_filter.
Qed.

Lemma all_order_free l : l ≡ₚ all -> sort_by miner_before l = sort_by miner_before all.
Proof using OK.
  intros HP. symmetry in HP. symmetry. apply sort_by_unique; [| | |exact HP].
  - intros x y. rewrite !miner_before_cmp. apply name_cmp_flip.
  - intros x y z. rewrite !miner_before_cmp. apply name_cmp_trans.
  - intros x y Hx Hy H1 H2. rewrite miner_before_cmp in H1, H2.
    pose proof (name_cmp_antisym _ _ _ _ _ _ H1 H2) as Hid.
    by apply (same_miner all all_names_distinct).
Qed.

Lemma all_work : zsum (map m_work all) = total_work w.
Proof using OK.
  rewrite map_app, zsum_app, !map_map. cbn [m_work listed_carry].
  assert (Hz : zsum (map (fun _ : Z * Z => 0) (filter unlisted (map_to_list (carry w)))) = 0).
  { induction (filter _ _) as [|e l IH]; [done|]. cbn [map]. by rewrite zsum_cons, IH. }
  rewrite Hz, Z.add_0_r, (proj1 (wo_total _ OK)).
  rewrite <- (row_work_total (map fst (map_to_list (totals w)))).
  - rewrite map_map. f_equal. apply map_ext_Forall, Forall_forall. intros [i x] H.
    apply elem_of_map_to_list in H. by apply totals_row in H as [Hw _].
  - apply NoDup_fst_map_to_list.
  - apply Forall_forall. intros c Hc. pose proof (row_count_pos c _ Hc) as Hp.
    pose proof (wo_totals _ OK (ident c)) as Ht.
    destruct (totals w !! ident c) as [x|] eqn:E; [|lia].
    apply list_elem_of_fmap. exists (ident c, x). split; [done|]. by apply elem_of_map_to_list.
Qed.

Lemma all_ok : Forall miner_ok all.
Proof using OK.
  apply Forall_forall. intros m [(i & x & Hx & ->)|(i & v & Hv & _ & ->)]%all_elem.
  - destruct (totals_row i x Hx) as (Hw & _ & _ & _). destruct (wo_total _ OK) as [Htot Hmax].
    pose proof (row_work_le i _ (rows_range w OK)). pose proof (source_rows_bounds i _ (rows_range w OK)).
    unfold miner_ok. cbn. pose proof (carry_range w OK i). unfold in_range in *.
    repeat split; try lia.
  - apply (wo_carry _ OK) in Hv as [_ Hv]. unfold miner_ok, in_range. cbn. lia.
Qed.

Lemma work_of_row s i : ident_index w !! s = Some i -> work_of w s = row_work i (credits w).
Proof using OK.
  intros H. unfold work_of. rewrite H. pose proof (wo_totals _ OK i) as Ht.
  destruct (totals w !! i) as [[[wk n] t]|]; [by destruct Ht as [-> _] | by rewrite row_work_zero].
Qed.

(** Work of one identity by class of source. *)
Definition stratum_of (s : string) : Z :=
  match ident_index w !! s with Some i => stratum_rows i (credits w) | None => 0 end.
Definition grace_of (s : string) : Z :=
  match ident_index w !! s with Some i => grace_rows i (credits w) | None => 0 end.

Lemma all_balances m : m ∈ all ->
  m_work m = work_of w (m_identity m) /\ m_carry m = carry_of w (m_identity m) /\
  m_stratum_work m = stratum_of (m_identity m) /\ m_grace_work m = grace_of (m_identity m).
Proof using OK.
  intros [(i & x & Hx & ->)|(i & v & Hv & Hn & ->)]%all_elem.
  - destruct (totals_row i x Hx) as (Hw & _ & _ & Hi). pose proof (name_of_index i Hi) as Hidx.
    unfold listed_row. cbn [m_work m_identity m_carry m_stratum_work m_grace_work fst snd].
    rewrite (work_of_row _ _ Hidx). unfold carry_of, of_identity, stratum_of, grace_of. by rewrite Hidx.
  - pose proof Hv as [Hi _]%(wo_carry _ OK). pose proof (name_of_index i Hi) as Hidx.
    unfold listed_carry. cbn [m_work m_identity m_carry m_stratum_work m_grace_work fst snd].
    rewrite (work_of_row _ _ Hidx). unfold carry_of, of_identity, stratum_of, grace_of. rewrite Hidx.
    pose proof (wo_totals _ OK i) as Ht. destruct (totals w !! i) as [[[wk n] t]|]; [discriminate Hn|].
    pose proof (source_rows_bounds i _ (rows_range w OK)) as Hb. rewrite (row_work_zero _ _ Ht) in *.
    unfold lookup0. rewrite Hv. cbn. lia.
Qed.

Lemma all_complete s : 0 < work_of w s \/ 0 < carry_of w s -> s ∈ map m_identity all.
Proof using OK.
  intros H. unfold work_of, carry_of, of_identity in H.
  destruct (ident_index w !! s) as [i|] eqn:E; [|lia].
  assert (Hn : name_of w i = s).
  { apply (wo_index _ OK) in E as [_ E]. unfold name_of. by rewrite E. }
  rewrite <- Hn, map_app. apply elem_of_app. destruct (totals w !! i) as [x|] eqn:Ex.
  - left. rewrite map_map. apply list_elem_of_fmap. exists (i, x).
    split; [done|]. by apply elem_of_map_to_list.
  - right. rewrite map_map. destruct H as [H|H]; [lia|]. unfold lookup0 in H.
    destruct (carry w !! i) as [v|] eqn:Ev; [|cbn in H; lia].
    apply list_elem_of_fmap. exists (i, v). split; [done|].
    apply list_elem_of_filter. split; [done|]. by apply elem_of_map_to_list.
Qed.

(** What a listing says. *)
Record listing (ms : list MinerStat) : Prop := {
  ls_ok : Forall miner_ok ms;
  ls_work : zsum (map m_work ms) = total_work w;
  ls_distinct : NoDup (map m_identity ms);
  ls_each : forall m, m ∈ ms ->
    m_work m = work_of w (m_identity m) /\ m_carry m = carry_of w (m_identity m) /\
    m_stratum_work m = stratum_of (m_identity m) /\ m_grace_work m = grace_of (m_identity m);
  ls_complete : forall s, 0 < work_of w s \/ 0 < carry_of w s -> s ∈ map m_identity ms;
  ls_sorted : StronglySorted (le_by miner_before) ms
}.

Lemma miners_listing :
  exists ms, listing ms /\ forall ts cs,
    ts ≡ₚ map_to_list (totals w) -> cs ≡ₚ map_to_list (carry w) -> miners_in w ts cs = Ret ms.
Proof using OK.
  exists (sort_by miner_before all). split.
  - constructor.
    + rewrite sort_by_perm. apply all_ok.
    + rewrite (sort_by_perm miner_before). apply all_work.
    + rewrite (sort_by_perm miner_before). apply all_names_distinct.
    + intros m. rewrite sort_by_perm. apply all_balances.
    + intros s H. rewrite (sort_by_perm miner_before). by apply all_complete.
    + apply sort_by_sorted.
      * intros x y. rewrite !miner_before_cmp. apply name_cmp_flip.
      * intros x y z. rewrite !miner_before_cmp. apply name_cmp_trans.
  - intros ts cs Hts Hcs. rewrite miners_in_run by done. f_equal. apply all_order_free.
    by rewrite Hts, Hcs.
Qed.

Lemma miners_run : exists ms, miners w = Ret ms /\ listing ms.
Proof using OK.
  destruct miners_listing as (ms & L & H). exists ms. split; [by apply H | done].
Qed.

(** What the caller of [Window::split] has to guarantee beside the window's own invariant. *)
Record params_ok (value : Z) (p : SplitParams) : Prop := {
  po_fee : 0 <= fee_bps p <= 10000;
  po_stratum_fee : 0 <= stratum_fee_bps p <= 10000;
  po_rebate : 0 <= datum_rebate_bps p;
  po_grace_fee : 0 <= grace_fee_bps p;
  po_grace_rebate : 0 <= grace_rebate_bps p;
  po_value : in_range u64_max value;
  po_product : value * total_work w * 10000 <= u128_max
}.

Lemma window_split_run value p now script_for :
  params_ok value p ->
  exists ms, listing ms /\ split_ok ms (total_work w) value p (rebate_owed w) /\
    window_split w value p now script_for = compute ms (total_work w) value p (rebate_owed w) now script_for.
Proof using OK.
  intros []. destruct miners_run as (ms & E & L). exists ms. split; [done|]. split.
  - constructor; try done; try apply L; try apply OK.
    + by rewrite (ls_work _ L).
    + split; [|apply OK]. destruct (wo_total _ OK) as [-> _]. apply zsum_map_nonneg.
      intros c Hc. pose proof (rows_range w OK) as Hr. eapply Forall_forall in Hr; [|exact Hc].
      unfold in_range in Hr. lia.
  - unfold window_split. by rewrite E.
Qed.
End Listing.
