(* ===== verification/WindowProps.v ===== *)
(** The properties of the share window: the invariant of every reachable window, what a share
    and a trim do to the rows, the listing a split starts from, and drawing on holds. *)

From S2P Require Import Prelude Tides Split SplitFacts Window WindowFacts BalanceFacts MinersFacts.
Open Scope Z_scope.

(** * Steps *)

(** One call of a [Window] operation, at arguments of their machine types and with room in the
    counters and in the identity table. *)
Inductive window_step (w : Window) : Window -> Prop :=
| step_credit identity wk h t src w' c b :
    credit_room w wk -> 0 <= t -> credit w identity wk h t src = Ret (w', c, b) -> window_step w w'
| step_credit_row identity wk h t src w' c :
    credit_room w wk -> 0 <= t -> credit_row w identity wk h t src = Ret (w', c) -> window_step w w'
| step_push_raw c w' :
    interned w (ident c) -> in_range u64_max (work c) -> 0 <= ts c ->
    total_work w + work c <= u64_max -> Z.of_nat (length (credits w)) < u64_max ->
    push_raw w c = Ret w' -> window_step w w'
| step_set_target t : 0 <= t -> window_step w (set_target w t)
| step_intern identity : table_room w -> window_step w (intern w identity).1
| step_set_last_seen identity t : table_room w -> 0 <= t -> window_step w (set_last_seen w identity t)
| step_set_carry identity sats :
    can_intern w identity -> in_range u64_max sats -> window_step w (set_carry w identity sats)
| step_adjust_carry identity delta :
    can_intern w identity -> window_step w (adjust_carry w identity delta).1
| step_set_rebate_owed sats : in_range u64_max sats -> window_step w (set_rebate_owed w sats)
| step_adjust_rebate_owed delta : window_step w (adjust_rebate_owed w delta)
| step_accrue_debt identity sats :
    can_intern w identity -> 0 <= sats -> window_step w (accrue_debt w identity sats)
| step_reduce_debt identity sats : 0 <= sats -> window_step w (reduce_debt w identity sats).1
| step_restore_debt identity sats :
    can_intern w identity -> 0 <= sats <= i64_max -> window_step w (restore_debt w identity sats)
| step_forgive_debt identity sats :
    can_intern w identity -> 0 <= sats <= i64_max -> window_step w (forgive_debt w identity sats)
| step_restore_carry identity sats :
    can_intern w identity -> 0 <= sats <= i64_max -> window_step w (restore_carry w identity sats).1
| step_draw identity sats : 0 <= sats -> window_step w (draw_from_holds w identity sats).1.

Lemma window_step_ok w w' : window_step w w' -> window_ok w -> window_ok w'.
Proof.
  destruct 1 as [id wk h t src w' c b R Ht E|id wk h t src w' c R Ht E|c w' Hi Hw Ht Hm Hl E|t Ht|id R
    |id t R Ht|id s R Hs|id d R|s Hs|d|id s R Hs|id s Hs|id s R Hs|id s R Hs|id s R Hs|id s Hs]; intros OK.
  - destruct (credit_ok_spec w id wk h t src OK R Ht) as (w2 & c2 & b2 & C & E2).
    rewrite E in E2. injection E2 as -> -> ->. apply trim_ok, C.
  - destruct (credit_row_ok_spec w id wk h t src OK R Ht) as (w2 & c2 & C & E2).
    rewrite E in E2. injection E2 as -> ->. apply trim_ok, C.
  - destruct (push_raw_ok w c OK Hi Hw Ht Hm Hl) as (w2 & E2 & OK2 & _).
    rewrite E in E2. by injection E2 as ->.
  - by apply set_target_ok.
  - apply (intern_ok w id OK R).
  - unfold set_last_seen. pose proof (intern_ok w id OK R) as I.
    destruct (intern w id) as [w' i]. by apply note_seen_ok; [apply I | apply I |].
  - by apply set_carry_moved.
  - by apply adjust_carry_moved.
  - by apply with_rebate_owed_ok.
  - apply with_rebate_owed_ok; [done|]. apply add_signed_range, OK.
  - by apply accrue_debt_moved.
  - by apply reduce_debt_moved.
  - by apply restore_debt_moved.
  - by apply forgive_debt_moved.
  - by apply restore_carry_moved.
  - pose proof (draw_from_holds_ok w id s OK Hs) as H.
    destruct (draw_from_holds w id s) as [w' n]. apply H.
Qed.

Definition window_reachable (w : Window) : Prop := rtc window_step window_new w.

Lemma reachable_ok w : window_reachable w -> window_ok w.
Proof.
  unfold window_reachable. generalize window_new_ok. generalize window_new.
  intros w0 OK. induction 1 as [|w1 w2 w3 S _ IH]; [done|]. apply IH. by eapply window_step_ok.
Qed.

(** The window after a credit that has room for it. *)
Definition credit_to (w : Window) (identity : string) (wk h t src : Z) : Window :=
  match credit w identity wk h t src with Ret (w', _, _) => w' | Panic => w end.

Lemma credit_to_reachable w identity wk h t src :
  window_reachable w -> credit_room w wk -> 0 <= t -> window_reachable (credit_to w identity wk h t src).
Proof.
  intros H R Ht.
  destruct (credit_ok_spec w identity wk h t src (reachable_ok _ H) R Ht) as (w2 & c & b & _ & E).
  unfold credit_to. rewrite E. eapply rtc_r; [exact H|]. by eapply step_credit.
Qed.

(** A window of two miners and a third owed carry, in a window of 100 work. *)
Definition demo_window1 : Window := credit_to (set_target window_new 100) "alice" 60 7 1000 SOURCE_STRATUM.
Definition demo_window2 : Window := credit_to demo_window1 "bob" 70 7 1001 SOURCE_DATUM.
Definition demo_window : Window := set_carry demo_window2 "carol" 900.

Ltac room := constructor; vm_compute; first [reflexivity | discriminate].

Lemma demo_reachable : window_reachable demo_window.
Proof.
  unfold demo_window. eapply rtc_r; [|apply step_set_carry; [left; vm_compute; discriminate | split; lia]].
  apply credit_to_reachable; [|room | lia]. apply credit_to_reachable; [|room | lia].
  apply rtc_once. apply step_set_target. lia.
Qed.

Lemma demo_window_ok : window_ok demo_window.
Proof. exact (reachable_ok _ demo_reachable). Qed.

(** * Properties *)



(** Adding a share grows the newest row when identity, second, height and source agree and
    appends a row otherwise, never panics where the counters have room, keeps every balance, and
    the rows kept are the shortest suffix that still holds the target. *)
Theorem window_credit_slides w identity wk h t src :
  window_ok w -> credit_room w wk -> 0 <= t ->
  exists w' c b i rows, credit w identity wk h t src = Ret (w', c, b) /\
    ident_index w' !! identity = Some i /\
    shared (credits w) (as_credit i wk h t src) rows c b /\
    (target_work w = 0 -> credits w' = rows) /\
    (target_work w <> 0 -> trimmed (target_work w) rows (credits w')) /\
    total_work w' = zsum (map work (credits w')) /\
    carry w' = carry w /\ debt w' = debt w /\ holds w' = holds w /\ rebate_owed w' = rebate_owed w.
Proof.
  intros OK R Ht. destruct (credit_ok_spec w identity wk h t src OK R Ht) as (w2 & c & b & C & E).
  destruct C as [(w1 & i & rows & m & Ct & Sh & ->) OK2].
  set (w2 := with_rows w1 rows m (total_work w + wk)) in *.
  exists (trim w2), c, b, i, rows. split; [done|].
  destruct Ct as [_ Hidx _ _ _ _ _ _ _ Htg (Hc & Hd & Hh & Ho)].
  destruct (wo_total _ (trim_ok _ OK2)) as [Htot _].
  unfold trim in *. change (target_work w2) with (target_work w1) in *. rewrite Htg in *.
  pose proof (trim_rows_ok (target_work w) rows m (total_work w + wk)
    (rows_range _ OK2) (wo_totals _ OK2) (proj1 (wo_total _ OK2))) as H.
  change (credits w2) with rows in *. change (totals w2) with m in *.
  change (total_work w2) with (total_work w + wk) in *.
  destruct (target_work w =? 0) eqn:E0; bools.
  - repeat split; done.
  - destruct (trim_rows _ _ _ _) as [[rows' m'] tot']. destruct H as (_ & _ & Htr).
    repeat split; done.
Qed.

Lemma window_credit_slides_witness :
  exists w' c b i rows, credit demo_window "bob" 45 7 1001 SOURCE_DATUM = Ret (w', c, b) /\
    ident_index w' !! "bob"%string = Some i /\
    shared (credits demo_window) (as_credit i 45 7 1001 SOURCE_DATUM) rows c b /\
    (target_work demo_window = 0 -> credits w' = rows) /\
    (target_work demo_window <> 0 -> trimmed (target_work demo_window) rows (credits w')) /\
    total_work w' = zsum (map work (credits w')) /\
    carry w' = carry demo_window /\ debt w' = debt demo_window /\ holds w' = holds demo_window /\
    rebate_owed w' = rebate_owed demo_window.
Proof.
  apply (window_credit_slides demo_window "bob" 45 7 1001 SOURCE_DATUM demo_window_ok); [|lia].
  room.
Defined.

(** Under a work target, credits of at most [W] work per row keep the window's work below
    target plus [W]: the window neither grows without bound nor comes near the saturating limit
    of its counters, however many shares arrive. *)
Theorem window_work_bounded w identity wk h t src W :
  window_ok w -> 0 < target_work w -> target_work w + 2 * W <= u64_max ->
  Forall (fun c => work c <= W) (credits w) -> total_work w < target_work w + W ->
  0 <= wk <= W -> lifetime_shares w < u64_max -> Z.of_nat (length (credits w)) < u64_max ->
  table_room w -> 0 <= t ->
  exists w' c, credit_row w identity wk h t src = Ret (w', c) /\ window_ok w' /\
    Forall (fun c => work c <= W) (credits w') /\ total_work w' < target_work w + W /\
    target_work w' = target_work w.
Proof.
  intros OK Ht HW HF Htot Hwk Hsh Hlen Hroom H0.
  assert (R : credit_room w wk) by (constructor; lia || done).
  destruct (credit_row_ok_spec w identity wk h t src OK R H0) as (w2 & c & C & E).
  exists (trim w2), c. split; [done|]. pose proof (trim_ok _ (cd_ok _ _ _ _ _ _ _ _ _ C)) as OK'.
  split; [done|]. destruct C as [(w1 & i & rows & m & Ct & Sh & ->) OK2].
  set (w2 := with_rows w1 rows m (total_work w + wk)) in *.
  assert (Htg : target_work w2 = target_work w) by apply Ct.
  assert (Hrows : Forall (fun c => work c <= W) rows).
  { inversion Sh; subst. apply Forall_app. split; [done|]. constructor; [cbn; lia | done]. }
  destruct (wo_total _ OK') as [Hsum _]. revert Hsum.
  pose proof (trim_rows_ok (target_work w) rows m (total_work w + wk)
    (rows_range _ OK2) (wo_totals _ OK2) (proj1 (wo_total _ OK2))) as H.
  unfold trim. rewrite Htg. destruct (target_work w =? 0) eqn:E0; bools; [lia|].
  change (credits w2) with rows. change (totals w2) with m.
  change (total_work w2) with (total_work w + wk).
  destruct (trim_rows _ _ _ _) as [[rows' m'] tot'].
  destruct H as (_ & -> & old & -> & _ & Hmin). intros _. apply Forall_app in Hrows as [_ Hrows].
  split; [done|]. split; [|done]. cbn [total_work with_rows].
  destruct rows' as [|c' rest]; [cbn; lia|]. specialize (Hmin c' rest eq_refl).
  apply Forall_cons in Hrows as [? _]. cbn [map]. rewrite zsum_cons. lia.
Qed.

Lemma window_work_bounded_witness :
  exists w' c, credit_row demo_window "dave" 80 8 1002 SOURCE_DATUM = Ret (w', c) /\ window_ok w' /\
    Forall (fun c => work c <= 80) (credits w') /\ total_work w' < target_work demo_window + 80 /\
    target_work w' = target_work demo_window.
Proof.
  apply (window_work_bounded demo_window "dave" 80 8 1002 SOURCE_DATUM 80 demo_window_ok);
    try (vm_compute; first [reflexivity | discriminate]); try lia.
  repeat constructor; cbn; lia.
Defined.

(** The listing a split starts from does not depend on the hash maps' iteration order, does
    not panic, names each identity once in a fixed order, adds up to the window's work, gives
    each identity its own work, stratum and grace work and carry, and leaves out nobody with
    work in the window or with carry on the books. *)
Theorem window_listing_order_free w :
  window_reachable w ->
  exists ms, listing w ms /\ forall row_order carry_order,
    row_order ≡ₚ map_to_list (totals w) -> carry_order ≡ₚ map_to_list (carry w) ->
    miners_in w row_order carry_order = Ret ms.
Proof. intros H. apply miners_listing, reachable_ok, H. Qed.

Lemma window_listing_order_free_witness :
  exists ms, listing demo_window ms /\ forall row_order carry_order,
    row_order ≡ₚ map_to_list (totals demo_window) -> carry_order ≡ₚ map_to_list (carry demo_window) ->
    miners_in demo_window row_order carry_order = Ret ms.
Proof. apply (window_listing_order_free demo_window). exact demo_reachable. Defined.

(** From every reachable window a block's split is computed without a panic, pays out the
    block exactly, and every identity with carry on the books is either paid by it or listed as
    unpaid with its balance still owed. *)
Theorem window_split_total w value p now script_for :
  window_reachable w -> params_ok w value p ->
  exists s, window_split w value p now script_for = Ret s /\
    zsum (map p_sats (s_payees s)) + s_pool_sats s = value /\ 0 <= s_pool_sats s /\
    NoDup (map p_identity (s_payees s) ++ map u_identity (s_unpaid s)) /\
    forall id, 0 < carry_of w id -> id ∈ map p_identity (s_payees s) ++ map u_identity (s_unpaid s).
Proof.
  intros Hr%reachable_ok P.
  destruct (window_split_run w Hr value p now script_for P) as (ms & L & OK & E). rewrite E.
  destruct (compute_ok _ _ _ _ _ now script_for OK) as (s & Es & S). exists s. split; [done|].
  pose proof (ss_names _ _ _ _ _ _ _ _ S) as Hn. destruct S as [_ Hc Hp]. split; [done|]. split; [done|]. split.
  - rewrite Hn. eapply sublist_NoDup; [apply (ls_distinct _ _ L)|]. apply (fmap_sublist m_identity), sublist_filter.
  - intros id Hid. pose proof (ls_complete _ _ L id (or_intror Hid)) as Hin.
    rewrite Hn. apply list_elem_of_fmap in Hin as (m & -> & Hm). apply list_elem_of_fmap. exists m. split; [done|].
    apply list_elem_of_filter. split; [|done].
    destruct (ls_each _ _ L m Hm) as (_ & Hca & _).
    pose proof (earned_nonneg _ _ _ _ _ OK m Hm) as [He _].
    unfold owed_to, earned. pose proof (carry_of_range w (m_identity m) Hr). sat_lia.
Qed.

Lemma window_split_total_witness :
  exists s, window_split demo_window 100000 (demo_params 100 4000) 2000 demo_script = Ret s /\
    zsum (map p_sats (s_payees s)) + s_pool_sats s = 100000 /\ 0 <= s_pool_sats s /\
    NoDup (map p_identity (s_payees s) ++ map u_identity (s_unpaid s)) /\
    forall id, 0 < carry_of demo_window id ->
      id ∈ map p_identity (s_payees s) ++ map u_identity (s_unpaid s).
Proof.
  apply (window_split_total demo_window 100000 (demo_params 100 4000) 2000 demo_script demo_reachable).
  constructor; unfold in_range; cbn; try lia; vm_compute; discriminate.
Defined.

(** Drawing on the holds for one identity takes what is wanted or everything held for it,
    whichever is less, from that identity's entries only; no empty hold is left behind, and the
    money in the holds falls by exactly what was taken. *)
Theorem holds_draw_exact w identity sats :
  window_ok w -> 0 <= sats ->
  let '(w', taken) := draw_from_holds w identity sats in
  taken = Z.min sats (held_of w identity) /\ window_ok w' /\
  (forall s, held_of w' s = held_of w s - (if decide (s = identity) then taken else 0)) /\
  fsum hold_total (holds w') = fsum hold_total (holds w) - taken /\
  carry w' = carry w /\ debt w' = debt w.
Proof.
  intros OK Hs. pose proof (draw_from_holds_ok w identity sats OK Hs) as H.
  destruct (draw_from_holds w identity sats) as [w' taken].
  destruct H as (H1 & H2 & (hs & ->) & H3 & H4). conjs; done.
Qed.

Definition demo_holds : Window := with_holds demo_window
  {[ "b1"%string := {| created_ts := 5; hold_height := 7; ready_height := 10;
                       entries := [("carol"%string, 300); ("alice"%string, 40)] |};
     "b0"%string := {| created_ts := 9; hold_height := 7; ready_height := 10;
                       entries := [("carol"%string, 500)] |} ]}.

Lemma holds_draw_exact_witness :
  let '(w', taken) := draw_from_holds demo_holds "carol" 450 in
  taken = Z.min 450 (held_of demo_holds "carol") /\ window_ok w' /\
  (forall s, held_of w' s
     = held_of demo_holds s - (if decide (s = "carol"%string) then taken else 0)) /\
  fsum hold_total (holds w') = fsum hold_total (holds demo_holds) - taken /\
  carry w' = carry demo_holds /\ debt w' = debt demo_holds.
Proof.
  apply (holds_draw_exact demo_holds "carol" 450); [|lia].
  apply with_holds_ok; [exact demo_window_ok|].
  apply map_Forall_insert_2; [split; [done | repeat constructor]|].
  apply map_Forall_insert_2; [split; [done | repeat constructor] | apply map_Forall_empty].
Defined.
