(* ===== verification/Grace.v ===== *)
(** Grace clocks of house-stratum work ([prime/tides/src/grace.rs]): the book, its operations, and
    the class a share is tagged with ([Ledger::source_for]). *)

From S2P Require Import Prelude Tides.
Open Scope Z_scope.

(** * Data *)

Definition DATUM_LOOKBACK : Z := 30 * 86400.
Definition COARSE : Z := 60.

Record GraceParams := {
  secs : Z;
  datum_secs : Z;
  rearm_secs : Z;
  epoch : Z
}.

Definition grace_enabled (p : GraceParams) : bool := (0 <? secs p) || (0 <? datum_secs p).

Inductive Seen := SeenStratum | SeenStratumGrace | SeenDatum | SeenOther.

#[export] Instance Seen_eq_dec : EqDecision Seen.
Proof. solve_decision. Defined.

Record Episode := { start : Z; last_share : Z; datum : bool }.

Record GraceBook := {
  stratum : gmap string Episode;
  datum_seen : gmap string Z;
  g_dirty : bool
}.

Definition grace_empty : GraceBook := {| stratum := ∅; datum_seen := ∅; g_dirty := false |}.

Definition clear_dirty (b : GraceBook) : GraceBook :=
  {| stratum := stratum b; datum_seen := datum_seen b; g_dirty := false |}.

(** * Operations *)

Definition note_datum (b : GraceBook) (identity : string) (t : Z) : GraceBook :=
  let b' := {| stratum := stratum b; datum_seen := <[identity := t]> (datum_seen b); g_dirty := true |} in
  match datum_seen b !! identity with
  | Some seen => if sat_add u32_max seen COARSE <=? t then b' else b
  | None => b'
  end.

(** Whether DATUM work confirms a clock starting at [t]. *)
Definition confirms (seen t : Z) : bool :=
  (seen <=? t) && (t <=? sat_add u32_max seen DATUM_LOOKBACK).
Definition on_datum (b : GraceBook) (identity : string) (t : Z) : bool :=
  match datum_seen b !! identity with Some seen => confirms seen t | None => false end.

Definition grace_len (e : Episode) (p : GraceParams) : Z :=
  if datum e then Z.max (datum_secs p) (secs p) else secs p.
Definition episode_until (e : Episode) (p : GraceParams) : Z :=
  sat_add u32_max (start e) (grace_len e p).
Definition until (b : GraceBook) (identity : string) (p : GraceParams) : option Z :=
  match stratum b !! identity with Some e => Some (episode_until e p) | None => None end.

Definition with_episode (b : GraceBook) (identity : string) (e : Episode) : GraceBook :=
  {| stratum := <[identity := e]> (stratum b); datum_seen := datum_seen b; g_dirty := true |}.

(** The clock after a stratum share at [t], if it changes. *)
Definition next_episode (o : option Episode) (t : Z) (d : bool) (p : GraceParams) : option Episode :=
  let fresh := {| start := t; last_share := t; datum := d |} in
  match o with
  | Some e =>
      if (0 <? rearm_secs p) && (sat_add u32_max (last_share e) (rearm_secs p) <=? t) then Some fresh
      else if sat_add u32_max (last_share e) COARSE <=? t
      then Some {| start := start e; last_share := t; datum := datum e |}
      else None
  | None => Some fresh
  end.

(** [GraceBook::note_stratum]: the book, and whether the share is inside the grace. *)
Definition note_stratum (b : GraceBook) (identity : string) (t : Z) (p : GraceParams)
    : GraceBook * bool :=
  let b' := match next_episode (stratum b !! identity) t (on_datum b identity t) p with
            | Some e => with_episode b identity e
            | None => b
            end in
  (b', match until b' identity p with Some u => t <? u | None => false end).

(** [GraceBook::seed]: one row, then the pass over the addresses. *)
Definition seed_row (st : gmap string Episode * gmap string Z * gset string)
    (row : Z * string * Seen) : gmap string Episode * gmap string Z * gset string :=
  let '(strat, seen, full) := st in
  let '(t, id, class) := row in
  match class with
  | SeenStratum | SeenStratumGrace =>
      let e := default {| start := t; last_share := t; datum := false |} (strat !! id) in
      (<[id := {| start := Z.min (start e) t; last_share := Z.max (last_share e) t; datum := datum e |}]> strat,
       seen, if decide (class = SeenStratum) then {[id]} ∪ full else full)
  | SeenDatum => (strat, <[id := Z.max (default t (seen !! id)) t]> seen, full)
  | SeenOther => st
  end.

Definition seed_clock (seen : gmap string Z) (full : gset string) (p : GraceParams)
    (id : string) (e : Episode) : Episode :=
  let d := bool_decide (is_Some (seen !! id)) in
  if (0 <? epoch p) && bool_decide (id ∈ full)
  then {| start := epoch p; last_share := Z.max (last_share e) (epoch p); datum := d |}
  else {| start := start e; last_share := last_share e; datum := d |}.

Definition seed (b : GraceBook) (rows : list (Z * string * Seen)) (p : GraceParams) : GraceBook :=
  let '(strat, seen, full) := foldl seed_row (stratum b, datum_seen b, ∅) rows in
  {| stratum := map_imap (fun id e => Some (seed_clock seen full p id e)) strat;
     datum_seen := seen; g_dirty := true |}.

Definition keep_secs (p : GraceParams) : Z :=
  sat_add u32_max (sat_add u32_max DATUM_LOOKBACK (Z.max (datum_secs p) (secs p))) (rearm_secs p).

(** [GraceBook::prune]. *)
Definition prune (b : GraceBook) (now : Z) (p : GraceParams) : GraceBook :=
  let strat := if 0 <? rearm_secs p
    then filter (fun x => now < sat_add u32_max (last_share x.2) (rearm_secs p)) (stratum b)
    else stratum b in
  let seen := filter (fun x => is_Some (strat !! x.1) \/ now < sat_add u32_max x.2 (keep_secs p))
                (datum_seen b) in
  {| stratum := strat; datum_seen := seen;
     g_dirty := g_dirty b
       || negb ((size strat + size seen =? size (stratum b) + size (datum_seen b))%nat) |}.

(** [Ledger::source_for], on the book. *)
Definition source_for (b : GraceBook) (identity : string) (t : Z) (house_stratum : bool)
    (p : GraceParams) : GraceBook * Z :=
  if negb (grace_enabled p) then (b, if house_stratum then SOURCE_STRATUM else SOURCE_DATUM)
  else if negb house_stratum then (note_datum b identity t, SOURCE_DATUM)
  else let '(b', inside) := note_stratum b identity t p in
       (b', if inside then SOURCE_STRATUM_GRACE else SOURCE_STRATUM).

(** The class of a window row, as [Ledger::seed_grace] reads it. *)
Definition row_class (src : Z) : Seen :=
  if src =? SOURCE_STRATUM then SeenStratum
  else if src =? SOURCE_STRATUM_GRACE then SeenStratumGrace
  else if src =? SOURCE_DATUM then SeenDatum else SeenOther.

(** [Ledger::prune_grace]. *)
Definition prune_grace (b : GraceBook) (now : Z) (p : GraceParams) : GraceBook :=
  if grace_enabled p then prune b now p else b.

(** * Runs *)

(** Work of an address credited at a time, from the house stratum or not. *)
Definition Work : Type := string * Z * bool.

Fixpoint tag_all (b : GraceBook) (p : GraceParams) (ws : list Work) : GraceBook * list Z :=
  match ws with
  | [] => (b, [])
  | (id, t, house) :: ws' =>
      let '(b1, tag) := source_for b id t house p in
      let '(b2, tags) := tag_all b1 p ws' in (b2, tag :: tags)
  end.

(** * Pruning *)

Section Prune.
Context (p : GraceParams) (now : Z).
Hypothesis now_range : 0 <= now < u32_max.
Hypothesis enabled : grace_enabled p = true.
Hypothesis params : 0 <= secs p /\ 0 <= datum_secs p /\ 0 <= rearm_secs p.

(** A clock the pruned book may have lost: its owner would start a new one anyway. *)
Definition lapsed (e : Episode) : Prop :=
  0 < rearm_secs p /\ sat_add u32_max (last_share e) (rearm_secs p) <= now.
(** A sighting the pruned book may have lost. *)
Definition forgotten (seen : Z) : Prop := sat_add u32_max seen (keep_secs p) <= now.

(** [b'] is [b] less what can no longer change an answer. *)
Record pruned (b b' : GraceBook) : Prop := {
  pr_stratum : forall id, stratum b' !! id = stratum b !! id \/
    (stratum b' !! id = None /\ exists e, stratum b !! id = Some e /\ lapsed e);
  pr_seen : forall id, datum_seen b' !! id = datum_seen b !! id \/
    (datum_seen b' !! id = None /\ exists s, datum_seen b !! id = Some s /\ forgotten s)
}.

Lemma keep_secs_over : DATUM_LOOKBACK < keep_secs p \/ keep_secs p = u32_max.
Proof using now_range enabled params.
  unfold keep_secs, grace_enabled, DATUM_LOOKBACK in *. bools. destruct enabled as [E|E]; bools; sat_lia.
Qed.

Lemma forgotten_confirms s t : 0 <= s -> forgotten s -> now <= t -> confirms s t = false.
Proof using now_range enabled params.
  intros Hs H Ht. unfold confirms. destruct (s <=? t) eqn:E; [|done].
  apply Z.leb_gt. unfold forgotten in H. destruct keep_secs_over; unfold DATUM_LOOKBACK in *; sat_lia.
Qed.

Lemma prune_pruned b : pruned b (prune b now p).
Proof using now_range enabled params.
  constructor; intros id; unfold prune; cbn [stratum datum_seen].
  - destruct (0 <? rearm_secs p) eqn:E; [|by left]. bools. rewrite map_lookup_filter.
    destruct (stratum b !! id) as [e|]; [|by left]. cbn.
    destruct (decide (now < sat_add u32_max (last_share e) (rearm_secs p))) as [H|H].
    + left. rewrite option_guard_True by done. done.
    + right. rewrite option_guard_False by done. split; [done|]. exists e. split; [done|]. split; [done | lia].
  - rewrite map_lookup_filter. destruct (datum_seen b !! id) as [s|]; [|by left]. cbn.
    match goal with |- context [guard ?P] => destruct (decide P) as [H|H] end.
    + left. rewrite option_guard_True by done. done.
    + right. rewrite option_guard_False by done. split; [done|]. exists s. split; [done|].
      unfold forgotten. assert (~ now < sat_add u32_max s (keep_secs p)) by tauto. lia.
Qed.

Definition book_times_ok (b : GraceBook) : Prop := map_Forall (fun _ s => 0 <= s) (datum_seen b).

Lemma pruned_note_datum b b' id t :
  pruned b b' -> now <= t -> pruned (note_datum b id t) (note_datum b' id t).
Proof using now_range enabled params.
  intros [Hs Hd] Ht. pose proof (Hd id) as Hid. unfold note_datum.
  destruct Hid as [E|[E (s & Es & Hf)]]; rewrite E.
  - destruct (datum_seen b !! id) as [s|]; [destr_if|]; constructor; cbn; try done;
      intros id'; destruct (decide (id = id')) as [<-|];
      rewrite ?lookup_insert_eq, ?lookup_insert_ne by done; auto.
  - rewrite Es. assert (Hle : (sat_add u32_max s COARSE <=? t) = true).
    { apply Z.leb_le. unfold forgotten, COARSE in *. destruct keep_secs_over; unfold DATUM_LOOKBACK in *; sat_lia. }
    rewrite Hle. constructor; cbn; try done.
    intros id'; destruct (decide (id = id')) as [<-|];
      rewrite ?lookup_insert_eq, ?lookup_insert_ne by done; auto.
Qed.

Lemma pruned_on_datum b b' id t :
  pruned b b' -> book_times_ok b -> now <= t -> on_datum b' id t = on_datum b id t.
Proof using now_range enabled params.
  intros [_ Hd] Hb Ht. unfold on_datum. destruct (Hd id) as [->|[-> (s & Es & Hf)]]; [done|].
  rewrite Es. symmetry. apply forgotten_confirms; [by eapply Hb | done | done].
Qed.

Lemma pruned_note_stratum b b' id t :
  pruned b b' -> book_times_ok b -> now <= t ->
  pruned (note_stratum b id t p).1 (note_stratum b' id t p).1 /\
  (note_stratum b' id t p).2 = (note_stratum b id t p).2.
Proof using now_range enabled params.
  intros R Hb Ht. pose proof (pruned_on_datum b b' id t R Hb Ht) as Ho.
  destruct R as [Hs Hd]. unfold note_stratum. rewrite Ho.
  assert (Hput : forall e, pruned (with_episode b id e) (with_episode b' id e)).
  { intros e. constructor; cbn; try done.
    intros id'; destruct (decide (id = id')) as [<-|];
      rewrite ?lookup_insert_eq, ?lookup_insert_ne by done; auto. }
  destruct (Hs id) as [E|[E (e & Ee & Hr & Hl)]]; rewrite E.
  - destruct (next_episode (stratum b !! id) t (on_datum b id t) p) as [e|]; cbn [fst snd].
    + split; [apply Hput|]. unfold until, with_episode. cbn. by rewrite !lookup_insert_eq.
    + split; [by constructor|]. unfold until. by rewrite E.
  - rewrite Ee. cbn [next_episode].
    rewrite (proj2 (Z.ltb_lt _ _) Hr), (proj2 (Z.leb_le _ t)) by lia. cbn [andb fst snd].
    split; [apply Hput|]. unfold until, with_episode. cbn. by rewrite !lookup_insert_eq.
Qed.

Lemma note_datum_times b id t : book_times_ok b -> 0 <= t -> book_times_ok (note_datum b id t).
Proof using now_range enabled params.
  intros Hb Ht. unfold note_datum. destruct (datum_seen b !! id); [destr_if; [|done]|];
    by apply map_Forall_insert_2.
Qed.

Lemma note_stratum_times b id t : book_times_ok b -> book_times_ok (note_stratum b id t p).1.
Proof using now_range enabled params. intros Hb. unfold note_stratum. by destruct (next_episode _ _ _ _). Qed.

Lemma pruned_tags ws : forall b b',
  pruned b b' -> book_times_ok b -> Forall (fun w : Work => now <= w.1.2) ws ->
  (tag_all b' p ws).2 = (tag_all b p ws).2.
Proof using now_range enabled params.
  induction ws as [|[[id t] house] ws IH]; intros b b' R Hb HF; [done|].
  apply Forall_cons in HF as [Ht HF]. cbn in Ht. cbn [tag_all]. unfold source_for.
  rewrite enabled. cbn [negb]. destruct house; cbn [negb].
  - destruct (pruned_note_stratum b b' id t R Hb Ht) as [R2 E].
    pose proof (note_stratum_times b id t Hb) as Hb2.
    destruct (note_stratum b id t p) as [b1 i1], (note_stratum b' id t p) as [b1' i1'].
    cbn [fst snd] in *. subst i1'. specialize (IH b1 b1' R2 Hb2 HF).
    destruct (tag_all b1 p ws), (tag_all b1' p ws). cbn [snd] in *. by rewrite IH.
  - specialize (IH _ _ (pruned_note_datum b b' id t R Ht) (note_datum_times b id t Hb ltac:(lia)) HF).
    destruct (tag_all (note_datum b id t) p ws), (tag_all (note_datum b' id t) p ws).
    cbn [snd] in *. by rewrite IH.
Qed.
End Prune.
