(* ===== verification/GraceProps.v ===== *)
(** The properties of the grace clocks: what pruning may not change, what fixes an address's
    clock, and the book rebuilt from a window. *)

From S2P Require Import Prelude Tides Grace.
Open Scope Z_scope.

(** * A running clock *)

Section Clock.
Context (p : GraceParams) (id : string).
Hypothesis enabled : grace_enabled p = true.
Hypothesis rearm : 0 <= rearm_secs p.

(** Shares of [id] on the house stratum that never pause long enough to start a new clock. The
    book keeps the last share to within [COARSE], so a pause short of [rearm_secs] by that much
    is one it cannot mistake. *)
Fixpoint steady (last : Z) (ws : list Work) : Prop :=
  match ws with
  | [] => True
  | (id', t, house) :: ws' =>
      if house && bool_decide (id' = id) then
        last <= t < u32_max /\ (rearm_secs p = 0 \/ t - last + COARSE <= rearm_secs p) /\ steady t ws'
      else steady last ws'
  end.

(** The tag of a share of [id] under a clock that ends at [end_]. *)
Definition tag_under (end_ : Z) (w : Work) (tag : Z) : Prop :=
  w.1.1 = id -> w.2 = true ->
  tag = if w.1.2 <? end_ then SOURCE_STRATUM_GRACE else SOURCE_STRATUM.

Record clock_at (b : GraceBook) (s : Z) (d : bool) (last : Z) : Prop := {
  ca_at : exists e, stratum b !! id = Some e /\ start e = s /\ datum e = d /\
    last_share e <= last < last_share e + COARSE
}.

Definition clock_end (s : Z) (d : bool) : Z :=
  episode_until {| start := s; last_share := s; datum := d |} p.

Lemma note_stratum_steady b s d last t :
  clock_at b s d last -> last <= t < u32_max -> (rearm_secs p = 0 \/ t - last + COARSE <= rearm_secs p) ->
  clock_at (note_stratum b id t p).1 s d t /\ (note_stratum b id t p).2 = (t <? clock_end s d).
Proof using rearm.
  intros [(e & He & <- & <- & Hl)] Ht Hr. unfold note_stratum. rewrite He. cbn [next_episode].
  assert (Hno : (0 <? rearm_secs p) && (sat_add u32_max (last_share e) (rearm_secs p) <=? t) = false).
  { apply andb_false_iff. destruct Hr as [->|Hr]; [by left | right]. apply Z.leb_gt. sat_lia. }
  rewrite Hno. destr_if; bools; cbn [fst snd].
  - split.
    + constructor. eexists. cbn. rewrite lookup_insert_eq. split; [done|]. cbn. unfold COARSE. conjs; lia || done.
    + unfold until, with_episode. cbn. by rewrite lookup_insert_eq.
  - split; [|unfold until; by rewrite He]. constructor. exists e. conjs; try done; unfold COARSE in *; sat_lia.
Qed.

(** Work that is not a stratum share of [id] leaves its clock alone. *)
Lemma other_work_clock b s d last id' t house :
  clock_at b s d last -> house && bool_decide (id' = id) = false ->
  clock_at (source_for b id' t house p).1 s d last.
Proof using enabled.
  intros [(e & He & H)] Hne. constructor. exists e. split; [|done].
  unfold source_for. rewrite enabled. cbn [negb]. destruct house; cbn [negb].
  - apply bool_decide_eq_false in Hne. unfold note_stratum.
    destruct (next_episode (stratum b !! id') _ _ _); cbn; [by rewrite lookup_insert_ne | done].
  - cbn [fst]. unfold note_datum. destruct (datum_seen b !! id'); [destr_if|]; done.
Qed.

Lemma steady_tags ws : forall b s d last,
  clock_at b s d last -> steady last ws -> Forall2 (tag_under (clock_end s d)) ws (tag_all b p ws).2.
Proof using enabled rearm.
  induction ws as [|[[id' t] house] ws IH]; intros b s d last Hc Hs; [by constructor|].
  cbn [tag_all steady] in *.
  destruct (house && bool_decide (id' = id)) eqn:E.
  - bools. subst id' house. destruct Hs as (Ht & Hr & Hs).
    destruct (note_stratum_steady b s d last t Hc Ht Hr) as [Hc' Hin].
    unfold source_for at 1. rewrite enabled. cbn [negb].
    destruct (note_stratum b id t p) as [b1 inside]. cbn [fst snd] in *. subst inside.
    specialize (IH b1 s d t Hc' Hs). destruct (tag_all b1 p ws) as [b2 tags]. cbn [snd] in *.
    constructor; [|done]. intros _ _. done.
  - pose proof (other_work_clock b s d last id' t house Hc E) as Hc'.
    destruct (source_for b id' t house p) as [b1 tag]. cbn [fst] in Hc'.
    specialize (IH b1 s d last Hc' Hs). destruct (tag_all b1 p ws) as [b2 tags]. cbn [snd] in *.
    constructor; [|done]. intros H1 H2. cbn in H1, H2. subst. by rewrite bool_decide_eq_true_2 in E.
Qed.
End Clock.

(** * Seeding *)

Section Seed.
Context (p : GraceParams).

Definition rows_in (cl : Seen -> bool) (id : string) (rows : list (Z * string * Seen))
    : list (Z * string * Seen) :=
  filter (fun r => r.1.2 = id /\ cl r.2 = true) rows.
Definition any_stratum (c : Seen) : bool :=
  match c with SeenStratum | SeenStratumGrace => true | _ => false end.
Definition full_fee (c : Seen) : bool := match c with SeenStratum => true | _ => false end.
Definition is_datum (c : Seen) : bool := match c with SeenDatum => true | _ => false end.

(** [e] spans the times of the rows. *)
Definition spans (rows : list (Z * string * Seen)) (e : Episode) : Prop :=
  (exists r, r ∈ rows /\ r.1.1 = start e) /\ (exists r, r ∈ rows /\ r.1.1 = last_share e) /\
  Forall (fun r => start e <= r.1.1 <= last_share e) rows.

Record seeded (rows : list (Z * string * Seen))
    (st : gmap string Episode * gmap string Z * gset string) : Prop := {
  sd_stratum : forall id, match st.1.1 !! id with
    | Some e => spans (rows_in any_stratum id rows) e
    | None => rows_in any_stratum id rows = []
    end;
  sd_datum : forall id, is_Some (st.1.2 !! id) <-> rows_in is_datum id rows <> [];
  sd_full : forall id, id ∈ st.2 <-> rows_in full_fee id rows <> []
}.

Lemma rows_in_snoc cl id rows r :
  rows_in cl id (rows ++ [r])
  = rows_in cl id rows ++ (if decide (r.1.2 = id /\ cl r.2 = true) then [r] else []).
Proof. unfold rows_in. rewrite filter_app, filter_cons, filter_nil. by destruct (decide _). Qed.

Lemma spans_snoc rows e t id c :
  spans rows e ->
  spans (rows ++ [(t, id, c)])
    {| start := Z.min (start e) t; last_share := Z.max (last_share e) t; datum := datum e |}.
Proof.
  intros ((r1 & H1 & E1) & (r2 & H2 & E2) & HF). unfold spans. cbn [start last_share].
  assert (Hnew : (t, id, c) ∈ rows ++ [(t, id, c)]) by (apply elem_of_app; right; left).
  split; [|split].
  - destruct (Z.min_spec (start e) t) as [[_ ->]|[_ ->]]; [|by eexists].
    exists r1. split; [apply elem_of_app; by left | done].
  - destruct (Z.max_spec (last_share e) t) as [[_ ->]|[_ ->]]; [by eexists|].
    exists r2. split; [apply elem_of_app; by left | done].
  - apply Forall_app. split; [|constructor; [cbn; lia | done]].
    eapply Forall_impl; [exact HF|]. cbn. intros. lia.
Qed.

Lemma spans_one t id c : spans [(t, id, c)] {| start := Z.min t t; last_share := Z.max t t; datum := false |}.
Proof.
  unfold spans. cbn [start last_share]. rewrite Z.min_id, Z.max_id.
  split; [exists (t, id, c); split; [left | done]|].
  split; [exists (t, id, c); split; [left | done]|]. constructor; [cbn; lia | done].
Qed.

Lemma seed_stratum_row rows (strat : gmap string Episode) id t c :
  any_stratum c = true ->
  (forall i, match strat !! i with
     | Some e => spans (rows_in any_stratum i rows) e | None => rows_in any_stratum i rows = [] end) ->
  let e := default {| start := t; last_share := t; datum := false |} (strat !! id) in
  forall i, match <[id := {| start := Z.min (start e) t; last_share := Z.max (last_share e) t;
                            datum := datum e |}]> strat !! i with
    | Some e' => spans (rows_in any_stratum i (rows ++ [(t, id, c)])) e'
    | None => rows_in any_stratum i (rows ++ [(t, id, c)]) = [] end.
Proof.
  intros Hc H e i. specialize (H i). rewrite rows_in_snoc. cbn [fst snd].
  destruct (decide (id = i)) as [<-|Hne].
  - rewrite lookup_insert_eq, decide_True by done. subst e.
    destruct (strat !! id) as [e|]; cbn [default]; [by apply spans_snoc|]. rewrite H. apply spans_one.
  - rewrite lookup_insert_ne by done. rewrite decide_False by tauto. by rewrite app_nil_r.
Qed.

Lemma snoc_not_nil {A} (l : list A) x : l ++ [x] <> [].
Proof. by destruct l. Qed.

Lemma seed_row_ok rows st r : seeded rows st -> seeded (rows ++ [r]) (seed_row st r).
Proof.
  intros [Hs Hd Hf]. destruct st as [[strat seen] full], r as [[t id] c]. cbn [fst snd] in *.
  assert (Hs0 : any_stratum c = false -> forall i, match strat !! i with
     | Some e => spans (rows_in any_stratum i (rows ++ [(t, id, c)])) e
     | None => rows_in any_stratum i (rows ++ [(t, id, c)]) = [] end).
  { intros Hc i. rewrite rows_in_snoc, decide_False, app_nil_r by (cbn; rewrite Hc; by intros [_ ?]). apply Hs. }
  assert (Hd0 : is_datum c = false -> forall i,
     is_Some (seen !! i) <-> rows_in is_datum i (rows ++ [(t, id, c)]) <> []).
  { intros Hc i. rewrite rows_in_snoc, decide_False, app_nil_r by (cbn; rewrite Hc; by intros [_ ?]). apply Hd. }
  assert (Hf0 : full_fee c = false -> forall i,
     i ∈ full <-> rows_in full_fee i (rows ++ [(t, id, c)]) <> []).
  { intros Hc i. rewrite rows_in_snoc, decide_False, app_nil_r by (cbn; rewrite Hc; by intros [_ ?]). apply Hf. }
  destruct c; cbn [seed_row]; constructor; cbn [fst snd]; auto; try (by apply seed_stratum_row).
  - intros i. rewrite decide_True by done. rewrite elem_of_union, elem_of_singleton, Hf, rows_in_snoc. cbn.
    destruct (decide (i = id)) as [->|Hne].
    + rewrite decide_True by done. split; [intros _; apply snoc_not_nil | by left].
    + rewrite decide_False by (intros [? _]; congruence). rewrite app_nil_r.
      split; [intros [?|?]; done | by right].
  - by apply Hs0.
  - intros i. rewrite rows_in_snoc. cbn. destruct (decide (id = i)) as [<-|Hne].
    + rewrite lookup_insert_eq, decide_True by done. split; [intros _; apply snoc_not_nil | by eexists].
    + rewrite lookup_insert_ne by done. rewrite decide_False by (intros [? _]; congruence).
      rewrite app_nil_r. apply Hd.
  - by apply Hs0.
Qed.

Lemma seed_rows_ok rows' : forall rows st,
  seeded rows st -> seeded (rows ++ rows') (foldl seed_row st rows').
Proof.
  induction rows' as [|r rows' IH]; intros rows st H; cbn [foldl]; [by rewrite app_nil_r|].
  replace (rows ++ r :: rows') with ((rows ++ [r]) ++ rows') by by rewrite <- app_assoc.
  by apply IH, seed_row_ok.
Qed.

Lemma seeded_nil : seeded [] (∅, ∅, ∅).
Proof.
  constructor; intros id; cbn [fst snd].
  - by rewrite lookup_empty.
  - rewrite lookup_empty. split; [by intros [? ?] | done].
  - split; [intros H; by apply elem_of_empty in H | done].
Qed.
End Seed.

(** * Properties *)

Definition demo_grace : GraceParams :=
  {| secs := 3600; datum_secs := 259200; rearm_secs := 2592000; epoch := 1700000000 |}.

(** Pruning never changes a later answer: whatever work arrives from the pruning on, every
    share is tagged with the fee class the book would have given it without the pruning. *)
Theorem grace_prune_invisible p now b ws :
  grace_enabled p = true -> 0 <= secs p -> 0 <= datum_secs p -> 0 <= rearm_secs p ->
  0 <= now < u32_max -> book_times_ok b -> Forall (fun w : Work => now <= w.1.2) ws ->
  (tag_all (prune_grace b now p) p ws).2 = (tag_all b p ws).2.
Proof.
  intros Hen Hs Hd Hr Hnow Hb HF. unfold prune_grace. rewrite Hen.
  apply (pruned_tags p now Hnow Hen (conj Hs (conj Hd Hr))); [|done|done].
  by apply prune_pruned.
Qed.

Definition demo_book : GraceBook :=
  (tag_all grace_empty demo_grace
     [("alice"%string, 1700000100, true); ("bob"%string, 1700000200, false)]).1.

Lemma grace_prune_invisible_witness :
  (tag_all (prune_grace demo_book 1710000000 demo_grace) demo_grace
     [("alice"%string, 1710000100, true); ("bob"%string, 1710000200, true)]).2
  = (tag_all demo_book demo_grace
       [("alice"%string, 1710000100, true); ("bob"%string, 1710000200, true)]).2 /\
  stratum (prune_grace demo_book 1710000000 demo_grace) = ∅.
Proof.
  split; [|vm_compute; reflexivity].
  apply grace_prune_invisible; try reflexivity; try (cbn; lia).
  - apply (bool_decide_unpack _). vm_compute. exact I.
  - repeat (apply Forall_cons; split); try apply Forall_nil; cbn; done || lia.
Defined.

(** An address's clock is fixed when its first house-stratum share arrives: as long as it
    keeps mining there without a pause that re-arms it, each of its shares is in the grace
    exactly until the end set by that first share, with the longer grace only if DATUM work was
    already seen then. Nothing credited afterwards, by it or by others, moves that end. *)
Theorem grace_clock_fixed p b id t0 ws :
  grace_enabled p = true -> 0 <= rearm_secs p -> stratum b !! id = None ->
  steady p id t0 ws ->
  Forall2 (tag_under id (clock_end p t0 (on_datum b id t0))) ws
    (tag_all (source_for b id t0 true p).1 p ws).2.
Proof.
  intros Hen Hr Hnone Hs. apply (steady_tags p id Hen Hr ws _ _ _ t0); [|done].
  constructor. unfold source_for, note_stratum. rewrite Hen, Hnone. cbn [negb next_episode].
  cbn; rewrite lookup_insert_eq; eexists; (split; [done|]);
    cbn; unfold COARSE; conjs; done || lia.
Qed.

Lemma grace_clock_fixed_witness :
  Forall2 (tag_under "alice" (clock_end demo_grace 1700000000 false))
    [("alice"%string, 1700000050, true); ("alice"%string, 1700000090, false);
     ("alice"%string, 1700003700, true)]
    [SOURCE_STRATUM_GRACE; SOURCE_DATUM; SOURCE_STRATUM].
Proof.
  apply (grace_clock_fixed demo_grace grace_empty "alice" 1700000000
    [("alice"%string, 1700000050, true); ("alice"%string, 1700000090, false);
     ("alice"%string, 1700003700, true)]); try reflexivity.
  - cbn. lia.
  - cbn. rewrite bool_decide_eq_true_2 by done. unfold COARSE. lia.
Defined.

(** A book rebuilt from a window gives a clock to exactly the addresses with house-stratum
    rows: it starts at the configured epoch if one of them was charged the full fee, at the
    oldest of them otherwise, and has the longer grace exactly if the address has DATUM rows. *)
Theorem grace_seed_from_rows p rows id :
  match stratum (seed grace_empty rows p) !! id with
  | None => rows_in any_stratum id rows = []
  | Some e =>
      exists e0, spans (rows_in any_stratum id rows) e0 /\
        start e = (if (0 <? epoch p) && bool_decide (rows_in full_fee id rows <> [])
                   then epoch p else start e0) /\
        (datum e = true <-> rows_in is_datum id rows <> [])
  end.
Proof.
  unfold seed. pose proof (seed_rows_ok rows [] _ seeded_nil) as H. cbn [app] in H.
  cbn [stratum datum_seen grace_empty].
  destruct (foldl seed_row (∅, ∅, ∅) rows) as [[strat seen] full].
  destruct H as [Hs Hd Hf]. cbn [fst snd stratum] in *. rewrite map_lookup_imap.
  specialize (Hs id). destruct (strat !! id) as [e0|]; cbn; [|done]. exists e0. split; [done|].
  specialize (Hf id). specialize (Hd id).
  assert (Hdat : datum (seed_clock seen full p id e0) = true <-> rows_in is_datum id rows <> []).
  { rewrite <- Hd. unfold seed_clock. destruct (_ && _); cbn; by rewrite bool_decide_eq_true. }
  split; [|done]. unfold seed_clock.
  destruct (0 <? epoch p); cbn [andb]; [|done].
  destruct (bool_decide (id ∈ full)) eqn:E; bools.
  - rewrite (bool_decide_eq_true_2 (rows_in full_fee id rows <> [])); [done | by apply Hf].
  - rewrite (bool_decide_eq_false_2 (rows_in full_fee id rows <> [])); [done|]. intros H. apply E. by apply Hf.
Qed.
