(* ===== verification/Ledger.v ===== *)
(** The ledger around a window: found blocks booked in two steps and undone, balances set aside
    for hand-made payments, and the operations a Prime calls ([Ledger] and [Books] of
    [prime/tides/src/lib.rs]).

    The files are modelled by what has been handed to them: the identity lines and the credit
    rows, in order. *)

From S2P Require Import Prelude Tides Split Window Grace.
Open Scope Z_scope.

(** * Data *)

(** A found block's effect on the ledger. *)
Record Books := {
  bk_owed_credited : Z;
  bk_deferred : Z;
  debits_live : bool;
  debited : list (string * Z);
  rebate_debited : Z;
  credits_live : bool;
  credited_sats : list (string * Z);
  rebate_added : Z;
  shortfall : list (string * Z);
  debt_paid : list (string * Z)
}.

(** [Books::new]. *)
Definition books_new (owed_credited deferred : Z) : Books := {|
  bk_owed_credited := owed_credited; bk_deferred := deferred; debits_live := false; debited := [];
  rebate_debited := 0; credits_live := false; credited_sats := []; rebate_added := 0;
  shortfall := []; debt_paid := [] |}.

(** A block the pool's coinbase paid, for the record. *)
Record BlockRecord := {
  br_ts : Z;
  br_height : Z;
  br_hash : string;
  br_finder : option string;
  br_coinbase_value : Z;
  br_kind : string;
  br_owed_sats : Z;
  br_split : list (string * Z);
  br_pool_sats : Z;
  br_carry_paid : Z;
  br_carry_delta : list (string * Z);
  br_rebate_credited : Z;
  br_rebate_delta : Z;
  br_settled : bool;
  br_submit : string;
  br_gateway : string;
  br_books : option Books;
  br_carry_shortfall_sats : Z;
  br_carry_reserved_sats : Z
}.

Record HoldSkip := { hs_identity : string; hs_requested : Z; hs_carry : Z; hs_reason : string }.

Record Ledger := {
  l_window : Window;
  credits_out : list Credit;
  idents_out : list string;
  rows_on_disk : Z;
  dirty : bool;
  applied_debits : gset string;
  debits_tracked : bool;
  l_grace : GraceBook;
  grace_loaded : bool
}.

(** ** Field updates *)

(** The ledger after an operation that moved its window, with what was written to the identity
    file, flush pending. *)
Definition touched (l : Ledger) (w : Window) (lines : list string) : Ledger := {|
  l_window := w; credits_out := credits_out l; idents_out := idents_out l ++ lines;
  rows_on_disk := rows_on_disk l; dirty := true; applied_debits := applied_debits l;
  debits_tracked := debits_tracked l; l_grace := l_grace l; grace_loaded := grace_loaded l |}.
Definition with_applied (l : Ledger) (a : gset string) : Ledger := {|
  l_window := l_window l; credits_out := credits_out l; idents_out := idents_out l;
  rows_on_disk := rows_on_disk l; dirty := true; applied_debits := a;
  debits_tracked := true; l_grace := l_grace l; grace_loaded := grace_loaded l |}.
Definition with_grace (l : Ledger) (g : GraceBook) (d loaded : bool) : Ledger := {|
  l_window := l_window l; credits_out := credits_out l; idents_out := idents_out l;
  rows_on_disk := rows_on_disk l; dirty := d; applied_debits := applied_debits l;
  debits_tracked := debits_tracked l; l_grace := g; grace_loaded := loaded |}.

(** [!self.window.ident_index.contains_key(identity)]: the line to write when it is new. *)
Definition new_line (w : Window) (identity : string) : list string :=
  match index_of w identity with Some _ => [] | None => [identity] end.

(** * Settling a block in one step *)

Definition settle_one (st : Window * list string * list (string * Z)) (e : string * Z)
    : Window * list string * list (string * Z) :=
  let '(w, lines, out) := st in
  if e.2 =? 0 then st else
  let '(w', new) := if 0 <? e.2 then restore_carry w e.1 e.2 else adjust_carry w e.1 e.2 in
  (w', lines ++ new_line w e.1, out ++ [(e.1, new)]).

(** [Ledger::settle_carry]: the ledger and the identities touched with their new carry. *)
Definition settle_carry (l : Ledger) (delta : list (string * Z)) : Ledger * list (string * Z) :=
  let '(w, lines, out) := foldl settle_one (l_window l, [], []) delta in
  (if forallb (fun e => e.2 =? 0) delta then l else touched l w lines, out).

(** [Ledger::settle_rebate]. *)
Definition settle_rebate (l : Ledger) (delta : Z) : Ledger * Z :=
  if delta =? 0 then (l, rebate_owed (l_window l))
  else let w := adjust_rebate_owed (l_window l) delta in (touched l w [], rebate_owed w).

(** * Booking a block in two steps *)

(** One debit: carry first, then what a hold has of it, then a debt. *)
Definition book_debit (st : Window * list (string * Z) * list (string * Z)) (e : string * Z)
    : Window * list (string * Z) * list (string * Z) :=
  let '(w, deb, sh) := st in
  let '(id, d) := e in
  let before := carry_of w id in
  let '(w, after) := adjust_carry w id d in
  let moved := before - after in
  let short := sat_sub (- d) moved in
  let '(w, drawn) := if 0 <? short then draw_from_holds w id short else (w, 0) in
  let moved := moved + drawn in
  let deb := if 0 <? moved then deb ++ [(id, moved)] else deb in
  let overpaid := sat_sub (- d) moved in
  if 0 <? overpaid then (accrue_debt w id overpaid, deb, sh ++ [(id, overpaid)]) else (w, deb, sh).

(** [Ledger::book_debits] on the window and the block's books. *)
Definition book_debits (w : Window) (delta : list (string * Z)) (b : Books) : Window * Books :=
  if debits_live b then (w, b) else
  let '(w, deb, sh) := foldl book_debit (w, [], []) (filter (fun e => e.2 < 0) delta) in
  let w' := adjust_rebate_owed w (- clamp_i64 (bk_owed_credited b)) in
  (w', {| bk_owed_credited := bk_owed_credited b; bk_deferred := bk_deferred b; debits_live := true;
          debited := deb; rebate_debited := rebate_owed w - rebate_owed w';
          credits_live := credits_live b; credited_sats := credited_sats b;
          rebate_added := rebate_added b; shortfall := sh; debt_paid := debt_paid b |}).

(** One credit: the debt first, the rest as carry. *)
Definition book_credit (st : Window * list (string * Z) * list (string * Z) * list string)
    (e : string * Z) : Window * list (string * Z) * list (string * Z) * list string :=
  let '(w, cr, dp, lines) := st in
  let '(id, earn) := e in
  let lines := lines ++ new_line w id in
  let '(w, paid_down) := reduce_debt w id earn in
  let dp := if 0 <? paid_down then dp ++ [(id, paid_down)] else dp in
  let onto := earn - paid_down in
  let before := carry_of w id in
  let '(w, after) := if 0 <? onto then adjust_carry w id (clamp_i64 onto) else (w, before) in
  (w, if before <? after then cr ++ [(id, after - before)] else cr, dp, lines).

(** [Ledger::book_credits] on the window, the block's books and the identity lines. *)
Definition book_credits (w : Window) (delta : list (string * Z)) (b : Books)
    : Window * Books * list string :=
  if credits_live b then (w, b, []) else
  let '(w, cr, dp, lines) := foldl book_credit (w, [], [], []) (filter (fun e => 0 < e.2) delta) in
  let w' := adjust_rebate_owed w (clamp_i64 (bk_deferred b)) in
  (w', {| bk_owed_credited := bk_owed_credited b; bk_deferred := bk_deferred b;
          debits_live := debits_live b; debited := debited b; rebate_debited := rebate_debited b;
          credits_live := true; credited_sats := cr; rebate_added := rebate_owed w' - rebate_owed w;
          shortfall := shortfall b; debt_paid := dp |}, lines).

Definition unbook_credit (st : Window * Z) (e : string * Z) : Window * Z :=
  let '(w, short) := st in
  let before := carry_of w e.1 in
  let '(w, after) := adjust_carry w e.1 (- clamp_i64 e.2) in
  (w, sat_add u64_max short (e.2 - (before - after))).

(** [Ledger::unbook]: the window, the books, and what could not be taken back. *)
Definition unbook (w : Window) (b : Books) : Window * Books * Z :=
  let '(w, b, short) :=
    if credits_live b then
      let '(w, short) := foldl unbook_credit (w, 0) (credited_sats b) in
      let w := foldl (fun w e => restore_debt w e.1 e.2) w (debt_paid b) in
      (adjust_rebate_owed w (- clamp_i64 (rebate_added b)),
       {| bk_owed_credited := bk_owed_credited b; bk_deferred := bk_deferred b;
          debits_live := debits_live b; debited := debited b; rebate_debited := rebate_debited b;
          credits_live := false; credited_sats := []; rebate_added := 0;
          shortfall := shortfall b; debt_paid := [] |}, short)
    else (w, b, 0) in
  if debits_live b then
    let w := foldl (fun w e => (restore_carry w e.1 e.2).1) w (debited b) in
    let w := foldl (fun w e => forgive_debt w e.1 e.2) w (shortfall b) in
    (adjust_rebate_owed w (clamp_i64 (rebate_debited b)),
     {| bk_owed_credited := bk_owed_credited b; bk_deferred := bk_deferred b;
        debits_live := false; debited := []; rebate_debited := 0;
        credits_live := credits_live b; credited_sats := credited_sats b;
        rebate_added := rebate_added b; shortfall := []; debt_paid := debt_paid b |}, short)
  else (w, b, short).

(** The same on the ledger. *)
Definition ledger_book_debits (l : Ledger) (delta : list (string * Z)) (b : Books) : Ledger * Books :=
  if debits_live b then (l, b)
  else let '(w, b') := book_debits (l_window l) delta b in (touched l w [], b').
Definition ledger_book_credits (l : Ledger) (delta : list (string * Z)) (b : Books) : Ledger * Books :=
  if credits_live b then (l, b)
  else let '(w, b', lines) := book_credits (l_window l) delta b in (touched l w lines, b').
Definition ledger_unbook (l : Ledger) (b : Books) : Ledger * Books * Z :=
  let '(w, b', short) := unbook (l_window l) b in (touched l w [], b', short).

(** * Holds *)

(** [x as i64] and its negation. *)
Definition as_i64 (x : Z) : Z := if x <=? i64_max then x else x - (u64_max + 1).
Definition neg_i64 (x : Z) : panics Z := if x =? - (i64_max + 1) then Panic else Ret (- x).

(** Why a requested entry is not held, if it is not. *)
Definition hold_refusal (stale : gmap string Z) (held : list (string * Z)) (e : string * Z)
    : option string :=
  if existsb (fun h => bool_decide (h.1 = e.1)) held then Some "listed twice"%string
  else if e.2 =? 0 then Some "nothing requested"%string
  else match stale !! e.1 with
       | None => Some "not stale"%string
       | Some have => if have =? e.2 then None else Some "balance changed"%string
       end.

Definition hold_one (stale : gmap string Z) (st : Window * list (string * Z) * list HoldSkip)
    (e : string * Z) : panics (Window * list (string * Z) * list HoldSkip) :=
  let '(w, held, skipped) := st in
  match hold_refusal stale held e with
  | Some reason =>
      Ret (w, held, skipped ++ [{| hs_identity := e.1; hs_requested := e.2;
                                   hs_carry := carry_of w e.1; hs_reason := reason |}])
  | None =>
      d ← neg_i64 (as_i64 e.2);
      Ret ((adjust_carry w e.1 d).1, held ++ [e], skipped)
  end.

Fixpoint hold_all (stale : gmap string Z) (st : Window * list (string * Z) * list HoldSkip)
    (es : list (string * Z)) : panics (Window * list (string * Z) * list HoldSkip) :=
  match es with
  | [] => Ret st
  | e :: es' => st' ← hold_one stale st e; hold_all stale st' es'
  end.

(** [collect] into a map: of two entries with the same name the later one stands. *)
Definition stale_map (l : list StaleCarry) : gmap string Z :=
  foldl (fun m s => <[sc_identity s := sc_sats s]> m) ∅ l.

(** [Ledger::hold_carry]. *)
Definition hold_carry (w : Window) (batch : string) (es : list (string * Z))
    (now after min tip_height ready : Z)
    : panics (result string (Window * list (string * Z) * list HoldSkip)) :=
  match holds w !! batch with
  | Some _ => Ret (Err "a hold with this id exists"%string)
  | None =>
      stale ← stale_carries w now after min;
      '(w', held, skipped) ← hold_all (stale_map stale) (w, [], []) es;
      Ret (Ok (match held with
               | [] => w'
               | _ => with_holds w' (<[batch := {| created_ts := now; hold_height := tip_height;
                                                   ready_height := ready; entries := held |}]> (holds w'))
               end, held, skipped))
  end.

(** [Ledger::release_hold] and [Ledger::finish_hold]. *)
Definition release_hold (w : Window) (batch : string) : option (Window * list (string * Z)) :=
  match holds w !! batch with
  | None => None
  | Some h =>
      Some (foldl (fun w e => (restore_carry w e.1 e.2).1) (with_holds w (delete batch (holds w)))
              (entries h), entries h)
  end.
Definition finish_hold (w : Window) (batch : string) : option (Window * list (string * Z)) :=
  match holds w !! batch with
  | None => None
  | Some h => Some (with_holds w (delete batch (holds w)), entries h)
  end.

(** The three on the ledger around the window, which is to be flushed when balances moved. *)
Definition ledger_hold_carry (l : Ledger) (batch : string) (es : list (string * Z))
    (now after min tip_height ready : Z)
    : panics (result string (Ledger * list (string * Z) * list HoldSkip)) :=
  r ← hold_carry (l_window l) batch es now after min tip_height ready;
  Ret (match r with
       | Ok (w, held, skipped) => Ok (match held with [] => l | _ => touched l w [] end, held, skipped)
       | Err e => Err e
       end).
Definition ledger_release_hold (l : Ledger) (batch : string) : option (Ledger * list (string * Z)) :=
  '(w, es) ← release_hold (l_window l) batch; Some (touched l w [], es).
Definition ledger_finish_hold (l : Ledger) (batch : string) : option (Ledger * list (string * Z)) :=
  '(w, es) ← finish_hold (l_window l) batch; Some (touched l w [], es).

(** * Other operations *)

Definition ledger_set_last_seen (l : Ledger) (identity : string) (t : Z) : Ledger :=
  match index_of (l_window l) identity with
  | Some _ => touched l (set_last_seen (l_window l) identity t) []
  | None => l
  end.
Definition ledger_set_rebate_owed (l : Ledger) (sats : Z) : Ledger :=
  touched l (set_rebate_owed (l_window l) sats) [].
Definition ledger_set_carry (l : Ledger) (identity : string) (sats : Z) : Ledger :=
  touched l (set_carry (l_window l) identity sats) (new_line (l_window l) identity).
Definition ledger_set_target (l : Ledger) (t : Z) : Ledger :=
  if target_work (l_window l) =? t then l else touched l (set_target (l_window l) t) [].

(** [Ledger::credit]: one row, handed to the file as it is stored. *)
Definition ledger_credit (l : Ledger) (identity : string) (wk h t src : Z) : panics Ledger :=
  '(w, row) ← credit_row (l_window l) identity wk h t src;
  rows ← chk_add u64_max (rows_on_disk l) 1;
  Ret {| l_window := w; credits_out := credits_out l ++ [row];
         idents_out := idents_out l ++ new_line (l_window l) identity;
         rows_on_disk := rows; dirty := true; applied_debits := applied_debits l;
         debits_tracked := debits_tracked l; l_grace := l_grace l; grace_loaded := grace_loaded l |}.

(** [Ledger::source_for], [Ledger::seed_grace] and [Ledger::prune_grace]. *)
Definition ledger_source_for (l : Ledger) (identity : string) (t : Z) (house : bool)
    (p : GraceParams) : Ledger * Z :=
  let '(g, tag) := source_for (l_grace l) identity t house p in
  (with_grace l g (dirty l) (grace_loaded l), tag).

Definition seed_rows (w : Window) : panics (list (Z * string * Seen)) :=
  mapM (fun c => s ← ident_name w (ident c); Ret (ts c, s, row_class (source c))) (credits w).
Definition seed_grace (l : Ledger) (p : GraceParams) : panics (Ledger * option nat) :=
  if negb (grace_enabled p) || grace_loaded l then Ret (l, None) else
  rows ← seed_rows (l_window l);
  let g := seed (l_grace l) rows p in
  Ret (with_grace l g true true, Some (size (stratum g))).
Definition ledger_prune_grace (l : Ledger) (now : Z) (p : GraceParams) : Ledger :=
  with_grace l (prune_grace (l_grace l) now p) (dirty l) (grace_loaded l).

(** * Debits and the block log *)

(** [Ledger::note_debit_applied]. *)
Definition note_debit_applied (l : Ledger) (hash : string) : Ledger :=
  if negb (bool_decide (hash ∈ applied_debits l)) || negb (debits_tracked l)
  then with_applied l ({[hash]} ∪ applied_debits l) else l.

Definition books_live (b : BlockRecord) : bool :=
  match br_books b with Some k => debits_live k | None => false end.

(** [Ledger::adopt_legacy_debits]. *)
Definition adopt_legacy_debits (l : Ledger) (blocks : list BlockRecord) : Ledger :=
  if debits_tracked l then l
  else with_applied l (foldl (fun a b => if books_live b then {[br_hash b]} ∪ a else a)
                         (applied_debits l) blocks).

(** [Ledger::reconcile_debits], one block. *)
Definition reconcile_books (w : Window) (k : Books) : Window :=
  let w := foldl (fun w e => (adjust_carry w e.1 (- clamp_i64 e.2)).1) w (debited k) in
  let w := adjust_rebate_owed w (- clamp_i64 (rebate_debited k)) in
  foldl (fun w e => accrue_debt w e.1 e.2) w (shortfall k).
Definition reconcile_one (l : Ledger) (b : BlockRecord) : Ledger :=
  match br_books b with
  | None => l
  | Some k =>
      if negb (debits_live k) || bool_decide (br_hash b ∈ applied_debits l) then l
      else let l := touched l (reconcile_books (l_window l) k) [] in
           {| l_window := l_window l; credits_out := credits_out l; idents_out := idents_out l;
              rows_on_disk := rows_on_disk l; dirty := true;
              applied_debits := {[br_hash b]} ∪ applied_debits l;
              debits_tracked := debits_tracked l; l_grace := l_grace l; grace_loaded := grace_loaded l |}
  end.
Definition reconcile_debits (l : Ledger) (blocks : list BlockRecord) : Ledger :=
  if debits_tracked l then foldl reconcile_one l blocks else l.
