(* ===== verification/LedgerFacts.v ===== *)
(** What booking, unbooking and holding do to each identity's position: its carry, plus what is
    held for it, less its debt. *)

From S2P Require Import Prelude Tides Split SplitFacts Window WindowFacts BalanceFacts Grace Ledger.
Open Scope Z_scope.

(** * Positions *)

Definition net (w : Window) (s : string) : Z := carry_of w s + held_of w s - debt_of w s.

(** Every satoshi on the books, in one account or another. *)
Definition stock (w : Window) : Z := msum (carry w) + fsum hold_total (holds w) + msum (debt w).

(** Room for [n] new identities and [amount] more satoshis, under the 2^63 the signed amounts of
    the block log allow (the coin's whole supply is below 2^51). *)
Definition room (w : Window) (n : nat) (amount : Z) : Prop :=
  spare n w /\ stock w + amount <= i64_max.

(** Nobody has a balance to be paid out beside a debt still to be collected. *)
Definition solvent (w : Window) : Prop := forall s, carry_of w s = 0 \/ debt_of w s = 0.

(** The effect of operations on a window: [f] per identity, at most [ds] more on the books, at
    most [n] new identities; the rows and the owed rebate stay. *)
Record effects (w w' : Window) (f : string -> Z) (ds : Z) (n : nat) : Prop := {
  ef_ok : window_ok w';
  ef_net : forall s, net w' s = net w s + f s;
  ef_stock : stock w' <= stock w + ds;
  ef_same : forall s j, ident_index w !! s = Some j -> ident_index w' !! s = Some j;
  ef_len : (length (idents w') <= length (idents w) + n)%nat;
  ef_rows : credits w' = credits w /\ totals w' = totals w /\ total_work w' = total_work w;
  ef_solvent : solvent w -> solvent w'
}.

Lemma effects_refl w : window_ok w -> effects w w (fun _ => 0) 0 0.
Proof. intros OK. constructor; try done; intros; lia. Qed.

Lemma effects_trans w w1 w2 f1 f2 d1 d2 n1 n2 :
  effects w w1 f1 d1 n1 -> effects w1 w2 f2 d2 n2 ->
  effects w w2 (fun s => f1 s + f2 s) (d1 + d2) (n1 + n2).
Proof.
  intros [O1 N1 S1 I1 L1 (A1 & B1 & C1) V1] [O2 N2 S2 I2 L2 (A2 & B2 & C2) V2].
  constructor; [done | | lia | eauto | lia | conjs; congruence | auto].
  intros s. rewrite N2, N1. lia.
Qed.

Lemma effects_ext w w' f f' ds ds' n n' :
  effects w w' f ds n -> (forall s, f s = f' s) -> ds <= ds' -> (n <= n')%nat ->
  effects w w' f' ds' n'.
Proof.
  intros [O N S I L A V] Hf Hd Hn. constructor; try done; try lia. intros s. by rewrite N, Hf.
Qed.

Lemma effects_spare w w' f ds n k : effects w w' f ds n -> spare (n + k) w -> spare k w'.
Proof. intros [_ _ _ _ L _ _] H. unfold spare in *. lia. Qed.

Lemma effects_room w w' f ds n k a :
  effects w w' f ds n -> room w (n + k) (ds + a) -> room w' k a.
Proof.
  intros E [H1 H2]. split; [by eapply effects_spare|]. pose proof (ef_stock _ _ _ _ _ E). lia.
Qed.

Lemma effects_known w w' f ds n s :
  effects w w' f ds n -> is_Some (ident_index w !! s) -> is_Some (ident_index w' !! s).
Proof. intros E [j Hj]. exists j. by apply (ef_same _ _ _ _ _ E). Qed.

(** ** Balances against the stock *)

Lemma msum_ge (m : gmap Z Z) i : map_Forall (fun _ v => 0 <= v) m -> lookup0 m i <= msum m.
Proof.
  intros H. unfold msum, lookup0. destruct (m !! i) as [v|] eqn:E; cbn.
  - apply (zsum_map_elem_le snd _ (i, v)); [|by apply elem_of_map_to_list].
    intros [j u] Hin. apply elem_of_map_to_list in Hin. by apply H in Hin.
  - apply zsum_map_nonneg. intros [j u] Hin. apply elem_of_map_to_list in Hin. by apply H in Hin.
Qed.

Lemma balances_nonneg w (m : gmap Z Z) :
  map_Forall (balance_ok w) m -> map_Forall (fun _ v => 0 <= v) m.
Proof. intros H. eapply map_Forall_impl; [exact H|]. intros i v [_ ?]. lia. Qed.

Lemma named_le_msum w (m : gmap Z Z) s : map_Forall (fun _ v => 0 <= v) m -> of_identity w m s <= msum m.
Proof.
  intros H. unfold of_identity. destruct (ident_index w !! s); [by apply msum_ge|].
  apply zsum_map_nonneg. intros [j u] Hin. apply elem_of_map_to_list in Hin. by apply H in Hin.
Qed.

Lemma holds_nonneg w : window_ok w -> 0 <= fsum hold_total (holds w).
Proof.
  intros OK. apply fsum_nonneg. eapply map_Forall_impl; [apply OK|]. cbn. intros b h Hh.
  apply zsum_map_nonneg. intros e He. apply hold_ok_nonneg in Hh.
  eapply Forall_forall in Hh; [|exact He]. done.
Qed.

Lemma stock_bounds w s :
  window_ok w ->
  0 <= carry_of w s <= stock w /\ 0 <= debt_of w s <= stock w /\
  carry_of w s + debt_of w s <= stock w.
Proof.
  intros OK. pose proof (carry_of_range w s OK) as Hc. pose proof (debt_of_range w s OK) as Hd.
  pose proof (named_le_msum w _ s (balances_nonneg _ _ (wo_carry _ OK))) as H1.
  pose proof (named_le_msum w _ s (balances_nonneg _ _ (wo_debt _ OK))) as H2.
  pose proof (holds_nonneg w OK). change (of_identity w (carry w) s) with (carry_of w s) in H1.
  change (of_identity w (debt w) s) with (debt_of w s) in H2.
  unfold stock, in_range in *. lia.
Qed.

Lemma held_nonneg w s : window_ok w -> 0 <= held_of w s.
Proof.
  intros OK. apply fsum_nonneg. eapply map_Forall_impl; [apply OK|]. cbn. intros b h Hh.
  by eapply hold_of_nonneg.
Qed.

(** A movement of one identity's money, as an effect. *)
Lemma moved_effects w id c d w' (f : string -> Z) ds :
  moved w id c d w' ->
  (forall s, f s = if decide (s = id) then (c - carry_of w id) - (d - debt_of w id) else 0) ->
  c - carry_of w id + (d - debt_of w id) <= ds ->
  (carry_of w id = 0 \/ debt_of w id = 0 -> c = 0 \/ d = 0) ->
  effects w w' f ds 1.
Proof.
  intros M Hf Hds Hv. constructor; try apply M.
  - intros s. rewrite Hf. unfold net, held_of. rewrite (mv_holds _ _ _ _ _ M).
    rewrite (mv_carry _ _ _ _ _ M), (mv_debt _ _ _ _ _ M).
    destruct (decide (s = id)) as [->|]; lia.
  - unfold stock. rewrite (mv_holds _ _ _ _ _ M), (mv_total_carry _ _ _ _ _ M),
      (mv_total_debt _ _ _ _ _ M). lia.
  - destruct (mv_len _ _ _ _ _ M) as [->|[-> _]]; lia.
  - intros V s. rewrite (mv_carry _ _ _ _ _ M), (mv_debt _ _ _ _ _ M).
    destruct (decide (s = id)) as [->|]; auto.
Qed.

Lemma moved_effects_known w id c d w' (f : string -> Z) ds :
  moved w id c d w' -> is_Some (ident_index w !! id) ->
  (forall s, f s = if decide (s = id) then (c - carry_of w id) - (d - debt_of w id) else 0) ->
  c - carry_of w id + (d - debt_of w id) <= ds ->
  (carry_of w id = 0 \/ debt_of w id = 0 -> c = 0 \/ d = 0) ->
  effects w w' f ds 0.
Proof.
  intros M [j Hj] Hf Hds Hv. destruct (moved_effects w id c d w' f ds M Hf Hds Hv).
  constructor; try done.
  destruct (mv_len _ _ _ _ _ M) as [->|(_ & E & _)]; [lia | congruence].
Qed.

(** An amount for one identity. *)
Definition one (id : string) (x : Z) (s : string) : Z := if decide (s = id) then x else 0.

Lemma entries_of_one s id x : entries_of s [(id, x)] = one id x s.
Proof.
  rewrite entries_of_cons. unfold one, entries_of. cbn.
  destruct (decide (id = s)), (decide (s = id)); congruence || lia.
Qed.

Lemma entries_of_app s l1 l2 : entries_of s (l1 ++ l2) = entries_of s l1 + entries_of s l2.
Proof. unfold entries_of. by rewrite filter_app, map_app, zsum_app. Qed.

(** Drawing on holds, as an effect. *)
Lemma draw_effects w id sats :
  window_ok w -> 0 <= sats ->
  (draw_from_holds w id sats).2 = Z.min sats (held_of w id) /\
  effects w (draw_from_holds w id sats).1
    (one id (- Z.min sats (held_of w id))) (- Z.min sats (held_of w id)) 0 /\
  (forall s, carry_of (draw_from_holds w id sats).1 s = carry_of w s) /\
  (forall s, debt_of (draw_from_holds w id sats).1 s = debt_of w s) /\
  rebate_owed (draw_from_holds w id sats).1 = rebate_owed w.
Proof.
  intros OK Hs. pose proof (draw_from_holds_ok w id sats OK Hs) as H.
  destruct (draw_from_holds w id sats) as [w' taken]; cbn [fst snd].
  destruct H as (-> & OK' & (hs & ->) & Hh & Ht). split; [done|]. split; [|done].
  constructor; try done.
  - intros s. unfold net. rewrite Hh. unfold one, carry_of, debt_of, of_identity. cbn.
    destruct (decide (s = id)); lia.
  - unfold stock. rewrite Ht. cbn. lia.
  - cbn. lia.
Qed.

(** * Debits *)

Definition pos_entry (id : string) (x : Z) : list (string * Z) := if 0 <? x then [(id, x)] else [].

Lemma entries_of_pos s id x : 0 <= x -> entries_of s (pos_entry id x) = one id x s.
Proof.
  intros Hx. unfold pos_entry. destr_if; bools; [apply entries_of_one|].
  replace x with 0 by lia. unfold one. by destruct (decide _).
Qed.

(** Entries the books may record: positive amounts of known identities. *)
Definition recorded (w : Window) (es : list (string * Z)) : Prop :=
  Forall (fun e => 0 < e.2 <= i64_max /\ is_Some (ident_index w !! e.1)) es.

Lemma recorded_mono w w' f ds n es : effects w w' f ds n -> recorded w es -> recorded w' es.
Proof.
  intros E H. eapply Forall_impl; [exact H|]. intros e [? ?]. split; [done|]. by eapply effects_known.
Qed.

Lemma recorded_pos w id x :
  0 <= x <= i64_max -> is_Some (ident_index w !! id) -> recorded w (pos_entry id x).
Proof.
  intros Hx Hid. unfold pos_entry. destr_if; bools; [|constructor]. constructor; [|constructor]. cbn. auto with lia.
Qed.

Lemma adjust_effects w id delta :
  window_ok w -> can_intern w id -> in_range u64_max (carry_of w id + delta) \/ delta < 0 ->
  let c' := Z.max 0 (carry_of w id + delta) in
  (delta <= 0 \/ debt_of w id = 0) ->
  (adjust_carry w id delta).2 = c' /\ carry_of (adjust_carry w id delta).1 id = c' /\
  debt_of (adjust_carry w id delta).1 id = debt_of w id /\
  effects w (adjust_carry w id delta).1 (one id (c' - carry_of w id)) (c' - carry_of w id) 1 /\
  is_Some (ident_index (adjust_carry w id delta).1 !! id) /\
  rebate_owed (adjust_carry w id delta).1 = rebate_owed w.
Proof.
  intros OK R Hb c' Hz. pose proof (carry_of_range w id OK) as Hc. unfold in_range in *.
  destruct (adjust_carry_moved w id delta OK R) as [E M].
  assert (Ec : add_signed (carry_of w id) delta = c').
  { unfold add_signed, c'. destr_if; bools; sat_lia. }
  rewrite Ec in *. split; [done|].
  split; [rewrite (mv_carry _ _ _ _ _ M); by rewrite decide_True|].
  split; [rewrite (mv_debt _ _ _ _ _ M); by rewrite decide_True|]. split; [|split].
  - eapply moved_effects; [exact M | | lia |].
    + intros s. unfold one. destruct (decide _); lia.
    + unfold c'. intros [H|H]; [|by right]. destruct Hz; [left; lia | by right].
  - unfold adjust_carry. pose proof (intern_known_ok w id OK R) as I.
    destruct (intern w id) as [w1 i]. cbn [fst snd] in *. exists i. apply (in_index _ _ _ _ I).
  - apply M.
Qed.

Lemma book_debit_ok w id d deb sh :
  window_ok w -> room w 1 (- d) -> d < 0 ->
  let '(w', deb', sh') := book_debit (w, deb, sh) (id, d) in
  exists m o, 0 <= m /\ 0 <= o /\ m + o = - d /\
    deb' = deb ++ pos_entry id m /\ sh' = sh ++ pos_entry id o /\
    effects w w' (one id d) (- d) 1 /\ is_Some (ident_index w' !! id) /\
    rebate_owed w' = rebate_owed w.
Proof.
  intros OK [Hsp Hst] Hd. unfold book_debit.
  destruct (stock_bounds w id OK) as (Hc & Hdb & _).
  destruct (adjust_effects w id d OK (or_introl Hsp) (or_intror Hd)) as (E2 & Ec & Ed & Ef & Hk & Ho); [lia|].
  destruct (adjust_carry w id d) as [w1 after] eqn:Ea; cbn [fst snd] in *. subst after.
  set (c' := Z.max 0 (carry_of w id + d)) in *. set (mv := carry_of w id - c').
  assert (Hsh : sat_sub (- d) mv = - d - mv) by (unfold mv, c'; sat_lia). rewrite Hsh.
  assert (Hdraw : exists w2 dr,
    (if 0 <? - d - mv then draw_from_holds w1 id (- d - mv) else (w1, 0)) = (w2, dr) /\
    0 <= dr <= - d - mv /\ effects w1 w2 (one id (- dr)) (- dr) 0 /\
    carry_of w2 id = carry_of w1 id /\ debt_of w2 id = debt_of w1 id /\
    rebate_owed w2 = rebate_owed w1).
  { destr_if; bools.
    - destruct (draw_effects w1 id (- d - mv) (ef_ok _ _ _ _ _ Ef) ltac:(lia)) as (D1 & D2 & D3 & D4 & D5).
      pose proof (held_nonneg w1 id (ef_ok _ _ _ _ _ Ef)).
      destruct (draw_from_holds w1 id (- d - mv)) as [w2 dr]; cbn [fst snd] in *. subst dr.
      eexists _, _. split; [reflexivity|]. split; [lia|]. auto.
    - eexists _, _. split; [reflexivity|]. split; [unfold mv, c' in *; lia|]. split; [|done].
      eapply effects_ext; [apply effects_refl, Ef | | lia | lia]. intros s. unfold one. by destruct (decide _). }
  destruct Hdraw as (w2 & dr & -> & Hdr & E12 & Ec2 & Ed2 & Ho2).
  pose proof (effects_trans _ _ _ _ _ _ _ _ _ Ef E12) as E02.
  pose proof (effects_known _ _ _ _ _ _ E12 Hk) as Hk2.
  assert (Hsh2 : sat_sub (- d) (mv + dr) = - d - mv - dr) by sat_lia. rewrite Hsh2.
  assert (0 <= mv) by (unfold mv, c'; lia).
  assert (Hpos : (if 0 <? mv + dr then deb ++ [(id, mv + dr)] else deb) = deb ++ pos_entry id (mv + dr)).
  { unfold pos_entry. destr_if; [done | by rewrite app_nil_r]. }
  rewrite Hpos. destr_if; bools.
  - exists (mv + dr), (- d - mv - dr). split; [lia|]. split; [lia|]. split; [lia|]. split; [done|].
    split; [unfold pos_entry; by rewrite (proj2 (Z.ltb_lt _ _) Hif)|].
    pose proof (accrue_debt_moved w2 id (- d - mv - dr) (ef_ok _ _ _ _ _ E02) (or_intror Hk2) ltac:(lia)) as M.
    assert (Hsat : sat_add u64_max (debt_of w2 id) (- d - mv - dr) = debt_of w2 id + (- d - mv - dr)) by sat_lia.
    rewrite Hsat in M.
    assert (E23 : effects w2 (accrue_debt w2 id (- d - mv - dr)) (one id (- (- d - mv - dr)))
      (- d - mv - dr) 0).
    { eapply moved_effects_known; [exact M | done | | lia |].
      - intros s. unfold one. destruct (decide (s = id)); lia.
      - intros _. left. rewrite Ec2, Ec. unfold mv, c' in *. lia. }
    split.
    + eapply effects_ext; [exact (effects_trans _ _ _ _ _ _ _ _ _ E02 E23) | | unfold mv in *; lia | lia].
      intros s. unfold one, mv. destruct (decide (s = id)); lia.
    + split; [destruct Hk2 as [j Hj]; exists j; by apply (mv_same _ _ _ _ _ M)|].
      rewrite (mv_owed _ _ _ _ _ M). congruence.
  - exists (mv + dr), 0. split; [lia|]. split; [lia|]. split; [lia|]. split; [done|].
    split; [unfold pos_entry; cbn; by rewrite app_nil_r|]. split; [|split; [done | congruence]].
    eapply effects_ext; [exact E02 | | unfold mv in *; lia | lia].
    intros s. unfold one, mv in *. destruct (decide (s = id)); lia.
Qed.

Definition total_of (es : list (string * Z)) : Z := zsum (map snd es).

Lemma total_of_cons e es : total_of (e :: es) = e.2 + total_of es.
Proof. done. Qed.
Lemma total_of_app l1 l2 : total_of (l1 ++ l2) = total_of l1 + total_of l2.
Proof. unfold total_of. by rewrite map_app, zsum_app. Qed.
Lemma total_of_neg es : Forall (fun e => e.2 < 0) es -> total_of es <= 0.
Proof. induction 1; [done|]. rewrite total_of_cons. lia. Qed.
Lemma total_of_pos es : Forall (fun e => 0 < e.2) es -> 0 <= total_of es.
Proof. induction 1; [done|]. rewrite total_of_cons. lia. Qed.

Lemma book_debit_fold es : forall w deb sh,
  window_ok w -> room w (length es) (- total_of es) -> Forall (fun e => e.2 < 0) es ->
  recorded w deb -> recorded w sh ->
  let '(w', deb', sh') := foldl book_debit (w, deb, sh) es in
  effects w w' (fun s => entries_of s es) (- total_of es) (length es) /\
  recorded w' deb' /\ recorded w' sh' /\ rebate_owed w' = rebate_owed w /\
  forall s, entries_of s deb' + entries_of s sh'
    = entries_of s deb + entries_of s sh - entries_of s es.
Proof.
  induction es as [|[id d] es IH]; intros w deb sh OK R HF Hdeb Hsh; cbn [foldl].
  { split; [by apply (effects_ext _ _ _ _ _ _ _ _ (effects_refl w OK))|]. conjs; try done.
    intros s. change (entries_of s []) with 0. lia. }
  apply Forall_cons in HF as [Hd HF]. cbn [snd] in Hd. pose proof (total_of_neg es HF).
  rewrite total_of_cons in R. cbn [snd length] in R.
  assert (R1 : room w 1 (- d)) by (destruct R as [R1 R2]; unfold spare in *; split; [unfold spare|]; lia).
  pose proof (book_debit_ok w id d deb sh OK R1 Hd) as H1.
  destruct (book_debit (w, deb, sh) (id, d)) as [[w1 deb1] sh1].
  destruct H1 as (m & o & Hm & Ho & Hmo & -> & -> & E1 & Hk & Hr).
  assert (Hdbound : - d <= i64_max).
  { destruct R1 as [_ R1]. pose proof (stock_bounds w id OK). lia. }
  specialize (IH w1 (deb ++ pos_entry id m) (sh ++ pos_entry id o)).
  destruct (foldl book_debit (w1, deb ++ pos_entry id m, sh ++ pos_entry id o) es) as [[w' deb'] sh'].
  destruct IH as (E2 & Hd2 & Hs2 & Hr2 & Hsum).
  - apply E1.
  - eapply effects_room; [exact E1|]. destruct R as [R1' R2']. split; [done | lia].
  - done.
  - apply Forall_app. split; [by eapply recorded_mono|]. apply recorded_pos; [lia | done].
  - apply Forall_app. split; [by eapply recorded_mono|]. apply recorded_pos; [lia | done].
  - split; [|conjs; try done; [congruence|]].
    + eapply effects_ext; [exact (effects_trans _ _ _ _ _ _ _ _ _ E1 E2) | | | ].
      * intros s. rewrite entries_of_cons. unfold one. cbn [fst snd].
        destruct (decide (s = id)), (decide (id = s)); congruence || lia.
      * rewrite total_of_cons. cbn [snd]. lia.
      * done.
    + intros s. rewrite Hsum, !entries_of_app, !entries_of_pos by lia. rewrite entries_of_cons.
      unfold one. cbn [fst snd]. destruct (decide (s = id)), (decide (id = s)); congruence || lia.
Qed.

(** The two halves of a block's carry adjustments. *)
Definition debits_in (delta : list (string * Z)) : list (string * Z) := filter (fun e => e.2 < 0) delta.
Definition credits_in (delta : list (string * Z)) : list (string * Z) := filter (fun e => 0 < e.2) delta.

(** The satoshis a block moves, whichever way. *)
Definition volume (delta : list (string * Z)) : Z := total_of (credits_in delta) - total_of (debits_in delta).

Lemma debits_in_neg delta : Forall (fun e => e.2 < 0) (debits_in delta).
Proof. apply Forall_forall. intros e He. by apply list_elem_of_filter in He as [? _]. Qed.
Lemma credits_in_pos delta : Forall (fun e => 0 < e.2) (credits_in delta).
Proof. apply Forall_forall. intros e He. by apply list_elem_of_filter in He as [? _]. Qed.
Lemma debits_in_length delta : (length (debits_in delta) <= length delta)%nat.
Proof. apply length_filter. Qed.
Lemma credits_in_length delta : (length (credits_in delta) <= length delta)%nat.
Proof. apply length_filter. Qed.

(** [effects] through a change of the owed rebate. *)
Lemma effects_owed w w' f ds n r :
  effects w w' f ds n -> in_range u64_max r -> effects w (with_rebate_owed w' r) f ds n.
Proof.
  intros E Hr. destruct E. constructor; try done. by apply with_rebate_owed_ok.
Qed.

Lemma add_signed_neg x y : in_range u64_max x -> 0 <= y -> add_signed x (- y) = x - Z.min x y.
Proof. intros Hx Hy. unfold add_signed, in_range in *. destr_if; bools; sat_lia. Qed.

Lemma add_signed_pos x y : 0 <= y -> x + y <= u64_max -> add_signed x y = x + y.
Proof. intros Hy Hx. unfold add_signed. destr_if; bools; sat_lia. Qed.

Lemma book_debits_run w delta b :
  window_ok w -> debits_live b = false -> 0 <= bk_owed_credited b ->
  room w (length delta) (volume delta) ->
  let '(w', b') := book_debits w delta b in
  effects w w' (fun s => entries_of s (debits_in delta)) (- total_of (debits_in delta)) (length delta) /\
  debits_live b' = true /\ recorded w' (debited b') /\ recorded w' (shortfall b') /\
  (forall s, entries_of s (debited b') + entries_of s (shortfall b') = - entries_of s (debits_in delta)) /\
  0 <= rebate_debited b' <= i64_max /\ rebate_owed w' = rebate_owed w - rebate_debited b' /\
  rebate_debited b' <= rebate_owed w /\
  credits_live b' = credits_live b /\ credited_sats b' = credited_sats b /\
  debt_paid b' = debt_paid b /\ rebate_added b' = rebate_added b /\
  bk_owed_credited b' = bk_owed_credited b /\ bk_deferred b' = bk_deferred b.
Proof.
  intros OK Hl Hc [R1 R2]. unfold book_debits. rewrite Hl.
  pose proof (debits_in_length delta). pose proof (total_of_pos _ (credits_in_pos delta)).
  unfold volume in R2.
  assert (R : room w (length (debits_in delta)) (- total_of (debits_in delta)))
    by (split; [unfold spare in *; lia | lia]).
  pose proof (book_debit_fold (debits_in delta) w [] [] OK R (debits_in_neg delta)) as F.
  change (filter (fun e : string * Z => e.2 < 0) delta) with (debits_in delta).
  destruct (foldl book_debit (w, [], []) (debits_in delta)) as [[w1 deb] sh].
  destruct F as (E & Hd & Hs & Hr & Hsum); [constructor | constructor|].
  pose proof (wo_owed _ (ef_ok _ _ _ _ _ E)) as Ho.
  assert (Hcl : 0 <= clamp_i64 (bk_owed_credited b) <= i64_max) by (unfold clamp_i64; lia).
  unfold adjust_rebate_owed.
  assert (Ha : add_signed (rebate_owed w1) (- clamp_i64 (bk_owed_credited b))
    = rebate_owed w1 - Z.min (rebate_owed w1) (clamp_i64 (bk_owed_credited b)))
    by (apply add_signed_neg; [done | lia]).
  rewrite Ha. unfold in_range in Ho. cbn [debits_live debited shortfall rebate_debited credits_live
    credited_sats debt_paid rebate_added bk_owed_credited bk_deferred rebate_owed with_rebate_owed].
  split; [|conjs; try done; try lia].
  - apply effects_owed; [|unfold in_range; lia]. eapply effects_ext; [exact E | done | lia | done].
Qed.

(** * Credits *)

Lemma effects_shrink w w' f ds n : effects w w' f ds n -> length (idents w') = length (idents w) -> effects w w' f ds 0.
Proof. intros [] H. constructor; try done. lia. Qed.

Lemma reduce_effects w id x :
  window_ok w -> 0 <= x ->
  (reduce_debt w id x).2 = Z.min (debt_of w id) x /\
  effects w (reduce_debt w id x).1 (one id (Z.min (debt_of w id) x)) 0 0 /\
  carry_of (reduce_debt w id x).1 id = carry_of w id /\
  debt_of (reduce_debt w id x).1 id = debt_of w id - Z.min (debt_of w id) x /\
  (forall s, carry_of (reduce_debt w id x).1 s = carry_of w s) /\
  rebate_owed (reduce_debt w id x).1 = rebate_owed w /\
  ident_index (reduce_debt w id x).1 = ident_index w.
Proof.
  intros OK Hx. pose proof (debt_of_range w id OK) as Hd. unfold in_range in Hd.
  destruct (reduce_debt_moved w id x OK Hx) as [E M].
  split; [done|]. split.
  - eapply effects_shrink.
    + eapply moved_effects; [exact M | | lia | ].
      * intros s. unfold one. destruct (decide (s = id)); lia.
      * intros [H|H]; [by left | right; lia].
    + unfold reduce_debt. by destruct (ident_index w !! id).
  - conjs.
    + rewrite (mv_carry _ _ _ _ _ M). by rewrite decide_True.
    + rewrite (mv_debt _ _ _ _ _ M). by rewrite decide_True.
    + intros s. rewrite (mv_carry _ _ _ _ _ M). by destruct (decide (s = id)) as [->|].
    + apply M.
    + unfold reduce_debt. by destruct (ident_index w !! id).
Qed.

Lemma book_credit_ok w id earn cr dp lines :
  window_ok w -> room w 1 earn -> 0 < earn ->
  let '(w', cr', dp', lines') := book_credit (w, cr, dp, lines) (id, earn) in
  exists paid onto, 0 <= paid /\ 0 <= onto /\ paid + onto = earn /\
    cr' = cr ++ pos_entry id onto /\ dp' = dp ++ pos_entry id paid /\
    lines' = lines ++ new_line w id /\
    effects w w' (one id earn) earn 1 /\
    (forall s, carry_of w' s = carry_of w s + one id onto s) /\
    is_Some (ident_index w' !! id) /\ rebate_owed w' = rebate_owed w.
Proof.
  intros OK [Hsp Hst] He. unfold book_credit.
  destruct (stock_bounds w id OK) as (Hc & Hd & _).
  destruct (reduce_effects w id earn OK) as (E1 & Ef & Ec & Ed & Hall & Ho & Hi); [lia|].
  destruct (reduce_debt w id earn) as [w1 paid]; cbn [fst snd] in *. subst paid.
  set (paid := Z.min (debt_of w id) earn) in *.
  assert (Hdp : (if 0 <? paid then dp ++ [(id, paid)] else dp) = dp ++ pos_entry id paid).
  { unfold pos_entry. destr_if; [done | by rewrite app_nil_r]. }
  rewrite Hdp. assert (0 <= paid <= earn) by (unfold paid; lia).
  destruct (0 <? earn - paid) eqn:Eo; bools.
  - assert (R1 : can_intern w1 id).
    { left. by eapply effects_spare; [exact Ef|]. }
    assert (Hz : debt_of w1 id = 0) by (rewrite Ed; unfold paid in *; lia).
    assert (Hcl : clamp_i64 (earn - paid) = earn - paid) by (unfold clamp_i64; lia). rewrite Hcl.
    destruct (adjust_effects w1 id (earn - paid) (ef_ok _ _ _ _ _ Ef) R1) as (A2 & Ac & _ & Af & Ak & Ao);
      [left; unfold in_range; lia | by right |].
    destruct (adjust_carry_moved w1 id (earn - paid) (ef_ok _ _ _ _ _ Ef) R1) as [_ M].
    destruct (adjust_carry w1 id (earn - paid)) as [w2 after]; cbn [fst snd] in *. subst after.
    replace (Z.max 0 (carry_of w1 id + (earn - paid))) with (carry_of w id + (earn - paid)) in * by lia.
    rewrite Ec. assert (Hlt : (carry_of w id <? carry_of w id + (earn - paid)) = true) by (apply Z.ltb_lt; lia).
    rewrite Hlt. replace (carry_of w id + (earn - paid) - carry_of w id) with (earn - paid) by lia.
    exists paid, (earn - paid). split; [lia|]. split; [lia|]. split; [lia|].
    split; [unfold pos_entry; by rewrite (proj2 (Z.ltb_lt _ _) Eo)|]. split; [done|]. split; [done|].
    split.
    { eapply effects_ext; [exact (effects_trans _ _ _ _ _ _ _ _ _ Ef Af) | | rewrite Ec; lia | lia].
      intros s. unfold one. destruct (decide (s = id)); lia. }
    split; [|split; [done | congruence]].
    intros s. rewrite (mv_carry _ _ _ _ _ M), (Hall s). unfold one.
    destruct (decide (s = id)) as [->|]; [|lia].
    rewrite add_signed_pos; [rewrite Ec; lia | lia | rewrite Ec; lia].
  - assert (Hp : paid = earn) by (unfold paid in *; lia).
    rewrite Ec, Z.ltb_irrefl. exists paid, 0. split; [lia|]. split; [lia|]. split; [lia|].
    split; [unfold pos_entry; cbn; by rewrite app_nil_r|]. split; [done|]. split; [done|].
    split.
    { eapply effects_ext; [exact Ef | | lia | lia]. intros s. unfold one. destruct (decide (s = id)); lia. }
    split; [intros s; rewrite Hall; unfold one; destruct (decide _); lia|]. split; [|done].
    rewrite Hi. apply (named_known w (debt w)). change (debt_of w id <> 0). unfold paid in *. lia.
Qed.

Lemma book_credit_fold es : forall w cr dp lines,
  window_ok w -> room w (length es) (total_of es) -> Forall (fun e => 0 < e.2) es ->
  recorded w cr -> recorded w dp ->
  let '(w', cr', dp', lines') := foldl book_credit (w, cr, dp, lines) es in
  effects w w' (fun s => entries_of s es) (total_of es) (length es) /\
  recorded w' cr' /\ recorded w' dp' /\ rebate_owed w' = rebate_owed w /\
  (forall s, carry_of w' s - entries_of s cr' = carry_of w s - entries_of s cr) /\
  forall s, entries_of s cr' + entries_of s dp' = entries_of s cr + entries_of s dp + entries_of s es.
Proof.
  induction es as [|[id d] es IH]; intros w cr dp lines OK R HF Hcr Hdp; cbn [foldl].
  { split; [by apply (effects_ext _ _ _ _ _ _ _ _ (effects_refl w OK))|]. conjs; try done.
    intros s. change (entries_of s []) with 0. lia. }
  apply Forall_cons in HF as [Hd HF]. cbn [snd] in Hd. pose proof (total_of_pos es HF).
  rewrite total_of_cons in R. cbn [snd length] in R.
  assert (R1 : room w 1 d) by (destruct R as [R1 R2]; unfold spare in *; split; [unfold spare|]; lia).
  pose proof (book_credit_ok w id d cr dp lines OK R1 Hd) as H1.
  destruct (book_credit (w, cr, dp, lines) (id, d)) as [[[w1 cr1] dp1] lines1].
  destruct H1 as (m & o & Hm & Ho & Hmo & -> & -> & -> & E1 & Hca & Hk & Hr).
  assert (Hdbound : d <= i64_max).
  { destruct R1 as [_ R1]. pose proof (stock_bounds w id OK). lia. }
  specialize (IH w1 (cr ++ pos_entry id o) (dp ++ pos_entry id m) (lines ++ new_line w id)).
  destruct (foldl book_credit _ es) as [[[w' cr'] dp'] lines'].
  destruct IH as (E2 & Hd2 & Hs2 & Hr2 & Hcar & Hsum).
  - apply E1.
  - eapply effects_room; [exact E1|]. destruct R as [R1' R2']. split; [done | lia].
  - done.
  - apply Forall_app. split; [by eapply recorded_mono|]. apply recorded_pos; [lia | done].
  - apply Forall_app. split; [by eapply recorded_mono|]. apply recorded_pos; [lia | done].
  - split; [|conjs; try done; [congruence | |]].
    + eapply effects_ext; [exact (effects_trans _ _ _ _ _ _ _ _ _ E1 E2) | | | ].
      * intros s. rewrite entries_of_cons. unfold one. cbn [fst snd].
        destruct (decide (s = id)), (decide (id = s)); congruence || lia.
      * rewrite total_of_cons. cbn [snd]. lia.
      * done.
    + intros s. rewrite Hcar, Hca, entries_of_app, entries_of_pos by lia. lia.
    + intros s. rewrite Hsum, !entries_of_app, !entries_of_pos by lia. rewrite entries_of_cons.
      unfold one. cbn [fst snd]. destruct (decide (s = id)), (decide (id = s)); congruence || lia.
Qed.

Lemma book_credits_run w delta b :
  window_ok w -> credits_live b = false -> 0 <= bk_deferred b ->
  room w (length delta) (volume delta) ->
  let '(w', b', lines) := book_credits w delta b in
  effects w w' (fun s => entries_of s (credits_in delta)) (total_of (credits_in delta)) (length delta) /\
  credits_live b' = true /\ recorded w' (credited_sats b') /\ recorded w' (debt_paid b') /\
  (forall s, entries_of s (credited_sats b') + entries_of s (debt_paid b') = entries_of s (credits_in delta)) /\
  (forall s, carry_of w' s = carry_of w s + entries_of s (credited_sats b')) /\
  0 <= rebate_added b' <= i64_max /\ rebate_owed w' = rebate_owed w + rebate_added b' /\
  debits_live b' = debits_live b /\ debited b' = debited b /\
  shortfall b' = shortfall b /\ rebate_debited b' = rebate_debited b /\
  bk_owed_credited b' = bk_owed_credited b /\ bk_deferred b' = bk_deferred b.
Proof.
  intros OK Hl Hc [R1 R2]. unfold book_credits. rewrite Hl.
  pose proof (credits_in_length delta). pose proof (total_of_neg _ (debits_in_neg delta)).
  unfold volume in R2.
  assert (R : room w (length (credits_in delta)) (total_of (credits_in delta)))
    by (split; [unfold spare in *; lia | lia]).
  pose proof (book_credit_fold (credits_in delta) w [] [] [] OK R (credits_in_pos delta)) as F.
  change (filter (fun e : string * Z => 0 < e.2) delta) with (credits_in delta).
  destruct (foldl book_credit (w, [], [], []) (credits_in delta)) as [[[w1 cr] dp] lines].
  destruct F as (E & Hd & Hs & Hr & Hcar & Hsum); [constructor | constructor|].
  pose proof (wo_owed _ (ef_ok _ _ _ _ _ E)) as Ho. unfold in_range in Ho.
  assert (Hcl : 0 <= clamp_i64 (bk_deferred b) <= i64_max) by (unfold clamp_i64; lia).
  unfold adjust_rebate_owed.
  assert (Ha : rebate_owed w1 <= add_signed (rebate_owed w1) (clamp_i64 (bk_deferred b))
    <= Z.min u64_max (rebate_owed w1 + clamp_i64 (bk_deferred b))).
  { unfold add_signed. destr_if; bools; sat_lia. }
  cbn [debits_live debited shortfall rebate_debited credits_live
    credited_sats debt_paid rebate_added bk_owed_credited bk_deferred rebate_owed with_rebate_owed].
  split; [|conjs; try done; try lia].
  - apply effects_owed; [|unfold in_range; lia]. eapply effects_ext; [exact E | done | lia | done].
  - intros s. specialize (Hcar s). change (entries_of s []) with 0 in Hcar.
    change (carry_of (with_rebate_owed w1 (add_signed (rebate_owed w1) (clamp_i64 (bk_deferred b)))) s)
      with (carry_of w1 s). lia.
Qed.

(** * Undoing *)

(** A fold of an operation that moves each entry's amount for its identity, one way or the
    other, over recorded entries. *)
Lemma fold_effects (op : Window -> string * Z -> Window) (sgn : Z) :
  (forall w e, window_ok w -> is_Some (ident_index w !! e.1) -> 0 < e.2 <= i64_max ->
     stock w + e.2 <= i64_max ->
     effects w (op w e) (one e.1 (sgn * e.2)) e.2 0 /\ rebate_owed (op w e) = rebate_owed w) ->
  forall es w, window_ok w -> recorded w es -> stock w + total_of es <= i64_max ->
  effects w (foldl op w es) (fun s => sgn * entries_of s es) (total_of es) 0 /\
  rebate_owed (foldl op w es) = rebate_owed w.
Proof.
  intros Hop. induction es as [|e es IH]; intros w OK HF Hst; cbn [foldl].
  { split; [|done]. apply (effects_ext _ _ _ _ _ _ _ _ (effects_refl w OK)); try done.
    intros s. change (entries_of s []) with 0. lia. }
  apply Forall_cons in HF as [[Hx Hk] HF]. rewrite total_of_cons in *.
  assert (0 <= total_of es).
  { apply total_of_pos. eapply Forall_impl; [exact HF|]. cbn. intros ? [? _]. lia. }
  destruct (Hop w e OK Hk Hx ltac:(lia)) as [E1 R1].
  destruct (IH (op w e) (ef_ok _ _ _ _ _ E1)) as [E2 R2].
  - by eapply recorded_mono.
  - pose proof (ef_stock _ _ _ _ _ E1). lia.
  - split; [|congruence].
    eapply effects_ext; [exact (effects_trans _ _ _ _ _ _ _ _ _ E1 E2) | | lia | lia].
    intros s. rewrite entries_of_cons. unfold one.
    destruct (decide (s = e.1)), (decide (e.1 = s)); congruence || lia.
Qed.

Lemma restore_carry_effects w e :
  window_ok w -> is_Some (ident_index w !! e.1) -> 0 < e.2 <= i64_max -> stock w + e.2 <= i64_max ->
  effects w (restore_carry w e.1 e.2).1 (one e.1 (1 * e.2)) e.2 0 /\
  rebate_owed (restore_carry w e.1 e.2).1 = rebate_owed w.
Proof.
  intros OK Hk Hx Hst. destruct (stock_bounds w e.1 OK) as (Hc & Hd & _).
  destruct (restore_carry_moved w e.1 e.2 OK (or_intror Hk)) as [_ M]; [lia|].
  split; [|apply M].
  assert (Ha : after_restore (carry_of w e.1) (debt_of w e.1) e.2
    = carry_of w e.1 + (e.2 - Z.min (debt_of w e.1) e.2)) by (unfold after_restore; sat_lia).
  rewrite Ha in M. eapply moved_effects_known; [exact M | done | | lia | ].
  - intros s. unfold one. destruct (decide (s = e.1)); lia.
  - intros [H|H]; lia.
Qed.

Lemma forgive_debt_effects w e :
  window_ok w -> is_Some (ident_index w !! e.1) -> 0 < e.2 <= i64_max -> stock w + e.2 <= i64_max ->
  effects w (forgive_debt w e.1 e.2) (one e.1 (1 * e.2)) e.2 0 /\
  rebate_owed (forgive_debt w e.1 e.2) = rebate_owed w.
Proof.
  intros OK Hk Hx Hst. destruct (stock_bounds w e.1 OK) as (Hc & Hd & _).
  pose proof (forgive_debt_moved w e.1 e.2 OK (or_intror Hk) ltac:(lia)) as M.
  split; [|apply M].
  assert (Ha : after_restore (carry_of w e.1) (debt_of w e.1) e.2
    = carry_of w e.1 + (e.2 - Z.min (debt_of w e.1) e.2)) by (unfold after_restore; sat_lia).
  rewrite Ha in M. eapply moved_effects_known; [exact M | done | | lia | ].
  - intros s. unfold one. destruct (decide (s = e.1)); lia.
  - intros [H|H]; lia.
Qed.

Lemma restore_debt_effects w e :
  window_ok w -> is_Some (ident_index w !! e.1) -> 0 < e.2 <= i64_max -> stock w + e.2 <= i64_max ->
  effects w (restore_debt w e.1 e.2) (one e.1 (-1 * e.2)) e.2 0 /\
  rebate_owed (restore_debt w e.1 e.2) = rebate_owed w.
Proof.
  intros OK Hk Hx Hst. destruct (stock_bounds w e.1 OK) as (Hc & Hd & _).
  pose proof (restore_debt_moved w e.1 e.2 OK (or_intror Hk) ltac:(lia)) as M.
  split; [|apply M].
  assert (Ha : sat_add u64_max (debt_of w e.1) (e.2 - Z.min (carry_of w e.1) e.2)
    = debt_of w e.1 + (e.2 - Z.min (carry_of w e.1) e.2)) by sat_lia.
  rewrite Ha in M. eapply moved_effects_known; [exact M | done | | lia | ].
  - intros s. unfold one. destruct (decide (s = e.1)); lia.
  - intros [H|H]; lia.
Qed.

(** Taking credits back: what is missing had been paid out already. *)
Lemma unbook_credit_fold es : forall w short,
  window_ok w -> recorded w es -> 0 <= short -> short + total_of es <= u64_max ->
  exists missing,
    let '(w', short') := foldl unbook_credit (w, short) es in
    effects w w' (fun s => entries_of s missing - entries_of s es) 0 0 /\
    rebate_owed w' = rebate_owed w /\
    map fst missing = map fst es /\ Forall (fun e => 0 <= e.2) missing /\
    short' = short + total_of missing /\
    ((forall s, entries_of s es <= carry_of w s) -> forall s, entries_of s missing = 0).
Proof.
  induction es as [|[id x] es IH]; intros w short OK HF Hsh Hmax; cbn [foldl].
  { exists []. split; [by apply (effects_ext _ _ _ _ _ _ _ _ (effects_refl w OK))|].
    conjs; try done. change (total_of []) with 0. lia. }
  apply Forall_cons in HF as [[Hx Hk] HF]. cbn [fst snd] in *.
  rewrite total_of_cons in Hmax. cbn [snd] in Hmax.
  assert (0 <= total_of es).
  { apply total_of_pos. eapply Forall_impl; [exact HF|]. cbn. intros ? [? _]. lia. }
  unfold unbook_credit at 2. cbn [fst snd].
  assert (Hcl : clamp_i64 x = x) by (unfold clamp_i64; lia). rewrite Hcl.
  destruct (adjust_carry_moved w id (- x) OK (or_intror Hk)) as [A2 M].
  pose proof (carry_of_range w id OK) as Hcr. rewrite add_signed_neg in A2, M by (done || lia).
  unfold in_range in Hcr.
  destruct (adjust_carry w id (- x)) as [w1 after]; cbn [fst snd] in *. subst after.
  set (take := Z.min (carry_of w id) x) in *.
  assert (Hs : sat_add u64_max short (x - (carry_of w id - (carry_of w id - take)))
    = short + (x - take)) by (unfold take; sat_lia).
  rewrite Hs.
  assert (E1 : effects w w1 (one id (- take)) 0 0).
  { eapply moved_effects_known; [exact M | done | | unfold take; lia | ].
    - intros s. unfold one. destruct (decide (s = id)); lia.
    - intros [H0|H0]; [left; unfold take; lia | by right]. }
  destruct (IH w1 (short + (x - take)) (ef_ok _ _ _ _ _ E1)) as [missing Hm];
    [by eapply recorded_mono | unfold take; lia | unfold take; lia |].
  destruct (foldl unbook_credit (w1, short + (x - take)) es) as [w' short'].
  destruct Hm as (E2 & Hr & Hn & Hnn & -> & Hz). exists ((id, x - take) :: missing).
  split; [|split; [|split; [|split; [|split]]]].
  - eapply effects_ext; [exact (effects_trans _ _ _ _ _ _ _ _ _ E1 E2) | | lia | lia].
    intros s. rewrite !entries_of_cons. unfold one. cbn [fst snd].
    destruct (decide (s = id)), (decide (id = s)); congruence || lia.
  - rewrite Hr. apply M.
  - cbn [map fst]. by rewrite Hn.
  - constructor; [cbn; unfold take; lia | done].
  - rewrite total_of_cons. cbn [snd]. lia.
  - intros Hall s. assert (Hpos : forall s, 0 <= entries_of s es).
    { intros s'. apply entries_of_nonneg. eapply Forall_impl; [exact HF|]. cbn. intros ? [? _]. lia. }
    pose proof (Hall id) as Hid. rewrite entries_of_cons, decide_True in Hid by done. cbn [snd] in Hid.
    pose proof (Hpos id). assert (Ht : take = x) by (unfold take; lia).
    rewrite entries_of_cons, Hz; [cbn [fst snd]; destruct (decide _); lia|].
    intros s'. rewrite (mv_carry _ _ _ _ _ M). specialize (Hall s'). rewrite entries_of_cons in Hall.
    cbn [fst snd] in Hall. destruct (decide (s' = id)) as [->|];
      [rewrite decide_True in Hall by done; lia | rewrite decide_False in Hall by congruence; lia].
Qed.

(** What a block has on the ledger, so that undoing it is exact. *)
Record on_ledger (w : Window) (b : Books) : Prop := {
  ol_debited : recorded w (debited b);
  ol_short : recorded w (shortfall b);
  ol_credited : recorded w (credited_sats b);
  ol_paid : recorded w (debt_paid b);
  ol_rd : 0 <= rebate_debited b <= i64_max;
  ol_ra : 0 <= rebate_added b <= i64_max
}.

Definition on_books (b : Books) : Z :=
  total_of (debited b) + total_of (shortfall b) + total_of (credited_sats b) + total_of (debt_paid b).

(** The position a block's live entries stand for. *)
Definition booked_of (b : Books) (s : string) : Z :=
  (if credits_live b then entries_of s (credited_sats b) + entries_of s (debt_paid b) else 0)
  - (if debits_live b then entries_of s (debited b) + entries_of s (shortfall b) else 0).

Lemma recorded_total w es : recorded w es -> 0 <= total_of es.
Proof. intros H. apply total_of_pos. eapply Forall_impl; [exact H|]. cbn. intros ? [? _]. lia. Qed.

Lemma unbook_credits_part w b :
  window_ok w -> on_ledger w b -> stock w + on_books b <= i64_max ->
  rebate_added b <= rebate_owed w ->
  exists missing w1,
    (if credits_live b then
      let '(w, short) := foldl unbook_credit (w, 0) (credited_sats b) in
      (adjust_rebate_owed (foldl (fun w e => restore_debt w e.1 e.2) w (debt_paid b))
         (- clamp_i64 (rebate_added b)), short)
     else (w, 0)) = (w1, total_of missing) /\
    Forall (fun e => 0 <= e.2) missing /\
    effects w w1 (fun s => entries_of s missing
      - (if credits_live b then entries_of s (credited_sats b) + entries_of s (debt_paid b) else 0))
      (total_of (debt_paid b)) 0 /\
    rebate_owed w1 = rebate_owed w - (if credits_live b then rebate_added b else 0) /\
    ((forall s, credits_live b = true -> entries_of s (credited_sats b) <= carry_of w s) ->
      forall s, entries_of s missing = 0).
Proof.
  intros OK O Hst Hra.
  pose proof (recorded_total _ _ (ol_debited _ _ O)). pose proof (recorded_total _ _ (ol_short _ _ O)).
  pose proof (recorded_total _ _ (ol_credited _ _ O)). pose proof (recorded_total _ _ (ol_paid _ _ O)).
  unfold on_books in Hst. destruct (credits_live b).
  - destruct (unbook_credit_fold (credited_sats b) w 0 OK (ol_credited _ _ O)) as [missing Hm]; [lia| |].
    { destruct (stock_bounds w "" OK). lia. }
    destruct (foldl unbook_credit (w, 0) (credited_sats b)) as [w1 short].
    destruct Hm as (E1 & R1 & _ & Hnn & -> & Hz).
    destruct (fold_effects (fun w e => restore_debt w e.1 e.2) (-1) restore_debt_effects
      (debt_paid b) w1) as [E2 R2]; [apply E1 | by eapply recorded_mono, O | |].
    { pose proof (ef_stock _ _ _ _ _ E1). lia. }
    set (w2 := foldl (fun w e => restore_debt w e.1 e.2) w1 (debt_paid b)) in *.
    exists missing. eexists. split; [f_equal; lia|]. split; [done|].
    destruct (ol_ra _ _ O). pose proof (wo_owed _ (ef_ok _ _ _ _ _ E2)) as Ho.
    assert (Hr2 : rebate_owed w2 = rebate_owed w) by congruence.
    assert (Hcl : clamp_i64 (rebate_added b) = rebate_added b) by (unfold clamp_i64; lia).
    unfold adjust_rebate_owed. rewrite Hcl, add_signed_neg by (done || lia).
    rewrite Z.min_r by lia. unfold in_range in Ho.
    split; [|split; [cbn; lia | by auto]].
    apply effects_owed; [|unfold in_range; lia].
    eapply effects_ext; [exact (effects_trans _ _ _ _ _ _ _ _ _ E1 E2) | | lia | lia].
    intros s. cbn. lia.
  - exists [], w. split; [done|]. split; [done|]. split; [|split; [lia | done]].
    apply (effects_ext _ _ _ _ _ _ _ _ (effects_refl w OK)); try done.
Qed.

Lemma unbook_debits_part w b :
  window_ok w -> recorded w (debited b) -> recorded w (shortfall b) ->
  stock w + total_of (debited b) + total_of (shortfall b) <= i64_max ->
  0 <= rebate_debited b <= i64_max -> rebate_owed w + rebate_debited b <= u64_max ->
  let w' := if debits_live b then
      adjust_rebate_owed (foldl (fun w e => forgive_debt w e.1 e.2)
        (foldl (fun w e => (restore_carry w e.1 e.2).1) w (debited b)) (shortfall b))
        (clamp_i64 (rebate_debited b))
    else w in
  effects w w' (fun s => if debits_live b then entries_of s (debited b) + entries_of s (shortfall b) else 0)
    (total_of (debited b) + total_of (shortfall b)) 0 /\
  rebate_owed w' = rebate_owed w + (if debits_live b then rebate_debited b else 0).
Proof.
  intros OK Hd Hs Hst Hrd Hmax. pose proof (recorded_total _ _ Hd). pose proof (recorded_total _ _ Hs).
  destruct (debits_live b).
  - destruct (fold_effects (fun w e => (restore_carry w e.1 e.2).1) 1 restore_carry_effects
      (debited b) w OK Hd) as [E1 R1]; [lia|].
    set (w1 := foldl (fun w e => (restore_carry w e.1 e.2).1) w (debited b)) in *.
    destruct (fold_effects (fun w e => forgive_debt w e.1 e.2) 1 forgive_debt_effects
      (shortfall b) w1) as [E2 R2]; [apply E1 | by eapply recorded_mono | |].
    { pose proof (ef_stock _ _ _ _ _ E1). lia. }
    set (w2 := foldl (fun w e => forgive_debt w e.1 e.2) w1 (shortfall b)) in *.
    assert (Hr2 : rebate_owed w2 = rebate_owed w) by congruence.
    pose proof (wo_owed _ (ef_ok _ _ _ _ _ E2)) as Ho. unfold in_range in Ho.
    assert (Hcl : clamp_i64 (rebate_debited b) = rebate_debited b) by (unfold clamp_i64; lia).
    cbv zeta. unfold adjust_rebate_owed. rewrite Hcl, add_signed_pos by lia. split; [|cbn; lia].
    apply effects_owed; [|unfold in_range; lia].
    eapply effects_ext; [exact (effects_trans _ _ _ _ _ _ _ _ _ E1 E2) | | lia | lia].
    intros s. cbn. lia.
  - cbv zeta. split; [|lia]. apply (effects_ext _ _ _ _ _ _ _ _ (effects_refl w OK)); try done. lia.
Qed.

Lemma unbook_run w b :
  window_ok w -> on_ledger w b -> stock w + on_books b <= i64_max ->
  (credits_live b = true -> rebate_added b <= rebate_owed w) ->
  (credits_live b = false -> rebate_added b = 0) ->
  (debits_live b = false -> rebate_debited b = 0) ->
  rebate_owed w - rebate_added b + rebate_debited b <= u64_max ->
  exists missing,
    let '(w', b', short) := unbook w b in
    short = total_of missing /\ Forall (fun e => 0 <= e.2) missing /\
    effects w w' (fun s => entries_of s missing - booked_of b s) (on_books b) 0 /\
    rebate_owed w' = rebate_owed w - rebate_added b + rebate_debited b /\
    debits_live b' = false /\ credits_live b' = false /\ on_ledger w' b' /\
    rebate_added b' = 0 /\ rebate_debited b' = 0 /\
    bk_owed_credited b' = bk_owed_credited b /\ bk_deferred b' = bk_deferred b /\
    ((forall s, credits_live b = true -> entries_of s (credited_sats b) <= carry_of w s) ->
      forall s, entries_of s missing = 0).
Proof.
  intros OK O Hst Hra Hra0 Hrd0 Hrd.
  pose proof (recorded_total _ _ (ol_debited _ _ O)). pose proof (recorded_total _ _ (ol_short _ _ O)).
  pose proof (recorded_total _ _ (ol_credited _ _ O)). pose proof (recorded_total _ _ (ol_paid _ _ O)).
  pose proof (wo_owed _ OK) as Ho. unfold in_range in Ho.
  destruct (unbook_credits_part w b OK O Hst) as (missing & w1 & E & Hnn & E1 & R1 & Hz).
  { destruct (credits_live b); [by apply Hra | rewrite Hra0 by done; lia]. }
  assert (R1' : rebate_owed w1 = rebate_owed w - rebate_added b).
  { destruct (credits_live b); [done | rewrite Hra0 by done; done]. }
  exists missing. unfold on_books in *.
  pose proof (unbook_debits_part w1 b (ef_ok _ _ _ _ _ E1)) as D. cbv zeta in D.
  destruct D as [E2 R2];
    [by eapply recorded_mono, O | by eapply recorded_mono, O
    | pose proof (ef_stock _ _ _ _ _ E1); lia | apply O | lia |].
  assert (R2' : rebate_owed w1 + (if debits_live b then rebate_debited b else 0)
    = rebate_owed w - rebate_added b + rebate_debited b).
  { destruct (debits_live b); [lia | rewrite Hrd0 by done; lia]. }
  pose proof (effects_trans _ _ _ _ _ _ _ _ _ E1 E2) as E12.
  assert (O' : forall w', effects w w' (fun s => entries_of s missing - booked_of b s) (on_books b) 0 ->
     recorded w' (debited b) /\ recorded w' (shortfall b) /\ recorded w' (credited_sats b) /\
     recorded w' (debt_paid b)).
  { intros w' Ew. conjs; (eapply recorded_mono; [exact Ew | apply O]). }
  unfold unbook. destruct (credits_live b) eqn:Hcl.
  - destruct (foldl unbook_credit (w, 0) (credited_sats b)) as [wc short].
    injection E as Ew ->. subst w1.
    destruct (debits_live b) eqn:Hdl; cbn [debits_live debited shortfall rebate_debited credits_live
      credited_sats rebate_added debt_paid bk_owed_credited bk_deferred] in *; rewrite ?Hdl;
    match goal with |- context [effects w ?w'] =>
      assert (Ef : effects w w' (fun s => entries_of s missing - booked_of b s) (on_books b) 0)
        by (eapply effects_ext; [exact E12 | intros s; unfold booked_of; rewrite Hcl, Hdl; lia
                               | unfold on_books; lia | lia])
    end; destruct (O' _ Ef) as (O1 & O2 & O3 & O4); destruct O;
    (split; [done|]; split; [done|]; split; [exact Ef|]; split; [congruence|]);
    conjs; try done; try (by constructor; cbn; try constructor; lia || done);
    try (by rewrite Hrd0).
  - injection E as -> Em.
    destruct (debits_live b) eqn:Hdl; cbn [debits_live debited shortfall rebate_debited credits_live
      credited_sats rebate_added debt_paid bk_owed_credited bk_deferred] in *; rewrite ?Hdl;
    match goal with |- context [effects w1 ?w'] =>
      assert (Ef : effects w1 w' (fun s => entries_of s missing - booked_of b s) (on_books b) 0)
        by (eapply effects_ext; [exact E12 | intros s; unfold booked_of; rewrite Hcl, Hdl; lia
                               | unfold on_books; lia | lia])
    end; destruct (O' _ Ef) as (O1 & O2 & O3 & O4); destruct O;
    (split; [done|]; split; [done|]; split; [exact Ef|]; split; [congruence|]);
    conjs; try done; try (by constructor; cbn; try constructor; lia || done);
    auto.
Qed.

Lemma missing_zero es :
  Forall (fun e => 0 <= e.2) es -> (forall s, entries_of s es = 0) -> total_of es = 0.
Proof.
  induction 1 as [|e es He HF IH]; [done|]. intros Hz. rewrite total_of_cons.
  assert (Hn : forall s, 0 <= entries_of s es) by (intros s; by apply entries_of_nonneg).
  assert (He0 : e.2 = 0).
  { specialize (Hz e.1). rewrite entries_of_cons, decide_True in Hz by done. specialize (Hn e.1). lia. }
  rewrite IH; [lia|]. intros s. specialize (Hz s). rewrite entries_of_cons, He0 in Hz.
  destruct (decide _); lia.
Qed.
