(* ===== verification/BooksFacts.v ===== *)
(** A block's books through the steps of its life, the ledger's movements of money as one step
    relation, and the debits a restart re-applies: the lemmas behind [LedgerProps.v]. *)

From S2P Require Import Prelude Tides Split SplitFacts Window WindowFacts BalanceFacts MinersFacts.
From S2P Require Import Grace Ledger LedgerFacts.
Open Scope Z_scope.

(** * Holds *)

(** * Stale balances *)

Lemma stale_carries_run w now after min :
  window_ok w ->
  exists l, stale_carries w now after min = Ret l /\
    Forall (fun sc => carry_of w (sc_identity sc) = sc_sats sc /\ 0 < sc_sats sc /\
      work_of w (sc_identity sc) = 0 /\ is_Some (ident_index w !! sc_identity sc) /\
      after <= sat_sub now (last_seen_of w (sc_identity sc))) l.
Proof.
  intros OK. unfold stale_carries, stale_carries_in.
  set (g := fun e : Z * Z => {| sc_identity := name_of w e.1; sc_sats := e.2;
                                 sc_last_seen := lookup0 (last_seen w) e.1 |}).
  rewrite (mapM_Ret _ g).
  2:{ apply Forall_forall. intros [i v] Hin. apply list_elem_of_filter in Hin as [_ Hin].
      apply elem_of_map_to_list in Hin. apply (wo_carry _ OK) in Hin as [Hi _].
      unfold stale_carry, ident_name. cbn [fst snd]. by rewrite (name_of_interned w i Hi). }
  mstep. eexists. split; [reflexivity|]. rewrite sort_by_perm.
  apply Forall_forall. intros sc Hin. apply list_elem_of_fmap in Hin as ([i v] & -> & Hin).
  apply list_elem_of_filter in Hin as [(_ & Ht & _ & Hst) Hin]. apply elem_of_map_to_list in Hin.
  pose proof (wo_carry _ OK _ _ Hin) as [Hi Hv]. pose proof (name_of_index w OK i Hi) as Hidx.
  unfold g. cbn [sc_identity sc_sats fst snd] in *. unfold carry_of, of_identity, work_of, last_seen_of, of_identity.
  rewrite Hidx. unfold lookup0 in *. rewrite Hin. cbn. split; [done|]. split; [lia|].
  split; [|split; [by eexists | done]].
  destruct (totals w !! i) as [[[wk n] t]|]; [discriminate Ht | done].
Qed.

(** The stale balances by name. *)
Definition stale_balance (w : Window) (now after : Z) (id : string) (v : Z) : Prop :=
  carry_of w id = v /\ 0 < v /\ work_of w id = 0 /\ is_Some (ident_index w !! id) /\
  after <= sat_sub now (last_seen_of w id).

Lemma stale_map_ok w now after l : forall m : gmap string Z,
  map_Forall (stale_balance w now after) m ->
  Forall (fun sc => stale_balance w now after (sc_identity sc) (sc_sats sc)) l ->
  map_Forall (stale_balance w now after)
    (foldl (fun m s => <[sc_identity s := sc_sats s]> m) m l).
Proof.
  induction l as [|sc l IH]; intros m Hm HF; [done|]. apply Forall_cons in HF as [Hsc HF].
  cbn [foldl]. apply IH; [|done]. by apply map_Forall_insert_2.
Qed.

(** * Placing a hold *)

Section Placing.
Context (w0 : Window) (now after : Z) (stale : gmap string Z).
Hypothesis OK0 : window_ok w0.
Hypothesis S0 : stock w0 <= i64_max.
Hypothesis ST : map_Forall (stale_balance w0 now after) stale.

(** While entries are moved from carry into the hold. *)
Record placing (st : Window * list (string * Z) * list HoldSkip) (n : nat) : Prop := {
  pg_ok : window_ok st.1.1;
  pg_carry : forall s, carry_of st.1.1 s = carry_of w0 s - entries_of s st.1.2;
  pg_debt : forall s, debt_of st.1.1 s = debt_of w0 s;
  pg_holds : holds st.1.1 = holds w0;
  pg_totals : msum (carry st.1.1) = msum (carry w0) - total_of st.1.2 /\
    msum (debt st.1.1) = msum (debt w0);
  pg_same : ident_index st.1.1 = ident_index w0;
  pg_len : idents st.1.1 = idents w0;
  pg_rows : credits st.1.1 = credits w0 /\ totals st.1.1 = totals w0 /\ total_work st.1.1 = total_work w0;
  pg_held : Forall (fun e => stale !! e.1 = Some e.2) st.1.2;
  pg_distinct : NoDup (map fst st.1.2);
  pg_count : (length st.1.2 + length st.2 = n)%nat
}.

Lemma entries_of_absent s es : s ∉ map fst es -> entries_of s es = 0.
Proof.
  induction es as [|e es IH]; [done|]. cbn [map]. intros H. apply not_elem_of_cons in H as [H1 H2].
  rewrite entries_of_cons, decide_False by done. by rewrite IH.
Qed.

Lemma hold_one_ok st n e :
  placing st n -> exists st', hold_one stale st e = Ret st' /\ placing st' (S n).
Proof using OK0 S0 ST.
  destruct st as [[w held] skipped]. intros P. unfold hold_one.
  destruct (hold_refusal stale held e) as [reason|] eqn:E.
  - eexists. split; [reflexivity|]. destruct P. constructor; cbn [fst snd] in *; try done.
    rewrite length_app. cbn [length]. lia.
  - unfold hold_refusal in E. destruct (existsb _ held) eqn:Ex; [discriminate|].
    destruct (e.2 =? 0) eqn:Ez; [discriminate|].
    destruct (stale !! e.1) as [have|] eqn:Es; [|discriminate].
    destruct (have =? e.2) eqn:Eh; [|discriminate]. bools. subst have.
    assert (Hnot : e.1 ∉ map fst held).
    { intros Hin. apply list_elem_of_fmap in Hin as (h & Hh & Hin).
      assert (existsb (fun h => bool_decide (h.1 = e.1)) held = true); [|congruence].
      apply existsb_exists. exists h. split; [by apply list_elem_of_In|]. by apply bool_decide_eq_true. }
    pose proof (ST _ _ Es) as (Hcar & Hpos & _ & Hk & _).
    destruct (stock_bounds w0 e.1 OK0) as (Hb & _).
    assert (Hneg : neg_i64 (as_i64 e.2) = Ret (- e.2)).
    { unfold as_i64. rewrite (proj2 (Z.leb_le _ _)) by lia. unfold neg_i64.
      rewrite (proj2 (Z.eqb_neq _ _)) by lia. done. }
    rewrite Hneg. mstep. eexists. split; [reflexivity|].
    destruct P as [P1 P2 P3 P4 [P5 P5'] P6 P7 P8 P9 P10 P11]. cbn [fst snd] in *.
    assert (Hk' : is_Some (ident_index w !! e.1)) by by rewrite P6.
    destruct (adjust_carry_moved w e.1 (- e.2) P1 (or_intror Hk')) as [_ M].
    assert (Hc : carry_of w e.1 = e.2) by (rewrite P2, entries_of_absent by done; lia).
    rewrite Hc in M. assert (Hz : add_signed e.2 (- e.2) = 0).
    { unfold add_signed. rewrite (proj2 (Z.ltb_lt _ _)) by lia. sat_lia. }
    rewrite Hz in M.
    assert (Hfr : exists m, (adjust_carry w e.1 (- e.2)).1 = with_carry w m).
    { unfold adjust_carry, intern. destruct Hk' as [j Hj]. rewrite Hj. by eexists. }
    destruct Hfr as [m Hfr]. rewrite Hfr in *.
    constructor; cbn [fst snd].
    + apply M.
    + intros s. rewrite (mv_carry _ _ _ _ _ M), entries_of_app, P2. destruct e as [id x]; cbn [fst snd] in *.
      rewrite entries_of_one. unfold one. destruct (decide (s = id)) as [->|]; [|lia].
      rewrite entries_of_absent by done. lia.
    + intros s. rewrite (mv_debt _ _ _ _ _ M), <- P3. by destruct (decide (s = e.1)) as [->|].
    + apply P4.
    + rewrite (mv_total_carry _ _ _ _ _ M), P5, Hc, total_of_app. split; [|exact P5'].
      unfold total_of at 3. cbn. lia.
    + apply P6.
    + apply P7.
    + apply P8.
    + apply Forall_app. by split; [|constructor].
    + rewrite map_app. apply NoDup_app. split; [done|]. split; [|by apply NoDup_singleton].
      intros x Hx Hx'. apply list_elem_of_singleton in Hx' as ->. done.
    + rewrite length_app. cbn [length]. lia.
Qed.

Lemma hold_all_ok es : forall st n,
  placing st n -> exists st', hold_all stale st es = Ret st' /\ placing st' (n + length es)%nat.
Proof using OK0 S0 ST.
  induction es as [|e es IH]; intros st n P; cbn [hold_all].
  - exists st. rewrite Nat.add_0_r. done.
  - destruct (hold_one_ok st n e P) as (st1 & E & P1). rewrite E. mstep.
    destruct (IH st1 (S n) P1) as (st' & E' & P'). exists st'. split; [done|].
    cbn [length]. by rewrite <- plus_n_Sm.
Qed.
End Placing.

(** What a hold request does. *)
Record held_ok (w : Window) (now after : Z) (w' : Window) (held : list (string * Z)) : Prop := {
  hd_effects : effects w w' (fun _ => 0) 0 0;
  hd_carry : forall s, carry_of w' s = carry_of w s - entries_of s held;
  hd_held : forall s, held_of w' s = held_of w s + entries_of s held;
  hd_stale : Forall (fun e => stale_balance w now after e.1 e.2) held;
  hd_distinct : NoDup (map fst held)
}.

Lemma hold_carry_run w batch es now after min tip ready :
  window_ok w -> stock w <= i64_max ->
  match hold_carry w batch es now after min tip ready with
  | Panic => False
  | Ret (Err _) => is_Some (holds w !! batch)
  | Ret (Ok (w', held, skipped)) =>
      holds w !! batch = None /\ held_ok w now after w' held /\
      (length held + length skipped = length es)%nat /\
      (held <> [] -> entries <$> holds w' !! batch = Some held)
  end.
Proof.
  intros OK S0. unfold hold_carry. destruct (holds w !! batch) as [h|] eqn:Eb; [by eexists|].
  destruct (stale_carries_run w now after min OK) as (l & El & HF). rewrite El. mstep.
  assert (ST : map_Forall (stale_balance w now after) (stale_map l)).
  { apply stale_map_ok; [apply map_Forall_empty | done]. }
  assert (P0 : placing w (stale_map l) (w, [], []) 0).
  { constructor; cbn [fst snd]; try done.
    - intros s. change (entries_of s []) with 0. lia.
    - change (total_of []) with 0. split; [lia | done].
    - constructor. }
  destruct (hold_all_ok w now after (stale_map l) OK S0 ST es _ _ P0) as ([[w1 held] skipped] & E & P).
  rewrite E. mstep. destruct P as [P1 P2 P3 P4 [P5 P5'] P6 P7 P8 P9 P10 P11]. cbn [fst snd] in *.
  split; [done|].
  assert (Hst : Forall (fun e => stale_balance w now after e.1 e.2) held).
  { eapply Forall_impl; [exact P9|]. intros e He. by apply ST. }
  assert (Hpos : Forall (fun e => 0 < e.2) held).
  { eapply Forall_impl; [exact Hst|]. intros e (_ & ? & _). done. }
  destruct held as [|e0 held0] eqn:Eheld.
  - split; [|split; [done | done]].
    assert (Hh : forall s, held_of w1 s = held_of w s) by (intros s; unfold held_of; by rewrite P4).
    constructor; try done.
    + constructor; try done.
      * intros s. unfold net. rewrite P2, P3, Hh. change (entries_of s []) with 0. lia.
      * unfold stock. rewrite P4, P5, P5'. change (total_of []) with 0. lia.
      * intros s j. by rewrite P6.
      * rewrite P7. lia.
      * intros V s. rewrite P2, P3. change (entries_of s []) with 0. rewrite Z.sub_0_r. apply V.
    + intros s. rewrite Hh. change (entries_of s []) with 0. lia.
  - rewrite <- Eheld in *. set (h := {| created_ts := now; hold_height := tip; ready_height := ready;
                                        entries := held |}).
    assert (Hnone : holds w1 !! batch = None) by by rewrite P4.
    assert (Hh : forall s, held_of (with_holds w1 (<[batch := h]> (holds w1))) s
       = held_of w s + entries_of s held).
    { intros s. unfold held_of. cbn [holds with_holds]. rewrite fsum_insert, P4 by done.
      change (hold_of s h) with (entries_of s held). lia. }
    split; [|split; [done|]].
    + assert (Hc : forall s, carry_of (with_holds w1 (<[batch := h]> (holds w1))) s
         = carry_of w s - entries_of s held) by apply P2.
      assert (Hd : forall s, debt_of (with_holds w1 (<[batch := h]> (holds w1))) s = debt_of w s) by apply P3.
      constructor; try done. constructor; try done.
      * apply with_holds_ok; [done|]. apply map_Forall_insert_2; [|apply P1].
        split; [cbn; by rewrite Eheld | done].
      * intros s. unfold net. rewrite Hc, Hd, Hh. lia.
      * unfold stock. cbn [holds with_holds carry debt]. rewrite fsum_insert by done.
        change (hold_total h) with (total_of held). rewrite P4, P5, P5'. lia.
      * intros s j Hj. cbn. by rewrite P6.
      * cbn [idents with_holds]. rewrite P7. lia.
      * intros V s. rewrite Hc, Hd. destruct (V s) as [Hz|Hz]; [|by right]. left.
        pose proof (carry_of_range w1 s P1) as Hr. unfold in_range in Hr. rewrite P2 in Hr.
        pose proof (entries_of_nonneg s held) as Hn.
        assert (0 <= entries_of s held); [|lia]. apply Hn.
        eapply Forall_impl; [exact Hpos|]. cbn. lia.
    + intros _. cbn [holds with_holds]. by rewrite lookup_insert_eq.
Qed.

(** * Ending a hold *)

Lemma drop_hold_effects w batch h :
  window_ok w -> holds w !! batch = Some h ->
  effects w (with_holds w (delete batch (holds w))) (fun s => - hold_of s h) (- hold_total h) 0.
Proof.
  intros OK Hb. constructor; try done.
  - apply with_holds_ok; [done|]. apply map_Forall_delete, OK.
  - intros s. unfold net, held_of. cbn [holds with_holds]. rewrite (fsum_delete _ _ _ _ Hb).
    unfold carry_of, debt_of, of_identity. cbn. lia.
  - unfold stock. cbn [holds with_holds carry debt]. rewrite (fsum_delete _ _ _ _ Hb). lia.
  - cbn. lia.
Qed.

Lemma release_hold_run w batch h :
  window_ok w -> stock w <= i64_max -> holds w !! batch = Some h -> recorded w (entries h) ->
  exists w', release_hold w batch = Some (w', entries h) /\ effects w w' (fun _ => 0) 0 0 /\
    rebate_owed w' = rebate_owed w.
Proof.
  intros OK S0 Hb HR. unfold release_hold. rewrite Hb. eexists. split; [reflexivity|].
  pose proof (drop_hold_effects w batch h OK Hb) as E1.
  set (w1 := with_holds w (delete batch (holds w))) in *.
  destruct (fold_effects (fun w e => (restore_carry w e.1 e.2).1) 1 restore_carry_effects
    (entries h) w1) as [E2 R2].
  - apply E1.
  - exact HR.
  - pose proof (ef_stock _ _ _ _ _ E1) as Hs. change (total_of (entries h)) with (hold_total h). lia.
  - split; [|by rewrite R2]. change (total_of (entries h)) with (hold_total h) in E2.
    eapply effects_ext; [exact (effects_trans _ _ _ _ _ _ _ _ _ E1 E2) | | lia | lia].
    intros s. cbn. change (hold_of s h) with (entries_of s (entries h)). lia.
Qed.

(** * One block's books over time *)

Section BookSteps.
Context (delta : list (string * Z)).

(** The block is seen, confirmed, or found not to be in the chain, in the order the pool does it:
    credits only once the debits are on. Each step is taken with room for the block's amounts. *)
Inductive book_step : Window * Books -> Window * Books -> Prop :=
| step_book_debits w b :
    room w (length delta) (volume delta) -> book_step (w, b) (book_debits w delta b)
| step_book_credits w b w' b' lines :
    debits_live b = true -> room w (length delta) (volume delta) ->
    book_credits w delta b = (w', b', lines) -> book_step (w, b) (w', b')
| step_unbook w b w' b' short :
    stock w + on_books b <= i64_max -> unbook w b = (w', b', short) -> book_step (w, b) (w', b').

Definition debit_of (s : string) : Z := entries_of s (debits_in delta).
Definition credit_of (s : string) : Z := entries_of s (credits_in delta).

(** What the block's books stand for, against the window [w0] it was first seen in. *)
Record booked_at (w0 : Window) (st : Window * Books) : Prop := {
  ba_ok : window_ok st.1;
  ba_on : on_ledger st.1 st.2;
  ba_order : credits_live st.2 = true -> debits_live st.2 = true;
  ba_net : forall s, net st.1 s = net w0 s
    + (if debits_live st.2 then debit_of s else 0) + (if credits_live st.2 then credit_of s else 0);
  ba_booked : forall s, booked_of st.2 s
    = (if debits_live st.2 then debit_of s else 0) + (if credits_live st.2 then credit_of s else 0);
  ba_fresh : credits_live st.2 = true ->
    forall s, entries_of s (credited_sats st.2) <= carry_of st.1 s;
  ba_owed : rebate_owed st.1 + (if debits_live st.2 then rebate_debited st.2 else 0)
    = rebate_owed w0 + (if credits_live st.2 then rebate_added st.2 else 0);
  ba_drawn : debits_live st.2 = true -> rebate_debited st.2 <= rebate_owed w0;
  ba_off : (debits_live st.2 = false -> rebate_debited st.2 = 0) /\
    (credits_live st.2 = false -> rebate_added st.2 = 0);
  ba_params : 0 <= bk_owed_credited st.2 /\ 0 <= bk_deferred st.2
}.

Lemma booked_new w0 oc df :
  window_ok w0 -> 0 <= oc -> 0 <= df -> booked_at w0 (w0, books_new oc df).
Proof.
  intros OK Hoc Hdf. constructor; cbn; try done; try lia.
  - constructor; cbn; try constructor; lia.
Qed.

Lemma booked_debits w0 w b :
  booked_at w0 (w, b) -> room w (length delta) (volume delta) ->
  booked_at w0 (book_debits w delta b).
Proof.
  intros [B1 B2 B3 B4 B5 B6 B7 B8 [B9 B9'] [B10 B11]] R. cbn [fst snd] in *.
  destruct (debits_live b) eqn:Ed.
  { unfold book_debits. rewrite Ed. constructor; cbn [fst snd]; rewrite ?Ed; done. }
  pose proof (book_debits_run w delta b B1 Ed B10 R) as H.
  destruct (book_debits w delta b) as [w' b'].
  destruct H as (E & Hl & Hd & Hs & Hsum & Hrd & Ho & Hle & Hcl & Hcs & Hdp & Hra & Hoc & Hdf).
  assert (Hcf : credits_live b = false) by (destruct (credits_live b); [specialize (B3 eq_refl); congruence | done]).
  rewrite Hcf in *. specialize (B9' eq_refl).
  constructor; cbn [fst snd]; rewrite ?Hl, ?Hcl.
  - apply E.
  - destruct B2. constructor; try done; rewrite ?Hcs, ?Hdp, ?Hra; try done; by eapply recorded_mono.
  - done.
  - intros s. rewrite (ef_net _ _ _ _ _ E), B4. unfold debit_of. lia.
  - intros s. unfold booked_of. rewrite Hl, Hcl, Hsum. unfold debit_of. lia.
  - done.
  - lia.
  - intros _. lia.
  - split; [done|]. intros _. by rewrite Hra.
  - by rewrite Hoc, Hdf.
Qed.

Lemma booked_credits w0 w b w' b' lines :
  booked_at w0 (w, b) -> debits_live b = true -> room w (length delta) (volume delta) ->
  book_credits w delta b = (w', b', lines) -> booked_at w0 (w', b').
Proof.
  intros B Hd R E. destruct B as [B1 B2 B3 B4 B5 B6 B7 B8 [B9 B9'] [B10 B11]]; cbn [fst snd] in *.
  destruct (credits_live b) eqn:Ec.
  { unfold book_credits in E. rewrite Ec in E. injection E as <- <- <-.
    constructor; cbn [fst snd]; rewrite ?Ec; done. }
  pose proof (book_credits_run w delta b B1 Ec B11 R) as H. rewrite E in H.
  destruct H as (Ef & Hl & Hc & Hp & Hsum & Hcar & Hra & Ho & Hdl & Hdb & Hsh & Hrd & Hoc & Hdf).
  rewrite Hd in *. specialize (B9' eq_refl).
  constructor; cbn [fst snd]; rewrite ?Hl, ?Hdl.
  - apply Ef.
  - destruct B2. constructor; try done; rewrite ?Hdb, ?Hsh, ?Hrd; try done; by eapply recorded_mono.
  - done.
  - intros s. rewrite (ef_net _ _ _ _ _ Ef), B4. unfold credit_of. lia.
  - intros s. specialize (B5 s). unfold booked_of in *. rewrite Hd, Ec in B5.
    rewrite Hl, Hdl, Hsum, Hdb, Hsh. unfold credit_of. lia.
  - intros _ s. rewrite Hcar. pose proof (carry_of_range w s B1) as Hr. unfold in_range in Hr. lia.
  - rewrite Hrd. lia.
  - rewrite Hrd. by auto.
  - split; [done | done].
  - by rewrite Hoc, Hdf.
Qed.

Lemma booked_unbook w0 w b w' b' short :
  booked_at w0 (w, b) -> window_ok w0 -> stock w + on_books b <= i64_max ->
  unbook w b = (w', b', short) -> booked_at w0 (w', b') /\ short = 0.
Proof.
  intros [B1 B2 B3 B4 B5 B6 B7 B8 [B9 B9'] [B10 B11]] OK0 Hst E; cbn [fst snd] in *.
  pose proof (wo_owed _ OK0) as Ho0. pose proof (wo_owed _ B1) as Ho. unfold in_range in *.
  assert (B7' : rebate_owed w + rebate_debited b = rebate_owed w0 + rebate_added b).
  { destruct (debits_live b), (credits_live b); try specialize (B9 eq_refl); try specialize (B9' eq_refl); lia. }
  destruct (unbook_run w b B1 B2 Hst) as (missing & H); [| done | done | lia |].
  { intros Hc. specialize (B8 (B3 Hc)). lia. }
  rewrite E in H. destruct H as (Hs & Hnn & Ef & Hr & Hd' & Hc' & O' & Hra & Hrd & Hoc & Hdf & Hz).
  assert (Hmz : forall s, entries_of s missing = 0).
  { apply Hz. intros s Hc. by apply B6. }
  split; [|rewrite Hs; by apply missing_zero].
  constructor; cbn [fst snd]; rewrite ?Hd', ?Hc'; try done; try lia.
  - apply Ef.
  - intros s. rewrite (ef_net _ _ _ _ _ Ef), B4, B5, Hmz. lia.
  - intros s. unfold booked_of. rewrite Hd', Hc'. lia.
Qed.

Lemma booked_steps w0 oc df st :
  window_ok w0 -> 0 <= oc -> 0 <= df -> rtc book_step (w0, books_new oc df) st -> booked_at w0 st.
Proof.
  intros OK Hoc Hdf H. pose proof (booked_new w0 oc df OK Hoc Hdf) as B. revert H B.
  generalize (w0, books_new oc df). intros s0 H. induction H as [|s1 s2 s3 S _ IH]; [done|].
  intros B. apply IH. inversion S; subst.
  - by apply booked_debits.
  - by eapply booked_credits.
  - by eapply booked_unbook.
Qed.
End BookSteps.

(** * Nobody has a balance beside a debt *)

(** The ledger's movements of money, each with room for what it moves. *)
Inductive money_step : Window -> Window -> Prop :=
| money_debits w delta b :
    debits_live b = false -> 0 <= bk_owed_credited b -> room w (length delta) (volume delta) ->
    money_step w (book_debits w delta b).1
| money_credits w delta b :
    credits_live b = false -> 0 <= bk_deferred b -> room w (length delta) (volume delta) ->
    money_step w (book_credits w delta b).1.1
| money_unbook w b :
    on_ledger w b -> stock w + on_books b <= i64_max ->
    (credits_live b = true -> rebate_added b <= rebate_owed w) ->
    (credits_live b = false -> rebate_added b = 0) -> (debits_live b = false -> rebate_debited b = 0) ->
    rebate_owed w - rebate_added b + rebate_debited b <= u64_max ->
    money_step w (unbook w b).1.1
| money_hold w batch es now after min tip ready w' held skipped :
    stock w <= i64_max ->
    hold_carry w batch es now after min tip ready = Ret (Ok (w', held, skipped)) -> money_step w w'
| money_release w batch h w' :
    stock w <= i64_max -> holds w !! batch = Some h -> recorded w (entries h) ->
    release_hold w batch = Some (w', entries h) -> money_step w w'
| money_finish w batch w' es : finish_hold w batch = Some (w', es) -> money_step w w'
| money_draw w id sats : 0 <= sats -> money_step w (draw_from_holds w id sats).1.

Lemma money_step_effects w w' :
  money_step w w' -> window_ok w -> exists f ds n, effects w w' f ds n.
Proof.
  destruct 1 as [w delta b Hl Ho R|w delta b Hl Ho R|w b O Hst Hra Hra0 Hrd0 Hrd
    |w batch es now after min tip ready w' held skipped S0 E|w batch h w' S0 Hb HR E
    |w batch w' es E|w id sats Hs]; intros OK.
  - pose proof (book_debits_run w delta b OK Hl Ho R) as H.
    destruct (book_debits w delta b) as [w' b']. eexists _, _, _. apply H.
  - pose proof (book_credits_run w delta b OK Hl Ho R) as H.
    destruct (book_credits w delta b) as [[w' b'] lines]. eexists _, _, _. apply H.
  - destruct (unbook_run w b OK O Hst Hra Hra0 Hrd0 Hrd) as (m & H).
    destruct (unbook w b) as [[w' b'] short]. eexists _, _, _. apply H.
  - pose proof (hold_carry_run w batch es now after min tip ready OK S0) as H. rewrite E in H.
    destruct H as (_ & H & _). eexists _, _, _. apply H.
  - destruct (release_hold_run w batch h OK S0 Hb HR) as (w1 & E1 & H & _).
    rewrite E in E1. injection E1 as ->. eexists _, _, _. exact H.
  - unfold finish_hold in E. destruct (holds w !! batch) as [h|] eqn:Eb; [|discriminate].
    injection E as <- <-. eexists _, _, _. by apply drop_hold_effects.
  - destruct (draw_effects w id sats OK Hs) as (_ & H & _). eexists _, _, _. exact H.
Qed.

(** * What a restart re-applies *)

Lemma draw_without_holds w id x : holds w = ∅ -> (draw_from_holds w id x).2 = 0 /\ (draw_from_holds w id x).1 = w.
Proof.
  intros H. unfold draw_from_holds. rewrite H. unfold hold_order. rewrite map_to_list_empty. cbn.
  split; [lia|]. destruct w; cbn in *. by subst.
Qed.

(** With nothing held, a debit is a movement of that identity's carry and debt alone. *)
Lemma book_debit_plain w id d deb sh :
  window_ok w -> holds w = ∅ -> room w 1 (- d) -> d < 0 ->
  let '(w', deb', sh') := book_debit (w, deb, sh) (id, d) in
  exists m o, 0 <= m <= carry_of w id /\ 0 <= o /\ m + o = - d /\
    deb' = deb ++ pos_entry id m /\ sh' = sh ++ pos_entry id o /\ holds w' = ∅ /\
    (forall s, carry_of w' s = carry_of w s - one id m s) /\
    (forall s, debt_of w' s = debt_of w s + one id o s).
Proof.
  intros OK Hh [Hsp Hst] Hd. unfold book_debit. destruct (stock_bounds w id OK) as (Hc & Hdb & _).
  destruct (adjust_carry_moved w id d OK (or_introl Hsp)) as [A2 M].
  assert (Ea : add_signed (carry_of w id) d = carry_of w id - Z.min (carry_of w id) (- d)).
  { replace d with (- (- d)) at 1 by lia. apply add_signed_neg; [by apply carry_of_range | lia]. }
  rewrite Ea in *. pose proof (moved_can_intern _ _ _ _ _ M (or_introl Hsp)) as Hk.
  destruct (adjust_carry w id d) as [w1 after]; cbn [fst snd] in *. subst after.
  set (m := Z.min (carry_of w id) (- d)) in *.
  replace (carry_of w id - (carry_of w id - m)) with m by lia.
  assert (Hh1 : holds w1 = ∅) by (rewrite (mv_holds _ _ _ _ _ M); exact Hh).
  assert (Hdr : (if 0 <? sat_sub (- d) m then draw_from_holds w1 id (sat_sub (- d) m) else (w1, 0)) = (w1, 0)).
  { destr_if; [|done]. destruct (draw_without_holds w1 id (sat_sub (- d) m) Hh1) as [H1 H2].
    destruct (draw_from_holds w1 id _); cbn in *. by subst. }
  rewrite Hdr, Z.add_0_r. assert (Hs : sat_sub (- d) m = - d - m) by (unfold m; sat_lia). rewrite Hs.
  assert (Hcar : forall s, carry_of w1 s = carry_of w s - one id m s).
  { intros s. rewrite (mv_carry _ _ _ _ _ M). unfold one. destruct (decide (s = id)) as [->|]; lia. }
  assert (Hdeb : forall s, debt_of w1 s = debt_of w s).
  { intros s. rewrite (mv_debt _ _ _ _ _ M). by destruct (decide (s = id)) as [->|]. }
  assert (Hpos : (if 0 <? m then deb ++ [(id, m)] else deb) = deb ++ pos_entry id m).
  { unfold pos_entry. destr_if; [done | by rewrite app_nil_r]. }
  rewrite Hpos. destr_if; bools.
  - exists m, (- d - m). split; [unfold m; lia|]. split; [lia|]. split; [lia|]. split; [done|].
    split; [unfold pos_entry; by rewrite (proj2 (Z.ltb_lt _ _) Hif)|].
    pose proof (accrue_debt_moved w1 id (- d - m) (mv_ok _ _ _ _ _ M) Hk ltac:(lia)) as M2.
    rewrite Hdeb in M2. assert (Hsat : sat_add u64_max (debt_of w id) (- d - m) = debt_of w id + (- d - m)) by sat_lia.
    rewrite Hsat in M2. split; [by rewrite (mv_holds _ _ _ _ _ M2)|]. split; intros s.
    + rewrite (mv_carry _ _ _ _ _ M2), <- Hcar. by destruct (decide (s = id)) as [->|].
    + rewrite (mv_debt _ _ _ _ _ M2). unfold one. destruct (decide (s = id)) as [->|]; [lia|]. rewrite Hdeb. lia.
  - exists m, 0. split; [unfold m; lia|]. split; [lia|]. split; [unfold m in *; lia|]. split; [done|].
    split; [unfold pos_entry; cbn; by rewrite app_nil_r|]. split; [done|]. split; [done|].
    intros s. rewrite Hdeb. unfold one. destruct (decide _); lia.
Qed.

Lemma book_debit_plain_fold es : forall w deb sh,
  window_ok w -> holds w = ∅ -> room w (length es) (- total_of es) -> Forall (fun e => e.2 < 0) es ->
  let '(w', deb', sh') := foldl book_debit (w, deb, sh) es in
  exists dm so, deb' = deb ++ dm /\ sh' = sh ++ so /\
    Forall (fun e => 0 < e.2) dm /\ Forall (fun e => 0 < e.2) so /\
    (forall s, carry_of w' s = carry_of w s - entries_of s dm) /\
    (forall s, debt_of w' s = debt_of w s + entries_of s so).
Proof.
  induction es as [|[id d] es IH]; intros w deb sh OK Hh R HF; cbn [foldl].
  { exists [], []. rewrite !app_nil_r. conjs; try done; intros s; change (entries_of s []) with 0; lia. }
  apply Forall_cons in HF as [Hd HF]. cbn [snd] in Hd. pose proof (total_of_neg es HF).
  rewrite total_of_cons in R. cbn [snd length] in R.
  assert (R1 : room w 1 (- d)) by (destruct R as [R1 R2]; unfold spare in *; split; [unfold spare|]; lia).
  pose proof (book_debit_ok w id d deb sh OK R1 Hd) as H0.
  pose proof (book_debit_plain w id d deb sh OK Hh R1 Hd) as H1.
  destruct (book_debit (w, deb, sh) (id, d)) as [[w1 deb1] sh1].
  destruct H0 as (_ & _ & _ & _ & _ & _ & _ & E1 & _).
  destruct H1 as (m & o & Hm & Ho & Hmo & -> & -> & Hh1 & Hc1 & Hd1).
  specialize (IH w1 (deb ++ pos_entry id m) (sh ++ pos_entry id o) (ef_ok _ _ _ _ _ E1) Hh1).
  destruct (foldl book_debit _ es) as [[w' deb'] sh'].
  destruct IH as (dm & so & -> & -> & Fd & Fs & Hc & Hdd); [|done|].
  { eapply effects_room; [exact E1|]. destruct R as [R1' R2']. split; [done | lia]. }
  assert (Fp : forall x, 0 <= x -> Forall (fun e : string * Z => 0 < e.2) (pos_entry id x)).
  { intros x Hx. unfold pos_entry. destr_if; bools; [|done]. by constructor. }
  exists (pos_entry id m ++ dm), (pos_entry id o ++ so). rewrite <- !app_assoc.
  conjs; try done; try (apply Forall_app; split; [apply Fp; lia | done]); intros s;
    rewrite entries_of_app, entries_of_pos by lia.
  - rewrite Hc, Hc1. lia.
  - rewrite Hdd, Hd1. lia.
Qed.

Lemma adjust_down_fold es : forall w,
  window_ok w -> recorded w es -> (forall s, entries_of s es <= carry_of w s) ->
  let w' := foldl (fun w e => (adjust_carry w e.1 (- clamp_i64 e.2)).1) w es in
  window_ok w' /\ rebate_owed w' = rebate_owed w /\
    (forall s, carry_of w' s = carry_of w s - entries_of s es) /\
    (forall s, debt_of w' s = debt_of w s) /\
    (forall s, is_Some (ident_index w !! s) -> is_Some (ident_index w' !! s)).
Proof.
  induction es as [|e es IH]; intros w OK HF Hle; cbn [foldl].
  { conjs; try done. intros s. change (entries_of s []) with 0. lia. }
  apply Forall_cons in HF as [[Hx Hk] HF].
  assert (Hpos : forall s, 0 <= entries_of s es).
  { intros s. apply entries_of_nonneg. eapply Forall_impl; [exact HF|]. cbn. intros ? [? _]. lia. }
  assert (Hcl : clamp_i64 e.2 = e.2) by (unfold clamp_i64; lia). rewrite Hcl.
  destruct (adjust_carry_moved w e.1 (- e.2) OK (or_intror Hk)) as [_ M].
  pose proof (Hle e.1) as He. rewrite entries_of_cons, decide_True in He by done.
  specialize (Hpos e.1) as Hp1.
  rewrite add_signed_neg, Z.min_r in M by (lia || by apply carry_of_range).
  set (w1 := (adjust_carry w e.1 (- e.2)).1) in *.
  assert (Hc1 : forall s, carry_of w1 s = carry_of w s - one e.1 e.2 s).
  { intros s. rewrite (mv_carry _ _ _ _ _ M). unfold one. destruct (decide (s = e.1)) as [->|]; lia. }
  assert (Hk1 : forall s, is_Some (ident_index w !! s) -> is_Some (ident_index w1 !! s)).
  { intros s [j Hj]. exists j. by apply (mv_same _ _ _ _ _ M). }
  destruct (IH w1 (mv_ok _ _ _ _ _ M)) as (OK' & Ho & Hc & Hd & Hk').
  - eapply Forall_impl; [exact HF|]. intros x [? ?]. split; [done | by apply Hk1].
  - intros s. rewrite Hc1. specialize (Hle s). rewrite entries_of_cons in Hle. unfold one.
    destruct (decide (s = e.1)), (decide (e.1 = s)); congruence || lia.
  - conjs; try done.
    + rewrite Ho. apply M.
    + intros s. rewrite Hc, Hc1, entries_of_cons. unfold one.
      destruct (decide (s = e.1)), (decide (e.1 = s)); congruence || lia.
    + intros s. rewrite Hd, (mv_debt _ _ _ _ _ M). by destruct (decide (s = e.1)) as [->|].
    + intros s Hs. by apply Hk', Hk1.
Qed.

Lemma accrue_fold es : forall w,
  window_ok w -> recorded w es -> (forall s, debt_of w s + entries_of s es <= u64_max) ->
  let w' := foldl (fun w e => accrue_debt w e.1 e.2) w es in
  rebate_owed w' = rebate_owed w /\ (forall s, carry_of w' s = carry_of w s) /\
    (forall s, debt_of w' s = debt_of w s + entries_of s es).
Proof.
  induction es as [|e es IH]; intros w OK HF Hle; cbn [foldl].
  { conjs; try done. intros s. change (entries_of s []) with 0. lia. }
  apply Forall_cons in HF as [[Hx Hk] HF].
  assert (Hpos : forall s, 0 <= entries_of s es).
  { intros s. apply entries_of_nonneg. eapply Forall_impl; [exact HF|]. cbn. intros ? [? _]. lia. }
  pose proof (accrue_debt_moved w e.1 e.2 OK (or_intror Hk) ltac:(lia)) as M.
  pose proof (Hle e.1) as He. rewrite entries_of_cons, decide_True in He by done. specialize (Hpos e.1) as Hp1.
  assert (Hs : sat_add u64_max (debt_of w e.1) e.2 = debt_of w e.1 + e.2) by sat_lia. rewrite Hs in M.
  set (w1 := accrue_debt w e.1 e.2) in *.
  assert (Hd1 : forall s, debt_of w1 s = debt_of w s + one e.1 e.2 s).
  { intros s. rewrite (mv_debt _ _ _ _ _ M). unfold one. destruct (decide (s = e.1)) as [->|]; lia. }
  destruct (IH w1 (mv_ok _ _ _ _ _ M)) as (Ho & Hc & Hd).
  - eapply Forall_impl; [exact HF|]. intros x [? [j Hj]]. split; [done|]. exists j. by apply (mv_same _ _ _ _ _ M).
  - intros s. rewrite Hd1. specialize (Hle s). rewrite entries_of_cons in Hle. unfold one.
    destruct (decide (s = e.1)), (decide (e.1 = s)); congruence || lia.
  - conjs.
    + rewrite Ho. apply M.
    + intros s. rewrite Hc, (mv_carry _ _ _ _ _ M). by destruct (decide (s = e.1)) as [->|].
    + intros s. rewrite Hd, Hd1, entries_of_cons. unfold one.
      destruct (decide (s = e.1)), (decide (e.1 = s)); congruence || lia.
Qed.

Lemma plain_names es : forall w deb sh,
  Forall (fun e => e.1 ∈ map fst es) deb -> Forall (fun e => e.1 ∈ map fst es) sh ->
  forall rest, es = rest \/ (exists pre, es = pre ++ rest) ->
  let '(_, deb', sh') := foldl book_debit (w, deb, sh) rest in
  Forall (fun e => e.1 ∈ map fst es) deb' /\ Forall (fun e => e.1 ∈ map fst es) sh'.
Proof.
  intros w deb sh Hd Hs rest Hr.
  assert (Hin : Forall (fun e => e.1 ∈ map fst es) rest).
  { apply Forall_forall. intros e He. apply list_elem_of_fmap. exists e. split; [done|].
    destruct Hr as [->|[pre ->]]; [done|]. apply elem_of_app. by right. }
  clear Hr. revert w deb sh Hd Hs. induction Hin as [|[id d] rest He _ IH]; intros w deb sh Hd Hs; cbn [foldl]; [done|].
  assert (Hsnoc : forall (l : list (string * Z)) x, Forall (fun e => e.1 ∈ map fst es) l ->
     Forall (fun e => e.1 ∈ map fst es) (l ++ [(id, x)])).
  { intros l x Hl. apply Forall_app. split; [done|]. by constructor. }
  unfold book_debit at 2. destruct (adjust_carry w id d) as [w1 after].
  destruct (if 0 <? _ then _ else _) as [w2 drawn].
  destruct (0 <? carry_of w id - after + drawn), (0 <? sat_sub (- d) (carry_of w id - after + drawn)); apply IH; auto.
Qed.

Lemma reconcile_ok w delta b :
  window_ok w -> holds w = ∅ -> debits_live b = false -> 0 <= bk_owed_credited b ->
  room w (length delta) (volume delta) ->
  Forall (fun e => is_Some (ident_index w !! e.1)) (debits_in delta) ->
  let '(w1, b1) := book_debits w delta b in let w2 := reconcile_books w b1 in
  (forall s, carry_of w2 s = carry_of w1 s) /\ (forall s, debt_of w2 s = debt_of w1 s) /\
  rebate_owed w2 = rebate_owed w1.
Proof.
  intros OK Hh Hl Hoc R Hk. pose proof (book_debits_run w delta b OK Hl Hoc R) as B.
  pose proof R as [R1 R2]. unfold volume in R2. pose proof (total_of_pos _ (credits_in_pos delta)).
  pose proof (debits_in_length delta).
  assert (R' : room w (length (debits_in delta)) (- total_of (debits_in delta)))
    by (split; [unfold spare in *; lia | lia]).
  pose proof (book_debit_plain_fold (debits_in delta) w [] [] OK Hh R' (debits_in_neg delta)) as P.
  pose proof (plain_names (debits_in delta) w [] [] (Forall_nil_2 _) (Forall_nil_2 _) _ (or_introl eq_refl)) as N.
  unfold book_debits in *. rewrite Hl in *. fold (debits_in delta) in *.
  destruct (foldl book_debit (w, [], []) (debits_in delta)) as [[w1 deb] sh].
  cbn [app] in P. destruct P as (dm & so & -> & -> & Fd & Fs & Hc & Hd). destruct N as [Nd Ns].
  destruct B as (E & _ & Bd & Bs & Hsum & Hrd & Ho & Hle & _). cbn [debited shortfall rebate_debited] in *.
  assert (Hrec : forall es, Forall (fun e => e.1 ∈ map fst (debits_in delta)) es ->
     recorded (adjust_rebate_owed w1 (- clamp_i64 (bk_owed_credited b))) es -> recorded w es).
  { intros es Hn HF. apply Forall_forall. intros e He. eapply Forall_forall in HF as [Hx _]; [|exact He].
    eapply Forall_forall in Hn; [|exact He]. split; [done|]. apply list_elem_of_fmap in Hn as (e' & -> & He').
    eapply Forall_forall in Hk; [|exact He']. done. }
  apply (Hrec _ Nd) in Bd. apply (Hrec _ Ns) in Bs. unfold reconcile_books. cbn [debited shortfall rebate_debited].
  pose proof (adjust_down_fold dm w OK Bd) as A.
  destruct A as (OK2 & Ho2 & Hc2 & Hd2 & Hk2).
  { intros s. pose proof (carry_of_range (adjust_rebate_owed w1 (- clamp_i64 (bk_owed_credited b))) s
      (ef_ok _ _ _ _ _ E)) as Hr. unfold in_range in Hr.
    change (carry_of (adjust_rebate_owed w1 (- clamp_i64 (bk_owed_credited b))) s) with (carry_of w1 s) in Hr.
    rewrite Hc in Hr. lia. }
  set (w2 := foldl (fun w e => (adjust_carry w e.1 (- clamp_i64 e.2)).1) w dm) in *.
  set (rd := rebate_owed w1 - rebate_owed (adjust_rebate_owed w1 (- clamp_i64 (bk_owed_credited b)))) in *.
  assert (Hcl : clamp_i64 rd = rd) by (unfold clamp_i64; lia). rewrite Hcl.
  pose proof (wo_owed _ OK2) as Hr2. unfold in_range in Hr2.
  assert (Hadj : adjust_rebate_owed w2 (- rd) = with_rebate_owed w2 (rebate_owed w - rd)).
  { unfold adjust_rebate_owed. rewrite add_signed_neg by (done || lia). rewrite Ho2. f_equal. lia. }
  rewrite Hadj. set (w3 := with_rebate_owed w2 (rebate_owed w - rd)) in *.
  assert (OK3 : window_ok w3) by (apply with_rebate_owed_ok; [done | unfold in_range; lia]).
  pose proof (accrue_fold so w3 OK3) as A3. cbv zeta in A3. destruct A3 as (Ho3 & Hc3 & Hd3).
  - eapply Forall_impl; [exact Bs|]. intros e [? ?]. split; [done|]. by apply Hk2.
  - intros s. change (debt_of w3 s) with (debt_of w2 s). rewrite Hd2, <- Hd.
    change (debt_of w1 s) with (debt_of (adjust_rebate_owed w1 (- clamp_i64 (bk_owed_credited b))) s).
    apply (debt_of_range _ s (ef_ok _ _ _ _ _ E)).
  - conjs.
    + intros s. rewrite Hc3. change (carry_of w3 s) with (carry_of w2 s). rewrite Hc2.
      change (carry_of (adjust_rebate_owed w1 (- clamp_i64 (bk_owed_credited b))) s) with (carry_of w1 s).
      by rewrite Hc.
    + intros s. rewrite Hd3. change (debt_of w3 s) with (debt_of w2 s). rewrite Hd2.
      change (debt_of (adjust_rebate_owed w1 (- clamp_i64 (bk_owed_credited b))) s) with (debt_of w1 s).
      by rewrite Hd.
    + rewrite Ho3. cbn [rebate_owed w3 with_rebate_owed]. by rewrite Ho.
Qed.
