(* ===== verification/LedgerProps.v ===== *)
(** The properties of the ledger: a block's books are exact and undone exactly, holds conserve
    every position, nobody has a balance beside a debt, and what a restart re-applies. *)

From S2P Require Import Prelude Tides Split SplitFacts Window WindowFacts BalanceFacts MinersFacts.
From S2P Require Import Grace Ledger LedgerFacts BooksFacts WindowProps.
Open Scope Z_scope.

(** A block that paid carol more than her carry and earned bob some. *)
Definition demo_delta : list (string * Z) := [("carol"%string, -1000); ("bob"%string, 300)].

Lemma demo_room : room demo_window (length demo_delta) (volume demo_delta).
Proof. split; vm_compute; discriminate. Qed.

(** C6: Whatever happens to a found block (seen, confirmed, thrown out, back again, any number of
    times), what it has on the books is exactly its debits once they are on and its credits once
    they are on: every identity's position (carry and holds, less debt) is its position before the
    block plus those, and the owed rebate likewise. In particular a block that is undone has left
    every position where it was. *)
Theorem block_books_exact w0 delta oc df w b :
  window_ok w0 -> 0 <= oc -> 0 <= df ->
  rtc (book_step delta) (w0, books_new oc df) (w, b) ->
  (forall s, net w s = net w0 s
    + (if debits_live b then entries_of s (debits_in delta) else 0)
    + (if credits_live b then entries_of s (credits_in delta) else 0)) /\
  rebate_owed w + rebate_debited b = rebate_owed w0 + rebate_added b /\ window_ok w.
Proof.
  intros OK Hoc Hdf H. destruct (booked_steps delta w0 oc df (w, b) OK Hoc Hdf H)
    as [B1 B2 B3 B4 B5 B6 B7 B8 [B9 B9'] _]; cbn [fst snd] in *.
  split; [exact B4|]. split; [|exact B1].
  destruct (debits_live b), (credits_live b); try specialize (B9 eq_refl); try specialize (B9' eq_refl); lia.
Qed.

Definition demo_booked : Window * Books := book_debits demo_window demo_delta (books_new 0 0).

Lemma block_books_exact_witness :
  (forall s, net demo_booked.1 s = net demo_window s
    + (if debits_live demo_booked.2 then entries_of s (debits_in demo_delta) else 0)
    + (if credits_live demo_booked.2 then entries_of s (credits_in demo_delta) else 0)) /\
  rebate_owed demo_booked.1 + rebate_debited demo_booked.2
    = rebate_owed demo_window + rebate_added demo_booked.2 /\ window_ok demo_booked.1.
Proof.
  apply (block_books_exact demo_window demo_delta 0 0); [exact demo_window_ok | lia | lia |].
  apply rtc_once. rewrite <- surjective_pairing. apply step_book_debits. exact demo_room.
Defined.


Definition demo_credited : Books := {|
  bk_owed_credited := 0; bk_deferred := 0; debits_live := false; debited := []; rebate_debited := 0;
  credits_live := true; credited_sats := [("carol"%string, 1500)]; rebate_added := 0;
  shortfall := []; debt_paid := [] |}.


(** The pool never holds a balance for somebody it is still collecting a double payment
    from: through debits, credits, undone blocks, holds placed, released or paid, in any order,
    no identity has carry and debt at once, so no coinbase pays out what is owed back. *)
Theorem no_balance_beside_debt w w' :
  window_ok w -> solvent w -> rtc money_step w w' -> solvent w' /\ window_ok w'.
Proof.
  intros OK V H. induction H as [|w1 w2 w3 S _ IH]; [done|].
  destruct (money_step_effects w1 w2 S OK) as (f & ds & n & E). apply IH; [apply E|].
  by apply (ef_solvent _ _ _ _ _ E).
Qed.

Lemma demo_solvent : solvent demo_window.
Proof.
  intros s. right. unfold debt_of, of_identity.
  assert (Hd : debt demo_window = ∅) by (vm_compute; reflexivity). rewrite Hd.
  destruct (ident_index demo_window !! s); [|done]. unfold lookup0. by rewrite lookup_empty.
Qed.

Lemma no_balance_beside_debt_witness :
  debt_of demo_booked.1 "carol" = 100 /\ (solvent demo_booked.1 /\ window_ok demo_booked.1).
Proof.
  split; [vm_compute; reflexivity|].
  apply (no_balance_beside_debt demo_window demo_booked.1 demo_window_ok demo_solvent).
  apply rtc_once. apply money_debits; [reflexivity | cbn; lia | exact demo_room].
Defined.

(** Placing a hold moves nothing but what it names: each entry held is the whole carry, at
    that moment, of an identity with no work left in the window, and goes from carry to the hold,
    every other balance and everybody's position staying as it was; a batch id in use is refused,
    and every entry asked for is either held or reported as skipped. *)
Theorem hold_moves_whole_balances w batch es now after min tip ready :
  window_ok w -> stock w <= i64_max ->
  match hold_carry w batch es now after min tip ready with
  | Panic => False
  | Ret (Err _) => is_Some (holds w !! batch)
  | Ret (Ok (w', held, skipped)) =>
      holds w !! batch = None /\ held_ok w now after w' held /\
      (length held + length skipped = length es)%nat /\
      (held <> [] -> entries <$> holds w' !! batch = Some held)
  end.
Proof. apply hold_carry_run. Qed.

(** Carol last mined an hour and more before the request. *)
Definition demo_stale : Window := set_last_seen demo_window "carol" 1000.
Lemma demo_stale_ok : window_ok demo_stale.
Proof.
  apply (window_step_ok demo_window); [|exact demo_window_ok].
  apply step_set_last_seen; [vm_compute; discriminate | lia].
Qed.

Lemma hold_moves_whole_balances_witness :
  (match hold_carry demo_stale "b1" [("carol"%string, 900); ("bob"%string, 5)] 5000 0 1 100 110 with
   | Ret (Ok (_, held, skipped)) =>
       (held, map hs_reason skipped) = ([("carol"%string, 900)], ["not stale"%string])
   | _ => True
   end) /\
  match hold_carry demo_stale "b1" [("carol"%string, 900); ("bob"%string, 5)] 5000 0 1 100 110 with
  | Panic => False
  | Ret (Err _) => is_Some (holds demo_stale !! "b1"%string)
  | Ret (Ok (w', held, skipped)) =>
      holds demo_stale !! "b1"%string = None /\ held_ok demo_stale 5000 0 w' held /\
      (length held + length skipped = 2)%nat /\
      (held <> [] -> entries <$> holds w' !! "b1"%string = Some held)
  end.
Proof.
  split.
  - vm_compute. reflexivity.
  - apply (hold_moves_whole_balances demo_stale "b1" [("carol"%string, 900); ("bob"%string, 5)]
      5000 0 1 100 110 demo_stale_ok). vm_compute. discriminate.
Defined.

(** Releasing a hold gives every balance in it back: the batch is gone, and each identity's
    position is what it was while held, its debts paid down before any of it is carry again. *)
Theorem release_returns_balances w batch h :
  window_ok w -> stock w <= i64_max -> holds w !! batch = Some h -> recorded w (entries h) ->
  exists w', release_hold w batch = Some (w', entries h) /\
    (forall s, net w' s = net w s) /\ (solvent w -> solvent w') /\ rebate_owed w' = rebate_owed w.
Proof.
  intros OK S0 Hb HR. destruct (release_hold_run w batch h OK S0 Hb HR) as (w' & E & Ef & Ho).
  exists w'. split; [done|]. split; [|split; [apply Ef | done]].
  intros s. rewrite (ef_net _ _ _ _ _ Ef). lia.
Qed.

Definition demo_held : Window := with_holds (set_carry demo_window "carol" 0)
  {[ "b1"%string := {| created_ts := 5; hold_height := 7; ready_height := 10;
                       entries := [("carol"%string, 900)] |} ]}.

Lemma release_returns_balances_witness :
  exists w', release_hold demo_held "b1" = Some (w', [("carol"%string, 900)]) /\
    (forall s, net w' s = net demo_held s) /\ (solvent demo_held -> solvent w') /\
    rebate_owed w' = rebate_owed demo_held.
Proof.
  apply (release_returns_balances demo_held "b1" {| created_ts := 5; hold_height := 7;
    ready_height := 10; entries := [("carol"%string, 900)] |}).
  - apply with_holds_ok.
    + apply (mv_ok demo_window "carol" 0 (debt_of demo_window "carol")).
      apply set_carry_moved; [exact demo_window_ok | right; exists 2; vm_compute; reflexivity | split; lia].
    + apply map_Forall_insert_2; [split; [done | repeat constructor] | apply map_Forall_empty].
  - vm_compute. discriminate.
  - reflexivity.
  - constructor; [|constructor]. split; [cbn; lia|]. exists 2. vm_compute. reflexivity.
Defined.

(** C8: Re-applying a block's debits after a restart that lost them lands on the balances the
    booking had produced, where nothing was in a hold: same carry and debt for everybody, same
    owed rebate. *)
Theorem reconcile_replays_debits w delta b :
  window_ok w -> holds w = ∅ -> debits_live b = false -> 0 <= bk_owed_credited b ->
  room w (length delta) (volume delta) ->
  Forall (fun e => is_Some (ident_index w !! e.1)) (debits_in delta) ->
  let '(w1, b1) := book_debits w delta b in let w2 := reconcile_books w b1 in
  (forall s, carry_of w2 s = carry_of w1 s) /\ (forall s, debt_of w2 s = debt_of w1 s) /\
  rebate_owed w2 = rebate_owed w1.
Proof. apply reconcile_ok. Qed.

Lemma reconcile_replays_debits_witness :
  let '(w1, b1) := book_debits demo_window demo_delta (books_new 0 0) in
  let w2 := reconcile_books demo_window b1 in
  (forall s, carry_of w2 s = carry_of w1 s) /\ (forall s, debt_of w2 s = debt_of w1 s) /\
  rebate_owed w2 = rebate_owed w1.
Proof.
  apply (reconcile_replays_debits demo_window demo_delta (books_new 0 0) demo_window_ok).
  - vm_compute. reflexivity.
  - reflexivity.
  - cbn. lia.
  - exact demo_room.
  - constructor; [|constructor]. exists 2. vm_compute. reflexivity.
Defined.

(** With the identity's balance in a hold, the same restart leaves the hold untouched: the booking had
    taken the block's payment out of it, the re-applied debit finds no carry to take, and the
    hand-made payment the hold stands for would pay it a second time. *)
Theorem reconcile_leaves_holds :
  let '(w1, b1) := book_debits demo_held [("carol"%string, -900)] (books_new 0 0) in
  let w2 := reconcile_books demo_held b1 in
  debited b1 = [("carol"%string, 900)] /\ held_of w1 "carol" = 0 /\ net w1 "carol" = 0 /\
  held_of w2 "carol" = 900 /\ debt_of w2 "carol" = 0 /\ net w2 "carol" = 900.
Proof. vm_compute. repeat split. Qed.
