(* ===== verification/BlockLog.v ===== *)
(** The block log and what is read off it ([BlockLog], [cap_rebate_credits] and [gateway_finds]
    of [prime/tides/src/lib.rs]).

    The JSON of a record is an interface: a codec with the laws of [serde_json] the log relies
    on. *)

From S2P Require Import Prelude Bytes Tides Split Window Grace Ledger Disk.
Open Scope Z_scope.

(** * The log *)

(** [serde_json] on block records. *)
Class BlockJson := {
  block_to_json : BlockRecord -> list Z;
  block_from_json : list Z -> option BlockRecord
}.

(** What the log relies on: a record reads back, a part of one does not, alone or with another
    record after it, and one is on one line and is not blank. *)
Class BlockJsonLaws `{BlockJson} := {
  block_json_reads : forall r, block_from_json (block_to_json r) = Some r;
  block_json_whole : forall r p, prefix p (block_to_json r) -> p <> block_to_json r -> block_from_json p = None;
  block_json_glued : forall r p r', prefix p (block_to_json r) -> p <> [] ->
    block_from_json (p ++ block_to_json r') = None;
  block_json_line : forall r, NL ∉ block_to_json r;
  block_json_ink : forall r, exists b, b ∈ block_to_json r /\ 32 < b
}.

(** [u8::is_ascii_whitespace]. *)
Definition is_ascii_whitespace (b : Z) : bool :=
  (b =? 32) || (b =? 9) || (b =? 10) || (b =? 12) || (b =? 13).

Definition BLOCKS : string := "blocks.jsonl".

Section Log.
Context `{BlockJson}.

(** [BlockLog::append]: what is added to the file. *)
Definition block_line (r : BlockRecord) : list Z := block_to_json r ++ [NL].
Definition log_append (r : BlockRecord) : DiskOp := Append BLOCKS (block_line r).

(** The records read so far, and where each hash is among them. *)
Record ReadState := { rd_out : list BlockRecord; rd_index : gmap string nat; rd_bad : nat }.

Definition read_record (st : ReadState) (r : BlockRecord) : ReadState :=
  match rd_index st !! br_hash r with
  | Some i => {| rd_out := <[i := r]> (rd_out st); rd_index := rd_index st; rd_bad := rd_bad st |}
  | None => {| rd_out := rd_out st ++ [r]; rd_bad := rd_bad st;
               rd_index := <[br_hash r := length (rd_out st)]> (rd_index st) |}
  end.

Definition read_line (st : ReadState) (line : list Z) : ReadState :=
  if forallb is_ascii_whitespace line then st else
  match block_from_json line with
  | Some r => read_record st r
  | None => {| rd_out := rd_out st; rd_index := rd_index st; rd_bad := S (rd_bad st) |}
  end.

Definition read_start : ReadState := {| rd_out := []; rd_index := ∅; rd_bad := O |}.

(** [BlockLog::read_all]. *)
Definition read_all (d : Disk) : list BlockRecord :=
  match d !! BLOCKS with
  | None => []
  | Some bytes => rd_out (foldl read_line read_start (split_on NL bytes))
  end.
End Log.

(** * Rebate credits an earlier block drew *)

(** The last entry of [identity] with money in it, the list given back to front: what is taken
    from it, at most [want]. *)
Fixpoint take_credit (identity : string) (want : Z) (rev_delta : list (string * Z))
    : option (list (string * Z) * Z) :=
  match rev_delta with
  | [] => None
  | e :: rest =>
      if bool_decide (e.1 = identity) && (0 <? e.2) then
        let drop_n := Z.min want e.2 in Some ((e.1, e.2 - drop_n) :: rest, drop_n)
      else match take_credit identity want rest with
           | Some (rest', n) => Some (e :: rest', n)
           | None => None
           end
  end.

Fixpoint cut_credits (cut : Z) (rev_planned rev_delta : list (string * Z))
    : list (string * Z) * Z :=
  match rev_planned with
  | [] => (rev_delta, cut)
  | (identity, sats) :: rest =>
      if cut =? 0 then (rev_delta, cut) else
      match take_credit identity (Z.min sats cut) rev_delta with
      | None => cut_credits cut rest rev_delta
      | Some (rev_delta', n) => cut_credits (cut - n) rest rev_delta'
      end
  end.

(** [cap_rebate_credits]: the changes left, and the rebate credit still in them. *)
Definition cap_rebate_credits (delta planned : list (string * Z)) (allowed : Z)
    : panics (list (string * Z) * Z) :=
  planned_sum ← chk_sum u64_max 0 (map snd planned);
  if planned_sum <=? allowed then Ret (delta, planned_sum) else
  let '(rev_delta, cut) := cut_credits (planned_sum - allowed) (rev planned) (rev delta) in
  Ret (filter (fun e => e.2 <> 0) (rev rev_delta), planned_sum - (planned_sum - allowed - cut)).

Definition cap_rebate_to_owed_drawn (delta planned : list (string * Z)) (owed_credited owed_drawn : Z)
    : panics (list (string * Z) * Z) :=
  planned_sum ← chk_sum u64_max 0 (map snd planned);
  cap_rebate_credits delta planned (sat_sub planned_sum (sat_sub owed_credited owed_drawn)).

(** * Finds per gateway *)

Record GatewayFinds := { gf_found : Z; gf_last_ts : Z; gf_last_finder : string }.
Definition gateway_finds_default : GatewayFinds := {| gf_found := 0; gf_last_ts := 0; gf_last_finder := "" |}.

Definition count_find (out : gmap string GatewayFinds) (b : BlockRecord) : panics (gmap string GatewayFinds) :=
  if bool_decide (br_gateway b = "") || String.prefix "orphan" (br_kind b) then Ret out else
  let e := default gateway_finds_default (out !! br_gateway b) in
  found ← chk_add u64_max (gf_found e) 1;
  Ret (<[br_gateway b :=
    if gf_last_ts e <=? br_ts b then
      {| gf_found := found; gf_last_ts := br_ts b;
         gf_last_finder := match br_finder b with
                           | Some f => if bool_decide (f = "") then gf_last_finder e else f
                           | None => gf_last_finder e
                           end |}
    else {| gf_found := found; gf_last_ts := gf_last_ts e; gf_last_finder := gf_last_finder e |}]> out).

Fixpoint count_finds (out : gmap string GatewayFinds) (blocks : list BlockRecord)
    : panics (gmap string GatewayFinds) :=
  match blocks with
  | [] => Ret out
  | b :: blocks' => out' ← count_find out b; count_finds out' blocks'
  end.

Definition gateway_finds (blocks : list BlockRecord) : panics (gmap string GatewayFinds) :=
  count_finds ∅ blocks.
