(* ===== verification/BlockLogProps.v ===== *)
(** What the block log gives back after any history of appends, crashes and damage, and what the
    cap on rebate credits does. *)

From S2P Require Import Prelude Bytes Tides Split Window Grace Ledger Disk BlockLog.
Open Scope Z_scope.

(** * Latest records *)

(** The hashes in the order they were first seen. *)
Definition first_seen (rs : list BlockRecord) : list string :=
  foldl (fun hs r => if decide (br_hash r ∈ hs) then hs else hs ++ [br_hash r]) [] rs.

(** What the log promises: one record per hash, in the order the hashes were first seen, each the
    latest of its hash. *)
Definition latest_of (rs out : list BlockRecord) : Prop :=
  br_hash <$> out = first_seen rs /\
  Forall (fun r => last (filter (fun x => br_hash x = br_hash r) rs) = Some r) out.

Record reading (rs : list BlockRecord) (st : ReadState) : Prop := {
  rg_latest : latest_of rs (rd_out st);
  rg_index : forall h i, rd_index st !! h = Some i <-> br_hash <$> rd_out st !! i = Some h
}.

Lemma first_seen_snoc rs r :
  first_seen (rs ++ [r]) =
  if decide (br_hash r ∈ first_seen rs) then first_seen rs else first_seen rs ++ [br_hash r].
Proof. unfold first_seen. by rewrite foldl_app. Qed.

Lemma filter_snoc_hash h rs r :
  filter (fun x => br_hash x = h) (rs ++ [r]) =
  filter (fun x => br_hash x = h) rs ++ (if decide (br_hash r = h) then [r] else []).
Proof. rewrite filter_app, filter_cons, filter_nil. by destruct (decide (br_hash r = h)). Qed.

Lemma read_record_ok rs st r : reading rs st -> reading (rs ++ [r]) (read_record st r).
Proof.
  intros [[Hh Hl] Hi]. unfold read_record.
  assert (Hin : forall h, (exists i, rd_index st !! h = Some i) <-> h ∈ first_seen rs).
  { intros h. rewrite <- Hh. split.
    - intros [i Hx]. apply Hi in Hx. apply fmap_Some in Hx as (x & Hx & ->).
      apply list_elem_of_lookup_2 in Hx. by apply list_elem_of_fmap_2.
    - intros (x & -> & Hx)%list_elem_of_fmap. apply list_elem_of_lookup in Hx as [i Hx]. exists i.
      apply Hi. by rewrite Hx. }
  destruct (rd_index st !! br_hash r) as [i|] eqn:E.
  - assert (Hx : br_hash <$> rd_out st !! i = Some (br_hash r)) by by apply Hi.
    assert (Hm : br_hash <$> <[i:=r]> (rd_out st) = br_hash <$> rd_out st).
    { rewrite list_fmap_insert. apply list_insert_id. by rewrite list_lookup_fmap. }
    constructor; [split|]; cbn [rd_out rd_index].
    + rewrite Hm, first_seen_snoc, decide_True; [done|]. apply Hin. eauto.
    + apply Forall_lookup. intros j x Hj. rewrite filter_snoc_hash.
      destruct (decide (i = j)) as [<-|Hne].
      * apply list_lookup_insert_Some in Hj as [(_ & <- & _)|[? _]]; [|done].
        rewrite decide_True by done. apply last_snoc.
      * rewrite list_lookup_insert_ne in Hj by done. rewrite decide_False.
        -- rewrite app_nil_r. by eapply Forall_lookup in Hj; [|exact Hl].
        -- intros Heq. apply Hne. assert (Hj' : rd_index st !! br_hash x = Some j) by (apply Hi; by rewrite Hj).
           rewrite <- Heq in Hj'. congruence.
    + intros h j. by rewrite Hi, <- !list_lookup_fmap, Hm.
  - assert (Hnot : br_hash r ∉ first_seen rs).
    { rewrite <- Hin. intros [i Hx]. congruence. }
    constructor; [split|]; cbn [rd_out rd_index].
    + rewrite fmap_app, Hh, first_seen_snoc. by rewrite decide_False.
    + apply Forall_app. split.
      * apply Forall_lookup. intros j x Hj. rewrite filter_snoc_hash, decide_False.
        -- rewrite app_nil_r. by eapply Forall_lookup in Hj; [|exact Hl].
        -- intros Heq. apply Hnot. rewrite Heq, <- Hh. apply list_elem_of_fmap_2.
           by apply list_elem_of_lookup_2 in Hj.
      * constructor; [|done]. rewrite filter_snoc_hash, decide_True by done. apply last_snoc.
    + intros h j. destruct (decide (br_hash r = h)) as [<-|Hne].
      * rewrite lookup_insert_eq. split.
        -- intros [= <-]. rewrite lookup_app_r, Nat.sub_diag by lia. done.
        -- intros Hj. apply fmap_Some in Hj as (x & Hj & Heq). apply lookup_app_Some in Hj as [Hj|[Hj1 Hj2]].
           ++ assert (rd_index st !! br_hash r = Some j) by (apply Hi; by rewrite Hj, Heq). congruence.
           ++ apply list_lookup_singleton_Some in Hj2 as [Hj2 _]. f_equal. lia.
      * rewrite lookup_insert_ne by done. rewrite Hi. destruct (decide (j < length (rd_out st))%nat).
        -- by rewrite lookup_app_l.
        -- rewrite lookup_ge_None_2 by lia. rewrite lookup_app_r by lia.
           destruct (j - length (rd_out st))%nat; simpl; naive_solver.
Qed.

(** * Any file *)

Lemma split_on_app sep a b : split_on sep (a ++ sep :: b) = split_on sep a ++ split_on sep b.
Proof.
  induction a as [|x a IH]; cbn [app split_on].
  - by rewrite Z.eqb_refl.
  - destr_if; [by rewrite IH|]. rewrite IH. destruct (split_on sep a) as [|p ps] eqn:E; [|done].
    exfalso. destruct a as [|y a]; [done|]. cbn in E. destruct (y =? sep); [done|].
    by destruct (split_on sep a).
Qed.

Lemma split_on_none sep l : sep ∉ l -> split_on sep l = [l].
Proof.
  induction l as [|b l IH]; [done|]. intros [Hb Hl]%not_elem_of_cons. cbn [split_on].
  rewrite (proj2 (Z.eqb_neq b sep)) by congruence. by rewrite IH.
Qed.

(** A file that is empty or ends with a newline. *)
Definition ends_whole (bytes : list Z) : Prop := bytes = [] \/ exists a, bytes = a ++ [NL].

Section Reading.
Context `{BlockJson}.

(** The record on a line, if the line is one; the records of a file, in file order. *)
Definition line_record (line : list Z) : option BlockRecord :=
  if forallb is_ascii_whitespace line then None else block_from_json line.
Definition records (bytes : list Z) : list BlockRecord := omap line_record (split_on NL bytes).

Lemma read_lines_ok ls : forall rs st, reading rs st -> reading (rs ++ omap line_record ls) (foldl read_line st ls).
Proof.
  induction ls as [|l ls IH]; intros rs st Hst; cbn [foldl].
  - by rewrite app_nil_r.
  - cbn. unfold line_record at 1, read_line at 2. destr_if; [by apply IH|].
    destruct (block_from_json l) as [r|] eqn:E.
    + change (r :: omap line_record ls) with ([r] ++ omap line_record ls). rewrite app_assoc.
      by apply IH, read_record_ok.
    + apply IH. by destruct Hst; constructor.
Qed.

Lemma read_all_latest d : latest_of (records (contents d BLOCKS)) (read_all d).
Proof.
  unfold read_all, contents. destruct (d !! BLOCKS) as [bytes|]; cbn [default]; [|done].
  apply (read_lines_ok (split_on NL bytes) [] read_start). constructor; [done|].
  intros h i. cbn. by rewrite lookup_nil.
Qed.

Lemma records_app base x : ends_whole base -> records (base ++ x) = records base ++ records x.
Proof.
  intros [->|[a ->]]; [done|]. rewrite <- app_assoc. cbn [app]. unfold records.
  rewrite !split_on_app, !omap_app. cbn. by rewrite app_nil_r.
Qed.

Context {L : BlockJsonLaws}.

Lemma line_record_json r : line_record (block_to_json r) = Some r.
Proof using L.
  unfold line_record. rewrite block_json_reads.
  destruct (block_json_ink r) as (b & Hb & Hlt). destr_if; [|done]. exfalso.
  rewrite forallb_forall in Hif. apply list_elem_of_In in Hb. specialize (Hif b Hb).
  unfold is_ascii_whitespace in Hif. lia.
Qed.

Lemma records_line r : records (block_line r) = [r].
Proof using L.
  unfold records, block_line. rewrite split_on_app, (split_on_none NL (block_to_json r)) by apply block_json_line.
  cbn. by rewrite line_record_json.
Qed.

(** A part of a record's line reads as nothing, or as the record when only the newline is
    missing. *)
Lemma records_part r p : prefix p (block_line r) -> records p = [] \/ records p = [r].
Proof using L.
  intros Hp. destruct (decide (p = block_line r)) as [->|Hne]; [right; apply records_line|].
  assert (Hq : prefix p (block_to_json r)).
  { destruct Hp as [x Hx]. unfold block_line in Hx. destruct (exists_last (l := x)) as (y & b & ->).
    { intros ->. rewrite app_nil_r in Hx. by apply Hne. }
    rewrite app_assoc in Hx. apply app_inj_tail in Hx as [Hx _]. by exists y. }
  assert (Hnl : NL ∉ p).
  { intros Hin. apply (block_json_line r). destruct Hq as [y ->]. apply elem_of_app. by left. }
  unfold records. rewrite (split_on_none _ _ Hnl). cbn. unfold line_record.
  destr_if; [by left|]. destruct (decide (p = block_to_json r)) as [->|Hn].
  - right. by rewrite block_json_reads.
  - left. by rewrite (block_json_whole r p Hq Hn).
Qed.

Lemma log_append_crash d r d' :
  crashes d [log_append r] d' ->
  exists p, prefix p (block_line r) /\ contents d' BLOCKS = contents d BLOCKS ++ p.
Proof.
  cbn [crashes log_append]. unfold torn. cbn [run_op].
  assert (Hw : exists p, prefix p (block_line r) /\
    contents (<[BLOCKS:=contents d BLOCKS ++ block_line r]> d) BLOCKS = contents d BLOCKS ++ p).
  { exists (block_line r). split; [done|]. by rewrite contents_insert. }
  intros [[-> | [-> | (p & Hp & ->)]] | ->]; [| exact Hw | | exact Hw].
  - exists []. split; [apply prefix_nil | by rewrite app_nil_r].
  - exists p. split; [done|]. by rewrite contents_insert.
Qed.
End Reading.

(** * Capping rebate credits *)

Definition sats_of (l : list (string * Z)) : Z := zsum (map snd l).
Definition nonzero (l : list (string * Z)) : list (string * Z) := filter (fun e => e.2 <> 0) l.

(** The credits in order, up to [allowed] sats in all. *)
Fixpoint keep_first (allowed : Z) (l : list (string * Z)) : list (string * Z) :=
  match l with
  | [] => []
  | e :: l' => if allowed <=? 0 then [] else (e.1, Z.min e.2 allowed) :: keep_first (allowed - e.2) l'
  end.

Lemma sats_of_app a b : sats_of (a ++ b) = sats_of a + sats_of b.
Proof. unfold sats_of. by rewrite map_app, zsum_app. Qed.

Lemma sats_of_pos l : Forall (fun e => 0 < e.2) l -> 0 <= sats_of l.
Proof. intros H. apply zsum_nonneg, Forall_map. eapply Forall_impl; [exact H|]. cbn. lia. Qed.

Lemma keep_first_all l : Forall (fun e => 0 < e.2) l -> forall x, sats_of l <= x -> keep_first x l = l.
Proof.
  induction 1 as [|[id s] l Hs Hl IH]; intros x Hx; [done|]. unfold sats_of in Hx, IH.
  cbn [map snd fst] in *. rewrite zsum_cons in Hx. pose proof (sats_of_pos l Hl) as Hp. unfold sats_of in Hp.
  cbn [keep_first fst snd]. destr_if; bools; [lia|]. rewrite IH by lia. repeat f_equal. lia.
Qed.

Lemma keep_first_app l e : Forall (fun e => 0 < e.2) l -> forall x, x <= sats_of l ->
  keep_first x (l ++ [e]) = keep_first x l.
Proof.
  induction 1 as [|[id s] l Hs Hl IH]; intros x Hx; cbn [app keep_first fst snd].
  - cbn in Hx. by rewrite (proj2 (Z.leb_le _ _) Hx).
  - unfold sats_of in Hx, IH. cbn [map snd] in Hx. rewrite zsum_cons in Hx.
    destr_if; [done|]. by rewrite IH by lia.
Qed.

Lemma keep_first_snoc l id s : Forall (fun e => 0 < e.2) l -> forall x, sats_of l < x -> x <= sats_of l + s ->
  keep_first x (l ++ [(id, s)]) = l ++ [(id, x - sats_of l)].
Proof.
  induction 1 as [|[i t] l Ht Hl IH]; intros x H1 H2; cbn [app keep_first fst snd].
  - cbn in *. rewrite (proj2 (Z.leb_gt _ _)) by lia. repeat f_equal. lia.
  - unfold sats_of in *. cbn [map snd] in *. rewrite zsum_cons in *. pose proof (sats_of_pos l Hl) as Hp.
    unfold sats_of in Hp. rewrite (proj2 (Z.leb_gt _ _)) by lia. rewrite IH, Z.min_l by lia.
    by rewrite Z.sub_add_distr.
Qed.

Lemma take_credit_at dn id s rest want :
  id ∉ map fst dn -> 0 < s ->
  take_credit id want (dn ++ (id, s) :: rest) = Some (dn ++ (id, s - Z.min want s) :: rest, Z.min want s).
Proof.
  intros Hn Hs. induction dn as [|[j x] dn IH]; cbn [app take_credit fst snd].
  - rewrite bool_decide_eq_true_2 by done. by rewrite (proj2 (Z.ltb_lt _ _) Hs).
  - cbn in Hn. apply not_elem_of_cons in Hn as [Hj Hn].
    rewrite bool_decide_eq_false_2 by congruence. cbn [andb]. by rewrite (IH Hn).
Qed.

Lemma cut_credits_zero rp rd : cut_credits 0 rp rd = (rd, 0).
Proof. by destruct rp as [|[]]. Qed.

Lemma nonzero_pos l : Forall (fun e => 0 < e.2) l -> nonzero l = l.
Proof.
  unfold nonzero. induction 1 as [|e l He _ IH]; [done|]. rewrite filter_cons, decide_True by lia. by rewrite IH.
Qed.

Lemma cut_credits_ok rb pl : forall dn cut,
  Forall (fun e => 0 < e.2) pl -> NoDup (map fst pl) -> (forall x, x ∈ map fst pl -> x ∉ map fst dn) ->
  0 <= cut <= sats_of pl ->
  exists zs, cut_credits cut (rev pl) (dn ++ rev pl ++ rb) = (dn ++ zs ++ rb, 0) /\
    nonzero (rev zs) = keep_first (sats_of pl - cut) pl.
Proof.
  induction pl as [|[id s] pl IH] using rev_ind; intros dn cut Hpos Hnd Hdn Hc.
  - exists []. cbn in *. replace cut with 0 by lia. done.
  - pose proof Hpos as Hpos'. apply Forall_app in Hpos as [Hpos Hs]. apply Forall_cons in Hs as [Hs _]. cbn in Hs.
    rewrite map_app in Hnd, Hdn. apply NoDup_app in Hnd as (Hnd & Hni & _).
    rewrite sats_of_app in *. change (sats_of [(id, s)]) with (s + 0) in *. rewrite Z.add_0_r in *.
    destruct (Z.eq_dec cut 0) as [->|Hne].
    { exists (rev (pl ++ [(id, s)])). rewrite cut_credits_zero, rev_involutive. split; [done|].
      rewrite nonzero_pos by done. rewrite keep_first_all; [done | done |].
      rewrite sats_of_app. change (sats_of [(id, s)]) with (s + 0). lia. }
    rewrite rev_app_distr. cbn [rev app cut_credits]. rewrite (proj2 (Z.eqb_neq _ _) Hne).
    rewrite take_credit_at; [|apply Hdn; rewrite elem_of_app; right; left | done].
    replace (Z.min (Z.min s cut) s) with (Z.min s cut) by lia.
    destruct (Z.le_gt_cases s cut) as [Hle|Hgt].
    + rewrite Z.min_l, Z.sub_diag by lia.
      destruct (IH (dn ++ [(id, 0)]) (cut - s)) as (zs & E & Hz); try done; [|lia|].
      * intros x Hx. rewrite map_app, elem_of_app. intros [Hin|Hin].
        -- apply (Hdn x); [rewrite elem_of_app; by left | done].
        -- cbn in Hin. apply list_elem_of_singleton in Hin as ->. apply (Hni id); [done|]. left.
      * exists ((id, 0) :: zs). rewrite <- !app_assoc in E. cbn [app] in E. rewrite E. split; [done|].
        cbn [rev]. unfold nonzero in *. rewrite filter_app, Hz, filter_cons, decide_False by (cbn; lia).
        rewrite app_nil_r. replace (sats_of pl - (cut - s)) with (sats_of pl + s - cut) by lia.
        by rewrite keep_first_app by (done || lia).
    + rewrite Z.min_r, Z.sub_diag, cut_credits_zero by lia. exists ((id, s - cut) :: rev pl). split; [done|].
      cbn [rev]. rewrite rev_involutive, nonzero_pos.
      * rewrite keep_first_snoc by (done || lia).
        by replace (sats_of pl + s - cut - sats_of pl) with (s - cut) by lia.
      * apply Forall_app. split; [done|]. constructor; [|done]. cbn. lia.
Qed.

(** * The properties *)

(** C38: a block log whose last line is whole, appended to and cut off at any moment of the append,
    reads as the records it had, or those and the new one: one record per hash, in first-seen order,
    each the latest appended. Once the append is done the new record is there. *)
Theorem block_log_survives_crash `{BlockJsonLaws} (d d' : Disk) (r : BlockRecord) :
  ends_whole (contents d BLOCKS) ->
  crashes d [log_append r] d' ->
  (latest_of (records (contents d BLOCKS)) (read_all d') \/
   latest_of (records (contents d BLOCKS) ++ [r]) (read_all d')) /\
  latest_of (records (contents d BLOCKS) ++ [r]) (read_all (run_op d (log_append r))) /\
  ends_whole (contents (run_op d (log_append r)) BLOCKS).
Proof.
  intros Hd Hc. split; [|split].
  - apply log_append_crash in Hc as (p & Hp & E). pose proof (read_all_latest d') as Hr.
    rewrite E, records_app in Hr by done.
    destruct (records_part r p Hp) as [Ep|Ep]; rewrite Ep in Hr; [left | right]; [by rewrite app_nil_r in Hr | done].
  - pose proof (read_all_latest (run_op d (log_append r))) as Hr. cbn [run_op log_append] in Hr |- *.
    by rewrite contents_insert, records_app, records_line in Hr.
  - right. cbn [run_op log_append]. rewrite contents_insert. unfold block_line. rewrite app_assoc. by eexists.
Qed.

(** An append does not look at how the file ends. After a crash that left a part of a record
    at its end, the next record, appended whole and synced, is glued to that part and is not read
    back: the log reads as if it had never been appended. *)
Theorem block_after_torn_line_lost `{BlockJsonLaws} (d : Disk) (r1 r2 : BlockRecord) (p : list Z) :
  ends_whole (contents d BLOCKS) -> prefix p (block_to_json r1) -> p <> [] ->
  let torn_disk := <[BLOCKS := contents d BLOCKS ++ p]> d in
  crashes d [log_append r1] torn_disk /\
  latest_of (records (contents d BLOCKS)) (read_all (run_op torn_disk (log_append r2))).
Proof.
  intros Hd Hp Hne torn_disk. split.
  - left. right. right. exists p. split; [|done]. etrans; [exact Hp|]. by exists [NL].
  - pose proof (read_all_latest (run_op torn_disk (log_append r2))) as Hr.
    cbn [run_op log_append] in Hr |- *.
    rewrite contents_insert in Hr. unfold torn_disk in Hr at 1. rewrite contents_insert in Hr.
    rewrite <- app_assoc, records_app in Hr by done.
    assert (E : records (p ++ block_line r2) = []); [|by rewrite E, app_nil_r in Hr].
    unfold records, block_line. rewrite app_assoc, split_on_app, split_on_none.
    2:{ rewrite elem_of_app. intros [Hin|Hin]; [|by apply (block_json_line r2)].
        apply (block_json_line r1). destruct Hp as [x ->]. apply elem_of_app. by left. }
    cbn. unfold line_record. destr_if; [done|]. by rewrite (block_json_glued r1 p r2).
Qed.

(** Where an earlier block drew part of the owed rebate a coinbaser credits out, exactly what
    was no longer there comes off the block's rebate credits, the last credits first; every other
    change of the block keeps its amount. *)
Theorem rebate_credits_capped (others planned : list (string * Z)) (owed_credited owed_drawn : Z) :
  Forall (fun e => e.2 <> 0) others ->
  Forall (fun e => 0 < e.2) planned -> NoDup (map fst planned) -> sats_of planned <= u64_max ->
  let kept := sat_sub (sats_of planned) (sat_sub owed_credited owed_drawn) in
  cap_rebate_to_owed_drawn (others ++ planned) planned owed_credited owed_drawn =
    Ret (others ++ keep_first kept planned, kept) /\ sats_of (keep_first kept planned) = kept.
Proof.
  intros Hot Hpos Hnd Hmax kept. pose proof (sats_of_pos planned Hpos) as Hge.
  assert (Hk : 0 <= kept <= sats_of planned) by (unfold kept; sat_lia).
  assert (Hsum : chk_sum u64_max 0 (map snd planned) = Ret (sats_of planned)).
  { rewrite chk_sum_ok; [done | | unfold sats_of in Hmax; lia].
    apply Forall_map. eapply Forall_impl; [exact Hpos|]. cbn. lia. }
  assert (Hkeep : sats_of (keep_first kept planned) = kept).
  { clear - Hpos Hk. destruct Hk as [H0 H1]. revert H0 H1. generalize kept as x.
    induction Hpos as [|[id s] l Hs Hl IH]; intros x H0 H1; [cbn in *; lia|].
    pose proof (sats_of_pos l Hl). unfold sats_of in *. cbn [keep_first map snd fst] in *.
    rewrite zsum_cons in H1. destr_if; bools; [cbn; lia|]. cbn [map snd]. rewrite zsum_cons.
    destruct (Z.le_gt_cases x s).
    - destruct l as [|e l]; cbn [keep_first]; [cbn; lia|]. rewrite (proj2 (Z.leb_le _ _)) by lia. cbn. lia.
    - rewrite IH; lia. }
  split; [|done]. unfold cap_rebate_to_owed_drawn, cap_rebate_credits. rewrite Hsum. mstep.
  fold kept. destr_if; bools.
  - replace kept with (sats_of planned) by lia. by rewrite keep_first_all.
  - rewrite rev_app_distr.
    destruct (cut_credits_ok (rev others) planned [] (sats_of planned - kept)) as (zs & E & Hz); try done; [|lia|].
    + intros x _. apply not_elem_of_nil.
    + cbn [app] in E. rewrite E. cbn [app]. rewrite rev_app_distr, rev_involutive, filter_app.
      unfold nonzero in Hz. rewrite Hz, Z.sub_0_r.
      replace (sats_of planned - (sats_of planned - kept)) with kept by lia.
      assert (Ho : filter (fun e : string * Z => e.2 <> 0) others = others); [|by rewrite Ho].
      clear - Hot. induction Hot as [|e l He _ IH]; [done|]. rewrite filter_cons, decide_True by done. by rewrite IH.
Qed.

Lemma rebate_credits_capped_witness :
  cap_rebate_to_owed_drawn [("a", -3); ("m", 4); ("x", 5); ("y", 6)] [("x", 5); ("y", 6)] 10 3 =
    Ret ([("a", -3); ("m", 4); ("x", 4)], 4).
Proof.
  refine (proj1 (rebate_credits_capped [("a", -3); ("m", 4)] [("x", 5); ("y", 6)] 10 3 _ _ _ _)).
  - repeat constructor; done.
  - repeat constructor; done.
  - apply (bool_decide_unpack _). vm_compute. done.
  - done.
Defined.

(** * A codec for the witnesses *)

#[export] Instance Books_eq_dec : EqDecision Books.
Proof. solve_decision. Defined.
#[export] Instance BlockRecord_eq_dec : EqDecision BlockRecord.
Proof. solve_decision. Defined.

#[export] Instance Books_countable : Countable Books.
Proof.
  refine (inj_countable'
    (fun b => (bk_owed_credited b, bk_deferred b, debits_live b, debited b, rebate_debited b,
               (credits_live b, credited_sats b, rebate_added b, shortfall b, debt_paid b)))
    (fun x => match x with (a, c, e, f, g, (h, i, j, k, l)) =>
       {| bk_owed_credited := a; bk_deferred := c; debits_live := e; debited := f; rebate_debited := g;
          credits_live := h; credited_sats := i; rebate_added := j; shortfall := k; debt_paid := l |} end) _).
  by intros [].
Defined.

#[export] Instance BlockRecord_countable : Countable BlockRecord.
Proof.
  refine (inj_countable'
    (fun r => (br_ts r, br_height r, br_hash r, br_finder r, br_coinbase_value r, br_kind r,
               (br_owed_sats r, br_split r, br_pool_sats r, br_carry_paid r, br_carry_delta r,
                br_rebate_credited r, br_rebate_delta r),
               (br_settled r, br_submit r, br_gateway r, br_books r, br_carry_shortfall_sats r,
                br_carry_reserved_sats r)))
    (fun x => match x with (a, b, c, d, e, f, (g, h, i, j, k, l, m), (n, o, p, q, s, t)) =>
       {| br_ts := a; br_height := b; br_hash := c; br_finder := d; br_coinbase_value := e; br_kind := f;
          br_owed_sats := g; br_split := h; br_pool_sats := i; br_carry_paid := j; br_carry_delta := k;
          br_rebate_credited := l; br_rebate_delta := m; br_settled := n; br_submit := o; br_gateway := p;
          br_books := q; br_carry_shortfall_sats := s; br_carry_reserved_sats := t |} end) _).
  by intros [].
Defined.

Definition toy_block_json : BlockJson := {| block_to_json := to_text; block_from_json := of_text |}.

Lemma toy_block_laws : @BlockJsonLaws toy_block_json.
Proof.
  constructor; cbn [block_to_json block_from_json toy_block_json].
  - apply of_to_text.
  - apply of_text_part.
  - apply of_text_glued.
  - intros r Hin. pose proof (to_text_chars r) as H. rewrite Forall_forall in H.
    specialize (H _ Hin). by cbn in H.
  - intros r. exists 91. split; [left | done].
Qed.

Definition demo_block (hash : string) : BlockRecord := {|
  br_ts := 1; br_height := 2; br_hash := hash; br_finder := None; br_coinbase_value := 5; br_kind := "split";
  br_owed_sats := 0; br_split := []; br_pool_sats := 0; br_carry_paid := 0; br_carry_delta := [];
  br_rebate_credited := 0; br_rebate_delta := 0; br_settled := false; br_submit := "pending";
  br_gateway := "gw"; br_books := None; br_carry_shortfall_sats := 0; br_carry_reserved_sats := 0 |}.

Lemma block_log_survives_crash_witness :
  latest_of (@records toy_block_json (contents ∅ BLOCKS) ++ [demo_block "aa"])
    (@read_all toy_block_json (run_op ∅ (@log_append toy_block_json (demo_block "aa")))).
Proof.
  exact (proj1 (proj2 (@block_log_survives_crash toy_block_json toy_block_laws ∅ ∅ (demo_block "aa")
    (or_introl eq_refl) (crashes_start _ _)))).
Defined.

Lemma block_after_torn_line_lost_witness :
  latest_of (@records toy_block_json (contents ∅ BLOCKS))
    (@read_all toy_block_json
       (run_op (<[BLOCKS := contents ∅ BLOCKS ++ [91]]> ∅) (@log_append toy_block_json (demo_block "bb")))).
Proof.
  refine (proj2 (@block_after_torn_line_lost toy_block_json toy_block_laws ∅ (demo_block "aa") (demo_block "bb") [91]
    (or_introl eq_refl) _ _)); [|done].
  by exists (digits (encode (demo_block "aa"))).
Defined.
