(* ===== verification/Persist.v ===== *)
(** The ledger's files ([Ledger::open], [flush], [compact], [persist_window] and [load_meta] of
    [prime/tides/src/lib.rs]): what is written, in what order, and how a ledger is read back.

    Each operation gives the steps it performs on the directory. The two append-only files hold a
    part of what was handed to their writers ([credits_out], [idents_out]); a flush brings them up to
    date. [serde_json] is an interface. *)

From S2P Require Import Prelude Bytes Tides Split Window Grace Ledger Disk.
Open Scope Z_scope.

(** * Files *)

Definition CREDITS : string := "credits.bin".
Definition IDENTS : string := "identities.txt".
Definition META : string := "window.json".
Definition GRACE : string := "grace.json".
Definition CREDITS_TMP : string := "credits.bin.tmp".

(** Persisted window state. *)
Record Meta := {
  mt_target_work : Z;
  mt_lifetime_shares : Z;
  mt_lifetime_work : Z;
  mt_carry : gmap string Z;
  mt_rebate_owed : Z;
  mt_last_seen : gmap string Z;
  mt_holds : gmap string Hold;
  mt_debt : gmap string Z;
  mt_applied_debits : list string;
  mt_applied_debits_tracked : bool
}.

Definition meta_default : Meta := {|
  mt_target_work := 0; mt_lifetime_shares := 0; mt_lifetime_work := 0; mt_carry := ∅;
  mt_rebate_owed := 0; mt_last_seen := ∅; mt_holds := ∅; mt_debt := ∅; mt_applied_debits := [];
  mt_applied_debits_tracked := false |}.

(** A row of another pool's ledger. *)
Record ImportRow := { ir_ts : Z; ir_identity : string; ir_work : Z; ir_height : Z; ir_source : Z }.

(** [serde_json] on the two state files and on an imported ledger. *)
Class MetaJson := {
  meta_to_json : Meta -> list Z;
  meta_from_json : list Z -> option Meta;
  book_to_json : GraceBook -> list Z;
  book_from_json : list Z -> option GraceBook;
  import_from_json : list Z -> option (list ImportRow)
}.

(** What is written reads back; the grace book's dirty mark is not written. *)
Class MetaJsonLaws `{MetaJson} := {
  meta_json_reads : forall m, meta_from_json (meta_to_json m) = Some m;
  book_json_reads : forall b, book_from_json (book_to_json b) = Some (clear_dirty b)
}.

Definition rows_bytes (cs : list Credit) : list Z := concat (map credit_write cs).

(** A map's entries in key order. *)
Definition by_name {A} (m : gmap string A) : list (string * A) :=
  sort_by (fun a b => String.leb a.1 b.1) (map_to_list m).

(** * Opening *)

(** [as_chunks]: the first [n] rows of a file. *)
Fixpoint chunks (n : nat) (b : list Z) : list (list Z) :=
  match n with O => [] | S n' => take CREDIT_SIZE b :: chunks n' (drop CREDIT_SIZE b) end.

(** The identity table: a torn last line cut off the file, then every line that is not empty. *)
Definition load_idents (d : Disk) : list DiskOp * result string (list string) :=
  match d !! IDENTS with
  | None => ([], Ok [])
  | Some b =>
      let whole := whole_lines b in
      let ops := if bool_decide (whole = length b) then [] else [Truncate IDENTS whole] in
      let ls := lines (take whole b) in
      (ops, if forallb utf8_ok ls
            then Ok (map bytes_str (filter (fun l => l <> []) ls))
            else Err "stream did not contain valid UTF-8"%string)
  end.

(** What [meta.carry] and [meta.debt] add: the window and the identities not on file. *)
Definition seed_carry (st : Window * list string) (e : string * Z) : Window * list string :=
  (set_carry st.1 e.1 e.2, st.2 ++ new_line st.1 e.1).
Definition seed_debt (st : Window * list string) (e : string * Z) : Window * list string :=
  (accrue_debt st.1 e.1 e.2, st.2 ++ new_line st.1 e.1).
Definition seed_seen (w : Window) (e : string * Z) : Window :=
  match index_of w e.1 with Some _ => set_last_seen w e.1 e.2 | None => w end.

(** The rows: one whose identity is not in the table stays out of the window. *)
Fixpoint load_rows (w : Window) (on_disk skipped : Z) (rows : list Credit)
    : panics (Window * Z * Z) :=
  match rows with
  | [] => Ret (w, on_disk, skipped)
  | c :: rows' =>
      if ident c <? Z.of_nat (length (idents w))
      then w' ← push_raw w c; load_rows w' (on_disk + 1) skipped rows'
      else load_rows w on_disk (skipped + 1) rows'
  end.

(** The credits file: a torn last row cut off, and the rows. *)
Definition read_rows (d : Disk) : list DiskOp * list Credit :=
  match d !! CREDITS with
  | None => ([], [])
  | Some b =>
      let n := (length b / CREDIT_SIZE)%nat in
      let usable := (n * CREDIT_SIZE)%nat in
      (if bool_decide (usable = length b) then [] else [Truncate CREDITS usable],
       map credit_read (chunks n (take usable b)))
  end.

(** Bring a file up to what was handed to its writer. *)
Definition flush_file (d : Disk) (name : string) (all : list Z) : DiskOp :=
  Append name (drop (length (contents d name)) all).

(** [Ledger::compact]. *)
Definition compacted (l : Ledger) : Ledger := {|
  l_window := l_window l; credits_out := credits (l_window l); idents_out := idents_out l;
  rows_on_disk := Z.of_nat (length (credits (l_window l))); dirty := dirty l;
  applied_debits := applied_debits l; debits_tracked := debits_tracked l; l_grace := l_grace l;
  grace_loaded := grace_loaded l |}.
Definition compact_ops (l : Ledger) (d : Disk) : list DiskOp :=
  [flush_file d CREDITS (rows_bytes (credits_out l));
   Create CREDITS_TMP (rows_bytes (credits (l_window l))); Rename CREDITS_TMP CREDITS].
Definition compact (l : Ledger) (d : Disk) : Ledger * list DiskOp := (compacted l, compact_ops l d).

(** When the file has grown past the live window. *)
Definition overgrown (l : Ledger) : bool :=
  Z.of_nat (length (credits (l_window l))) + 8192 <? rows_on_disk l.

Section Files.
Context `{MetaJson}.

(** [load_meta]: a file that is not there is a new ledger; one that does not parse is not. *)
Definition read_meta (d : Disk) (path : string) : result string (option Meta) :=
  match d !! path with
  | None => Ok None
  | Some b => match meta_from_json b with Some m => Ok (Some m) | None => Err path end
  end.
Definition load_meta (d : Disk) (path : string) : result string Meta :=
  match read_meta d path with
  | Ok (Some m) => Ok m
  | Ok None =>
      match read_meta d (bak_of path) with
      | Ok (Some m) => Ok m
      | Ok None => Ok meta_default
      | Err e => Err e
      end
  | Err e => match read_meta d (bak_of path) with Ok (Some m) => Ok m | _ => Err e end
  end.

(** [load_grace]. *)
Definition load_grace (d : Disk) : GraceBook * bool :=
  match d !! GRACE with
  | Some b => match book_from_json b with Some g => (g, true) | None => (grace_empty, false) end
  | None => (grace_empty, false)
  end.

(** The window as [window.json] and the identity table give it, before any row. *)
Definition seed_window (m : Meta) (names : list string) : Window * list string :=
  let w := with_holds (with_rebate_owed (with_lifetime window_new (mt_lifetime_shares m) (mt_lifetime_work m))
             (mt_rebate_owed m)) (mt_holds m) in
  let w := foldl (fun w s => (intern w s).1) w names in
  let '(w, new) := foldl seed_carry (w, []) (by_name (mt_carry m)) in
  let '(w, new) := foldl seed_debt (w, new) (by_name (mt_debt m)) in
  (foldl seed_seen w (by_name (mt_last_seen m)), new).

(** [Ledger::open]: the steps on the directory, and the ledger or why there is none. *)
Definition open_ledger (d : Disk) : panics (list DiskOp * result string Ledger) :=
  match load_meta d META with
  | Err e => Ret ([], Err e)
  | Ok m =>
      match load_idents d with
      | (ops1, Err e) => Ret (ops1, Err e)
      | (ops1, Ok names) =>
          let '(w, new) := seed_window m names in
          let '(ops2, rows) := read_rows (run_ops d ops1) in
          '(w, on_disk, skipped) ← load_rows w 0 0 rows;
          let w := set_target w (mt_target_work m) in
          let ops := ops1 ++ ops2 in
          let '(g, loaded) := load_grace d in
          let l := {| l_window := w; credits_out := rows; idents_out := names ++ new;
                      rows_on_disk := on_disk; dirty := match new with [] => false | _ => true end;
                      applied_debits := list_to_set (mt_applied_debits m);
                      debits_tracked := mt_applied_debits_tracked m; l_grace := g; grace_loaded := loaded |} in
          Ret (if (0 <? skipped) || overgrown l
               then (ops ++ compact_ops l (run_ops d ops), Ok (compacted l))
               else (ops, Ok l))
      end
  end.

(** * Writing *)

Definition collect_names (es : list (string * Z)) : gmap string Z := foldl (fun m e => <[e.1 := e.2]> m) ∅ es.

(** [window.json] of a ledger. *)
Definition seen_names (w : Window) : panics (list string) :=
  owed ← mapM (fun e => ident_name w e.1) (map_to_list (carry w));
  Ret (owed ++ concat (map (fun h => map fst (entries h.2)) (map_to_list (holds w)))).
Definition meta_of (l : Ledger) : panics Meta :=
  let w := l_window l in
  cs ← carries w;
  names ← seen_names w;
  ds ← debts w;
  Ret {| mt_target_work := target_work w; mt_lifetime_shares := lifetime_shares w;
         mt_lifetime_work := lifetime_work w; mt_carry := collect_names cs; mt_rebate_owed := rebate_owed w;
         mt_last_seen := collect_names (filter (fun e => 0 < e.2) (map (fun s => (s, last_seen_of w s)) names));
         mt_holds := holds w; mt_debt := collect_names ds;
         mt_applied_debits := sort_by String.leb (elements (applied_debits l));
         mt_applied_debits_tracked := debits_tracked l |}.

(** A flushed ledger: its grace book written if it was due, nothing pending. *)
Definition flushed (l : Ledger) : Ledger :=
  with_grace l (if g_dirty (l_grace l) then clear_dirty (l_grace l) else l_grace l) false (grace_loaded l).

(** [Ledger::flush]. *)
Definition flush (l : Ledger) (d : Disk) : panics (Ledger * list DiskOp) :=
  if negb (dirty l) then Ret (l, []) else
  let ops := (if g_dirty (l_grace l) then write_atomic GRACE (book_to_json (l_grace l)) else [])
             ++ [flush_file d IDENTS (line_bytes (idents_out l));
                 flush_file d CREDITS (rows_bytes (credits_out l))] in
  m ← meta_of l;
  let ops := ops ++ write_atomic META (meta_to_json m) in
  let l := flushed l in
  Ret (if overgrown l then (compacted l, ops ++ compact_ops l (run_ops d ops)) else (l, ops)).

(** [Ledger::persist_window]. *)
Definition persist_window (l : Ledger) (d : Disk) : panics (Ledger * list DiskOp) :=
  '(l, ops) ← flush l d;
  Ret (if rows_on_disk l =? Z.of_nat (length (credits (l_window l))) then (l, ops)
       else (compacted l, ops ++ compact_ops l (run_ops d ops))).

(** [Ledger::import_json_credits]. *)
Definition import_source (s : Z) : Z :=
  if s =? SOURCE_STRATUM then SOURCE_STRATUM
  else if s =? SOURCE_DATUM then SOURCE_DATUM else SOURCE_UNKNOWN.
Fixpoint import_rows (l : Ledger) (rows : list ImportRow) : panics Ledger :=
  match rows with
  | [] => Ret l
  | r :: rows' =>
      l' ← ledger_credit l (ir_identity r) (ir_work r) (ir_height r) (ir_ts r) (import_source (ir_source r));
      import_rows l' rows'
  end.
Definition import_json_credits (l : Ledger) (d : Disk) (doc : list Z)
    : panics (result string (Ledger * list DiskOp * nat)) :=
  match import_from_json doc with
  | None => Ret (Err "invalid data"%string)
  | Some rows =>
      l ← import_rows l rows;
      '(l, ops) ← flush l d;
      Ret (Ok (l, ops, length rows))
  end.
End Files.
