(* ===== verification/PersistFacts.v ===== *)
(** Reading the ledger's files back: torn files of rows and lines, and the window a replay
    builds. *)

From S2P Require Import Prelude Bytes Tides Split SplitFacts Window WindowFacts BalanceFacts Grace Ledger Disk Persist.
From S2P Require Import MinersFacts.
Open Scope Z_scope.

(** * Rows on file *)

Lemma length_rows_bytes cs : length (rows_bytes cs) = (length cs * CREDIT_SIZE)%nat.
Proof.
  unfold rows_bytes. induction cs as [|c cs IH]; [done|]. cbn [map concat length].
  rewrite length_app, length_credit_write, IH. unfold CREDIT_SIZE. lia.
Qed.

Lemma rows_bytes_cons c cs : rows_bytes (c :: cs) = credit_write c ++ rows_bytes cs.
Proof. done. Qed.

Lemma chunks_rows cs : forall n, (n <= length cs)%nat ->
  chunks n (rows_bytes cs) = map credit_write (take n cs).
Proof.
  induction cs as [|c cs IH]; intros [|n] Hn; cbn [length] in Hn; try done; [lia|].
  rewrite rows_bytes_cons. cbn [chunks take map].
  replace CREDIT_SIZE with (length (credit_write c)) by apply length_credit_write.
  rewrite take_app_length, drop_app_length, IH by lia. done.
Qed.

Lemma chunks_take n : forall b, chunks n (take (n * CREDIT_SIZE) b) = chunks n b.
Proof.
  induction n as [|n IH]; intros b; [done|]. cbn [chunks]. f_equal.
  - by rewrite take_take, Nat.min_l by (unfold CREDIT_SIZE; lia).
  - rewrite skipn_firstn_comm. replace (S n * CREDIT_SIZE - CREDIT_SIZE)%nat with (n * CREDIT_SIZE)%nat
      by (unfold CREDIT_SIZE; lia). apply IH.
Qed.

(** A file of rows cut back to whole rows, and the rows read off it. *)
Lemma read_rows_prefix d cs :
  Forall credit_ok cs -> prefix (contents d CREDITS) (rows_bytes cs) ->
  let rows := take (length (contents d CREDITS) / CREDIT_SIZE) cs in
  exists ops, read_rows d = (ops, rows) /\ contents (run_ops d ops) CREDITS = rows_bytes rows /\
    (forall o, o ∈ ops -> op_files o = [CREDITS]).
Proof.
  intros Hcs Hp. unfold read_rows, contents in Hp |- *.
  destruct (d !! CREDITS) as [b|] eqn:Ed; cbn [from_option id] in Hp |- *.
  2:{ exists []. cbn [run_ops foldl]. rewrite Ed. split; [done|]. split; [done|]. by intros o ?%elem_of_nil. }
  set (n := (length b / CREDIT_SIZE)%nat).
  assert (Hn : (n * CREDIT_SIZE <= length b)%nat).
  { unfold n. pose proof (Nat.Div0.mul_div_le (length b) CREDIT_SIZE). unfold CREDIT_SIZE in *. lia. }
  assert (Hle : (n <= length cs)%nat).
  { apply prefix_length in Hp. rewrite length_rows_bytes in Hp. clearbody n.
    unfold CREDIT_SIZE in *. lia. }
  destruct Hp as [r Hr].
  assert (Ht : take (n * CREDIT_SIZE) b = rows_bytes (take n cs)).
  { rewrite <- (take_drop n cs) in Hr. unfold rows_bytes in Hr. rewrite map_app, concat_app in Hr.
    fold (rows_bytes (take n cs)) in Hr. apply (f_equal (take (n * CREDIT_SIZE))) in Hr.
    rewrite (take_app_le b) in Hr by done. rewrite take_app_length' in Hr; [done|].
    by rewrite length_rows_bytes, length_take, Nat.min_l. }
  eexists. split; [f_equal|split].
  - rewrite Ht, chunks_rows by (rewrite length_take; lia). rewrite take_take, Nat.min_id, map_map.
    rewrite <- (map_id (take n cs)) at 2. apply map_ext_in. intros c Hc. apply credit_read_write.
    rewrite Forall_forall in Hcs. apply Hcs. apply list_elem_of_In, elem_of_take in Hc as (i & Hc & _).
    by eapply list_elem_of_lookup_2.
  - case_bool_decide as Heq; cbn [run_ops foldl run_op].
    + rewrite Ed. cbn [from_option id]. rewrite <- Ht, firstn_all2 by lia. done.
    + by rewrite Ed, lookup_insert_eq.
  - case_bool_decide; intros o Ho; [by apply elem_of_nil in Ho | by apply list_elem_of_singleton in Ho as ->].
Qed.

(** * Lines on file *)

(** A file of lines cut back to whole lines, and the names read off it. *)
Lemma load_idents_prefix d ls n :
  Forall line_ok ls -> prefix (contents d IDENTS) (line_bytes ls) ->
  prefix (line_bytes (take n ls)) (contents d IDENTS) ->
  exists k ops, (n <= k \/ length ls <= k)%nat /\ load_idents d = (ops, Ok (take k ls)) /\
    contents (run_ops d ops) IDENTS = line_bytes (take k ls) /\
    (forall o, o ∈ ops -> op_files o = [IDENTS]).
Proof.
  intros Hls Hp Hn. unfold load_idents, contents in Hp, Hn |- *.
  destruct (d !! IDENTS) as [b|] eqn:Ed; cbn [from_option id] in Hp, Hn |- *.
  - destruct (whole_lines_prefix ls b Hls Hp) as (k & E & Hk). exists k. eexists. split; [by apply Hk|].
    assert (Hok : Forall line_ok (take k ls)) by by apply Forall_take.
    rewrite E, lines_line_bytes by done. split; [f_equal|split].
    + assert (Hu : forallb utf8_ok (map str_bytes (take k ls)) = true).
      { apply forallb_forall. intros x (s & <- & Hs)%in_map_iff. apply list_elem_of_In in Hs.
        rewrite Forall_forall in Hok. by apply Hok. }
      rewrite Hu. f_equal. rewrite Forall_forall in Hok. clear -Hok.
      induction (take k ls) as [|s l IH]; [done|]. cbn [map]. rewrite filter_cons, decide_True.
      * cbn [map]. rewrite bytes_str_bytes, IH; [done|]. intros x Hx. apply Hok. by right.
      * assert (line_ok s) as [Hne _] by (apply Hok; left). intros E'.
        apply Hne, str_bytes_inj. by rewrite E'.
    + case_bool_decide as Heq; cbn [run_ops foldl run_op].
      * rewrite Ed. cbn [from_option id]. by rewrite <- E, Heq, firstn_all.
      * rewrite Ed, lookup_insert_eq. cbn [from_option id]. exact E.
    + case_bool_decide; intros o Ho; [by apply elem_of_nil in Ho | by apply list_elem_of_singleton in Ho as ->].
  - exists O, []. cbn [run_ops foldl]. rewrite Ed. split; [|split; [done|split; [done|]]].
    + apply prefix_nil_inv in Hn. destruct n as [|n]; [lia|]. destruct ls as [|s ls]; [right; cbn; lia|]. exfalso.
      cbn [take] in Hn. unfold line_bytes in Hn. cbn [map concat] in Hn. by destruct (str_bytes s).
    + by intros o ?%elem_of_nil.
Qed.

(** * The window of the state file *)

Lemma intern_fresh w s :
  window_ok w -> s ∉ idents w -> table_room w ->
  (intern w s).1 = with_idents w (idents w ++ [s]) (<[s := Z.of_nat (length (idents w))]> (ident_index w)).
Proof.
  intros OK Hs Hroom. unfold intern. destruct (ident_index w !! s) as [i|] eqn:E.
  - apply (wo_index _ OK) in E as [_ E]. apply list_elem_of_lookup_2 in E. done.
  - unfold table_room in Hroom. by rewrite trunc_small by (unfold in_range; lia).
Qed.

Lemma intern_all names : forall w, window_ok w -> NoDup (idents w ++ names) ->
  Z.of_nat (length (idents w ++ names)) <= u32_max + 1 ->
  exists m, foldl (fun w s => (intern w s).1) w names = with_idents w (idents w ++ names) m /\
    window_ok (with_idents w (idents w ++ names) m).
Proof.
  induction names as [|s names IH]; intros w OK Hnd Hlen.
  - exists (ident_index w). rewrite app_nil_r, with_idents_id. done.
  - assert (Hs : s ∉ idents w).
    { intros Hin. apply NoDup_app in Hnd as (_ & H & _). apply (H s Hin). left. }
    assert (Hroom : table_room w).
    { unfold table_room. rewrite length_app in Hlen. cbn [length] in Hlen. lia. }
    pose proof (in_ok _ _ _ _ (intern_ok w s OK Hroom)) as OK1.
    cbn [foldl]. rewrite (intern_fresh w s OK Hs Hroom) in OK1 |- *.
    set (w1 := with_idents w (idents w ++ [s]) _) in *.
    assert (Hid : idents w1 ++ names = idents w ++ s :: names)
      by (unfold w1; cbn [idents with_idents]; by rewrite <- app_assoc).
    destruct (IH w1 OK1) as (m & E & OK2); rewrite ?Hid; [done | done |].
    rewrite Hid in E, OK2. exists m. by destruct w.
Qed.

(** A balance map after the entries of a state file have been set in it. *)
Fixpoint put_all (f : Z -> Z -> Z) (w : Window) (m : gmap Z Z) (es : list (string * Z)) : gmap Z Z :=
  match es with
  | [] => m
  | e :: es' =>
      match index_of w e.1 with
      | Some i => put_all f w (put m i (f (lookup0 m i) e.2)) es'
      | None => put_all f w m es'
      end
  end.

Definition known_all (w : Window) (es : list (string * Z)) : Prop :=
  Forall (fun e => is_Some (index_of w e.1) /\ 0 < e.2 <= u64_max) es.

Lemma put_all_ok f w es : forall m, window_ok w -> known_all w es ->
  (forall x y, in_range u64_max x -> 0 < y <= u64_max -> 0 < f x y <= u64_max) ->
  map_Forall (balance_ok w) m -> map_Forall (balance_ok w) (put_all f w m es).
Proof.
  induction es as [|e es IH]; intros m OK Hk Hf Hm; [done|].
  apply Forall_cons in Hk as [[[i Hi] He] Hk]. cbn [put_all]. rewrite Hi. apply IH; try done.
  apply map_Forall_put; [done|]. intros _. split; [by eapply index_interned|].
  apply Hf; [by apply lookup0_range with w | done].
Qed.

Lemma put_all_lookup f w es : forall m s i, window_ok w -> known_all w es -> NoDup (map fst es) ->
  index_of w s = Some i ->
  lookup0 (put_all f w m es) i =
  match (list_to_map es : gmap string Z) !! s with
  | Some v => f (lookup0 m i) v
  | None => lookup0 m i
  end.
Proof.
  induction es as [|[t v] es IH]; intros m s i OK Hk Hnd Hs; [by cbn; rewrite lookup_empty|].
  apply Forall_cons in Hk as [[[j Hj] He] Hk]. cbn [fst snd] in *.
  cbn [map fst] in Hnd. apply NoDup_cons in Hnd as [Hnt Hnd]. cbn [put_all fst snd list_to_map foldr].
  rewrite Hj, (IH _ s i) by done. destruct (decide (t = s)) as [<-|Hne].
  - rewrite lookup_insert_eq. rewrite not_elem_of_list_to_map_1 by done.
    rewrite lookup0_put, decide_True by congruence. congruence.
  - rewrite lookup_insert_ne by done. rewrite lookup0_put, decide_False; [done|].
    intros ->. apply Hne. by eapply (index_inj w).
Qed.

Lemma intern_index w s i : index_of w s = Some i -> intern w s = (w, i).
Proof. unfold intern, index_of. by intros ->. Qed.

Lemma new_line_known w s i : index_of w s = Some i -> new_line w s = [].
Proof. unfold new_line. by intros ->. Qed.

Lemma seed_carry_all w es new : known_all w es -> forall m,
  foldl seed_carry (with_carry w m, new) es = (with_carry w (put_all (fun _ v => v) w m es), new).
Proof.
  induction 1 as [|e es [[i Hi] He] _ IH]; intros m; [done|]. cbn [foldl put_all]. rewrite Hi.
  unfold seed_carry at 2. cbn [fst snd]. unfold set_carry.
  rewrite (intern_index (with_carry w m) e.1 i Hi), (new_line_known (with_carry w m) e.1 i Hi), app_nil_r.
  apply IH.
Qed.

Lemma seed_debt_all w es new : window_ok w -> known_all w es -> forall m, map_Forall (balance_ok w) m ->
  foldl seed_debt (with_debt w m, new) es = (with_debt w (put_all (sat_add u64_max) w m es), new).
Proof.
  intros OK. induction 1 as [|e es [[i Hi] He] _ IH]; intros m Hm; [done|]. cbn [foldl put_all]. rewrite Hi.
  unfold seed_debt at 2. cbn [fst snd]. unfold accrue_debt. rewrite (proj2 (Z.eqb_neq _ _)) by lia.
  rewrite (intern_index (with_debt w m) e.1 i Hi), (new_line_known (with_debt w m) e.1 i Hi), app_nil_r.
  change (debt (with_debt w m)) with m. pose proof (lookup0_range w m i Hm) as Hr. unfold in_range in Hr.
  rewrite insert_as_put by sat_lia. apply IH. apply map_Forall_put; [done|]. intros _.
  split; [by eapply index_interned | sat_lia].
Qed.

Lemma seed_seen_all es : forall w, window_ok w -> Forall (fun e => 0 <= e.2) es ->
  exists s, foldl seed_seen w es = with_last_seen w s /\ window_ok (with_last_seen w s).
Proof.
  induction es as [|e es IH]; intros w OK Hes.
  - exists (last_seen w). by destruct w.
  - apply Forall_cons in Hes as [He Hes]. cbn [foldl]. unfold seed_seen at 2.
    destruct (index_of w e.1) as [i|] eqn:Hi; [|by apply IH].
    unfold set_last_seen. rewrite (intern_index w e.1 i Hi).
    assert (OK1 : window_ok (note_seen w i e.2)) by (apply note_seen_ok; [done | by eapply index_interned | done]).
    destruct (IH _ OK1 Hes) as (s & E & OK2). exists s. by destruct w.
Qed.

(** The state file of a ledger whose identities are [names]. *)
Record meta_ok (names : list string) (m : Meta) : Prop := {
  mo_carry : map_Forall (fun s v => s ∈ names /\ 0 < v <= u64_max) (mt_carry m);
  mo_debt : map_Forall (fun s v => s ∈ names /\ 0 < v <= u64_max) (mt_debt m);
  mo_seen : map_Forall (fun _ t => 0 <= t) (mt_last_seen m);
  mo_owed : in_range u64_max (mt_rebate_owed m);
  mo_holds : map_Forall hold_ok (mt_holds m);
  mo_target : 0 <= mt_target_work m
}.

(** What a reopened ledger has of the state file. *)
Record restores (m : Meta) (names : list string) (w : Window) : Prop := {
  rs_ok : window_ok w;
  rs_idents : idents w = names;
  rs_carry : forall s, carry_of w s = default 0 (mt_carry m !! s);
  rs_debt : forall s, debt_of w s = default 0 (mt_debt m !! s);
  rs_holds : holds w = mt_holds m;
  rs_owed : rebate_owed w = mt_rebate_owed m;
  rs_lifetime : lifetime_shares w = mt_lifetime_shares m /\ lifetime_work w = mt_lifetime_work m
}.

Lemma by_name_perm {A} (m : gmap string A) : by_name m ≡ₚ map_to_list m.
Proof. apply sort_by_perm. Qed.

Lemma by_name_map {A} (m : gmap string A) : NoDup (map fst (by_name m)) /\ list_to_map (by_name m) = m.
Proof.
  assert (Hnd : NoDup (map fst (map_to_list m))) by apply NoDup_fst_map_to_list.
  assert (Hp : map fst (by_name m) ≡ₚ map fst (map_to_list m)).
  { apply (fmap_Permutation fst), by_name_perm. }
  assert (Hnd' : NoDup (map fst (by_name m))) by by rewrite Hp.
  split; [done|]. rewrite (list_to_map_proper (by_name m) (map_to_list m)) by (done || apply by_name_perm).
  apply list_to_map_to_list.
Qed.

Lemma by_name_Forall {A} (P : string -> A -> Prop) m :
  map_Forall P m -> Forall (fun e => P e.1 e.2) (by_name m).
Proof. intros H. rewrite by_name_perm. apply map_Forall_to_list in H. eapply Forall_impl; [exact H|]. by intros []. Qed.

(** The balances of a state file, once every name of it is in the table. *)
Lemma put_all_of_identity f w b s :
  window_ok w -> (forall y, 0 < y <= u64_max -> f 0 y = y) ->
  map_Forall (fun s v => s ∈ idents w /\ 0 < v <= u64_max) b ->
  known_all w (by_name b) /\ of_identity w (put_all f w ∅ (by_name b)) s = default 0 (b !! s).
Proof.
  intros OK Hf Hb.
  assert (Hidx : forall t, t ∈ idents w -> is_Some (index_of w t)).
  { intros t (j & Hj)%list_elem_of_lookup. exists (Z.of_nat j). apply (wo_index _ OK).
    split; [lia|]. unfold identity_at. by rewrite Nat2Z.id. }
  assert (Hk : known_all w (by_name b)).
  { apply by_name_Forall in Hb. eapply Forall_impl; [exact Hb|]. cbn. intros e [? ?]. auto. }
  split; [done|]. destruct (by_name_map b) as [Hnd Hm]. unfold of_identity.
  destruct (ident_index w !! s) as [i|] eqn:Hi.
  - rewrite (put_all_lookup f w _ _ s i) by done. rewrite Hm. destruct (b !! s) as [v|] eqn:Hv; [|done].
    change (lookup0 ∅ i) with 0. apply Hf. by apply Hb in Hv as [_ ?].
  - destruct (b !! s) as [v|] eqn:Hv; [|done]. apply Hb in Hv as [Hin _].
    apply Hidx in Hin as [j Hj]. unfold index_of in Hj. congruence.
Qed.

Lemma seed_window_ok m names :
  NoDup names -> Z.of_nat (length names) <= u32_max + 1 -> meta_ok names m ->
  exists w, seed_window m names = (w, []) /\ restores m names w /\
    credits w = [] /\ total_work w = 0 /\ target_work w = 0.
Proof.
  intros Hnd Hlen [Hc Hd Hs Ho Hh Ht]. unfold seed_window.
  set (w0 := with_holds (with_rebate_owed (with_lifetime window_new (mt_lifetime_shares m) (mt_lifetime_work m))
    (mt_rebate_owed m)) (mt_holds m)).
  assert (OK0 : window_ok w0).
  { apply with_holds_ok; [apply with_rebate_owed_ok; [apply with_lifetime_ok, window_new_ok | done] | done]. }
  destruct (intern_all names w0 OK0 Hnd Hlen) as (im & E & OK1). rewrite E. clear E.
  change (idents w0 ++ names) with names in *. set (w1 := with_idents w0 names im) in *.
  destruct (put_all_of_identity (fun _ v => v) w1 (mt_carry m) ""%string OK1) as [Kc _]; [done | done |].
  pose proof (seed_carry_all w1 (by_name (mt_carry m)) [] Kc ∅) as Ec.
  change (with_carry w1 ∅) with w1 in Ec. rewrite Ec.
  set (c := put_all _ w1 ∅ _) in *. set (w2 := with_carry w1 c).
  assert (OK2 : window_ok w2).
  { apply with_carry_ok; [done|]. apply put_all_ok; try done. }
  destruct (put_all_of_identity (sat_add u64_max) w1 (mt_debt m) ""%string OK1) as [Kd _];
    [intros; sat_lia | done |].
  assert (Kd2 : known_all w2 (by_name (mt_debt m))) by exact Kd.
  pose proof (seed_debt_all w2 (by_name (mt_debt m)) [] OK2 Kd2 ∅ (map_Forall_empty _)) as Ed.
  change (with_debt w2 ∅) with w2 in Ed. rewrite Ed.
  set (dm := put_all _ w2 ∅ _) in *. set (w3 := with_debt w2 dm).
  assert (OK3 : window_ok w3).
  { apply with_debt_ok; [done|]. apply put_all_ok; try done. intros; sat_lia. }
  destruct (seed_seen_all (by_name (mt_last_seen m)) w3 OK3) as (sn & Es & OK4); [by apply by_name_Forall in Hs|].
  rewrite Es. eexists. split; [reflexivity|]. split; [|done]. constructor; try done.
  - intros s. by apply (put_all_of_identity (fun _ v => v) w1 (mt_carry m) s OK1).
  - intros s. apply (put_all_of_identity (sat_add u64_max) w2 (mt_debt m) s OK2); [intros; sat_lia | done].
Qed.

(** * Replaying the rows *)

(** Everything of a window that is not its rows. *)
Definition frame_of (w : Window) :=
  (idents w, ident_index w, carry w, debt w, holds w, rebate_owed w, (lifetime_shares w, lifetime_work w)).

(** The rows whose identity is in a table of [n] names. *)
Definition accepted (n : nat) (rows : list Credit) : list Credit :=
  filter (fun c => ident c < Z.of_nat n) rows.

Lemma work_nonneg cs : Forall credit_ok cs -> 0 <= zsum (map work cs).
Proof.
  intros H. apply zsum_nonneg, Forall_map. eapply Forall_impl; [exact H|].
  intros c (_ & _ & Hw & _). unfold in_range in Hw. cbn. lia.
Qed.

Lemma push_raw_frame w c w' : push_raw w c = Ret w' -> frame_of w' = frame_of w.
Proof.
  unfold push_raw. destruct (default _ _) as [[w0 n0] t0]. intros (n & _ & H)%bind_Ret_inv.
  by injection H as <-.
Qed.

Lemma load_rows_ok rows : forall w n k,
  window_ok w -> Forall credit_ok rows -> total_work w + zsum (map work rows) <= u64_max ->
  Z.of_nat (length (credits w) + length rows) < u64_max ->
  exists w' k', load_rows w n k rows =
      Ret (w', n + Z.of_nat (length (accepted (length (idents w)) rows)), k') /\
    (k' = k \/ k < k') /\
    (k' = k -> accepted (length (idents w)) rows = rows) /\
    window_ok w' /\ credits w' = credits w ++ accepted (length (idents w)) rows /\
    frame_of w' = frame_of w.
Proof.
  induction rows as [|c rows IH]; intros w n k OK Hrows Hsum Hlen.
  - exists w, k. cbn. rewrite Z.add_0_r, app_nil_r. auto 10.
  - apply Forall_cons in Hrows as [Hc Hrows]. pose proof (work_nonneg rows Hrows) as Hnn.
    cbn [map length] in Hsum, Hlen. rewrite zsum_cons in Hsum. pose proof Hc as (Hts & Hid & Hw & _).
    cbn [load_rows]. unfold accepted. rewrite filter_cons. fold (accepted (length (idents w)) rows).
    destruct (Z.ltb_spec (ident c) (Z.of_nat (length (idents w)))) as [Hlt|Hge].
    + rewrite decide_True by done.
      assert (Hint : interned w (ident c)).
      { unfold in_range in Hid. split; [lia|]. apply lookup_lt_is_Some. lia. }
      unfold in_range in Hw, Hts. destruct (push_raw_ok w c OK Hint Hw) as (w1 & E & OK1 & Hcr & Htot); try lia.
      rewrite E. mstep. pose proof (push_raw_frame _ _ _ E) as Hf.
      assert (Hids : idents w1 = idents w) by (unfold frame_of in Hf; congruence).
      destruct (IH w1 (n + 1) k OK1 Hrows) as (w2 & k' & E2 & Hk & Hall & OK2 & Hcr2 & Hf2).
      { rewrite Htot. lia. }
      { rewrite Hcr, length_app. cbn [length]. lia. }
      rewrite Hids in *. exists w2, k'. rewrite E2. cbn [length]. split; [f_equal; f_equal; f_equal; lia|].
      split; [done|]. split; [intros H; by rewrite Hall|]. split; [done|].
      rewrite Hcr2, Hcr, <- app_assoc. split; [done|]. congruence.
    + rewrite decide_False by lia. unfold in_range in Hw.
      destruct (IH w n (k + 1) OK Hrows) as (w2 & k' & E2 & Hk & Hall & OK2 & Hcr2 & Hf2); [lia | lia |].
      exists w2, k'. rewrite E2. split; [done|]. split; [lia|]. split; [intros; exfalso; lia|]. done.
Qed.

(** The rows a window with this target keeps of [rows]. *)
Definition slid (target : Z) (rows rows' : list Credit) : Prop :=
  if target =? 0 then rows' = rows else trimmed target rows rows'.

Lemma set_target_slid w t : window_ok w ->
  slid t (credits w) (credits (set_target w t)) /\ frame_of (set_target w t) = frame_of w /\
  target_work (set_target w t) = t.
Proof.
  intros OK. unfold set_target, trim, slid. change (target_work (with_target w t)) with t.
  destruct (t =? 0) eqn:Et; [by split|].
  pose proof (trim_rows_ok t (credits w) (totals w) (total_work w)
    (rows_range w OK) (wo_totals _ OK) (proj1 (wo_total _ OK))) as H.
  change (credits (with_target w t)) with (credits w). change (totals (with_target w t)) with (totals w).
  change (total_work (with_target w t)) with (total_work w).
  destruct (trim_rows t (credits w) (totals w) (total_work w)) as [[rows m] tot].
  destruct H as (_ & _ & H). by split.
Qed.

(** Trimming keeps one suffix. *)
Lemma trimmed_unique t rows r1 r2 :
  Forall (fun c => in_range u64_max (work c)) rows -> trimmed t rows r1 -> trimmed t rows r2 -> r1 = r2.
Proof.
  intros Hw (o1 & E1 & H1 & K1) (o2 & E2 & H2 & K2).
  assert (Hmono : forall (x y : list Credit) z, rows = z ++ x ++ y -> zsum (map work y) <= zsum (map work (x ++ y))).
  { intros x y z E. rewrite map_app, zsum_app. rewrite E in Hw. apply Forall_app in Hw as [_ Hw].
    apply Forall_app in Hw as [Hw _]. assert (0 <= zsum (map work x)); [|lia].
    apply zsum_nonneg, Forall_map. eapply Forall_impl; [exact Hw|]. cbn. unfold in_range. lia. }
  assert (Hside : forall o1 x r1 r2, rows = o1 ++ r1 -> r1 = x ++ r2 ->
    (o1 ++ x <> [] -> t <= zsum (map work r2)) ->
    (forall c rest, r1 = c :: rest -> zsum (map work rest) < t) -> r1 = r2).
  { intros a1 x s1 s2 Ea Es Ht Hk. destruct x as [|c x]; [done|]. exfalso.
    specialize (Hk c (x ++ s2) Es). assert (t <= zsum (map work s2)) by (apply Ht; by destruct a1).
    assert (zsum (map work s2) <= zsum (map work (x ++ s2))); [|lia].
    apply (Hmono x s2 (a1 ++ [c])). by rewrite Ea, Es, <- !app_assoc. }
  assert (E : o1 ++ r1 = o2 ++ r2) by congruence.
  apply app_eq_app in E as [x [[Ho Hr]|[Ho Hr]]].
  - symmetry. apply (Hside o2 x r2 r1); try done. by rewrite <- Ho.
  - apply (Hside o1 x r1 r2); try done. by rewrite <- Ho.
Qed.

(** * A ledger and its files *)

(** What a running ledger keeps true of what it has handed to its writers. *)
Record files_ok (l : Ledger) : Prop := {
  fo_window : window_ok (l_window l);
  fo_idents : idents_out l = idents (l_window l);
  fo_lines : Forall line_ok (idents_out l);
  fo_rows : Forall credit_ok (credits_out l);
  fo_suffix : exists old, credits_out l = old ++ credits (l_window l);
  fo_count : rows_on_disk l = Z.of_nat (length (credits_out l));
  fo_room : Z.of_nat (length (credits_out l)) < u64_max /\ zsum (map work (credits_out l)) <= u64_max
}.

(** The two append-only files hold a part of what was handed to their writers, the identity table
    at least its first [n] lines. *)
Record part_written (l : Ledger) (n : nat) (d : Disk) : Prop := {
  pw_idents : prefix (contents d IDENTS) (line_bytes (idents_out l));
  pw_known : prefix (line_bytes (take n (idents_out l))) (contents d IDENTS);
  pw_credits : prefix (contents d CREDITS) (rows_bytes (credits_out l))
}.

(** The files hold all of it. *)
Definition all_written (l : Ledger) (d : Disk) : Prop :=
  contents d IDENTS = line_bytes (idents_out l) /\ contents d CREDITS = rows_bytes (credits_out l).

Lemma window_names_unique w : window_ok w -> NoDup (idents w).
Proof.
  intros OK. apply NoDup_alt. intros i j s Hi Hj.
  assert (Hx : forall k, idents w !! k = Some s -> ident_index w !! s = Some (Z.of_nat k)).
  { intros k Hk. apply (wo_index _ OK). split; [lia|]. unfold identity_at. by rewrite Nat2Z.id. }
  apply Hx in Hi. apply Hx in Hj. rewrite Hi in Hj. injection Hj. lia.
Qed.

Lemma restores_frame m names w w' :
  restores m names w -> window_ok w' -> frame_of w' = frame_of w -> restores m names w'.
Proof.
  intros [OK Hi Hc Hd Hh Ho [Hl1 Hl2]] OK' Hf. unfold frame_of in Hf. injection Hf as E1 E2 E3 E4 E5 E6 E7 E8.
  constructor; try congruence; [| |split; congruence]; intros s;
    unfold carry_of, debt_of, of_identity in *; rewrite ?E2, ?E3, ?E4; [apply Hc | apply Hd].
Qed.

Lemma meta_ok_names names names' m :
  (forall s, s ∈ names -> s ∈ names') -> meta_ok names m -> meta_ok names' m.
Proof.
  intros Hn [Hc Hd ? ? ? ?]. constructor; try done.
  - eapply map_Forall_impl; [exact Hc|]. intros s v [? ?]. auto.
  - eapply map_Forall_impl; [exact Hd|]. intros s v [? ?]. auto.
Qed.

Lemma slid_suffix t rows rows' : slid t rows rows' -> exists old, rows = old ++ rows'.
Proof.
  unfold slid. destr_if; [intros ->; by exists []|]. intros (old & E & _). by exists old.
Qed.

(** Bringing a file up to date. *)
Lemma flush_file_done d name all :
  prefix (contents d name) all -> contents (run_op d (flush_file d name all)) name = all.
Proof. intros [r ->]. cbn [run_op flush_file]. by rewrite contents_insert, drop_app_length. Qed.

Lemma flush_file_part d name all part :
  prefix (contents d name) all -> prefix part (drop (length (contents d name)) all) ->
  prefix (contents d name) (contents d name ++ part) /\ prefix (contents d name ++ part) all.
Proof.
  intros [r ->]. rewrite drop_app_length. intros [x ->]. split; [by eexists|]. exists x. by rewrite app_assoc.
Qed.

Lemma compact_done l d :
  prefix (contents d CREDITS) (rows_bytes (credits_out l)) ->
  contents (run_ops d (compact_ops l d)) CREDITS = rows_bytes (credits (l_window l)) /\
  (forall name, name <> CREDITS -> name <> CREDITS_TMP -> run_ops d (compact_ops l d) !! name = d !! name).
Proof.
  intros Hp. split.
  - unfold compact_ops, run_ops. cbn [foldl]. set (d1 := run_op d (flush_file d CREDITS _)).
    cbn [run_op]. rewrite lookup_insert_eq. apply contents_insert.
  - intros name H1 H2. apply run_ops_other. unfold touches, compact_ops, flush_file. cbn [map concat op_files app].
    rewrite !not_elem_of_cons. repeat split; try done. apply not_elem_of_nil.
Qed.

Lemma compacted_ok l : files_ok l -> files_ok (compacted l).
Proof.
  intros [OK Hi Hl Hr [old Ho] Hc [Hn Hs]]. rewrite Ho in Hr, Hn, Hs.
  apply Forall_app in Hr as [Hr1 Hr2]. pose proof (work_nonneg old Hr1).
  rewrite map_app, zsum_app in Hs. rewrite length_app in Hn.
  constructor; try done; cbn [credits_out compacted l_window]; [by exists []|]. split; [lia|].
  destruct (wo_total _ OK). lia.
Qed.

Lemma only_touches ops f d n : (forall o, o ∈ ops -> op_files o = [f]) -> n <> f -> run_ops d ops !! n = d !! n.
Proof.
  intros Hf Hn. apply run_ops_other. unfold touches. induction ops as [|o ops IH]; [apply not_elem_of_nil|].
  cbn [map concat]. rewrite (Hf o) by left. cbn [app]. rewrite not_elem_of_cons. split; [done|].
  apply IH. intros x Hx. apply Hf. by right.
Qed.

Lemma replay_ok m names rows :
  NoDup names -> Z.of_nat (length names) <= u32_max + 1 -> meta_ok names m ->
  Forall credit_ok rows -> zsum (map work rows) <= u64_max -> Z.of_nat (length rows) < u64_max ->
  exists w0 w1 k, seed_window m names = (w0, []) /\
    load_rows w0 0 0 rows = Ret (w1, Z.of_nat (length (accepted (length names) rows)), k) /\
    (k = 0 \/ 0 < k) /\ (k = 0 -> accepted (length names) rows = rows) /\
    restores m names (set_target w1 (mt_target_work m)) /\
    slid (mt_target_work m) (accepted (length names) rows) (credits (set_target w1 (mt_target_work m))) /\
    target_work (set_target w1 (mt_target_work m)) = mt_target_work m.
Proof.
  intros Hnd Hcap Hmok Hrows Hsum Hlen.
  destruct (seed_window_ok m names Hnd Hcap Hmok) as (w0 & E0 & R0 & C0 & T0 & _).
  destruct (load_rows_ok rows w0 0 0 (rs_ok _ _ _ R0) Hrows) as (w1 & k & E1 & Hk & Hall & OK1 & Hcr & Hf).
  { rewrite T0. lia. }
  { rewrite C0. cbn [length]. lia. }
  rewrite (rs_idents _ _ _ R0), C0 in *. cbn [app] in Hcr. rewrite Z.add_0_l in E1.
  destruct (set_target_slid w1 (mt_target_work m) OK1) as (Hs & Hf2 & Ht).
  exists w0, w1, k. split; [done|]. split; [done|]. split; [done|]. split; [done|]. split.
  - eapply restores_frame; [exact R0 | apply set_target_ok; [done | by destruct Hmok] | congruence].
  - rewrite <- Hcr. done.
Qed.

(** What of a ledger's files a crash can have left. *)
Lemma written_rows l n : files_ok l ->
  let rows := take n (credits_out l) in
  Forall credit_ok rows /\ zsum (map work rows) <= u64_max /\ Z.of_nat (length rows) < u64_max.
Proof.
  intros [_ _ _ Hr _ _ [Hn Hs]] rows. assert (Hrows : Forall credit_ok rows) by by apply Forall_take.
  split; [done|]. split.
  - rewrite <- (take_drop n (credits_out l)), map_app, zsum_app in Hs.
    pose proof (work_nonneg _ (Forall_drop _ n _ Hr)). unfold rows. lia.
  - unfold rows. rewrite length_take. lia.
Qed.

Lemma written_names l n k m : files_ok l -> (n <= k \/ length (idents_out l) <= k)%nat ->
  meta_ok (take n (idents_out l)) m ->
  let names := take k (idents_out l) in
  NoDup names /\ Z.of_nat (length names) <= u32_max + 1 /\ meta_ok names m /\ Forall line_ok names.
Proof.
  intros [OK Hi Hl _ _ _ _] Hk Hmok names. pose proof (window_names_unique _ OK) as Hnd.
  pose proof (wo_room _ OK) as Hroom. rewrite <- Hi in Hnd, Hroom. split; [|split; [|split]].
  - by eapply sublist_NoDup, sublist_take.
  - unfold names. rewrite length_take. lia.
  - eapply meta_ok_names; [|exact Hmok]. intros s (i & Hx & Hlt)%elem_of_take. apply elem_of_take.
    exists i. split; [done|]. apply lookup_lt_Some in Hx as Hlen. lia.
  - by apply Forall_take.
Qed.

Section Open.
Context `{MetaJson}.

Lemma load_meta_same d d' : d' !! META = d !! META -> d' !! bak_of META = d !! bak_of META ->
  load_meta d' META = load_meta d META.
Proof. intros E1 E2. unfold load_meta, read_meta. by rewrite E1, E2. Qed.

(** Opening after a crash: the whole lines and whole rows that reached the files, and the balances
    of the state file. The ledger that opens is as consistent with its files as the one that was
    killed. *)
Lemma open_ledger_ok l m n d :
  files_ok l -> part_written l n d -> load_meta d META = Ok m -> meta_ok (take n (idents_out l)) m ->
  exists ops l' k, open_ledger d = Ret (ops, Ok l') /\ (n <= k \/ length (idents_out l) <= k)%nat /\
    restores m (take k (idents_out l)) (l_window l') /\
    slid (mt_target_work m)
      (accepted (length (take k (idents_out l))) (take (length (contents d CREDITS) / CREDIT_SIZE) (credits_out l)))
      (credits (l_window l')) /\
    target_work (l_window l') = mt_target_work m /\
    applied_debits l' = list_to_set (mt_applied_debits m) /\
    debits_tracked l' = mt_applied_debits_tracked m /\ dirty l' = false /\
    files_ok l' /\ all_written l' (run_ops d ops) /\
    load_meta (run_ops d ops) META = Ok m.
Proof.
  intros F [Pi Pk Pc] Hm Hmok.
  destruct (load_idents_prefix d (idents_out l) n (fo_lines _ F) Pi Pk) as (k & ops1 & Hk & E1 & D1 & F1).
  assert (Hc1 : contents (run_ops d ops1) CREDITS = contents d CREDITS).
  { unfold contents. by rewrite (only_touches ops1 IDENTS). }
  rewrite <- Hc1 in Pc.
  destruct (read_rows_prefix _ (credits_out l) (fo_rows _ F) Pc) as (ops2 & E2 & D2 & F2).
  rewrite Hc1 in E2, D2.
  destruct (written_rows l (length (contents d CREDITS) / CREDIT_SIZE) F) as (Hrows & Hsum & Hlen).
  set (rows := take _ (credits_out l)) in *.
  destruct (written_names l n k m F Hk Hmok) as (Hnd & Hcap & Hmok' & Hlines). set (names := take k (idents_out l)) in *.
  destruct (replay_ok m names rows Hnd Hcap Hmok' Hrows Hsum Hlen) as (w0 & w1 & sk & E3 & E4 & Hsk & Hall & R & S & T).
  unfold open_ledger. rewrite Hm, E1, E3, E2, E4. mstep. rewrite app_nil_r.
  destruct (load_grace d) as [g loaded].
  set (l0 := {| l_window := set_target w1 (mt_target_work m) |}).
  assert (Hdisk : contents (run_ops d (ops1 ++ ops2)) IDENTS = line_bytes names /\
    contents (run_ops d (ops1 ++ ops2)) CREDITS = rows_bytes rows /\
    load_meta (run_ops d (ops1 ++ ops2)) META = Ok m).
  { rewrite run_ops_app. split; [|split].
    - rewrite <- D1. unfold contents. by rewrite (only_touches ops2 CREDITS).
    - done.
    - rewrite <- Hm. apply load_meta_same; rewrite (only_touches ops2 CREDITS), (only_touches ops1 IDENTS) by done; done. }
  destruct Hdisk as (Di & Dc & Dm).
  destruct (compact_done l0 (run_ops d (ops1 ++ ops2))) as [Cc Co]; [by rewrite Dc|].
  assert (F0 : sk = 0 -> files_ok l0).
  { intros Hs0. specialize (Hall Hs0). rewrite Hall in S. destruct (slid_suffix _ _ _ S) as [old Ho].
    constructor; [apply R | symmetry; apply R | done | done | by exists old | | done].
    change (Z.of_nat (length (accepted (length names) rows)) = Z.of_nat (length rows)). by rewrite Hall. }
  assert (Fc : files_ok (compacted l0)).
  { constructor; [apply R | symmetry; apply R | done | | by exists [] | done |].
    - destruct (slid_suffix _ _ _ S) as [old Ho]. assert (Ha : Forall credit_ok (accepted (length names) rows)).
      { rewrite Forall_forall in Hrows |- *. intros c [_ Hin]%list_elem_of_filter. by apply Hrows. }
      rewrite Ho in Ha. by apply Forall_app in Ha as [_ ?].
    - destruct (slid_suffix _ _ _ S) as [old Ho].
      assert (length (credits (set_target w1 (mt_target_work m))) <= length rows)%nat.
      { transitivity (length (accepted (length names) rows)).
        - rewrite Ho, length_app. lia.
        - unfold accepted. apply length_filter. }
      change (credits_out (compacted l0)) with (credits (set_target w1 (mt_target_work m))).
      split; [lia|]. destruct (wo_total _ (rs_ok _ _ _ R)). lia. }
  destruct ((0 <? sk) || overgrown l0) eqn:Eg.
  - eexists _, (compacted l0), k. split; [reflexivity|]. do 8 (split; [done|]).
    rewrite run_ops_app. split; [split|].
    + unfold contents. rewrite Co by done. exact Di.
    + exact Cc.
    + rewrite <- Dm. apply load_meta_same; by rewrite Co.
  - apply orb_false_iff in Eg as [Es _]. apply Z.ltb_ge in Es. assert (Hs0 : sk = 0) by lia.
    eexists _, l0, k. split; [reflexivity|]. do 7 (split; [done|]). split; [by apply F0|]. split; [by split | done].
Qed.
End Open.

(** * Writing the files *)

(** * The state file of a ledger *)

Lemma collect_lookup es : forall (m : gmap string Z) s, NoDup (map fst es) ->
  foldl (fun m e => <[e.1 := e.2]> m) m es !! s =
  match (list_to_map es : gmap string Z) !! s with Some v => Some v | None => m !! s end.
Proof.
  induction es as [|[t v] es IH]; intros m s Hnd; [by cbn; rewrite lookup_empty|].
  cbn [map fst] in Hnd. apply NoDup_cons in Hnd as [Hn Hnd]. cbn [foldl fst snd]. rewrite IH by done.
  cbn [list_to_map foldr fst snd]. destruct (decide (t = s)) as [<-|Hne].
  - rewrite lookup_insert_eq, not_elem_of_list_to_map_1, lookup_insert_eq by done. done.
  - by rewrite !lookup_insert_ne.
Qed.

Lemma collect_Forall (P : string -> Z -> Prop) es : forall m : gmap string Z,
  map_Forall P m -> Forall (fun e => P e.1 e.2) es ->
  map_Forall P (foldl (fun m e => <[e.1 := e.2]> m) m es).
Proof.
  induction es as [|e es IH]; intros m Hm He; [done|]. apply Forall_cons in He as [He Hes].
  cbn [foldl]. apply IH; [|done]. by apply map_Forall_insert_2.
Qed.

Section NamedBalances.
Context (w : Window) (m : gmap Z Z).
Hypothesis OK : window_ok w.
Hypothesis Hm : map_Forall (balance_ok w) m.

Definition named_entry (e : Z * Z) : string * Z := (name_of w e.1, e.2).

Lemma named_entries_nodup l :
  (forall e, e ∈ l -> interned w e.1) -> NoDup (map fst l) -> NoDup (map fst (map named_entry l)).
Proof using OK.
  induction l as [|e l IH]; intros Hin Hnd; [constructor|]. cbn in *. apply NoDup_cons in Hnd as [Hn Hnd].
  constructor; [|apply IH; [intros; apply Hin; by right | done]].
  intros (x & He' & Hl)%list_elem_of_fmap. apply list_elem_of_fmap in Hl as (e' & -> & Hl).
  apply Hn. apply list_elem_of_fmap. exists e'. split; [|done].
  pose proof (name_of_index w OK _ (Hin e ltac:(left))) as Hi.
  pose proof (name_of_index w OK _ (Hin e' ltac:(by right))) as Hi'. cbn in He'. rewrite He' in Hi. congruence.
Qed.

Lemma named_entries_elem s v :
  (s, v) ∈ map named_entry (map_to_list m) <-> exists i, ident_index w !! s = Some i /\ m !! i = Some v.
Proof using OK Hm.
  split.
  - intros ([i u] & [= -> ->] & Hj)%list_elem_of_fmap. apply elem_of_map_to_list in Hj. exists i.
    split; [|done]. apply (name_of_index w OK). by apply Hm in Hj as [? _].
  - intros (i & Hs & Hv). apply list_elem_of_fmap. exists (i, v). split; [|by apply elem_of_map_to_list].
    unfold named_entry. cbn [fst snd]. f_equal. pose proof (Hm _ _ Hv) as [Hi _].
    apply (name_of_index w OK) in Hi. by eapply (index_inj w).
Qed.

Lemma carries_in_ok :
  exists cs, carries_in w (map_to_list m) = Ret cs /\
    map_Forall (fun s v => s ∈ idents w /\ 0 < v <= u64_max) (collect_names cs) /\
    forall s, default 0 (collect_names cs !! s) = of_identity w m s.
Proof using OK Hm.
  assert (Hin : forall e, e ∈ map_to_list m -> balance_ok w e.1 e.2).
  { intros [i v] He%elem_of_map_to_list. by apply Hm. }
  unfold carries_in. rewrite (mapM_Ret _ named_entry).
  2:{ apply Forall_forall. intros e He. apply Hin in He as [Hi _]. unfold name_entry, ident_name.
      by rewrite (name_of_interned w e.1 Hi). }
  mstep. eexists. split; [reflexivity|]. set (cs := sort_by by_sats _).
  assert (Hp : cs ≡ₚ map named_entry (map_to_list m)) by apply sort_by_perm.
  assert (Hnd : NoDup (map fst cs)).
  { rewrite (fmap_Permutation fst _ _ Hp : map fst cs ≡ₚ _). apply named_entries_nodup.
    - intros e He. by apply Hin.
    - apply NoDup_fst_map_to_list. }
  split.
  - apply collect_Forall; [apply map_Forall_empty|]. rewrite Hp. apply Forall_forall.
    intros x (e & -> & He)%list_elem_of_fmap. apply Hin in He as [Hi Hv]. cbn [fst snd named_entry]. split; [|done].
    eapply list_elem_of_lookup_2. apply (name_of_interned w e.1 Hi).
  - intros s. unfold collect_names. rewrite collect_lookup by done. rewrite lookup_empty.
    destruct (list_to_map cs !! s) as [v|] eqn:Hl.
    + apply elem_of_list_to_map_2 in Hl. rewrite Hp, named_entries_elem in Hl. destruct Hl as (i & Hs & Hv).
      unfold of_identity, lookup0. by rewrite Hs, Hv.
    + unfold of_identity, lookup0. destruct (ident_index w !! s) as [i|] eqn:Hs; [|done].
      destruct (m !! i) as [v|] eqn:Hv; [|done]. exfalso. apply not_elem_of_list_to_map_2 in Hl. apply Hl.
      apply list_elem_of_fmap. exists (s, v). split; [done|]. rewrite Hp. apply named_entries_elem. eauto.
Qed.
End NamedBalances.

(** What [window.json] says of a ledger. *)
Record describes (m : Meta) (l : Ledger) : Prop := {
  ds_ok : meta_ok (idents (l_window l)) m;
  ds_carry : forall s, default 0 (mt_carry m !! s) = carry_of (l_window l) s;
  ds_debt : forall s, default 0 (mt_debt m !! s) = debt_of (l_window l) s;
  ds_holds : mt_holds m = holds (l_window l);
  ds_owed : mt_rebate_owed m = rebate_owed (l_window l);
  ds_target : mt_target_work m = target_work (l_window l);
  ds_lifetime : mt_lifetime_shares m = lifetime_shares (l_window l) /\ mt_lifetime_work m = lifetime_work (l_window l);
  ds_debits : (list_to_set (mt_applied_debits m) : gset string) = applied_debits l /\
    mt_applied_debits_tracked m = debits_tracked l
}.

Lemma meta_of_ok l : window_ok (l_window l) -> exists m, meta_of l = Ret m /\ describes m l.
Proof.
  intros OK. unfold meta_of, carries, debts.
  destruct (carries_in_ok _ _ OK (wo_carry _ OK)) as (cs & Ec & Kc & Vc).
  destruct (carries_in_ok _ _ OK (wo_debt _ OK)) as (ds & Ed & Kd & Vd).
  rewrite Ec, Ed. mstep. unfold seen_names.
  rewrite (mapM_Ret _ (fun e => name_of (l_window l) e.1)).
  2:{ apply Forall_forall. intros [i v] He%elem_of_map_to_list. apply (wo_carry _ OK) in He as [Hi _].
      unfold ident_name. cbn [fst]. by rewrite (name_of_interned _ i Hi). }
  mstep. eexists. split; [reflexivity|]. constructor; try done.
  - constructor; cbn; try done; try apply OK.
    apply collect_Forall; [apply map_Forall_empty|]. apply Forall_forall. intros e [He _]%list_elem_of_filter. lia.
  - cbn. split; [|done]. apply set_eq. intros s. rewrite elem_of_list_to_set, sort_by_perm. apply elem_of_elements.
Qed.

(** * A flush cut off *)

Lemma names_apart :
  tmp_of META <> META /\ bak_of META <> META /\ tmp_of META <> bak_of META /\
  tmp_of GRACE <> GRACE /\ bak_of GRACE <> GRACE /\ tmp_of GRACE <> bak_of GRACE.
Proof. by vm_compute. Qed.

(** Files [ops] do not touch. *)
Lemma crashes_keep ops d d' n : crashes d ops d' -> bool_decide (n ∈ touches ops) = false -> d' !! n = d !! n.
Proof. intros H Hn. apply bool_decide_eq_false in Hn. by eapply crashes_other. Qed.

Lemma part_written_same l n d d' :
  part_written l n d -> d' !! IDENTS = d !! IDENTS -> d' !! CREDITS = d !! CREDITS -> part_written l n d'.
Proof. intros [? ? ?] E1 E2. by constructor; unfold contents in *; rewrite ?E1, ?E2. Qed.

Lemma all_part_written l d : all_written l d -> part_written l (length (idents_out l)) d.
Proof. intros [E1 E2]. constructor; rewrite ?E1, ?E2, ?firstn_all; done. Qed.

(** The appends of a flush. *)
Lemma appends_crash l n d d' :
  part_written l n d ->
  crashes d [flush_file d IDENTS (line_bytes (idents_out l)); flush_file d CREDITS (rows_bytes (credits_out l))] d' ->
  part_written l n d'.
Proof.
  intros [Pi Pk Pc] Hc. cbn [crashes] in Hc.
  set (o1 := flush_file d IDENTS _) in *. set (o2 := flush_file d CREDITS _) in *.
  set (d1 := run_op d o1) in *.
  assert (Hd1 : part_written l n d1).
  { constructor.
    - unfold d1, o1. by rewrite flush_file_done.
    - unfold d1, o1. rewrite flush_file_done by done. by etrans.
    - unfold contents, d1. by rewrite run_op_other by (cbn; set_solver). }
  assert (Hpart : forall x, prefix x (drop (length (contents d CREDITS)) (rows_bytes (credits_out l))) ->
    part_written l n (<[CREDITS := contents d1 CREDITS ++ x]> d1)).
  { intros x Hx. destruct (flush_file_part d CREDITS _ x Pc Hx) as [_ Hp]. constructor.
    - unfold contents. rewrite lookup_insert_ne by done. apply Hd1.
    - unfold contents. rewrite lookup_insert_ne by done. apply Hd1.
    - rewrite contents_insert. replace (contents d1 CREDITS) with (contents d CREDITS); [done|].
      unfold contents, d1. by rewrite run_op_other by (cbn; set_solver). }
  destruct Hc as [[-> | [-> | (x & Hx & ->)]] | [[-> | [-> | (x & Hx & ->)]] | ->]]; try done.
  - destruct (flush_file_part d IDENTS _ x Pi Hx) as [Hp1 Hp2]. constructor.
    + by rewrite contents_insert.
    + rewrite contents_insert. by etrans.
    + unfold contents. by rewrite lookup_insert_ne.
  - by apply Hpart.
  - by apply Hpart.
  - by apply Hpart.
Qed.

Lemma appends_done l n d :
  part_written l n d ->
  all_written l (run_ops d [flush_file d IDENTS (line_bytes (idents_out l));
                            flush_file d CREDITS (rows_bytes (credits_out l))]).
Proof.
  intros [Pi _ Pc]. cbn [run_ops foldl]. set (d1 := run_op d _). split.
  - unfold contents at 1. rewrite run_op_other by (cbn; set_solver). by apply (flush_file_done d).
  - assert (E : contents d1 CREDITS = contents d CREDITS).
    { unfold contents, d1. by rewrite run_op_other by (cbn; set_solver). }
    cbn [run_op flush_file]. rewrite contents_insert, E. destruct Pc as [r ->]. by rewrite drop_app_length.
Qed.

Lemma compact_crash l d d' :
  all_written l d -> crashes d (compact_ops l d) d' ->
  all_written l d' \/ all_written (compacted l) d'.
Proof.
  intros [Wi Wc] Hc.
  assert (Hi : contents d' IDENTS = contents d IDENTS).
  { unfold contents. erewrite crashes_keep; [done | exact Hc | by vm_compute]. }
  assert (Hdone : all_written (compacted l) (run_ops d (compact_ops l d))).
  { split.
    - change (contents (run_ops d (compact_ops l d)) IDENTS = line_bytes (idents_out l)). rewrite <- Wi.
      unfold contents. rewrite run_ops_other; [done|]. by apply (bool_decide_unpack _); vm_compute.
    - by apply compact_done; rewrite Wc. }
  enough (contents d' CREDITS = contents d CREDITS \/ d' = run_ops d (compact_ops l d)) as [E| ->]; [|by right |].
  { left. split; congruence. }
  unfold compact_ops in *. set (rows := rows_bytes (credits (l_window l))) in *.
  assert (E1 : contents (run_op d (flush_file d CREDITS (rows_bytes (credits_out l)))) CREDITS = contents d CREDITS).
  { rewrite flush_file_done; rewrite Wc; done. }
  assert (Hx : forall x y, contents (<[CREDITS_TMP := x]> y) CREDITS = contents y CREDITS).
  { intros x y. unfold contents. by rewrite lookup_insert_ne. }
  cbn [crashes] in Hc. unfold torn in Hc. cbn [run_ops foldl]. set (d1 := run_op d (flush_file d CREDITS _)) in *.
  cbn [flush_file] in Hc. cbn [run_op] in Hc.
  destruct Hc as [[-> | [-> | (x & [y Hy] & ->)]] | [[-> | [-> | [junk ->]]] | [[-> | [-> | []]] | ->]]];
    try (by left); try (by right); left; rewrite ?Hx; try done.
  rewrite contents_insert. rewrite Wc, drop_all in Hy. by destruct x; [rewrite app_nil_r|].
Qed.

Section FlushCrash.
Context `{MetaJson}.
Context {L : MetaJsonLaws}.

(** The state file is there and reads as [m], or the ledger is new. *)
Definition main_whole (d : Disk) (m : Meta) : Prop :=
  (exists b, d !! META = Some b /\ meta_from_json b = Some m) \/
  (d !! META = None /\ d !! bak_of META = None /\ m = meta_default).

Lemma main_whole_load d m : main_whole d m -> load_meta d META = Ok m.
Proof.
  unfold load_meta, read_meta. intros [(b & -> & ->)|(-> & -> & ->)]; done.
Qed.

Lemma main_whole_same d d' m :
  d' !! META = d !! META -> d' !! bak_of META = d !! bak_of META -> main_whole d m -> main_whole d' m.
Proof. unfold main_whole. by intros -> ->. Qed.

Lemma meta_write_crash d d' m m' :
  main_whole d m -> crashes d (write_atomic META (meta_to_json m')) d' ->
  load_meta d' META = Ok m \/ load_meta d' META = Ok m'.
Proof using L.
  intros Hm Hc. destruct names_apart as (H1 & H2 & H3 & _).
  apply write_atomic_crash in Hc as [E|[E Hb]]; [| |done..].
  - right. unfold load_meta, read_meta. by rewrite E, meta_json_reads.
  - left. unfold load_meta, read_meta. destruct Hm as [(b & Eb & Em)|(Eb & Ek & ->)].
    + by rewrite E, Eb, Em.
    + rewrite E, Eb. by destruct Hb as [-> | [-> | ->]]; rewrite ?Eb, ?Ek.
Qed.

Lemma meta_write_done d m' : main_whole (run_ops d (write_atomic META (meta_to_json m'))) m'.
Proof using L.
  destruct names_apart as (H1 & H2 & H3 & _). left. eexists.
  split; [by apply write_atomic_done | apply meta_json_reads].
Qed.

(** A ledger, its files and its state file, as a crash finds them: what opening relies on. *)
Definition recoverable (l : Ledger) (n : nat) (m : Meta) (d : Disk) : Prop :=
  files_ok l /\ part_written l n d /\ load_meta d META = Ok m /\ meta_ok (take n (idents_out l)) m.

Lemma grace_write_keeps d d' l :
  crashes d (if g_dirty (l_grace l) then write_atomic GRACE (book_to_json (l_grace l)) else []) d' ->
  d' !! IDENTS = d !! IDENTS /\ d' !! CREDITS = d !! CREDITS /\ d' !! META = d !! META /\
  d' !! bak_of META = d !! bak_of META.
Proof.
  intros Hc. destruct (g_dirty (l_grace l)); [|cbn in Hc; by subst].
  repeat split; (eapply crashes_keep; [exact Hc | by vm_compute]).
Qed.

Lemma flushed_ok l : files_ok l -> files_ok (flushed l).
Proof. intros [? ? ? ? ? ? ?]. by constructor. Qed.

(** The steps of a flush before any compaction. *)
Definition flush_grace (l : Ledger) : list DiskOp :=
  if g_dirty (l_grace l) then write_atomic GRACE (book_to_json (l_grace l)) else [].
Definition flush_appends (l : Ledger) (d : Disk) : list DiskOp :=
  [flush_file d IDENTS (line_bytes (idents_out l)); flush_file d CREDITS (rows_bytes (credits_out l))].
Definition flush_steps (l : Ledger) (m' : Meta) (d : Disk) : list DiskOp :=
  (flush_grace l ++ flush_appends l d) ++ write_atomic META (meta_to_json m').

(** The directory after the grace book, and after the two append-only files. *)
Lemma flush_appended l n m d :
  part_written l n d -> main_whole d m ->
  let d1 := run_ops d (flush_grace l) in
  let d2 := run_ops d1 (flush_appends l d) in
  part_written l n d1 /\ flush_appends l d = flush_appends l d1 /\ main_whole d1 m /\
  all_written l d2 /\ main_whole d2 m.
Proof.
  intros P Hm d1 d2. destruct (grace_write_keeps d d1 l (crashes_end _ _)) as (K1 & K2 & K3 & K4).
  assert (P1 : part_written l n d1) by by eapply part_written_same.
  assert (Ha : flush_appends l d = flush_appends l d1).
  { unfold flush_appends, flush_file, contents. by rewrite K1, K2. }
  assert (M1 : main_whole d1 m) by by eapply main_whole_same.
  split; [done|]. split; [done|]. split; [done|]. unfold d2. rewrite Ha. split; [by apply (appends_done l n)|].
  eapply main_whole_same; [| |exact M1]; (rewrite run_ops_other; [done | by apply (bool_decide_unpack _); vm_compute]).
Qed.

Lemma flush_steps_crash l n m m' d d' :
  recoverable l n m d -> main_whole d m -> meta_ok (idents_out l) m' ->
  crashes d (flush_steps l m' d) d' ->
  exists nx mx, recoverable l nx mx d' /\ (mx = m \/ mx = m') /\ (nx = n \/ nx = length (idents_out l)).
Proof using L.
  intros (F & P & _ & Hmok) Hm Hm' Hx. destruct (flush_appended l n m d P Hm) as (P1 & Ha & M1 & W2 & M2).
  set (d1 := run_ops d (flush_grace l)) in *. set (d2 := run_ops d1 (flush_appends l d)) in *.
  unfold flush_steps in Hx. apply crashes_app in Hx as [Hx|Hx]; [apply crashes_app in Hx as [Hx|Hx]|].
  - apply grace_write_keeps in Hx as (Q1 & Q2 & Q3 & Q4). exists n, m. split; [|auto].
    split; [done|]. split; [by apply (part_written_same l n d)|]. split; [|done].
    apply main_whole_load. by apply (main_whole_same d).
  - fold d1 in Hx. rewrite Ha in Hx. exists n, m. split; [|auto]. split; [done|].
    split; [by eapply appends_crash|]. split; [|done]. apply main_whole_load.
    eapply main_whole_same; [| |exact M1]; (eapply crashes_keep; [exact Hx | by vm_compute]).
  - rewrite run_ops_app in Hx. fold d1 d2 in Hx.
    assert (Wx : all_written l d').
    { destruct W2 as [W2i W2c]. split; unfold contents in *;
        (erewrite crashes_keep; [done | exact Hx | by vm_compute]). }
    destruct (meta_write_crash d2 d' m m' M2 Hx) as [E|E]; [exists n, m | exists (length (idents_out l)), m'];
      (split; [|auto]); (split; [done|]).
    + destruct Wx as [Wi Wc]. split; [|done]. constructor; rewrite ?Wi, ?Wc; try done.
      etrans; [apply (pw_known _ _ _ P) | apply (pw_idents _ _ _ P)].
    + split; [by apply all_part_written|]. by rewrite firstn_all.
Qed.

Lemma flush_steps_done l n m m' d :
  part_written l n d -> main_whole d m ->
  all_written l (run_ops d (flush_steps l m' d)) /\ main_whole (run_ops d (flush_steps l m' d)) m'.
Proof using L.
  intros P Hm. destruct (flush_appended l n m d P Hm) as (_ & _ & _ & [Wi Wc] & _).
  unfold flush_steps. rewrite !run_ops_app. split; [|apply meta_write_done].
  split; unfold contents in *; (rewrite run_ops_other; [done | by apply (bool_decide_unpack _); vm_compute]).
Qed.

(** Compaction after a flush. *)
Lemma compact_steps_crash l m' d d' :
  files_ok l -> meta_ok (idents_out l) m' -> all_written l d -> main_whole d m' ->
  crashes d (compact_ops l d) d' ->
  exists lx, recoverable lx (length (idents_out l)) m' d' /\ (lx = l \/ lx = compacted l).
Proof using.
  intros F Hm' W M Hx.
  assert (Mx : main_whole d' m').
  { eapply main_whole_same; [| |exact M]; (eapply crashes_keep; [exact Hx | by vm_compute]). }
  destruct (compact_crash l d d' W Hx) as [Wx|Wx].
  - exists l. split; [|by left]. split; [done|]. split; [by apply all_part_written|].
    rewrite firstn_all. split; [by apply main_whole_load | done].
  - exists (compacted l). split; [|by right]. split; [by apply compacted_ok|].
    split; [by apply (all_part_written (compacted l))|].
    change (idents_out (compacted l)) with (idents_out l). rewrite firstn_all.
    split; [by apply main_whole_load | done].
Qed.

Lemma compact_steps_done l m' d :
  all_written l d -> main_whole d m' ->
  all_written (compacted l) (run_ops d (compact_ops l d)) /\ main_whole (run_ops d (compact_ops l d)) m'.
Proof using.
  intros [Wi Wc] M. destruct (compact_done l d) as [Dc Do]; [by rewrite Wc|]. split; [split|].
  - unfold contents in *. by rewrite Do.
  - exact Dc.
  - eapply main_whole_same; [| |exact M]; by rewrite Do.
Qed.

Lemma flush_run l d : files_ok l -> dirty l = true ->
  exists m', meta_of l = Ret m' /\ describes m' l /\ meta_ok (idents_out l) m' /\
    flush l d = Ret (if overgrown (flushed l)
      then (compacted (flushed l),
            flush_steps l m' d ++ compact_ops (flushed l) (run_ops d (flush_steps l m' d)))
      else (flushed l, flush_steps l m' d)).
Proof using.
  intros F Hd. destruct (meta_of_ok l (fo_window _ F)) as (m' & Em & D). exists m'.
  split; [done|]. split; [done|]. split; [rewrite (fo_idents _ F); apply D|].
  unfold flush. rewrite Hd, Em. cbn [negb]. mstep. reflexivity.
Qed.

Lemma flush_crash_ok l n m d :
  recoverable l n m d -> main_whole d m -> dirty l = true ->
  exists l' ops m', flush l d = Ret (l', ops) /\ describes m' l /\
    (l' = flushed l \/ l' = compacted (flushed l)) /\
    (forall d', crashes d ops d' -> exists lx nx mx, recoverable lx nx mx d' /\
       (lx = l \/ lx = flushed l \/ lx = compacted (flushed l)) /\ (mx = m \/ mx = m') /\
       (nx = n \/ nx = length (idents_out l))) /\
    all_written l' (run_ops d ops) /\ main_whole (run_ops d ops) m'.
Proof using L.
  intros R Hm Hd. pose proof R as (F & P & _). destruct (flush_run l d F Hd) as (m' & _ & D & Hm' & E).
  destruct (flush_steps_done l n m m' d P Hm) as [W M].
  assert (Hcrash : forall x, crashes d (flush_steps l m' d) x -> exists lx nx mx, recoverable lx nx mx x /\
    (lx = l \/ lx = flushed l \/ lx = compacted (flushed l)) /\ (mx = m \/ mx = m') /\
    (nx = n \/ nx = length (idents_out l))).
  { intros x Hx. destruct (flush_steps_crash l n m m' d x R Hm Hm' Hx) as (nx & mx & Rx & Hmx & Hnx).
    exists l, nx, mx. auto. }
  rewrite E. destruct (overgrown (flushed l)).
  - eexists _, _, m'. split; [reflexivity|]. split; [done|]. split; [by right|]. rewrite run_ops_app. split.
    + intros x [Hx|Hx]%crashes_app; [by apply Hcrash|].
      destruct (compact_steps_crash (flushed l) m' _ x (flushed_ok l F) Hm' W M Hx) as (lx & Rx & Hl).
      exists lx, (length (idents_out l)), m'. split; [exact Rx|]. auto.
    + by apply (compact_steps_done (flushed l)).
  - eexists _, _, m'. split; [reflexivity|]. split; [done|]. split; [by left|]. auto.
Qed.
End FlushCrash.
