(* ===== verification/PersistProps.v ===== *)
(** What the ledger's files promise: a kill at any moment of a flush, a restart, and two ways the
    promise fails. *)

From S2P Require Import Prelude Bytes Tides Split SplitFacts Window WindowFacts BalanceFacts MinersFacts.
From S2P Require Import Grace Ledger Disk Persist PersistFacts.
Open Scope Z_scope.

(** * Lemmas *)

Lemma slid_accepted_sublist t n j (cs rows : list Credit) :
  slid t (accepted n (take j cs)) rows -> sublist rows cs.
Proof.
  intros [old E]%slid_suffix. transitivity (accepted n (take j cs)).
  - rewrite E. by apply sublist_inserts_l.
  - unfold accepted. etrans; [apply sublist_filter | apply sublist_take].
Qed.

Lemma accepted_all w cs :
  Forall (fun c => interned w (ident c) /\ in_range u64_max (work c)) cs ->
  accepted (length (idents w)) cs = cs.
Proof.
  unfold accepted. induction 1 as [|c cs [[Hi Hs] _] _ IH]; [done|].
  rewrite filter_cons, decide_True, IH; [done|]. apply lookup_lt_is_Some in Hs. lia.
Qed.

Lemma slid_unique t rows r1 r2 :
  Forall (fun c => in_range u64_max (work c)) rows -> slid t rows r1 -> slid t rows r2 -> r1 = r2.
Proof. unfold slid. destr_if; [by intros _ -> ->|]. apply trimmed_unique. Qed.

(** Everything of a ledger a restart is to bring back. *)
Record same_ledger (l r : Ledger) : Prop := {
  sl_idents : idents (l_window r) = idents (l_window l);
  sl_rows : credits (l_window r) = credits (l_window l);
  sl_total : total_work (l_window r) = total_work (l_window l);
  sl_target : target_work (l_window r) = target_work (l_window l);
  sl_carry : forall s, carry_of (l_window r) s = carry_of (l_window l) s;
  sl_debt : forall s, debt_of (l_window r) s = debt_of (l_window l) s;
  sl_holds : holds (l_window r) = holds (l_window l);
  sl_owed : rebate_owed (l_window r) = rebate_owed (l_window l);
  sl_lifetime : lifetime_shares (l_window r) = lifetime_shares (l_window l) /\
    lifetime_work (l_window r) = lifetime_work (l_window l);
  sl_debits : applied_debits r = applied_debits l /\ debits_tracked r = debits_tracked l
}.

Section Restart.
Context `{MetaJson}.
Context {L : MetaJsonLaws}.

(** A ledger whose rows file holds its window's rows and nothing else opens as itself. *)
Lemma reopen_same l m d :
  files_ok l -> credits_out l = credits (l_window l) -> all_written l d -> main_whole d m ->
  describes m l -> slid (target_work (l_window l)) (credits (l_window l)) (credits (l_window l)) ->
  exists ops r, open_ledger d = Ret (ops, Ok r) /\ same_ledger l r /\ files_ok r /\ all_written r (run_ops d ops).
Proof using.
  intros F Hrows W M D Ht. pose proof (fo_window _ F) as OK.
  assert (Hmok : meta_ok (take (length (idents_out l)) (idents_out l)) m).
  { rewrite firstn_all, (fo_idents _ F). apply D. }
  destruct (open_ledger_ok l m (length (idents_out l)) d F (all_part_written _ _ W) (main_whole_load _ _ M) Hmok)
    as (ops & r & k & Eo & Hk & Rs & Sl & Tg & Ad & Tr & _ & Fr & Wr & _).
  exists ops, r. split; [done|]. split; [|done].
  assert (Hids : take k (idents_out l) = idents (l_window l)) by (rewrite firstn_all2 by lia; apply F).
  assert (Hall : take (length (contents d CREDITS) / CREDIT_SIZE) (credits_out l) = credits (l_window l)).
  { rewrite (proj2 W), length_rows_bytes, Nat.div_mul, firstn_all by done. done. }
  rewrite Hids, Hall, accepted_all in * by apply OK.
  assert (Hc : credits (l_window r) = credits (l_window l)).
  { rewrite <- (ds_target _ _ D) in Ht. eapply slid_unique; [by apply rows_range | exact Sl | exact Ht]. }
  destruct D as [_ Dc Dd Dh Do Dt [Dl1 Dl2] [Da Db]]. constructor; try done.
  - apply Rs.
  - rewrite (proj1 (wo_total _ (rs_ok _ _ _ Rs))), Hc. symmetry. apply OK.
  - by rewrite Tg.
  - intros s. rewrite <- Dc. apply Rs.
  - intros s. rewrite <- Dd. apply Rs.
  - by rewrite <- Dh, (rs_holds _ _ _ Rs).
  - by rewrite <- Do, (rs_owed _ _ _ Rs).
  - destruct (rs_lifetime _ _ _ Rs). split; congruence.
  - split; congruence.
Qed.



(** The promise of [write_atomic] does not cover a state file that was recovered from its copy.
    With [window.json] missing and the previous flush under [.bak], a Prime starts on the copy; the
    first flush removes the copy before the new file has its name, and a kill in between leaves
    neither: the next start is a new ledger with no balances. With an unreadable [window.json] the
    same kill leaves a directory that does not open. *)
Theorem recovered_flush_loses_balances (m m' : Meta) (junk : list Z) :
  meta_from_json junk = None ->
  (load_meta {[bak_of META := meta_to_json m]} META = Ok m /\
   exists d', crashes {[bak_of META := meta_to_json m]} (write_atomic META (meta_to_json m')) d' /\
     load_meta d' META = Ok meta_default) /\
  (load_meta {[META := junk; bak_of META := meta_to_json m]} META = Ok m /\
   exists d', crashes {[META := junk; bak_of META := meta_to_json m]} (write_atomic META (meta_to_json m')) d' /\
     load_meta d' META = Err META).
Proof using L.
  intros Hj. assert (Hne : bak_of META <> META) by by vm_compute.
  assert (Hne' : tmp_of META <> META) by by vm_compute.
  assert (Hne2 : tmp_of META <> bak_of META) by by vm_compute.
  split; split.
  - unfold load_meta, read_meta. rewrite lookup_singleton_ne, lookup_singleton_eq by done. by rewrite meta_json_reads.
  - exists (delete (bak_of META) (<[tmp_of META := meta_to_json m']> {[bak_of META := meta_to_json m]})). split.
    + right. left. right. by left.
    + unfold load_meta, read_meta. rewrite lookup_delete_ne, lookup_insert_ne, lookup_singleton_ne by done.
      by rewrite lookup_delete_eq.
  - unfold load_meta, read_meta. rewrite lookup_insert_eq, Hj, lookup_insert_ne, lookup_singleton_eq by done.
    by rewrite meta_json_reads.
  - exists (delete (bak_of META) (<[tmp_of META := meta_to_json m']> {[META := junk; bak_of META := meta_to_json m]})).
    split.
    + right. left. right. by left.
    + unfold load_meta, read_meta. rewrite lookup_delete_ne, lookup_insert_ne, lookup_insert_eq, Hj by done.
      by rewrite lookup_delete_eq.
Qed.
End Restart.

(** * An identity the table file does not get *)

Lemma trim_table w : idents (trim w) = idents w /\ ident_index (trim w) = ident_index w.
Proof. unfold trim. destr_if; [done|]. by destruct (trim_rows _ _ _ _) as [[rows m] tot]. Qed.

Lemma credit_row_table w identity wk h t src w' c :
  credit_row w identity wk h t src = Ret (w', c) ->
  idents w' = idents (intern w identity).1 /\ ident_index w' = ident_index (intern w identity).1 /\
  ident c = (intern w identity).2 /\ work c = wk.
Proof.
  unfold credit_row, count_share. destruct (intern w identity) as [w1 i]. cbn [fst snd].
  intros ([w2 j] & (sh & _ & E1)%bind_Ret_inv & (m & _ & E2)%bind_Ret_inv)%bind_Ret_inv.
  injection E1 as <- <-. injection E2 as <- <-. cbn [ident work].
  match goal with |- context [trim ?x] => destruct (trim_table x) as [-> ->] end. done.
Qed.

(** What a ledger hands to the identity file when it credits a new name. *)
Lemma ledger_credit_table l identity wk h t src l' :
  ledger_credit l identity wk h t src = Ret l' ->
  identity ∉ idents (l_window l) -> ident_index (l_window l) !! identity = None ->
  Z.of_nat (length (idents (l_window l))) <= u32_max ->
  idents (l_window l') = idents (l_window l) ++ [identity] /\ idents_out l' = idents_out l ++ [identity] /\
  ident_index (l_window l') = <[identity := Z.of_nat (length (idents (l_window l)))]> (ident_index (l_window l)) /\
  exists c, credits_out l' = credits_out l ++ [c] /\ ident c = Z.of_nat (length (idents (l_window l))) /\ work c = wk.
Proof.
  unfold ledger_credit. intros ([w c] & Ec & (rows & _ & E)%bind_Ret_inv)%bind_Ret_inv Hn Hi Hroom.
  injection E as <-. apply credit_row_table in Ec as (E1 & E2 & E3 & E4).
  unfold intern in *. rewrite Hi in *. rewrite trunc_small in * by (unfold in_range; lia). cbn [fst snd] in *.
  cbn [l_window idents_out credits_out]. unfold new_line, index_of. rewrite Hi. repeat (split; [done|]). by exists c.
Qed.

(** [reconcile_debits] takes a debit off an identity the table does not know by giving it an
    entry in memory, and does not write that entry to the identity file. From then on the file is one
    line short: the work of the next new address is handed to the rows file under a number that the
    identity file gives to the address after it. *)
Theorem reconcile_shifts_identities (l l2 l3 : Ledger) (b : BlockRecord) (k : Books) (s a1 a2 : string)
    (sats wk1 h1 t1 src1 wk2 h2 t2 src2 : Z) :
  files_ok l -> debits_tracked l = true ->
  br_books b = Some k -> debits_live k = true -> br_hash b ∉ applied_debits l ->
  debited k = [(s, sats)] -> shortfall k = [] ->
  NoDup (idents (l_window l) ++ [s; a1; a2]) -> spare 3 (l_window l) ->
  ledger_credit (reconcile_debits l [b]) a1 wk1 h1 t1 src1 = Ret l2 ->
  ledger_credit l2 a2 wk2 h2 t2 src2 = Ret l3 ->
  exists c, c ∈ credits_out l3 /\ work c = wk1 /\
    identity_at (l_window l3) (ident c) = Some a1 /\ idents_out l3 !! Z.to_nat (ident c) = Some a2.
Proof.
  intros F Htr Hb Hl Hh Hd Hs Hnd Hroom E1 E2. pose proof (fo_window _ F) as OK. unfold spare in Hroom.
  assert (Hnot : forall x, x ∈ [s; a1; a2] -> x ∉ idents (l_window l)).
  { intros x Hx Hin. apply NoDup_app in Hnd as (_ & H & _). by apply (H x). }
  assert (Hnone : forall x, x ∈ [s; a1; a2] -> ident_index (l_window l) !! x = None).
  { intros x Hx. destruct (ident_index (l_window l) !! x) as [i|] eqn:Ei; [|done]. exfalso.
    apply (wo_index _ OK) in Ei as [_ Ei]. apply list_elem_of_lookup_2 in Ei. by apply (Hnot x). }
  assert (Hdiff : s <> a1 /\ s <> a2 /\ a1 <> a2).
  { apply NoDup_app in Hnd as (_ & _ & Hnd). rewrite !NoDup_cons, !not_elem_of_cons in Hnd. tauto. }
  set (n := Z.of_nat (length (idents (l_window l)))) in *.
  assert (H1 : exists c, reconcile_debits l [b] = c /\ idents (l_window c) = idents (l_window l) ++ [s] /\
    ident_index (l_window c) = <[s := n]> (ident_index (l_window l)) /\ idents_out c = idents (l_window l) /\
    credits_out c = credits_out l).
  { eexists. split; [reflexivity|]. unfold reconcile_debits. rewrite Htr. cbn [foldl]. unfold reconcile_one.
    rewrite Hb, Hl, bool_decide_eq_false_2 by done. cbn [negb orb l_window idents_out credits_out touched].
    unfold reconcile_books. rewrite Hd, Hs. cbn [foldl fst snd]. unfold adjust_carry, intern.
    rewrite (Hnone s) by left. rewrite trunc_small by (unfold in_range; lia).
    cbn. rewrite app_nil_r. split; [done|]. split; [done|]. split; [apply F | done]. }
  destruct H1 as (lr & Elr & R1 & R2 & R3 & R4). rewrite Elr in E1.
  destruct Hdiff as (D1 & D2 & D3).
  apply ledger_credit_table in E1 as (A1 & A2 & A3 & c & A4 & A5 & A6).
  2:{ rewrite R1, elem_of_app. intros [Hin|Hin%list_elem_of_singleton]; [|done].
      revert Hin. apply Hnot. right. left. }
  2:{ rewrite R2, lookup_insert_ne by done. apply Hnone. right. left. }
  2:{ rewrite R1, length_app. cbn [length]. lia. }
  apply ledger_credit_table in E2 as (B1 & B2 & B3 & c2 & B4 & _ & _).
  2:{ rewrite A1, R1, !elem_of_app. intros [[Hin|Hin%list_elem_of_singleton]|Hin%list_elem_of_singleton]; try done.
      revert Hin. apply Hnot. right. right. left. }
  2:{ rewrite A3, R2, !lookup_insert_ne by done. apply Hnone. right. right. left. }
  2:{ rewrite A1, R1, !length_app. cbn [length]. lia. }
  assert (Hc : Z.to_nat (ident c) = S (length (idents (l_window l)))).
  { rewrite A5, R1, length_app. cbn [length]. lia. }
  exists c. split; [|split; [done|split]].
  - rewrite B4, A4, !elem_of_app. left. right. left.
  - unfold identity_at. rewrite Hc, B1, A1, R1, <- !app_assoc, lookup_app_r by lia.
    by replace (S (length (idents (l_window l))) - length (idents (l_window l)))%nat with 1%nat by lia.
  - rewrite Hc, B2, A2, R3, <- !app_assoc, lookup_app_r by lia.
    by replace (S (length (idents (l_window l))) - length (idents (l_window l)))%nat with 1%nat by lia.
Qed.

(** * Witnesses *)

Definition demo_ledger0 : Ledger := {|
  l_window := window_new; credits_out := []; idents_out := []; rows_on_disk := 0; dirty := false;
  applied_debits := ∅; debits_tracked := true; l_grace := grace_empty; grace_loaded := false |}.
Definition demo_ledger : Ledger :=
  match ledger_credit demo_ledger0 "bc1qa" 5 100 7 SOURCE_DATUM with Ret l => l | Panic => demo_ledger0 end.

Lemma demo_ledger_ok : files_ok demo_ledger.
Proof.
  assert (R : credit_room window_new 5) by (constructor; by vm_compute).
  destruct (credit_row_ok_spec window_new "bc1qa" 5 100 7 SOURCE_DATUM window_new_ok R) as (w2 & c & C & E); [lia|].
  assert (Hw : trim w2 = l_window demo_ledger).
  { unfold demo_ledger, ledger_credit. change (l_window demo_ledger0) with window_new. by rewrite E. }
  constructor.
  - rewrite <- Hw. apply trim_ok, C.
  - by vm_compute.
  - constructor; [|done]. split; [done|]. split; [by apply (bool_decide_unpack _); vm_compute|].
    split; by vm_compute.
  - constructor; [|done]. repeat split; by vm_compute.
  - by exists [].
  - by vm_compute.
  - split; by vm_compute.
Qed.

Lemma demo_recoverable `{MetaJson} : recoverable demo_ledger 0 meta_default ∅ /\ main_whole ∅ meta_default.
Proof.
  split; [|by right]. split; [apply demo_ledger_ok|]. split; [|split; [done|]].
  - constructor; apply prefix_nil.
  - constructor; try done; apply map_Forall_empty.
Qed.

#[export] Instance Hold_eq_dec : EqDecision Hold.
Proof. solve_decision. Defined.
#[export] Instance Meta_eq_dec : EqDecision Meta.
Proof. solve_decision. Defined.
#[export] Instance Episode_eq_dec : EqDecision Episode.
Proof. solve_decision. Defined.
#[export] Instance GraceBook_eq_dec : EqDecision GraceBook.
Proof. solve_decision. Defined.

#[export] Instance Hold_countable : Countable Hold.
Proof.
  refine (inj_countable' (fun h => (created_ts h, hold_height h, ready_height h, entries h))
    (fun x => match x with (a, b, c, d) =>
       {| created_ts := a; hold_height := b; ready_height := c; entries := d |} end) _).
  by intros [].
Defined.
#[export] Instance Meta_countable : Countable Meta.
Proof.
  refine (inj_countable'
    (fun m => (mt_target_work m, mt_lifetime_shares m, mt_lifetime_work m, mt_carry m, mt_rebate_owed m,
               (mt_last_seen m, mt_holds m, mt_debt m, mt_applied_debits m, mt_applied_debits_tracked m)))
    (fun x => match x with (a, b, c, d, e, (f, g, h, i, j)) =>
       {| mt_target_work := a; mt_lifetime_shares := b; mt_lifetime_work := c; mt_carry := d; mt_rebate_owed := e;
          mt_last_seen := f; mt_holds := g; mt_debt := h; mt_applied_debits := i;
          mt_applied_debits_tracked := j |} end) _).
  by intros [].
Defined.
#[export] Instance Episode_countable : Countable Episode.
Proof.
  refine (inj_countable' (fun e => (start e, last_share e, datum e))
    (fun x => match x with (a, b, c) => {| start := a; last_share := b; datum := c |} end) _).
  by intros [].
Defined.

(** The codec of the witnesses; a grace book is written without its dirty mark. *)
Definition toy_meta_json : MetaJson := {|
  meta_to_json := to_text; meta_from_json := of_text;
  book_to_json := fun b => to_text (stratum b, datum_seen b);
  book_from_json := fun l => (fun x => {| stratum := x.1; datum_seen := x.2; g_dirty := false |}) <$>
                      (of_text l : option (gmap string Episode * gmap string Z));
  import_from_json := fun _ => None |}.

Lemma toy_meta_laws : @MetaJsonLaws toy_meta_json.
Proof.
  constructor; cbn [meta_to_json meta_from_json book_to_json book_from_json toy_meta_json].
  - apply of_to_text.
  - intros b. by rewrite of_to_text.
Qed.



Definition demo_meta : Meta := {|
  mt_target_work := 0; mt_lifetime_shares := 1; mt_lifetime_work := 5; mt_carry := {["bc1qa" := 700]};
  mt_rebate_owed := 0; mt_last_seen := ∅; mt_holds := ∅; mt_debt := ∅; mt_applied_debits := [];
  mt_applied_debits_tracked := true |}.

Lemma recovered_flush_loses_balances_witness :
  @load_meta toy_meta_json {[bak_of META := to_text demo_meta]} META = Ok demo_meta /\
  demo_meta <> meta_default /\
  exists d', crashes {[bak_of META := to_text demo_meta]} (write_atomic META (to_text demo_meta)) d' /\
    @load_meta toy_meta_json d' META = Ok meta_default.
Proof.
  destruct (@recovered_flush_loses_balances toy_meta_json toy_meta_laws demo_meta demo_meta [] eq_refl)
    as [[H1 H2] _].
  split; [exact H1|]. split; [|exact H2]. intros E. by apply (f_equal mt_lifetime_work) in E.
Defined.

Definition demo_shift_books : Books := {|
  bk_owed_credited := 0; bk_deferred := 0; debits_live := true; debited := [("bc1qgone", 9)];
  rebate_debited := 0; credits_live := false; credited_sats := []; rebate_added := 0; shortfall := [];
  debt_paid := [] |}.
Definition demo_shift_block : BlockRecord := {|
  br_ts := 1; br_height := 2; br_hash := "00ab"; br_finder := None; br_coinbase_value := 5; br_kind := "split";
  br_owed_sats := 0; br_split := []; br_pool_sats := 0; br_carry_paid := 9; br_carry_delta := [];
  br_rebate_credited := 0; br_rebate_delta := 0; br_settled := false; br_submit := "pending";
  br_gateway := "gw"; br_books := Some demo_shift_books; br_carry_shortfall_sats := 0;
  br_carry_reserved_sats := 0 |}.

Lemma reconcile_shifts_identities_witness :
  exists l2 l3 c, ledger_credit (reconcile_debits demo_ledger [demo_shift_block]) "bc1qb" 11 100 8 SOURCE_DATUM = Ret l2 /\
    ledger_credit l2 "bc1qc" 13 100 9 SOURCE_DATUM = Ret l3 /\ c ∈ credits_out l3 /\ work c = 11 /\
    idents_out l3 !! Z.to_nat (ident c) = Some "bc1qc".
Proof.
  destruct (ledger_credit (reconcile_debits demo_ledger [demo_shift_block]) "bc1qb" 11 100 8 SOURCE_DATUM)
    as [l2|] eqn:E1; [|vm_compute in E1; discriminate E1].
  destruct (ledger_credit l2 "bc1qc" 13 100 9 SOURCE_DATUM) as [l3|] eqn:E2.
  - destruct (reconcile_shifts_identities demo_ledger l2 l3 demo_shift_block demo_shift_books "bc1qgone" "bc1qb" "bc1qc"
      9 11 100 8 SOURCE_DATUM 13 100 9 SOURCE_DATUM) as (c & H1 & H2 & _ & H3); try done.
    + apply demo_ledger_ok.
    + by apply (bool_decide_unpack _); vm_compute.
    + by exists l2, l3, c.
  - exfalso. vm_compute in E1. injection E1 as <-. vm_compute in E2. discriminate E2.
Defined.
