(* ===== verification/Cursor.v ===== *)
(** Reading little-endian fields off a byte string ([prime/wire/src/lib.rs]): the error type, the
    cursor and its reads, and what it means for bytes to parse as a value.

    A cursor is the bytes it has not read yet. *)

From S2P Require Import Prelude Bytes.
Open Scope Z_scope.

(** * Errors *)

Inductive Error := Short | Signature | Decrypt | Malformed (what : string) | TooLong.

#[export] Instance Error_eq_dec : EqDecision Error.
Proof. solve_decision. Defined.

(** [MAX_CMD_LEN] and the command numbers. *)
Definition MAX_CMD_LEN : Z := 2 ^ 22.
Definition HELLO : Z := 1.
Definition PING : Z := HELLO.
Definition HELLO_REPLY : Z := 2.
Definition MINING : Z := 5.
Definition INFO : Z := 7.

(** * The cursor *)

Definition Parser (A : Type) : Type := list Z -> result Error (A * list Z).

#[export] Instance parser_ret : MRet Parser := fun A a l => Ok (a, l).
#[export] Instance parser_bind : MBind Parser :=
  fun A B f p l => match p l with Ok (a, l') => f a l' | Err e => Err e end.

Definition perr {A} (e : Error) : Parser A := fun _ => Err e.

(** [Cursor::remaining]. *)
Definition remaining (l : list Z) : nat := length l.

(** [Cursor::take]. *)
Definition take_bytes (n : nat) : Parser (list Z) :=
  fun l => if (length l <? n)%nat then Err Short else Ok (take n l, drop n l).

Definition p_int (n : nat) : Parser Z := b ← take_bytes n; mret (of_le b).
Definition p_u8 : Parser Z := p_int 1.
Definition p_u16 : Parser Z := p_int 2.
Definition p_u32 : Parser Z := p_int 4.
Definition p_u64 : Parser Z := p_int 8.
(** [Cursor::array]. *)
Definition p_array (n : nat) : Parser (list Z) := take_bytes n.

(** The bytes before the first NUL, and those after it. *)
Fixpoint split_nul (l : list Z) : option (list Z * list Z) :=
  match l with
  | [] => None
  | b :: l' => if b =? 0 then Some ([], l')
               else match split_nul l' with Some (s, r) => Some (b :: s, r) | None => None end
  end.

(** [Cursor::cstr]: a terminator within the first [max + 1] bytes. *)
Definition p_cstr (max : nat) : Parser (list Z) :=
  fun l => match split_nul (take (S max) l) with
           | Some (s, _) => Ok (s, drop (S (length s)) l)
           | None => Err (Malformed "unterminated string"%string)
           end.

(** A fixed number of reads, in order. *)
Fixpoint p_times {A} (n : nat) (p : Parser A) : Parser (list A) :=
  match n with
  | O => mret []
  | S n' => a ← p; rest ← p_times n' p; mret (a :: rest)
  end.

(** * Parsing what was written *)

(** The bytes [bs], whatever follows them, read as [a]. *)
Definition parses {A} (p : Parser A) (bs : list Z) (a : A) : Prop :=
  forall rest, p (bs ++ rest) = Ok (a, rest).

Lemma parses_ret {A} (a : A) : parses (mret a) [] a.
Proof. intros rest. done. Qed.

Lemma parses_bind {A B} (p : Parser A) (f : A -> Parser B) bs bs' a b :
  parses p bs a -> parses (f a) bs' b -> parses (p ≫= f) (bs ++ bs') b.
Proof.
  intros Hp Hf rest. unfold mbind, parser_bind. rewrite <- app_assoc, Hp. apply Hf.
Qed.

Lemma parses_map {A B} (p : Parser A) (g : A -> B) bs a b :
  parses p bs a -> b = g a -> parses (x ← p; mret (g x)) bs b.
Proof.
  intros Hp -> rest. unfold mbind, parser_bind. rewrite Hp. done.
Qed.

Lemma parses_take bs n : length bs = n -> parses (take_bytes n) bs bs.
Proof.
  intros <- rest. unfold take_bytes. rewrite length_app.
  rewrite (proj2 (Nat.ltb_ge _ _)) by lia. by rewrite take_app_length, drop_app_length.
Qed.

Lemma parses_int n z : 0 <= z < 256 ^ Z.of_nat n -> parses (p_int n) (le_bytes n z) z.
Proof.
  intros H. eapply parses_map; [apply parses_take, length_le_bytes|]. by rewrite of_le_le_bytes.
Qed.

Lemma parses_u8 b : is_byte b -> parses p_u8 [b] b.
Proof.
  intros H. unfold is_byte, in_range in H. replace [b] with (le_bytes 1 b).
  - apply parses_int. lia.
  - cbn. rewrite Z.mod_small by lia. done.
Qed.
Lemma parses_u16 z : in_range u16_max z -> parses p_u16 (u16_bytes z) z.
Proof. intros H. apply parses_int. unfold in_range in H. lia. Qed.
Lemma parses_u32 z : in_range u32_max z -> parses p_u32 (u32_bytes z) z.
Proof. intros H. apply parses_int. unfold in_range in H. lia. Qed.
Lemma parses_u64 z : in_range u64_max z -> parses p_u64 (u64_bytes z) z.
Proof. intros H. apply parses_int. unfold in_range in H. lia. Qed.
Lemma parses_array bs n : length bs = n -> parses (p_array n) bs bs.
Proof. apply parses_take. Qed.

Lemma split_nul_app s r : Forall (fun b => b <> 0) s -> split_nul (s ++ 0 :: r) = Some (s, r).
Proof.
  induction 1 as [|b s Hb _ IH]; cbn [app split_nul]; [done|].
  rewrite (proj2 (Z.eqb_neq _ _)) by done. by rewrite IH.
Qed.

Lemma parses_cstr s max :
  Forall (fun b => b <> 0) s -> (length s <= max)%nat -> parses (p_cstr max) (s ++ [0]) s.
Proof.
  intros Hs Hl rest. unfold p_cstr.
  rewrite <- app_assoc, take_app_ge by lia.
  replace (S max - length s)%nat with (S (max - length s)) by lia. cbn [app take].
  rewrite split_nul_app by done.
  rewrite drop_app_ge by lia. replace (S (length s) - length s)%nat with 1%nat by lia. done.
Qed.

Lemma parses_times {A} (p : Parser A) (enc : A -> list Z) xs :
  Forall (fun x => parses p (enc x) x) xs -> parses (p_times (length xs) p) (concat (map enc xs)) xs.
Proof.
  induction 1 as [|x xs Hx _ IH]; cbn [p_times concat map length]; [apply parses_ret|].
  eapply parses_bind; [exact Hx|]. by eapply parses_map.
Qed.

(** Parsing consumes a prefix: what is left is the end of what was there. *)
Definition consumes {A} (p : Parser A) : Prop :=
  forall l a r, p l = Ok (a, r) -> exists bs, l = bs ++ r.

Lemma take_bytes_inv n l bs r : take_bytes n l = Ok (bs, r) -> l = bs ++ r /\ length bs = n.
Proof.
  unfold take_bytes. destruct (length l <? n)%nat eqn:E; [done|]. intros [= <- <-].
  apply Nat.ltb_ge in E. by rewrite take_drop, length_take_le.
Qed.

Lemma p_bind_inv {A B} (p : Parser A) (f : A -> Parser B) l b r :
  (p ≫= f) l = Ok (b, r) -> exists a l', p l = Ok (a, l') /\ f a l' = Ok (b, r).
Proof. unfold mbind, parser_bind. destruct (p l) as [[a l']|e]; [eauto | done]. Qed.

Lemma p_int_inv n l z r : p_int n l = Ok (z, r) -> exists bs, l = bs ++ r /\ length bs = n /\ z = of_le bs.
Proof.
  intros (bs & l' & H & [= <- <-])%p_bind_inv. apply take_bytes_inv in H as [-> H]. by exists bs.
Qed.

Lemma p_u8_inv l b r : p_u8 l = Ok (b, r) -> l = b :: r.
Proof.
  intros (bs & -> & Hl & ->)%p_int_inv. destruct bs as [|x [|? ?]]; [done | | done].
  cbn. by rewrite Z.add_0_r.
Qed.

Lemma split_nul_inv l s r : split_nul l = Some (s, r) -> l = s ++ 0 :: r.
Proof.
  revert s. induction l as [|b l IH]; intros s H; cbn [split_nul] in H; [done|].
  destruct (b =? 0) eqn:E; [injection H as <- <-; bools; by subst|].
  destruct (split_nul l) as [[s' r']|]; [|done]. injection H as <- <-. cbn [app]. by rewrite (IH s').
Qed.

Lemma p_cstr_inv max l s r : p_cstr max l = Ok (s, r) -> l = (s ++ [0]) ++ r.
Proof.
  unfold p_cstr. destruct (split_nul (take (S max) l)) as [[s' r']|] eqn:E; [|done]. intros [= <- <-].
  apply split_nul_inv in E. rewrite <- (take_drop (S max) l) at 1 2. rewrite E, <- !app_assoc. cbn [app].
  rewrite drop_app_ge by lia. replace (S (length s') - length s')%nat with 1%nat by lia. done.
Qed.

Create HintDb parse discriminated.
#[export] Hint Resolve parses_u8 parses_u16 parses_u32 parses_u64 parses_array parses_take
  parses_cstr parses_ret : parse.

(** Run a parser on the bytes its value is written as, read by read: the goal is
    [parses (x ← p; f x) (bs ++ bs') a] with [bs] the bytes of the first read. *)
Ltac pread := eapply parses_bind; [solve [eauto with parse lia] | cbv beta].

(** ** Progress and failures *)

(** [p] reads at least [n] bytes when it succeeds. *)
Definition advances {A} (n : nat) (p : Parser A) : Prop :=
  forall l a l', p l = Ok (a, l') -> (length l' + n <= length l)%nat.

(** [p] never fails with [e]. *)
Definition never {A} (e : Error) (p : Parser A) : Prop := forall l, p l <> Err e.

Lemma advances_weaken {A} n m (p : Parser A) : advances n p -> (m <= n)%nat -> advances m p.
Proof. intros H Hle l a l' E. specialize (H l a l' E). lia. Qed.
Lemma advances_ret {A} (a : A) : advances 0 (mret a : Parser A).
Proof. intros l b l' [= <- <-]. lia. Qed.
Lemma advances_err {A} n e : advances n (perr e : Parser A).
Proof. intros l a l' [=]. Qed.
Lemma advances_take n : advances n (take_bytes n).
Proof. intros l a l' H. apply take_bytes_inv in H as [-> H]. rewrite length_app. lia. Qed.
Lemma advances_bind {A B} n (p : Parser A) (f : A -> Parser B) :
  advances n p -> (forall a, advances 0 (f a)) -> advances n (p ≫= f).
Proof.
  intros Hp Hf l b l' (a & l1 & Ha & Hb)%p_bind_inv. specialize (Hp _ _ _ Ha). specialize (Hf _ _ _ _ Hb). lia.
Qed.
Lemma advances_bind0 {A B} (p : Parser A) (f : A -> Parser B) :
  advances 0 p -> (forall a, advances 0 (f a)) -> advances 0 (p ≫= f).
Proof. apply advances_bind. Qed.
Lemma advances_int n : advances n (p_int n).
Proof. apply advances_bind; [apply advances_take | intros a; apply advances_ret]. Qed.
Lemma advances_u8 : advances 1 p_u8. Proof. apply advances_int. Qed.
Lemma advances_u16 : advances 2 p_u16. Proof. apply advances_int. Qed.
Lemma advances_u32 : advances 4 p_u32. Proof. apply advances_int. Qed.
Lemma advances_u64 : advances 8 p_u64. Proof. apply advances_int. Qed.
Lemma advances_0 {A} n (p : Parser A) : advances n p -> advances 0 p.
Proof. intros H. eapply advances_weaken; [exact H | lia]. Qed.
Lemma advances_times {A} n (p : Parser A) : advances 0 p -> advances 0 (p_times n p).
Proof.
  intros Hp. induction n as [|n IH]; cbn [p_times]; [apply advances_ret|].
  apply advances_bind; [done|]. intros a. apply advances_bind; [done|]. intros b. apply advances_ret.
Qed.
Lemma advances_if {A} n (b : bool) (p q : Parser A) : advances n p -> advances n q -> advances n (if b then p else q).
Proof. by destruct b. Qed.

Lemma never_ret {A} e (a : A) : never e (mret a : Parser A).
Proof. intros l. discriminate. Qed.
Lemma never_err {A} e e' : e' <> e -> never e (perr e' : Parser A).
Proof. intros H l [= E]. done. Qed.
Lemma never_take e n : e <> Short -> never e (take_bytes n).
Proof. intros H l. unfold take_bytes. destr_if; congruence. Qed.
Lemma never_bind {A B} e (p : Parser A) (f : A -> Parser B) :
  never e p -> (forall a, never e (f a)) -> never e (p ≫= f).
Proof.
  intros Hp Hf l. unfold mbind, parser_bind. specialize (Hp l). destruct (p l) as [[a l']|e']; [apply Hf | congruence].
Qed.
Lemma never_int e n : e <> Short -> never e (p_int n).
Proof. intros H. apply never_bind; [by apply never_take | intros a; apply never_ret]. Qed.
Lemma never_times {A} e n (p : Parser A) : never e p -> never e (p_times n p).
Proof.
  intros Hp. induction n as [|n IH]; cbn [p_times]; [apply never_ret|].
  apply never_bind; [done|]. intros a. apply never_bind; [done|]. intros b. apply never_ret.
Qed.
Lemma never_if {A} e (b : bool) (p q : Parser A) : never e p -> never e q -> never e (if b then p else q).
Proof. by destruct b. Qed.

(** Walk a parser, read by read. *)
Ltac never_walk :=
  repeat first
    [ apply never_ret | apply never_bind; [|intros ?] | apply never_if | apply never_times
    | (apply never_err; discriminate) | (apply never_take; discriminate) | (apply never_int; discriminate) ].
Ltac advances_walk :=
  repeat first
    [ apply advances_ret | apply advances_err | apply advances_if | apply advances_times
    | (eapply advances_bind; [|intros ?])
    | (eapply advances_0; first [apply advances_int | apply advances_take]) ].
