(* ===== verification/Frame.v ===== *)
(** The frame header and its rolling key ([prime/wire/src/frame.rs]). *)

From S2P Require Import Prelude Bytes Cursor.
Open Scope Z_scope.

(** * 32-bit words *)

Definition w32 (z : Z) : Z := z mod 2 ^ 32.
Definition wrapping_mul (a b : Z) : Z := w32 (a * b).
Definition wrapping_add (a b : Z) : Z := w32 (a + b).
Definition wrapping_sub (a b : Z) : Z := w32 (a - b).
Definition rotate_left (x : Z) (n : Z) : Z :=
  Z.lor (w32 (Z.shiftl x n)) (Z.shiftr x (32 - n)).
Definition not32 (x : Z) : Z := lnot_w 32 x.

(** * The key schedule *)

Definition CLIENT_INITIAL_KEY : Z := 0xDC871829.

Definition feedback (i : Z) : Z :=
  let k := wrapping_mul i 0xcc9e2d51 in
  let k := rotate_left k 15 in
  let k := wrapping_mul k 0x1b873593 in
  let h := Z.lxor 0xb10cfeed k in
  let h := rotate_left h 13 in
  let h := wrapping_add (wrapping_mul h 5) 0xe6546b64 in
  let h := Z.lxor h 4 in
  let h := Z.lxor h (Z.shiftr h 16) in
  let h := wrapping_mul h 0x85ebca6b in
  let h := Z.lxor h (Z.shiftr h 13) in
  let h := wrapping_mul h 0xc2b2ae35 in
  Z.lxor h (Z.shiftr h 16).

(** [KeyStream]: the current key. *)
Definition KeyStream : Type := Z.

(** [KeyStream::advance]: the key to use, and the stream after it. *)
Definition advance (k : KeyStream) : Z * KeyStream := (k, feedback k).

(** [KeyStream::from_seed]: what the server receives and sends under. *)
Definition from_seed (seed : Z) : KeyStream * KeyStream := (feedback seed, feedback (not32 seed)).

(** * The header *)

Record Header := {
  h_len : Z;
  h_signed : bool;
  h_sealed : bool;
  h_channel : bool;
  h_cmd : Z
}.

#[export] Instance Header_eq_dec : EqDecision Header.
Proof. solve_decision. Defined.

Definition HEADER_SIZE : nat := 4.

(** [Header::new]. *)
Definition header_new (cmd len : Z) : Header :=
  {| h_len := trunc u32_max len; h_signed := false; h_sealed := false; h_channel := false; h_cmd := cmd |}.

Definition to_u32 (h : Header) : Z :=
  Z.lor (Z.lor (Z.lor (Z.lor (Z.land (h_len h) 0x003fffff)
    (Z.shiftl (Z.b2z (h_signed h)) 24)) (Z.shiftl (Z.b2z (h_sealed h)) 25))
    (Z.shiftl (Z.b2z (h_channel h)) 26)) (Z.shiftl (Z.land (h_cmd h) 0x1f) 27).

Definition bit (v n : Z) : bool := negb (Z.land v (Z.shiftl 1 n) =? 0).

Definition from_u32 (v : Z) : Header := {|
  h_len := Z.land v 0x003fffff; h_signed := bit v 24; h_sealed := bit v 25; h_channel := bit v 26;
  h_cmd := trunc u8_max (Z.shiftr v 27) |}.

(** [Header::encode]. *)
Definition header_encode (h : Header) (k : KeyStream) : list Z * KeyStream :=
  let '(key, k') := advance k in (u32_bytes (Z.lxor (to_u32 h) key), k').

(** [Header::decode]: the stream advances whether or not the header is good. *)
Definition header_decode (b : list Z) (k : KeyStream) : result Error Header * KeyStream :=
  let '(key, k') := advance k in
  let h := from_u32 (Z.lxor (of_le b) key) in
  ((if MAX_CMD_LEN <? h_len h then Err TooLong else Ok h), k').

(** * Lemmas *)

Definition header_ok (h : Header) : Prop := 0 <= h_len h < 2 ^ 22 /\ 0 <= h_cmd h < 32.

Lemma lor_shift a b n : 0 <= n -> 0 <= a < 2 ^ n -> Z.lor a (Z.shiftl b n) = a + b * 2 ^ n.
Proof.
  intros Hn Ha. assert (Hl : Z.land a (Z.shiftl b n) = 0).
  { apply Z.bits_inj'. intros i Hi. rewrite Z.land_spec, Z.bits_0.
    destruct (decide (i < n)).
    - rewrite Z.shiftl_spec_low by done. apply andb_false_r.
    - rewrite <- (Z.mod_small a (2 ^ n)) by done. rewrite Z.mod_pow2_bits_high by lia. done. }
  rewrite <- Z.shiftl_mul_pow2 by done. rewrite <- Z.add_lor_land, Hl. lia.
Qed.

Lemma land_ones a n : 0 <= n -> Z.land a (2 ^ n - 1) = a mod 2 ^ n.
Proof. intros H. rewrite <- Z.land_ones by done. f_equal. rewrite Z.ones_equiv. lia. Qed.

Lemma bit_testbit v n : 0 <= n -> bit v n = Z.testbit v n.
Proof.
  intros Hn. unfold bit. destruct (Z.testbit v n) eqn:E.
  - apply negb_true_iff, Z.eqb_neq. intros H.
    assert (Hb : Z.testbit (Z.land v (Z.shiftl 1 n)) n = false) by by rewrite H, Z.bits_0.
    rewrite Z.land_spec, E, Z.shiftl_spec, Z.sub_diag in Hb by lia. done.
  - apply negb_false_iff, Z.eqb_eq. apply Z.bits_inj'. intros i Hi.
    rewrite Z.land_spec, Z.bits_0, Z.shiftl_spec by lia. destruct (decide (i = n)) as [->|Hne].
    + by rewrite E.
    + apply andb_false_iff. right. destruct (decide (i < n)); [by apply Z.testbit_neg_r; lia|].
      apply Z.bits_above_log2; [lia|]. change (Z.log2 1) with 0. lia.
Qed.

Lemma b2z_range b : 0 <= Z.b2z b <= 1.
Proof. destruct b; cbn; lia. Qed.

Lemma to_u32_sum h : header_ok h ->
  to_u32 h = h_len h + 2 ^ 24 * (Z.b2z (h_signed h) + 2 * (Z.b2z (h_sealed h)
    + 2 * (Z.b2z (h_channel h) + 2 * h_cmd h))).
Proof.
  intros [Hl Hc]. unfold to_u32.
  pose proof (b2z_range (h_signed h)). pose proof (b2z_range (h_sealed h)). pose proof (b2z_range (h_channel h)).
  change 0x003fffff with (2 ^ 22 - 1). change 0x1f with (2 ^ 5 - 1).
  rewrite !land_ones, !Z.mod_small by lia.
  rewrite (lor_shift _ _ 24) by lia. rewrite (lor_shift _ _ 25) by lia.
  rewrite (lor_shift _ _ 26) by lia. rewrite (lor_shift _ _ 27) by lia. lia.
Qed.

Lemma testbit_sum a b c n : 0 <= n -> 0 <= a < 2 ^ n -> Z.testbit (a + 2 ^ n * (Z.b2z b + 2 * c)) n = b.
Proof.
  intros Hn Ha. rewrite Z.testbit_eqb by done.
  replace (a + 2 ^ n * (Z.b2z b + 2 * c)) with (a + (Z.b2z b + 2 * c) * 2 ^ n) by lia.
  rewrite Z.div_add, Z.div_small, Z.add_0_l by lia.
  replace (Z.b2z b + 2 * c) with (Z.b2z b + c * 2) by lia.
  rewrite Z.mod_add by lia. by destruct b.
Qed.

Lemma from_to_u32 h : header_ok h -> from_u32 (to_u32 h) = h.
Proof.
  intros OK. rewrite to_u32_sum by done. destruct OK as [Hl Hc].
  destruct h as [len s e c cmd]; cbn [h_len h_signed h_sealed h_channel h_cmd] in *.
  pose proof (b2z_range s). pose proof (b2z_range e). pose proof (b2z_range c).
  unfold from_u32. rewrite !bit_testbit by lia. f_equal.
  - change 0x003fffff with (2 ^ 22 - 1). rewrite land_ones by lia.
    replace (len + 2 ^ 24 * (Z.b2z s + 2 * (Z.b2z e + 2 * (Z.b2z c + 2 * cmd))))
      with (len + (4 * (Z.b2z s + 2 * (Z.b2z e + 2 * (Z.b2z c + 2 * cmd)))) * 2 ^ 22) by lia.
    rewrite Z.mod_add by lia. by apply Z.mod_small.
  - apply testbit_sum; lia.
  - replace (len + 2 ^ 24 * (Z.b2z s + 2 * (Z.b2z e + 2 * (Z.b2z c + 2 * cmd))))
      with ((len + 2 ^ 24 * Z.b2z s) + 2 ^ 25 * (Z.b2z e + 2 * (Z.b2z c + 2 * cmd))) by lia.
    apply testbit_sum; lia.
  - replace (len + 2 ^ 24 * (Z.b2z s + 2 * (Z.b2z e + 2 * (Z.b2z c + 2 * cmd))))
      with ((len + 2 ^ 24 * Z.b2z s + 2 ^ 25 * Z.b2z e) + 2 ^ 26 * (Z.b2z c + 2 * cmd)) by lia.
    apply testbit_sum; lia.
  - rewrite Z.shiftr_div_pow2 by lia.
    replace (len + 2 ^ 24 * (Z.b2z s + 2 * (Z.b2z e + 2 * (Z.b2z c + 2 * cmd))))
      with ((len + 2 ^ 24 * Z.b2z s + 2 ^ 25 * Z.b2z e + 2 ^ 26 * Z.b2z c) + cmd * 2 ^ 27) by lia.
    rewrite Z.div_add, Z.div_small by lia. unfold trunc. by rewrite Z.add_0_l, Z.mod_small by lia.
Qed.

Lemma lxor_range n a b : 0 <= n -> 0 <= a < 2 ^ n -> 0 <= b < 2 ^ n -> 0 <= Z.lxor a b < 2 ^ n.
Proof.
  intros Hn Ha Hb. split; [apply Z.lxor_nonneg; lia|].
  assert (E : Z.lxor a b = Z.lxor a b mod 2 ^ n).
  { apply Z.bits_inj'. intros i Hi. destruct (decide (i < n)).
    - by rewrite Z.mod_pow2_bits_low.
    - rewrite Z.mod_pow2_bits_high by lia. rewrite Z.lxor_spec.
      rewrite <- (Z.mod_small a (2 ^ n)), <- (Z.mod_small b (2 ^ n)) by done.
      rewrite !Z.mod_pow2_bits_high by lia. done. }
  rewrite E. apply Z.mod_pos_bound. lia.
Qed.

Lemma w32_range z : 0 <= w32 z < 2 ^ 32.
Proof. apply Z.mod_pos_bound. lia. Qed.

Lemma shiftr_range n a k : 0 <= n -> 0 <= k -> 0 <= a < 2 ^ n -> 0 <= Z.shiftr a k < 2 ^ n.
Proof.
  intros Hn Hk Ha. rewrite Z.shiftr_div_pow2 by done. assert (0 < 2 ^ k) by (apply Z.pow_pos_nonneg; lia).
  split; [apply Z.div_pos; lia|]. apply Z.le_lt_trans with a; [|lia]. apply Z.div_le_upper_bound; nia.
Qed.

Lemma feedback_range i : 0 <= feedback i < 2 ^ 32.
Proof.
  unfold feedback. apply lxor_range; [lia | apply w32_range |].
  apply shiftr_range; [lia | lia | apply w32_range].
Qed.

Lemma header_decode_encode h k :
  header_ok h -> 0 <= k < 2 ^ 32 ->
  header_decode (header_encode h k).1 k = (Ok h, (header_encode h k).2).
Proof.
  intros OK Hk. unfold header_decode, header_encode, advance. cbn [fst snd].
  assert (Hr : 0 <= to_u32 h < 2 ^ 32).
  { rewrite to_u32_sum by done. destruct OK.
    pose proof (b2z_range (h_signed h)). pose proof (b2z_range (h_sealed h)).
    pose proof (b2z_range (h_channel h)). lia. }
  rewrite of_le_u32.
  2:{ pose proof (lxor_range 32 (to_u32 h) k). unfold in_range. lia. }
  rewrite Z.lxor_assoc, Z.lxor_nilpotent, Z.lxor_0_r, from_to_u32 by done.
  destruct OK. rewrite (proj2 (Z.ltb_ge _ _)); [done|]. unfold MAX_CMD_LEN. lia.
Qed.

(** * Runs *)

Fixpoint encode_headers (hs : list Header) (k : KeyStream) : list (list Z) * KeyStream :=
  match hs with
  | [] => ([], k)
  | h :: hs' =>
      let '(b, k1) := header_encode h k in
      let '(bs, k2) := encode_headers hs' k1 in (b :: bs, k2)
  end.

Fixpoint decode_headers (bs : list (list Z)) (k : KeyStream) : list (result Error Header) * KeyStream :=
  match bs with
  | [] => ([], k)
  | b :: bs' =>
      let '(h, k1) := header_decode b k in
      let '(hs, k2) := decode_headers bs' k1 in (h :: hs, k2)
  end.

Lemma headers_lockstep hs : forall k,
  Forall header_ok hs -> 0 <= k < 2 ^ 32 ->
  decode_headers (encode_headers hs k).1 k = (map Ok hs, (encode_headers hs k).2).
Proof.
  induction hs as [|h hs IH]; intros k HF Hk; cbn [encode_headers]; [done|].
  apply Forall_cons in HF as [Hh HF].
  pose proof (header_decode_encode h k Hh Hk) as E.
  assert (Hk1 : 0 <= (header_encode h k).2 < 2 ^ 32) by apply feedback_range.
  specialize (IH (header_encode h k).2 HF Hk1).
  destruct (header_encode h k) as [b k1]. cbn [fst snd] in *.
  destruct (encode_headers hs k1) as [bs k2]. cbn [fst snd decode_headers map] in *.
  rewrite E, IH. done.
Qed.
