(* ===== verification/Crypto.v ===== *)
(** Session nonces and the encrypted channel ([prime/wire/src/crypto.rs]).

    The NaCl primitives are parameters: a box under a shared key, with the one law that a box
    opens under the key and nonce it was made with. *)

From S2P Require Import Prelude Bytes Cursor Frame.
Open Scope Z_scope.

Definition SIGN_PK : nat := 32.
Definition BOX_PK : nat := 32.
Definition SIG : nat := 64.
Definition NONCE : nat := 24.
Definition MAC : nat := 16.
Definition SEAL_OVERHEAD : nat := 48.

(** * Nonces *)

(** [bump_nonce], on the [words] little-endian words that are left. *)
Fixpoint bump_words (words : nat) (n : list Z) : list Z :=
  match words with
  | O => n
  | S k =>
      let w := wrapping_add (of_le (take 4 n)) 1 in
      u32_bytes w ++ (if w =? 0 then bump_words k (drop 4 n) else drop 4 n)
  end.
Definition bump_nonce (n : list Z) : list Z := bump_words 6 n.

(** The words of the two nonces, from the running key. *)
Fixpoint nonce_words (words : nat) (nk : Z) : list Z :=
  match words with
  | O => []
  | S k => let word := feedback (wrapping_sub nk 42) in word :: nonce_words k (not32 word)
  end.

Definition NONCE_MASK : Z := 0x57575757.

(** [session_nonces]: what the server sends under and receives under. *)
Definition session_nonces (seed : Z) (client_session_sign_pk : list Z) : list Z * list Z :=
  let pk7 := of_le (take 4 (drop 7 client_session_sign_pk)) in
  let ws := nonce_words 6 (Z.lxor (wrapping_sub seed 42) pk7) in
  (concat (map u32_bytes ws), concat (map (fun w => u32_bytes (Z.lxor w NONCE_MASK)) ws)).

(** * The channel *)

Section Channel.
Context {Key : Type}.
Context (box_encrypt : Key -> list Z -> list Z -> list Z).
Context (box_decrypt : Key -> list Z -> list Z -> option (list Z)).

Record Channel := { bx : Key; send_nonce : list Z; recv_nonce : list Z }.

(** [Channel::encrypt]: the payload and the channel after it. *)
Definition encrypt (c : Channel) (plain : list Z) : list Z * Channel :=
  (box_encrypt (bx c) (send_nonce c) plain,
   {| bx := bx c; send_nonce := bump_nonce (send_nonce c); recv_nonce := recv_nonce c |}).

(** [Channel::decrypt_in_place]: on failure the nonce stays. *)
Definition decrypt (c : Channel) (buf : list Z) : result Error (list Z) * Channel :=
  if (length buf <? MAC)%nat then (Err Short, c) else
  match box_decrypt (bx c) (recv_nonce c) buf with
  | None => (Err Decrypt, c)
  | Some plain =>
      (Ok plain, {| bx := bx c; send_nonce := send_nonce c; recv_nonce := bump_nonce (recv_nonce c) |})
  end.

(** Everything one side sends, and everything the other makes of it. *)
Fixpoint encrypt_all (c : Channel) (ms : list (list Z)) : list (list Z) * Channel :=
  match ms with
  | [] => ([], c)
  | m :: ms' =>
      let '(x, c1) := encrypt c m in let '(xs, c2) := encrypt_all c1 ms' in (x :: xs, c2)
  end.
Fixpoint decrypt_all (c : Channel) (bufs : list (list Z)) : list (result Error (list Z)) * Channel :=
  match bufs with
  | [] => ([], c)
  | b :: bufs' =>
      let '(r, c1) := decrypt c b in let '(rs, c2) := decrypt_all c1 bufs' in (r :: rs, c2)
  end.

Hypothesis box_opens : forall k n m, box_decrypt k n (box_encrypt k n m) = Some m.
Hypothesis box_length : forall k n m, length (box_encrypt k n m) = (MAC + length m)%nat.

Lemma decrypt_encrypted c c' m :
  bx c = bx c' -> send_nonce c = recv_nonce c' ->
  decrypt c' (encrypt c m).1 =
    (Ok m, {| bx := bx c'; send_nonce := send_nonce c'; recv_nonce := bump_nonce (recv_nonce c') |}).
Proof using box_opens box_length.
  intros Hb Hn. unfold decrypt, encrypt. cbn [fst]. rewrite box_length.
  assert (Hlt : (MAC + length m <? MAC)%nat = false) by (apply Nat.ltb_ge; lia).
  by rewrite Hlt, Hb, Hn, box_opens.
Qed.

Lemma channel_lockstep ms : forall c c',
  bx c = bx c' -> send_nonce c = recv_nonce c' ->
  (decrypt_all c' (encrypt_all c ms).1).1 = map Ok ms /\
  recv_nonce (decrypt_all c' (encrypt_all c ms).1).2 = send_nonce (encrypt_all c ms).2.
Proof using box_opens box_length.
  induction ms as [|m ms IH]; intros c c' Hb Hn; [done|].
  pose proof (decrypt_encrypted c c' m Hb Hn) as Hd. cbn [encrypt_all].
  specialize (IH (encrypt c m).2 (decrypt c' (encrypt c m).1).2). rewrite Hd in IH.
  unfold encrypt in IH at 1 2. cbn [fst snd bx send_nonce recv_nonce] in IH.
  specialize (IH Hb (f_equal bump_nonce Hn)). revert IH.
  destruct (encrypt c m) as [x c1]. cbn [fst snd] in *.
  destruct (encrypt_all c1 ms) as [xs c2]. cbn [fst snd decrypt_all map]. rewrite Hd.
  destruct (decrypt_all _ xs) as [rs c2']. cbn [fst snd]. by intros [-> ->].
Qed.
End Channel.

(** * The nonce is a counter *)

Definition nonce_ok (n : list Z) : Prop := length n = NONCE /\ is_bytes n.

Lemma bump_words_spec words : forall n, length n = (4 * words)%nat -> is_bytes n ->
  of_le (bump_words words n) = (of_le n + 1) mod 2 ^ (32 * Z.of_nat words) /\
  length (bump_words words n) = length n /\ is_bytes (bump_words words n).
Proof.
  induction words as [|k IH]; intros n Hl Hb; cbn [bump_words].
  { destruct n; [|done]. done. }
  assert (Hl4 : length (take 4 n) = 4%nat) by (rewrite length_take; lia).
  pose proof (of_le_bound (take 4 n) (is_bytes_take _ _ Hb)) as Ht. rewrite Hl4 in Ht.
  pose proof (of_le_bound (drop 4 n) (is_bytes_drop _ _ Hb)) as Hd. rewrite length_drop, Hl in Hd.
  assert (Hn : of_le n = of_le (take 4 n) + 2 ^ 32 * of_le (drop 4 n)).
  { rewrite <- (take_drop 4 n) at 1. rewrite of_le_app, Hl4. done. }
  destruct (IH (drop 4 n)) as (E & El & Eb); [rewrite length_drop; lia | by apply is_bytes_drop |].
  unfold wrapping_add, w32. change (256 ^ Z.of_nat 4) with (2 ^ 32) in Ht.
  replace (256 ^ Z.of_nat (4 * S k - 4)) with (2 ^ (32 * Z.of_nat k)) in Hd.
  2:{ change 256 with (2 ^ 8). rewrite <- Z.pow_mul_r by lia. f_equal. lia. }
  replace (2 ^ (32 * Z.of_nat (S k))) with (2 ^ 32 * 2 ^ (32 * Z.of_nat k))
    by (rewrite <- Z.pow_add_r by lia; f_equal; lia).
  assert (0 < 2 ^ (32 * Z.of_nat k)) by (apply Z.pow_pos_nonneg; lia).
  rewrite of_le_app, of_le_u32 by (pose proof (Z.mod_pos_bound (of_le (take 4 n) + 1) (2 ^ 32)); unfold in_range; lia).
  rewrite length_app, length_u32. change (256 ^ Z.of_nat 4) with (2 ^ 32).
  destruct ((of_le (take 4 n) + 1) mod 2 ^ 32 =? 0) eqn:Ew; bools.
  - assert (Hfull : of_le (take 4 n) + 1 = 2 ^ 32).
    { destruct (decide (of_le (take 4 n) + 1 < 2 ^ 32)); [|lia]. rewrite Z.mod_small in Ew by lia. lia. }
    rewrite Ew, E. split; [|split].
    + replace (of_le n + 1) with (2 ^ 32 * (of_le (drop 4 n) + 1)) by lia.
      rewrite Zmult_mod_distr_l. lia.
    + rewrite El, length_drop. lia.
    + apply is_bytes_app. split; [apply le_bytes_is_bytes | done].
  - assert (Hlt : of_le (take 4 n) + 1 < 2 ^ 32).
    { destruct (decide (of_le (take 4 n) + 1 < 2 ^ 32)); [done|].
      replace (of_le (take 4 n) + 1) with (2 ^ 32) in Ew by lia. by rewrite Z.mod_same in Ew. }
    rewrite Z.mod_small by lia. split; [|split].
    + rewrite Z.mod_small by nia. lia.
    + rewrite length_drop. lia.
    + apply is_bytes_app. split; [apply le_bytes_is_bytes | by apply is_bytes_drop].
Qed.

Lemma bump_nonce_ok n : nonce_ok n -> nonce_ok (bump_nonce n).
Proof.
  intros [Hl Hb]. destruct (bump_words_spec 6 n Hl Hb) as (_ & E & F). split; [|exact F].
  unfold bump_nonce. by rewrite E.
Qed.

Lemma bump_nonce_value n : nonce_ok n -> of_le (bump_nonce n) = (of_le n + 1) mod 2 ^ 192.
Proof. intros [Hl Hb]. by destruct (bump_words_spec 6 n Hl Hb) as (E & _). Qed.

Lemma bump_iter i n : nonce_ok n ->
  nonce_ok (Nat.iter i bump_nonce n) /\
  of_le (Nat.iter i bump_nonce n) = (of_le n + Z.of_nat i) mod 2 ^ 192.
Proof.
  intros OK. induction i as [|i [IH1 IH2]].
  - cbn [Nat.iter]. split; [done|]. destruct OK as [Hl Hb]. pose proof (of_le_bound n Hb) as H.
    rewrite Hl in H. replace (256 ^ Z.of_nat NONCE) with (2 ^ 192) in H by done.
    change (Z.of_nat 0) with 0. by rewrite Z.add_0_r, Z.mod_small.
  - change (Nat.iter (S i) bump_nonce n) with (bump_nonce (Nat.iter i bump_nonce n)).
    split; [by apply bump_nonce_ok|]. rewrite bump_nonce_value, IH2 by done.
    rewrite Zplus_mod_idemp_l. f_equal. lia.
Qed.

(** * The two directions *)

Lemma length_nonce_words words : forall nk, length (nonce_words words nk) = words.
Proof. induction words as [|k IH]; intros nk; cbn; [done|]. by rewrite IH. Qed.

Lemma nonce_words_range words : forall nk, Forall (fun w => 0 <= w < 2 ^ 32) (nonce_words words nk).
Proof.
  induction words as [|k IH]; intros nk; cbn; constructor; [apply feedback_range | apply IH].
Qed.

Lemma concat_words_ok ws :
  Forall (fun w => 0 <= w < 2 ^ 32) ws ->
  length (concat (map u32_bytes ws)) = (4 * length ws)%nat /\ is_bytes (concat (map u32_bytes ws)).
Proof.
  induction 1 as [|w ws Hw _ [IH1 IH2]]; [by split; [|constructor]|]. cbn [map concat length].
  rewrite length_app, length_u32. split; [lia|]. apply is_bytes_app. split; [apply le_bytes_is_bytes | done].
Qed.

(** Flipping the bits of a mask moves a word by [2x - mask], [x] its bits under the mask. *)
Lemma lxor_mask a m : Z.lxor a m = a + m - 2 * Z.land a m.
Proof.
  assert (Hl : Z.land (Z.lxor a m) (Z.land a m) = 0).
  { apply Z.bits_inj'. intros i _. rewrite !Z.land_spec, Z.lxor_spec, Z.bits_0.
    by destruct (Z.testbit a i), (Z.testbit m i). }
  assert (Ho : Z.lor a m = Z.lxor a m + Z.land a m).
  { rewrite Z.add_nocarry_lxor by done. apply Z.bits_inj'. intros i _.
    rewrite Z.lor_spec, !Z.lxor_spec, Z.land_spec. by destruct (Z.testbit a i), (Z.testbit m i). }
  rewrite <- (Z.add_lor_land a m), Ho. lia.
Qed.

(** The bits of [m] bound a number made of some of them. *)
Lemma land_below y m : 0 <= m -> Z.land y m = y -> 0 <= y <= m.
Proof.
  intros H0 E. assert (0 <= y) by (rewrite <- E; apply Z.land_nonneg; by right).
  assert (Hb : forall i, Z.testbit y i = Z.testbit y i && Z.testbit m i).
  { intros i. by rewrite <- Z.land_spec, E. }
  assert (Hld : Z.ldiff m y + y = m).
  { rewrite Z.add_nocarry_lxor.
    - apply Z.bits_inj'. intros i _. rewrite Z.lxor_spec, Z.ldiff_spec. specialize (Hb i).
      by destruct (Z.testbit m i), (Z.testbit y i).
    - apply Z.bits_inj'. intros i _. rewrite Z.land_spec, Z.ldiff_spec, Z.bits_0.
      by destruct (Z.testbit m i), (Z.testbit y i). }
  assert (0 <= Z.ldiff m y) by (apply Z.ldiff_nonneg; by left). lia.
Qed.

Lemma mask_bits a : 0 <= a < 2 ^ 32 ->
  0 <= Z.land a NONCE_MASK <= 0x17575757 \/ 2 ^ 30 <= Z.land a NONCE_MASK <= NONCE_MASK.
Proof.
  intros Ha.
  assert (Hm : NONCE_MASK = 2 ^ 30 + 0x17575757) by done.
  set (x := Z.land a NONCE_MASK).
  assert (Hx : Z.land x NONCE_MASK = x) by (unfold x; rewrite <- Z.land_assoc; f_equal).
  destruct (Z.testbit x 30) eqn:E30.
  - right. split; [|apply land_below; [done | exact Hx]].
    assert (Hy : Z.land (2 ^ 30) x = 2 ^ 30).
    { apply Z.bits_inj'. intros i Hi. rewrite Z.land_spec. destruct (decide (i = 30)) as [->|Hne].
      - by rewrite E30.
      - by rewrite Z.pow2_bits_false by done. }
    destruct (land_below (2 ^ 30) x) as [_ H]; [|exact Hy | lia].
    unfold x. apply Z.land_nonneg. by right.
  - left. apply land_below; [done|]. apply Z.bits_inj'. intros i Hi. rewrite Z.land_spec.
    assert (Hxi : Z.testbit x i = Z.testbit x i && Z.testbit NONCE_MASK i).
    { rewrite <- Z.land_spec. by rewrite Hx. }
    destruct (decide (i = 30)) as [->|Hne]; [by rewrite E30|].
    rewrite Hxi. destruct (Z.testbit x i); [|done]. cbn [andb].
    assert (Hmi : Z.testbit NONCE_MASK i = Z.testbit 0x17575757 i); [|rewrite Hmi; apply andb_diag].
    rewrite Hm, Z.add_nocarry_lxor by done. rewrite Z.lxor_spec, Z.pow2_bits_false by done. apply xorb_false_l.
Qed.

(** How far apart flipping the mask puts a word from itself. *)
Lemma mask_distance a : 0 <= a < 2 ^ 32 ->
  0 <= Z.lxor a NONCE_MASK < 2 ^ 32 /\
  2 ^ 29 < Z.abs (a - Z.lxor a NONCE_MASK) /\ Z.abs (a - Z.lxor a NONCE_MASK) < 2 ^ 31.
Proof.
  intros Ha. split; [by apply lxor_range|]. rewrite lxor_mask.
  destruct (mask_bits a Ha); unfold NONCE_MASK in *; lia.
Qed.

(** The six words of a nonce as a number: its last word weighs 2^160. *)
Lemma of_le_words w0 w1 w2 w3 w4 w5 :
  Forall (fun w => 0 <= w < 2 ^ 32) [w0; w1; w2; w3; w4; w5] ->
  exists low, 0 <= low < 2 ^ 160 /\
    of_le (concat (map u32_bytes [w0; w1; w2; w3; w4; w5])) = low + 2 ^ 160 * w5.
Proof.
  intros HF. repeat (apply Forall_cons in HF as [? HF]).
  exists (w0 + 2 ^ 32 * (w1 + 2 ^ 32 * (w2 + 2 ^ 32 * (w3 + 2 ^ 32 * w4)))). split; [lia|].
  cbn [map concat]. rewrite app_nil_r, !of_le_app, !length_u32.
  change (256 ^ Z.of_nat 4) with (2 ^ 32).
  rewrite !of_le_u32 by (unfold in_range; lia). lia.
Qed.

Lemma session_nonces_words seed pk : exists w0 w1 w2 w3 w4 w5,
  Forall (fun w => 0 <= w < 2 ^ 32) [w0; w1; w2; w3; w4; w5] /\
  session_nonces seed pk = (concat (map u32_bytes [w0; w1; w2; w3; w4; w5]),
    concat (map u32_bytes (map (fun w => Z.lxor w NONCE_MASK) [w0; w1; w2; w3; w4; w5]))).
Proof.
  unfold session_nonces. set (nk := Z.lxor _ _).
  pose proof (nonce_words_range 6 nk) as HF. pose proof (length_nonce_words 6 nk) as Hl.
  destruct (nonce_words 6 nk) as [|w0 [|w1 [|w2 [|w3 [|w4 [|w5 [|? ?]]]]]]]; try discriminate Hl.
  exists w0, w1, w2, w3, w4, w5. split; [done|]. by rewrite map_map.
Qed.

Lemma masked_words_range ws :
  Forall (fun w => 0 <= w < 2 ^ 32) ws -> Forall (fun w => 0 <= w < 2 ^ 32) (map (fun w => Z.lxor w NONCE_MASK) ws).
Proof.
  induction 1 as [|w ws Hw _ IH]; cbn; constructor; [by apply mask_distance | done].
Qed.

Lemma session_nonces_ok seed pk : nonce_ok (session_nonces seed pk).1 /\ nonce_ok (session_nonces seed pk).2.
Proof.
  destruct (session_nonces_words seed pk) as (w0 & w1 & w2 & w3 & w4 & w5 & HF & ->). cbn [fst snd].
  destruct (concat_words_ok _ HF) as [H1 H2].
  destruct (concat_words_ok _ (masked_words_range _ HF)) as [H3 H4]. done.
Qed.

Lemma directions_apart seed pk i j :
  0 <= i < 2 ^ 188 -> 0 <= j < 2 ^ 188 ->
  (of_le (session_nonces seed pk).1 + i) mod 2 ^ 192 <> (of_le (session_nonces seed pk).2 + j) mod 2 ^ 192.
Proof.
  intros Hi Hj. destruct (session_nonces_words seed pk) as (w0 & w1 & w2 & w3 & w4 & w5 & HF & ->).
  cbn [fst snd]. destruct (of_le_words _ _ _ _ _ _ HF) as (lo & Hlo & ->).
  pose proof (masked_words_range _ HF) as HF'. cbn [map] in HF'.
  destruct (of_le_words _ _ _ _ _ _ HF') as (lo' & Hlo' & E). cbn [map] in *. rewrite E.
  do 5 (apply Forall_cons in HF as [_ HF]). apply Forall_cons in HF as [H5 _].
  destruct (mask_distance w5 H5) as (Hr & Hd1 & Hd2). set (v := Z.lxor w5 NONCE_MASK) in *.
  intros Heq. set (x := lo + 2 ^ 160 * w5 + i) in *. set (y := lo' + 2 ^ 160 * v + j) in *.
  assert (Hdiv : x - y = 2 ^ 192 * (x / 2 ^ 192 - y / 2 ^ 192)).
  { pose proof (Z.div_mod x (2 ^ 192)). pose proof (Z.div_mod y (2 ^ 192)). lia. }
  set (q := x / 2 ^ 192 - y / 2 ^ 192) in *.
  assert (Hxy : x - y = 2 ^ 160 * (w5 - v) + (lo - lo') + (i - j)) by (unfold x, y; lia).
  assert (- 2 ^ 192 < x - y < 2 ^ 192 /\ x - y <> 0) by lia.
  assert (q = 0 \/ q <= -1 \/ 1 <= q) by lia. lia.
Qed.

(** * Signatures and sealed boxes *)

(** What the NaCl libraries give: keys of an identity, detached signatures, sealed boxes.
    Sealing draws an ephemeral key, [Rand]. *)
Class Nacl (Identity Rand : Type) := {
  sign_pk : Identity -> list Z;
  box_pk : Identity -> list Z;
  sign : Identity -> list Z -> list Z;
  ed25519_verify : list Z -> list Z -> list Z -> bool;
  seal : Rand -> list Z -> list Z -> list Z;
  box_unseal : Identity -> list Z -> option (list Z)
}.

(** What the code relies on of them. *)
Class NaclLaws (Identity Rand : Type) `{Nacl Identity Rand} := {
  sign_pk_length : forall i, length (sign_pk i) = SIGN_PK;
  box_pk_length : forall i, length (box_pk i) = BOX_PK;
  sign_length : forall i m, length (sign i m) = SIG;
  verify_sign : forall i m, ed25519_verify (sign_pk i) m (sign i m) = true;
  unseal_seal : forall r i m, box_unseal i (seal r (box_pk i) m) = Some m
}.

Section Signed.
Context {Identity Rand : Type} `{NaclLaws Identity Rand}.

(** [Identity::unseal] and [seal_to]. *)
Definition unseal (i : Identity) (sealed : list Z) : result Error (list Z) :=
  ok_or Decrypt (box_unseal i sealed).
Definition seal_to (r : Rand) (remote_box_pk msg : list Z) : list Z := seal r remote_box_pk msg.

Definition verify (pk msg sig : list Z) : result Error () :=
  if ed25519_verify pk msg sig then Ok tt else Err Signature.

Definition verify_trailing (pk payload : list Z) : result Error (list Z) :=
  if (length payload <? SIG)%nat then Err Short else
  let n := (length payload - SIG)%nat in
  let msg := take n payload in
  _ ← verify pk msg (drop n payload);
  mret msg.

Lemma verify_trailing_signed i m : verify_trailing (sign_pk i) (m ++ sign i m) = Ok m.
Proof using H0.
  unfold verify_trailing. rewrite length_app, sign_length.
  rewrite (proj2 (Nat.ltb_ge _ _)) by lia.
  replace (length m + SIG - SIG)%nat with (length m) by lia.
  rewrite take_app_length, drop_app_length. unfold verify. by rewrite verify_sign.
Qed.

Lemma verify_trailing_inv pk payload m :
  verify_trailing pk payload = Ok m ->
  exists sig, payload = m ++ sig /\ length sig = SIG /\ ed25519_verify pk m sig = true.
Proof using Type.
  unfold verify_trailing. destr_if; [done|]. apply Nat.ltb_ge in Hif. unfold verify. destr_if; [|done].
  intros [= <-]. eexists. split; [symmetry; apply take_drop|]. split; [rewrite length_drop; lia | done].
Qed.
End Signed.

Lemma counter_apart a i j : i <> j -> 0 <= i < 2 ^ 192 -> 0 <= j < 2 ^ 192 ->
  (a + i) mod 2 ^ 192 <> (a + j) mod 2 ^ 192.
Proof.
  intros Hne Hi Hj Heq.
  pose proof (Z.div_mod (a + i) (2 ^ 192)). pose proof (Z.div_mod (a + j) (2 ^ 192)).
  set (q := (a + i) / 2 ^ 192) in *. set (q' := (a + j) / 2 ^ 192) in *.
  assert (i - j = 2 ^ 192 * (q - q')) by lia. assert (q - q' = 0 \/ q - q' <= -1 \/ 1 <= q - q') by lia. lia.
Qed.
