(* ===== verification/Coinbaser.v ===== *)
(** The coinbaser v2 split encoding ([prime/wire/src/coinbaser.rs]). *)

From S2P Require Import Prelude Bytes Cursor.
Open Scope Z_scope.

Definition MAX_OUTPUTS : nat := 512.
Definition MAX_SCRIPT : Z := 64.
Definition MIN_SCRIPT : Z := 2.

Record Output := { sats : Z; script : list Z }.

#[export] Instance Output_eq_dec : EqDecision Output.
Proof. solve_decision. Defined.

(** [Output::serialized_len]. *)
Definition serialized_len (o : Output) : Z := 8 + 1 + Z.of_nat (length (script o)).

(** The loop body of [encode_v2]. *)
Definition encode_output (o : Output) : list Z :=
  u64_bytes (sats o) ++ [trunc u8_max (Z.of_nat (length (script o)))] ++ script o.

Definition encode_v2 (id : Z) (outputs : list Output) : list Z :=
  id :: concat (map encode_output (take MAX_OUTPUTS outputs)).

(** The loop body of [decode_v2], up to the push. *)
Definition decode_output : Parser Output :=
  s ← p_u64;
  n ← p_u8;
  if negb ((MIN_SCRIPT <=? n) && (n <=? MAX_SCRIPT))
  then perr (Malformed "coinbaser script length"%string) else
  sc ← take_bytes (Z.to_nat n);
  mret {| sats := s; script := sc |}.

(** The loop of [decode_v2]. Each round reads at least nine bytes, so as many rounds as there are
    bytes are enough: [decode_loop_fuel]. *)
Fixpoint decode_loop (fuel : nat) (out : list Output) (l : list Z) : result Error (list Output) :=
  if (remaining l =? 0)%nat then Ok out else
  match fuel with
  | O => Err (Malformed "out of fuel"%string)
  | S k =>
      '(o, l') ← decode_output l;
      let out' := out ++ [o] in
      if (MAX_OUTPUTS <? length out')%nat then Err (Malformed "coinbaser output count"%string)
      else decode_loop k out' l'
  end.

Definition decode_v2 (l : list Z) : result Error (Z * list Output) :=
  '(id, l') ← p_u8 l;
  out ← decode_loop (length l') [] l';
  mret (id, out).

(** * Lemmas *)

(** What an output can be on the wire. *)
Definition output_ok (o : Output) : Prop :=
  in_range u64_max (sats o) /\ is_bytes (script o) /\ MIN_SCRIPT <= Z.of_nat (length (script o)) <= MAX_SCRIPT.

#[export] Instance output_ok_dec o : Decision (output_ok o).
Proof. unfold output_ok, in_range, is_bytes. apply _. Defined.

Lemma length_encode_output o : Z.of_nat (length (encode_output o)) = serialized_len o.
Proof. unfold encode_output, serialized_len. rewrite !length_app, length_u64. cbn [length]. lia. Qed.

Lemma parses_output o : output_ok o -> parses decode_output (encode_output o) o.
Proof.
  intros (Hs & Hb & Hl). unfold decode_output, encode_output, MIN_SCRIPT, MAX_SCRIPT in *.
  unfold trunc. rewrite Z.mod_small by lia. pread.
  eapply parses_bind; [apply parses_u8; unfold is_byte, in_range; lia | cbv beta].
  unfold MIN_SCRIPT, MAX_SCRIPT. rewrite !(proj2 (Z.leb_le _ _)) by lia. cbn [andb negb].
  eapply parses_map; [apply parses_take; lia|]. by destruct o.
Qed.

Lemma decode_output_inv l o l' :
  is_bytes l -> decode_output l = Ok (o, l') -> l = encode_output o ++ l' /\ output_ok o /\ is_bytes l'.
Proof.
  intros Hb (s & l1 & Hs & H)%p_bind_inv. apply p_int_inv in Hs as (bs & -> & Hl & ->).
  apply is_bytes_app in Hb as [Hbs Hb]. apply p_bind_inv in H as (n & l2 & Hn & H).
  apply p_u8_inv in Hn as ->. apply is_bytes_cons in Hb as [Hn Hb]. destr_if_in H; [done|]. bools.
  apply p_bind_inv in H as (sc & l3 & Ht & [= <- <-]). apply take_bytes_inv in Ht as [-> Hlen].
  apply is_bytes_app in Hb as [Hsc Hb]. unfold is_byte, in_range in Hn.
  pose proof (of_le_bound bs Hbs) as Hv. rewrite Hl in Hv.
  unfold encode_output, output_ok. cbn [sats script].
  rewrite Hlen, Z2Nat.id, (le_bytes_of_le' 8) by (done || lia).
  unfold trunc. rewrite Z.mod_small by lia. conjs; [by rewrite <- !app_assoc | | done | lia | lia | done].
  unfold in_range. lia.
Qed.

Lemma decode_loop_ok outs : forall fuel acc,
  Forall output_ok outs -> (length acc + length outs <= MAX_OUTPUTS)%nat ->
  (length (concat (map encode_output outs)) <= fuel)%nat ->
  decode_loop fuel acc (concat (map encode_output outs)) = Ok (acc ++ outs).
Proof.
  induction outs as [|o outs IH]; intros fuel acc HF Hn Hf.
  { destruct fuel; cbn; by rewrite app_nil_r. }
  apply Forall_cons in HF as [Ho HF]. cbn [map concat] in *. rewrite length_app in Hf.
  pose proof (length_encode_output o) as Hlo. unfold serialized_len in Hlo.
  destruct fuel as [|fuel]; [lia|]. cbn [decode_loop]. unfold remaining. rewrite length_app.
  rewrite (proj2 (Nat.eqb_neq _ _)) by lia. rewrite parses_output by done. mstep.
  rewrite length_app. cbn [length] in *. rewrite (proj2 (Nat.ltb_ge _ _)) by lia.
  rewrite IH; [by rewrite <- app_assoc | done | rewrite length_app; cbn; lia | lia].
Qed.

Lemma decode_loop_inv fuel : forall acc l outs,
  is_bytes l -> decode_loop fuel acc l = Ok outs ->
  exists new, outs = acc ++ new /\ l = concat (map encode_output new) /\ Forall output_ok new /\
    (new <> [] -> length outs <= MAX_OUTPUTS)%nat.
Proof.
  induction fuel as [|fuel IH]; intros acc l outs Hb H; cbn [decode_loop] in H; unfold remaining in H.
  - destruct (length l =? 0)%nat eqn:E; [|done]. injection H as <-. apply Nat.eqb_eq, nil_length_inv in E as ->.
    exists []. by rewrite app_nil_r.
  - destruct (length l =? 0)%nat eqn:E.
    { injection H as <-. apply Nat.eqb_eq, nil_length_inv in E as ->. exists []. by rewrite app_nil_r. }
    apply bind_Ok_inv in H as ([o l'] & Ho & H). apply decode_output_inv in Ho as (-> & Ho & Hb'); [|done].
    destr_if_in H; [done|]. apply Nat.ltb_ge in Hif.
    destruct (IH _ _ _ Hb' H) as (new & -> & -> & HF & Hn). exists (o :: new).
    rewrite <- app_assoc. conjs; [done | done | by constructor |]. intros _.
    destruct new as [|o' new]; [by rewrite app_nil_r in *|]. rewrite <- app_assoc in Hn. by apply Hn.
Qed.

Lemma decode_output_advances : advances 9 decode_output.
Proof.
  unfold decode_output. intros l o l' H. apply p_bind_inv in H as (s & l1 & Hs & H).
  apply advances_u64 in Hs. apply p_bind_inv in H as (n & l2 & Hn & H). apply advances_u8 in Hn.
  assert (Hrest : advances 0 (if negb ((MIN_SCRIPT <=? n) && (n <=? MAX_SCRIPT))
    then perr (Malformed "coinbaser script length"%string)
    else sc ← take_bytes (Z.to_nat n); mret {| sats := s; script := sc |})) by advances_walk.
  apply Hrest in H. lia.
Qed.

Lemma decode_output_never : never (Malformed "out of fuel"%string) decode_output.
Proof. unfold decode_output, p_u64, p_u8. never_walk. Qed.

(** The source's loop has no fuel; with as many rounds as bytes it never runs out. *)
Lemma decode_loop_fuel fuel : forall acc l,
  (length l <= fuel)%nat -> decode_loop fuel acc l <> Err (Malformed "out of fuel"%string).
Proof.
  induction fuel as [|fuel IH]; intros acc l Hl; cbn [decode_loop]; unfold remaining.
  - by rewrite (proj2 (Nat.eqb_eq _ _)) by lia.
  - destr_if; [done|]. destruct (decode_output l) as [[o l']|e] eqn:E; mstep.
    + destr_if; [done|]. apply IH. apply decode_output_advances in E. lia.
    + intros [= ->]. by apply decode_output_never in E.
Qed.

Lemma decode_v2_total l : decode_v2 l <> Err (Malformed "out of fuel"%string).
Proof.
  unfold decode_v2. destruct (p_u8 l) as [[id l']|e] eqn:E; mstep.
  - pose proof (decode_loop_fuel (length l') [] l' (Nat.le_refl _)). destruct (decode_loop _ _ _); mstep; [discriminate|]. by intros [= ->].
  - intros [= ->]. by apply (never_int (Malformed "out of fuel"%string) 1) in E.
Qed.

Lemma decode_encode_v2 id outs :
  is_byte id -> Forall output_ok outs -> (length outs <= MAX_OUTPUTS)%nat ->
  decode_v2 (encode_v2 id outs) = Ok (id, outs).
Proof.
  intros Hid HF Hl. unfold decode_v2, encode_v2. rewrite take_ge by done.
  change (id :: ?x) with ([id] ++ x). rewrite parses_u8 by done. mstep.
  by rewrite decode_loop_ok.
Qed.

Lemma decode_v2_inv l id outs :
  is_bytes l -> decode_v2 l = Ok (id, outs) ->
  l = encode_v2 id outs /\ is_byte id /\ Forall output_ok outs /\ (length outs <= MAX_OUTPUTS)%nat.
Proof.
  intros Hb H. unfold decode_v2 in H. apply bind_Ok_inv in H as ([i l'] & Hi & H).
  apply p_u8_inv in Hi as ->. apply is_bytes_cons in Hb as [Hi Hb].
  apply bind_Ok_inv in H as (o & Ho & [= <- <-]).
  apply decode_loop_inv in Ho as (new & -> & -> & HF & Hn); [|done]. cbn [app] in *.
  assert (Hl : (length new <= MAX_OUTPUTS)%nat) by (destruct new; [cbn; lia | by apply Hn]).
  unfold encode_v2. by rewrite take_ge.
Qed.
