(* ===== verification/Handshake.v ===== *)
(** The two-message handshake ([prime/wire/src/handshake.rs]).

    Keys, signatures and sealed boxes come through the interface [Nacl] of [Crypto]. *)

From S2P Require Import Prelude Bytes Cursor Crypto.
Open Scope Z_scope.

Definition MAX_USER_AGENT : nat := 512.
Definition MAX_MOTD : nat := 511.
Definition RESUME_TOKEN : nat := 40.
(** ["DRS\x01"]. *)
Definition RESUME_MARKER : list Z := [68; 82; 83; 1].

Inductive Generation := Ocean | Convoy.

Record ClientHello := {
  identity_sign_pk : list Z;
  identity_box_pk : list Z;
  session_sign_pk : list Z;
  session_box_pk : list Z;
  user_agent : list Z;
  seed : Z;
  generation : Generation;
  resume_token : option (list Z)
}.

(** * User agents *)

Definition to_ascii_lowercase (l : list Z) : list Z :=
  map (fun b => if between 65 90 b then b + 32 else b) l.

Definition starts_with (p l : list Z) : bool := bool_decide (take (length p) l = p).

Fixpoint contains (p l : list Z) : bool :=
  starts_with p l || match l with [] => false | _ :: l' => contains p l' end.

Definition is_split_gateway (ua : list Z) : bool :=
  let u := to_ascii_lowercase ua in
  starts_with (str_bytes "lazarus-gateway") u || contains (str_bytes "lazarus-split") u.

(** * Building and parsing *)

Definition convoy_hello_extension (token : option (list Z)) : list Z :=
  RESUME_MARKER ++ match token with Some t => 1 :: t | None => [0] end.

(** What follows the seed: the Convoy marker, a flag and the token it announces, or padding. *)
Definition hello_pad : Parser (Generation * option (list Z)) := fun l =>
  if (5 <=? remaining l)%nat && bool_decide (take 4 l = RESUME_MARKER) then
    (_ ← take_bytes 4;
     flag ← p_u8;
     if flag =? 1 then t ← p_array RESUME_TOKEN; mret (Convoy, Some t) else mret (Convoy, None)) l
  else Ok ((Ocean, None), l).

(** The reads after the identity signing key. *)
Definition hello_body (sign_key : list Z) : Parser ClientHello :=
  _ ← take_bytes 32;
  ibox ← p_array 32;
  ssign ← p_array 32;
  sbox ← p_array 32;
  ua ← p_cstr MAX_USER_AGENT;
  sep ← p_u8;
  if negb (sep =? 0xFE) then perr (Malformed "hello separator"%string) else
  sd ← p_u32;
  '(gen, token) ← hello_pad;
  mret {| identity_sign_pk := sign_key; identity_box_pk := ibox; session_sign_pk := ssign;
          session_box_pk := sbox; user_agent := utf8_lossy ua; seed := sd; generation := gen;
          resume_token := token |}.

Section Handshake.
Context {Identity Rand : Type} `{NaclLaws Identity Rand}.

Definition parse_client_hello (pool : Identity) (sealed : list Z) : result Error ClientHello :=
  plain ← unseal pool sealed;
  if (length plain <? 4 * 32 + SIG)%nat then Err Short else
  let sign_key := take 32 plain in
  body ← verify_trailing sign_key plain;
  '(h, _) ← hello_body sign_key body;
  mret h.

(** What [build_server_hello] signs. *)
Definition server_hello_message (session : Identity) (hello : ClientHello) (motd : list Z) : list Z :=
  (identity_sign_pk hello ++ identity_box_pk hello ++ session_sign_pk hello ++ session_box_pk hello)
  ++ sign_pk session ++ box_pk session
  ++ (take (Nat.min (length motd) MAX_MOTD) motd ++ [0]).

Definition build_server_hello (r : Rand) (pool session : Identity) (hello : ClientHello) (motd : list Z) : list Z :=
  let m := server_hello_message session hello motd in
  seal_to r (session_box_pk hello) (m ++ sign pool m).

(** What [build_client_hello] signs. *)
Definition client_hello_message (identity session : Identity) (ua : list Z) (sd : Z) (pad : list Z) : list Z :=
  sign_pk identity ++ box_pk identity ++ sign_pk session ++ box_pk session
  ++ (ua ++ [0]) ++ [0xFE] ++ u32_bytes sd ++ pad.

Definition build_client_hello (r : Rand) (pool_box_pk : list Z) (identity session : Identity)
    (ua : list Z) (sd : Z) (pad : list Z) : list Z :=
  let m := client_hello_message identity session ua sd pad in
  seal_to r pool_box_pk (m ++ sign identity m).

(** The reads of [parse_server_hello]. *)
Definition server_hello_body : Parser (list Z * list Z * list Z) :=
  _ ← take_bytes 128;
  ssk ← p_array 32;
  sbk ← p_array 32;
  motd ← p_cstr MAX_MOTD;
  mret (ssk, sbk, utf8_lossy motd).

Definition parse_server_hello (pool_sign_pk : list Z) (session : Identity) (sealed : list Z)
    : result Error (list Z * list Z * list Z) :=
  plain ← unseal session sealed;
  body ← verify_trailing pool_sign_pk plain;
  '(r, _) ← server_hello_body body;
  mret r.

(** * Lemmas *)

(** What the pad after the seed says. *)
Definition pad_says (pad : list Z) : result Error (Generation * option (list Z)) :=
  if (5 <=? length pad)%nat && bool_decide (take 4 pad = RESUME_MARKER) then
    if nth 4 pad 0 =? 1 then
      if (45 <=? length pad)%nat then Ok (Convoy, Some (take RESUME_TOKEN (drop 5 pad))) else Err Short
    else Ok (Convoy, None)
  else Ok (Ocean, None).

Lemma hello_body_message identity session ua sd pad gen token :
  Forall (fun b => b <> 0) ua -> (length ua <= MAX_USER_AGENT)%nat -> in_range u32_max sd ->
  pad_says pad = Ok (gen, token) ->
  exists l', hello_body (sign_pk identity) (client_hello_message identity session ua sd pad) =
    Ok ({| identity_sign_pk := sign_pk identity; identity_box_pk := box_pk identity;
           session_sign_pk := sign_pk session; session_box_pk := box_pk session;
           user_agent := utf8_lossy ua; seed := sd; generation := gen; resume_token := token |}, l').
Proof using H0.
  intros Hua Hl Hsd Hpad. unfold hello_body, client_hello_message. unfold mbind at 1, parser_bind at 1.
  rewrite (parses_take (sign_pk identity) 32) by apply sign_pk_length.
  unfold mbind at 1, parser_bind at 1. rewrite (parses_array (box_pk identity) 32) by apply box_pk_length.
  unfold mbind at 1, parser_bind at 1. rewrite (parses_array (sign_pk session) 32) by apply sign_pk_length.
  unfold mbind at 1, parser_bind at 1. rewrite (parses_array (box_pk session) 32) by apply box_pk_length.
  unfold mbind at 1, parser_bind at 1. rewrite parses_cstr by done.
  unfold mbind at 1, parser_bind at 1. rewrite (parses_u8 0xFE) by done. change (negb (0xFE =? 0xFE)) with false. cbv iota.
  unfold mbind at 1, parser_bind at 1. rewrite parses_u32 by done.
  unfold mbind at 1, parser_bind at 1. unfold hello_pad, remaining. unfold pad_says in Hpad.
  destruct ((5 <=? length pad)%nat && bool_decide (take 4 pad = RESUME_MARKER)) eqn:E.
  2:{ injection Hpad as <- <-. by eexists. }
  apply andb_true_iff in E as [El _]. apply Nat.leb_le in El.
  unfold mbind at 1, parser_bind at 1. unfold take_bytes at 1. rewrite (proj2 (Nat.ltb_ge _ _)) by lia.
  destruct pad as [|p0 [|p1 [|p2 [|p3 [|p4 pad]]]]]; cbn [length] in El; try lia.
  cbn [take drop nth length] in *.
  unfold mbind at 1, parser_bind at 1.
  assert (Hp4 : p_u8 (p4 :: pad) = Ok (p4, pad)).
  { unfold p_u8, p_int, mbind, parser_bind, take_bytes. cbn. by rewrite Z.add_0_r. }
  rewrite Hp4. destruct (p4 =? 1); [|injection Hpad as <- <-; by eexists].
  destruct ((45 <=? S (S (S (S (S (length pad))))))%nat) eqn:E45; [|done]. apply Nat.leb_le in E45.
  injection Hpad as <- <-. unfold p_array, take_bytes at 1. unfold mbind at 1, parser_bind at 1.
  rewrite (proj2 (Nat.ltb_ge _ _)) by (unfold RESUME_TOKEN; lia). by eexists.
Qed.

Lemma length_client_hello_message identity session ua sd pad :
  (128 <= length (client_hello_message identity session ua sd pad))%nat.
Proof using H0.
  unfold client_hello_message. rewrite !length_app, !sign_pk_length, !box_pk_length. unfold SIGN_PK, BOX_PK. lia.
Qed.

Lemma parse_built_hello r pool identity session ua sd pad gen token :
  Forall (fun b => b <> 0) ua -> (length ua <= MAX_USER_AGENT)%nat -> in_range u32_max sd ->
  pad_says pad = Ok (gen, token) ->
  parse_client_hello pool (build_client_hello r (box_pk pool) identity session ua sd pad) =
    Ok {| identity_sign_pk := sign_pk identity; identity_box_pk := box_pk identity;
          session_sign_pk := sign_pk session; session_box_pk := box_pk session;
          user_agent := utf8_lossy ua; seed := sd; generation := gen; resume_token := token |}.
Proof using H0.
  intros Hua Hl Hsd Hpad. unfold parse_client_hello, build_client_hello, unseal, seal_to.
  rewrite unseal_seal. cbn [ok_or]. mstep.
  pose proof (length_client_hello_message identity session ua sd pad) as Hlen.
  set (m := client_hello_message identity session ua sd pad) in *.
  rewrite length_app, sign_length. rewrite (proj2 (Nat.ltb_ge _ _)) by lia.
  assert (Hk : take 32 (m ++ sign identity m) = sign_pk identity).
  { unfold m, client_hello_message. rewrite <- app_assoc. apply take_app_length'. by rewrite sign_pk_length. }
  rewrite Hk, verify_trailing_signed. mstep.
  destruct (hello_body_message identity session ua sd pad gen token) as [l' E]; [done..|].
  fold m in E. by rewrite E.
Qed.

Lemma pad_convoy token more :
  (forall t, token = Some t -> length t = RESUME_TOKEN) ->
  pad_says (convoy_hello_extension token ++ more) = Ok (Convoy, token).
Proof using Type.
  intros Ht. destruct token as [t|].
  - specialize (Ht t eq_refl). unfold pad_says.
    change (convoy_hello_extension (Some t) ++ more) with (68 :: 82 :: 83 :: 1 :: 1 :: t ++ more).
    change (_ && bool_decide _) with true. cbv iota. change (nth 4 _ 0 =? 1) with true. cbv iota.
    change (drop 5 _) with (t ++ more). rewrite take_app_length' by done.
    rewrite (proj2 (Nat.leb_le _ _)); [done|]. cbn [length]. rewrite length_app, Ht. unfold RESUME_TOKEN. lia.
  - done.
Qed.

Lemma pad_ocean pad : take 4 pad <> RESUME_MARKER -> pad_says pad = Ok (Ocean, None).
Proof using Type. intros Hp. unfold pad_says. rewrite (bool_decide_eq_false_2 _ Hp). by rewrite andb_false_r. Qed.

(** Every field of a hello that was accepted is under a signature of the key it names. *)
Lemma parse_client_hello_inv pool sealed h :
  is_bytes (match box_unseal pool sealed with Some p => p | None => [] end) ->
  parse_client_hello pool sealed = Ok h ->
  exists ua pad sig,
    let m := identity_sign_pk h ++ identity_box_pk h ++ session_sign_pk h ++ session_box_pk h
             ++ (ua ++ [0]) ++ [0xFE] ++ u32_bytes (seed h) ++ pad in
    box_unseal pool sealed = Some (m ++ sig) /\ length sig = SIG /\
    ed25519_verify (identity_sign_pk h) m sig = true /\
    user_agent h = utf8_lossy ua /\ pad_says pad = Ok (generation h, resume_token h).
Proof using Type.
  intros Hby Hp. unfold parse_client_hello in Hp. apply bind_Ok_inv in Hp as (plain & Hu & Hp).
  unfold unseal, ok_or in Hu. destruct (box_unseal pool sealed) as [p|]; [|done]. injection Hu as ->.
  destr_if_in Hp; [done|]. apply Nat.ltb_ge in Hif.
  apply bind_Ok_inv in Hp as (body & Hv & Hp). apply verify_trailing_inv in Hv as (sig & -> & Hsig & Hver).
  apply is_bytes_app in Hby as [Hby _]. rewrite length_app, Hsig in Hif.
  assert (Hlen : (32 <= length body)%nat) by (unfold SIG in Hif; lia).
  rewrite take_app_le in * by lia. set (k := take 32 body) in *.
  apply bind_Ok_inv in Hp as ([h' l'] & Hp & [= ->]). unfold hello_body in Hp.
  apply p_bind_inv in Hp as (k' & l1 & H1 & Hp). apply take_bytes_inv in H1 as [Eb Hk'].
  assert (k = k') as <- by (unfold k; rewrite Eb; by apply take_app_length').
  apply p_bind_inv in Hp as (ib & l2 & H2 & Hp). apply take_bytes_inv in H2 as [-> _].
  apply p_bind_inv in Hp as (ss & l3 & H3 & Hp). apply take_bytes_inv in H3 as [-> _].
  apply p_bind_inv in Hp as (sb & l4 & H4 & Hp). apply take_bytes_inv in H4 as [-> _].
  apply p_bind_inv in Hp as (ua & l5 & H5 & Hp). apply p_cstr_inv in H5 as ->.
  apply p_bind_inv in Hp as (sep & l6 & H6 & Hp). apply p_u8_inv in H6 as ->.
  destr_if_in Hp; [done|]. bools. subst sep.
  apply p_bind_inv in Hp as (sd & l7 & H7 & Hp). apply p_int_inv in H7 as (sbs & -> & Hsl & ->).
  apply p_bind_inv in Hp as ([gen token] & l8 & H8 & [= <- <-]).
  exists ua, l7, sig. cbn [identity_sign_pk identity_box_pk session_sign_pk session_box_pk seed user_agent generation resume_token].
  assert (Hsb : u32_bytes (of_le sbs) = sbs).
  { apply le_bytes_of_le'; [|done]. rewrite Eb in Hby. rewrite !is_bytes_app in Hby.
    rewrite !is_bytes_cons, is_bytes_app in Hby. tauto. }
  rewrite Hsb. cbv zeta. change ([0xFE] ++ sbs ++ l7) with (254 :: sbs ++ l7). rewrite <- Eb.
  conjs; [done | done | exact Hver | done |].
  clear - H8. unfold hello_pad, remaining in H8. unfold pad_says. destr_if; [|by injection H8 as <- <- <-].
  apply p_bind_inv in H8 as (mk & l9 & H9 & H8). apply take_bytes_inv in H9 as [-> Hm].
  apply p_bind_inv in H8 as (fl & l10 & H10 & H8). apply p_u8_inv in H10 as ->.
  rewrite app_nth2, Hm by lia. cbn [nth Nat.sub]. destr_if_in H8.
  - apply p_bind_inv in H8 as (t & l11 & H11 & [= <- <- <-]). apply take_bytes_inv in H11 as [-> Ht].
    rewrite length_app. cbn [length]. rewrite length_app, Hm, Ht. unfold RESUME_TOKEN in *.
    rewrite (proj2 (Nat.leb_le _ _)) by lia. do 3 f_equal.
    rewrite drop_app_ge, Hm by lia. change (drop (5 - 4) (fl :: t ++ l11)) with (drop 0 (t ++ l11)).
    rewrite drop_0. by apply take_app_length'.
  - by injection H8 as <- <- <-.
Qed.

Lemma parse_built_reply r pool session client hello motd :
  length (identity_sign_pk hello) = 32%nat -> length (identity_box_pk hello) = 32%nat ->
  length (session_sign_pk hello) = 32%nat -> session_box_pk hello = box_pk client ->
  Forall (fun b => b <> 0) motd ->
  parse_server_hello (sign_pk pool) client (build_server_hello r pool session hello motd) =
    Ok (sign_pk session, box_pk session, utf8_lossy (take MAX_MOTD motd)).
Proof using H0.
  intros H1 H2 H3 H4 Hm. unfold parse_server_hello, build_server_hello, unseal, seal_to.
  rewrite H4, unseal_seal. cbn [ok_or]. mstep. rewrite verify_trailing_signed. mstep.
  assert (E : parses server_hello_body (server_hello_message session hello motd)
    (sign_pk session, box_pk session, utf8_lossy (take MAX_MOTD motd))).
  { unfold server_hello_body, server_hello_message.
    eapply parses_bind; [apply parses_take; rewrite !length_app, H1, H2, H3, H4, box_pk_length; done | cbv beta].
    eapply parses_bind; [apply parses_array, sign_pk_length | cbv beta].
    eapply parses_bind; [apply parses_array, box_pk_length | cbv beta].
    eapply parses_map; [apply parses_cstr|].
    - by apply Forall_take.
    - rewrite length_take. lia.
    - do 2 f_equal. destruct (decide (length motd <= MAX_MOTD)%nat).
      + rewrite Nat.min_l by done. by rewrite !take_ge by lia.
      + by rewrite Nat.min_r by lia. }
  specialize (E []). rewrite app_nil_r in E. by rewrite E.
Qed.
End Handshake.
