(* ===== verification/Mining.v ===== *)
(** The mining sub-commands, command 5 in both directions ([prime/wire/src/mining.rs]).

    A [&str] is the list of its UTF-8 bytes. *)

From S2P Require Import Prelude Bytes Cursor.
From S2P Require Import Frame.
Open Scope Z_scope.

Definition SUB_COINBASER_REQUEST : Z := 0x10.
Definition SUB_COINBASER_REPLY : Z := 0x11.
Definition SUB_POW : Z := 0x27.
Definition SUB_JOB_VALIDATION : Z := 0x50.
Definition SUB_SHARE_RECEIPT : Z := 0x8F.
Definition SUB_CONFIGURE : Z := 0x99.
Definition SUB_BLOCK_NOTIFY : Z := 0xF9.

Definition END : Z := 0xFE.
Definition MAX_USERNAME : nat := 384.
Definition EXTRANONCE_LEN : nat := 12.
Definition MAX_JOB_SLOTS : nat := 256.

Definition FLAG_BLOCK : Z := 0x01.
Definition FLAG_SUBSIDY_ONLY : Z := 0x02.
Definition FLAG_QUICKDIFF : Z := 0x04.
Definition FLAG_BLAKE2B : Z := 0x08.
Definition RESERVED_USE_TIME_OFFSET : Z := 0x01.
Definition POW_ALGO_BLAKE2B : Z := 1.

Definition ACCEPTED : Z := 0x50.
Definition ACCEPTED_TENTATIVELY : Z := 0x55.
Definition REJECTED : Z := 0x66.

Definition REJECT_BAD_JOB_ID : Z := 10.
Definition REJECT_BAD_COINBASE_ID : Z := 11.
Definition REJECT_BAD_EXTRANONCE_SIZE : Z := 12.
Definition REJECT_BAD_TARGET : Z := 13.
Definition REJECT_BAD_USERNAME : Z := 14.
Definition REJECT_BAD_COINBASER_ID : Z := 15.
Definition REJECT_BAD_MERKLE_COUNT : Z := 16.
Definition REJECT_COINBASE_TOO_LARGE : Z := 17.
Definition REJECT_COINBASE_MISSING : Z := 18.
Definition REJECT_TARGET_MISMATCH : Z := 19.
Definition REJECT_H_NOT_ZERO : Z := 20.
Definition REJECT_HIGH_HASH : Z := 21.
Definition REJECT_COINBASE_ID_MISMATCH : Z := 22.
Definition REJECT_BAD_NTIME : Z := 23.
Definition REJECT_BAD_VERSION : Z := 24.
Definition REJECT_STALE_BLOCK : Z := 25.
Definition REJECT_BAD_COINBASE : Z := 26.
Definition REJECT_BAD_COINBASE_OUTPUTS : Z := 27.
Definition REJECT_MISSING_POOL_TAG : Z := 28.
Definition REJECT_DUPLICATE_WORK : Z := 29.
Definition REJECT_OTHER : Z := 30.

Definition reject_name (code : Z) : string :=
  if code =? REJECT_BAD_JOB_ID then "bad-job-id"
  else if code =? REJECT_BAD_COINBASE_ID then "bad-coinbase-id"
  else if code =? REJECT_BAD_EXTRANONCE_SIZE then "bad-extranonce-size"
  else if code =? REJECT_BAD_TARGET then "bad-target"
  else if code =? REJECT_BAD_USERNAME then "bad-username"
  else if code =? REJECT_BAD_COINBASER_ID then "bad-coinbaser-id"
  else if code =? REJECT_BAD_MERKLE_COUNT then "bad-merkle-count"
  else if code =? REJECT_COINBASE_TOO_LARGE then "coinbase-too-large"
  else if code =? REJECT_COINBASE_MISSING then "coinbase-missing"
  else if code =? REJECT_TARGET_MISMATCH then "target-mismatch"
  else if code =? REJECT_H_NOT_ZERO then "h-not-zero"
  else if code =? REJECT_HIGH_HASH then "high-hash"
  else if code =? REJECT_COINBASE_ID_MISMATCH then "coinbase-id-mismatch"
  else if code =? REJECT_BAD_NTIME then "bad-ntime"
  else if code =? REJECT_BAD_VERSION then "bad-version"
  else if code =? REJECT_STALE_BLOCK then "stale"
  else if code =? REJECT_BAD_COINBASE then "bad-coinbase"
  else if code =? REJECT_BAD_COINBASE_OUTPUTS then "bad-coinbase-outputs"
  else if code =? REJECT_MISSING_POOL_TAG then "missing-pool-tag"
  else if code =? REJECT_DUPLICATE_WORK then "duplicate"
  else "other".

(** * Client to server *)

Record CoinbaserRequest := { cr_value : Z; cr_prev_hash : list Z }.

Record JobSection := {
  j_prev_hash : list Z;
  target_byte_index : Z;
  nbits : list Z;
  coinbaser_id : Z;
  height : Z;
  coinbase_value : Z;
  txn_count : Z;
  txn_total_weight : Z;
  txn_total_size : Z;
  txn_total_sigops : Z;
  merkle_branches : list (list Z)
}.

(** [JobSection::nbits_u32]. *)
Definition nbits_u32 (j : JobSection) : Z := of_le (nbits j).

Record CoinbaseSection := { cb_id : Z; coinb1 : list Z; coinb2 : list Z }.

Record Blake2bSection := { b_ntime : list Z; b_nonce : list Z }.

Record PowSubmit := {
  job_id : Z;
  coinbase_id : Z;
  flags : Z;
  target_pot : Z;
  ntime32 : Z;
  nonce32 : Z;
  version : Z;
  extranonce : list Z;
  username : list Z;
  reserved : list Z;
  blake2b : option Blake2bSection;
  time_on_wire : option Z;
  job : option JobSection;
  coinbase : option CoinbaseSection
}.

Definition flag_set (flags f : Z) : bool := negb (Z.land flags f =? 0).

(** The methods of [PowSubmit]. *)
Definition is_block (s : PowSubmit) : bool := flag_set (flags s) FLAG_BLOCK.
Definition subsidy_only (s : PowSubmit) : bool := flag_set (flags s) FLAG_SUBSIDY_ONLY.
Definition quickdiff (s : PowSubmit) : bool := flag_set (flags s) FLAG_QUICKDIFF.
Definition is_blake2b (s : PowSubmit) : bool :=
  flag_set (flags s) FLAG_BLAKE2B || bool_decide (is_Some (blake2b s)).
Definition use_time_offset (s : PowSubmit) : bool :=
  flag_set (nth 0 (reserved s) 0) RESERVED_USE_TIME_OFFSET.
Definition claimed_work (s : PowSubmit) : Z :=
  if 64 <=? target_pot s then u64_max else Z.shiftl 1 (target_pot s).

Definition set_blake2b (b : Blake2bSection) (s : PowSubmit) : PowSubmit :=
  {| job_id := job_id s; coinbase_id := coinbase_id s; flags := flags s; target_pot := target_pot s;
     ntime32 := ntime32 s; nonce32 := nonce32 s; version := version s; extranonce := extranonce s;
     username := username s; reserved := reserved s; blake2b := Some b;
     time_on_wire := time_on_wire s; job := job s; coinbase := coinbase s |}.
Definition set_time (t : Z) (s : PowSubmit) : PowSubmit :=
  {| job_id := job_id s; coinbase_id := coinbase_id s; flags := flags s; target_pot := target_pot s;
     ntime32 := ntime32 s; nonce32 := nonce32 s; version := version s; extranonce := extranonce s;
     username := username s; reserved := reserved s; blake2b := blake2b s;
     time_on_wire := Some t; job := job s; coinbase := coinbase s |}.
Definition set_job (j : JobSection) (s : PowSubmit) : PowSubmit :=
  {| job_id := job_id s; coinbase_id := coinbase_id s; flags := flags s; target_pot := target_pot s;
     ntime32 := ntime32 s; nonce32 := nonce32 s; version := version s; extranonce := extranonce s;
     username := username s; reserved := reserved s; blake2b := blake2b s;
     time_on_wire := time_on_wire s; job := Some j; coinbase := coinbase s |}.
Definition set_coinbase (c : CoinbaseSection) (s : PowSubmit) : PowSubmit :=
  {| job_id := job_id s; coinbase_id := coinbase_id s; flags := flags s; target_pot := target_pot s;
     ntime32 := ntime32 s; nonce32 := nonce32 s; version := version s; extranonce := extranonce s;
     username := username s; reserved := reserved s; blake2b := blake2b s;
     time_on_wire := time_on_wire s; job := job s; coinbase := Some c |}.

(** ** [PowSubmit::encode] *)

Definition encode_job (j : JobSection) : list Z :=
  j_prev_hash j ++ u16_bytes (target_byte_index j) ++ nbits j ++ [coinbaser_id j] ++ u32_bytes (height j)
  ++ u64_bytes (coinbase_value j) ++ u32_bytes (txn_count j) ++ u32_bytes (txn_total_weight j)
  ++ u32_bytes (txn_total_size j) ++ u32_bytes (txn_total_sigops j)
  ++ [trunc u8_max (Z.of_nat (length (merkle_branches j)))] ++ concat (merkle_branches j).

Definition encode_coinbase (c : CoinbaseSection) : list Z :=
  [cb_id c] ++ u16_bytes (trunc u16_max (Z.of_nat (length (coinb1 c))))
  ++ u16_bytes (trunc u16_max (Z.of_nat (length (coinb2 c)))) ++ coinb1 c ++ coinb2 c.

Definition encode_blake2b (b : Blake2bSection) : list Z := [POW_ALGO_BLAKE2B] ++ b_ntime b ++ b_nonce b.

(** The part before the sections, after the sub-command byte. *)
Definition encode_fixed (s : PowSubmit) : list Z :=
  [job_id s] ++ [coinbase_id s] ++ [flags s] ++ [target_pot s] ++ u32_bytes (ntime32 s)
  ++ u32_bytes (nonce32 s) ++ u32_bytes (version s) ++ [Z.of_nat EXTRANONCE_LEN] ++ extranonce s
  ++ (take (Nat.min (length (username s)) MAX_USERNAME) (username s) ++ [0]) ++ reserved s.

Definition encode_sections (s : PowSubmit) : list Z :=
  match blake2b s with
  | Some b =>
      [0x03] ++ encode_blake2b b
      ++ match time_on_wire s with Some t => [0x04] ++ u32_bytes t | None => [] end
  | None => []
  end
  ++ match job s with Some j => [0x01] ++ encode_job j | None => [] end
  ++ match coinbase s with Some c => [0x02] ++ encode_coinbase c | None => [] end.

Definition pow_encode (s : PowSubmit) : list Z :=
  [SUB_POW] ++ encode_fixed s ++ encode_sections s ++ [END].

(** ** [PowSubmit::decode] *)

Definition decode_job : Parser JobSection :=
  prev_hash ← p_array 32;
  tbi ← p_u16;
  nb ← p_array 4;
  cid ← p_u8;
  h ← p_u32;
  value ← p_u64;
  count ← p_u32;
  weight ← p_u32;
  size ← p_u32;
  sigops ← p_u32;
  n ← p_u8;
  branches ← p_times (Z.to_nat n) (p_array 32);
  mret {| j_prev_hash := prev_hash; target_byte_index := tbi; nbits := nb; coinbaser_id := cid;
          height := h; coinbase_value := value; txn_count := count; txn_total_weight := weight;
          txn_total_size := size; txn_total_sigops := sigops; merkle_branches := branches |}.

Definition decode_coinbase : Parser CoinbaseSection :=
  id ← p_u8;
  l1 ← p_u16;
  l2 ← p_u16;
  c1 ← take_bytes (Z.to_nat l1);
  c2 ← take_bytes (Z.to_nat l2);
  mret {| cb_id := id; coinb1 := c1; coinb2 := c2 |}.

Definition decode_blake2b : Parser Blake2bSection :=
  algo ← p_u8;
  if negb (algo =? POW_ALGO_BLAKE2B) then perr (Malformed "pow algorithm"%string) else
  ntime ← p_array 8;
  nonce ← p_array 8;
  mret {| b_ntime := ntime; b_nonce := nonce |}.

(** One section: [None] at the terminator, or the submission with the section put in. *)
Definition decode_section (s : PowSubmit) : Parser (option PowSubmit) :=
  tag ← p_u8;
  if tag =? END then mret None
  else if tag =? 0x03 then b ← decode_blake2b; mret (Some (set_blake2b b s))
  else if tag =? 0x04 then t ← p_u32; mret (Some (set_time t s))
  else if tag =? 0x01 then j ← decode_job; mret (Some (set_job j s))
  else if tag =? 0x02 then c ← decode_coinbase; mret (Some (set_coinbase c s))
  else perr (Malformed "pow section"%string).

(** The section loop. A section is at least one byte, so as many rounds as bytes are enough:
    [decode_sections_fuel]. *)
Fixpoint decode_sections (fuel : nat) (s : PowSubmit) : Parser PowSubmit :=
  match fuel with
  | O => perr (Malformed "out of fuel"%string)
  | S k =>
      next ← decode_section s;
      match next with None => mret s | Some s' => decode_sections k s' end
  end.

Definition decode_fixed : Parser PowSubmit :=
  jid ← p_u8;
  cid ← p_u8;
  fl ← p_u8;
  pot ← p_u8;
  nt ← p_u32;
  no ← p_u32;
  v ← p_u32;
  xlen ← p_u8;
  if negb (xlen =? Z.of_nat EXTRANONCE_LEN) then perr (Malformed "extranonce size"%string) else
  xn ← p_array EXTRANONCE_LEN;
  user ← p_cstr MAX_USERNAME;
  res ← p_array 4;
  mret {| job_id := jid; coinbase_id := cid; flags := fl; target_pot := pot; ntime32 := nt; nonce32 := no;
          version := v; extranonce := xn; username := utf8_lossy user; reserved := res;
          blake2b := None; time_on_wire := None; job := None; coinbase := None |}.

Definition pow_decode (body : list Z) : result Error PowSubmit :=
  '(s, l) ← decode_fixed body;
  '(s', _) ← decode_sections (S (length l)) s l;
  mret s'.

(** ** Job validation *)

Inductive ValidationStatus := StatusOk | StatusError (code : Z).

#[export] Instance ValidationStatus_eq_dec : EqDecision ValidationStatus.
Proof. solve_decision. Defined.

Inductive JobValidationReply :=
| ShortIds (job : Z) (status : ValidationStatus) (ids : list Z) (crosscheck : option (list Z))
| Transactions (job : Z) (status : ValidationStatus) (txns : list (list Z))
| FullBlock (job : Z) (status : ValidationStatus) (txns : list (list Z)).

Definition read_status : Parser ValidationStatus :=
  b ← p_u8; mret (if b =? 0x01 then StatusOk else StatusError b).

Definition read_txn : Parser (list Z) :=
  lo ← p_u16;
  hi ← p_u8;
  take_bytes (Z.to_nat (Z.lor lo (Z.shiftl hi 16))).

Definition read_txn_list : Parser (list (list Z)) :=
  n ← p_u16;
  p_times (Z.to_nat n) read_txn.

Definition read_short_id : Parser Z :=
  lo ← p_u32;
  hi ← p_u16;
  mret (Z.lor lo (Z.shiftl hi 32)).

(** [JobValidationReply::decode], as a parser. *)
Definition validation_reply : Parser JobValidationReply :=
  kind ← p_u8;
  jb ← p_u8;
  status ← read_status;
  if kind =? 0x90 then
    if bool_decide (status <> StatusOk) then mret (ShortIds jb status [] None) else
    n ← p_u16;
    ids ← p_times (Z.to_nat n) read_short_id;
    crosscheck ← (if 0 <? n then x ← p_array 32; mret (Some x) else mret None);
    mret (ShortIds jb status ids crosscheck)
  else if kind =? 0x91 then
    txns ← (if bool_decide (status = StatusOk) then read_txn_list else mret []);
    mret (Transactions jb status txns)
  else if kind =? 0x92 then
    txns ← (if bool_decide (status = StatusOk) then read_txn_list else mret []);
    mret (FullBlock jb status txns)
  else perr (Malformed "job validation kind"%string).

Definition validation_decode (body : list Z) : result Error JobValidationReply :=
  '(r, _) ← validation_reply body; mret r.

(** [JobValidationReply::job]. *)
Definition validation_job (r : JobValidationReply) : Z :=
  match r with ShortIds j _ _ _ => j | Transactions j _ _ => j | FullBlock j _ _ => j end.

(** ** Dispatch *)

Inductive ClientMsg :=
| MsgCoinbaserRequest (r : CoinbaserRequest)
| MsgPow (s : PowSubmit)
| MsgJobValidation (r : JobValidationReply)
| MsgUnknown (sub : Z).

Definition coinbaser_request : Parser CoinbaserRequest :=
  value ← p_u64;
  prev_hash ← p_array 32;
  e ← p_u8;
  if negb (e =? END) then perr (Malformed "coinbaser request"%string)
  else mret {| cr_value := value; cr_prev_hash := prev_hash |}.

Definition parse_client (payload : list Z) : result Error ClientMsg :=
  match payload with
  | [] => Err Short
  | sub :: body =>
      if sub =? SUB_COINBASER_REQUEST then '(r, _) ← coinbaser_request body; mret (MsgCoinbaserRequest r)
      else if sub =? SUB_POW then s ← pow_decode body; mret (MsgPow s)
      else if sub =? SUB_JOB_VALIDATION then r ← validation_decode body; mret (MsgJobValidation r)
      else mret (MsgUnknown sub)
  end.

(** * Server to client *)

Definition CONFIG_FLAG_ABW_DISABLED : Z := 0x01.
Definition RESUME_TOKEN_LEN : nat := 40.
Definition MAX_CONFIG_POOL_SCRIPT : nat := 83.
Definition MAX_CONFIG_TAG : nat := 81.

Definition len_u8 (l : list Z) : Z := trunc u8_max (Z.of_nat (length l)).

Definition configure_v1 (pool_script : list Z) (prime_id : Z) (tag : list Z) (vardiff_min : Z) : list Z :=
  [SUB_CONFIGURE] ++ [1] ++ [len_u8 pool_script] ++ pool_script ++ u32_bytes prime_id
  ++ [len_u8 tag] ++ tag ++ u64_bytes vardiff_min ++ [0] ++ [END].

Definition configure_v3 (pool_script : list Z) (prime_id : Z) (resume_token : list Z) (tag : list Z)
    (vardiff_min : Z) : list Z :=
  [SUB_CONFIGURE] ++ [3] ++ [len_u8 pool_script] ++ pool_script ++ u64_bytes prime_id ++ resume_token
  ++ [len_u8 tag] ++ tag ++ u64_bytes vardiff_min ++ [CONFIG_FLAG_ABW_DISABLED] ++ [END].

Definition coinbaser_reply (value : Z) (coinbaser_v2 : list Z) : list Z :=
  [SUB_COINBASER_REPLY] ++ u64_bytes value
  ++ u32_bytes (trunc u32_max (Z.of_nat (length coinbaser_v2))) ++ coinbaser_v2.

Definition share_receipt (status reason nonce32 target_pot job_id : Z) : list Z :=
  [SUB_SHARE_RECEIPT] ++ [status] ++ u16_bytes reason ++ u32_bytes nonce32 ++ [target_pot] ++ [job_id].

Definition request_short_ids (job : Z) : list Z := [SUB_JOB_VALIDATION; 0x10; job].

Definition request_transactions (job : Z) (indexes : list Z) : list Z :=
  [SUB_JOB_VALIDATION] ++ [0x11] ++ [job]
  ++ u16_bytes (trunc u16_max (Z.of_nat (length indexes))) ++ concat (map u16_bytes indexes).

Definition request_full_block (job : Z) : list Z := [SUB_JOB_VALIDATION; 0x12; job].

Definition block_notify : list Z := [SUB_BLOCK_NOTIFY].

(** * What is written is read back *)

(** * What fits the wire *)

Definition job_ok (j : JobSection) : Prop :=
  length (j_prev_hash j) = 32%nat /\ in_range u16_max (target_byte_index j) /\ length (nbits j) = 4%nat /\
  is_byte (coinbaser_id j) /\ in_range u32_max (height j) /\ in_range u64_max (coinbase_value j) /\
  in_range u32_max (txn_count j) /\ in_range u32_max (txn_total_weight j) /\
  in_range u32_max (txn_total_size j) /\ in_range u32_max (txn_total_sigops j) /\
  Z.of_nat (length (merkle_branches j)) <= u8_max /\ Forall (fun b => length b = 32%nat) (merkle_branches j).

Definition coinbase_ok (c : CoinbaseSection) : Prop :=
  is_byte (cb_id c) /\ Z.of_nat (length (coinb1 c)) <= u16_max /\ Z.of_nat (length (coinb2 c)) <= u16_max.

Definition blake2b_ok (b : Blake2bSection) : Prop := length (b_ntime b) = 8%nat /\ length (b_nonce b) = 8%nat.

Definition fixed_ok (s : PowSubmit) : Prop :=
  is_byte (job_id s) /\ is_byte (coinbase_id s) /\ is_byte (flags s) /\ is_byte (target_pot s) /\
  in_range u32_max (ntime32 s) /\ in_range u32_max (nonce32 s) /\ in_range u32_max (version s) /\
  length (extranonce s) = EXTRANONCE_LEN /\
  is_utf8 (username s) /\ Forall (fun b => b <> 0) (username s) /\ (length (username s) <= MAX_USERNAME)%nat /\
  length (reserved s) = 4%nat.

Definition opt_all {A} (P : A -> Prop) (o : option A) : Prop := forall a, o = Some a -> P a.

(** The time is sent only along with the BLAKE2b fields. *)
Definition sections_ok (s : PowSubmit) : Prop :=
  opt_all blake2b_ok (blake2b s) /\ opt_all (in_range u32_max) (time_on_wire s) /\
  (blake2b s = None -> time_on_wire s = None) /\ opt_all job_ok (job s) /\ opt_all coinbase_ok (coinbase s).

Definition pow_ok (s : PowSubmit) : Prop := fixed_ok s /\ sections_ok s.

(** * Reading back *)

Lemma parses_branches bs : Forall (fun b => length b = 32%nat) bs ->
  parses (p_times (length bs) (p_array 32)) (concat bs) bs.
Proof.
  intros HF. rewrite <- (map_id bs) at 2. apply parses_times. eapply Forall_impl; [exact HF|].
  intros b Hb. by apply parses_array.
Qed.

Lemma parses_job j : job_ok j -> parses decode_job (encode_job j) j.
Proof.
  intros (H1 & H2 & H3 & H4 & H5 & H6 & H7 & H8 & H9 & H10 & H11 & H12).
  unfold decode_job, encode_job. do 10 pread.
  unfold trunc. rewrite Z.mod_small by lia.
  eapply parses_bind; [apply parses_u8; unfold is_byte, in_range; lia | cbv beta].
  rewrite Nat2Z.id. eapply parses_map; [by apply parses_branches|]. by destruct j.
Qed.

Lemma parses_coinbase c : coinbase_ok c -> parses decode_coinbase (encode_coinbase c) c.
Proof.
  intros (H1 & H2 & H3). unfold decode_coinbase, encode_coinbase. pread.
  unfold trunc. rewrite !Z.mod_small by lia.
  do 2 (eapply parses_bind; [apply parses_u16; unfold in_range; lia | cbv beta]).
  rewrite !Nat2Z.id. pread. eapply parses_map; [by apply parses_take|]. by destruct c.
Qed.

Lemma parses_blake2b b : blake2b_ok b -> parses decode_blake2b (encode_blake2b b) b.
Proof.
  intros (H1 & H2). unfold decode_blake2b, encode_blake2b.
  eapply parses_bind; [by apply parses_u8 | cbv beta]. cbn [negb Z.eqb]. 
  change (negb (POW_ALGO_BLAKE2B =? POW_ALGO_BLAKE2B)) with false. cbv iota.
  pread. eapply parses_map; [by apply parses_array|]. by destruct b.
Qed.

(** The submission with its sections left out: what [decode] starts its loop with. *)
Definition fixed_part (s : PowSubmit) : PowSubmit :=
  {| job_id := job_id s; coinbase_id := coinbase_id s; flags := flags s; target_pot := target_pot s;
     ntime32 := ntime32 s; nonce32 := nonce32 s; version := version s; extranonce := extranonce s;
     username := username s; reserved := reserved s; blake2b := None; time_on_wire := None;
     job := None; coinbase := None |}.

Lemma parses_fixed s : fixed_ok s -> parses decode_fixed (encode_fixed s) (fixed_part s).
Proof.
  intros (H1 & H2 & H3 & H4 & H5 & H6 & H7 & H8 & H9 & H10 & H11 & H12).
  unfold decode_fixed, encode_fixed. do 7 pread.
  eapply parses_bind; [by apply parses_u8 | cbv beta].
  change (negb (Z.of_nat EXTRANONCE_LEN =? Z.of_nat EXTRANONCE_LEN)) with false. cbv iota.
  pread. rewrite Nat.min_l, take_ge by done. pread.
  eapply parses_map; [by apply parses_array|]. unfold fixed_part. by rewrite H9.
Qed.

(** ** The section loop *)

Lemma decode_section_advances s : advances 1 (decode_section s).
Proof.
  unfold decode_section. apply advances_bind; [apply advances_u8|]. intros tag.
  unfold decode_blake2b, decode_job, decode_coinbase. advances_walk.
Qed.

Lemma decode_section_never s : never (Malformed "out of fuel"%string) (decode_section s).
Proof.
  unfold decode_section, decode_blake2b, decode_job, decode_coinbase, p_u8, p_u16, p_u32, p_u64, p_array.
  never_walk.
Qed.

Lemma decode_sections_fuel fuel : forall s l,
  (length l < fuel)%nat -> decode_sections fuel s l <> Err (Malformed "out of fuel"%string).
Proof.
  induction fuel as [|fuel IH]; intros s l Hl; [lia|]. cbn [decode_sections].
  unfold mbind, parser_bind. destruct (decode_section s l) as [[[s'|] l']|e] eqn:E.
  - apply IH. apply decode_section_advances in E. lia.
  - done.
  - intros [= ->]. by apply decode_section_never in E.
Qed.

(** More fuel than enough changes nothing. *)
Lemma decode_sections_enough f : forall f' s l r,
  decode_sections f s l = Ok r -> (f <= f')%nat -> decode_sections f' s l = Ok r.
Proof.
  induction f as [|f IH]; intros f' s l r H Hf; [done|].
  destruct f' as [|f']; [lia|]. cbn [decode_sections] in *. unfold mbind, parser_bind in *.
  destruct (decode_section s l) as [[[s'|] l']|e]; [|done|done]. apply (IH f'); [done | lia].
Qed.

Lemma decode_sections_same f : forall f' s l,
  (length l < f)%nat -> (f <= f')%nat -> decode_sections f s l = decode_sections f' s l.
Proof.
  induction f as [|f IH]; intros f' s l Hl Hf; [lia|]. destruct f' as [|f']; [lia|].
  cbn [decode_sections]. unfold mbind, parser_bind.
  destruct (decode_section s l) as [[[s'|] l']|e] eqn:E; [|done|done].
  apply decode_section_advances in E. apply IH; lia.
Qed.

(** What some number of rounds reads, one round more than there are bytes reads. *)
Lemma decode_sections_rounds f s l r f' :
  decode_sections f s l = Ok r -> (length l < f')%nat -> decode_sections f' s l = Ok r.
Proof.
  intros H Hl. rewrite (decode_sections_same f' (Nat.max f f')) by lia.
  eapply decode_sections_enough; [exact H | lia].
Qed.

(** Sections [secs] are each a tag and a body, read one by one. *)
Lemma parses_section_step (s s' : PowSubmit) bs :
  parses (decode_section s) bs (Some s') ->
  forall f more r, (forall rest, decode_sections f s' (more ++ rest) = Ok (r, rest)) ->
  forall rest, decode_sections (S f) s ((bs ++ more) ++ rest) = Ok (r, rest).
Proof.
  intros Hb f more r Hm rest. cbn [decode_sections]. unfold mbind, parser_bind.
  rewrite <- app_assoc, Hb. apply Hm.
Qed.

Lemma parses_end s : parses (decode_section s) [END] None.
Proof. intros rest. done. Qed.

Lemma section_blake2b s b : blake2b_ok b ->
  parses (decode_section s) ([0x03] ++ encode_blake2b b) (Some (set_blake2b b s)).
Proof.
  intros H. unfold decode_section. eapply parses_bind; [by apply parses_u8 | cbv beta].
  eapply parses_map; [by apply parses_blake2b | done].
Qed.
Lemma section_time s t : in_range u32_max t ->
  parses (decode_section s) ([0x04] ++ u32_bytes t) (Some (set_time t s)).
Proof.
  intros H. unfold decode_section. eapply parses_bind; [by apply parses_u8 | cbv beta].
  eapply parses_map; [by apply parses_u32 | done].
Qed.
Lemma section_job s j : job_ok j ->
  parses (decode_section s) ([0x01] ++ encode_job j) (Some (set_job j s)).
Proof.
  intros H. unfold decode_section. eapply parses_bind; [by apply parses_u8 | cbv beta].
  eapply parses_map; [by apply parses_job | done].
Qed.
Lemma section_coinbase s c : coinbase_ok c ->
  parses (decode_section s) ([0x02] ++ encode_coinbase c) (Some (set_coinbase c s)).
Proof.
  intros H. unfold decode_section. eapply parses_bind; [by apply parses_u8 | cbv beta].
  eapply parses_map; [by apply parses_coinbase | done].
Qed.

(** [reads f s bs r]: from [s], [f] rounds of the loop over [bs] end with [r]. *)
Definition reads (f : nat) (s : PowSubmit) (bs : list Z) (r : PowSubmit) : Prop :=
  forall rest, decode_sections f s (bs ++ rest) = Ok (r, rest).

Lemma reads_end f s : reads (S f) s [END] s.
Proof. intros rest. cbn [decode_sections]. unfold mbind, parser_bind. by rewrite parses_end. Qed.

Lemma reads_more f f' s bs r : reads f s bs r -> (f <= f')%nat -> reads f' s bs r.
Proof. intros H Hf rest. eapply decode_sections_enough; [apply H | done]. Qed.

Lemma reads_opt {A} (set : A -> PowSubmit -> PowSubmit) (enc : A -> list Z) (o : option A) f s more r :
  (forall a, o = Some a -> parses (decode_section s) (enc a) (Some (set a s))) ->
  reads f (match o with Some a => set a s | None => s end) more r ->
  reads (S f) s (match o with Some a => enc a | None => [] end ++ more) r.
Proof.
  intros Hp Hm. destruct o as [a|].
  - intros rest. by apply (parses_section_step s (set a s)); [apply Hp|].
  - eapply reads_more; [exact Hm | lia].
Qed.

(** The four setters in the order [encode] writes the sections give the submission back. *)
Lemma reads_sections s : sections_ok s -> reads 5 (fixed_part s) (encode_sections s ++ [END]) s.
Proof.
  intros (Hb & Ht & Hbt & Hj & Hc). unfold encode_sections. rewrite <- !app_assoc.
  destruct (blake2b s) as [b|] eqn:Eb.
  - rewrite <- !app_assoc. rewrite (app_assoc [0x03]).
    intros rest. apply (parses_section_step _ (set_blake2b b (fixed_part s))); [by apply section_blake2b, Hb|].
    apply (reads_opt set_time (fun t => [0x04] ++ u32_bytes t)).
    { intros t Et. by apply section_time, Ht. }
    apply (reads_opt set_job (fun j => [0x01] ++ encode_job j)).
    { intros j Ej. by apply section_job, Hj. }
    apply (reads_opt set_coinbase (fun c => [0x02] ++ encode_coinbase c)).
    { intros c Ec. by apply section_coinbase, Hc. }
    replace (match coinbase s with Some _ => _ | None => _ end) with s; [apply reads_end|].
    destruct s as [? ? ? ? ? ? ? ? ? ? ? [?|] [?|] [?|]]; cbn in *; by subst.
  - cbn [app]. specialize (Hbt eq_refl). apply (reads_more 3); [|lia].
    apply (reads_opt set_job (fun j => [0x01] ++ encode_job j)).
    { intros j Ej. by apply section_job, Hj. }
    apply (reads_opt set_coinbase (fun c => [0x02] ++ encode_coinbase c)).
    { intros c Ec. by apply section_coinbase, Hc. }
    replace (match coinbase s with Some _ => _ | None => _ end) with s; [apply reads_end|].
    destruct s as [? ? ? ? ? ? ? ? ? ? ? ? [?|] [?|]]; cbn in *; by subst.
Qed.

Lemma pow_decode_encode s pad : pow_ok s ->
  pow_decode (encode_fixed s ++ encode_sections s ++ [END] ++ pad) = Ok s.
Proof.
  intros [Hf Hs]. unfold pow_decode. rewrite parses_fixed by done. mstep.
  pose proof (reads_sections s Hs pad) as H. rewrite <- app_assoc in H.
  by rewrite (decode_sections_rounds _ _ _ _ _ H) by lia.
Qed.

(** * Job validation *)

Lemma length_times {A} n (p : Parser A) l xs l' : p_times n p l = Ok (xs, l') -> length xs = n.
Proof.
  revert l xs. induction n as [|n IH]; intros l xs H; cbn [p_times] in H.
  - by injection H as <- <-.
  - apply p_bind_inv in H as (x & l1 & _ & H). apply p_bind_inv in H as (xs' & l2 & H & [= <- <-]).
    cbn. by rewrite (IH _ _ H).
Qed.

(** What a list of reads holds is in the bytes it read. *)
Lemma times_weight {A} (w : A -> nat) n (p : Parser A) :
  (forall l x l', p l = Ok (x, l') -> (length l' + w x <= length l)%nat) ->
  forall l xs l', p_times n p l = Ok (xs, l') -> (length l' + sum_list (map w xs) <= length l)%nat.
Proof.
  intros Hp. induction n as [|n IH]; intros l xs l' H; cbn [p_times] in H.
  - injection H as <- <-. cbn. lia.
  - apply p_bind_inv in H as (x & l1 & Hx & H). apply p_bind_inv in H as (xs' & l2 & H & [= <- <-]).
    specialize (Hp _ _ _ Hx). specialize (IH _ _ _ H). cbn. lia.
Qed.

Lemma read_txn_weight l x l' : read_txn l = Ok (x, l') -> (length l' + (3 + length x) <= length l)%nat.
Proof.
  intros (lo & l1 & H1 & H)%p_bind_inv. apply advances_u16 in H1.
  apply p_bind_inv in H as (hi & l2 & H2 & H). apply advances_u8 in H2.
  apply take_bytes_inv in H as [-> Hl]. rewrite length_app in H2. lia.
Qed.

Lemma read_txn_list_weight l xs l' :
  read_txn_list l = Ok (xs, l') ->
  (length l' + 2 + sum_list (map (fun x => 3 + length x)%nat xs) <= length l)%nat.
Proof.
  intros (n & l1 & Hn & H)%p_bind_inv. apply advances_u16 in Hn.
  apply (times_weight (fun x => 3 + length x)%nat) in H; [lia | exact read_txn_weight].
Qed.

Lemma read_short_id_inv l x l' :
  is_bytes l -> read_short_id l = Ok (x, l') ->
  (length l' + 6 <= length l)%nat /\ is_bytes l' /\ 0 <= x < 2 ^ 48.
Proof.
  intros Hb (lo & l1 & H1 & H)%p_bind_inv. apply p_int_inv in H1 as (b1 & -> & Hl1 & ->).
  apply is_bytes_app in Hb as [Hb1 Hb]. apply p_bind_inv in H as (hi & l2 & H2 & [= <- <-]).
  apply p_int_inv in H2 as (b2 & -> & Hl2 & ->). apply is_bytes_app in Hb as [Hb2 Hb].
  pose proof (of_le_bound b1 Hb1) as B1. pose proof (of_le_bound b2 Hb2) as B2. rewrite Hl1 in B1. rewrite Hl2 in B2.
  rewrite !length_app. rewrite lor_shift by lia. conjs; [lia | done | lia | lia].
Qed.

Lemma times_bytes {A} (P : A -> Prop) n (p : Parser A) :
  (forall l x l', is_bytes l -> p l = Ok (x, l') -> is_bytes l' /\ P x) ->
  forall l xs l', is_bytes l -> p_times n p l = Ok (xs, l') -> is_bytes l' /\ Forall P xs.
Proof.
  intros Hp. induction n as [|n IH]; intros l xs l' Hb H; cbn [p_times] in H.
  - injection H as <- <-. by split.
  - apply p_bind_inv in H as (x & l1 & Hx & H). apply p_bind_inv in H as (xs' & l2 & H & [= <- <-]).
    destruct (Hp _ _ _ Hb Hx) as [Hb1 Hx1]. destruct (IH _ _ _ Hb1 H) as [? ?]. split; [done | by constructor].
Qed.

Definition reply_weight (r : JobValidationReply) : nat :=
  match r with
  | ShortIds _ _ ids _ => 6 * length ids
  | Transactions _ _ txns | FullBlock _ _ txns => sum_list (map (fun t => 3 + length t)%nat txns)
  end.

Lemma txns_weight (b : bool) l txns l' :
  (if b then read_txn_list else mret [] : Parser (list (list Z))) l = Ok (txns, l') ->
  (length l' + sum_list (map (fun t => 3 + length t)%nat txns) <= length l)%nat.
Proof.
  destruct b; intros H.
  - apply read_txn_list_weight in H. lia.
  - injection H as <- <-. cbn. lia.
Qed.

Lemma validation_reply_inv l r l' : is_bytes l -> validation_reply l = Ok (r, l') ->
  (3 + reply_weight r <= length l)%nat /\
  match r with ShortIds _ _ ids _ => Forall (fun x => 0 <= x < 2 ^ 48) ids | _ => True end.
Proof.
  intros Hb H. unfold validation_reply in H.
  apply p_bind_inv in H as (kind & l1 & H1 & H). apply p_u8_inv in H1 as ->.
  apply is_bytes_cons in Hb as [_ Hb]. apply p_bind_inv in H as (jb & l2 & H2 & H).
  apply p_u8_inv in H2 as ->. apply is_bytes_cons in Hb as [_ Hb]. cbn [length].
  apply p_bind_inv in H as (st & l3 & H3 & H). unfold read_status in H3.
  apply p_bind_inv in H3 as (b & l4 & H4 & [= <- ->]). apply p_u8_inv in H4 as ->.
  apply is_bytes_cons in Hb as [_ Hb]. cbn [length]. destr_if_in H; [|destr_if_in H; [|destr_if_in H; [|done]]].
  - destr_if_in H; [injection H as <- <-; cbn; split; [lia | constructor]|].
    apply p_bind_inv in H as (n & l5 & Hn & H). apply p_int_inv in Hn as (nb & -> & Hnb & ->).
    apply is_bytes_app in Hb as [_ Hb]. apply p_bind_inv in H as (ids & l6 & Hids & H).
    apply p_bind_inv in H as (x & l7 & _ & [= <- <-]). cbn [reply_weight].
    assert (Hf : is_bytes l6 /\ Forall (fun x => 0 <= x < 2 ^ 48) ids).
    { eapply times_bytes; [|exact Hb | exact Hids]. intros l x' l'' Hb1 Hr.
      destruct (read_short_id_inv _ _ _ Hb1 Hr) as (_ & ? & ?). done. }
    split; [|by destruct Hf]. pose proof (times_weight (fun _ => 6%nat) (Z.to_nat (of_le nb)) read_short_id) as Hw.
    assert (Hs : sum_list (map (fun _ : Z => 6%nat) ids) = (6 * length ids)%nat).
    { clear. induction ids as [|y ids IH]; [done|]. cbn [map length]. change (sum_list (?a :: ?l)) with (a + sum_list l)%nat. lia. }
    assert (Hadv : forall l x l', read_short_id l = Ok (x, l') -> (length l' + 6 <= length l)%nat).
    { clear. intros l x l' (lo & l1 & H1 & H)%p_bind_inv. apply advances_u32 in H1.
      apply p_bind_inv in H as (hi & l2 & H2 & [= <- <-]). apply advances_u16 in H2. lia. }
    specialize (Hw Hadv _ _ _ Hids). rewrite Hs in Hw. rewrite length_app. lia.
  - apply p_bind_inv in H as (txns & l5 & Ht & [= <- <-]). apply txns_weight in Ht. cbn [reply_weight]. split; [lia | done].
  - apply p_bind_inv in H as (txns & l5 & Ht & [= <- <-]). apply txns_weight in Ht. cbn [reply_weight]. split; [lia | done].
Qed.
