(* ===== verification/Pow.v ===== *)
(** BLAKE2b header-v2 proof of work ([prime/wire/src/pow.rs]).

    SHA-256 and BLAKE2b-256 are parameters. A hash is its 32 bytes, least significant first
    where the code calls it internal order. *)

From S2P Require Import Prelude Bytes Cursor Frame Handshake.
From S2P Require Import Crypto.
Open Scope Z_scope.

Definition HEADER_V2_LEN : nat := 164.
Definition V2_BIT : Z := 0x80000000.
Definition FLAG_USE_TIME_OFFSET : Z := 0x04.
Definition FLAGS_RESERVED_HIGH : Z := 0xC0.
Definition SIA_COINB1_LEN : nat := 39.
Definition WORK_LEN : nat := 80.

Abbreviation Hash := (list Z) (only parsing).

(** * Targets *)

(** The bit part of [shr_le]: each byte takes the low bits of the next. *)
Fixpoint shr_bits (rem : Z) (n : list Z) : list Z :=
  match n with
  | [] => []
  | x :: n' =>
      match n' with
      | [] => [Z.shiftr x rem]
      | y :: _ => Z.lor (Z.shiftr x rem) (trunc u8_max (Z.shiftl y (8 - rem))) :: shr_bits rem n'
      end
  end.

Definition shr_le (n : Hash) (bits : Z) : Hash :=
  let bytes := Z.to_nat (bits / 8) in
  let rem := bits mod 8 in
  let n := if (0 <? bytes)%nat then drop bytes n ++ replicate bytes 0 else n in
  if 0 <? rem then shr_bits rem n else n.

Definition share_target_le (pot : Z) : option Hash :=
  if 224 <=? pot then None else Some (shr_le (replicate 28 255 ++ replicate 4 0) pot).

(** The loop of [nbits_to_target_le] that puts the mantissa bytes in place. *)
Fixpoint place_bytes (idx : nat) (bs : list Z) (t : Hash) : option Hash :=
  match bs with
  | [] => Some t
  | b :: bs' =>
      if (idx <? 32)%nat then place_bytes (S idx) bs' (<[idx := b]> t)
      else if negb (b =? 0) then None else place_bytes (S idx) bs' t
  end.

Definition nbits_to_target_le (nbits : Z) : option Hash :=
  let exp := Z.shiftr nbits 24 in
  let mant := Z.land nbits 0x007fffff in
  if negb (Z.land nbits 0x00800000 =? 0) || (mant =? 0) then None else
  if exp <=? 3 then Some (u32_bytes (Z.shiftr mant (8 * (3 - exp))) ++ replicate 28 0)
  else if 32 <? exp then None
  else place_bytes (Z.to_nat (exp - 3)) (take 3 (u32_bytes mant)) (replicate 32 0).

(** The comparison loop of [meets_target], on the bytes from the most significant down. *)
Fixpoint meets_from (h t : list Z) : bool :=
  match h, t with
  | x :: h', y :: t' => if negb (x =? y) then x <? y else meets_from h' t'
  | _, _ => true
  end.
Definition meets_target (hash_le target_le : Hash) : bool := meets_from (rev hash_le) (rev target_le).

(** [u8::leading_zeros]. *)
Definition leading_zeros8 (b : Z) : Z := if b =? 0 then 8 else 7 - Z.log2 b.
Fixpoint lz_from (h : list Z) : Z :=
  match h with
  | [] => 0
  | b :: h' => if b =? 0 then 8 + lz_from h' else leading_zeros8 b
  end.
Definition hash_pot (hash_le : Hash) : Z := sat_sub (lz_from (rev hash_le)) 32.

Definition share_ntime (time_on_wire : Z) (ntime8 : list Z) (flags : Z) : Z :=
  if Z.land flags FLAG_USE_TIME_OFFSET =? 0 then time_on_wire
  else wrapping_add time_on_wire (of_le (take 4 ntime8)).

(** * Hashing *)

Record Commitment := {
  c_version : Z;
  c_prev_hash : Hash;
  c_height : Z;
  c_merkle_root : Hash;
  c_time_on_wire : Z;
  c_nbits : Z;
  c_txcount : Z;
  c_flags : Z;
  c_xor_clear_bits : Z;
  c_xor_key : list Z;
  c_rhs : Hash
}.

Definition zeros (n : nat) : list Z := replicate n 0.

(** [sia_coinb1]. *)
Definition sia_coinb1 (h2 : Hash) : list Z := zeros 3 ++ h2 ++ zeros 4.

(** [work_header]. *)
Definition work_header (sia_prev : Hash) (nonce8 ntime8 : list Z) (root : Hash) : list Z :=
  sia_prev ++ nonce8 ++ ntime8 ++ root.

(** [serialize_header_v2]. *)
Definition serialize_header_v2 (c : Commitment) (nonce8 ntime8 extranonce : list Z) : list Z :=
  u32_bytes (Z.lor (c_version c) V2_BIT) ++ c_prev_hash c ++ c_merkle_root c
  ++ u32_bytes (c_time_on_wire c) ++ u32_bytes (c_nbits c) ++ nonce8 ++ drop 4 ntime8 ++ zeros 4
  ++ extranonce ++ take 4 ntime8 ++ u16_bytes (trunc u16_max (c_txcount c)) ++ [c_flags c]
  ++ [c_xor_clear_bits c] ++ c_xor_key c ++ u32_bytes (c_height c) ++ c_rhs c.

Section Hashing.
Context (sha256 blake2b256 : list Z -> Hash).

Definition sha256d (data : list Z) : Hash := sha256 (sha256 data).

Definition tagged_sha256 (tag : string) (data : list Z) : Hash :=
  let t := sha256 (str_bytes tag) in sha256 (t ++ t ++ data).

Definition merkle_root (txid : Hash) (branches : list Hash) : Hash :=
  fold_left (fun acc b => sha256d (acc ++ b)) branches txid.

(** The pairing pass of [merkle_branches_for_coinbase], over [chunks(2)]. *)
Fixpoint pair_level (level : list (option Hash)) : list (option Hash) :=
  match level with
  | a :: b :: rest =>
      match a, b with Some x, Some y => Some (sha256d (x ++ y)) | _, _ => None end :: pair_level rest
  | _ => []
  end.

(** The [while level.len() > 1] loop; [None] is the panic of [expect]. A level at least halves,
    so a round for each of the txids is enough: [branches_loop_total]. *)
Fixpoint branches_loop (fuel : nat) (level : list (option Hash)) (branches : list Hash) : option (list Hash) :=
  match level with
  | _ :: sib :: _ =>
      match fuel, sib with
      | S k, Some b =>
          let level :=
            if (Nat.modulo (length level) 2 =? 1)%nat
            then level ++ match last level with Some x => [x] | None => [] end else level in
          branches_loop k (pair_level level) (branches ++ [b])
      | _, _ => None
      end
  | _ => Some branches
  end.

Definition merkle_branches_for_coinbase (txids : list Hash) : option (list Hash) :=
  branches_loop (length txids) (None :: map Some txids) [].

Definition xor_key_hash (key : list Z) : Hash := tagged_sha256 "Bitcoin block hash PoW XOR key" key.

Definition h1_preimage (c : Commitment) : list Z :=
  u32_bytes (Z.lor (c_version c) V2_BIT) ++ rev (c_prev_hash c) ++ u32_bytes (c_height c)
  ++ c_merkle_root c ++ u32_bytes (c_time_on_wire c) ++ [0] ++ u32_bytes (c_nbits c)
  ++ u32_bytes (c_txcount c) ++ [c_flags c] ++ [c_xor_clear_bits c] ++ xor_key_hash (c_xor_key c).

Definition commitment_h2 (c : Commitment) : Hash :=
  let h1 := tagged_sha256 "Bitcoin block header 1" (h1_preimage c) in
  tagged_sha256 "Merge-mining hook" (h1 ++ zeros 32 ++ c_rhs c).

(** [xor_mask]: nothing for the zero key; otherwise the first [clear_bits] bits are cleared. *)
Definition xor_mask (key : list Z) (clear_bits : Z) : Hash :=
  if forallb (fun b => b =? 0) key then zeros 32 else
  let m := tagged_sha256 "Bitcoin block hash PoW XOR mask" key in
  let bytes := Z.to_nat (clear_bits / 8) in
  let rem := clear_bits mod 8 in
  let m := zeros (Nat.min bytes (length m)) ++ drop bytes m in
  if (bytes <? 32)%nat then alter (fun b => Z.land b (Z.shiftr 0xff rem)) bytes m else m.

Definition work_root (h2 : Hash) (extranonce : list Z) : Hash :=
  blake2b256 ([0] ++ sia_coinb1 h2 ++ extranonce).

Definition sia_prevhash (prev_internal : Hash) : Hash :=
  let h := tagged_sha256 "Bitcoin prevblock header, hashed" (rev prev_internal) in
  zeros 6 ++ drop 6 h.

(** [pow_hash_le]: the masked BLAKE2b digest, reversed. *)
Definition pow_hash_le (work xor_key : list Z) (clear_bits : Z) : Hash :=
  rev (zip_with Z.lxor (blake2b256 work) (xor_mask xor_key clear_bits)).

Record JobWork := { sia_prev : Hash; root : Hash; mask : Hash }.

Definition jobwork_new (c : Commitment) (extranonce : list Z) : JobWork :=
  {| sia_prev := sia_prevhash (c_prev_hash c);
     root := work_root (commitment_h2 c) extranonce;
     mask := xor_mask (c_xor_key c) (c_xor_clear_bits c) |}.

Definition jobwork_hash (j : JobWork) (nonce8 ntime8 : list Z) : Hash :=
  rev (zip_with Z.lxor (blake2b256 (work_header (sia_prev j) nonce8 ntime8 (root j))) (mask j)).
End Hashing.

(** * What the byte loops compute *)

(** * Shifting *)

Lemma length_shr_bits r n : length (shr_bits r n) = length n.
Proof. induction n as [|x [|y n] IH]; [done..|]. cbn [shr_bits length] in *. by rewrite IH. Qed.

Lemma shr_head x y r : is_byte x -> 0 < r < 8 ->
  Z.lor (Z.shiftr x r) (trunc u8_max (Z.shiftl y (8 - r))) = x / 2 ^ r + 2 ^ (8 - r) * (y mod 2 ^ r).
Proof.
  intros Hx Hr. unfold is_byte, in_range in Hx. unfold trunc. change (255 + 1) with (2 ^ 8).
  rewrite Z.shiftr_div_pow2, Z.shiftl_mul_pow2 by lia.
  replace (2 ^ 8) with (2 ^ r * 2 ^ (8 - r)) by (rewrite <- Z.pow_add_r by lia; f_equal; lia).
  assert (0 < 2 ^ r) by (apply Z.pow_pos_nonneg; lia). assert (0 < 2 ^ (8 - r)) by (apply Z.pow_pos_nonneg; lia).
  rewrite Zmult_mod_distr_r. rewrite <- Z.shiftl_mul_pow2 by lia. rewrite lor_shift; [lia | lia |].
  split; [apply Z.div_pos; lia|]. apply Z.div_lt_upper_bound; [lia|].
  rewrite <- Z.pow_add_r by lia. replace (r + (8 - r)) with 8 by lia. lia.
Qed.

Lemma of_le_shr_bits r n : is_bytes n -> 0 < r < 8 -> of_le (shr_bits r n) = of_le n / 2 ^ r.
Proof.
  intros Hn Hr. assert (Hp : 0 < 2 ^ r) by (apply Z.pow_pos_nonneg; lia).
  assert (H256 : 256 = 2 ^ (8 - r) * 2 ^ r) by (rewrite <- Z.pow_add_r by lia; replace (8 - r + r) with 8 by lia; done).
  induction Hn as [|x n Hx Hn IH]; [cbn; by rewrite Z.div_0_l by lia|].
  destruct n as [|y n].
  { cbn [shr_bits of_le]. rewrite Z.shiftr_div_pow2 by lia. by rewrite !Z.mul_0_r, !Z.add_0_r. }
  change (shr_bits r (x :: y :: n)) with
    (Z.lor (Z.shiftr x r) (trunc u8_max (Z.shiftl y (8 - r))) :: shr_bits r (y :: n)).
  change (of_le (?a :: shr_bits r (y :: n))) with (a + 256 * of_le (shr_bits r (y :: n))).
  rewrite IH, shr_head by done. change (of_le (x :: y :: n)) with (x + 256 * of_le (y :: n)).
  set (L := of_le (y :: n)).
  assert (Hy : y mod 2 ^ r = L mod 2 ^ r).
  { unfold L. cbn [of_le]. replace (y + 256 * of_le n) with (y + (2 ^ (8 - r) * of_le n) * 2 ^ r) by (rewrite H256; ring).
    by rewrite Z.mod_add by lia. }
  rewrite Hy. replace (x + 256 * L) with (x + (2 ^ (8 - r) * L) * 2 ^ r) by (rewrite H256; ring).
  rewrite Z.div_add by lia. pose proof (Z.div_mod L (2 ^ r) ltac:(lia)) as HL.
  set (A := 2 ^ (8 - r)) in *. set (B := 2 ^ r) in *. set (q := L / B) in *. set (m := L mod B) in *.
  clearbody q m L. rewrite HL, H256. ring.
Qed.

Lemma is_bytes_shr_bits r n : is_bytes n -> 0 < r < 8 -> is_bytes (shr_bits r n).
Proof.
  intros Hn Hr. assert (0 < 2 ^ r) by (apply Z.pow_pos_nonneg; lia).
  induction Hn as [|x n Hx Hn IH]; [constructor|]. destruct n as [|y n].
  - repeat constructor; unfold is_byte, in_range in *; rewrite Z.shiftr_div_pow2 by lia.
    + apply Z.div_pos; lia.
    + apply Z.div_le_upper_bound; nia.
  - change (shr_bits r (x :: y :: n)) with
      (Z.lor (Z.shiftr x r) (trunc u8_max (Z.shiftl y (8 - r))) :: shr_bits r (y :: n)).
    constructor; [|done]. rewrite shr_head by done. unfold is_byte, in_range in *.
    pose proof (Z.mod_pos_bound y (2 ^ r)). assert (0 < 2 ^ (8 - r)) by (apply Z.pow_pos_nonneg; lia).
    assert (E : 2 ^ (8 - r) * 2 ^ r = 256) by (rewrite <- Z.pow_add_r by lia; by replace (8 - r + r) with 8 by lia).
    assert (0 <= x / 2 ^ r) by (apply Z.div_pos; lia).
    assert (x / 2 ^ r < 2 ^ (8 - r)) by (apply Z.div_lt_upper_bound; lia). nia.
Qed.

Lemma of_le_drop n k : is_bytes n -> (k <= length n)%nat -> of_le (drop k n) = of_le n / 256 ^ Z.of_nat k.
Proof.
  intros Hn Hk. rewrite <- (take_drop k n) at 2. rewrite of_le_app.
  pose proof (of_le_bound (take k n) (is_bytes_take _ _ Hn)) as Hb. rewrite length_take_le in * by done.
  assert (0 < 256 ^ Z.of_nat k) by (apply Z.pow_pos_nonneg; lia).
  rewrite Z.add_comm, Z.mul_comm, Z.div_add_l, Z.div_small by lia. lia.
Qed.

(** [shr_le] is the division it stands for. *)
Lemma of_le_shr_le n bits : is_bytes n -> length n = 32%nat -> 0 <= bits < 256 ->
  of_le (shr_le n bits) = of_le n / 2 ^ bits /\ length (shr_le n bits) = 32%nat /\ is_bytes (shr_le n bits).
Proof.
  intros Hn Hl Hb. unfold shr_le. set (k := Z.to_nat (bits / 8)). set (r := bits mod 8).
  assert (Hk : (k < 32)%nat) by (unfold k; pose proof (Z.div_lt_upper_bound bits 8 32); lia).
  assert (Hr : 0 <= r < 8) by (apply Z.mod_pos_bound; lia).
  assert (Hbits : bits = 8 * Z.of_nat k + r).
  { unfold k, r. rewrite Z2Nat.id by (apply Z.div_pos; lia). apply Z.div_mod. lia. }
  set (m := if (0 <? k)%nat then drop k n ++ replicate k 0 else n).
  assert (Hm : of_le m = of_le n / 256 ^ Z.of_nat k /\ is_bytes m /\ length m = 32%nat).
  { unfold m. destruct (Nat.ltb_spec 0 k).
    - rewrite of_le_app, of_le_replicate0, Z.mul_0_r, Z.add_0_r, of_le_drop by (done || lia).
      conjs; [done | | rewrite length_app, length_drop, length_replicate; lia].
      apply is_bytes_app. split; [by apply is_bytes_drop | apply is_bytes_replicate; unfold is_byte, in_range; lia].
    - replace k with 0%nat by lia. by rewrite Z.pow_0_r, Z.div_1_r. }
  destruct Hm as (Hm & Hmb & Hml).
  assert (H256 : 256 ^ Z.of_nat k = 2 ^ (8 * Z.of_nat k)) by (rewrite Z.pow_mul_r by lia; done).
  assert (0 < 2 ^ (8 * Z.of_nat k)) by (apply Z.pow_pos_nonneg; lia).
  destruct (Z.ltb_spec 0 r).
  - rewrite length_shr_bits. split; [|split; [done | apply is_bytes_shr_bits; [done | lia]]]. rewrite of_le_shr_bits by (done || lia).
    rewrite Hm, H256, Z.div_div, <- Z.pow_add_r by (try apply Z.pow_pos_nonneg; lia). by rewrite Hbits.
  - split; [|done]. rewrite Hm, H256. by replace bits with (8 * Z.of_nat k) by lia.
Qed.

Lemma share_target_value pot : 0 <= pot < 224 ->
  exists t, share_target_le pot = Some t /\ is_bytes t /\ length t = 32%nat /\ of_le t = 2 ^ (224 - pot) - 1.
Proof.
  intros Hp. unfold share_target_le. rewrite (proj2 (Z.leb_gt _ _)) by lia. eexists. split; [done|].
  assert (Hb : is_bytes (replicate 28 255 ++ replicate 4 0)).
  { apply is_bytes_app. split; apply is_bytes_replicate; unfold is_byte, in_range; lia. }
  destruct (of_le_shr_le (replicate 28 255 ++ replicate 4 0) pot Hb eq_refl) as (E & Hl & Ho); [lia|].
  split; [done|]. split; [done|]. rewrite E. replace (of_le (replicate 28 255 ++ replicate 4 0)) with (2 ^ 224 - 1) by done.
  assert (0 < 2 ^ pot) by (apply Z.pow_pos_nonneg; lia).
  assert (E2 : 2 ^ 224 = 2 ^ (224 - pot) * 2 ^ pot) by (rewrite <- Z.pow_add_r by lia; f_equal; lia).
  symmetry. apply Z.div_unique with (2 ^ pot - 1); lia.
Qed.

(** * Comparing *)

Lemma of_le_snoc l b : of_le (l ++ [b]) = of_le l + 256 ^ Z.of_nat (length l) * b.
Proof. rewrite of_le_app. cbn [of_le]. lia. Qed.

Lemma meets_from_spec h : forall t, length h = length t -> is_bytes h -> is_bytes t ->
  meets_from h t = (of_le (rev h) <=? of_le (rev t)).
Proof.
  induction h as [|x h IH]; intros [|y t] Hl Hh Ht; [done..|].
  apply is_bytes_cons in Hh as [Hx Hh]. apply is_bytes_cons in Ht as [Hy Ht]. injection Hl as Hl.
  cbn [meets_from rev]. rewrite !of_le_snoc, !length_rev, <- Hl.
  assert (Bh : 0 <= of_le (rev h) < 256 ^ Z.of_nat (length h)).
  { rewrite <- length_rev. apply of_le_bound, Forall_rev, Hh. }
  assert (Bt : 0 <= of_le (rev t) < 256 ^ Z.of_nat (length h)).
  { rewrite Hl, <- length_rev. apply of_le_bound, Forall_rev, Ht. }
  set (P := 256 ^ Z.of_nat (length h)) in *. destruct (Z.eqb_spec x y) as [->|Hne]; cbn [negb].
  - rewrite IH by done. apply eq_true_iff_eq. rewrite !Z.leb_le. lia.
  - apply eq_true_iff_eq. rewrite Z.ltb_lt, Z.leb_le. nia.
Qed.

Lemma meets_target_spec h t : length h = length t -> is_bytes h -> is_bytes t ->
  meets_target h t = (of_le h <=? of_le t).
Proof.
  intros Hl Hh Ht. unfold meets_target. rewrite meets_from_spec; [by rewrite !rev_involutive | by rewrite !length_rev | |];
    by apply Forall_rev.
Qed.

Lemma leading_zeros8_spec b : is_byte b -> 0 < b ->
  2 ^ (7 - leading_zeros8 b) <= b < 2 ^ (8 - leading_zeros8 b) /\ 0 <= leading_zeros8 b < 8.
Proof.
  intros Hb Hp. unfold leading_zeros8. rewrite (proj2 (Z.eqb_neq _ _)) by lia.
  pose proof (Z.log2_spec b Hp) as Hs. unfold is_byte, in_range in Hb.
  assert (Z.log2 b < 8) by (apply Z.log2_lt_pow2; lia). pose proof (Z.log2_nonneg b).
  replace (7 - (7 - Z.log2 b)) with (Z.log2 b) by lia. replace (8 - (7 - Z.log2 b)) with (Z.succ (Z.log2 b)) by lia. lia.
Qed.

Lemma lz_from_nonneg h : is_bytes h -> 0 <= lz_from h.
Proof.
  induction 1 as [|b h Hb _ IH]; cbn [lz_from]; [lia|]. unfold is_byte, in_range in Hb.
  destruct (Z.eqb_spec b 0); [lia|]. apply leading_zeros8_spec; [done | lia].
Qed.

(** The zero bits at the top of a byte string, as a number. *)
Lemma lz_from_spec h p : is_bytes h -> 0 <= p <= 8 * Z.of_nat (length h) ->
  (p <= lz_from h <-> of_le (rev h) < 2 ^ (8 * Z.of_nat (length h) - p)).
Proof.
  intros Hh. revert p. induction Hh as [|b h Hb Hh IH]; intros p Hp.
  { cbn in *. replace p with 0 by lia. lia. }
  cbn [lz_from rev length] in *. rewrite of_le_snoc, length_rev.
  assert (Bh : 0 <= of_le (rev h) < 256 ^ Z.of_nat (length h)).
  { rewrite <- length_rev. apply of_le_bound, Forall_rev, Hh. }
  assert (E256 : 256 ^ Z.of_nat (length h) = 2 ^ (8 * Z.of_nat (length h))) by (rewrite Z.pow_mul_r by lia; done).
  rewrite E256 in *. set (n := Z.of_nat (length h)) in *. rewrite Nat2Z.inj_succ in *. fold n in Hp |- *.
  unfold is_byte, in_range in Hb.
  destruct (Z.eqb_spec b 0) as [->|Hne].
  - rewrite Z.mul_0_r, Z.add_0_r. destruct (decide (8 <= p)).
    + specialize (IH (p - 8)). replace (8 * Z.succ n - p) with (8 * n - (p - 8)) by lia. rewrite <- IH by lia. lia.
    + split; [|pose proof (lz_from_nonneg h Hh); lia].
      intros _. apply Z.lt_le_trans with (2 ^ (8 * n)); [lia|]. apply Z.pow_le_mono_r; lia.
  - destruct (leading_zeros8_spec b) as [[H1 H2] H3]; [done | lia|]. set (z := leading_zeros8 b) in *.
    split; intros H.
    + apply Z.lt_le_trans with (2 ^ (8 * n) * 2 ^ (8 - z)); [nia|].
      rewrite <- Z.pow_add_r by lia. apply Z.pow_le_mono_r; lia.
    + destruct (decide (p <= z)) as [|Hgt]; [done|]. exfalso.
      assert (2 ^ (8 * Z.succ n - p) <= 2 ^ (8 * n) * 2 ^ (7 - z)).
      { rewrite <- Z.pow_add_r by lia. apply Z.pow_le_mono_r; lia. }
      nia.
Qed.

Lemma hash_pot_spec h p : is_bytes h -> length h = 32%nat -> 0 < p < 224 ->
  (p <= hash_pot h <-> of_le h < 2 ^ (224 - p)).
Proof.
  intros Hh Hl Hp. unfold hash_pot, sat_sub.
  pose proof (lz_from_spec (rev h) (p + 32)) as H. rewrite rev_involutive, length_rev, Hl in H.
  replace (8 * Z.of_nat 32 - (p + 32)) with (224 - p) in H by lia.
  rewrite <- H; [lia | by apply Forall_rev | lia].
Qed.

(** * Compact targets *)

Lemma of_le_insert l i b x : l !! i = Some x ->
  of_le (<[i := b]> l) = of_le l + 256 ^ Z.of_nat i * (b - x).
Proof.
  revert i. induction l as [|y l IH]; intros [|i] H; [done.. | |].
  - injection H as ->. cbn. lia.
  - change (<[S i:=b]> (y :: l)) with (y :: <[i:=b]> l). cbn [of_le]. rewrite (IH i) by done.
    rewrite Nat2Z.inj_succ, Z.pow_succ_r by lia. lia.
Qed.

(** Bytes put above what is there: their number, times the weight of the place. *)
Lemma place_bytes_spec bs : forall idx t r,
  length t = 32%nat -> (forall i, (idx <= i)%nat -> (i < 32)%nat -> t !! i = Some 0) ->
  place_bytes idx bs t = Some r ->
  length r = 32%nat /\ of_le r = of_le t + 256 ^ Z.of_nat idx * of_le bs.
Proof.
  induction bs as [|b bs IH]; intros idx t r Hl Hz H; cbn [place_bytes of_le] in *.
  { injection H as <-. split; [done | lia]. }
  destruct (Nat.ltb_spec idx 32).
  - apply IH in H.
    + destruct H as [? ->]. split; [done|]. rewrite (of_le_insert _ _ _ 0) by (apply Hz; lia).
      rewrite Nat2Z.inj_succ, Z.pow_succ_r by lia. lia.
    + by rewrite length_insert.
    + intros i Hi1 Hi2. rewrite list_lookup_insert_ne by lia. apply Hz; lia.
  - destruct (Z.eqb_spec b 0) as [->|]; [|done]. cbn [negb] in H.
    apply IH in H; [|done | intros i Hi1 Hi2; apply Hz; lia]. destruct H as [? ->]. split; [done|].
    rewrite Nat2Z.inj_succ, Z.pow_succ_r by lia. lia.
Qed.

Lemma nbits_value nbits t : 0 <= nbits < 2 ^ 32 -> nbits_to_target_le nbits = Some t ->
  let exp := nbits / 2 ^ 24 in let mant := nbits mod 2 ^ 23 in
  length t = 32%nat /\ 0 < mant /\
  of_le t = if exp <=? 3 then mant / 256 ^ (3 - exp) else mant * 256 ^ (exp - 3).
Proof.
  intros Hn H. cbv zeta. unfold nbits_to_target_le in H.
  rewrite Z.shiftr_div_pow2 in H by lia. change 0x007fffff with (2 ^ 23 - 1) in H. rewrite land_ones in H by lia.
  set (exp := nbits / 2 ^ 24) in *. set (mant := nbits mod 2 ^ 23) in *.
  assert (Hm : 0 <= mant < 2 ^ 23) by (apply Z.mod_pos_bound; lia).
  assert (He : 0 <= exp) by (apply Z.div_pos; lia).
  destr_if_in H; [done|]. bools. destruct (Z.leb_spec exp 3).
  - apply (inj Some) in H as <-. rewrite length_app, length_u32, length_replicate. conjs; [done | lia |].
    rewrite of_le_app, of_le_replicate0, Z.mul_0_r, Z.add_0_r. rewrite Z.shiftr_div_pow2 by lia.
    rewrite <- (Z.pow_mul_r 2 8) by lia. assert (0 < 2 ^ (8 * (3 - exp))) by (apply Z.pow_pos_nonneg; lia).
    apply of_le_u32. unfold in_range. split; [apply Z.div_pos; lia|].
    apply Z.lt_succ_r, Z.div_lt_upper_bound; [lia|]. nia.
  - destr_if_in H; [done|]. bools. apply place_bytes_spec in H; [|done|].
    + destruct H as [Hl ->]. conjs; [done | lia |]. rewrite of_le_replicate0, Z2Nat.id by lia.
      replace (of_le (take 3 (u32_bytes mant))) with mant; [lia|].
      unfold u32_bytes. cbn [le_bytes take of_le].
      pose proof (Z.div_mod mant 256). pose proof (Z.div_mod (mant / 256) 256). pose proof (Z.div_mod (mant / 256 / 256) 256).
      assert (mant / 256 / 256 / 256 = 0); [|lia]. rewrite !Z.div_div by lia. apply Z.div_small. lia.
    + intros i _ Hi. by apply lookup_replicate_2.
Qed.

(** * Merkle branches *)

Section Merkle.
Context (sha256 : list Z -> list Z).
Let H2 := sha256d sha256.

(** The tree of a block, level by level, the last hash of an odd level paired with itself. *)
Fixpoint hash_pairs (level : list (list Z)) : list (list Z) :=
  match level with
  | x :: y :: rest => H2 (x ++ y) :: hash_pairs rest
  | _ => []
  end.
Definition next_level (level : list (list Z)) : list (list Z) :=
  hash_pairs (if (Nat.modulo (length level) 2 =? 1)%nat
              then level ++ match last level with Some x => [x] | None => [] end else level).
Fixpoint tree_root (fuel : nat) (level : list (list Z)) : option (list Z) :=
  match level with
  | [] => None
  | [r] => Some r
  | _ => match fuel with O => None | S k => tree_root k (next_level level) end
  end.

Lemma pair_level_some l : pair_level sha256 (map Some l) = map Some (hash_pairs l).
Proof.
  cut (pair_level sha256 (map Some l) = map Some (hash_pairs l) /\
       forall x, pair_level sha256 (map Some (x :: l)) = map Some (hash_pairs (x :: l))); [tauto|].
  induction l as [|y l [IH1 IH2]]; [done|]. split; [apply IH2|]. intros x.
  cbn [map pair_level hash_pairs]. by rewrite IH1.
Qed.

Lemma length_hash_pairs l : length (hash_pairs l) = Nat.div2 (length l).
Proof.
  cut (length (hash_pairs l) = Nat.div2 (length l) /\
       forall x, length (hash_pairs (x :: l)) = Nat.div2 (S (length l))); [tauto|].
  induction l as [|y l [IH1 IH2]]; [done|]. split; [apply IH2|]. intros x.
  cbn [hash_pairs length Nat.div2]. by rewrite IH1.
Qed.
(** What an odd level gets at its end. *)
Definition odd_tail {A} (level : list A) : list A :=
  if (Nat.modulo (length level) 2 =? 1)%nat then match last level with Some x => [x] | None => [] end else [].

Lemma odd_tail_if {A} (l : list A) :
  (if (Nat.modulo (length l) 2 =? 1)%nat then l ++ match last l with Some x => [x] | None => [] end else l)
  = l ++ odd_tail l.
Proof. unfold odd_tail. destr_if; [done|]. by rewrite app_nil_r. Qed.

Lemma odd_tail_some (x b : list Z) (rest : list (list Z)) :
  odd_tail (None :: map Some (b :: rest)) = map Some (odd_tail (x :: b :: rest)).
Proof.
  unfold odd_tail. replace (length (None :: map Some (b :: rest))) with (length (x :: b :: rest))
    by (cbn [length]; by rewrite length_map). destr_if; [|done].
  assert (E : forall l : list (list Z), last (map Some l) = Some <$> last l).
  { intros l. induction l as [|u [|v l] IH]; [done..|]. cbn [map last] in *. apply IH. }
  change (last (None :: map Some (b :: rest))) with (last (map Some (b :: rest))).
  change (last (x :: b :: rest)) with (last (b :: rest)). rewrite E. by destruct (last (b :: rest)).
Qed.

Lemma odd_tail_length {A} (l : list A) :
  (length (odd_tail l) <= 1)%nat /\ (Nat.modulo (length l) 2 = 0 -> odd_tail l = [])%nat.
Proof.
  unfold odd_tail. destr_if.
  - apply Nat.eqb_eq in Hif. split; [destruct (last l); cbn; lia | rewrite Hif; done].
  - split; [cbn; lia | done].
Qed.

Lemma branches_loop_spec fuel : forall x rest brs, (length rest <= fuel)%nat ->
  exists bs, branches_loop sha256 fuel (None :: map Some rest) brs = Some (brs ++ bs) /\
    tree_root fuel (x :: rest) = Some (merkle_root sha256 x bs).
Proof.
  induction fuel as [|fuel IH]; intros x rest brs Hl.
  { destruct rest; [|cbn in Hl; lia]. exists []. by rewrite app_nil_r. }
  destruct rest as [|b rest]; [exists []; by rewrite app_nil_r|].
  cbn [branches_loop map tree_root]. unfold next_level.
  change (Some b :: map Some rest) with (map Some (b :: rest)).
  rewrite !odd_tail_if, (odd_tail_some x).
  pose proof (odd_tail_length (x :: b :: rest)) as [Ht He]. set (t := odd_tail (x :: b :: rest)) in *.
  replace ((None :: map Some (b :: rest)) ++ map Some t) with (None :: Some b :: map Some (rest ++ t))
    by (cbn; by rewrite map_app).
  change ((x :: b :: rest) ++ t) with (x :: b :: (rest ++ t)).
  cbn [pair_level hash_pairs]. rewrite pair_level_some.
  destruct (IH (H2 (x ++ b)) (hash_pairs (rest ++ t)) (brs ++ [b])) as (bs & E1 & E2).
  - rewrite length_hash_pairs, length_app. cbn [length] in *.
    destruct rest as [|c rest]; [rewrite He by done; cbn; lia|]. cbn [length] in *.
    pose proof (Nat.div2_spec (S (length rest) + length t)). rewrite Nat.div2_div.
    apply Nat.Div0.div_le_upper_bound. lia.
  - exists (b :: bs). rewrite E1, E2. split; [by rewrite <- app_assoc | done].
Qed.
End Merkle.
