(* ===== verification/Coinbase.v ===== *)
(** The coinbase transaction a gateway ships ([prime/wire/src/coinbase.rs]): varints, the parser,
    putting a share's pieces together, and where the target byte sits. *)

From S2P Require Import Prelude Bytes Cursor Frame.
Open Scope Z_scope.

Definition EXTRANONCE_SLOT : nat := 12.
Definition COINBASE_WITNESS : list Z := [0x01; 0x20] ++ replicate 32 0.

Record TxOut := { o_value : Z; o_script : list Z }.

#[export] Instance TxOut_eq_dec : EqDecision TxOut.
Proof. solve_decision. Defined.

Definition is_op_return (o : TxOut) : bool := bool_decide (head (o_script o) = Some 0x6a).

Record Coinbase := {
  cb_version : Z;
  script_sig : list Z;
  sequence : Z;
  outputs : list TxOut;
  lock_time : Z;
  cb_height : option Z;
  outputs_at : nat;
  lock_time_at : nat
}.

Definition sat_total (vs : list Z) : Z := fold_left (sat_add u64_max) vs 0.

Definition total_output_value (c : Coinbase) : Z := sat_total (map o_value (outputs c)).
Definition paid_to (c : Coinbase) (script : list Z) : Z :=
  sat_total (map o_value (filter (fun o => o_script o = script) (outputs c))).

(** * Variable-length integers *)

Definition read_varint : Parser Z :=
  n ← p_u8;
  if n =? 0xfd then p_u16 else if n =? 0xfe then p_u32 else if n =? 0xff then p_u64 else mret n.

Definition write_varint (n : Z) : list Z :=
  if n <? 0xfd then [n]
  else if n <=? 0xffff then 0xfd :: u16_bytes n
  else if n <=? 0xffffffff then 0xfe :: u32_bytes n
  else 0xff :: u64_bytes n.

(** * Assembling a share's coinbase *)

Definition is_whole (coinb2 : list Z) (target_byte_index : nat) : bool :=
  (length coinb2 =? 0)%nat && (target_byte_index =? 0)%nat.

Definition assemble (coinb1 coinb2 : list Z) (target_byte_index : nat) (target_pot : Z) : list Z :=
  if is_whole coinb2 target_byte_index then coinb1 else
  let v := coinb1 ++ replicate EXTRANONCE_SLOT 0 ++ coinb2 in
  if (target_byte_index <? length v)%nat then <[target_byte_index := target_pot]> v else v.

Definition SIG_AT : nat := 42.

(** The offset after the push at [i]. *)
Definition push_end (sig : list Z) (i : nat) : option nat :=
  n ← sig !! i;
  if between 0x01 0x4b n then Some (i + 1 + Z.to_nat n)%nat
  else if n =? 0x4c then m ← sig !! (i + 1)%nat; Some (i + 2 + Z.to_nat m)%nat
  else if (n =? 0x00) || (n =? 0x4f) || between 0x51 0x60 n then Some (i + 1)%nat
  else None.

Definition target_byte_at (legacy : list Z) : option nat :=
  len ← legacy !! (SIG_AT - 1)%nat;
  if 0xfd <=? len then None else
  let len := Z.to_nat len in
  if (length legacy <? SIG_AT + len)%nat then None else
  let sig := take len (drop SIG_AT legacy) in
  i ← push_end sig 0;
  i ← push_end sig i;
  n ← sig !! i;
  if between 0x01 0x4b n && (i + 1 + Z.to_nat n <=? length sig)%nat then Some (SIG_AT + i + 1)%nat
  else None.

Definition commits_target (assembled : list Z) (target_byte_index : nat) : bool :=
  bool_decide (target_byte_at assembled = Some target_byte_index).

(** * Reading the scriptSig *)

Fixpoint position (p : Z -> bool) (l : list Z) : option nat :=
  match l with
  | [] => None
  | b :: l' => if p b then Some O else S <$> position p l'
  end.

(** [secondary_tag]; [None] is the empty string. *)
Definition secondary_tag_of (script_sig : list Z) : option (list Z) :=
  '(n, rest) ← match script_sig with n :: rest => Some (n, rest) | [] => None end;
  height_len ← (if between 1 8 n then Some (Z.to_nat n) else if between 0x51 0x60 n then Some O else None);
  after_height ← (if (length rest <? height_len)%nat then None else Some (drop height_len rest));
  '(first, rest) ← match after_height with f :: r => Some (f, r) | [] => None end;
  '(push_len, tags) ← (if first =? 0x4c
                       then match rest with len :: r => Some (Z.to_nat len, r) | [] => None end
                       else if between 1 75 first then Some (Z.to_nat first, rest) else None);
  tags ← (if (length tags <? push_len)%nat then None else Some (take push_len tags));
  sep ← position (fun b => b =? 0x0f) tags;
  if (sep =? 0)%nat then None else
  let after := drop (sep + 1) tags in
  let tag := match position (fun b => b =? 0) after with Some e => take e after | None => after end in
  if (length tag =? 0)%nat || negb (forallb (fun b => between 32 126 b) tag) then None
  else Some (take 40 tag).
Definition secondary_tag (script_sig : list Z) : list Z := default [] (secondary_tag_of script_sig).

(** The loop of [bip34_height]. *)
Fixpoint or_bytes (i : Z) (v : Z) (bs : list Z) : Z :=
  match bs with
  | [] => v
  | x :: bs' => or_bytes (i + 1) (Z.lor v (w32 (Z.shiftl x (8 * i)))) bs'
  end.

Definition bip34_height (script_sig : list Z) : option Z :=
  match script_sig with
  | [] => None
  | n :: rest =>
      if between 0x51 0x60 n then Some (n - 0x50)
      else if between 1 4 n then
        if (length rest <? Z.to_nat n)%nat then None else Some (or_bytes 0 0 (take (Z.to_nat n) rest))
      else None
  end.

(** * The parser *)

Definition read_txout : Parser TxOut :=
  value ← p_u64;
  sl ← read_varint;
  if 10000 <? sl then perr (Malformed "coinbase output script length"%string) else
  script ← take_bytes (Z.to_nat sl);
  mret {| o_value := value; o_script := script |}.

(** [c.pos], for a cursor over [total] bytes. *)
Definition pos (total : nat) : Parser nat := fun l => Ok ((total - length l)%nat, l).

(** The last check of [parse]: nothing is left. *)
Definition at_end {A} (a : A) : Parser A := fun l =>
  if negb (remaining l =? 0)%nat then Err (Malformed "coinbase trailing bytes"%string) else Ok (a, l).

Definition parse_coinbase (total : nat) : Parser Coinbase :=
  version ← p_u32;
  nin ← read_varint;
  if negb (nin =? 1) then perr (Malformed "coinbase input count"%string) else
  prevout ← take_bytes 36;
  if bool_decide (prevout <> replicate 32 0 ++ replicate 4 255)
  then perr (Malformed "coinbase outpoint"%string) else
  n ← read_varint;
  if negb ((2 <=? n) && (n <=? 100)) then perr (Malformed "coinbase scriptSig length"%string) else
  sig ← take_bytes (Z.to_nat n);
  seq ← p_u32;
  oat ← pos total;
  nout ← read_varint;
  if (nout =? 0) || (10000 <? nout) then perr (Malformed "coinbase output count"%string) else
  outs ← p_times (Z.to_nat nout) read_txout;
  lat ← pos total;
  lt ← p_u32;
  at_end {| cb_version := version; script_sig := sig; sequence := seq; outputs := outs;
            lock_time := lt; cb_height := bip34_height sig; outputs_at := oat; lock_time_at := lat |}.

Definition parse (bytes : list Z) : result Error Coinbase :=
  '(c, _) ← parse_coinbase (length bytes) bytes; mret c.

(** [with_witness]. *)
Definition with_witness (legacy : list Z) (parsed : Coinbase) : list Z :=
  take 4 legacy ++ [0x00; 0x01] ++ drop 4 (take (lock_time_at parsed) legacy)
  ++ COINBASE_WITNESS ++ drop (lock_time_at parsed) legacy.

(** * Building one *)

Definition encode_txout (o : TxOut) : list Z :=
  u64_bytes (o_value o) ++ write_varint (Z.of_nat (length (o_script o))) ++ o_script o.

(** How many bytes [build] writes of the height. *)
Definition height_bytes (height : Z) : nat :=
  let hb := u32_bytes height in
  let trailing := match position (fun b => negb (b =? 0)) (rev hb) with Some k => k | None => 4%nat end in
  Nat.max 1 (4 - trailing).

(** The scriptSig of [build] up to the target byte, and after it. *)
Definition build_sig_front (height tag_push : Z) (tag : list Z) : list Z :=
  let n := height_bytes height in
  [Z.of_nat n] ++ take n (u32_bytes height) ++ [tag_push] ++ tag ++ [0x00] ++ [0x07].
Definition build_sig_back : list Z :=
  [0xff; 0x00; 0x00; 0x01; 0x00; 0x00; 0x00] ++ [0x0e] ++ [0x00; 0x00].

Definition build (height : Z) (tag : list Z) (outs : list TxOut) (lt : Z) : panics (list Z * nat * nat) :=
  tag_push ← chk_add u8_max (trunc u8_max (Z.of_nat (length tag))) 1;
  let front := build_sig_front height tag_push tag in
  let target_in_sig := length front in
  let slot_in_sig := (length front + length build_sig_back)%nat in
  let sig := front ++ build_sig_back ++ replicate EXTRANONCE_SLOT 0 in
  let head := u32_bytes 1 ++ [1] ++ replicate 32 0 ++ replicate 4 255 ++ write_varint (Z.of_nat (length sig)) in
  let v := head ++ sig ++ u32_bytes 0xffffffff ++ write_varint (Z.of_nat (length outs))
           ++ concat (map encode_txout outs) ++ u32_bytes lt in
  mret (v, (length head + target_in_sig)%nat, (length head + slot_in_sig)%nat).

(** * Round trips and positions *)

(** * Varints *)

Lemma parses_varint n : in_range u64_max n -> parses read_varint (write_varint n) n.
Proof.
  intros Hn. unfold in_range in Hn. unfold read_varint, write_varint.
  destruct (Z.ltb_spec n 0xfd).
  { rewrite <- (app_nil_r [n]). eapply parses_bind; [apply parses_u8; unfold is_byte, in_range; lia | cbv beta].
    rewrite !(proj2 (Z.eqb_neq _ _)) by lia. apply parses_ret. }
  destruct (Z.leb_spec n 0xffff).
  { change (?b :: ?l) with ([b] ++ l). eapply parses_bind; [by apply parses_u8 | cbv beta].
    apply parses_u16. unfold in_range. lia. }
  destruct (Z.leb_spec n 0xffffffff).
  { change (?b :: ?l) with ([b] ++ l). eapply parses_bind; [by apply parses_u8 | cbv beta].
    apply parses_u32. unfold in_range. lia. }
  change (?b :: ?l) with ([b] ++ l). eapply parses_bind; [by apply parses_u8 | cbv beta].
  apply parses_u64. unfold in_range. lia.
Qed.

Lemma length_varint n : (1 <= length (write_varint n) <= 9)%nat.
Proof.
  unfold write_varint. repeat destr_if; cbn [length]; rewrite ?length_u16, ?length_u32, ?length_u64; lia.
Qed.

Lemma varint_small n : 0 <= n < 0xfd -> write_varint n = [n].
Proof. intros H. unfold write_varint. by rewrite (proj2 (Z.ltb_lt _ _)) by lia. Qed.

(** What a varint can be read from. *)
Lemma read_varint_inv l n l' : read_varint l = Ok (n, l') ->
  (l = n :: l' /\ n <> 0xfd /\ n <> 0xfe /\ n <> 0xff) \/
  (exists b bs, l = b :: bs ++ l' /\ n = of_le bs /\
    ((b = 0xfd /\ length bs = 2%nat) \/ (b = 0xfe /\ length bs = 4%nat) \/ (b = 0xff /\ length bs = 8%nat))).
Proof.
  intros (b & l1 & Hb & H)%p_bind_inv. apply p_u8_inv in Hb as ->.
  destr_if_in H; bools; [|destr_if_in H; bools; [|destr_if_in H; bools]].
  - apply p_int_inv in H as (bs & -> & Hl & ->). right. exists b, bs. tauto.
  - apply p_int_inv in H as (bs & -> & Hl & ->). right. exists b, bs. tauto.
  - apply p_int_inv in H as (bs & -> & Hl & ->). right. exists b, bs. tauto.
  - injection H as <- <-. by left.
Qed.

(** * The target byte *)

Lemma target_byte_bounds l i : target_byte_at l = Some i ->
  exists len, l !! 41%nat = Some len /\ len < 0xfd /\ (42 + Z.to_nat len <= length l)%nat /\
    (43 <= i < 42 + Z.to_nat len)%nat.
Proof.
  intros H. unfold target_byte_at in H. apply bind_Some in H as (len & Hlen & H).
  destr_if_in H; [done|]. bools. destr_if_in H; [done|]. apply Nat.ltb_ge in Hif0.
  apply bind_Some in H as (i1 & _ & H). apply bind_Some in H as (i2 & _ & H).
  apply bind_Some in H as (n & Hn & H). destr_if_in H; [|done]. injection H as <-.
  exists len. unfold SIG_AT in *. conjs; [done | lia | done | lia |].
  apply andb_true_iff in Hif1 as [H1 H2]. apply Nat.leb_le in H2. rewrite length_take, length_drop in H2.
  unfold between in H1. bools. lia.
Qed.

Lemma commits_not_whole c1 c2 i pot : commits_target (assemble c1 c2 i pot) i = true -> is_whole c2 i = false.
Proof.
  unfold commits_target. intros H%bool_decide_eq_true. apply target_byte_bounds in H as (len & _ & _ & _ & Hi).
  unfold is_whole. rewrite (proj2 (Nat.eqb_neq i 0)) by lia. apply andb_false_r.
Qed.

(** A committed target byte is the difficulty the share claims. *)
Lemma commits_pot c1 c2 i pot :
  commits_target (assemble c1 c2 i pot) i = true -> assemble c1 c2 i pot !! i = Some pot.
Proof.
  intros H. pose proof (commits_not_whole _ _ _ _ H) as Hw. unfold commits_target in H. bools.
  apply target_byte_bounds in H as (len & _ & _ & Hl & Hi). unfold assemble in *. rewrite Hw in *.
  destr_if.
  - apply Nat.ltb_lt in Hif. by apply list_lookup_insert_eq.
  - apply Nat.ltb_ge in Hif. lia.
Qed.

(** * Building *)

Definition txout_ok (o : TxOut) : Prop :=
  in_range u64_max (o_value o) /\ Z.of_nat (length (o_script o)) <= 10000.

Lemma parses_txout o : txout_ok o -> parses read_txout (encode_txout o) o.
Proof.
  intros [Hv Hl]. unfold read_txout, encode_txout. pread.
  eapply parses_bind; [apply parses_varint; unfold in_range; lia | cbv beta].
  rewrite (proj2 (Z.ltb_ge _ _)) by lia.
  eapply parses_map; [apply parses_take; lia|]. by destruct o.
Qed.

Lemma height_bytes_range h : (1 <= height_bytes h <= 4)%nat.
Proof. unfold height_bytes. lia. Qed.

Lemma position_lt p l k : position p l = Some k -> (k < length l)%nat.
Proof.
  revert k. induction l as [|b l IH]; intros k H; cbn [position] in H; [done|].
  destruct (p b); [injection H as <-; cbn; lia|].
  destruct (position p l) as [k'|] eqn:E; [|done]. injection H as <-. specialize (IH _ eq_refl). cbn. lia.
Qed.

Lemma position_before l k :
  (forall j, position (fun b => negb (b =? 0)) l = Some j -> (k <= j)%nat) ->
  (k <= length l)%nat -> take k l = replicate k 0.
Proof.
  revert k. induction l as [|b l IH]; intros k H Hk; cbn [position length] in *.
  { by replace k with 0%nat by lia. }
  destruct k as [|k]; [done|]. cbn [take replicate].
  destruct (Z.eqb_spec b 0) as [->|]; cbn [negb] in *; [|specialize (H 0%nat eq_refl); lia].
  f_equal. apply IH; [|lia]. intros j Hj. rewrite Hj in H. specialize (H (S j) eq_refl). lia.
Qed.

Lemma rev_replicate0 {A} (x : A) n : rev (replicate n x) = replicate n x.
Proof.
  induction n as [|n IH]; [done|]. cbn [replicate rev]. rewrite IH. symmetry. apply replicate_cons_app.
Qed.

(** The bytes of the height that are left out are zero. *)
Lemma height_value h : in_range u32_max h -> of_le (take (height_bytes h) (u32_bytes h)) = h.
Proof.
  intros Hh. set (n := height_bytes h). pose proof (height_bytes_range h) as Hn. fold n in Hn.
  assert (E : u32_bytes h = take n (u32_bytes h) ++ replicate (4 - n) 0).
  { rewrite <- (take_drop n (u32_bytes h)) at 1. f_equal.
    assert (Hr : take (4 - n) (rev (u32_bytes h)) = replicate (4 - n) 0).
    { apply position_before; [|rewrite length_rev, length_u32; lia].
      intros j Hj. unfold n, height_bytes. rewrite Hj. lia. }
    pose proof (firstn_rev (4 - n) (u32_bytes h)) as Hf. rewrite length_u32 in Hf.
    replace (4 - (4 - n))%nat with n in Hf by lia.
    rewrite <- (rev_involutive (drop n (u32_bytes h))).
    assert (Hd : rev (drop n (u32_bytes h)) = replicate (4 - n) 0) by (rewrite <- Hr; symmetry; exact Hf).
    rewrite Hd. apply rev_replicate0. }
  transitivity (of_le (u32_bytes h)); [|by apply of_le_u32]. rewrite E at 2.
  rewrite of_le_app, of_le_replicate0. lia.
Qed.

Lemma or_bytes_spec bs : forall i v, is_bytes bs -> 0 <= i -> (i + Z.of_nat (length bs) <= 4) ->
  0 <= v < 2 ^ (8 * i) -> or_bytes i v bs = v + 2 ^ (8 * i) * of_le bs.
Proof.
  induction bs as [|x bs IH]; intros i v Hb Hi Hl Hv; cbn [or_bytes of_le]; [lia|].
  apply is_bytes_cons in Hb as [Hx Hb]. cbn [length] in Hl. unfold is_byte, in_range in Hx.
  assert (Hp : 2 ^ (8 * (i + 1)) = 256 * 2 ^ (8 * i)).
  { replace (8 * (i + 1)) with (8 + 8 * i) by lia. by rewrite Z.pow_add_r by lia. }
  assert (Hs : w32 (Z.shiftl x (8 * i)) = Z.shiftl x (8 * i)).
  { unfold w32. apply Z.mod_small. rewrite Z.shiftl_mul_pow2 by lia.
    assert (2 ^ (8 * (i + 1)) <= 2 ^ 32) by (apply Z.pow_le_mono_r; lia). nia. }
  rewrite Hs, lor_shift by lia. rewrite IH; [| done | lia | lia | nia]. nia.
Qed.

Lemma bip34_height_built n bs more :
  (1 <= n <= 4)%nat -> length bs = n -> is_bytes bs ->
  bip34_height ([Z.of_nat n] ++ bs ++ more) = Some (of_le bs).
Proof.
  intros Hn Hl Hb. cbn [app]. unfold bip34_height, between.
  rewrite (proj2 (Z.leb_gt 81 _)) by lia. cbn [andb].
  rewrite !(proj2 (Z.leb_le _ _)) by lia. cbn [andb].
  rewrite Nat2Z.id, length_app, (proj2 (Nat.ltb_ge _ _)) by lia.
  rewrite take_app_length' by done. rewrite or_bytes_spec by (done || lia). f_equal. lia.
Qed.

(** * Parsing *)

Definition null_outpoint : list Z := replicate 32 0 ++ replicate 4 255.

(** The bytes of a coinbase, field by field. *)
Definition layout (ver : Z) (sig : list Z) (seq : Z) (outs : list TxOut) (lt : Z) : list Z :=
  u32_bytes ver ++ [1] ++ null_outpoint ++ [Z.of_nat (length sig)] ++ sig ++ u32_bytes seq
  ++ write_varint (Z.of_nat (length outs)) ++ concat (map encode_txout outs) ++ u32_bytes lt.

(** One step of a parser that is run on [bs ++ more]. *)
Lemma step_read {A B} (p : Parser A) (f : A -> Parser B) bs a l :
  parses p bs a -> (p ≫= f) (bs ++ l) = f a l.
Proof. intros H. unfold mbind, parser_bind. by rewrite H. Qed.

Lemma step_pos {B} total (f : nat -> Parser B) l : (pos total ≫= f) l = f (total - length l)%nat l.
Proof. done. Qed.

Lemma parses_txouts outs : Forall txout_ok outs ->
  parses (p_times (length outs) read_txout) (concat (map encode_txout outs)) outs.
Proof. intros H. apply parses_times. eapply Forall_impl; [exact H|]. intros o Ho. by apply parses_txout. Qed.

Lemma parse_layout_ok ver sig seq outs lt :
  in_range u32_max ver -> in_range u32_max seq -> in_range u32_max lt ->
  2 <= Z.of_nat (length sig) <= 100 -> Forall txout_ok outs -> 1 <= Z.of_nat (length outs) <= 10000 ->
  parse (layout ver sig seq outs lt) =
    Ok {| cb_version := ver; script_sig := sig; sequence := seq; outputs := outs; lock_time := lt;
          cb_height := bip34_height sig;
          outputs_at := (42 + length sig + 4)%nat;
          lock_time_at := (length (layout ver sig seq outs lt) - 4)%nat |}.
Proof.
  intros Hv Hs Hlt Hsig HF Hn. unfold parse. set (total := length (layout ver sig seq outs lt)).
  assert (Ht : total = (42 + length sig + 4 + length (write_varint (Z.of_nat (length outs)))
      + length (concat (map encode_txout outs)) + 4)%nat).
  { unfold total, layout, null_outpoint. rewrite !length_app, !length_u32, !length_replicate. cbn [length]. lia. }
  assert (E : forall l r, l = layout ver sig seq outs lt -> parse_coinbase total l = Ok (r, []) ->
    ('(c, _) ← parse_coinbase total l; mret c) = Ok r) by (by intros l r -> ->).
  eapply E; [done|]. clear E. unfold layout, parse_coinbase.
  rewrite (step_read _ _ _ ver) by by apply parses_u32.
  rewrite (step_read _ _ [1] 1) by (apply (parses_varint 1); unfold in_range; lia).
  change (negb (1 =? 1)) with false. cbv iota.
  rewrite (step_read _ _ null_outpoint null_outpoint) by by apply parses_take.
  rewrite bool_decide_eq_false_2 by (intros Hne; by apply Hne).
  rewrite <- (varint_small (Z.of_nat (length sig))) at 1 by lia.
  rewrite (step_read _ _ _ (Z.of_nat (length sig))) by (apply parses_varint; unfold in_range; lia).
  rewrite !(proj2 (Z.leb_le _ _)) by lia. cbn [andb negb].
  rewrite (step_read _ _ sig sig) by (apply parses_take; lia).
  rewrite (step_read _ _ _ seq) by by apply parses_u32. rewrite step_pos.
  rewrite (step_read _ _ _ (Z.of_nat (length outs))) by (apply parses_varint; unfold in_range; lia).
  rewrite (proj2 (Z.eqb_neq _ _)), (proj2 (Z.ltb_ge _ _)) by lia. cbn [orb]. rewrite Nat2Z.id.
  rewrite (step_read _ _ _ outs) by by apply parses_txouts. rewrite step_pos.
  rewrite <- (app_nil_r (u32_bytes lt)).
  rewrite (step_read _ _ _ lt) by by apply parses_u32.
  unfold at_end. cbn [remaining length Nat.eqb negb]. do 3 f_equal. all: rewrite !length_app, !length_u32, Ht; cbn [length]; lia.
Qed.

(** What a coinbase that parses looks like: the fields in order, with the two counts before the
    scriptSig in whatever form they were written. *)
Lemma parse_inv l c : parse l = Ok c ->
  exists ver in1 in2 body lock,
    l = ver ++ in1 ++ null_outpoint ++ in2 ++ script_sig c ++ body ++ lock /\
    length ver = 4%nat /\ length lock = 4%nat /\ lock_time_at c = (length l - 4)%nat /\
    (4 <= length l - 4)%nat /\
    read_varint (in1 ++ null_outpoint) = Ok (1, null_outpoint) /\
    read_varint (in2 ++ script_sig c) = Ok (Z.of_nat (length (script_sig c)), script_sig c) /\
    cb_height c = bip34_height (script_sig c) /\ lock_time c = of_le lock.
Proof.
  assert (Hpre : forall l n l', read_varint l = Ok (n, l') ->
    exists vi, l = vi ++ l' /\ forall r, read_varint (vi ++ r) = Ok (n, r)).
  { intros l0 n l' H. destruct (read_varint_inv _ _ _ H) as [(-> & Hn)|(b & bs & -> & -> & Hb)].
    - exists [n]. split; [done|]. intros r. unfold read_varint, mbind, parser_bind. cbn [app].
      unfold p_u8, p_int, mbind, parser_bind, take_bytes. cbn [length Nat.ltb Nat.leb take drop mret parser_ret of_le].
      rewrite Z.mul_0_r, Z.add_0_r, !(proj2 (Z.eqb_neq _ _)) by tauto. done.
    - exists (b :: bs). split; [done|]. intros r. unfold read_varint, mbind, parser_bind. cbn [app].
      assert (E : p_u8 (b :: bs ++ r) = Ok (b, bs ++ r)).
      { unfold p_u8, p_int, mbind, parser_bind, take_bytes. cbn. by rewrite Z.add_0_r. }
      assert (Et : forall k, length bs = k -> p_int k (bs ++ r) = Ok (of_le bs, r)).
      { intros k Hk. unfold p_int, mbind, parser_bind. by rewrite (parses_take bs k Hk). }
      rewrite E. destruct Hb as [[-> Hl]|[[-> Hl]|[-> Hl]]]; cbn [Z.eqb Pos.eqb]; by apply Et. }
  unfold parse. intros H. apply bind_Ok_inv in H as ([c' l'] & H & [= ->]). unfold parse_coinbase in H.
  apply p_bind_inv in H as (ver & l1 & H1 & H). apply p_int_inv in H1 as (vb & El & Hvl & Ever).
  apply p_bind_inv in H as (nin & l2 & H2 & H). apply Hpre in H2 as (in1 & -> & Hin1).
  destr_if_in H; [done|]. bools. subst nin.
  apply p_bind_inv in H as (po & l3 & H3 & H). apply take_bytes_inv in H3 as [-> Hpo].
  destr_if_in H; [done|]. bools. apply dec_stable in Hif. fold null_outpoint in Hif. subst po.
  apply p_bind_inv in H as (n & l4 & H4 & H). apply Hpre in H4 as (in2 & -> & Hin2).
  destr_if_in H; [done|]. bools.
  apply p_bind_inv in H as (sig & l5 & H5 & H). apply take_bytes_inv in H5 as [-> Hsl].
  apply p_bind_inv in H as (sq & l6 & H6 & H). apply p_int_inv in H6 as (sb & -> & Hsb & _).
  rewrite step_pos in H.
  apply p_bind_inv in H as (nout & l7 & H7 & H). apply Hpre in H7 as (in3 & -> & _).
  destr_if_in H; [done|].
  apply p_bind_inv in H as (outs & l8 & H8 & H).
  assert (Hbody : exists ob, l7 = ob ++ l8).
  { assert (Ho : advances 0 (p_times (Z.to_nat nout) read_txout)).
    { apply advances_times. unfold read_txout, read_varint. advances_walk. }
    clear - H8. revert l7 outs H8. generalize (Z.to_nat nout). intros k.
    induction k as [|k IH]; intros l7 outs H8; cbn [p_times] in H8.
    { injection H8 as _ <-. by exists []. }
    apply p_bind_inv in H8 as (o & la & Ha & H8). apply p_bind_inv in H8 as (os & lb & Hb & [= _ <-]).
    destruct (IH _ _ Hb) as [ob ->]. unfold read_txout in Ha.
    apply p_bind_inv in Ha as (v & lc & Hc & Ha). apply p_int_inv in Hc as (vb & -> & _).
    apply p_bind_inv in Ha as (sl & ld & Hd & Ha). 
    assert (exists vi, lc = vi ++ ld) as [vi ->].
    { destruct (read_varint_inv _ _ _ Hd) as [(-> & _)|(b & bs & -> & _)];
        [by exists [sl] | by exists (b :: bs)]. }
    destr_if_in Ha; [done|]. apply p_bind_inv in Ha as (sc & le & He & [= _ ->]).
    apply take_bytes_inv in He as [-> _]. exists (vb ++ vi ++ sc ++ ob). by rewrite <- !app_assoc. }
  destruct Hbody as [ob ->]. rewrite step_pos in H.
  apply p_bind_inv in H as (lt & l9 & H9 & H). apply p_int_inv in H9 as (lb & -> & Hlb & ->).
  unfold at_end, remaining in H. destruct (negb _) eqn:Eend in H; [done|]. apply negb_false_iff, Nat.eqb_eq, nil_length_inv in Eend as ->.
  injection H as <- <-. cbn [script_sig lock_time_at lock_time cb_height].
  exists vb, in1, in2, (sb ++ in3 ++ ob), lb. rewrite app_nil_r in *.
  assert (Hlen : (length l = 4 + (length in1 + (36 + (length in2 + (length sig + (4 + (length in3 + (length ob + 4))))))))%nat).
  { rewrite El, !length_app. rewrite Hvl, Hsb, Hlb. done. }
  conjs; [by rewrite El, <- !app_assoc | done | done | by rewrite Hlb | lia | apply Hin1 | | done | done].
  rewrite Hsl, Z2Nat.id by lia. apply Hin2.
Qed.

(** The byte [target_byte_at] finds is in the scriptSig the parser reads, however the counts before
    it are written. *)
Lemma target_in_script_sig l c i : parse l = Ok c -> target_byte_at l = Some i ->
  (42 <= i < 42 + length (script_sig c))%nat /\ l !! i = script_sig c !! (i - 42)%nat.
Proof.
  intros Hp Ht. apply target_byte_bounds in Ht as (len & Hlen & Hfd & Hll & Hi).
  apply parse_inv in Hp as (ver & in1 & in2 & body & lock & -> & Hv & Hlk & _ & _ & Hin1 & Hin2 & _ & _).
  assert (Hlook : forall (a b : list Z) k, (length a <= k)%nat -> (a ++ b) !! k = b !! (k - length a)%nat).
  { intros a b k Hk. by apply lookup_app_r. }
  assert (E1 : in1 = [1]).
  { destruct (read_varint_inv _ _ _ Hin1) as [(E & _)|(b & bs & E & E1 & Hb)].
    - by apply (app_inv_tail null_outpoint in1 [1]).
    - exfalso. apply (app_inv_tail null_outpoint in1 (b :: bs)) in E. subst in1.
      rewrite (Hlook ver) in Hlen by lia. rewrite (Hlook (b :: bs)) in Hlen.
      2:{ cbn [length]. lia. }
      rewrite Hv in Hlen. cbn [length] in Hlen. unfold null_outpoint in Hlen.
      destruct Hb as [[-> Hl]|[[-> Hl]|[-> Hl]]]; rewrite Hl in Hlen; cbn in Hlen; injection Hlen as <-; lia. }
  subst in1. assert (E2 : in2 = [Z.of_nat (length (script_sig c))]).
  { destruct (read_varint_inv _ _ _ Hin2) as [(E & _)|(b & bs & E & E2 & Hb)].
    - by apply (app_inv_tail (script_sig c) in2 [_]).
    - exfalso. apply (app_inv_tail (script_sig c) in2 (b :: bs)) in E. subst in2.
      rewrite (Hlook ver), (Hlook [1]) in Hlen by (cbn [length]; lia).
      rewrite (Hlook null_outpoint) in Hlen by (rewrite Hv; cbn; lia).
      rewrite Hv in Hlen. cbn in Hlen. injection Hlen as <-. lia. }
  subst in2.
  assert (Hl0 : len = Z.of_nat (length (script_sig c))).
  { rewrite (Hlook ver), (Hlook [1]) in Hlen by (cbn [length]; lia).
    rewrite (Hlook null_outpoint) in Hlen by (rewrite Hv; cbn; lia).
    rewrite Hv in Hlen. cbn in Hlen. by injection Hlen as <-. }
  subst len. rewrite Nat2Z.id in Hi. split; [lia|].
  rewrite (Hlook ver), (Hlook [1]) by (cbn [length]; lia). rewrite Hv.
  rewrite (Hlook null_outpoint) by (cbn; lia).
  rewrite (Hlook [_]) by (cbn; lia).
  rewrite lookup_app_l by (cbn; lia). f_equal. cbn. lia.
Qed.

(** * What [build] lays out *)

Definition built_sig (h : Z) (tag : list Z) : list Z :=
  build_sig_front h (Z.of_nat (length tag) + 1) tag ++ build_sig_back ++ replicate EXTRANONCE_SLOT 0.

Lemma length_front h tp tag : length (build_sig_front h tp tag) = (height_bytes h + length tag + 4)%nat.
Proof.
  unfold build_sig_front. pose proof (height_bytes_range h).
  rewrite !length_app, length_take, length_u32. cbn [length]. lia.
Qed.

Lemma length_built_sig h tag : length (built_sig h tag) = (height_bytes h + length tag + 26)%nat.
Proof. unfold built_sig. rewrite !length_app, length_front. cbn [build_sig_back length EXTRANONCE_SLOT replicate app]. lia. Qed.

Lemma built_height h tag : in_range u32_max h -> bip34_height (built_sig h tag) = Some h.
Proof.
  intros Hh. unfold built_sig, build_sig_front. rewrite <- !app_assoc.
  pose proof (height_bytes_range h). rewrite bip34_height_built.
  - by rewrite height_value.
  - done.
  - rewrite length_take, length_u32. lia.
  - apply is_bytes_take, le_bytes_is_bytes.
Qed.

Lemma target_byte_layout ver sig seq outs lt :
  Z.of_nat (length sig) < 0xfd ->
  target_byte_at (layout ver sig seq outs lt) =
    (i ← push_end sig 0; i ← push_end sig i; n ← sig !! i;
     if between 0x01 0x4b n && (i + 1 + Z.to_nat n <=? length sig)%nat then Some (SIG_AT + i + 1)%nat else None).
Proof.
  intros Hl. unfold target_byte_at.
  set (post := u32_bytes seq ++ write_varint (Z.of_nat (length outs)) ++ concat (map encode_txout outs) ++ u32_bytes lt).
  assert (E : layout ver sig seq outs lt = (u32_bytes ver ++ [1] ++ null_outpoint) ++ [Z.of_nat (length sig)] ++ sig ++ post).
  { unfold layout, post. by rewrite <- !app_assoc. }
  rewrite E. set (pre := u32_bytes ver ++ [1] ++ null_outpoint).
  assert (Hpre : length pre = 41%nat) by (unfold pre; rewrite !length_app, length_u32; done).
  change (SIG_AT - 1)%nat with 41%nat. rewrite lookup_app_r by lia. rewrite Hpre. cbn [Nat.sub app lookup list_lookup mbind option_bind].
  rewrite (proj2 (Z.leb_gt _ _)) by lia. rewrite Nat2Z.id.
  rewrite length_app. cbn [length]. rewrite Hpre, length_app. unfold SIG_AT.
  rewrite (proj2 (Nat.ltb_ge _ _)) by lia.
  rewrite drop_app_ge, Hpre by lia. change (drop (42 - 41) (Z.of_nat (length sig) :: sig ++ post)) with (drop 0 (sig ++ post)).
  by rewrite drop_0, take_app_length.
Qed.

(** The front [build] writes decides the offset, whatever 22 bytes follow it. *)
Lemma built_target ver h tag rest seq outs lt : (length tag <= 70)%nat -> length rest = 22%nat ->
  let front := build_sig_front h (Z.of_nat (length tag) + 1) tag in
  target_byte_at (layout ver (front ++ rest) seq outs lt) = Some (42 + length front)%nat.
Proof.
  intros Ht Hr front. pose proof (height_bytes_range h) as Hn.
  pose proof (length_front h (Z.of_nat (length tag) + 1) tag) as Hf. fold front in Hf.
  assert (Hs : length (front ++ rest) = (height_bytes h + length tag + 26)%nat) by (rewrite length_app; lia).
  rewrite target_byte_layout by lia. rewrite Hf.
  set (hb := take (height_bytes h) (u32_bytes h)).
  assert (Hhb : length hb = height_bytes h) by (unfold hb; rewrite length_take, length_u32; lia).
  set (n := height_bytes h) in *. set (sig := front ++ rest) in *.
  assert (E : sig = Z.of_nat n :: hb ++ (Z.of_nat (length tag) + 1) :: tag ++ 0 :: 7 :: rest).
  { unfold sig, front, build_sig_front. fold n. fold hb. rewrite <- !app_assoc. done. }
  assert (L1 : sig !! (1 + n)%nat = Some (Z.of_nat (length tag) + 1)).
  { rewrite E. cbn [Nat.add]. change ((?x :: ?l) !! S n) with (l !! n). by rewrite lookup_app_r, Hhb, Nat.sub_diag by lia. }
  assert (L2 : sig !! (1 + n + 1 + length tag + 1)%nat = Some 7).
  { rewrite E. replace (1 + n + 1 + length tag + 1)%nat with (S (n + S (length tag + 1))) by lia.
    change ((?x :: ?l) !! S ?k) with (l !! k). rewrite lookup_app_r by lia.
    replace (n + S (length tag + 1) - length hb)%nat with (S (length tag + 1)) by lia.
    change ((?x :: ?l) !! S ?k) with (l !! k). rewrite lookup_app_r by lia.
    by replace (length tag + 1 - length tag)%nat with 1%nat by lia. }
  assert (P1 : push_end sig 0 = Some (1 + n)%nat).
  { unfold push_end. rewrite E. cbn [lookup list_lookup mbind option_bind]. unfold between.
    rewrite !(proj2 (Z.leb_le _ _)) by lia. cbn [andb]. f_equal. lia. }
  assert (P2 : push_end sig (1 + n) = Some (1 + n + 1 + length tag + 1)%nat).
  { unfold push_end. rewrite L1. cbn [mbind option_bind]. unfold between.
    rewrite !(proj2 (Z.leb_le _ _)) by lia. cbn [andb]. f_equal. lia. }
  rewrite P1. cbn [mbind option_bind]. rewrite P2. cbn [mbind option_bind]. rewrite L2. cbn [mbind option_bind].
  change (between 1 75 7) with true. rewrite Hs. rewrite (proj2 (Nat.leb_le _ _)) by lia. cbn [andb].
  f_equal. unfold SIG_AT. lia.
Qed.

(** Writing the target byte stays inside the part of the scriptSig after the front. *)
Lemma layout_insert ver front rest seq outs lt pot :
  (0 < length rest)%nat ->
  <[(42 + length front)%nat := pot]> (layout ver (front ++ rest) seq outs lt) =
    layout ver (front ++ <[0%nat := pot]> rest) seq outs lt.
Proof.
  intros Hr. unfold layout. rewrite !length_app, length_insert.
  assert (Hn : length null_outpoint = 36%nat) by done.
  rewrite insert_app_r_alt by (rewrite length_u32; lia). f_equal. rewrite length_u32.
  rewrite insert_app_r_alt by (cbn; lia). f_equal. cbn [length].
  rewrite insert_app_r_alt by lia. f_equal. rewrite Hn.
  rewrite insert_app_r_alt by (cbn; lia). f_equal. cbn [length]. rewrite <- !app_assoc.
  rewrite insert_app_r_alt by lia. f_equal.
  replace (42 + length front - 4 - 1 - 36 - 1 - length front)%nat with 0%nat by lia.
  by rewrite insert_app_l.
Qed.

Lemma build_layout h tag outs lt : (length tag <= 70)%nat ->
  let v := layout 1 (built_sig h tag) 0xffffffff outs lt in
  let tbi := (42 + length (build_sig_front h (Z.of_nat (length tag) + 1) tag))%nat in
  build h tag outs lt = Ret (v, tbi, (tbi + 10)%nat).
Proof.
  intros Ht. unfold build. unfold trunc. rewrite Z.mod_small by lia. rewrite chk_add_ok by lia. mstep.
  fold (built_sig h tag). pose proof (length_built_sig h tag) as Hs. pose proof (height_bytes_range h) as Hn.
  rewrite (varint_small (Z.of_nat _)) by lia.
  change (build_sig_front h (Z.of_nat (length tag) + 1) tag ++ build_sig_back ++ replicate EXTRANONCE_SLOT 0)
    with (built_sig h tag).
  rewrite !length_app, length_u32, !length_replicate. cbn [length build_sig_back app].
  by f_equal.
Qed.

(** Cutting a built coinbase around its slot and putting it together again, target byte set. *)
Lemma assemble_built h tag outs lt pot : (length tag <= 70)%nat ->
  let front := build_sig_front h (Z.of_nat (length tag) + 1) tag in
  let v := layout 1 (built_sig h tag) 0xffffffff outs lt in
  let tbi := (42 + length front)%nat in
  assemble (take (tbi + 10) v) (drop (tbi + 10 + EXTRANONCE_SLOT) v) tbi pot =
    layout 1 (front ++ <[0%nat := pot]> (build_sig_back ++ replicate EXTRANONCE_SLOT 0)) 0xffffffff outs lt.
Proof.
  intros Ht front v tbi. unfold assemble. unfold is_whole.
  rewrite (proj2 (Nat.eqb_neq tbi 0)), andb_false_r by (unfold tbi; lia).
  set (pre := u32_bytes 1 ++ [1] ++ null_outpoint ++ [Z.of_nat (length (built_sig h tag))] ++ front ++ build_sig_back).
  set (post := u32_bytes 0xffffffff ++ write_varint (Z.of_nat (length outs)) ++ concat (map encode_txout outs) ++ u32_bytes lt).
  assert (E : v = pre ++ replicate EXTRANONCE_SLOT 0 ++ post).
  { unfold v, pre, post, layout, built_sig. fold front. by rewrite <- !app_assoc. }
  assert (Hp : length pre = (tbi + 10)%nat).
  { unfold pre, tbi. rewrite !length_app, length_u32. cbn [length null_outpoint build_sig_back app].
    unfold null_outpoint. rewrite length_app, !length_replicate. lia. }
  assert (Ev : take (tbi + 10) v ++ replicate EXTRANONCE_SLOT 0 ++ drop (tbi + 10 + EXTRANONCE_SLOT) v = v).
  { rewrite E. rewrite take_app_length' by done. rewrite <- drop_drop, drop_app_length' by done.
    by rewrite drop_app_length' by by rewrite length_replicate. }
  rewrite Ev. rewrite (proj2 (Nat.ltb_lt _ _)).
  - unfold v, tbi, built_sig. fold front. rewrite layout_insert; [done|].
    rewrite length_app, length_replicate. unfold EXTRANONCE_SLOT. lia.
  - rewrite E, length_app. lia.
Qed.

(** * The witness form *)

Lemma with_witness_spec l c : parse l = Ok c ->
  exists ver body lock, l = ver ++ body ++ lock /\ length ver = 4%nat /\ length lock = 4%nat /\
    with_witness l c = ver ++ [0x00; 0x01] ++ body ++ COINBASE_WITNESS ++ lock.
Proof.
  intros H. apply parse_inv in H as (ver & in1 & in2 & body & lock & E & Hv & Hl & Hat & Hlen & _).
  exists ver, (in1 ++ null_outpoint ++ in2 ++ script_sig c ++ body), lock.
  set (mid := in1 ++ null_outpoint ++ in2 ++ script_sig c ++ body).
  assert (E2 : l = ver ++ mid ++ lock) by (rewrite E; unfold mid; by rewrite <- !app_assoc).
  conjs; [done | done | done |]. unfold with_witness. rewrite Hat.
  assert (Hn : (length l - 4 = length (ver ++ mid))%nat).
  { rewrite E2, !length_app. lia. }
  rewrite Hn. rewrite E2, (app_assoc ver mid lock). rewrite take_app_length, drop_app_length.
  rewrite <- app_assoc, take_app_length' by done. by rewrite drop_app_length' by done.
Qed.

Lemma length_layout ver sig seq outs lt sig' : length sig = length sig' ->
  length (layout ver sig seq outs lt) = length (layout ver sig' seq outs lt).
Proof. intros E. unfold layout. by rewrite !length_app, E. Qed.

Lemma built_coinbase h tag outs lt pot :
  in_range u32_max h -> (length tag <= 70)%nat -> in_range u32_max lt ->
  Forall txout_ok outs -> 1 <= Z.of_nat (length outs) <= 10000 ->
  exists v tbi slot c, build h tag outs lt = Ret (v, tbi, slot) /\
    let legacy := assemble (take slot v) (drop (slot + EXTRANONCE_SLOT) v) tbi pot in
    parse legacy = Ok c /\ cb_height c = Some h /\ outputs c = outs /\ lock_time c = lt /\
    length legacy = length v /\ commits_target legacy tbi = true /\ legacy !! tbi = Some pot.
Proof.
  intros Hh Ht Hlt HF Hn. pose proof (build_layout h tag outs lt Ht) as Hb. cbv zeta in Hb.
  pose proof (assemble_built h tag outs lt pot Ht) as Ha. cbv zeta in Ha.
  set (front := build_sig_front h (Z.of_nat (length tag) + 1) tag) in *.
  set (rest := <[0%nat := pot]> (build_sig_back ++ replicate EXTRANONCE_SLOT 0)) in *.
  assert (Hrest : length rest = 22%nat) by (unfold rest; by rewrite length_insert).
  assert (Hsl : length (front ++ rest) = length (built_sig h tag)).
  { unfold built_sig. fold front. by rewrite !(length_app front), Hrest. }
  assert (Hlen : Z.of_nat (length (front ++ rest)) <= 100 /\ 2 <= Z.of_nat (length (front ++ rest))).
  { rewrite Hsl, length_built_sig. pose proof (height_bytes_range h). lia. }
  eexists _, _, _, _. split; [exact Hb|]. cbv zeta. rewrite Ha.
  assert (Hc : commits_target (layout 1 (front ++ rest) 0xffffffff outs lt) (42 + length front) = true).
  { unfold commits_target. apply bool_decide_eq_true_2. by apply built_target. }
  split; [apply parse_layout_ok; unfold in_range in *; lia || done|].
  cbn [cb_height outputs lock_time]. conjs; [| done | done | by apply length_layout | exact Hc |].
  - unfold front, build_sig_front. rewrite <- !app_assoc. pose proof (height_bytes_range h).
    rewrite bip34_height_built; [by rewrite height_value | done | | apply is_bytes_take, le_bytes_is_bytes].
    rewrite length_take, length_u32. lia.
  - rewrite <- Ha in Hc |- *. by apply commits_pot.
Qed.
