(* ===== verification/WireProps.v ===== *)
(** The properties of the wire protocol: framing, the encrypted channel, the handshake, the mining
    messages and the coinbase. *)

From S2P Require Import Prelude Bytes Cursor Frame Crypto Coinbaser Handshake Mining.
From S2P Require Import Coinbase.
Open Scope Z_scope.

(** * Framing *)

(** Both ends that start their header keys from one hello seed stay in step: whatever headers
    one end sends, the other reads exactly those, in order, and both end on the same key. *)
Theorem frame_lockstep (seed : Z) (hs : list Header) :
  Forall header_ok hs ->
  let k := (from_seed seed).1 in
  decode_headers (encode_headers hs k).1 k = (map Ok hs, (encode_headers hs k).2).
Proof. intros H k. apply headers_lockstep; [done | apply feedback_range]. Qed.

Definition demo_header : Header := {| h_len := 300; h_signed := true; h_sealed := false; h_channel := true; h_cmd := 5 |}.

Lemma frame_lockstep_witness :
  (decode_headers (encode_headers [demo_header; header_new PING 0] (from_seed 7).1).1 (from_seed 7).1).1
    = [Ok demo_header; Ok (header_new PING 0)].
Proof.
  rewrite (frame_lockstep 7 [demo_header; header_new PING 0]); [done|].
  apply Forall_cons. split; [unfold header_ok; cbn; lia|].
  apply Forall_cons. split; [|constructor].
  split; split; vm_compute; congruence.
Defined.

(** * The channel *)

(** Over a channel whose ends agree on key and nonce, every message sent is received as it
    was, in order, and the ends still agree afterwards, however many messages there are. *)
Theorem channel_delivers {Key : Type} (enc : Key -> list Z -> list Z -> list Z)
    (dec : Key -> list Z -> list Z -> option (list Z))
    (box_opens : forall k n m, dec k n (enc k n m) = Some m)
    (box_length : forall k n m, length (enc k n m) = (MAC + length m)%nat)
    (a b : Channel) (ms : list (list Z)) :
  bx a = bx b -> send_nonce a = recv_nonce b ->
  let sent := encrypt_all enc a ms in let got := decrypt_all dec b sent.1 in
  got.1 = map Ok ms /\ recv_nonce got.2 = send_nonce sent.2.
Proof. intros H1 H2. by apply channel_lockstep. Qed.

(** A box for the witness: a header of sixteen bytes in front of the plaintext. *)
Definition toy_enc (k : Z) (n m : list Z) : list Z := replicate MAC k ++ m.
Definition toy_dec (k : Z) (n c : list Z) : option (list Z) := Some (drop MAC c).
Definition demo_channel (k : Z) (n1 n2 : list Z) : Channel := {| bx := k; send_nonce := n1; recv_nonce := n2 |}.

Lemma channel_delivers_witness :
  let '(to_client, from_client) := session_nonces 1 (replicate 32 7) in
  (decrypt_all toy_dec (demo_channel 9 from_client to_client)
     (encrypt_all toy_enc (demo_channel 9 to_client from_client) [[1; 2]; []; [3]]).1).1 = [Ok [1; 2]; Ok []; Ok [3]].
Proof.
  destruct (session_nonces 1 (replicate 32 7)) as [t f].
  apply (channel_delivers toy_enc toy_dec); [done | done | done | done].
Defined.

(** C40: a session never encrypts twice under one nonce: within 2^192 messages a direction's
    counter does not come back, and for the first 2^188 messages each way no nonce of one
    direction is a nonce of the other. *)
Theorem nonces_never_meet (seed : Z) (pk : list Z) (i j : nat) :
  let '(to_client, from_client) := session_nonces seed pk in
  (Z.of_nat i < 2 ^ 188 -> Z.of_nat j < 2 ^ 188 ->
     Nat.iter i bump_nonce to_client <> Nat.iter j bump_nonce from_client) /\
  (i <> j -> Z.of_nat i < 2 ^ 192 -> Z.of_nat j < 2 ^ 192 ->
     Nat.iter i bump_nonce to_client <> Nat.iter j bump_nonce to_client /\
     Nat.iter i bump_nonce from_client <> Nat.iter j bump_nonce from_client).
Proof.
  destruct (session_nonces seed pk) as [t f] eqn:E.
  pose proof (session_nonces_ok seed pk) as [Ht Hf]. rewrite E in Ht, Hf. cbn [fst snd] in *.
  destruct (bump_iter i t Ht) as [_ Hti], (bump_iter j t Ht) as [_ Htj].
  destruct (bump_iter i f Hf) as [_ Hfi], (bump_iter j f Hf) as [_ Hfj]. split.
  - intros Hi Hj Heq. pose proof (directions_apart seed pk (Z.of_nat i) (Z.of_nat j)) as H.
    rewrite E in H. cbn [fst snd] in H. apply H; [lia | lia |]. by rewrite <- Hti, <- Hfj, Heq.
  - intros Hne Hi Hj. split; intros Heq.
    + apply (counter_apart (of_le t) (Z.of_nat i) (Z.of_nat j)); [lia..|]. by rewrite <- Hti, <- Htj, Heq.
    + apply (counter_apart (of_le f) (Z.of_nat i) (Z.of_nat j)); [lia..|]. by rewrite <- Hfi, <- Hfj, Heq.
Qed.

(** * The coinbaser split *)

(** The coinbaser v2 decoder accepts exactly what the encoder writes: some bytes decode to an
    id and a list of outputs if and only if they are the encoding of that id and list, each output
    within the bounds of the format and at most 512 of them. *)
Theorem coinbaser_exact (bs : list Z) (id : Z) (outs : list Output) : is_bytes bs ->
  decode_v2 bs = Ok (id, outs) <->
  bs = encode_v2 id outs /\ is_byte id /\ Forall output_ok outs /\ (length outs <= MAX_OUTPUTS)%nat.
Proof.
  intros Hb. split; [by apply decode_v2_inv|]. intros (-> & Hid & HF & Hl). by apply decode_encode_v2.
Qed.

Definition demo_outputs : list Output :=
  [{| sats := 1000; script := [0; 20; 1; 2; 3] |}; {| sats := u64_max; script := replicate 64 81 |}].

Lemma coinbaser_exact_witness : decode_v2 (encode_v2 7 demo_outputs) = Ok (7, demo_outputs).
Proof.
  apply coinbaser_exact; [vm_compute; repeat constructor; congruence|].
  split; [done|]. split; [vm_compute; split; congruence|]. split.
  - apply (bool_decide_unpack _). vm_compute. done.
  - vm_compute. lia.
Defined.

(** * The handshake *)

(** A toy of the NaCl interface, for the witnesses: an identity is a number, a signature repeats
    the key, a sealed box names the key it is for. *)
#[local] Instance toy_nacl : Nacl Z () := {|
  sign_pk := fun i => le_bytes 32 i;
  box_pk := fun i => le_bytes 32 i;
  sign := fun i m => le_bytes 32 i ++ le_bytes 32 (of_le m);
  ed25519_verify := fun pk m s => bool_decide (s = pk ++ le_bytes 32 (of_le m));
  seal := fun _ pk m => pk ++ m;
  box_unseal := fun i c => if decide (take 32 c = le_bytes 32 i) then Some (drop 32 c) else None
|}.
#[local] Instance toy_laws : NaclLaws Z ().
Proof.
  split; intros; [done | done | done | |]; unfold ed25519_verify, sign, sign_pk, box_unseal, seal, box_pk, toy_nacl.
  - by rewrite bool_decide_eq_true_2.
  - rewrite take_app_length' by by rewrite length_le_bytes.
    rewrite decide_True by done. by rewrite drop_app_length' by by rewrite length_le_bytes.
Defined.

(** The hello a gateway builds is the hello the pool reads: keys, user agent, seed, and the
    generation its padding announces, with the resume token when a Convoy gateway presents one;
    and the pool's reply gives that gateway the session keys and the message back. *)
Theorem hello_round_trip {Identity Rand : Type} `{NaclLaws Identity Rand}
    (r1 r2 : Rand) (pool identity session server : Identity) (ua motd : list Z) (sd : Z)
    (token : option (list Z)) (more : list Z) :
  Forall (fun b => b <> 0) ua -> (length ua <= MAX_USER_AGENT)%nat -> in_range u32_max sd ->
  (forall t, token = Some t -> length t = RESUME_TOKEN) -> Forall (fun b => b <> 0) motd ->
  let pad := convoy_hello_extension token ++ more in
  exists h,
    parse_client_hello pool (build_client_hello r1 (box_pk pool) identity session ua sd pad) = Ok h /\
    h = {| identity_sign_pk := sign_pk identity; identity_box_pk := box_pk identity;
           session_sign_pk := sign_pk session; session_box_pk := box_pk session;
           user_agent := utf8_lossy ua; seed := sd; generation := Convoy; resume_token := token |} /\
    parse_server_hello (sign_pk pool) session (build_server_hello r2 pool server h motd) =
      Ok (sign_pk server, box_pk server, utf8_lossy (take MAX_MOTD motd)).
Proof.
  intros Hua Hl Hsd Ht Hm pad. eexists. split.
  - apply parse_built_hello; [done | done | done | by apply pad_convoy].
  - split; [done|]. apply parse_built_reply; cbn; try apply sign_pk_length; try apply box_pk_length; done.
Qed.

Lemma hello_round_trip_witness :
  exists h, parse_client_hello 1 (build_client_hello () (box_pk 1) 2 3 (str_bytes "ua") 5
              (convoy_hello_extension (Some (replicate 40 9)) ++ [7; 7])) = Ok h /\
    resume_token h = Some (replicate 40 9).
Proof.
  destruct (hello_round_trip () () 1 2 3 4 (str_bytes "ua") [] 5 (Some (replicate 40 9)) [7; 7]) as (h & H1 & H2 & _).
  - vm_compute. repeat constructor; congruence.
  - vm_compute. lia.
  - vm_compute. split; congruence.
  - by intros t [= <-].
  - constructor.
  - exists h. split; [exact H1|]. by rewrite H2.
Defined.

(** Nothing unsigned gets in: every field of a hello the pool accepts, the seed and the
    resume token included, is in a message that verifies under the identity key the hello
    names, and that the pool's own key unsealed. *)
Theorem hello_authentic {Identity Rand : Type} `{NaclLaws Identity Rand}
    (pool : Identity) (sealed : list Z) (h : ClientHello) :
  is_bytes (match box_unseal pool sealed with Some p => p | None => [] end) ->
  parse_client_hello pool sealed = Ok h ->
  exists ua pad sig,
    let m := identity_sign_pk h ++ identity_box_pk h ++ session_sign_pk h ++ session_box_pk h
             ++ (ua ++ [0]) ++ [0xFE] ++ u32_bytes (seed h) ++ pad in
    box_unseal pool sealed = Some (m ++ sig) /\ length sig = SIG /\
    ed25519_verify (identity_sign_pk h) m sig = true /\
    user_agent h = utf8_lossy ua /\ pad_says pad = Ok (generation h, resume_token h).
Proof. apply parse_client_hello_inv. Qed.

Lemma hello_authentic_witness :
  exists h m sig, parse_client_hello 1 (build_client_hello () (box_pk 1) 2 3 (str_bytes "ua") 5 [0; 0]) = Ok h /\
    ed25519_verify (identity_sign_pk h) m sig = true.
Proof.
  set (sealed := build_client_hello () (box_pk 1) 2 3 (str_bytes "ua") 5 [0; 0]).
  destruct (parse_client_hello 1 sealed) as [h|e] eqn:E; [|vm_compute in E; discriminate E].
  destruct (hello_authentic 1 sealed h) as (ua & pad & sig & _ & _ & Hv & _).
  - apply (bool_decide_unpack _). vm_compute. done.
  - exact E.
  - exists h. eexists. exists sig. split; [done | exact Hv].
Defined.

(** * Shares *)

(** A share a gateway can build is read back as it was, every section included, with any
    padding after the terminator. *)
Theorem pow_round_trip (s : PowSubmit) (pad : list Z) : pow_ok s ->
  parse_client (pow_encode s ++ pad) = Ok (MsgPow s).
Proof.
  intros H. unfold pow_encode, parse_client. rewrite <- !app_assoc. cbn [app].
  change (SUB_POW =? SUB_COINBASER_REQUEST) with false. cbv iota.
  change (SUB_POW =? SUB_POW) with true. cbv iota.
  pose proof (pow_decode_encode s pad H) as E. cbn [app] in E. by rewrite E.
Qed.

Definition demo_pow : PowSubmit :=
  {| job_id := 3; coinbase_id := 1; flags := 8; target_pot := 13; ntime32 := 1788408528; nonce32 := 77;
     version := 0xa0000000; extranonce := [1; 2; 3; 4; 5; 6; 7; 8; 9; 10; 11; 12]; username := str_bytes "bc1qminer.rig";
     reserved := [1; 0; 0; 0]; blake2b := Some {| b_ntime := replicate 8 5; b_nonce := replicate 8 6 |};
     time_on_wire := Some 1788408528;
     job := Some {| j_prev_hash := replicate 32 119; target_byte_index := 61; nbits := [64; 45; 60; 25];
                    coinbaser_id := 7; height := 966267; coinbase_value := 312538966; txn_count := 2;
                    txn_total_weight := 0; txn_total_size := 0; txn_total_sigops := 0;
                    merkle_branches := [replicate 32 1; replicate 32 2] |};
     coinbase := Some {| cb_id := 1; coinb1 := [1; 2; 3]; coinb2 := [4] |} |}.

Lemma pow_round_trip_witness : parse_client (pow_encode demo_pow ++ [1; 2; 3]) = Ok (MsgPow demo_pow).
Proof.
  apply pow_round_trip. split.
  - unfold fixed_ok, is_utf8, is_byte, in_range. apply (bool_decide_unpack _). vm_compute. done.
  - unfold sections_ok, opt_all. cbn. conjs.
    + intros b [= <-]. by split.
    + intros t [= <-]. unfold in_range. lia.
    + done.
    + intros j [= <-]. unfold job_ok, is_byte, in_range. cbn. conjs; try lia; try reflexivity. by repeat constructor.
    + intros c [= <-]. unfold coinbase_ok, is_byte, in_range. cbn. lia.
Defined.

(** A job-validation reply costs no more memory than its bytes: what is parsed out of a body
    fits in the body, six bytes to a short id and three over its own to a transaction, and every
    short id is below 2^48. *)
Theorem validation_reply_bounded (body : list Z) (r : JobValidationReply) : is_bytes body ->
  validation_decode body = Ok r ->
  (3 + reply_weight r <= length body)%nat /\
  match r with ShortIds _ _ ids _ => Forall (fun x => 0 <= x < 2 ^ 48) ids | _ => True end.
Proof.
  intros Hb H. unfold validation_decode in H. apply bind_Ok_inv in H as ([r' l'] & H & [= ->]).
  by eapply validation_reply_inv.
Qed.

Lemma validation_reply_bounded_witness :
  exists r, validation_decode ([0x90; 3; 1; 1; 0; 5; 0; 0; 0; 1; 0] ++ replicate 32 8) = Ok r /\ reply_weight r = 6%nat /\
    (9 <= 43)%nat.
Proof.
  eexists. split; [vm_compute; reflexivity|]. split; [reflexivity|].
  apply (validation_reply_bounded ([0x90; 3; 1; 1; 0; 5; 0; 0; 0; 1; 0] ++ replicate 32 8)
    (ShortIds 3 StatusOk [4294967301] (Some (replicate 32 8)))); [|reflexivity].
  apply (bool_decide_unpack _). vm_compute. done.
Defined.

(** * The coinbase *)

(** The coinbase a gateway builds, cut around its extranonce slot and put together again with
    a share's difficulty in it, parses to what was built, says its height and its outputs,
    and commits to that difficulty. *)
Theorem coinbase_round_trip (h : Z) (tag : list Z) (outs : list TxOut) (lt pot : Z) :
  in_range u32_max h -> (length tag <= 70)%nat -> in_range u32_max lt ->
  Forall txout_ok outs -> 1 <= Z.of_nat (length outs) <= 10000 ->
  exists v tbi slot c, build h tag outs lt = Ret (v, tbi, slot) /\
    let legacy := assemble (take slot v) (drop (slot + EXTRANONCE_SLOT) v) tbi pot in
    parse legacy = Ok c /\ cb_height c = Some h /\ outputs c = outs /\ lock_time c = lt /\
    length legacy = length v /\ commits_target legacy tbi = true /\ legacy !! tbi = Some pot.
Proof. apply built_coinbase. Qed.

Lemma coinbase_round_trip_witness :
  exists v tbi slot c, build 966267 (str_bytes "Lazarus") [{| o_value := 5; o_script := [81] |}] 0 = Ret (v, tbi, slot) /\
    parse (assemble (take slot v) (drop (slot + EXTRANONCE_SLOT) v) tbi 13) = Ok c /\ cb_height c = Some 966267.
Proof.
  destruct (coinbase_round_trip 966267 (str_bytes "Lazarus") [{| o_value := 5; o_script := [81] |}] 0 13)
    as (v & tbi & slot & c & H1 & H2 & H3 & _).
  - unfold in_range. lia.
  - vm_compute. lia.
  - unfold in_range. lia.
  - repeat constructor; cbn; lia.
  - cbn. lia.
  - by exists v, tbi, slot, c.
Defined.

(** One coinbase, one claim: if two shares assemble to the same bytes and both name a target
    byte those bytes commit to, they name the same byte and claim the same difficulty; and the
    byte is in the scriptSig the parser reads, where the miner hashed it. *)
Theorem target_claim_unique (c1 c2 c1' c2' : list Z) (i i' : nat) (pot pot' : Z) :
  let v := assemble c1 c2 i pot in
  assemble c1' c2' i' pot' = v -> commits_target v i = true -> commits_target v i' = true ->
  i = i' /\ pot = pot' /\
  (forall c, parse v = Ok c -> (42 <= i)%nat /\ script_sig c !! (i - 42)%nat = Some pot).
Proof.
  intros v E H1 H2. assert (i = i') as <-.
  { unfold commits_target in H1, H2. bools. congruence. }
  pose proof (commits_pot _ _ _ _ H1) as P1. rewrite <- E in H2. pose proof (commits_pot _ _ _ _ H2) as P2.
  rewrite E in P2. fold v in P1. assert (pot = pot') by congruence. conjs; [done | done |].
  intros c Hc. unfold commits_target in H1. bools.
  destruct (target_in_script_sig v c i Hc H1) as [Hr Hl]. split; [lia | by rewrite <- Hl].
Qed.

(** A built coinbase, cut around its slot; its target byte is at 59. *)
Definition demo_built : list Z * nat * nat :=
  match build 966267 (str_bytes "Lazarus") [{| o_value := 5; o_script := [81] |}] 0 with
  | Ret r => r | Panic => ([], 0%nat, 0%nat)
  end.
Definition demo_c1 : list Z := take demo_built.2 demo_built.1.1.
Definition demo_c2 : list Z := drop (demo_built.2 + EXTRANONCE_SLOT) demo_built.1.1.

Lemma target_claim_unique_witness :
  exists c, parse (assemble demo_c1 demo_c2 demo_built.1.2 13) = Ok c /\
    script_sig c !! (demo_built.1.2 - 42)%nat = Some 13.
Proof.
  destruct (parse (assemble demo_c1 demo_c2 demo_built.1.2 13)) as [c|e] eqn:E; [|vm_compute in E; discriminate E].
  exists c. split; [done|].
  destruct (target_claim_unique demo_c1 demo_c2 demo_c1 demo_c2 demo_built.1.2 demo_built.1.2 13 13) as (_ & _ & H).
  - reflexivity.
  - vm_compute. reflexivity.
  - vm_compute. reflexivity.
  - by destruct (H c E).
Defined.
