(* ===== verification/Verify.v ===== *)
(** Pool-side share verification ([prime/wire/src/verify.rs]): the job slot and its caches, what a
    coinbase pays, and rebuilding the header a miner hashed. *)

From S2P Require Import Prelude Bytes Cursor Coinbaser Mining Handshake Pow Coinbase.
Open Scope Z_scope.

Definition MAX_TIME_AHEAD : Z := 7200.
Definition MAX_TIME_BEHIND : Z := 3600.
Definition MAX_COINBASE_SECTION_BYTES : Z := 20000.
Definition MAX_COINBASES_PER_SLOT : nat := 8.
Definition MAX_CB_CACHE : nat := 32.
Definition MAX_CB_CACHE_BYTES : Z := 384 * 1024.
Definition MAX_H2_CACHE : nat := 64.

#[export] Instance JobSection_eq_dec : EqDecision JobSection.
Proof. solve_decision. Defined.
#[export] Instance CoinbaseSection_eq_dec : EqDecision CoinbaseSection.
Proof. solve_decision. Defined.

(** * Job slots *)

Record Absorbed := { job_changed : bool; coinbase_added : option Z }.

(** The keys of the caches: coinbase id, target byte; and for H2 also the transaction count, the
    version, the time and the flags. *)
Definition CbKey : Type := Z * Z.
Definition H2Key : Type := Z * Z * Z * Z * Z * Z.
Definition h2key_cb (k : H2Key) : Z := k.1.1.1.1.1.

Record JobSlot := {
  js_job : option JobSection;
  coinbases : gmap Z CoinbaseSection;
  h2_cache : gmap H2Key Hash;
  cb_cache : gmap CbKey (list Z * Coinbase);
  txcount_includes_coinbase : option bool
}.

Definition slot_default : JobSlot :=
  {| js_job := None; coinbases := ∅; h2_cache := ∅; cb_cache := ∅; txcount_includes_coinbase := None |}.

Definition section_bytes (c : CoinbaseSection) : Z := Z.of_nat (length (coinb1 c)) + Z.of_nat (length (coinb2 c)).

(** The caches without what was derived from coinbase [id]. *)
Definition drop_h2 (id : Z) (m : gmap H2Key Hash) : gmap H2Key Hash := filter (fun kv => h2key_cb kv.1 <> id) m.
Definition drop_cb (id : Z) (m : gmap CbKey (list Z * Coinbase)) : gmap CbKey (list Z * Coinbase) :=
  filter (fun kv => kv.1.1 <> id) m.

(** The job section of [absorb]: whether the job changed, and the slot after it. *)
Definition absorb_job (slot : JobSlot) (j : option JobSection) : bool * JobSlot :=
  match j with
  | None => (false, slot)
  | Some j =>
      if decide (js_job slot = Some j) then (false, slot) else
      (true, {| js_job := Some j; coinbases := ∅; h2_cache := ∅; cb_cache := ∅; txcount_includes_coinbase := None |})
  end.

Definition insert_coinbase (slot : JobSlot) (c : CoinbaseSection) : JobSlot :=
  {| js_job := js_job slot; coinbases := <[cb_id c := c]> (coinbases slot);
     h2_cache := drop_h2 (cb_id c) (h2_cache slot); cb_cache := drop_cb (cb_id c) (cb_cache slot);
     txcount_includes_coinbase := txcount_includes_coinbase slot |}.

(** [JobSlot::absorb]. *)
Definition absorb (slot : JobSlot) (s : PowSubmit) : result Z Absorbed * JobSlot :=
  if match coinbase s with Some c => MAX_COINBASE_SECTION_BYTES <? section_bytes c | None => false end
  then (Err REJECT_COINBASE_TOO_LARGE, slot) else
  let '(changed, slot) := absorb_job slot (job s) in
  match coinbase s with
  | None => (Ok {| job_changed := changed; coinbase_added := None |}, slot)
  | Some c =>
      if decide (coinbases slot !! cb_id c = Some c)
      then (Ok {| job_changed := changed; coinbase_added := None |}, slot)
      else if bool_decide (coinbases slot !! cb_id c = None) && (MAX_COINBASES_PER_SLOT <=? size (coinbases slot))%nat
      then (Err REJECT_BAD_COINBASE_ID, slot)
      else (Ok {| job_changed := changed; coinbase_added := Some (cb_id c) |}, insert_coinbase slot c)
  end.

Definition forget_coinbase (slot : JobSlot) (id : Z) : JobSlot :=
  {| js_job := js_job slot; coinbases := delete id (coinbases slot); h2_cache := drop_h2 id (h2_cache slot);
     cb_cache := drop_cb id (cb_cache slot); txcount_includes_coinbase := txcount_includes_coinbase slot |}.

Definition evict_sections (slot : JobSlot) : JobSlot :=
  {| js_job := js_job slot; coinbases := ∅; h2_cache := ∅; cb_cache := ∅;
     txcount_includes_coinbase := txcount_includes_coinbase slot |}.

Definition coinbase_bytes (slot : JobSlot) : Z :=
  zsum (map (fun kv => section_bytes kv.2) (map_to_list (coinbases slot))).

Definition coinbase_id_for (s : PowSubmit) : Z := if subsidy_only s then 0xff else coinbase_id s.

(** * What a coinbase pays *)

Inductive CoinbaseKind := Split | Partial (n : Z) | PoolOnly | EmptySolo | GatewaySolo | Foreign.

#[export] Instance CoinbaseKind_eq_dec : EqDecision CoinbaseKind.
Proof. solve_decision. Defined.

Record Policy := {
  pool_script : list Z;
  issued : option (list Output);
  tolerance : Z;
  now : Z;
  min_pot : Z;
  gateway_script : option (list Z);
  empty_solo_fee_bps : Z;
  trusted_target : bool;
  uncommitted_pot : Z;
  held_split : bool
}.

Definition fee_sats (value bps : Z) : Z := trunc u64_max (value * bps / 10000).

Definition is_gateway (script : list Z) (gateway : option (list Z)) : bool :=
  bool_decide (gateway = Some script).

Definition empty_job (job_txn_count : Z) (merkle_empty : bool) : bool :=
  merkle_empty && (job_txn_count <=? 1).

Definition gateway_only (cb : Coinbase) (gateway : option (list Z)) (subsidy_only : bool)
    (job_txn_count : Z) (merkle_empty : bool) : option CoinbaseKind :=
  gw ← (match gateway with Some g => if (length g =? 0)%nat then None else Some g | None => None end);
  let paid := existsb (fun o => negb (is_op_return o) && bool_decide (o_script o = gw)) (outputs cb) in
  let only := forallb (fun o => (is_op_return o && (o_value o =? 0)) || bool_decide (o_script o = gw)) (outputs cb) in
  if negb paid || negb only then None else
  Some (if subsidy_only && empty_job job_txn_count merkle_empty then EmptySolo
        else if negb subsidy_only then GatewaySolo else Foreign).

(** The first loop of [classify_outputs]. *)
Record Scan := { pool_paid : bool; gateway_paid : bool; gateway_sats : Z; foreign : Z }.
Definition scan_start : Scan := {| pool_paid := false; gateway_paid := false; gateway_sats := 0; foreign := 0 |}.
Definition is_listed (iss : option (list Output)) (sc : list Z) : bool :=
  match iss with Some l => existsb (fun i => bool_decide (script i = sc)) l | None => false end.

(** [None] is the early return of [Foreign] for value in an OP_RETURN. *)
Fixpoint scan_outputs (p : Policy) (outs : list TxOut) (st : Scan) : option Scan :=
  match outs with
  | [] => Some st
  | o :: outs' =>
      if is_op_return o then if 0 <? o_value o then None else scan_outputs p outs' st
      else if bool_decide (o_script o = pool_script p) then
        scan_outputs p outs' {| pool_paid := true; gateway_paid := gateway_paid st;
                                gateway_sats := gateway_sats st; foreign := foreign st |}
      else if is_gateway (o_script o) (gateway_script p) then
        scan_outputs p outs' {| pool_paid := pool_paid st; gateway_paid := true;
                                gateway_sats := sat_add u64_max (gateway_sats st) (o_value o); foreign := foreign st |}
      else if negb (is_listed (issued p) (o_script o)) then
        scan_outputs p outs' {| pool_paid := pool_paid st; gateway_paid := gateway_paid st;
                                gateway_sats := gateway_sats st; foreign := foreign st + 1 |}
      else scan_outputs p outs' st
  end.

(** [sats] in the ratio of the coinbase to the issued list. *)
Definition rescale (sats actual_value issued_value : Z) : Z :=
  trunc u64_max (sats * actual_value / issued_value).
Definition owed_scaled (issued_value actual_value sats : Z) : Z :=
  if (issued_value =? 0) || (issued_value <=? actual_value) then sats else rescale sats actual_value issued_value.
Definition cap (issued_value actual_value sats : Z) : Z :=
  if (issued_value =? 0) || (actual_value <=? issued_value) then sats else rescale sats actual_value issued_value.

Definition issued_to (miners : list Output) : gmap (list Z) Z :=
  fold_left (fun m i => <[script i := sat_add u64_max (default 0 (m !! script i)) (sats i)]> m) miners ∅.

(** The loop over the issued miner outputs: [None] is the return of [Foreign]; otherwise how many
    are present and whether one is short. *)
Fixpoint scan_miners (cb : Coinbase) (tol slack iv av : Z) (to : gmap (list Z) Z) (miners : list Output)
    (present : Z) (shorted : bool) : panics (option (Z * bool)) :=
  match miners with
  | [] => Ret (Some (present, shorted))
  | i :: miners' =>
      let paid := paid_to cb (script i) in
      if 0 <? paid then
        present ← chk_add u16_max present 1;
        let shorted := if sat_add u64_max paid tol <? owed_scaled iv av (sats i) then true else shorted in
        let ceiling := cap iv av (default (sats i) (to !! script i)) in
        if sat_add u64_max ceiling slack <? paid then Ret None
        else scan_miners cb tol slack iv av to miners' present shorted
      else scan_miners cb tol slack iv av to miners' present shorted
  end.

(** The part of [classify_outputs] that looks at an issued list; [None] goes on after it. *)
Definition classify_issued (cb : Coinbase) (p : Policy) (iss : list Output) (st : Scan)
    (subsidy_only : bool) (job_txn_count : Z) (merkle_empty : bool) : panics (option CoinbaseKind) :=
  let miners := filter (fun i => script i <> pool_script p) iss in
  iv ← chk_sum u64_max 0 (map sats iss);
  let av := sat_total (map o_value (outputs cb)) in
  let slack := sat_add u64_max (tolerance p) (Z.of_nat (length iss)) in
  let gateway_listed := match gateway_script p with Some g => is_listed (Some iss) g | None => false end in
  let excess := Z.min (sat_sub av iv) (iv / 16) in
  if gateway_paid st && negb gateway_listed && (sat_add u64_max excess slack <? gateway_sats st) then
    Ret (Some (if subsidy_only && negb (empty_job job_txn_count merkle_empty) then Foreign
               else if subsidy_only then EmptySolo else GatewaySolo))
  else
    r ← scan_miners cb (tolerance p) slack iv av (issued_to miners) miners 0 false;
    Ret (match r with
         | None => Some Foreign
         | Some (present, shorted) =>
             if negb shorted then
               if (present =? Z.of_nat (length miners)) && (pool_paid st || gateway_paid st || negb (length miners =? 0)%nat)
               then Some Split
               else if 0 <? present then Some (Partial present) else None
             else None
         end).

(** The rest of [classify_outputs]: nothing of the list is paid in full. *)
Definition classify_rest (cb : Coinbase) (p : Policy) (st : Scan)
    (subsidy_only : bool) (job_txn_count : Z) (merkle_empty : bool) : CoinbaseKind :=
  let only_pool := forallb (fun o => is_op_return o || bool_decide (o_script o = pool_script p)) (outputs cb) in
  if pool_paid st && only_pool then PoolOnly else
  match gateway_only cb (gateway_script p) subsidy_only job_txn_count merkle_empty with
  | Some kind => kind
  | None =>
      let gw := default [] (gateway_script p) in
      let gateway_and_pool :=
        gateway_paid st && pool_paid st && negb (length gw =? 0)%nat
        && forallb (fun o => is_op_return o || bool_decide (o_script o = gw) || bool_decide (o_script o = pool_script p))
             (outputs cb) in
      if gateway_and_pool && (0 <? empty_solo_fee_bps p) && subsidy_only && empty_job job_txn_count merkle_empty
         && (Z.abs (paid_to cb (pool_script p) - fee_sats (total_output_value cb) (empty_solo_fee_bps p)) <=? tolerance p)
      then EmptySolo else Foreign
  end.

Definition classify_outputs (cb : Coinbase) (p : Policy) (subsidy_only : bool) (job_txn_count : Z)
    (merkle_empty : bool) : panics CoinbaseKind :=
  match scan_outputs p (outputs cb) scan_start with
  | None => Ret Foreign
  | Some st =>
      if 0 <? foreign st then Ret Foreign else
      k ← match issued p with
          | Some iss => classify_issued cb p iss st subsidy_only job_txn_count merkle_empty
          | None => Ret None
          end;
      Ret (match k with
           | Some kind => kind
           | None => classify_rest cb p st subsidy_only job_txn_count merkle_empty
           end)
  end.

Definition classify_coinbase (cb : Coinbase) (p : Policy) (subsidy_only : bool) (job_txn_count : Z)
    (merkle_empty : bool) : panics CoinbaseKind :=
  kind ← classify_outputs cb p subsidy_only job_txn_count merkle_empty;
  Ret (if bool_decide (kind = Foreign) && held_split p then
         match gateway_only cb (gateway_script p) subsidy_only job_txn_count merkle_empty with
         | Some solo => solo
         | None => kind
         end
       else kind).

Definition assemble_for (j : JobSection) (sect : CoinbaseSection) (pot : Z) : list Z :=
  assemble (coinb1 sect) (coinb2 sect) (Z.to_nat (target_byte_index j)) pot.

Definition coinbase_of (slot : JobSlot) (s : PowSubmit) : option Coinbase :=
  j ← js_job slot;
  sect ← coinbases slot !! coinbase_id_for s;
  match parse (assemble_for j sect (target_pot s)) with Ok c => Some c | Err _ => None end.

(** The loop of [remainder_on_gateway]. *)
Fixpoint to_gateway_only (iss : list Output) (gw pool : list Z) (outs : list TxOut) (to_gateway : bool) : bool :=
  match outs with
  | [] => to_gateway
  | o :: outs' =>
      if bool_decide (o_script o = gw) then to_gateway_only iss gw pool outs' true
      else if bool_decide (o_script o = pool) || negb (is_listed (Some iss) (o_script o)) then false
      else to_gateway_only iss gw pool outs' to_gateway
  end.
Definition remainder_on_gateway (cb : Coinbase) (p : Policy) : bool :=
  match issued p, gateway_script p with
  | Some iss, Some gw =>
      if (length gw =? 0)%nat || bool_decide (gw = pool_script p) then false
      else to_gateway_only iss gw (pool_script p) (filter (fun o => is_op_return o = false) (outputs cb)) false
  | _, _ => false
  end.

(** * Verifying a share *)

(** A computation that may panic or refuse with a reject code. *)
Definition checked (A : Type) : Type := panics (result Z A).
#[export] Instance checked_ret : MRet checked := fun A a => Ret (Ok a).
#[export] Instance checked_bind : MBind checked :=
  fun A B f m => match m with Ret (Ok a) => f a | Ret (Err e) => Ret (Err e) | Panic => Panic end.
Definition need {A} (o : option A) (code : Z) : checked A :=
  Ret (match o with Some a => Ok a | None => Err code end).
Definition refuse_if (b : bool) (code : Z) : checked () := Ret (if b then Err code else Ok tt).
Definition run_panics {A} (m : panics A) : checked A := a ← m; Ret (Ok a).

Record VerifiedShare := {
  v_hash : Hash;
  v_work : Z;
  v_target_committed : bool;
  v_target_pot : Z;
  v_height : Z;
  v_ntime : Z;
  v_is_block_candidate : bool;
  v_coinbase_kind : CoinbaseKind;
  v_coinbase_value : Z;
  v_paid_to_pool : Z;
  v_commitment : Commitment;
  v_coinbase_legacy : list Z;
  v_coinbase : Coinbase
}.

Section Verify.
Context (sha256 blake2b256 : list Z -> Hash).

(** The commitment of a share, with the merkle root given. *)
Definition commitment_of (j : JobSection) (s : PowSubmit) (time_on_wire flags txcount : Z) (mr : Hash) : Commitment :=
  {| c_version := version s; c_prev_hash := j_prev_hash j; c_height := height j; c_merkle_root := mr;
     c_time_on_wire := time_on_wire; c_nbits := nbits_u32 j; c_txcount := txcount; c_flags := flags;
     c_xor_clear_bits := 0; c_xor_key := zeros 16; c_rhs := zeros 32 |}.

Definition share_merkle_root (j : JobSection) (legacy : list Z) : Hash :=
  merkle_root sha256 (sha256d sha256 legacy) (merkle_branches j).

(** The hash of a share whose job commitment is [h2]. *)
Definition share_hash (j : JobSection) (s : PowSubmit) (b2 : Blake2bSection) (h2 : Hash) : Hash :=
  pow_hash_le sha256 blake2b256
    (work_header (sia_prevhash sha256 (j_prev_hash j)) (b_nonce b2) (b_ntime b2)
       (work_root blake2b256 h2 (extranonce s))) (zeros 16) 0.

Definition txcount_for (j : JobSection) (includes : bool) : Z :=
  if includes then txn_count j else trunc u32_max (txn_count j + 1).

(** The loop over the transaction-count conventions: the first under which the hash meets the
    target, and the H2 cache with what was used for it. *)
Fixpoint try_conventions (cache : gmap H2Key Hash) (j : JobSection) (s : PowSubmit) (b2 : Blake2bSection)
    (cbid time_on_wire flags : Z) (legacy : list Z) (share_target : Hash) (conventions : list bool)
    : option (Commitment * Hash * bool * gmap H2Key Hash) :=
  match conventions with
  | [] => None
  | includes :: rest =>
      let txcount := txcount_for j includes in
      let key : H2Key := (cbid, target_pot s, txcount, version s, time_on_wire, flags) in
      let '(c, h2) :=
        match cache !! key with
        | Some h => (commitment_of j s time_on_wire flags txcount (zeros 32), h)
        | None =>
            let c := commitment_of j s time_on_wire flags txcount (share_merkle_root j legacy) in
            (c, commitment_h2 sha256 c)
        end in
      let hash := share_hash j s b2 h2 in
      if meets_target hash share_target then
        let cache := if (MAX_H2_CACHE <=? size cache)%nat then ∅ else cache in
        Some (c, hash, includes, <[key := h2]> cache)
      else try_conventions cache j s b2 cbid time_on_wire flags legacy share_target rest
  end.

(** The bytes an entry of the coinbase cache counts for. *)
Definition cb_cost (e : list Z * Coinbase) : Z :=
  Z.of_nat (length e.1) + zsum (map (fun o => 48 + Z.of_nat (length (o_script o))) (outputs e.2)).

Definition remember_coinbase (cache : gmap CbKey (list Z * Coinbase)) (key : CbKey) (e : list Z * Coinbase)
    : gmap CbKey (list Z * Coinbase) :=
  let held := zsum (map (fun kv => cb_cost kv.2) (map_to_list cache)) in
  <[key := e]> (if (MAX_CB_CACHE <=? size cache)%nat || (MAX_CB_CACHE_BYTES <? held + cb_cost e) then ∅ else cache).

(** What a verified share is credited. *)
Definition credited_work (s : PowSubmit) (p : Policy) (hash : Hash) (target_committed : bool) : Z :=
  if target_committed && (min_pot p <=? target_pot s) then claimed_work s else
  let pot := Z.max (uncommitted_pot p) (min_pot p) in
  let met := match share_target_le pot with Some t => meets_target hash t | None => false end in
  if met && (pot <? 64) then Z.shiftl 1 pot else 0.

(** The coinbase of a share that is not in the cache: assembled, parsed, and held to the job's
    height. *)
Definition fresh_coinbase (j : JobSection) (sect : CoinbaseSection) (pot : Z) : checked (list Z * Coinbase) :=
  let legacy := assemble_for j sect pot in
  parsed ← need (match parse legacy with Ok c => Some c | Err _ => None end) REJECT_BAD_COINBASE;
  _ ← refuse_if (bool_decide (cb_height parsed <> Some (height j))) REJECT_BAD_JOB_ID;
  mret (legacy, parsed).

(** [verify_with_target]. A share that is refused changes nothing of the slot. *)
Definition verify_with_target (slot : JobSlot) (s : PowSubmit) (p : Policy) (share_target : Hash)
    : checked (VerifiedShare * JobSlot) :=
  _ ← refuse_if (negb (is_blake2b s)) REJECT_BAD_VERSION;
  b2 ← need (blake2b s) REJECT_BAD_VERSION;
  time ← need (time_on_wire s) REJECT_BAD_NTIME;
  j ← need (js_job slot) REJECT_BAD_JOB_ID;
  let cbid := coinbase_id_for s in
  let cb_key : CbKey := (cbid, target_pot s) in
  sect ← need (coinbases slot !! cbid) REJECT_COINBASE_MISSING;
  let tbi := Z.to_nat (target_byte_index j) in
  let on_trust := trusted_target p && is_whole (coinb2 sect) tbi in
  '(legacy, parsed) ← (match cb_cache slot !! cb_key with
                       | Some e => mret e
                       | None => fresh_coinbase j sect (target_pot s)
                       end);
  let target_committed := on_trust || commits_target legacy tbi in
  let merkle_empty := (length (merkle_branches j) =? 0)%nat in
  kind ← run_panics (classify_coinbase parsed p (subsidy_only s) (txn_count j) merkle_empty);
  _ ← refuse_if (bool_decide (kind = Foreign)) REJECT_BAD_COINBASE_OUTPUTS;
  let flags := if use_time_offset s then FLAG_USE_TIME_OFFSET else 0 in
  let ntime := share_ntime time (b_ntime b2) flags in
  _ ← refuse_if (negb (now p =? 0) && ((sat_add u32_max (now p) MAX_TIME_AHEAD <? ntime)
                                       || (sat_add u32_max ntime MAX_TIME_BEHIND <? now p))) REJECT_BAD_NTIME;
  let conventions := match txcount_includes_coinbase slot with
                     | Some true => [true] | Some false => [false] | None => [false; true] end in
  _ ← refuse_if (u16_max <=? txn_count j) REJECT_BAD_JOB_ID;
  '(c, hash, includes, h2c) ←
    need (try_conventions (h2_cache slot) j s b2 cbid time flags legacy share_target conventions) REJECT_HIGH_HASH;
  let c := if bool_decide (c_merkle_root c = zeros 32)
           then commitment_of j s time flags (c_txcount c) (share_merkle_root j legacy) else c in
  let is_block_candidate :=
    match nbits_to_target_le (c_nbits c) with Some t => meets_target hash t | None => false end in
  let verified :=
    {| v_hash := hash; v_work := credited_work s p hash target_committed; v_target_committed := target_committed;
       v_target_pot := target_pot s; v_height := height j; v_ntime := ntime;
       v_is_block_candidate := is_block_candidate; v_coinbase_kind := kind;
       v_coinbase_value := total_output_value parsed; v_paid_to_pool := paid_to parsed (pool_script p);
       v_commitment := c; v_coinbase_legacy := legacy; v_coinbase := parsed |} in
  let cbc := match cb_cache slot !! cb_key with
             | Some _ => cb_cache slot
             | None => remember_coinbase (cb_cache slot) cb_key (legacy, parsed)
             end in
  mret (verified,
        {| js_job := js_job slot; coinbases := coinbases slot; h2_cache := h2c; cb_cache := cbc;
           txcount_includes_coinbase := Some includes |}).

(** [verify]: against the target the share claims. *)
Definition verify_share (slot : JobSlot) (s : PowSubmit) (p : Policy) : checked (VerifiedShare * JobSlot) :=
  share_target ← need (share_target_le (target_pot s)) REJECT_BAD_TARGET;
  verify_with_target slot s p share_target.

(** [assemble_block]; [None] is the [expect] on a share without its BLAKE2b fields. *)
Definition assemble_block (v : VerifiedShare) (s : PowSubmit) (txns : list (list Z)) : option (list Z) :=
  b2 ← blake2b s;
  let header := serialize_header_v2 (v_commitment v) (b_nonce b2) (b_ntime b2) (extranonce s) in
  let cb := with_witness (v_coinbase_legacy v) (v_coinbase v) in
  Some (header ++ write_varint (Z.of_nat (length txns) + 1) ++ cb ++ concat txns).

(** [job_work_for]. *)
Definition job_work_for (slot : JobSlot) (s : PowSubmit) (includes : bool) : panics (option JobWork) :=
  match js_job slot with
  | None => Ret None
  | Some j =>
      match coinbases slot !! coinbase_id_for s, time_on_wire s with
      | Some sect, Some time =>
          txcount ← (if includes then Ret (txn_count j) else chk_add u32_max (txn_count j) 1);
          let flags := if use_time_offset s then FLAG_USE_TIME_OFFSET else 0 in
          let legacy := assemble_for j sect (target_pot s) in
          Ret (Some (jobwork_new sha256 blake2b256
            (commitment_of j s time flags txcount (share_merkle_root j legacy)) (extranonce s)))
      | _, _ => Ret None
      end
  end.
End Verify.
