(* ===== verification/VerifyFacts.v ===== *)
(** Lemmas on share verification: the caches of a slot say what they stand for, so a slot with
    caches and one without give the same verdicts. *)

From S2P Require Import Prelude Bytes Cursor Coinbaser Mining Handshake Pow Coinbase Verify.
Open Scope Z_scope.

(** * Refusals *)

Lemma need_ok {A} (o : option A) code r : need o code = Ret (Ok r) -> o = Some r.
Proof. unfold need. destruct o; [by intros [= ->] | done]. Qed.

Lemma checked_bind_inv {A B} (m : checked A) (f : A -> checked B) b :
  (m ≫= f) = Ret (Ok b) -> exists a, m = Ret (Ok a) /\ f a = Ret (Ok b).
Proof. destruct m as [[a|e]|]; [eauto | done | done]. Qed.

Lemma refuse_if_inv b code u : refuse_if b code = Ret (Ok u) -> b = false.
Proof. unfold refuse_if. by destruct b. Qed.

Lemma run_panics_inv {A} (m : panics A) a : run_panics m = Ret (Ok a) -> m = Ret a.
Proof. unfold run_panics. destruct m; [by intros [= ->] | done]. Qed.

(** * Slots *)

Section Slots.
Context (sha256 blake2b256 : list Z -> list Z).
Abbreviation fresh := fresh_coinbase.
Abbreviation mroot := (share_merkle_root sha256).
Abbreviation h2_of := (commitment_h2 sha256).

(** A cached coinbase is the one its section assembles to. *)
Definition cb_coherent (job : option JobSection) (cbs : gmap Z CoinbaseSection)
    (m : gmap CbKey (list Z * Coinbase)) : Prop :=
  forall id pot e, m !! (id, pot) = Some e ->
    exists j sect, job = Some j /\ cbs !! id = Some sect /\ fresh j sect pot = Ret (Ok e).

(** A cached H2 is the commitment of any share with its key. *)
Definition h2_coherent (job : option JobSection) (cbs : gmap Z CoinbaseSection) (m : gmap H2Key (list Z)) : Prop :=
  forall id pot txc ver time fl h, m !! (id, pot, txc, ver, time, fl) = Some h ->
    exists j sect, job = Some j /\ cbs !! id = Some sect /\
      forall s, version s = ver ->
        h = h2_of (commitment_of j s time fl txc (mroot j (assemble_for j sect pot))).

Definition coherent (slot : JobSlot) : Prop :=
  cb_coherent (js_job slot) (coinbases slot) (cb_cache slot) /\
  h2_coherent (js_job slot) (coinbases slot) (h2_cache slot).

Definition cb_held (m : gmap CbKey (list Z * Coinbase)) : Z := zsum (map (fun kv => cb_cost kv.2) (map_to_list m)).

(** What a session can make a slot hold. *)
Definition slot_bounded (slot : JobSlot) : Prop :=
  (size (coinbases slot) <= MAX_COINBASES_PER_SLOT)%nat /\
  map_Forall (fun _ c => section_bytes c <= MAX_COINBASE_SECTION_BYTES) (coinbases slot) /\
  (size (h2_cache slot) <= MAX_H2_CACHE)%nat /\ (size (cb_cache slot) <= MAX_CB_CACHE)%nat.

Definition slot_ok (slot : JobSlot) : Prop := coherent slot /\ slot_bounded slot.

Lemma size_filter_le {K V} `{Countable K} (P : K * V -> Prop) `{!forall kv, Decision (P kv)} (m : gmap K V) :
  (size (filter P m) <= size m)%nat.
Proof.
  rewrite <- !size_dom. apply subseteq_size. intros k [v Hv]%elem_of_dom.
  apply map_lookup_filter_Some in Hv as [Hv _]. by apply elem_of_dom_2 in Hv.
Qed.

Lemma size_insert_le {K V} `{Countable K} (k : K) (v : V) (m : gmap K V) : (size (<[k := v]> m) <= S (size m))%nat.
Proof. rewrite map_size_insert. destruct (m !! k); cbn; lia. Qed.

Lemma size_delete_le {K V} `{Countable K} (k : K) (m : gmap K V) : (size (delete k m) <= size m)%nat.
Proof. rewrite <- !size_dom, dom_delete_L. apply subseteq_size, subseteq_difference_l. done. Qed.

Lemma empty_coherent job cbs : cb_coherent job cbs ∅ /\ h2_coherent job cbs ∅.
Proof.
  split.
  - intros id pot e He. by rewrite lookup_empty in He.
  - intros id pot txc ver time fl h Hh. by rewrite lookup_empty in Hh.
Qed.

Lemma drop_coherent job cbs cbs' id m1 m2 :
  (forall i, i <> id -> cbs' !! i = cbs !! i) ->
  cb_coherent job cbs m1 -> h2_coherent job cbs m2 ->
  cb_coherent job cbs' (drop_cb id m1) /\ h2_coherent job cbs' (drop_h2 id m2).
Proof.
  intros Hsame H1 H2. split.
  - intros i pot e [He Hne]%map_lookup_filter_Some. cbn in Hne.
    destruct (H1 _ _ _ He) as (j & sect & Hj & Hs & Hf). exists j, sect. by rewrite Hsame.
  - intros i pot txc ver time fl h [He Hne]%map_lookup_filter_Some. unfold h2key_cb in Hne. cbn in Hne.
    destruct (H2 _ _ _ _ _ _ _ He) as (j & sect & Hj & Hs & Hf). exists j, sect. by rewrite Hsame.
Qed.

Lemma slot_default_ok : slot_ok slot_default.
Proof.
  split; [apply empty_coherent|]. unfold slot_bounded, slot_default. cbn.
  rewrite !map_size_empty. conjs; try (unfold MAX_COINBASES_PER_SLOT, MAX_H2_CACHE, MAX_CB_CACHE; lia).
  apply map_Forall_empty.
Qed.

Lemma absorb_job_ok slot j : slot_ok slot -> slot_ok (absorb_job slot j).2.
Proof.
  intros H. destruct j as [j|]; [|done]. unfold absorb_job. case_decide; [done|]. cbn [snd].
  split; [apply empty_coherent|]. unfold slot_bounded. cbn.
  rewrite !map_size_empty. conjs; try (unfold MAX_COINBASES_PER_SLOT, MAX_H2_CACHE, MAX_CB_CACHE; lia).
  apply map_Forall_empty.
Qed.

Lemma insert_coinbase_ok slot c :
  slot_ok slot -> section_bytes c <= MAX_COINBASE_SECTION_BYTES ->
  (is_Some (coinbases slot !! cb_id c) \/ (size (coinbases slot) < MAX_COINBASES_PER_SLOT)%nat) ->
  slot_ok (insert_coinbase slot c).
Proof.
  intros [[H1 H2] (B1 & B2 & B3 & B4)] Hc Hroom. split.
  - unfold coherent, insert_coinbase. cbn. apply (drop_coherent _ (coinbases slot)); [|done|done].
    intros i Hi. by rewrite lookup_insert_ne.
  - unfold slot_bounded, insert_coinbase. cbn. conjs.
    + destruct Hroom as [Hx|Hlt].
      * by rewrite map_size_insert_Some.
      * rewrite map_size_insert. destruct (coinbases slot !! cb_id c); cbn [id]; unfold id; lia.
    + by apply map_Forall_insert_2.
    + etransitivity; [apply size_filter_le | done].
    + etransitivity; [apply size_filter_le | done].
Qed.

Lemma absorb_ok slot s : slot_ok slot -> slot_ok (absorb slot s).2.
Proof.
  intros H. unfold absorb. destr_if; [done|]. pose proof (absorb_job_ok slot (job s) H) as Hj.
  destruct (absorb_job slot (job s)) as [changed slot1]. cbn [snd] in Hj.
  destruct (coinbase s) as [c|]; [|done]. case_decide; [done|]. destr_if; [done|]. bools.
  apply insert_coinbase_ok; [done | done |].
  destruct (coinbases slot1 !! cb_id c) eqn:E; [left; eauto|]. right.
  destruct Hif0 as [Hif0|Hif0]; [by apply bool_decide_eq_false in Hif0|]. by apply Nat.leb_gt in Hif0.
Qed.

(** A refused section changes nothing of the slot: the job changes only in an empty slot, and an
    empty slot has room. *)
Lemma absorb_refused slot s code : (absorb slot s).1 = Err code -> (absorb slot s).2 = slot.
Proof.
  unfold absorb. destr_if; [done|]. intros H.
  destruct (absorb_job slot (job s)) as [changed slot1] eqn:E. destruct (coinbase s) as [c|]; [|done].
  case_decide; [done|]. destr_if; [|done]. clear H. cbn [snd].
  unfold absorb_job in E. destruct (job s) as [j|]; [|by injection E as _ <-].
  case_decide; [by injection E as _ <-|]. injection E as _ <-. exfalso.
  apply andb_true_iff in Hif0 as [_ Hs]. apply Nat.leb_le in Hs. cbn [coinbases] in Hs.
  rewrite map_size_empty in Hs. unfold MAX_COINBASES_PER_SLOT in Hs. lia.
Qed.

Lemma forget_ok slot id : slot_ok slot -> slot_ok (forget_coinbase slot id).
Proof.
  intros [[H1 H2] (B1 & B2 & B3 & B4)]. split.
  - unfold coherent, forget_coinbase. cbn. apply (drop_coherent _ (coinbases slot)); [|done|done].
    intros i Hi. by rewrite lookup_delete_ne.
  - unfold slot_bounded, forget_coinbase. cbn. conjs.
    + etransitivity; [apply size_delete_le | done].
    + by apply map_Forall_delete.
    + etransitivity; [apply size_filter_le | done].
    + etransitivity; [apply size_filter_le | done].
Qed.

Lemma evict_ok slot : slot_ok slot -> slot_ok (evict_sections slot).
Proof.
  intros _. split; [apply empty_coherent|]. unfold slot_bounded. cbn.
  rewrite !map_size_empty. conjs; try (unfold MAX_COINBASES_PER_SLOT, MAX_H2_CACHE, MAX_CB_CACHE; lia).
  apply map_Forall_empty.
Qed.

(** * The convention loop *)

Section Conventions.
Context (j : JobSection) (s : PowSubmit) (b2 : Blake2bSection) (cbid time flags : Z) (legacy share_target : list Z).

Definition comm (includes : bool) : Commitment :=
  commitment_of j s time flags (txcount_for j includes) (mroot j legacy).
Definition hash_under (includes : bool) : list Z :=
  share_hash sha256 blake2b256 j s b2 (h2_of (comm includes)).
Definition h2key (includes : bool) : H2Key := (cbid, target_pot s, txcount_for j includes, version s, time, flags).

(** The first convention whose header hashes under the target. *)
Fixpoint first_convention (cs : list bool) : option bool :=
  match cs with
  | [] => None
  | i :: cs' => if meets_target (hash_under i) share_target then Some i else first_convention cs'
  end.

(** A commitment with the merkle root put back. *)
Definition completed (c : Commitment) : Commitment :=
  if bool_decide (c_merkle_root c = zeros 32)
  then commitment_of j s time flags (c_txcount c) (mroot j legacy) else c.

Lemma try_conventions_spec cache cs :
  (forall i h, cache !! h2key i = Some h -> h = h2_of (comm i)) ->
  match first_convention cs with
  | None => try_conventions sha256 blake2b256 cache j s b2 cbid time flags legacy share_target cs = None
  | Some i => exists c,
      try_conventions sha256 blake2b256 cache j s b2 cbid time flags legacy share_target cs =
        Some (c, hash_under i, i,
              <[h2key i := h2_of (comm i)]> (if (MAX_H2_CACHE <=? size cache)%nat then ∅ else cache)) /\
      completed c = comm i /\ meets_target (hash_under i) share_target = true
  end.
Proof using Type.
  intros Hc. induction cs as [|i cs IH]; [done|]. cbn [first_convention try_conventions].
  fold (h2key i). unfold hash_under in *.
  destruct (cache !! h2key i) as [h|] eqn:E.
  - apply Hc in E as ->. destruct (meets_target _ share_target) eqn:Em; [|exact IH].
    eexists. split; [done|]. split; [|done]. unfold completed. cbn [c_merkle_root commitment_of c_txcount].
    by rewrite bool_decide_eq_true_2.
  - fold (comm i). destruct (meets_target _ share_target) eqn:Em; [|exact IH].
    eexists. split; [done|]. split; [|done]. unfold completed. by case_bool_decide.
Qed.
End Conventions.

(** * Verification without caches *)

(** What [verify_with_target] computes, read off the job and the sections alone: the share, and
    the convention it verified under. *)
Definition verify_reference (jb : option JobSection) (cbs : gmap Z CoinbaseSection) (pin : option bool)
    (s : PowSubmit) (p : Policy) (share_target : list Z) : checked (VerifiedShare * bool) :=
  _ ← refuse_if (negb (is_blake2b s)) REJECT_BAD_VERSION;
  b2 ← need (blake2b s) REJECT_BAD_VERSION;
  time ← need (time_on_wire s) REJECT_BAD_NTIME;
  j ← need jb REJECT_BAD_JOB_ID;
  sect ← need (cbs !! coinbase_id_for s) REJECT_COINBASE_MISSING;
  '(legacy, parsed) ← fresh_coinbase j sect (target_pot s);
  let tbi := Z.to_nat (target_byte_index j) in
  let committed := (trusted_target p && is_whole (coinb2 sect) tbi) || commits_target legacy tbi in
  kind ← run_panics (classify_coinbase parsed p (subsidy_only s) (txn_count j) (length (merkle_branches j) =? 0)%nat);
  _ ← refuse_if (bool_decide (kind = Foreign)) REJECT_BAD_COINBASE_OUTPUTS;
  let flags := if use_time_offset s then FLAG_USE_TIME_OFFSET else 0 in
  let ntime := share_ntime time (b_ntime b2) flags in
  _ ← refuse_if (negb (now p =? 0) && ((sat_add u32_max (now p) MAX_TIME_AHEAD <? ntime)
                                       || (sat_add u32_max ntime MAX_TIME_BEHIND <? now p))) REJECT_BAD_NTIME;
  _ ← refuse_if (u16_max <=? txn_count j) REJECT_BAD_JOB_ID;
  i ← need (first_convention j s b2 time flags legacy share_target
              match pin with Some true => [true] | Some false => [false] | None => [false; true] end)
           REJECT_HIGH_HASH;
  let hash := hash_under j s b2 time flags legacy i in
  mret ({| v_hash := hash; v_work := credited_work s p hash committed; v_target_committed := committed;
           v_target_pot := target_pot s; v_height := height j; v_ntime := ntime;
           v_is_block_candidate :=
             match nbits_to_target_le (nbits_u32 j) with Some t => meets_target hash t | None => false end;
           v_coinbase_kind := kind; v_coinbase_value := total_output_value parsed;
           v_paid_to_pool := paid_to parsed (pool_script p);
           v_commitment := comm j s time flags legacy i;
           v_coinbase_legacy := legacy; v_coinbase := parsed |}, i).

Lemma fresh_legacy j sect pot e : fresh j sect pot = Ret (Ok e) ->
  e.1 = assemble_for j sect pot /\ parse e.1 = Ok e.2 /\ cb_height e.2 = Some (height j).
Proof.
  intros H. unfold fresh_coinbase in H. apply checked_bind_inv in H as (c & Hc & H).
  apply need_ok in Hc. apply checked_bind_inv in H as (u & Hu & H). apply refuse_if_inv in Hu.
  injection H as <-. apply bool_decide_eq_false, dec_stable in Hu.
  destruct (parse (assemble_for j sect pot)) as [c'|] eqn:E; [|done]. by injection Hc as ->.
Qed.

Lemma h2_insert_coherent jb cbs m j s sect time flags i :
  jb = Some j -> cbs !! coinbase_id_for s = Some sect -> h2_coherent jb cbs m ->
  h2_coherent jb cbs
    (<[h2key j s (coinbase_id_for s) time flags i :=
        h2_of (comm j s time flags (assemble_for j sect (target_pot s)) i)]>
       (if (MAX_H2_CACHE <=? size m)%nat then ∅ else m)).
Proof.
  intros Hj Hs Hm id pot txc ver tm fl h Hh.
  apply lookup_insert_Some in Hh as [[Hk <-]|[_ Hh]].
  - injection Hk as <- <- <- <- <- <-. exists j, sect. conjs; [done | done |]. intros s' Hv.
    unfold comm, commitment_of. by rewrite Hv.
  - destr_if; [by rewrite lookup_empty in Hh|]. eauto.
Qed.

Lemma remember_coherent jb cbs m j sect id pot e :
  jb = Some j -> cbs !! id = Some sect -> fresh j sect pot = Ret (Ok e) -> cb_coherent jb cbs m ->
  cb_coherent jb cbs (remember_coinbase m (id, pot) e).
Proof.
  intros Hj Hs Hf Hm i q e' He. unfold remember_coinbase in He.
  apply lookup_insert_Some in He as [[[= <- <-] <-]|[_ He]]; [eauto|].
  destr_if; [by rewrite lookup_empty in He | eauto].
Qed.

Lemma remember_size m k e : (size m <= MAX_CB_CACHE)%nat -> (size (remember_coinbase m k e) <= MAX_CB_CACHE)%nat.
Proof.
  intros Hm. unfold remember_coinbase. etransitivity; [apply size_insert_le|]. destr_if.
  - rewrite map_size_empty. unfold MAX_CB_CACHE. lia.
  - apply orb_false_iff in Hif as [Hif _]. apply Nat.leb_gt in Hif. lia.
Qed.

Lemma h2_size (m : gmap H2Key (list Z)) k h : (size m <= MAX_H2_CACHE)%nat ->
  (size (<[k := h]> (if (MAX_H2_CACHE <=? size m)%nat then ∅ else m)) <= MAX_H2_CACHE)%nat.
Proof.
  intros Hm. etransitivity; [apply size_insert_le|]. destr_if.
  - rewrite map_size_empty. unfold MAX_H2_CACHE. lia.
  - apply Nat.leb_gt in Hif. lia.
Qed.

(** One step of both verifications. *)
Ltac both m :=
  let e := fresh "e" in destruct m as [[?|e]|]; cbn [mbind checked_bind]; [|done|done].

(** With coherent caches the verdict is the reference's, and the caches stay coherent. *)
Lemma verify_refines slot s p t : slot_ok slot ->
  match verify_reference (js_job slot) (coinbases slot) (txcount_includes_coinbase slot) s p t with
  | Ret (Ok (v, i)) => exists slot',
      verify_with_target sha256 blake2b256 slot s p t = Ret (Ok (v, slot')) /\ slot_ok slot' /\
      js_job slot' = js_job slot /\ coinbases slot' = coinbases slot /\ txcount_includes_coinbase slot' = Some i
  | Ret (Err e) => verify_with_target sha256 blake2b256 slot s p t = Ret (Err e)
  | Panic => verify_with_target sha256 blake2b256 slot s p t = Panic
  end.
Proof.
  intros [[Hcb Hh2] (B1 & B2 & B3 & B4)]. unfold verify_reference, verify_with_target.
  both (refuse_if (negb (is_blake2b s)) REJECT_BAD_VERSION).
  both (need (blake2b s) REJECT_BAD_VERSION).
  both (need (time_on_wire s) REJECT_BAD_NTIME).
  destruct (js_job slot) as [j|] eqn:Ej; cbn [need mbind checked_bind]; [|done].
  destruct (coinbases slot !! coinbase_id_for s) as [sect|] eqn:Es; cbn [need mbind checked_bind]; [|done].
  rename a0 into b2, a1 into time.
  match goal with |- context [match ?c with Some e => mret e | None => fresh j sect (target_pot s) end] =>
    replace (match c with Some e => mret e | None => fresh j sect (target_pot s) end) with (fresh j sect (target_pot s)) end.
  2:{ destruct (cb_cache slot !! _) as [e|] eqn:Ee; [|done].
      destruct (Hcb _ _ _ Ee) as (j' & sect' & [= <-] & Hs & Hf). rewrite Es in Hs. injection Hs as <-. by rewrite Hf. }
  destruct (fresh j sect (target_pot s)) as [[[legacy parsed]|e]|] eqn:Ef; cbn [mbind checked_bind]; [|done|done].
  destruct (fresh_legacy _ _ _ _ Ef) as (El & _ & _). cbn [fst] in El.
  both (run_panics (classify_coinbase parsed p (subsidy_only s) (txn_count j) (length (merkle_branches j) =? 0)%nat)).
  rename a0 into kind.
  both (refuse_if (bool_decide (kind = Foreign)) REJECT_BAD_COINBASE_OUTPUTS).
  set (flags := if use_time_offset s then FLAG_USE_TIME_OFFSET else 0).
  match goal with |- context [refuse_if ?b REJECT_BAD_NTIME] => both (refuse_if b REJECT_BAD_NTIME) end.
  both (refuse_if (u16_max <=? txn_count j) REJECT_BAD_JOB_ID).
  set (conv := match txcount_includes_coinbase slot with Some true => _ | _ => _ end).
  pose proof (try_conventions_spec j s b2 (coinbase_id_for s) time flags legacy t (h2_cache slot) conv) as Htry.
  assert (Hkey : forall i h, h2_cache slot !! h2key j s (coinbase_id_for s) time flags i = Some h ->
    h = h2_of (comm j s time flags legacy i)).
  { intros i h Hh. destruct (Hh2 _ _ _ _ _ _ _ Hh) as (j' & sect' & [= <-] & Hs & Hall).
    rewrite Es in Hs. injection Hs as <-. rewrite El. by apply Hall. }
  destruct (first_convention j s b2 time flags legacy t conv) as [i|]; cbn [need mbind checked_bind].
  2:{ by rewrite (Htry Hkey). }
  destruct (Htry Hkey) as (c & Et & Ec & _). rewrite Et. cbn [need mbind checked_bind].
  unfold completed in Ec. rewrite Ec. cbn [mret checked_ret c_nbits comm commitment_of].
  eexists. split; [done|]. cbn [js_job coinbases txcount_includes_coinbase]. split; [|done].
  split; [split|]; cbn [js_job coinbases h2_cache cb_cache].
  - destruct (cb_cache slot !! _); [done|]. by apply (remember_coherent _ _ _ j sect).
  - rewrite El. by apply (h2_insert_coherent _ _ _ j s sect).
  - unfold slot_bounded. cbn [coinbases h2_cache cb_cache]. conjs; [done | done | by apply h2_size |].
    destruct (cb_cache slot !! _); [done | by apply remember_size].
Qed.

(** What a verdict of the reference says. *)
Lemma reference_inv jb cbs pin s p t v i :
  verify_reference jb cbs pin s p t = Ret (Ok (v, i)) ->
  exists b2 time j sect,
    let flags := if use_time_offset s then FLAG_USE_TIME_OFFSET else 0 in
    let legacy := v_coinbase_legacy v in
    blake2b s = Some b2 /\ time_on_wire s = Some time /\ jb = Some j /\ cbs !! coinbase_id_for s = Some sect /\
    legacy = assemble_for j sect (target_pot s) /\ parse legacy = Ok (v_coinbase v) /\
    cb_height (v_coinbase v) = Some (height j) /\
    classify_coinbase (v_coinbase v) p (subsidy_only s) (txn_count j) (length (merkle_branches j) =? 0)%nat
      = Ret (v_coinbase_kind v) /\ v_coinbase_kind v <> Foreign /\
    v_ntime v = share_ntime time (b_ntime b2) flags /\
    (now p = 0 \/ (v_ntime v <= sat_add u32_max (now p) MAX_TIME_AHEAD /\
                   now p <= sat_add u32_max (v_ntime v) MAX_TIME_BEHIND)) /\
    txn_count j < u16_max /\
    first_convention j s b2 time flags legacy t
      match pin with Some true => [true] | Some false => [false] | None => [false; true] end = Some i /\
    v_commitment v = comm j s time flags legacy i /\ v_hash v = hash_under j s b2 time flags legacy i /\
    v_target_committed v = (trusted_target p && is_whole (coinb2 sect) (Z.to_nat (target_byte_index j)))
      || commits_target legacy (Z.to_nat (target_byte_index j)) /\
    v_work v = credited_work s p (v_hash v) (v_target_committed v).
Proof.
  intros H. unfold verify_reference in H.
  apply checked_bind_inv in H as (u1 & _ & H).
  apply checked_bind_inv in H as (b2 & Hb2%need_ok & H).
  apply checked_bind_inv in H as (time & Ht%need_ok & H).
  apply checked_bind_inv in H as (j & Hj%need_ok & H).
  apply checked_bind_inv in H as (sect & Hs%need_ok & H).
  apply checked_bind_inv in H as ([legacy parsed] & Hf & H).
  apply fresh_legacy in Hf as (El & Ep & Eh). cbn [fst snd] in *.
  apply checked_bind_inv in H as (kind & Hk%run_panics_inv & H).
  apply checked_bind_inv in H as (u2 & Hnf%refuse_if_inv & H).
  apply checked_bind_inv in H as (u3 & Hnt%refuse_if_inv & H).
  apply checked_bind_inv in H as (u4 & Htx%refuse_if_inv & H).
  apply checked_bind_inv in H as (i' & Hi%need_ok & H). injection H as <- <-.
  exists b2, time, j, sect.
  cbn [v_coinbase_legacy v_coinbase v_coinbase_kind v_ntime v_commitment v_hash v_target_committed v_work].
  conjs; try done.
  - by apply bool_decide_eq_false in Hnf.
  - destruct (decide (now p = 0)); [by left|]. right.
    apply andb_false_iff in Hnt as [Hnt|Hnt]; [by apply negb_false_iff, Z.eqb_eq in Hnt|].
    bools. lia.
  - by apply Z.leb_gt in Htx.
Qed.

Lemma lxor_zeros l : zip_with Z.lxor l (zeros (length l)) = l.
Proof. induction l as [|b l IH]; [done|]. cbn [length zeros replicate zip_with]. rewrite Z.lxor_0_r. f_equal. exact IH. Qed.

Lemma hash_under_bytes (Hbl : forall d, length (blake2b256 d) = 32%nat /\ is_bytes (blake2b256 d))
    j s b2 time flags legacy i :
  length (hash_under j s b2 time flags legacy i) = 32%nat /\ is_bytes (hash_under j s b2 time flags legacy i).
Proof.
  unfold hash_under, share_hash, pow_hash_le. set (w := work_header _ _ _ _). destruct (Hbl w) as [Hl Hb].
  change (xor_mask sha256 (zeros 16) 0) with (zeros 32). rewrite <- Hl, lxor_zeros, length_rev.
  split; [done | by apply Forall_rev].
Qed.

Lemma first_convention_meets j s b2 time flags legacy t cs i :
  first_convention j s b2 time flags legacy t cs = Some i ->
  i ∈ cs /\ meets_target (hash_under j s b2 time flags legacy i) t = true.
Proof.
  induction cs as [|c cs IH]; cbn [first_convention]; [done|]. destr_if.
  - intros [= <-]. split; [left | done].
  - intros [H1 H2]%IH. split; [by right | done].
Qed.
End Slots.

(** * What a coinbase pays *)

(** An output Prime sanctions under a policy. *)
Definition sanctioned (p : Policy) (o : TxOut) : Prop :=
  (is_op_return o = true /\ o_value o <= 0) \/ o_script o = pool_script p \/
  gateway_script p = Some (o_script o) \/ is_listed (issued p) (o_script o) = true.

Lemma scan_foreign_mono p outs : forall st st', scan_outputs p outs st = Some st' -> foreign st <= foreign st'.
Proof.
  induction outs as [|o outs IH]; intros st st' H; cbn [scan_outputs] in H; [injection H as <-; lia|].
  repeat (destr_if_in H; [try discriminate H|]); try (apply IH in H; cbn in H; lia); try lia.
Qed.

Lemma scan_sanctioned p outs : forall st st',
  scan_outputs p outs st = Some st' -> foreign st' <= foreign st -> Forall (sanctioned p) outs.
Proof.
  induction outs as [|o outs IH]; intros st st' H Hf; [constructor|]. cbn [scan_outputs] in H.
  unfold sanctioned at 1.
  destruct (is_op_return o) eqn:Eo.
  { destr_if_in H; [done|]. bools. constructor; [left; split; [done | lia] | by eapply IH]. }
  destr_if_in H.
  { bools. constructor; [by right; left | by eapply IH]. }
  destr_if_in H.
  { unfold is_gateway in Hif0. bools. constructor; [by right; right; left | by eapply IH]. }
  destr_if_in H.
  { exfalso. apply scan_foreign_mono in H. cbn in H. lia. }
  apply negb_false_iff in Hif1. constructor; [by right; right; right | by eapply IH].
Qed.

(** What the miner loop makes sure of for one issued output that is there. *)
Definition paid_right (cb : Coinbase) (tol slack iv av : Z) (to : gmap (list Z) Z) (i : Output) : Prop :=
  paid_to cb (script i) <= sat_add u64_max (cap iv av (default (sats i) (to !! script i))) slack.

Lemma scan_miners_inv cb tol slack iv av to miners : forall k sh n sh',
  scan_miners cb tol slack iv av to miners k sh = Ret (Some (n, sh')) ->
  k <= n <= k + Z.of_nat (length miners) /\
  (n = k + Z.of_nat (length miners) -> Forall (fun i => 0 < paid_to cb (script i)) miners) /\
  Forall (fun i => 0 < paid_to cb (script i) -> paid_right cb tol slack iv av to i) miners /\
  (sh' = false -> sh = false /\
    Forall (fun i => 0 < paid_to cb (script i) ->
              owed_scaled iv av (sats i) <= sat_add u64_max (paid_to cb (script i)) tol) miners).
Proof.
  induction miners as [|i miners IH]; intros k sh n sh' H; cbn [scan_miners length] in *.
  { injection H as <- <-. conjs; try constructor; try lia; done. }
  destruct (Z.ltb_spec 0 (paid_to cb (script i))) as [Hp|Hp].
  - apply bind_Ret_inv in H as (k' & Hk & H). apply chk_add_inv in Hk as [-> _].
    destruct (Z.ltb_spec (sat_add u64_max (cap iv av (default (sats i) (to !! script i))) slack) (paid_to cb (script i)))
      as [Hc|Hc]; [done|].
    apply IH in H as (H1 & H2 & H3 & H4). conjs; [lia | lia | | |].
    + intros Hn. constructor; [done | apply H2; lia].
    + constructor; [intros _; unfold paid_right; lia | done].
    + intros E. destruct (H4 E) as [E1 E2]. destr_if_in E1; [done|]. bools. split; [done|].
      constructor; [intros _; lia | done].
  - apply IH in H as (H1 & H2 & H3 & H4). conjs; [lia | lia | | |].
    + intros Hn. lia.
    + constructor; [lia | done].
    + intros E. destruct (H4 E) as [E1 E2]. split; [done|]. constructor; [lia | done].
Qed.

Definition issued_value (iss : list Output) : Z := zsum (map sats iss).
Definition actual_value (cb : Coinbase) : Z := sat_total (map o_value (outputs cb)).
Definition slack_of (p : Policy) (iss : list Output) : Z := sat_add u64_max (tolerance p) (Z.of_nat (length iss)).
Definition miners_of (p : Policy) (iss : list Output) : list Output := filter (fun i => script i <> pool_script p) iss.

Lemma gateway_only_kind cb gw so txc me k :
  gateway_only cb gw so txc me = Some k -> k = EmptySolo \/ k = GatewaySolo \/ k = Foreign.
Proof.
  unfold gateway_only. intros H. apply bind_Some in H as (g & _ & H). destr_if_in H; [done|].
  injection H as <-. repeat destr_if; tauto.
Qed.

Lemma classify_rest_kind cb p st so txc me :
  classify_rest cb p st so txc me <> Split /\ (forall n, classify_rest cb p st so txc me <> Partial n).
Proof.
  unfold classify_rest. destr_if; [done|].
  destruct (gateway_only _ _ _ _ _) as [k|] eqn:E; [|by destr_if].
  apply gateway_only_kind in E as [->|[-> | ->]]; done.
Qed.

Lemma classify_coinbase_split cb p so txc me k :
  classify_coinbase cb p so txc me = Ret k -> k = Split \/ (exists n, k = Partial n) ->
  exists st iss, scan_outputs p (outputs cb) scan_start = Some st /\ foreign st <= 0 /\ issued p = Some iss /\
    classify_issued cb p iss st so txc me = Ret (Some k).
Proof.
  intros H Hk. unfold classify_coinbase in H. apply bind_Ret_inv in H as (k0 & Hc & H). injection H as H.
  assert (k0 = k) as ->.
  { destr_if_in H; [|done]. destruct (gateway_only _ _ _ _ _) as [g|] eqn:E; [|done]. subst g.
    apply gateway_only_kind in E. by destruct Hk as [-> | [n ->]], E as [E|[E|E]]. }
  clear H. unfold classify_outputs in Hc.
  destruct (scan_outputs p (outputs cb) scan_start) as [st|] eqn:Es.
  2:{ injection Hc as <-. destruct Hk as [|[n ?]]; done. }
  destr_if_in Hc; [injection Hc as <-; destruct Hk as [|[n ?]]; done|]. bools.
  apply bind_Ret_inv in Hc as (o & Ho & [= Hc]).
  destruct o as [k1|].
  - subst k1. destruct (issued p) as [iss|]; [|done]. by exists st, iss.
  - pose proof (classify_rest_kind cb p st so txc me) as [H1 H2]. rewrite Hc in *.
    destruct Hk as [|[n ?]]; [done|]. by destruct (H2 n).
Qed.

Lemma classify_issued_inv cb p iss st so txc me k :
  classify_issued cb p iss st so txc me = Ret (Some k) -> k = Split \/ (exists n, k = Partial n) ->
  exists n, scan_miners cb (tolerance p) (slack_of p iss) (issued_value iss) (actual_value cb)
      (issued_to (miners_of p iss)) (miners_of p iss) 0 false = Ret (Some (n, false)) /\
    (k = Split -> n = Z.of_nat (length (miners_of p iss))) /\ (forall m, k = Partial m -> m = n /\ 0 < n).
Proof.
  intros H Hk. unfold classify_issued in H. apply bind_Ret_inv in H as (iv & Hiv & H).
  apply chk_sum_inv in Hiv as ->. rewrite Z.add_0_l in H.
  destr_if_in H.
  { injection H as H. repeat destr_if_in H; subst k; destruct Hk as [|[n ?]]; done. }
  apply bind_Ret_inv in H as (r & Hr & [= H]). destruct r as [[n sh]|].
  2:{ injection H as <-. destruct Hk as [|[n ?]]; done. }
  exists n. destruct sh; [done|]. cbn [negb] in H. split; [exact Hr|].
  destr_if_in H.
  - injection H as <-. bools. split; [done | done].
  - destr_if_in H; [|done]. injection H as <-. bools. split; [done|]. intros m [= <-]. done.
Qed.
