(* ===== verification/VerifyProps.v ===== *)
(** The properties of proof of work and share verification. *)

From S2P Require Import Prelude Bytes Cursor Frame Coinbaser Mining Handshake Pow.
From S2P Require Import Coinbase Verify VerifyFacts.
Open Scope Z_scope.

(** * Targets *)

(** C35: the byte-wise target arithmetic is exact: a share's target is 2^(224 - pot) - 1, the byte
    comparison is the comparison of the numbers, the power of two logged for a hash is the
    largest difficulty it meets, and a compact target that decodes is mantissa times 256^(exp - 3). *)
Theorem targets_exact (h : list Z) (pot nbits : Z) :
  is_bytes h -> length h = 32%nat -> 0 <= pot < 224 -> 0 <= nbits < 2 ^ 32 ->
  (exists t, share_target_le pot = Some t /\ of_le t = 2 ^ (224 - pot) - 1 /\
     meets_target h t = (of_le h <? 2 ^ (224 - pot)) /\
     (0 < pot -> (meets_target h t = true <-> pot <= hash_pot h))) /\
  (forall t, nbits_to_target_le nbits = Some t ->
     of_le t = let exp := nbits / 2 ^ 24 in let mant := nbits mod 2 ^ 23 in
       if exp <=? 3 then mant / 256 ^ (3 - exp) else mant * 256 ^ (exp - 3)).
Proof.
  intros Hh Hl Hp Hn. split.
  - destruct (share_target_value pot Hp) as (t & Ht & Hb & Htl & Hv). exists t.
    assert (Hm : meets_target h t = (of_le h <? 2 ^ (224 - pot))).
    { rewrite meets_target_spec, Hv by (done || lia). apply eq_true_iff_eq. rewrite Z.leb_le, Z.ltb_lt. lia. }
    conjs; [done | done | done |]. intros H0. rewrite Hm, Z.ltb_lt, hash_pot_spec by (done || lia). done.
  - intros t Ht. by destruct (nbits_value nbits t Hn Ht) as (_ & _ & ->).
Qed.

Lemma targets_exact_witness :
  exists t, share_target_le 13 = Some t /\ meets_target (replicate 26 255 ++ replicate 6 0) t = true /\
    13 <= hash_pot (replicate 26 255 ++ replicate 6 0).
Proof.
  destruct (targets_exact (replicate 26 255 ++ replicate 6 0) 13 0x193c2d40) as [(t & H1 & _ & H3 & H4) _];
    [apply (bool_decide_unpack _); vm_compute; done | done | lia | lia |].
  exists t. split; [done|]. rewrite H3. split; [reflexivity|]. apply H4; [lia|]. rewrite H3. reflexivity.
Defined.

(** * Merkle branches *)

(** For a block of a coinbase and any other transactions, the branches a gateway sends are
    computed without running out or panicking, and folding any coinbase txid through them gives
    the root of the whole tree, odd levels included. *)
Theorem merkle_branches_fold (sha256 : list Z -> list Z) (txid : list Z) (txids : list (list Z)) :
  exists branches, merkle_branches_for_coinbase sha256 txids = Some branches /\
    tree_root sha256 (length txids) (txid :: txids) = Some (merkle_root sha256 txid branches).
Proof.
  destruct (branches_loop_spec sha256 (length txids) txid txids [] (Nat.le_refl _)) as (bs & H1 & H2).
  by exists bs.
Qed.

(** * Job slots and their caches *)

Section Slots.
Context (sha256 blake2b256 : list Z -> list Z).

(** What a session does to a slot. *)
Inductive slot_reach : JobSlot -> Prop :=
| reach_new : slot_reach slot_default
| reach_absorb slot s : slot_reach slot -> slot_reach (absorb slot s).2
| reach_forget slot id : slot_reach slot -> slot_reach (forget_coinbase slot id)
| reach_evict slot : slot_reach slot -> slot_reach (evict_sections slot)
| reach_verify slot s p t v slot' : slot_reach slot ->
    verify_with_target sha256 blake2b256 slot s p t = Ret (Ok (v, slot')) -> slot_reach slot'.

Lemma slot_reach_ok slot : slot_reach slot -> slot_ok sha256 slot.
Proof using Type.
  induction 1 as [|slot s _ IH|slot id _ IH|slot _ IH|slot s p t v slot' _ IH Hv].
  - apply slot_default_ok.
  - by apply absorb_ok.
  - by apply forget_ok.
  - eapply evict_ok, IH.
  - pose proof (verify_refines sha256 blake2b256 slot s p t IH) as H.
    destruct (verify_reference sha256 blake2b256 _ _ _ s p t) as [[[v' i]|e]|]; [|congruence|congruence].
    destruct H as (slot1 & E & Hok & _). congruence.
Qed.

Lemma verified_reference slot s p t v slot' : slot_reach slot ->
  verify_with_target sha256 blake2b256 slot s p t = Ret (Ok (v, slot')) ->
  exists i, verify_reference sha256 blake2b256 (js_job slot) (coinbases slot)
              (txcount_includes_coinbase slot) s p t = Ret (Ok (v, i)) /\
    txcount_includes_coinbase slot' = Some i.
Proof using Type.
  intros Hr Hv. pose proof (verify_refines sha256 blake2b256 slot s p t (slot_reach_ok slot Hr)) as H.
  destruct (verify_reference sha256 blake2b256 _ _ _ s p t) as [[[v' i]|e]|]; [|congruence|congruence].
  destruct H as (slot1 & E & _ & _ & _ & Hi). exists i. rewrite E in Hv. by injection Hv as -> ->.
Qed.
End Slots.

(** A hash function for the witnesses, and a share a gateway could send under it: a coinbase
    paying the pool, at difficulty 2^13. *)
Definition toy_sha (d : list Z) : list Z := le_bytes 32 (of_le d + 1).
Definition toy_blake (d : list Z) : list Z := replicate 8 0 ++ le_bytes 24 (of_le d).

Definition demo_pool : list Z := [81].
Definition demo_share : PowSubmit :=
  let '(v, tbi, slot) :=
    match build 966267 (str_bytes "Lazarus") [{| o_value := 312500000; o_script := demo_pool |}] 0 with
    | Ret r => r | Panic => ([], 0%nat, 0%nat) end in
  {| job_id := 3; coinbase_id := 1; flags := 8; target_pot := 13; ntime32 := 0; nonce32 := 77;
     version := 0xa0000000; extranonce := replicate 12 1; username := str_bytes "bc1qminer";
     reserved := [0; 0; 0; 0]; blake2b := Some {| b_ntime := replicate 8 0; b_nonce := replicate 8 6 |};
     time_on_wire := Some 1788408528;
     job := Some {| j_prev_hash := replicate 32 119; target_byte_index := Z.of_nat tbi; nbits := [64; 45; 60; 25];
                    coinbaser_id := 7; height := 966267; coinbase_value := 312500000; txn_count := 2;
                    txn_total_weight := 0; txn_total_size := 0; txn_total_sigops := 0;
                    merkle_branches := [replicate 32 1; replicate 32 2] |};
     coinbase := Some {| cb_id := 1; coinb1 := take slot v; coinb2 := drop (slot + EXTRANONCE_SLOT) v |} |}.
Definition demo_policy (iss : option (list Output)) : Policy :=
  {| pool_script := demo_pool; issued := iss; tolerance := 0; now := 1788408530; min_pot := 10; gateway_script := None;
     empty_solo_fee_bps := 0; trusted_target := false; uncommitted_pot := 20; held_split := false |}.
Definition demo_slot : JobSlot := (absorb slot_default demo_share).2.

Lemma demo_reach : slot_reach toy_sha toy_blake demo_slot.
Proof. apply reach_absorb, reach_new. Qed.

(** C34: the caches of a slot never change a verdict: in any slot a session can bring about, by
    absorbing sections, forgetting and evicting them and verifying shares, a share is judged
    exactly as the reference judges it from the job and the sections alone; and such a slot holds
    at most eight sections of at most 20 000 bytes, 32 parsed coinbases and 64 commitments. *)
Theorem verify_caches_transparent (sha256 blake2b256 : list Z -> list Z) (slot : JobSlot) (s : PowSubmit)
    (p : Policy) (t : list Z) : slot_reach sha256 blake2b256 slot ->
  match verify_reference sha256 blake2b256 (js_job slot) (coinbases slot) (txcount_includes_coinbase slot) s p t with
  | Ret (Ok (v, i)) => exists slot',
      verify_with_target sha256 blake2b256 slot s p t = Ret (Ok (v, slot')) /\
      js_job slot' = js_job slot /\ coinbases slot' = coinbases slot /\ txcount_includes_coinbase slot' = Some i
  | Ret (Err e) => verify_with_target sha256 blake2b256 slot s p t = Ret (Err e)
  | Panic => verify_with_target sha256 blake2b256 slot s p t = Panic
  end /\ slot_bounded slot.
Proof.
  intros Hr. apply slot_reach_ok in Hr as Hok. split; [|apply Hok].
  pose proof (verify_refines sha256 blake2b256 slot s p t Hok) as H.
  destruct (verify_reference sha256 blake2b256 _ _ _ s p t) as [[[v i]|e]|]; [|done|done].
  destruct H as (slot' & E & _ & H1 & H2 & H3). by exists slot'.
Qed.

(** A verified share is the header its miner hashed: its hash is the hash a grinder gets from
    the share's commitment, nonce and time, it meets the target, and the commitment is the
    job's previous block, height and bits over the merkle root of the very coinbase that was
    parsed and classified, at a time within the allowed skew. *)
Theorem verify_rebuilds_header (sha256 blake2b256 : list Z -> list Z) (slot slot' : JobSlot) (s : PowSubmit)
    (p : Policy) (t : list Z) (v : VerifiedShare) : slot_reach sha256 blake2b256 slot ->
  verify_with_target sha256 blake2b256 slot s p t = Ret (Ok (v, slot')) ->
  exists b2 j sect includes,
    blake2b s = Some b2 /\ js_job slot = Some j /\ coinbases slot !! coinbase_id_for s = Some sect /\
    v_coinbase_legacy v = assemble_for j sect (target_pot s) /\
    parse (v_coinbase_legacy v) = Ok (v_coinbase v) /\ cb_height (v_coinbase v) = Some (height j) /\
    c_prev_hash (v_commitment v) = j_prev_hash j /\ c_height (v_commitment v) = height j /\
    c_nbits (v_commitment v) = nbits_u32 j /\ c_version (v_commitment v) = version s /\
    c_merkle_root (v_commitment v) =
      merkle_root sha256 (sha256d sha256 (v_coinbase_legacy v)) (merkle_branches j) /\
    c_txcount (v_commitment v) = txcount_for j includes /\
    v_hash v = jobwork_hash blake2b256 (jobwork_new sha256 blake2b256 (v_commitment v) (extranonce s))
                 (b_nonce b2) (b_ntime b2) /\
    meets_target (v_hash v) t = true /\ v_coinbase_kind v <> Foreign /\
    (now p = 0 \/ (v_ntime v <= sat_add u32_max (now p) MAX_TIME_AHEAD /\
                   now p <= sat_add u32_max (v_ntime v) MAX_TIME_BEHIND)).
Proof.
  intros Hr Hv. destruct (verified_reference _ _ _ _ _ _ _ _ Hr Hv) as (i & H & _).
  destruct (reference_inv _ _ _ _ _ _ _ _ _ _ H) as (b2 & time & j & sect & Hb2 & Ht & Hj & Hs & El & Ep & Eh & Hk & Hnf
    & Hnt & Hnow & Htx & Hi & Ec & Ehash & _ & _).
  exists b2, j, sect, i. apply first_convention_meets in Hi as [_ Hm]. rewrite <- Ehash in Hm.
  rewrite Ec. conjs; done.
Qed.

(** What verifying the share of the witnesses gives, computed once. *)
Lemma demo_verified :
  exists v slot', verify_share toy_sha toy_blake demo_slot demo_share (demo_policy None) = Ret (Ok (v, slot')) /\
    v_coinbase_kind v = PoolOnly /\ v_work v = 2 ^ 13 /\ v_target_committed v = true.
Proof.
  assert (H : match verify_share toy_sha toy_blake demo_slot demo_share (demo_policy None) with
              | Ret (Ok (v, _)) => bool_decide (v_coinbase_kind v = PoolOnly) && (v_work v =? 2 ^ 13) && v_target_committed v
              | _ => false
              end = true) by (vm_compute; reflexivity).
  destruct (verify_share _ _ _ _ _) as [[[v slot']|e]|]; try discriminate H.
  apply andb_true_iff in H as [[H1%bool_decide_eq_true H2%Z.eqb_eq]%andb_true_iff H3]. by exists v, slot'.
Qed.

Lemma demo_reference :
  exists v, verify_reference toy_sha toy_blake (js_job demo_slot) (coinbases demo_slot)
    (txcount_includes_coinbase demo_slot) demo_share (demo_policy None)
    (default [] (share_target_le 13)) = Ret (Ok (v, false)).
Proof.
  assert (H : match verify_reference toy_sha toy_blake (js_job demo_slot) (coinbases demo_slot)
                (txcount_includes_coinbase demo_slot) demo_share (demo_policy None) (default [] (share_target_le 13)) with
              | Ret (Ok (_, i)) => negb i
              | _ => false
              end = true) by (vm_compute; reflexivity).
  destruct (verify_reference _ _ _ _ _ _ _ _) as [[[v []]|e]|]; try discriminate H. by exists v.
Qed.

Lemma verify_rebuilds_header_witness :
  exists v slot', verify_share toy_sha toy_blake demo_slot demo_share (demo_policy None) = Ret (Ok (v, slot')) /\
    v_coinbase_kind v = PoolOnly /\
    meets_target (v_hash v) (default [] (share_target_le 13)) = true.
Proof.
  destruct demo_verified as (v & slot' & E & K & _). exists v, slot'. split; [exact E|]. split; [exact K|].
  destruct (verify_rebuilds_header toy_sha toy_blake demo_slot slot' demo_share (demo_policy None)
    (default [] (share_target_le 13)) v demo_reach E) as (b2 & j & sect & i & _ & _ & _ & _ & _ & _ & _ & _ & _ & _ & _ & _ & _ & Hm & _ & _).
  exact Hm.
Defined.

Lemma verify_caches_transparent_witness :
  exists v slot', verify_with_target toy_sha toy_blake demo_slot demo_share (demo_policy None)
                    (default [] (share_target_le 13)) = Ret (Ok (v, slot')) /\
    txcount_includes_coinbase slot' = Some false.
Proof.
  pose proof (verify_caches_transparent toy_sha toy_blake demo_slot demo_share (demo_policy None)
    (default [] (share_target_le 13)) demo_reach) as [H _].
  destruct demo_reference as (v & E). rewrite E in H.
  destruct H as (slot' & H1 & _ & _ & H2). exists v, slot'. split; [exact H1 | exact H2].
Defined.

(** C33: no work is credited that a hash does not show: whatever a share claims, what it is
    credited is at most 2^pot for a difficulty [pot] its own hash meets; the claim itself when
    the coinbase commits to it and it reaches the floor. *)
Theorem verify_credits_real_work (sha256 blake2b256 : list Z -> list Z)
    (blake_hash : forall d, length (blake2b256 d) = 32%nat /\ is_bytes (blake2b256 d))
    (slot slot' : JobSlot) (s : PowSubmit) (p : Policy) (v : VerifiedShare) :
  slot_reach sha256 blake2b256 slot -> 0 <= target_pot s -> 0 <= min_pot p ->
  verify_share sha256 blake2b256 slot s p = Ret (Ok (v, slot')) ->
  v_work v = 0 \/
  exists pot, 0 <= pot < 224 /\ v_work v <= 2 ^ pot /\ of_le (v_hash v) < 2 ^ (224 - pot) /\
    (v_target_committed v = true -> min_pot p <= target_pot s -> pot = target_pot s).
Proof.
  intros Hr Hp0 Hm0 Hv. unfold verify_share in Hv.
  apply checked_bind_inv in Hv as (t & Ht%need_ok & Hv).
  destruct (verified_reference _ _ _ _ _ _ _ _ Hr Hv) as (i & H & _).
  destruct (reference_inv _ _ _ _ _ _ _ _ _ _ H) as (b2 & time & j & sect & _ & _ & _ & _ & _ & _ & _ & _ & _
    & _ & _ & _ & Hi & _ & Ehash & _ & Hw).
  apply first_convention_meets in Hi as [_ Hm]. rewrite <- Ehash in Hm.
  destruct (hash_under_bytes sha256 blake2b256 blake_hash j s b2 time
    (if use_time_offset s then FLAG_USE_TIME_OFFSET else 0) (v_coinbase_legacy v) i) as [Hlen Hb].
  rewrite <- Ehash in Hlen, Hb.
  assert (Hmeets : forall pot t', 0 <= pot -> share_target_le pot = Some t' -> meets_target (v_hash v) t' = true ->
    0 <= pot < 224 /\ of_le (v_hash v) < 2 ^ (224 - pot)).
  { intros pot t' H0 Ht' Hm'. assert (pot < 224) by (unfold share_target_le in Ht'; destr_if_in Ht'; [done | by apply Z.leb_gt in Hif]).
    destruct (share_target_value pot) as (t2 & Ht2 & Hb2 & Hl2 & Hval); [lia|]. assert (t2 = t') as -> by congruence.
    rewrite meets_target_spec, Hval in Hm' by (done || lia). apply Z.leb_le in Hm'. lia. }
  unfold credited_work in Hw. destr_if_in Hw.
  - right. exists (target_pot s). destruct (Hmeets _ _ Hp0 Ht Hm) as [Hr1 Hr2]. conjs; [lia | lia | | done | done].
    rewrite Hw. unfold claimed_work. destr_if.
    + apply Z.leb_le in Hif0. assert (2 ^ 64 <= 2 ^ target_pot s) by (apply Z.pow_le_mono_r; lia). lia.
    + by rewrite Z.shiftl_1_l.
  - destr_if_in Hw; [|by left]. right. apply andb_true_iff in Hif0 as [Hmet Hlt]. apply Z.ltb_lt in Hlt.
    exists (Z.max (uncommitted_pot p) (min_pot p)).
    destruct (share_target_le (Z.max (uncommitted_pot p) (min_pot p))) as [t'|] eqn:Et; [|done].
    destruct (Hmeets (Z.max (uncommitted_pot p) (min_pot p)) t') as [Hr1 Hr2]; [lia | done | done |].
    conjs; [lia | lia | by rewrite Hw, Z.shiftl_1_l | done |].
    intros Hc Hmin. rewrite Hc, (proj2 (Z.leb_le _ _) Hmin) in Hif. done.
Qed.

Lemma toy_blake_hash d : length (toy_blake d) = 32%nat /\ is_bytes (toy_blake d).
Proof.
  unfold toy_blake. split; [by rewrite length_app, length_replicate, length_le_bytes|].
  apply is_bytes_app. split; [apply is_bytes_replicate; unfold is_byte, in_range; lia | apply le_bytes_is_bytes].
Qed.

Lemma verify_credits_real_work_witness :
  exists v slot', verify_share toy_sha toy_blake demo_slot demo_share (demo_policy None) = Ret (Ok (v, slot')) /\
    v_work v = 2 ^ 13 /\ of_le (v_hash v) < 2 ^ (224 - 13).
Proof.
  destruct demo_verified as (v & slot' & E & _ & W & K). exists v, slot'. split; [exact E|]. split; [exact W|].
  destruct (verify_credits_real_work toy_sha toy_blake toy_blake_hash demo_slot slot' demo_share (demo_policy None) v
    demo_reach) as [Hw|(pot & _ & _ & Hh & Hpot)]; [vm_compute; congruence | vm_compute; congruence | exact E | |].
  - exfalso. rewrite W in Hw. discriminate Hw.
  - assert (Hp : min_pot (demo_policy None) <= target_pot demo_share) by (vm_compute; congruence).
    rewrite (Hpot K Hp) in Hh. exact Hh.
Defined.

(** * What a coinbase pays *)

(** A coinbase called [Split] pays nobody Prime did not sanction and burns nothing, and pays
    every miner output Prime issued: each one present, short by no more than the tolerance of the
    issued amount in proportion to the coinbase, and the script never above the scaled total
    issued to it by more than the slack. *)
Theorem split_pays_everyone (cb : Coinbase) (p : Policy) (subsidy_only merkle_empty : bool) (txn_count : Z) :
  classify_coinbase cb p subsidy_only txn_count merkle_empty = Ret Split ->
  exists iss, issued p = Some iss /\ Forall (sanctioned p) (outputs cb) /\
    let iv := issued_value iss in let av := actual_value cb in
    Forall (fun i =>
      0 < paid_to cb (script i) /\
      owed_scaled iv av (sats i) <= sat_add u64_max (paid_to cb (script i)) (tolerance p) /\
      paid_to cb (script i) <= sat_add u64_max
        (cap iv av (default (sats i) (issued_to (miners_of p iss) !! script i))) (slack_of p iss)) (miners_of p iss).
Proof.
  intros H. destruct (classify_coinbase_split _ _ _ _ _ _ H) as (st & iss & Hs & Hf & Hi & Hc); [by left|].
  exists iss. split; [done|]. split; [eapply scan_sanctioned; [exact Hs | cbn; lia]|].
  destruct (classify_issued_inv _ _ _ _ _ _ _ _ Hc) as (n & Hn & HS & _); [by left|].
  apply scan_miners_inv in Hn as (_ & Hall & Hcap & Hsh). destruct (Hsh eq_refl) as [_ Howed].
  specialize (Hall (HS eq_refl)). rewrite Forall_forall in *. intros i Hin.
  specialize (Hall i Hin). conjs; [done | by apply Howed | by apply Hcap].
Qed.

Definition two_miners : list Output :=
  [{| sats := 200; script := [1; 1] |}; {| sats := 100; script := [2; 2] |}; {| sats := 50; script := demo_pool |}].
Definition coinbase_of_outputs (outs : list TxOut) : Coinbase :=
  {| cb_version := 1; script_sig := [1; 1]; sequence := 0; outputs := outs; lock_time := 0; cb_height := Some 1;
     outputs_at := 0; lock_time_at := 0 |}.

Lemma split_pays_everyone_witness :
  let cb := coinbase_of_outputs [{| o_value := 200; o_script := [1; 1] |}; {| o_value := 100; o_script := [2; 2] |};
                                 {| o_value := 50; o_script := demo_pool |}] in
  classify_coinbase cb (demo_policy (Some two_miners)) false 3 false = Ret Split /\ Forall (sanctioned (demo_policy (Some two_miners))) (outputs cb).
Proof.
  intros cb. assert (H : classify_coinbase cb (demo_policy (Some two_miners)) false 3 false = Ret Split) by (vm_compute; reflexivity).
  split; [exact H|]. by destruct (split_pays_everyone _ _ _ _ _ H) as (iss & _ & Hf & _).
Defined.

(** Two issued outputs to one script are not added up on the way in: a coinbase that pays
    the script the larger of them once, and keeps the other, is called [Split] all the same,
    so an identity Prime owes is taken as paid. *)
Theorem split_short_on_shared_script :
  let iss := [{| sats := 200; script := [1; 1] |}; {| sats := 100; script := [1; 1] |}; {| sats := 50; script := demo_pool |}] in
  let cb := coinbase_of_outputs [{| o_value := 200; o_script := [1; 1] |}; {| o_value := 150; o_script := demo_pool |}] in
  classify_coinbase cb (demo_policy (Some iss)) false 3 false = Ret Split /\
  paid_to cb [1; 1] = 200 /\ zsum (map sats (filter (fun i => script i = [1; 1]) iss)) = 300.
Proof. vm_compute. done. Qed.
