(* ===== verification/State.v ===== *)
(** What the sessions of a Prime share ([prime/primed/src/state.rs]): the node's tip and the check
    every job is held to, the set of credited shares, the connection slots, refused gateways, and
    what is remembered of gateways.

    Instants and durations are in nanoseconds; [ts] is in unix seconds. The difficulty of a tip, a
    float used only to size the window, is left out. *)

From S2P Require Import Prelude Bytes Handshake Pow.
From S2P Require Import Frame.
Open Scope Z_scope.

(** * Time *)

(** [Duration::from_secs], and [t.elapsed()] at the instant [now]. *)
Definition secs (n : Z) : Z := n * 1000000000.
Definition elapsed (now t : Z) : Z := sat_sub now t.

(** * The tip *)

Record Tip := {
  t_height : Z;
  t_hash : string;
  t_hash_le : option Hash;
  parent_le : option Hash;
  t_bits : option Z;
  next_bits : option Z;
  seen_at : Z;
  seen_ts : Z
}.

Inductive JobCheck := Current | OtherBranch | AheadByOne | Stale | Ahead | WrongBits.

#[export] Instance JobCheck_eq_dec : EqDecision JobCheck.
Proof. solve_decision. Defined.

Definition taken (c : JobCheck) : bool :=
  match c with Current | OtherBranch | AheadByOne => true | _ => false end.

(** [hash_le], over the hex decoder. *)
Definition hash_le (hex_decode : string -> option (list Z)) (hex_be : string) : option Hash :=
  match hex_decode hex_be with
  | Some h => if (length h =? 32)%nat then Some (rev h) else None
  | None => None
  end.

(** [Iterator::cmp] on bytes, most significant first. *)
Fixpoint cmp_bytes (a b : list Z) : comparison :=
  match a, b with
  | [], [] => Eq
  | [], _ :: _ => Lt
  | _ :: _, [] => Gt
  | x :: a', y :: b' => match x ?= y with Eq => cmp_bytes a' b' | c => c end
  end.

(** The loop that multiplies the cap by four. *)
Fixpoint shl2 (carry : Z) (l : list Z) : list Z :=
  match l with
  | [] => []
  | b :: l' => Z.lor (trunc u8_max (Z.shiftl b 2)) carry :: shl2 (Z.shiftr b 6) l'
  end.

Definition easier_than_4x (nbits tip_bits : Z) : bool :=
  match nbits_to_target_le nbits with
  | None => true
  | Some t =>
      match nbits_to_target_le tip_bits with
      | None => false
      | Some cap =>
          if negb (Z.shiftr (nth 31 cap 0) 6 =? 0) then false else
          match cmp_bytes (rev t) (rev (shl2 0 cap)) with Gt => true | _ => false end
      end
  end.

(** The second half of [Tip::check_job], once the height has said which parent and target. *)
Definition judge_job (t : Tip) (prev_hash : Hash) (height nbits expected : Z)
    (parent : option Hash) (reference : option Z) : panics JobCheck :=
  let ours := bool_decide (parent = Some prev_hash) in
  let exact := bool_decide (reference = Some nbits) in
  let possible := match t_bits t with None => true | Some tip_bits => negb (easier_than_4x nbits tip_bits) end in
  let open := bool_decide (reference = None) || (negb ours && (height mod 2016 =? 0)) in
  if negb (exact || (open && possible)) then Ret WrongBits
  else if ours then Ret Current
  else ahead ← chk_add u32_max expected 1;
       Ret (if height =? ahead then AheadByOne else OtherBranch).

Definition check_job (t : Tip) (prev_hash : Hash) (height nbits grace now : Z) : panics JobCheck :=
  expected ← chk_add u32_max (t_height t) 1;
  if height =? expected then judge_job t prev_hash height nbits expected (t_hash_le t) (next_bits t)
  else
    ahead ← chk_add u32_max expected 1;
    if height =? ahead then judge_job t prev_hash height nbits expected None (next_bits t)
    else if expected <? height then Ret Ahead
    else
      after ← chk_add u32_max height 1;
      if (after =? expected) && (elapsed now (seen_at t) <? grace)
      then judge_job t prev_hash height nbits expected (parent_le t) (t_bits t)
      else Ret Stale.

(** * Credited shares *)

Record SeenShares := { by_height : gmap Z (gset Hash); seen_total : Z }.

Inductive Seen := Fresh | Duplicate | Full.

#[export] Instance Seen_eq_dec : EqDecision Seen.
Proof. solve_decision. Defined.

Definition seen_new : SeenShares := {| by_height := ∅; seen_total := 0 |}.
Definition MAX_PER_HEIGHT : Z := 1000000.
Definition MAX_TOTAL : Z := 2500000.

(** [SeenShares::insert]. The entry of the height is made whatever the answer is. *)
Definition seen_insert (st : SeenShares) (height : Z) (hash : Hash) : SeenShares * Seen :=
  let set := default ∅ (by_height st !! height) in
  let entered := {| by_height := <[height := set]> (by_height st); seen_total := seen_total st |} in
  if bool_decide (hash ∈ set) then (entered, Duplicate)
  else if (MAX_PER_HEIGHT <=? Z.of_nat (size set)) || (MAX_TOTAL <=? seen_total st) then (entered, Full)
  else ({| by_height := <[height := {[hash]} ∪ set]> (by_height st); seen_total := seen_total st + 1 |}, Fresh).

(** [BTreeMap::first_key_value]. *)
Definition first_height (m : gmap Z (gset Hash)) : option Z :=
  match map fst (map_to_list m) with [] => None | k :: ks => Some (foldl Z.min k ks) end.

(** The loop of [prune_below]; every round drops a height, so one round for each is enough
    ([prune_below_all]). *)
Fixpoint prune_loop (fuel : nat) (min_height : Z) (st : SeenShares) : panics SeenShares :=
  match fuel, first_height (by_height st) with
  | S k, Some h =>
      if min_height <=? h then Ret st
      else
        rest ← match by_height st !! h with
               | Some set => chk_sub (seen_total st) (Z.of_nat (size set))
               | None => Ret (seen_total st)
               end;
        prune_loop k min_height {| by_height := delete h (by_height st); seen_total := rest |}
  | _, _ => Ret st
  end.

Definition prune_below (st : SeenShares) (min_height : Z) : panics SeenShares :=
  prune_loop (size (by_height st)) min_height st.

(** The share of housekeeping ([stats.rs]): heights no job is taken for any more are dropped. *)
Definition housekeep_seen (st : SeenShares) (tip : option Tip) : panics SeenShares :=
  match tip with Some t => prune_below st (sat_sub (t_height t) 2) | None => Ret st end.

(** * Connections *)

(** [std::net::IpAddr]: the four octets, or the eight segments. *)
Inductive IpAddr := V4 (octets : list Z) | V6 (segments : list Z).

#[export] Instance IpAddr_eq_dec : EqDecision IpAddr.
Proof. solve_decision. Defined.
#[export] Program Instance IpAddr_countable : Countable IpAddr :=
  inj_countable' (fun a => match a with V4 o => inl o | V6 s => inr s end)
    (fun x => match x with inl o => V4 o | inr s => V6 s end) _.
Next Obligation. by intros []. Qed.

(** [Ipv6Addr::to_ipv4_mapped] and [IpAddr::is_loopback]. *)
Definition to_ipv4_mapped (s : list Z) : option (list Z) :=
  match s with
  | [0; 0; 0; 0; 0; f; a; b] =>
      if f =? 0xffff then Some [Z.shiftr a 8; Z.land a 0xff; Z.shiftr b 8; Z.land b 0xff] else None
  | _ => None
  end.
Definition is_loopback (ip : IpAddr) : bool :=
  match ip with
  | V4 o => match o with a :: _ => a =? 127 | [] => false end
  | V6 s => bool_decide (s = [0; 0; 0; 0; 0; 0; 0; 1])
  end.

Record Connections := { per_ip : gmap IpAddr Z; conn_total : Z }.

Definition conn_new : Connections := {| per_ip := ∅; conn_total := 0 |}.

(** [Connections::key]. *)
Definition conn_key (ip : IpAddr) : IpAddr :=
  match ip with
  | V4 _ => ip
  | V6 s => match to_ipv4_mapped s with
            | Some v4 => V4 v4
            | None => V6 (take 4 s ++ replicate (length s - 4) 0)
            end
  end.

(** [Connections::admit]. The entry of the address is made before its limit is looked at. *)
Definition admit_conn (c : Connections) (ip : IpAddr) (max_total max_per_ip : Z)
    : panics (Connections * result string unit) :=
  let reserved := if is_loopback ip then 0 else Z.min (max_total / 8) 2 in
  if sat_sub max_total reserved <=? conn_total c then Ret (c, Err "connection limit reached"%string)
  else
    let k := conn_key ip in
    let n := default 0 (per_ip c !! k) in
    if max_per_ip <=? n
    then Ret ({| per_ip := <[k := n]> (per_ip c); conn_total := conn_total c |},
              Err "per-address connection limit reached"%string)
    else
      n' ← chk_add u32_max n 1;
      t' ← chk_add u32_max (conn_total c) 1;
      Ret ({| per_ip := <[k := n']> (per_ip c); conn_total := t' |}, Ok tt).

(** [Connections::release]. *)
Definition release (c : Connections) (ip : IpAddr) : Connections :=
  let k := conn_key ip in
  {| per_ip := match per_ip c !! k with
               | Some n => if sat_sub n 1 =? 0 then delete k (per_ip c) else <[k := sat_sub n 1]> (per_ip c)
               | None => per_ip c
               end;
     conn_total := sat_sub (conn_total c) 1 |}.

(** * Class budgets and the carry ceiling *)

Definition class_budget_held_off (held_off : bool) (carry ceiling : Z) : bool :=
  if ceiling =? 0 then true
  else if held_off then ceiling - ceiling / 4 <? carry
  else ceiling <=? carry.

(** [Shared::class_budget_open], with the flag as it leaves it. *)
Definition class_budget_open (held_off : bool) (carry ceiling : Z) : bool * bool :=
  let now := class_budget_held_off held_off carry ceiling in (now, negb now).

(** * Refused gateways *)

Record Quarantine := {
  q_until : Z;
  q_reason : string;
  q_height : Z;
  strikes : Z;
  q_last : Z
}.

Record QuarantineConfig := {
  quarantine_minutes : Z;
  quarantine_max_hours : Z;
  quarantine_forget_hours : Z;
  blocked_gateways : list string
}.

Definition sat_mul (top a b : Z) : Z := Z.min (a * b) top.

(** [str::to_ascii_lowercase]. *)
Definition lower (s : string) : string := bytes_str (to_ascii_lowercase (str_bytes s)).

(** Whether an entry of [blocked-gateways], already trimmed, names a gateway. *)
Definition blocks_gateway (key_hex k : string) : bool :=
  (16 <=? String.length k)%nat && (String.length k <=? String.length key_hex)%nat
  && bool_decide (lower (String.substring 0 (String.length k) key_hex) = lower k).

Definition live_quarantine (q : gmap string Quarantine) (key : string) (now : Z) : option Quarantine :=
  match q !! key with Some e => if now <? q_until e then Some e else None | None => None end.

(** [Shared::quarantined]; [trim] is [str::trim]. *)
Definition quarantined (trim : string -> string) (cfg : QuarantineConfig) (q : gmap string Quarantine)
    (key_hex : string) (now : Z) : option Quarantine :=
  if existsb (fun k => blocks_gateway key_hex (trim k)) (blocked_gateways cfg)
  then Some {| q_until := u64_max; q_reason := "listed in blocked-gateways"; q_height := 0;
               strikes := 0; q_last := now |}
  else live_quarantine q (lower key_hex) now.

(** Entries young enough to be remembered. *)
Definition remembered (forget ts : Z) (q : gmap string Quarantine) : gmap string Quarantine :=
  filter (fun e => sat_sub ts (q_last e.2) < Z.max forget 3600) q.

(** [Shared::quarantine_gateway]; [None] is the feature being off. *)
Definition quarantine_gateway (cfg : QuarantineConfig) (q : gmap string Quarantine)
    (key_hex : string) (height : Z) (reason : string) (ts : Z)
    : panics (gmap string Quarantine * option Z) :=
  let first := quarantine_minutes cfg * 60 in
  if (u64_max <? first) || (first =? 0) then Ret (q, None) else
  let cap := Z.max (sat_mul u64_max (quarantine_max_hours cfg) 3600) first in
  let forget := sat_mul u64_max (quarantine_forget_hours cfg) 3600 in
  let key := lower key_hex in
  let q := remembered forget ts q in
  let n := match q !! key with
           | Some e => if sat_sub ts (q_last e) <? Z.max forget 3600
                       then sat_add u32_max (strikes e) 1 else 1
           | None => 1
           end in
  let span := Z.min (sat_mul u64_max first (Z.shiftl 1 (Z.min (n - 1) 20))) cap in
  until ← chk_add u64_max ts span;
  Ret (<[key := {| q_until := until; q_reason := reason; q_height := height; strikes := n; q_last := ts |}]> q,
       Some span).

(** * What is remembered of gateways *)

Record GatewayPayout := { gp_identity : string; gp_script : list Z }.

#[export] Instance GatewayPayout_eq_dec : EqDecision GatewayPayout.
Proof. solve_decision. Defined.

Definition MAX_REMEMBERED_GATEWAYS : nat := 4096.

(** [Shared::remember_gateway]: the table, and whether the file is rewritten. *)
Definition remember_gateway (m : gmap string GatewayPayout) (key identity : string) (script : list Z)
    : gmap string GatewayPayout * bool :=
  let p := {| gp_identity := identity; gp_script := script |} in
  if bool_decide (m !! key = Some p) then (m, false)
  else if (MAX_REMEMBERED_GATEWAYS <=? size m)%nat && negb (bool_decide (is_Some (m !! key))) then (m, false)
  else (<[key := p]> m, true).

(** [Shared::remember_pinned_script]. *)
Definition remember_pinned_script (keys : gset string) (key : string) : gset string :=
  if (size keys <? MAX_REMEMBERED_GATEWAYS)%nat then {[key]} ∪ keys else keys.

(** * Lemmas *)

(** * Targets *)

Lemma cmp_bytes_of_le a : forall b, length a = length b -> is_bytes a -> is_bytes b ->
  cmp_bytes a b = (of_le (rev a) ?= of_le (rev b)).
Proof.
  induction a as [|x a IH]; intros [|y b] Hl Ha Hb; try done.
  apply is_bytes_cons in Ha as [Hx Ha]. apply is_bytes_cons in Hb as [Hy Hb].
  injection Hl as Hl. cbn [cmp_bytes rev]. rewrite !of_le_snoc, !length_rev.
  pose proof (of_le_bound (rev a)) as B1. pose proof (of_le_bound (rev b)) as B2.
  rewrite length_rev in B1, B2. rewrite <- Hl in *.
  assert (Hra : is_bytes (rev a)) by (apply Forall_rev; done).
  assert (Hrb : is_bytes (rev b)) by (apply Forall_rev; done).
  specialize (B1 Hra). specialize (B2 Hrb). set (m := 256 ^ Z.of_nat (length a)) in *.
  destruct (Z.compare_spec x y).
  - subst y. rewrite IH by (done || lia). destruct (Z.compare_spec (of_le (rev a)) (of_le (rev b))); symmetry.
    + apply Z.compare_eq_iff. lia.
    + apply Z.compare_lt_iff. lia.
    + apply Z.compare_gt_iff. lia.
  - symmetry. apply Z.compare_lt_iff. nia.
  - symmetry. apply Z.compare_gt_iff. nia.
Qed.

Lemma shl2_head b c : is_byte b -> 0 <= c < 4 ->
  Z.lor (trunc u8_max (Z.shiftl b 2)) c = 4 * (b mod 64) + c /\ 0 <= Z.shiftr b 6 < 4.
Proof.
  unfold is_byte, in_range. intros Hb Hc. unfold trunc. rewrite Z.shiftl_mul_pow2, Z.shiftr_div_pow2 by lia.
  change (255 + 1) with (64 * 2 ^ 2). rewrite Zmult_mod_distr_r, <- Z.shiftl_mul_pow2, Z.lor_comm by lia.
  rewrite lor_shift by (change (2 ^ 2) with 4; lia). change (2 ^ 2) with 4. change (2 ^ 6) with 64.
  split; [lia|]. split; [apply Z.div_pos; lia|]. apply Z.div_lt_upper_bound; lia.
Qed.

(** The loop gives four times the number, as far as its bytes hold it. *)
Lemma of_le_shl2 l : forall c, is_bytes l -> 0 <= c < 4 ->
  length (shl2 c l) = length l /\ is_bytes (shl2 c l) /\
  of_le (shl2 c l) = (4 * of_le l + c) mod 256 ^ Z.of_nat (length l).
Proof.
  induction l as [|b l IH]; intros c Hl Hc.
  - cbn. rewrite Z.mod_1_r. conjs; done || constructor.
  - apply is_bytes_cons in Hl as [Hb Hl]. destruct (shl2_head b c Hb Hc) as [Hh Hs].
    destruct (IH _ Hl Hs) as (I1 & I2 & I3). cbn [shl2 length of_le]. rewrite Hh. conjs; [lia | |].
    + apply is_bytes_cons. split; [|done]. unfold is_byte, in_range. pose proof (Z.mod_pos_bound b 64). lia.
    + rewrite I3. rewrite Nat2Z.inj_succ, Z.pow_succ_r by lia. set (m := 256 ^ Z.of_nat (length l)).
      assert (0 < m) by (apply Z.pow_pos_nonneg; lia). rewrite Z.shiftr_div_pow2 by lia. change (2 ^ 6) with 64.
      assert (E : 4 * (b + 256 * of_le l) + c = (4 * (b mod 64) + c) + 256 * (4 * of_le l + b / 64)).
      { pose proof (Z.div_mod b 64). lia. }
      rewrite E. rewrite (Z.rem_mul_r _ 256 m) by lia. pose proof (Z.mod_pos_bound b 64).
      rewrite (Z.mul_comm 256 (4 * of_le l + b / 64)), Z.mod_add, Z.div_add by lia.
      rewrite (Z.mod_small (4 * (b mod 64) + c)), (Z.div_small (4 * (b mod 64) + c)) by lia.
      rewrite Z.add_0_l. lia.
Qed.

(** The top byte under 64 says four times the number still fits. *)
Lemma top_byte_quarter t : length t = 32%nat -> is_bytes t ->
  Z.shiftr (nth 31 t 0) 6 = 0 <-> of_le t < 2 ^ 254.
Proof.
  intros Hl Ht.
  assert (exists l x, t = l ++ [x] /\ length l = 31%nat) as (l & x & -> & Hk).
  { destruct t as [|x l] using rev_ind; [done|]. rewrite length_app in Hl. cbn in Hl. exists l, x. split; [done | lia]. }
  rewrite app_nth2, Hk by lia. change (nth (31 - 31) [x] 0) with x.
  apply is_bytes_app in Ht as [Ht1 Ht2]. apply is_bytes_cons in Ht2 as [Hx _].
  unfold is_byte, in_range in Hx. rewrite Z.shiftr_div_pow2 by lia. rewrite Z.div_small_iff by lia.
  rewrite of_le_app, Hk. cbn [of_le]. pose proof (of_le_bound _ Ht1) as B. rewrite Hk in B.
  change (256 ^ Z.of_nat 31) with (2 ^ 248) in *. change (2 ^ 6) with 64. change (2 ^ 254) with (64 * 2 ^ 248). lia.
Qed.

Lemma place_bytes_is_bytes bs : forall idx t r, is_bytes bs -> is_bytes t ->
  place_bytes idx bs t = Some r -> is_bytes r.
Proof.
  induction bs as [|b bs IH]; intros idx t r Hbs Ht H; cbn [place_bytes] in H; [by injection H as <-|].
  apply is_bytes_cons in Hbs as [Hb Hbs]. destr_if_in H; [|destr_if_in H; [done|]].
  - eapply IH; [done | | exact H]. by apply Forall_insert.
  - by eapply IH.
Qed.

Lemma nbits_bytes nbits t : nbits_to_target_le nbits = Some t -> is_bytes t.
Proof.
  unfold nbits_to_target_le. intros H. destr_if_in H; [done|]. destr_if_in H; [|destr_if_in H; [done|]].
  - apply (inj Some) in H as <-. apply is_bytes_app. split; [apply le_bytes_is_bytes | by apply is_bytes_replicate].
  - eapply place_bytes_is_bytes; [| |exact H].
    + apply is_bytes_take, le_bytes_is_bytes.
    + by apply is_bytes_replicate.
Qed.

Lemma easier_than_4x_spec nbits tip_bits t cap :
  0 <= nbits < 2 ^ 32 -> 0 <= tip_bits < 2 ^ 32 ->
  nbits_to_target_le nbits = Some t -> nbits_to_target_le tip_bits = Some cap ->
  easier_than_4x nbits tip_bits = bool_decide (of_le cap < 2 ^ 254 /\ 4 * of_le cap < of_le t).
Proof.
  intros Hn Hb Ht Hc. destruct (nbits_value _ _ Hn Ht) as (Lt & _ & _). destruct (nbits_value _ _ Hb Hc) as (Lc & _ & _).
  pose proof (nbits_bytes _ _ Ht) as Bt. pose proof (nbits_bytes _ _ Hc) as Bc.
  unfold easier_than_4x. rewrite Ht, Hc. symmetry. destruct (Z.eqb_spec (Z.shiftr (nth 31 cap 0) 6) 0) as [E|E]; cbn [negb].
  - pose proof (proj1 (top_byte_quarter cap Lc Bc) E) as Hq. destruct (of_le_shl2 cap 0 Bc ltac:(lia)) as (L2 & B2 & V2).
    rewrite cmp_bytes_of_le, !rev_involutive, V2 by (rewrite ?length_rev; lia || by apply Forall_rev).
    pose proof (of_le_bound _ Bc) as Bd. rewrite Lc. change (256 ^ Z.of_nat 32) with (4 * 2 ^ 254).
    rewrite Z.add_0_r, Z.mod_small by lia. destruct (Z.compare_spec (of_le t) (4 * of_le cap)).
    + apply bool_decide_eq_false. lia.
    + apply bool_decide_eq_false. lia.
    + apply bool_decide_eq_true. lia.
  - apply bool_decide_eq_false. intros [Hlt _]. apply E. by apply top_byte_quarter.
Qed.

(** * Credited shares *)

(** How many shares a set of heights holds. *)
Definition held_shares (m : gmap Z (gset Hash)) : Z := zsum (map (fun e => Z.of_nat (size e.2)) (map_to_list m)).

Lemma held_insert m h s : m !! h = None -> held_shares (<[h := s]> m) = Z.of_nat (size s) + held_shares m.
Proof. intros H. unfold held_shares. by rewrite (map_to_list_insert _ _ _ H). Qed.

Lemma held_lookup m h s : m !! h = Some s -> held_shares m = Z.of_nat (size s) + held_shares (delete h m).
Proof. intros H. rewrite <- (insert_delete_id m h s H) at 1. by rewrite held_insert by apply lookup_delete_eq. Qed.

Lemma held_set m h s : held_shares (<[h := s]> m) = held_shares m - Z.of_nat (size (default ∅ (m !! h))) + Z.of_nat (size s).
Proof.
  rewrite <- insert_delete_eq, held_insert by apply lookup_delete_eq. destruct (m !! h) as [s0|] eqn:E; cbn [default from_option id].
  - rewrite (held_lookup m h s0 E). lia.
  - rewrite delete_id by done. rewrite size_empty. lia.
Qed.

Lemma held_shares_nonneg m : 0 <= held_shares m.
Proof. unfold held_shares. apply zsum_nonneg. apply Forall_forall. intros x Hx. apply list_elem_of_fmap in Hx as (e & -> & _). lia. Qed.

Definition is_credited (st : SeenShares) (h : Z) (x : Hash) : Prop := x ∈ default ∅ (by_height st !! h).

Record seen_ok (st : SeenShares) : Prop := {
  sk_total : seen_total st = held_shares (by_height st);
  sk_cap : seen_total st <= MAX_TOTAL;
  sk_each : forall h s, by_height st !! h = Some s -> Z.of_nat (size s) <= MAX_PER_HEIGHT
}.

Lemma seen_new_ok : seen_ok seen_new.
Proof. constructor; [done | done |]. intros h s H. cbn in H. by rewrite lookup_empty in H. Qed.

(** What [insert] answers, and what it changes. *)
Lemma seen_insert_spec st h x : seen_ok st ->
  let '(st', a) := seen_insert st h x in
  seen_ok st' /\
  match a with
  | Fresh => ~ is_credited st h x /\ forall h' x', is_credited st' h' x' <-> is_credited st h' x' \/ (h' = h /\ x' = x)
  | Duplicate => is_credited st h x /\ forall h' x', is_credited st' h' x' <-> is_credited st h' x'
  | Full => ~ is_credited st h x /\ forall h' x', is_credited st' h' x' <-> is_credited st h' x'
  end.
Proof.
  intros OK. unfold seen_insert. set (s := default ∅ (by_height st !! h)).
  assert (He : forall h' x', x' ∈ default ∅ (<[h := s]> (by_height st) !! h') <-> is_credited st h' x').
  { intros h' x'. unfold is_credited. destruct (decide (h = h')) as [<-|Hne].
    - by rewrite lookup_insert_eq.
    - by rewrite lookup_insert_ne. }
  assert (OKe : seen_ok {| by_height := <[h := s]> (by_height st); seen_total := seen_total st |}).
  { destruct OK as [O1 O2 O3]. constructor; cbn.
    - rewrite held_set. fold s. lia.
    - done.
    - intros h' s' H. destruct (decide (h = h')) as [<-|Hne].
      + rewrite lookup_insert_eq in H. apply (inj Some) in H as <-. unfold s.
        destruct (by_height st !! h) eqn:E; cbn [default from_option id]; [by eapply O3 | rewrite size_empty; done].
      + rewrite lookup_insert_ne in H by done. by eapply O3. }
  destruct (bool_decide (x ∈ s)) eqn:Ex; bools.
  { conjs; done. }
  destr_if; bools.
  { conjs; done. }
  conjs.
  - destruct OK as [O1 O2 O3]. assert (Hsz : Z.of_nat (size ({[x]} ∪ s)) = Z.of_nat (size s) + 1).
    { rewrite size_union by set_solver. rewrite size_singleton. lia. }
    constructor; cbn.
    + rewrite held_set. fold s. lia.
    + lia.
    + intros h' s' Hl. destruct (decide (h = h')) as [<-|Hne].
      * rewrite lookup_insert_eq in Hl. apply (inj Some) in Hl as <-. lia.
      * rewrite lookup_insert_ne in Hl by done. by eapply O3.
  - done.
  - intros h' x'. unfold is_credited at 1. cbn. destruct (decide (h = h')) as [<-|Hne].
    + rewrite lookup_insert_eq. cbn [default from_option id]. unfold is_credited. fold s. set_solver.
    + rewrite lookup_insert_ne by done. unfold is_credited. naive_solver.
Qed.

Lemma first_height_spec m : match first_height m with
  | None => m = ∅
  | Some h => is_Some (m !! h) /\ forall h', is_Some (m !! h') -> h <= h'
  end.
Proof.
  unfold first_height.
  assert (Hd : forall h, is_Some (m !! h) <-> h ∈ map fst (map_to_list m)).
  { intros h. rewrite list_elem_of_fmap. split.
    - intros [s Hs]. exists (h, s). split; [done|]. by apply elem_of_map_to_list.
    - intros ([h' s] & -> & H). apply elem_of_map_to_list in H. by exists s. }
  destruct (map fst (map_to_list m)) as [|k ks] eqn:E.
  { apply map_eq. intros i. rewrite lookup_empty. destruct (m !! i) eqn:Ei; [|done].
    exfalso. assert (H : is_Some (m !! i)) by (by rewrite Ei). apply Hd in H. by apply not_elem_of_nil in H. }
  clear E. assert (G : forall l a, let r := foldl Z.min a l in r ∈ a :: l /\ Forall (fun y => r <= y) (a :: l)).
  { clear. induction l as [|y l IH]; intros a; cbn [foldl].
    - split; [by left|]. constructor; [lia | done].
    - destruct (IH (Z.min a y)) as [H1 H2]. cbv zeta in *. apply Forall_cons in H2 as [H2 H3]. split.
      + apply elem_of_cons in H1 as [-> | H1]; [|by right; right].
        destruct (Z.min_spec a y) as [[_ ->]|[_ ->]]; [left | right; left].
      + constructor; [lia|]. constructor; [lia | done]. }
  destruct (G ks k) as [H1 H2]. cbv zeta in *. split; [by apply Hd|]. intros h' Hh'. apply Hd in Hh'.
  eapply Forall_forall in H2; [exact H2 | done].
Qed.

(** Pruning ends, never underflows, and drops exactly the heights below the bound. *)
Lemma prune_loop_spec fuel min : forall st, seen_ok st -> (size (by_height st) <= fuel)%nat ->
  exists st', prune_loop fuel min st = Ret st' /\ seen_ok st' /\
    by_height st' = filter (fun e => min <= e.1) (by_height st).
Proof.
  induction fuel as [|k IH]; intros st OK Hf; cbn [prune_loop].
  { assert (E : by_height st = ∅) by (apply map_size_empty_inv; lia).
    exists st. conjs; [done | done |]. rewrite E. by rewrite map_filter_empty. }
  pose proof (first_height_spec (by_height st)) as F. destruct (first_height (by_height st)) as [h|].
  2:{ exists st. conjs; [done | done |]. rewrite F. by rewrite map_filter_empty. }
  destruct F as [[s Hs] Hmin]. destr_if; bools.
  { exists st. conjs; [done | done |]. symmetry. apply map_filter_id. intros i x Hx. cbn.
    pose proof (Hmin i ltac:(by rewrite Hx)). lia. }
  rewrite Hs. destruct OK as [O1 O2 O3]. pose proof (held_lookup _ _ _ Hs) as Hh. pose proof (held_shares_nonneg (delete h (by_height st))).
  rewrite chk_sub_ok by lia. mstep.
  destruct (IH {| by_height := delete h (by_height st); seen_total := seen_total st - Z.of_nat (size s) |}) as (st' & E & OK' & Hf').
  - constructor; cbn; [lia | lia |]. intros h' s' H'. apply lookup_delete_Some in H' as [_ H']. by eapply O3.
  - cbn. rewrite map_size_delete_Some by done. lia.
  - exists st'. conjs; [done | done |]. rewrite Hf'. cbn. apply map_filter_delete_not. intros y Hy. cbn. lia.
Qed.

Lemma prune_below_all st min : seen_ok st ->
  exists st', prune_below st min = Ret st' /\ seen_ok st' /\
    by_height st' = filter (fun e => min <= e.1) (by_height st).
Proof. intros OK. by apply prune_loop_spec. Qed.

Lemma credited_filter st st' min h x : by_height st' = filter (fun e => min <= e.1) (by_height st) ->
  is_credited st' h x <-> is_credited st h x /\ min <= h.
Proof.
  intros E. unfold is_credited. rewrite E. destruct (by_height st !! h) as [s|] eqn:Es.
  - destruct (decide (min <= h)).
    + rewrite (map_lookup_filter_Some_2 _ _ _ _ Es) by done. naive_solver.
    + rewrite (map_lookup_filter_None_2 (fun e => min <= e.1)).
      * cbn. split; [set_solver | lia].
      * right. intros y _. cbn. lia.
  - rewrite map_lookup_filter_None_2 by (by left). cbn. set_solver.
Qed.
