(* ===== verification/StateProps.v ===== *)
(** The properties of what the sessions share: jobs are held to the node's chain, a share is
    credited once, and the connection limits hold. *)

From S2P Require Import Prelude Bytes Handshake Pow State.
Open Scope Z_scope.

(** * Jobs *)

(** What the node says of the block a job for [height] builds on, and of its target. *)
Definition known_parent (t : Tip) (height : Z) : option Hash :=
  if height =? t_height t + 1 then t_hash_le t else if height =? t_height t then parent_le t else None.
Definition known_bits (t : Tip) (height : Z) : option Z :=
  if height =? t_height t then t_bits t else next_bits t.

Definition tip_ok (t : Tip) : Prop :=
  0 <= t_height t <= u32_max - 2 /\ (forall b, t_bits t = Some b -> in_range u32_max b).

Lemma judge_job_total t prev height nbits parent reference : tip_ok t ->
  exists c, judge_job t prev height nbits (t_height t + 1) parent reference = Ret c.
Proof.
  intros [Ht _]. unfold judge_job. destr_if; [by eexists|]. destr_if; [by eexists|].
  rewrite chk_add_ok by lia. by eexists.
Qed.

Lemma check_job_total t prev height nbits grace now : tip_ok t -> in_range u32_max height ->
  exists c, check_job t prev height nbits grace now = Ret c.
Proof.
  intros Ht Hh. assert (Hb := Ht). destruct Hb as [Hb _]. unfold check_job.
  rewrite (chk_add_ok _ (t_height t)) by lia. mstep.
  destr_if; [by apply judge_job_total|]. rewrite (chk_add_ok _ (t_height t + 1)) by lia. mstep.
  destr_if; [by apply judge_job_total|]. destr_if; [by eexists|]. bools.
  rewrite chk_add_ok by (unfold in_range in *; lia). mstep. destr_if; [by apply judge_job_total | by eexists].
Qed.

(** A job is judged against the figures the node gives for its height, or not taken. *)
Lemma check_job_judged t prev height nbits grace now c : tip_ok t -> in_range u32_max height ->
  check_job t prev height nbits grace now = Ret c -> taken c = true ->
  ((height = t_height t /\ elapsed now (seen_at t) < grace) \/ height = t_height t + 1 \/ height = t_height t + 2) /\
  judge_job t prev height nbits (t_height t + 1) (known_parent t height) (known_bits t height) = Ret c.
Proof.
  intros [Ht _] Hh. unfold check_job, known_parent, known_bits.
  rewrite (chk_add_ok _ (t_height t)) by lia. mstep.
  destruct (Z.eqb_spec height (t_height t + 1)) as [->|H1].
  { intros E _. split; [lia|]. rewrite (proj2 (Z.eqb_neq _ (t_height t))) by lia. exact E. }
  rewrite (chk_add_ok _ (t_height t + 1)) by lia. mstep. destruct (Z.eqb_spec height (t_height t + 1 + 1)) as [->|H2].
  { rewrite (proj2 (Z.eqb_neq _ (t_height t))) by lia. intros E _. split; [lia | exact E]. }
  destr_if; [intros [= <-]; done|]. bools. unfold in_range in Hh.
  rewrite chk_add_ok by lia. mstep.
  destr_if; [|intros [= <-]; done]. bools. rewrite (proj2 (Z.eqb_eq height (t_height t))) by lia.
  intros E _. split; [left; lia | exact E].
Qed.

Lemma judge_job_taken t prev height nbits expected parent reference c :
  judge_job t prev height nbits expected parent reference = Ret c -> taken c = true ->
  (c = Current <-> parent = Some prev) /\
  (reference = Some nbits \/
   ((reference = None \/ (parent <> Some prev /\ height mod 2016 = 0)) /\
    forall b, t_bits t = Some b -> easier_than_4x nbits b = false)).
Proof.
  unfold judge_job. intros H Ht. destr_if_in H; [by injection H as <-|]. apply negb_false_iff in Hif.
  split.
  - destr_if_in H; bools.
    + by injection H as <-.
    + apply bind_Ret_inv in H as (n & _ & H). split; [|done]. intros ->. by destr_if_in H.
  - apply orb_true_iff in Hif as [H1|H1]; [left; by bools | right].
    apply andb_true_iff in H1 as [Ho Hp]. split.
    + apply orb_true_iff in Ho as [Ho|Ho]; bools; [by left | by right].
    + intros b Hb. rewrite Hb in Hp. by bools.
Qed.

(** A job that is taken is for the tip's own height inside the grace period, the next, or the
    one after; it counts as building on the node's chain exactly when it names the parent the
    node knows for that height; and its target is the one the node gives for that height, or,
    where the node gives none or it is a retarget block elsewhere, no easier than four times the
    tip's. *)
Theorem job_held_to_chain (t : Tip) (prev : Hash) (height nbits grace now : Z) (c : JobCheck) :
  tip_ok t -> in_range u32_max height -> in_range u32_max nbits ->
  check_job t prev height nbits grace now = Ret c -> taken c = true ->
  ((height = t_height t /\ elapsed now (seen_at t) < grace) \/
   height = t_height t + 1 \/ height = t_height t + 2) /\
  (c = Current <-> known_parent t height = Some prev) /\
  (known_bits t height = Some nbits \/
   (known_bits t height = None \/ (c <> Current /\ height mod 2016 = 0)) /\
   forall b cap, t_bits t = Some b -> nbits_to_target_le b = Some cap -> of_le cap < 2 ^ 254 ->
     exists target, nbits_to_target_le nbits = Some target /\ of_le target <= 4 * of_le cap).
Proof.
  intros Ht Hh Hn H Hc. destruct (check_job_judged _ _ _ _ _ _ _ Ht Hh H Hc) as [H1 H2].
  destruct (judge_job_taken _ _ _ _ _ _ _ _ H2 Hc) as [H3 H4]. conjs; [done | done |].
  destruct H4 as [H4|[H4 H5]]; [by left | right]. split; [rewrite H3; naive_solver|].
  intros b cap Hb Hcap Hlt. specialize (H5 b Hb). destruct (nbits_to_target_le nbits) as [target|] eqn:E.
  - exists target. split; [done|]. destruct Ht as [_ Hr]. specialize (Hr b Hb).
    unfold in_range in Hn, Hr. rewrite (easier_than_4x_spec nbits b target cap) in H5 by (done || lia). bools. lia.
  - unfold easier_than_4x in H5. by rewrite E in H5.
Qed.

Definition demo_tip : Tip := {|
  t_height := 973440; t_hash := "tip"; t_hash_le := Some (replicate 32 7); parent_le := Some (replicate 32 6);
  t_bits := Some 0x193c2d40; next_bits := None; seen_at := 0; seen_ts := 0 |}.

Lemma demo_tip_ok : tip_ok demo_tip.
Proof. split; [split; vm_compute; discriminate|]. intros b [= <-]. split; vm_compute; discriminate. Qed.

Lemma job_held_to_chain_witness :
  exists target, nbits_to_target_le 0x193c2d41 = Some target /\ of_le target <= 4 * (0x3c2d40 * 256 ^ 22).
Proof.
  destruct (job_held_to_chain demo_tip (replicate 32 7) 973441 0x193c2d41 (secs 120) 0 Current demo_tip_ok
              ltac:(split; vm_compute; discriminate) ltac:(split; vm_compute; discriminate)
              ltac:(vm_compute; reflexivity) eq_refl) as (_ & _ & [H|[_ H]]); [discriminate H|].
  destruct (nbits_to_target_le 0x193c2d40) as [cap|] eqn:E; [|vm_compute in E; discriminate E].
  assert (Hc : of_le cap = 0x3c2d40 * 256 ^ 22).
  { assert (E' : nbits_to_target_le 0x193c2d40 = Some cap) by exact E. vm_compute in E'. injection E' as <-.
    vm_compute. reflexivity. }
  rewrite <- Hc. apply (H 0x193c2d40 cap eq_refl E). rewrite Hc. vm_compute. reflexivity.
Defined.

(** * Credited shares *)

(** What reaches the set: a share under the tip of the moment, or the housekeeping. *)
Inductive Event :=
| Share (t : Tip) (prev : Hash) (height nbits grace now : Z) (hash : Hash)
| Housekeep (t : Tip).

Definition tip_of (e : Event) : Tip := match e with Share t _ _ _ _ _ _ | Housekeep t => t end.
Definition event_ok (e : Event) : Prop :=
  tip_ok (tip_of e) /\ match e with Share _ _ height _ _ _ _ => in_range u32_max height | Housekeep _ => True end.

(** The set after an event, and what the event credits. *)
Definition credit_step (st : SeenShares) (e : Event) : panics (SeenShares * list (Z * Hash)) :=
  match e with
  | Share t prev height nbits grace now hash =>
      c ← check_job t prev height nbits grace now;
      if taken c then
        let '(st', a) := seen_insert st height hash in
        Ret (st', match a with Fresh => [(height, hash)] | _ => [] end)
      else Ret (st, [])
  | Housekeep t => st' ← housekeep_seen st (Some t); Ret (st', [])
  end.

Fixpoint credit_run (st : SeenShares) (es : list Event) : panics (SeenShares * list (Z * Hash)) :=
  match es with
  | [] => Ret (st, [])
  | e :: es' =>
      '(st', now) ← credit_step st e;
      '(st'', later) ← credit_run st' es';
      Ret (st'', now ++ later)
  end.

(** The node's tip never falls more than two blocks under the highest it has been. *)
Fixpoint shallow (top : Z) (es : list Event) : Prop :=
  match es with
  | [] => True
  | e :: es' => top - 2 <= t_height (tip_of e) /\ shallow (Z.max top (t_height (tip_of e))) es'
  end.

(** Everything credited at a height that is still live is in the set. *)
Record run_ok (top : Z) (st : SeenShares) (past : list (Z * Hash)) : Prop := {
  ro_set : seen_ok st;
  ro_past : NoDup past;
  ro_heights : forall h x, (h, x) ∈ past -> 0 <= h;
  ro_live : forall h x, (h, x) ∈ past -> top - 2 <= h -> is_credited st h x
}.

Lemma credit_step_ok top st past e : run_ok top st past -> event_ok e -> top - 2 <= t_height (tip_of e) ->
  exists st' now, credit_step st e = Ret (st', now) /\ run_ok (Z.max top (t_height (tip_of e))) st' (past ++ now).
Proof.
  intros [R1 R2 R0 R3] [He1 He2] Htop. destruct e as [t prev height nbits grace now hash|t]; cbn [tip_of] in *.
  - destruct (check_job_total t prev height nbits grace now He1 He2) as [c Hc]. cbn [credit_step]. rewrite Hc. mstep.
    destruct (taken c) eqn:Ht.
    2:{ exists st, []. split; [done|]. rewrite app_nil_r. constructor; [done | done | done |]. intros h x H1 H2. apply R3; [done | lia]. }
    destruct (check_job_judged _ _ _ _ _ _ _ He1 He2 Hc Ht) as [Hh _].
    pose proof (seen_insert_spec st height hash R1) as S. destruct (seen_insert st height hash) as [st' a].
    destruct S as [S1 S2]. exists st', (match a with Fresh => [(height, hash)] | _ => [] end). split; [done|].
    destruct a; destruct S2 as [S2 S3].
    + constructor; [done | | |].
      * apply NoDup_app. conjs; [done | | apply NoDup_singleton].
        intros y Hy1 Hy2. apply list_elem_of_singleton in Hy2 as ->. apply S2, R3; [done | lia].
      * intros h x H1. apply elem_of_app in H1 as [H1|H1]; [by eapply R0|]. apply list_elem_of_singleton in H1 as [= -> _].
        apply He2.
      * intros h x H1 H2. apply S3. apply elem_of_app in H1 as [H1|H1].
        -- left. apply R3; [done | lia].
        -- right. apply list_elem_of_singleton in H1. naive_solver.
    + rewrite app_nil_r. constructor; [done | done | done |]. intros h x H1 H2. apply S3, R3; [done | lia].
    + rewrite app_nil_r. constructor; [done | done | done |]. intros h x H1 H2. apply S3, R3; [done | lia].
  - cbn [credit_step housekeep_seen]. destruct (prune_below_all st (sat_sub (t_height t) 2) R1) as (st' & -> & P1 & P2).
    mstep. exists st', []. split; [done|]. rewrite app_nil_r. constructor; [done | done | done |].
    intros h x H1 H2. pose proof (R0 h x H1). apply (credited_filter _ _ _ _ _ P2). destruct He1 as [He1 _]. split; [apply R3; [done | lia]|].
    unfold sat_sub. lia.
Qed.

Lemma credit_run_ok es : forall top st past, run_ok top st past -> Forall event_ok es -> shallow top es ->
  exists st' now, credit_run st es = Ret (st', now) /\ seen_ok st' /\ NoDup (past ++ now).
Proof.
  induction es as [|e es IH]; intros top st past R HF Hs; cbn [credit_run].
  - exists st, []. rewrite app_nil_r. destruct R. done.
  - apply Forall_cons in HF as [He HF]. destruct Hs as [H1 H2].
    destruct (credit_step_ok top st past e R He H1) as (st' & now & -> & R'). mstep.
    destruct (IH _ _ _ R' HF H2) as (st'' & later & -> & S & N). mstep.
    exists st'', (now ++ later). split; [done|]. split; [done|]. by rewrite app_assoc.
Qed.

(** C10: however shares, new tips and housekeeping follow each other, as long as the node's tip
    never falls more than two blocks back, nothing underflows, the set stays within its limits,
    and no hash is credited twice at a height. *)
Theorem share_credited_once (es : list Event) : Forall event_ok es -> shallow 0 es ->
  exists st credits, credit_run seen_new es = Ret (st, credits) /\
    seen_total st = held_shares (by_height st) /\ seen_total st <= MAX_TOTAL /\ NoDup credits.
Proof.
  intros HF Hs. destruct (credit_run_ok es 0 seen_new []) as (st & now & E & [S1 S2 _] & N); [|done|done|].
  - constructor; [apply seen_new_ok | constructor | |]; intros h x H; by apply not_elem_of_nil in H.
  - exists st, now. done.
Qed.

Definition demo_events : list Event :=
  [Share demo_tip (replicate 32 7) 973441 0x193c2d41 (secs 120) 0 (replicate 32 1);
   Housekeep demo_tip;
   Share demo_tip (replicate 32 7) 973441 0x193c2d41 (secs 120) 0 (replicate 32 1);
   Share demo_tip (replicate 32 7) 973441 0x193c2d41 (secs 120) 0 (replicate 32 2)].

Lemma demo_events_ok : Forall event_ok demo_events /\ shallow 0 demo_events.
Proof.
  split.
  - unfold demo_events, event_ok, in_range. cbn [tip_of].
    repeat (apply Forall_cons_2; [split; [apply demo_tip_ok | exact I || lia]|]). apply Forall_nil_2.
  - unfold demo_events, shallow. cbn [tip_of t_height demo_tip]. lia.
Qed.

Lemma share_credited_once_witness :
  exists st credits, credit_run seen_new demo_events = Ret (st, credits) /\ NoDup credits /\ length credits = 2%nat.
Proof.
  destruct (share_credited_once demo_events (proj1 demo_events_ok) (proj2 demo_events_ok)) as (st & cr & E & _ & _ & N).
  exists st, cr. conjs; [exact E | exact N |].
  assert (match credit_run seen_new demo_events with Ret (_, l) => length l = 2%nat | Panic => False end)
    as H by (vm_compute; reflexivity).
  rewrite E in H. exact H.
Defined.

(** * Connections *)

(** Slots taken and given back, with the addresses that hold one. *)
Inductive conn_reach (max_total max_per_ip : Z) : Connections -> list IpAddr -> Prop :=
| conn_start : conn_reach max_total max_per_ip conn_new []
| conn_admit c live ip c' : conn_reach max_total max_per_ip c live ->
    admit_conn c ip max_total max_per_ip = Ret (c', Ok tt) -> conn_reach max_total max_per_ip c' (ip :: live)
| conn_refuse c live ip c' why : conn_reach max_total max_per_ip c live ->
    admit_conn c ip max_total max_per_ip = Ret (c', Err why) -> conn_reach max_total max_per_ip c' live
| conn_release c before ip after : conn_reach max_total max_per_ip c (before ++ ip :: after) ->
    conn_reach max_total max_per_ip (release c ip) (before ++ after).

(** The connections counted under one key. *)
Definition from_key (k : IpAddr) (live : list IpAddr) : Z :=
  Z.of_nat (length (filter (fun ip => conn_key ip = k) live)).

Lemma from_key_cons k ip live : from_key k (ip :: live) = (if decide (conn_key ip = k) then 1 else 0) + from_key k live.
Proof. unfold from_key. rewrite filter_cons. destruct (decide _); cbn [length]; lia. Qed.

Lemma from_key_app k l1 l2 : from_key k (l1 ++ l2) = from_key k l1 + from_key k l2.
Proof. unfold from_key. rewrite filter_app, length_app. lia. Qed.

Lemma from_key_nonneg k l : 0 <= from_key k l.
Proof. unfold from_key. lia. Qed.

Lemma from_key_le k l : from_key k l <= Z.of_nat (length l).
Proof. unfold from_key. pose proof (length_filter (fun ip => conn_key ip = k) l). lia. Qed.

Record conn_ok (max_total max_per_ip : Z) (c : Connections) (live : list IpAddr) : Prop := {
  co_total : conn_total c = Z.of_nat (length live);
  co_cap : Z.of_nat (length live) <= max_total;
  co_count : forall k, default 0 (per_ip c !! k) = from_key k live;
  co_each : forall k, from_key k live <= max_per_ip
}.

Section Slots.
Context (max_total max_per_ip : Z).
Hypothesis total_range : in_range u32_max max_total.
Hypothesis per_ip_range : in_range u32_max max_per_ip.

Definition reserve (ip : IpAddr) : Z := if is_loopback ip then 0 else Z.min (max_total / 8) 2.

Lemma reserve_range ip : 0 <= reserve ip <= max_total.
Proof using total_range.
  unfold reserve, in_range in *. destr_if; [lia|]. assert (0 <= max_total / 8) by (apply Z.div_pos; lia).
  assert (max_total / 8 <= max_total) by (apply Z.div_le_upper_bound; lia). lia.
Qed.

(** A slot is given exactly when both limits leave room, and nothing else changes. *)
Lemma admit_spec c live ip : conn_ok max_total max_per_ip c live ->
  let room := (Z.of_nat (length live) <? max_total - reserve ip) && (from_key (conn_key ip) live <? max_per_ip) in
  exists c' r, admit_conn c ip max_total max_per_ip = Ret (c', r) /\
    (r = Ok tt <-> room = true) /\
    conn_ok max_total max_per_ip c' (if room then ip :: live else live).
Proof using total_range per_ip_range.
  intros OK. destruct (OK) as [O1 O2 O3 O4]. pose proof (reserve_range ip) as Hr.
  assert (Hs : sat_sub max_total (if is_loopback ip then 0 else Z.min (max_total / 8) 2) = max_total - reserve ip)
    by (fold (reserve ip); unfold sat_sub; lia).
  cbv zeta. unfold admit_conn. rewrite Hs, O1, O3. destruct (Z.leb_spec (max_total - reserve ip) (Z.of_nat (length live))).
  { rewrite (proj2 (Z.ltb_ge _ _)) by lia. cbn [andb]. eexists _, _. split; [done|]. done. }
  rewrite (proj2 (Z.ltb_lt _ _)) by lia. cbn [andb].
  pose proof (from_key_nonneg (conn_key ip) live). pose proof (O4 (conn_key ip)). unfold in_range in *.
  destruct (Z.leb_spec max_per_ip (from_key (conn_key ip) live)).
  - rewrite (proj2 (Z.ltb_ge _ _)) by lia. eexists _, _. split; [done|]. split; [done|]. constructor; cbn; try done.
    intros k. destruct (decide (conn_key ip = k)) as [<-|Hne]; [by rewrite lookup_insert_eq | by rewrite lookup_insert_ne].
  - rewrite (proj2 (Z.ltb_lt _ _)) by lia. rewrite !chk_add_ok by lia. mstep. eexists _, _. split; [done|]. split; [done|].
    constructor; cbn [conn_total per_ip length]; [lia | lia | |]; intros k; rewrite from_key_cons;
      destruct (decide (conn_key ip = k)) as [<-|Hne].
    + rewrite lookup_insert_eq. cbn [default from_option id]. lia.
    + rewrite lookup_insert_ne by done. rewrite O3. lia.
    + lia.
    + pose proof (O4 k). lia.
Qed.

Lemma release_ok c before ip after : conn_ok max_total max_per_ip c (before ++ ip :: after) ->
  conn_ok max_total max_per_ip (release c ip) (before ++ after).
Proof.
  intros [O1 O2 O3 O4]. rewrite length_app in O1, O2. cbn [length] in O1, O2.
  assert (Hk : forall k, from_key k (before ++ ip :: after) =
            (if decide (conn_key ip = k) then 1 else 0) + from_key k (before ++ after)).
  { intros k. rewrite !from_key_app, from_key_cons. lia. }
  constructor; cbn [release conn_total per_ip].
  - rewrite length_app. unfold sat_sub. lia.
  - rewrite length_app. lia.
  - intros k. pose proof (O3 k) as Hc. rewrite Hk in Hc. pose proof (from_key_nonneg k (before ++ after)).
    destruct (decide (conn_key ip = k)) as [<-|Hne].
    + destruct (per_ip c !! conn_key ip) as [n|] eqn:E; cbn [default from_option id] in Hc; [|lia].
      unfold sat_sub. destr_if; bools.
      * rewrite lookup_delete_eq. cbn. lia.
      * rewrite lookup_insert_eq. cbn. lia.
    + rewrite Z.add_0_l in Hc. rewrite <- Hc. destruct (per_ip c !! conn_key ip) as [n|]; [|done].
      destr_if; [by rewrite lookup_delete_ne | by rewrite lookup_insert_ne].
  - intros k. pose proof (O4 k) as H. rewrite Hk in H. destruct (decide _); lia.
Qed.

Lemma conn_reach_ok c live : conn_reach max_total max_per_ip c live -> conn_ok max_total max_per_ip c live.
Proof using total_range per_ip_range.
  induction 1 as [|c live ip c' R IH H|c live ip c' why R IH H|c before ip after R IH].
  - unfold in_range in *. constructor; cbn; [done | lia | |]; intros k; [by rewrite lookup_empty | unfold from_key; cbn; lia].
  - destruct (admit_spec c live ip IH) as (c2 & r & E & Hr & OK). rewrite E in H. injection H as -> ->.
    by rewrite (proj1 Hr eq_refl) in OK.
  - destruct (admit_spec c live ip IH) as (c2 & r & E & Hr & OK). rewrite E in H. injection H as -> ->.
    destruct (andb _ _); [by discriminate (proj2 Hr eq_refl) | done].
  - by apply release_ok in IH.
Qed.
End Slots.

(** In whatever order connections come and go, the slots in use are exactly the live ones,
    within the total and, per address (a /64 for IPv6, mapped IPv4 as IPv4), within its limit; and
    a new address gets a slot exactly when both limits leave room, the last two slots being open
    to loopback only. *)
Theorem connection_slots (max_total max_per_ip : Z) (c : Connections) (live : list IpAddr) (ip : IpAddr) :
  in_range u32_max max_total -> in_range u32_max max_per_ip -> conn_reach max_total max_per_ip c live ->
  conn_total c = Z.of_nat (length live) /\ conn_total c <= max_total /\
  from_key (conn_key ip) live <= max_per_ip /\
  exists c' r, admit_conn c ip max_total max_per_ip = Ret (c', r) /\
    (r = Ok tt <->
     conn_total c < max_total - (if is_loopback ip then 0 else Z.min (max_total / 8) 2) /\
     from_key (conn_key ip) live < max_per_ip).
Proof.
  intros Ht Hp R. pose proof (conn_reach_ok _ _ Ht Hp _ _ R) as OK. destruct (OK) as [O1 O2 O3 O4].
  conjs; [done | lia | done |]. destruct (admit_spec _ _ Ht Hp c live ip OK) as (c' & r & E & Hr & _).
  exists c', r. split; [done|]. rewrite Hr, andb_true_iff, !Z.ltb_lt, O1. done.
Qed.

Definition one_connection : Connections := {| per_ip := {[V4 [10; 0; 0; 1] := 1]}; conn_total := 1 |}.

Lemma one_connection_reach : conn_reach 8 1 one_connection [V4 [10; 0; 0; 1]].
Proof. apply (conn_admit 8 1 conn_new [] (V4 [10; 0; 0; 1])); [constructor | reflexivity]. Qed.

Lemma connection_slots_witness :
  conn_total one_connection = 1 /\
  exists c' r, admit_conn one_connection (V6 [0; 0; 0; 0; 0; 0xffff; 0x0a00; 1]) 8 1 = Ret (c', r) /\ r <> Ok tt.
Proof.
  destruct (connection_slots 8 1 one_connection [V4 [10; 0; 0; 1]] (V6 [0; 0; 0; 0; 0; 0xffff; 0x0a00; 1])
              ltac:(split; lia) ltac:(split; lia) one_connection_reach) as (H1 & _ & _ & c' & r & E & Hr).
  split; [exact H1|]. exists c', r. split; [exact E|]. intros H. apply Hr in H as [_ H].
  assert (from_key (conn_key (V6 [0; 0; 0; 0; 0; 65535; 2560; 1])) [V4 [10; 0; 0; 1]] = 1) as H2 by (vm_compute; reflexivity).
  lia.
Defined.

(** The reserve goes by the address as it arrived, the limits by its key: a gateway on the pool's
    own host that reaches a listener bound to [::] over IPv4 arrives as [::ffff:127.0.0.1], is
    counted as [127.0.0.1], and is not given the slots kept for it. *)
Theorem mapped_loopback_has_no_reserve :
  conn_key (V6 [0; 0; 0; 0; 0; 0xffff; 0x7f00; 1]) = V4 [127; 0; 0; 1] /\
  is_loopback (V4 [127; 0; 0; 1]) = true /\
  exists c, admit_conn {| per_ip := ∅; conn_total := 14 |} (V6 [0; 0; 0; 0; 0; 0xffff; 0x7f00; 1]) 16 8 =
              Ret (c, Err "connection limit reached"%string) /\
    exists c', admit_conn {| per_ip := ∅; conn_total := 14 |} (V4 [127; 0; 0; 1]) 16 8 = Ret (c', Ok tt).
Proof. conjs; [reflexivity | reflexivity |]. eexists. split; [reflexivity|]. eexists. reflexivity. Qed.

(** * Class budgets and the carry ceiling *)

(** The two thresholds are a quarter of the ceiling apart: turned back on, budgets stay on until
    carry has grown by that much, and the other way round. *)
Theorem ceiling_hysteresis (ceiling carry carry' : Z) : 0 < ceiling -> 0 <= carry -> 0 <= carry' ->
  (class_budget_held_off true carry ceiling = false -> class_budget_held_off false carry' ceiling = true ->
   carry' - carry >= ceiling / 4) /\
  (class_budget_held_off false carry ceiling = true -> class_budget_held_off true carry' ceiling = false ->
   carry - carry' >= ceiling / 4).
Proof.
  intros Hc H1 H2. unfold class_budget_held_off. rewrite (proj2 (Z.eqb_neq _ _)) by lia.
  rewrite !Z.ltb_ge, !Z.leb_le. lia.
Qed.

(** * Refused gateways *)

(** A refusal lasts [quarantine-minutes], doubled with every strike that is still remembered, and
    never past the configured cap (nor, where the cap is shorter, past one span). *)
Theorem quarantine_span (cfg : QuarantineConfig) (q : gmap string Quarantine) (key : string)
    (height : Z) (reason : string) (ts : Z) (q' : gmap string Quarantine) (span : option Z) :
  0 < quarantine_minutes cfg -> 0 <= quarantine_max_hours cfg -> quarantine_minutes cfg * 60 <= u64_max ->
  map_Forall (fun _ e => 1 <= strikes e) q -> 0 <= ts ->
  quarantine_gateway cfg q key height reason ts = Ret (q', span) ->
  exists e s, span = Some s /\ q' !! lower key = Some e /\ q_until e = ts + s /\ q_last e = ts /\
    1 <= strikes e /\
    s = Z.min (sat_mul u64_max (quarantine_minutes cfg * 60) (2 ^ Z.min (strikes e - 1) 20))
              (Z.max (sat_mul u64_max (quarantine_max_hours cfg) 3600) (quarantine_minutes cfg * 60)) /\
    live_quarantine q' (lower key) ts = Some e.
Proof.
  intros Hm Hh Hmax Hq Hts H. unfold quarantine_gateway in H.
  rewrite (proj2 (Z.ltb_ge _ _)) in H by lia. rewrite (proj2 (Z.eqb_neq _ 0)) in H by lia. cbn [orb] in H.
  set (cap := Z.max (sat_mul u64_max (quarantine_max_hours cfg) 3600) (quarantine_minutes cfg * 60)) in *.
  set (kept := remembered _ ts q) in *.
  set (n := match kept !! lower key with Some e => _ | None => 1 end) in *.
  assert (Hn : 1 <= n).
  { unfold n. destruct (kept !! lower key) as [e|] eqn:E; [|lia]. destr_if; [|lia].
    apply map_lookup_filter_Some in E as [E _]. apply Hq in E. unfold sat_add. lia. }
  apply bind_Ret_inv in H as (until & Hu & H). apply chk_add_inv in Hu as [-> _]. injection H as <- <-.
  rewrite Z.shiftl_mul_pow2, Z.mul_1_l by lia.
  eexists _, _. split; [done|]. rewrite lookup_insert_eq. conjs; try done. unfold live_quarantine.
  rewrite lookup_insert_eq. cbn [q_until]. rewrite (proj2 (Z.ltb_lt _ _)); [done|].
  assert (0 < 2 ^ Z.min (n - 1) 20) by (apply Z.pow_pos_nonneg; lia). unfold sat_mul, cap. nia.
Qed.
