(* ===== verification/Settle.v ===== *)
(** What a coinbaser reply lists, and what a block found on it does to the books
    ([prime/primed/src/session.rs]).

    A block is priced against the coinbaser it was mined on: what its coinbase placed, what the
    window is owed for the rest, and the carry that moves either way. *)

From S2P Require Import Prelude Bytes Tides Split Window Grace Ledger Cursor Coinbaser Coinbase Mining Handshake Pow Verify.
Open Scope Z_scope.

(** * Replies *)

(** [class_params]: the pool's parameters, held to a session's class budget. *)
Definition class_params (pool : SplitParams) (budget : option Z) : SplitParams :=
  match budget with
  | Some b =>
      if b <? output_budget_bytes pool then
        {| fee_bps := fee_bps pool; stratum_fee_bps := stratum_fee_bps pool;
           datum_rebate_bps := datum_rebate_bps pool; grace_fee_bps := grace_fee_bps pool;
           grace_rebate_bps := grace_rebate_bps pool; min_payout := min_payout pool;
           max_outputs := max_outputs pool; output_budget_bytes := b;
           stale_after := stale_after pool; stale_min_payout := stale_min_payout pool;
           stale_max_outputs := stale_max_outputs pool |}
      else pool
  | None => pool
  end.

(** [coinbaser_outputs]: the payees, then the pool's output. *)
Definition coinbaser_outputs (sp : Split.Split) (pool_script : list Z) : list Output :=
  let outs := map (fun p => {| sats := p_sats p; script := p_script p |}) (s_payees sp) in
  if (0 <? s_pool_sats sp) || (length outs =? 0)%nat
  then outs ++ [{| sats := Z.max (s_pool_sats sp) 1; script := pool_script |}]
  else outs.

(** A coinbaser a session has issued. *)
Record IssuedCoinbaser := {
  ic_id : Z;
  ic_value : Z;
  ic_prev_hash : Hash;
  ic_height : Z;
  ic_outputs : list Output;
  ic_payees : list Payee;
  ic_unpaid : list Unpaid;
  ic_rebate_credits : list (string * Z);
  ic_owed_credited : Z;
  ic_deferred : Z;
  class_budget : option Z
}.

Inductive CoinbaserAction := FreshReply | Repeat (id : Z) | FreshOverRate.

(** [coinbaser_action]: the last reply of the same value and budget is the one repeated. *)
Definition coinbaser_action (tokens : Z) (issued : list IssuedCoinbaser) (value : Z) (budget : option Z)
    : CoinbaserAction :=
  if 0 <? tokens then FreshReply
  else match find (fun c => (ic_value c =? value) && bool_decide (class_budget c = budget)) (rev issued) with
       | Some c => Repeat (ic_id c)
       | None => FreshOverRate
       end.

Definition COINBASER_GRACE_BLOCKS : Z := 2.

(** [Session::issued] and [Session::issued_for], on the replies a session keeps. *)
Definition issued_by_id (cs : list IssuedCoinbaser) (id : Z) : option IssuedCoinbaser :=
  find (fun c => ic_id c =? id) (rev cs).
Definition issued_for (cs : list IssuedCoinbaser) (id : Z) (prev_hash : Hash) (height : Z)
    : panics (option IssuedCoinbaser) :=
  match issued_by_id cs id with
  | None => Ret None
  | Some c =>
      if bool_decide (ic_prev_hash c = prev_hash) then Ret (Some c)
      else if ic_height c <=? 0 then Ret None
      else last ← chk_add u32_max (ic_height c) COINBASER_GRACE_BLOCKS;
           Ret (if height <=? last then Some c else None)
  end.

(** * Settling *)

(** What a block is settled against. *)
Record Coinbaser := {
  cbr_value : Z;
  cbr_payees : list Payee;
  cbr_unpaid : list Unpaid;
  cbr_rebate_credits : list (string * Z);
  cbr_owed_credited : Z;
  cbr_deferred : Z;
  class_capped : bool
}.

Record Settlement := {
  se_kind : string;
  se_owed : Z;
  se_split : list (string * Z);
  se_carry_paid : Z;
  se_carry_placed : list (string * Z);
  se_carry_delta : list (string * Z);
  se_rebate_credits : list (string * Z);
  se_rebate_credited : Z;
  se_rebate_delta : Z;
  se_carry_reserved : Z
}.

Definition bare (kind : string) : Settlement := {|
  se_kind := kind; se_owed := 0; se_split := []; se_carry_paid := 0; se_carry_placed := [];
  se_carry_delta := []; se_rebate_credits := []; se_rebate_credited := 0; se_rebate_delta := 0;
  se_carry_reserved := 0 |}.

(** [scale]: [sats] in the ratio of [value] to [issued_value]. *)
Definition scale (sats value issued_value : Z) : Z :=
  if issued_value =? 0 then sats else trunc u64_max (sats * value / issued_value).

(** [reward_matches]: no less than was issued for, and at most a sixteenth more. *)
Definition reward_matches (actual issued : Z) : bool :=
  (issued =? 0) || ((issued <=? actual) && (actual - issued <=? issued / 16)).

(** The closure [reserved] of [settle]. *)
Definition reserved (cb : Coinbaser) (each : Z -> Z) : Z :=
  if negb (class_capped cb) then 0
  else foldl (fun a u => sat_add u64_max a (each (u_earned u))) 0
         (filter (fun u => bool_decide (u_reason u = OverBudget) && defers u) (cbr_unpaid cb)).

Definition carry_delta_of (cb : Coinbaser) : list (string * Z) :=
  carry_delta (cbr_payees cb) (cbr_unpaid cb) (cbr_rebate_credits cb) (fun _ => true).
Definition rebate_delta_of (cb : Coinbaser) : Z := rebate_delta (cbr_owed_credited cb) (cbr_deferred cb).

Section Settle.
Context (kind : CoinbaseKind) (name : string) (cb : Coinbaser) (coinbase_value : Z) (paid_to : list Z -> Z).

Definition full_split : bool := bool_decide (kind = Split).
Definition pool_only : bool := bool_decide (kind = PoolOnly).
Definition placed (p : Payee) : bool := negb pool_only && (0 <? paid_to (p_script p)).

(** A block worth about what the coinbaser was asked for: the split's own figures stand. *)
Definition settle_as_issued : panics Settlement :=
  let carry_placed := map (fun p => (p_identity p, p_carry p))
    (filter (fun p => (0 <? p_carry p) && (full_split || placed p)) (cbr_payees cb)) in
  owed ← (if full_split then Ret 0
          else chk_sum u64_max 0 (map p_sats (filter (fun p => negb (placed p)) (cbr_payees cb))));
  carry_paid ← chk_sum u64_max 0 (map snd carry_placed);
  credited ← chk_sum u64_max 0 (map snd (cbr_rebate_credits cb));
  Ret {| se_kind := name; se_owed := owed;
         se_split := map (fun p => (p_identity p, p_sats p)) (cbr_payees cb);
         se_carry_paid := carry_paid; se_carry_placed := carry_placed;
         se_carry_delta := carry_delta_of cb;
         se_rebate_credits := cbr_rebate_credits cb; se_rebate_credited := credited;
         se_rebate_delta := rebate_delta_of cb; se_carry_reserved := reserved cb (fun e => e) |}.

(** A block worth something else is priced for what it was. *)
Definition reprice (sats : Z) : Z := scale sats coinbase_value (cbr_value cb).
Definition entitled (p : Payee) : Z := sat_add u64_max (reprice (sat_sub (p_sats p) (p_carry p))) (p_carry p).
Definition paid (p : Payee) : Z := if pool_only then 0 else Z.min (paid_to (p_script p)) (entitled p).

Definition settle_repriced : panics Settlement :=
  let carry_placed := map (fun p => (p_identity p, Z.min (p_carry p) (paid p)))
    (filter (fun p => (0 <? p_carry p) && placed p) (cbr_payees cb)) in
  owing ← mapM (fun p => chk_sub (entitled p) (paid p)) (cbr_payees cb);
  owed ← chk_sum u64_max 0 owing;
  carry_paid ← chk_sum u64_max 0 (map snd carry_placed);
  credited ← chk_sum u64_max 0 (map (fun r => reprice r.2) (cbr_rebate_credits cb));
  Ret {| se_kind := name; se_owed := owed;
         se_split := map (fun p => (p_identity p, entitled p)) (cbr_payees cb);
         se_carry_paid := carry_paid; se_carry_placed := carry_placed;
         se_carry_delta := map (fun e => (e.1, if 0 <? e.2 then clamp_i64 (reprice e.2) else e.2)) (carry_delta_of cb);
         se_rebate_credits := map (fun r => (r.1, reprice r.2)) (cbr_rebate_credits cb);
         se_rebate_credited := credited;
         se_rebate_delta := rebate_delta_of cb;
         se_carry_reserved := reserved cb (fun e => clamp_i64 (reprice e)) |}.
End Settle.

Definition settle (kind : CoinbaseKind) (cb : option Coinbaser) (coinbase_value : Z)
    (paid_to : list Z -> Z) : panics Settlement :=
  let against (name : string) :=
    match cb with
    | None => Ret (bare (if bool_decide (kind = Split) then "split" else "unknown"))
    | Some cb =>
        if negb (pool_only kind) && reward_matches coinbase_value (cbr_value cb)
        then settle_as_issued kind name cb paid_to
        else settle_repriced kind name cb coinbase_value paid_to
    end in
  match kind with
  | Split => against "split"%string
  | Partial _ => against "partial"%string
  | PoolOnly => against "pool-only"%string
  | EmptySolo | GatewaySolo => Ret (bare "solo")
  | Foreign => Ret (bare "unknown")
  end.

(** [carry_on_record]: the carry a coinbase paid that was on the books, and what was listed and
    was not. *)
Definition short_of (shortfall : list (string * Z)) (identity : string) : panics Z :=
  chk_sum u64_max 0 (map snd (filter (fun s => s.1 = identity) shortfall)).
Definition carry_on_record (carry_placed : list (string * Z)) (b : Books) : panics (Z * Z) :=
  each ← mapM (fun c => short ← short_of (shortfall b) c.1; Ret (sat_sub c.2 short)) carry_placed;
  p ← chk_sum u64_max 0 each;
  all ← chk_sum u64_max 0 (map snd (shortfall b));
  Ret (p, all).
