(* ===== verification/SettleProps.v ===== *)
(** What a found block does to the books: everybody its coinbaser lists is paid or owed, their
    carry comes off once, and what a reply lists is the whole block. *)

From S2P Require Import Prelude Bytes Tides Split SplitFacts Window Grace Ledger Cursor Coinbaser Coinbase Mining Handshake Pow Verify VerifyFacts Settle MinersFacts.
Open Scope Z_scope.

(** * Lemmas *)

(** What a payee is due of a block, and what its coinbase is taken to have given them. *)
Definition as_issued (kind : CoinbaseKind) (cb : Coinbaser) (value : Z) : bool :=
  negb (pool_only kind) && reward_matches value (cbr_value cb).
Definition due (kind : CoinbaseKind) (cb : Coinbaser) (value : Z) (p : Payee) : Z :=
  if as_issued kind cb value then p_sats p else entitled cb value p.
Definition got (kind : CoinbaseKind) (cb : Coinbaser) (value : Z) (paid_to : list Z -> Z) (p : Payee) : Z :=
  if as_issued kind cb value
  then if full_split kind || placed kind paid_to p then p_sats p else 0
  else paid kind cb value paid_to p.

(** A coinbaser as a split leaves it, and a block not worth more than the integers hold. *)
Record priced_ok (cb : Coinbaser) (value : Z) : Prop := {
  po_payees : Forall (fun p => 0 <= p_carry p <= p_sats p) (cbr_payees cb);
  po_unpaid : Forall (fun u => 0 <= u_earned u) (cbr_unpaid cb);
  po_earned : zsum (map (fun p => p_sats p - p_carry p) (cbr_payees cb)) <= cbr_value cb;
  po_credits : Forall (fun r => 0 <= r.2) (cbr_rebate_credits cb);
  po_value : 0 <= value;
  po_room : value + zsum (map p_sats (cbr_payees cb)) <= u64_max;
  po_credit_room : zsum (map snd (cbr_rebate_credits cb)) <= u64_max /\
    zsum (map (fun r => scale r.2 value (cbr_value cb)) (cbr_rebate_credits cb)) <= u64_max
}.

Lemma scale_le sats value issued : 0 <= sats -> 0 <= value -> 0 <= issued ->
  0 <= scale sats value issued /\ (issued <> 0 -> issued * scale sats value issued <= sats * value) /\
  (issued = 0 -> scale sats value issued = sats).
Proof.
  intros Hs Hv Hi. unfold scale. destruct (Z.eqb_spec issued 0); [done|]. unfold trunc.
  assert (0 <= sats * value / issued) by (apply Z.div_pos; nia).
  assert (sats * value / issued mod (u64_max + 1) <= sats * value / issued) by (apply Z.mod_le; lia).
  pose proof (Z.mod_pos_bound (sats * value / issued) (u64_max + 1)). pose proof (Z.mul_div_le (sats * value) issued).
  conjs; [lia | nia | lia].
Qed.

Lemma scale_sum_mul l value issued : Forall (fun s => 0 <= s) l -> 0 <= value -> 0 < issued ->
  issued * zsum (map (fun s => scale s value issued) l) <= zsum l * value.
Proof.
  intros Hl Hv Hi. induction Hl as [|s l Hs Hl IH]; cbn [map]; rewrite ?zsum_cons; [cbn; lia|].
  pose proof (scale_le s value issued Hs Hv ltac:(lia)) as (_ & H1 & _). specialize (H1 ltac:(lia)). lia.
Qed.

(** Scaled in proportion, the parts of what was issued for stay within the block. *)
Lemma scale_sum l value issued : Forall (fun s => 0 <= s) l -> 0 <= value -> zsum l <= issued ->
  zsum (map (fun s => scale s value issued) l) <= value.
Proof.
  intros Hl Hv Hsum. pose proof (zsum_nonneg l Hl). destruct (Z.eqb_spec issued 0) as [->|Hi].
  - assert (E : zsum (map (fun s => scale s value 0) l) = zsum l).
    { f_equal. rewrite <- (map_id l) at 2. by apply map_ext. }
    lia.
  - pose proof (scale_sum_mul l value issued Hl Hv ltac:(lia)). nia.
Qed.

Lemma zsum_filter_map_le {A} (q : A -> bool) (f : A -> Z) l : (forall x, x ∈ l -> 0 <= f x) ->
  zsum (map f (filter (fun x => q x) l)) <= zsum (map f l).
Proof. intros H. apply (zsum_filter_le (fun x => q x)). done. Qed.

Section Priced.
Context (kind : CoinbaseKind) (cb : Coinbaser) (value : Z) (paid_to : list Z -> Z).
Hypothesis OK : priced_ok cb value.
Hypothesis paid_nonneg : forall s, 0 <= paid_to s.
Local Abbreviation payees := (cbr_payees cb).

Lemma payee_range p : p ∈ payees -> 0 <= p_carry p <= p_sats p.
Proof using OK. intros Hp. pose proof (po_payees _ _ OK) as H. by rewrite Forall_forall in H; apply H. Qed.

Lemma sats_room : 0 <= zsum (map p_sats payees) <= u64_max.
Proof using OK.
  destruct OK. split; [|lia]. apply zsum_map_nonneg. intros p Hp. apply payee_range in Hp. lia.
Qed.

Lemma issued_nonneg : 0 <= cbr_value cb.
Proof using OK.
  destruct OK. assert (0 <= zsum (map (fun p => p_sats p - p_carry p) payees)); [|lia].
  apply zsum_map_nonneg. intros p Hp. apply payee_range in Hp. lia.
Qed.

Lemma entitled_value p : p ∈ payees ->
  entitled cb value p = scale (p_sats p - p_carry p) value (cbr_value cb) + p_carry p /\ p_carry p <= entitled cb value p.
Proof using OK.
  intros Hp. pose proof (payee_range p Hp) as Hr. unfold entitled, reprice, sat_add.
  replace (sat_sub (p_sats p) (p_carry p)) with (p_sats p - p_carry p) by (unfold sat_sub; lia).
  pose proof issued_nonneg. destruct OK as [O1 O2 O3 O4 O5 O6 O7].
  assert (H1 : scale (p_sats p - p_carry p) value (cbr_value cb) <= value).
  { transitivity (zsum (map (fun s => scale s value (cbr_value cb)) (map (fun p => p_sats p - p_carry p) payees))).
    - rewrite map_map. apply (zsum_map_elem_le (fun q => scale (p_sats q - p_carry q) value (cbr_value cb))); [|done].
      intros q Hq. apply scale_le; [apply payee_range in Hq; lia | done | done].
    - apply scale_sum; [|done|done]. apply Forall_map, Forall_forall. intros q Hq. apply payee_range in Hq. cbn. lia. }
  assert (H2 : p_sats p <= zsum (map p_sats payees)).
  { apply zsum_map_elem_le; [|done]. intros q Hq. apply payee_range in Hq. lia. }
  pose proof (scale_le (p_sats p - p_carry p) value (cbr_value cb)). lia.
Qed.

Lemma due_sum : zsum (map (due kind cb value) payees) <= u64_max.
Proof using OK.
  unfold due. destruct (as_issued kind cb value); [apply sats_room|].
  assert (E : zsum (map (fun p => entitled cb value p) payees) =
            zsum (map (fun p => scale (p_sats p - p_carry p) value (cbr_value cb)) payees) + zsum (map p_carry payees)).
  { rewrite <- zsum_map_add. f_equal. apply map_ext_Forall, Forall_forall. intros p Hp. by apply entitled_value. }
  rewrite E. assert (H1 : zsum (map (fun p => scale (p_sats p - p_carry p) value (cbr_value cb)) payees) <= value).
  { rewrite <- (map_map (fun p => p_sats p - p_carry p) (fun s => scale s value (cbr_value cb))).
    destruct OK. apply scale_sum; [|done|done]. apply Forall_map, Forall_forall. intros q Hq. apply payee_range in Hq. cbn. lia. }
  assert (H2 : zsum (map p_carry payees) <= zsum (map p_sats payees)).
  { apply zsum_map_le. intros p Hp. apply payee_range in Hp. lia. }
  destruct OK. lia.
Qed.

Lemma got_range p : p ∈ payees -> 0 <= got kind cb value paid_to p <= due kind cb value p.
Proof using OK paid_nonneg.
  intros Hp. pose proof (payee_range p Hp). pose proof (entitled_value p Hp) as [_ H1]. unfold got, due.
  destruct (as_issued kind cb value); [destr_if; lia|]. unfold paid. destr_if; [lia|]. pose proof (paid_nonneg (p_script p)). lia.
Qed.
End Priced.

(** ** The two branches *)

Section Branches.
Context (kind : CoinbaseKind) (name : string) (cb : Coinbaser) (value : Z) (paid_to : list Z -> Z).
Hypothesis OK : priced_ok cb value.
Hypothesis paid_nonneg : forall s, 0 <= paid_to s.
Local Abbreviation payees := (cbr_payees cb).

(** What a settlement promises, whichever way it was priced. *)
Record settles (s : Settlement) : Prop := {
  sp_split : se_split s = map (fun p => (p_identity p, due kind cb value p)) payees;
  sp_owed : se_owed s + zsum (map (got kind cb value paid_to) payees) = zsum (map (due kind cb value) payees);
  sp_carry : Forall (fun e => exists p, p ∈ payees /\ e.1 = p_identity p /\ 0 <= e.2 <= p_carry p) (se_carry_placed s);
  sp_carry_paid : se_carry_paid s = zsum (map snd (se_carry_placed s));
  sp_carry_off : filter (fun e => e.2 < 0) (se_carry_delta s) =
    map (fun p => (p_identity p, - clamp_i64 (p_carry p))) (filter (fun p => 0 < p_carry p) payees)
}.

Lemma filter_carry (f : Payee -> bool) : filter (fun p => (0 <? p_carry p) && f p) payees =
  filter (fun p => f p) (filter (fun p => 0 < p_carry p) payees).
Proof using.
  clear OK paid_nonneg. induction payees as [|p l IH]; [done|]. rewrite !filter_cons. rewrite IH.
  destruct (decide (0 < p_carry p)) as [H|H].
  - rewrite (proj2 (Z.ltb_lt _ _)) by done. cbn [andb]. rewrite filter_cons. done.
  - rewrite (proj2 (Z.ltb_ge _ _)) by lia. cbn [andb]. by destruct (decide (Is_true false)).
Qed.

Lemma carry_off_as_issued : filter (fun e => e.2 < 0) (carry_delta_of cb) =
  map (fun p => (p_identity p, - clamp_i64 (p_carry p))) (filter (fun p => 0 < p_carry p) payees).
Proof using OK.
  clear paid_nonneg. destruct OK as [O1 O2 O3 O4 _ _ _]. unfold carry_delta_of, carry_delta. rewrite !filter_app.
  rewrite (filter_none_list _ (map _ (filter (fun u => defers u) _))).
  2:{ apply Forall_map, Forall_forall. intros u Hu. apply list_elem_of_filter in Hu as [_ Hu].
      rewrite Forall_forall in O2. specialize (O2 u Hu). cbn. unfold clamp_i64. lia. }
  rewrite (filter_none_list _ (map _ (filter (fun c => 0 <? c.2) _))).
  2:{ apply Forall_map, Forall_forall. intros u Hu. apply list_elem_of_filter in Hu as [_ Hu].
      rewrite Forall_forall in O4. specialize (O4 u Hu). cbn. unfold clamp_i64. lia. }
  rewrite !app_nil_r. rewrite filter_all_list.
  - f_equal. apply list_filter_iff. intros p. rewrite andb_true_r. split; [intros H; by apply Z.ltb_lt, Is_true_true|].
    intros H. by apply Is_true_true, Z.ltb_lt.
  - apply Forall_map, Forall_forall. intros p Hp. apply list_elem_of_filter in Hp as [Hp _].
    rewrite andb_true_r in Hp. apply Is_true_true, Z.ltb_lt in Hp. cbn. unfold clamp_i64. lia.
Qed.

Lemma carry_off_repriced :
  filter (fun e => e.2 < 0)
    (map (fun e => (e.1, if 0 <? e.2 then clamp_i64 (reprice cb value e.2) else e.2)) (carry_delta_of cb)) =
  filter (fun e => e.2 < 0) (carry_delta_of cb).
Proof using OK.
  pose proof (issued_nonneg _ _ OK). destruct OK as [_ _ _ _ Hv _ _]. induction (carry_delta_of cb) as [|e l IH]; [done|].
  cbn [map]. rewrite !filter_cons, IH. cbn [snd]. destruct (Z.ltb_spec 0 (e.2)).
  - rewrite !decide_False; [done | lia |]. unfold reprice, clamp_i64. pose proof (scale_le e.2 value (cbr_value cb)). lia.
  - destruct e; cbn [fst snd]. destruct (decide _); done.
Qed.

Lemma settle_as_issued_ok : as_issued kind cb value = true ->
  exists s, settle_as_issued kind name cb paid_to = Ret s /\ settles s /\ se_kind s = name.
Proof using OK paid_nonneg.
  intros Hi. pose proof (sats_room _ _ OK) as Hroom. unfold settle_as_issued.
  set (cp := map (fun p => (p_identity p, p_carry p)) (filter _ payees)).
  assert (Hcp : Forall (fun e => exists p, p ∈ payees /\ e.1 = p_identity p /\ 0 <= e.2 <= p_carry p) cp).
  { apply Forall_map, Forall_forall. intros p Hp. apply list_elem_of_filter in Hp as [_ Hp]. exists p.
    apply (payee_range _ _ OK) in Hp as Hr. cbn. conjs; done || lia. }
  assert (Hcs : zsum (map snd cp) <= zsum (map p_sats payees)).
  { unfold cp. rewrite map_map. cbn [snd]. etransitivity; [apply zsum_filter_map_le|].
    - intros p Hp. apply (payee_range _ _ OK) in Hp. lia.
    - apply zsum_map_le. intros p Hp. apply (payee_range _ _ OK) in Hp. lia. }
  assert (Howed : exists owed, (if full_split kind then Ret 0 else
      chk_sum u64_max 0 (map p_sats (filter (fun p => negb (placed kind paid_to p)) payees))) = Ret owed /\
      owed + zsum (map (got kind cb value paid_to) payees) = zsum (map p_sats payees)).
  { unfold got. rewrite Hi. destruct (full_split kind) eqn:Ef; cbn [orb].
    - exists 0. split; [done | done].
    - assert (Hle : zsum (map p_sats (filter (fun p => negb (placed kind paid_to p)) payees)) <= zsum (map p_sats payees)).
      { apply (zsum_filter_map_le (fun p => negb (placed kind paid_to p))). intros p Hp. apply (payee_range _ _ OK) in Hp. lia. }
      rewrite chk_sum_ok; [|apply Forall_map, Forall_forall; intros p Hp; apply list_elem_of_filter in Hp as [_ Hp];
        apply (payee_range _ _ OK) in Hp; cbn; lia | lia].
      eexists. split; [done|]. clear. induction payees as [|p l IH]; [done|]. rewrite filter_cons. cbn [map].
      destruct (placed kind paid_to p); cbn [negb]; [rewrite decide_False by (by intros []) | rewrite decide_True by done];
        cbn [map]; rewrite !zsum_cons; lia. }
  destruct Howed as (owed & -> & Ho). mstep. destruct OK as [O1 O2 O3 O4 O5 O6 [O7 _]].
  rewrite (chk_sum_ok _ _ (map snd cp)); [|apply Forall_map; eapply Forall_impl; [exact Hcp|]; intros e (p & _ & _ & He); cbn; lia | lia].
  mstep. rewrite chk_sum_ok; [|by apply Forall_map | lia]. mstep. eexists. split; [done|]. split; [|done]. constructor; cbn [se_split se_owed se_carry_paid se_carry_placed se_carry_delta].
  - apply map_ext. intros p. unfold due. by rewrite Hi.
  - rewrite Ho. f_equal. apply map_ext. intros p. unfold due. by rewrite Hi.
  - done.
  - lia.
  - apply carry_off_as_issued.
Qed.

Lemma settle_repriced_ok : as_issued kind cb value = false ->
  exists s, settle_repriced kind name cb value paid_to = Ret s /\ settles s /\ se_kind s = name.
Proof using OK paid_nonneg.
  intros Hi. pose proof (due_sum kind cb value OK) as Hroom. unfold settle_repriced.
  assert (Hg : forall p, p ∈ payees -> 0 <= paid kind cb value paid_to p <= entitled cb value p).
  { intros p Hp. pose proof (got_range kind cb value paid_to OK paid_nonneg p Hp) as H. unfold got, due in H. by rewrite Hi in H. }
  assert (Hdue : zsum (map (due kind cb value) payees) = zsum (map (entitled cb value) payees)).
  { f_equal. apply map_ext. intros p. unfold due. by rewrite Hi. }
  rewrite (mapM_Ret _ (fun p => entitled cb value p - paid kind cb value paid_to p)).
  2:{ apply Forall_forall. intros p Hp. apply chk_sub_ok. specialize (Hg p Hp). lia. }
  mstep. assert (Hs : zsum (map (fun p => entitled cb value p - paid kind cb value paid_to p) payees)
      + zsum (map (paid kind cb value paid_to) payees) = zsum (map (entitled cb value) payees)).
  { rewrite <- zsum_map_add. f_equal. apply map_ext. intros; lia. }
  assert (0 <= zsum (map (paid kind cb value paid_to) payees)) by (apply zsum_map_nonneg; intros p Hp; by apply Hg).
  rewrite (chk_sum_ok _ _ (map (fun p => entitled cb value p - paid kind cb value paid_to p) payees));
    [|apply Forall_map, Forall_forall; intros p Hp; specialize (Hg p Hp); cbn; lia | lia].
  mstep. set (cp := map (fun p => (p_identity p, Z.min (p_carry p) (paid kind cb value paid_to p))) (filter _ payees)).
  assert (Hcp : Forall (fun e => exists p, p ∈ payees /\ e.1 = p_identity p /\ 0 <= e.2 <= p_carry p) cp).
  { apply Forall_map, Forall_forall. intros p Hp. apply list_elem_of_filter in Hp as [_ Hp]. exists p.
    apply (payee_range _ _ OK) in Hp as Hr. specialize (Hg p Hp). cbn. conjs; done || lia. }
  assert (Hcs : zsum (map snd cp) <= zsum (map p_sats payees)).
  { unfold cp. rewrite map_map. cbn [snd]. etransitivity; [apply zsum_filter_map_le|].
    - intros p Hp. apply (payee_range _ _ OK) in Hp as Hr. specialize (Hg p Hp). lia.
    - apply zsum_map_le. intros p Hp. apply (payee_range _ _ OK) in Hp. lia. }
  pose proof (sats_room _ _ OK). pose proof carry_off_repriced as Hoff. pose proof (issued_nonneg _ _ OK).
  destruct (OK) as [O1 O2 O3 O4 O5 O6 [_ O7]].
  rewrite (chk_sum_ok _ _ (map snd cp)); [|apply Forall_map; eapply Forall_impl; [exact Hcp|]; intros e (p & _ & _ & He); cbn; lia | lia].
  mstep. rewrite chk_sum_ok; [|apply Forall_map; eapply Forall_impl; [exact O4|]; intros r Hr; cbn; by apply scale_le | unfold reprice; lia].
  mstep. eexists. split; [done|]. split; [|done]. constructor; cbn [se_split se_owed se_carry_paid se_carry_placed se_carry_delta].
  - apply map_ext. intros p. unfold due. by rewrite Hi.
  - rewrite Hdue. unfold got. rewrite Hi. change (zsum (map (fun p => paid kind cb value paid_to p) payees)) with (zsum (map (paid kind cb value paid_to) payees)). lia.
  - done.
  - lia.
  - rewrite Hoff. apply carry_off_as_issued.
Qed.
End Branches.

(** * Properties *)

Definition settled_kind (kind : CoinbaseKind) : Prop :=
  kind = Split \/ (exists n, kind = Partial n) \/ kind = PoolOnly.

Lemma settle_cases kind cb value paid_to : settled_kind kind ->
  exists name, settle kind (Some cb) value paid_to =
    if as_issued kind cb value then settle_as_issued kind name cb paid_to
    else settle_repriced kind name cb value paid_to.
Proof. intros [-> | [[n ->] | ->]]; eexists; reflexivity. Qed.


(** The block of the source's own test: two payees, and a coinbase that dropped the second. *)
Definition demo_payee (id : string) (sats carry tag : Z) : Payee :=
  {| p_identity := id; p_work := 0; p_sats := sats; p_carry := carry; p_script := replicate 22 tag |}.
Definition demo_coinbaser (value : Z) : Coinbaser := {|
  cbr_value := value; cbr_payees := [demo_payee "a" 1000000 400000 1; demo_payee "b" 500000 300000 2];
  cbr_unpaid := [{| u_identity := "c"; u_sats := 700; u_earned := 700; u_reason := OverBudget |}];
  cbr_rebate_credits := [("d"%string, 10)]; cbr_owed_credited := 0; cbr_deferred := 0; class_capped := true |}.
Definition only_first (script : list Z) : Z := if decide (script = replicate 22 1) then 1000000 else 0.

Lemma demo_coinbaser_ok value : 0 <= value <= 1000000000 -> priced_ok (demo_coinbaser 312500000) value.
Proof.
  intros Hv. constructor; cbn; try lia.
  - repeat constructor; cbn; lia.
  - repeat constructor; cbn; lia.
  - repeat constructor; cbn; lia.
  - split; [lia|]. change (scale 10 value 312500000 + 0 <= u64_max). pose proof (scale_le 10 value 312500000). lia.
Qed.


(** ** A class-capped block's reserve *)

Lemma foldl_sat_sum {A} (f : A -> Z) l : forall a, 0 <= a -> (forall x, x ∈ l -> 0 <= f x) ->
  a + zsum (map f l) <= u64_max -> foldl (fun a x => sat_add u64_max a (f x)) a l = a + zsum (map f l).
Proof.
  induction l as [|x l IH]; intros a Ha Hf Hs; cbn [foldl map] in *; [cbn; lia|].
  rewrite zsum_cons in *. assert (0 <= f x) by (apply Hf; left).
  assert (0 <= zsum (map f l)) by (apply zsum_map_nonneg; intros y Hy; apply Hf; by right).
  unfold sat_add at 2. rewrite Z.min_l by lia. rewrite IH; [lia | lia | intros y Hy; apply Hf; by right | lia].
Qed.

(** On a block mined on a class-capped coinbaser, what is held back from the fee wallet is to
    the satoshi what the deferred tail is credited: each identity over budget has its entry in the
    carry delta, and the reserve is their sum. *)
Theorem class_reserve_matches_delta (kind : CoinbaseKind) (cb : Coinbaser) (value : Z)
    (paid_to : list Z -> Z) (s : Settlement) :
  let tail := filter (fun u => bool_decide (u_reason u = OverBudget) && defers u) (cbr_unpaid cb) in
  let worth (u : Unpaid) := clamp_i64 (if as_issued kind cb value then u_earned u else reprice cb value (u_earned u)) in
  settled_kind kind -> priced_ok cb value -> class_capped cb = true ->
  zsum (map worth tail) <= u64_max -> Forall (fun u => u_earned u <= i64_max) tail ->
  settle kind (Some cb) value paid_to = Ret s ->
  se_carry_reserved s = zsum (map worth tail) /\
  Forall (fun u => (u_identity u, worth u) ∈ se_carry_delta s) tail.
Proof.
  intros tail worth Hk OK Hcap Hsum Hmax Hs. destruct (settle_cases kind cb value paid_to Hk) as [name E].
  rewrite E in Hs. pose proof (issued_nonneg _ _ OK) as Hiss.
  assert (Hw : forall u, u ∈ tail -> 0 <= worth u).
  { intros u Hu. apply list_elem_of_filter in Hu as [_ Hu]. pose proof (po_unpaid _ _ OK) as H.
    rewrite Forall_forall in H. specialize (H u Hu). unfold worth, clamp_i64, reprice.
    pose proof (scale_le (u_earned u) value (cbr_value cb) H (po_value _ _ OK) Hiss). destr_if; lia. }
  assert (Hd : forall u, u ∈ tail -> (u_identity u, clamp_i64 (u_earned u)) ∈ carry_delta_of cb).
  { intros u Hu. apply list_elem_of_filter in Hu as [Hd Hu]. apply Is_true_true, andb_true_iff in Hd as [_ Hd].
    unfold carry_delta_of, carry_delta. apply elem_of_app. right. apply elem_of_app. left.
    apply list_elem_of_fmap. exists u. split; [done|]. apply list_elem_of_filter. split; [by apply Is_true_true | done]. }
  assert (Hr : forall f, (forall u, u ∈ tail -> f (u_earned u) = worth u) -> reserved cb f = zsum (map worth tail)).
  { intros f Hf. unfold reserved. rewrite Hcap. cbn [negb]. fold tail.
    assert (Hm : map (fun u => f (u_earned u)) tail = map worth tail) by (by apply map_ext_Forall, Forall_forall).
    rewrite (foldl_sat_sum (fun u => f (u_earned u))); rewrite ?Hm; [lia | lia | | lia].
    intros u Hu. rewrite Hf by done. by apply Hw. }
  unfold worth in *. destruct (as_issued kind cb value) eqn:Ei.
  - unfold settle_as_issued in Hs. apply bind_Ret_inv in Hs as (? & _ & Hs). apply bind_Ret_inv in Hs as (? & _ & Hs).
    apply bind_Ret_inv in Hs as (? & _ & Hs). injection Hs as <-.
    cbn [se_carry_reserved se_carry_delta]. split.
    + apply Hr. intros u Hu. rewrite Forall_forall in Hmax. specialize (Hmax u Hu). unfold clamp_i64. lia.
    + apply Forall_forall. intros u Hu. by apply Hd.
  - unfold settle_repriced in Hs. apply bind_Ret_inv in Hs as (? & _ & Hs). apply bind_Ret_inv in Hs as (? & _ & Hs).
    apply bind_Ret_inv in Hs as (? & _ & Hs). apply bind_Ret_inv in Hs as (? & _ & Hs). injection Hs as <-.
    cbn [se_carry_reserved se_carry_delta]. split.
    + by apply Hr.
    + apply Forall_forall. intros u Hu. apply list_elem_of_fmap. exists (u_identity u, clamp_i64 (u_earned u)).
      split; [|by apply Hd]. cbn [fst snd]. rewrite Forall_forall in Hmax. specialize (Hmax u Hu).
      apply list_elem_of_filter in Hu as [Hu _]. apply Is_true_true, andb_true_iff in Hu as [_ Hu].
      unfold defers in Hu. assert (0 < u_earned u) by (destruct (u_reason u); [done | by bools ..]).
      replace (clamp_i64 (u_earned u)) with (u_earned u) by (unfold clamp_i64; lia).
      by rewrite (proj2 (Z.ltb_lt _ _)).
Qed.

Lemma class_reserve_matches_delta_witness :
  exists s, settle (Partial 1) (Some (demo_coinbaser 312500000)) 625000000 only_first = Ret s /\
    se_carry_reserved s = 1400.
Proof.
  eexists. split; [vm_compute; reflexivity|].
  refine (proj1 (class_reserve_matches_delta (Partial 1) (demo_coinbaser 312500000) 625000000 only_first _
    ltac:(right; left; eexists; reflexivity) (demo_coinbaser_ok 625000000 ltac:(lia)) eq_refl
    ltac:(vm_compute; discriminate) _ ltac:(vm_compute; reflexivity))).
  apply (bool_decide_unpack _). vm_compute. exact I.
Defined.

(** * From the reply to the books *)

Definition priced (sp : Split.Split) (capped : bool) : Coinbaser := {|
  cbr_value := s_value sp; cbr_payees := s_payees sp; cbr_unpaid := s_unpaid sp;
  cbr_rebate_credits := s_rebate_credits sp; cbr_owed_credited := s_rebate_owed_credited sp;
  cbr_deferred := s_rebate_deferred sp; class_capped := capped |}.

Lemma outputs_value sp pool : 0 <= s_pool_sats sp -> 0 < zsum (map p_sats (s_payees sp)) + s_pool_sats sp ->
  zsum (map sats (coinbaser_outputs sp pool)) = zsum (map p_sats (s_payees sp)) + s_pool_sats sp.
Proof.
  intros Hp Hs. unfold coinbaser_outputs. set (outs := map _ (s_payees sp)).
  assert (Ho : zsum (map sats outs) = zsum (map p_sats (s_payees sp))) by (unfold outs; by rewrite map_map).
  destruct (Z.ltb_spec 0 (s_pool_sats sp)); cbn [orb].
  - rewrite map_app, zsum_app, Ho. cbn. lia.
  - destr_if; [|rewrite Ho; lia]. apply Nat.eqb_eq in Hif. unfold outs in Hif. rewrite length_map in Hif.
    apply length_zero_iff_nil in Hif. rewrite Hif in Hs. cbn in Hs. lia.
Qed.

(** The list of a reply is the whole block: for any window and value, the payees in the
    split's order, each with their amount and script, then the pool's output; at least one
    output, and together exactly the value asked about. *)
Theorem reply_lists_the_block miners total_work value p rebate_owed now script_for pool :
  split_ok miners total_work value p rebate_owed -> 0 < value ->
  exists sp, compute miners total_work value p rebate_owed now script_for = Ret sp /\
    zsum (map sats (coinbaser_outputs sp pool)) = value /\
    coinbaser_outputs sp pool <> [] /\
    exists tail, coinbaser_outputs sp pool
        = map (fun e => {| sats := p_sats e; script := p_script e |}) (s_payees sp) ++ tail /\
      Forall (fun o => script o = pool) tail /\ (length tail <= 1)%nat.
Proof.
  intros OK Hv. destruct (compute_ok _ _ _ _ _ now script_for OK) as (sp & E & S). exists sp. split; [done|].
  destruct S as [_ Hc Hp _ _ _ _ _ _ _ _ _ _ _].
  assert (Hsum : zsum (map sats (coinbaser_outputs sp pool)) = value) by (rewrite outputs_value; lia).
  split; [done|]. split; [intros H; rewrite H in Hsum; cbn in Hsum; lia|].
  unfold coinbaser_outputs. destr_if.
  - eexists. split; [done|]. split; [by apply Forall_singleton | done].
  - exists []. split; [by rewrite app_nil_r|]. split; [done | cbn; lia].
Qed.

Lemma reply_lists_the_block_witness :
  exists sp, compute [demo_miner "big" 9600 0; demo_miner "small" 400 3960] 10000 100000 (demo_params 100 4000) 0 0 demo_script = Ret sp /\
    zsum (map sats (coinbaser_outputs sp [9; 9])) = 100000.
Proof.
  destruct (reply_lists_the_block [demo_miner "big" 9600 0; demo_miner "small" 400 3960] 10000 100000
    (demo_params 100 4000) 0 0 demo_script [9; 9]) as (sp & E & H & _).
  - constructor; unfold in_range; try (cbn; lia). apply (bool_decide_unpack _). vm_compute. exact I.
  - lia.
  - exists sp. split; [exact E | exact H].
Defined.

Lemma sat_total_nonneg vs : Forall (fun v => 0 <= v) vs -> 0 <= sat_total vs.
Proof.
  unfold sat_total. intros H. enough (forall a, 0 <= a -> 0 <= fold_left (sat_add u64_max) vs a) by (apply H0; lia).
  induction H as [|v vs Hv _ IH]; intros a Ha; cbn; [done|]. apply IH. unfold sat_add. lia.
Qed.

Lemma zsum_split {A} (P : A -> Prop) `{!forall x, Decision (P x)} (f : A -> Z) l :
  zsum (map f (filter P l)) + zsum (map (fun x => if decide (P x) then 0 else f x) l) = zsum (map f l).
Proof.
  induction l as [|x l IH]; [done|]. rewrite filter_cons. cbn [map]. destruct (decide (P x)); cbn [map];
    rewrite !zsum_cons; lia.
Qed.

(** A coinbase worth at least the list pays a listed output in full if it pays it at all. *)
Lemma placed_in_full cb p iss n : issued_value iss <= actual_value cb ->
  scan_miners cb (tolerance p) (slack_of p iss) (issued_value iss) (actual_value cb)
      (issued_to (miners_of p iss)) (miners_of p iss) 0 false = Ret (Some (n, false)) ->
  0 <= tolerance p ->
  Forall (fun i => 0 < paid_to cb (script i) -> sats i <= paid_to cb (script i) + tolerance p) (miners_of p iss) /\
  (n = Z.of_nat (length (miners_of p iss)) -> Forall (fun i => 0 < paid_to cb (script i)) (miners_of p iss)).
Proof.
  intros Hv H Ht. apply scan_miners_inv in H as (_ & Hall & _ & Hsh). destruct (Hsh eq_refl) as [_ Ho]. split.
  - eapply Forall_impl; [exact Ho|]. intros i Hi Hp. specialize (Hi Hp). unfold owed_scaled in Hi.
    rewrite (proj2 (Z.leb_le _ _) Hv), orb_true_r in Hi. unfold sat_add in Hi. lia.
  - rewrite Z.add_0_l in Hall. exact Hall.
Qed.

(** From the reply to the books: a coinbase worth what the reply was asked for, mined on its
    list and classified a split or a part of one, leaves nobody out. Every payee of the split is
    either paid their amount by the coinbase, to within the tolerance, or paid nothing and is in
    what is owed; and what is owed is exactly those. *)
Theorem mined_list_pays_or_owes (sp : Split.Split) (capped : bool) (policy : Policy) (cb : Coinbase)
    (subsidy_only merkle_empty : bool) (txn_count : Z) (kind : CoinbaseKind) :
  issued policy = Some (coinbaser_outputs sp (pool_script policy)) -> 0 <= tolerance policy ->
  Forall (fun o => 0 <= o_value o) (outputs cb) ->
  0 <= s_pool_sats sp -> 0 < s_value sp -> zsum (map p_sats (s_payees sp)) + s_pool_sats sp = s_value sp ->
  Forall (fun p => p_script p <> pool_script policy) (s_payees sp) ->
  classify_coinbase cb policy subsidy_only txn_count merkle_empty = Ret kind ->
  kind = Split \/ (exists n, kind = Partial n) ->
  reward_matches (actual_value cb) (s_value sp) = true ->
  priced_ok (priced sp capped) (actual_value cb) ->
  exists s, settle kind (Some (priced sp capped)) (actual_value cb) (paid_to cb) = Ret s /\
    Forall (fun p => p_sats p <= paid_to cb (p_script p) + tolerance policy \/
                     (kind <> Split /\ paid_to cb (p_script p) <= 0)) (s_payees sp) /\
    se_owed s = zsum (map p_sats (filter (fun p => paid_to cb (p_script p) <= 0) (s_payees sp))).
Proof.
  intros Hi Ht Ho Hp Hv Hsum Hns Hc Hk Hr OK.
  destruct (classify_coinbase_split _ _ _ _ _ _ Hc Hk) as (st & iss & _ & _ & Hi' & Hci).
  rewrite Hi in Hi'. injection Hi' as <-. set (iss := coinbaser_outputs sp (pool_script policy)) in *.
  destruct (classify_issued_inv _ _ _ _ _ _ _ _ Hci Hk) as (n & Hn & HS & _).
  assert (Hiv : issued_value iss = s_value sp) by (unfold issued_value, iss; rewrite outputs_value; lia).
  assert (Hav : issued_value iss <= actual_value cb).
  { unfold reward_matches in Hr. rewrite (proj2 (Z.eqb_neq _ _)) in Hr by lia. cbn [orb] in Hr.
    apply andb_true_iff in Hr as [Hr _]. apply Z.leb_le in Hr. lia. }
  destruct (placed_in_full _ _ _ _ Hav Hn Ht) as [Hfull Hall].
  assert (Hin : forall p, p ∈ s_payees sp -> {| sats := p_sats p; script := p_script p |} ∈ miners_of policy iss).
  { intros p Hin. apply list_elem_of_filter. cbn. rewrite Forall_forall in Hns. split; [by apply Hns|].
    unfold iss, coinbaser_outputs. assert (H : {| sats := p_sats p; script := p_script p |} ∈
      map (fun p => {| sats := p_sats p; script := p_script p |}) (s_payees sp)) by (apply list_elem_of_fmap; eauto).
    destr_if; [apply elem_of_app; by left | done]. }
  assert (Hpay : Forall (fun p => p_sats p <= paid_to cb (p_script p) + tolerance policy \/
                     (kind <> Split /\ paid_to cb (p_script p) <= 0)) (s_payees sp)).
  { apply Forall_forall. intros p Hpin. specialize (Hin p Hpin). rewrite Forall_forall in Hfull.
    specialize (Hfull _ Hin). cbn [sats script] in Hfull.
    destruct (decide (kind = Split)) as [E|E].
    - specialize (Hall (HS E)). rewrite Forall_forall in Hall. left. apply Hfull. by apply (Hall _ Hin).
    - destruct (decide (0 < paid_to cb (p_script p))); [left; by apply Hfull | right; split; [done | lia]]. }
  assert (Hmatch : as_issued kind (priced sp capped) (actual_value cb) = true).
  { unfold as_issued, pool_only. cbn [cbr_value priced]. rewrite Hr, andb_true_r.
    destruct Hk as [-> | [m ->]]; done. }
  destruct (settle_cases kind (priced sp capped) (actual_value cb) (paid_to cb)) as [name Es];
    [destruct Hk; [by left | by right; left]|].
  assert (Hnn : forall s, 0 <= paid_to cb s).
  { intros s. unfold paid_to. apply sat_total_nonneg, Forall_map, Forall_forall. intros o Hin'.
    apply list_elem_of_filter in Hin' as [_ Hin']. rewrite Forall_forall in Ho. by apply Ho. }
  destruct (settle_as_issued_ok kind name _ _ (paid_to cb) OK Hnn Hmatch) as (s & Hs & [_ Howed _ _ _] & _).
  exists s. rewrite Es, Hmatch. split; [done|]. split; [done|]. cbn [cbr_payees priced] in Howed.
  pose proof (zsum_split (fun p => paid_to cb (p_script p) <= 0) p_sats (s_payees sp)) as Hz.
  assert (Hg : map (got kind (priced sp capped) (actual_value cb) (paid_to cb)) (s_payees sp)
      = map (fun p => if decide (paid_to cb (p_script p) <= 0) then 0 else p_sats p) (s_payees sp)).
  { apply map_ext_Forall, Forall_forall. intros p Hpin. unfold got. rewrite Hmatch.
    destruct (decide (kind = Split)) as [E|E].
    - specialize (Hall (HS E)). rewrite Forall_forall in Hall. specialize (Hall _ (Hin p Hpin)). cbn [script] in Hall.
      unfold full_split. rewrite bool_decide_eq_true_2 by done. by rewrite decide_False by lia.
    - unfold full_split, placed, pool_only. rewrite (bool_decide_eq_false_2 (kind = Split)) by done.
      rewrite bool_decide_eq_false_2 by (by destruct Hk as [-> | [m ->]]). cbn [orb negb andb].
      destruct (Z.ltb_spec 0 (paid_to cb (p_script p))); [by rewrite decide_False by lia | by rewrite decide_True]. }
  assert (Hd : map (due kind (priced sp capped) (actual_value cb)) (s_payees sp) = map p_sats (s_payees sp)).
  { apply map_ext. intros p. unfold due. by rewrite Hmatch. }
  rewrite Hg, Hd in Howed. cbv beta in Hz. lia.
Qed.

Definition demo_split : Split.Split := {|
  s_value := 1600000; s_fee_sats := 0; s_total_work := 0;
  s_payees := [demo_payee "a" 1000000 400000 1; demo_payee "b" 500000 300000 2]; s_unpaid := [];
  s_pool_sats := 100000; s_carry_paid := 700000; s_rebate_credits := []; s_rebate_sats := 0;
  s_rebate_owed_credited := 0; s_rebate_deferred := 0 |}.
Definition demo_settle_policy : Policy := {|
  pool_script := replicate 22 9; issued := Some (coinbaser_outputs demo_split (replicate 22 9)); tolerance := 8;
  now := 0; min_pot := 0; gateway_script := None; empty_solo_fee_bps := 0; trusted_target := false;
  uncommitted_pot := 0; held_split := false |}.
Definition partial_coinbase : Coinbase := {|
  cb_version := 1; script_sig := [1; 1]; sequence := 0;
  outputs := [{| o_value := 1000000; o_script := replicate 22 1 |}; {| o_value := 600000; o_script := replicate 22 9 |}];
  lock_time := 0; cb_height := Some 1; outputs_at := 0; lock_time_at := 0 |}.

Lemma mined_list_pays_or_owes_witness :
  exists s, settle (Partial 1) (Some (priced demo_split false)) 1600000 (paid_to partial_coinbase) = Ret s /\
    se_owed s = 500000.
Proof.
  destruct (mined_list_pays_or_owes demo_split false demo_settle_policy partial_coinbase false false 3 (Partial 1))
    as (s & E & _ & H).
  - reflexivity.
  - cbn. lia.
  - apply (bool_decide_unpack _). vm_compute. exact I.
  - cbn. lia.
  - cbn. lia.
  - reflexivity.
  - apply (bool_decide_unpack _). vm_compute. exact I.
  - vm_compute. reflexivity.
  - right. eexists. reflexivity.
  - vm_compute. reflexivity.
  - constructor; try (apply (bool_decide_unpack _); vm_compute; exact I); try (vm_compute; discriminate).
  - exists s. split; [exact E|]. rewrite H. vm_compute. reflexivity.
Defined.

(** * The owed rebate and the reward *)

(** A percent for the pool, two for stratum work, one of them back to DATUM work. *)
Definition owed_params : SplitParams := {|
  fee_bps := 100; stratum_fee_bps := 200; datum_rebate_bps := 100; grace_fee_bps := 0;
  grace_rebate_bps := 0; min_payout := 546; max_outputs := 511; output_budget_bytes := 13927;
  stale_after := 0; stale_min_payout := 546; stale_max_outputs := 25 |}.

(** A reply asked for at a sliver of the reward multiplies the rebate the pool owes. The owed
    rebate is a fixed debt, but a block worth more than its coinbaser was asked for has all its
    rebate credits scaled with the reward: with 1,000 sats owed to the DATUM miners, a reply asked
    for at one satoshi, and a block of 312,500,000 mined on it, the books draw 1,000 and credit
    312,500,000,000, a thousand times the block; of the block itself nothing is paid, owed or
    carried to anyone, since at one satoshi every share of it came to nothing. *)
Theorem owed_rebate_scaled_with_reward :
  let miners := [demo_miner "datum" 9600 0] in
  let value := 312500000 in
  exists sp s books_delta, compute miners 10000 1 owed_params 1000 0 demo_script = Ret sp /\
    coinbaser_outputs sp [9; 9] = [{| sats := 1; script := [9; 9] |}] /\
    s_rebate_owed_credited sp = 1000 /\
    settle Split (Some (priced sp false)) value (fun _ => 0) = Ret s /\
    se_carry_delta s = [("datum"%string, books_delta)] /\ books_delta = 1000 * value /\
    se_owed s = 0 /\ se_split s = [] /\ se_rebate_credited s = 1000 * value.
Proof.
  eexists _, _, _. split; [vm_compute; reflexivity|]. split; [vm_compute; reflexivity|].
  split; [vm_compute; reflexivity|]. split; [vm_compute; reflexivity|]. vm_compute. conjs; reflexivity.
Qed.
