(* ===== verification/Text.v ===== *)
(** Strings as the program takes them apart: a [&str] is the list of its UTF-8 bytes. Trimming,
    searching and the tests on ASCII that names and addresses go through. *)

From S2P Require Import Prelude Bytes.
Open Scope Z_scope.

(** * White space *)

(** [char::is_whitespace], on the UTF-8 encoding of one, two or three bytes. *)
Definition white1 (b : Z) : bool := between 9 13 b || (b =? 32).
Definition white2 (a b : Z) : bool := (a =? 0xC2) && ((b =? 0x85) || (b =? 0xA0)).
Definition white3 (a b c : Z) : bool :=
  ((a =? 0xE1) && (b =? 0x9A) && (c =? 0x80))
  || ((a =? 0xE2) && (b =? 0x80) && (between 0x80 0x8A c || (c =? 0xA8) || (c =? 0xA9) || (c =? 0xAF)))
  || ((a =? 0xE2) && (b =? 0x81) && (c =? 0x9F))
  || ((a =? 0xE3) && (b =? 0x80) && (c =? 0x80)).

(** [str::trim_start]. *)
Fixpoint trim_start (l : list Z) : list Z :=
  match l with
  | [] => []
  | a :: l1 =>
      if white1 a then trim_start l1 else
      match l1 with
      | [] => l
      | b :: l2 =>
          if white2 a b then trim_start l2 else
          match l2 with
          | [] => l
          | c :: l3 => if white3 a b c then trim_start l3 else l
          end
      end
  end.

(** [str::trim_end], from the last byte back. *)
Fixpoint trim_back (l : list Z) : list Z :=
  match l with
  | [] => []
  | c :: l1 =>
      if white1 c then trim_back l1 else
      match l1 with
      | [] => l
      | b :: l2 =>
          if white2 b c then trim_back l2 else
          match l2 with
          | [] => l
          | a :: l3 => if white3 a b c then trim_back l3 else l
          end
      end
  end.
Definition trim_end (l : list Z) : list Z := rev (trim_back (rev l)).

Definition trim_str (l : list Z) : list Z := trim_end (trim_start l).

(** * Searching *)

(** What comes before the first byte of a set, and the rest from it on ([str::find]). *)
Fixpoint break_at (stop : Z -> bool) (l : list Z) : list Z * list Z :=
  match l with
  | [] => ([], [])
  | b :: l' => if stop b then ([], l) else let '(pre, post) := break_at stop l' in (b :: pre, post)
  end.
Definition before (stop : Z -> bool) (l : list Z) : list Z := (break_at stop l).1.
Definition from (stop : Z -> bool) (l : list Z) : list Z := (break_at stop l).2.

(** [str::split_once] on one ASCII character. *)
Definition split_once (c : Z) (l : list Z) : option (list Z * list Z) :=
  match break_at (fun b => b =? c) l with
  | (pre, _ :: post) => Some (pre, post)
  | (_, []) => None
  end.

(** * ASCII *)

Definition is_ascii_digit (b : Z) : bool := between 48 57 b.
Definition is_ascii_hexdigit (b : Z) : bool := is_ascii_digit b || between 65 70 b || between 97 102 b.
Definition is_ascii_graphic (b : Z) : bool := between 33 126 b.
Definition DOT : Z := 46.
Definition TILDE : Z := 126.

(** * Lemmas *)

Lemma break_at_app stop l : before stop l ++ from stop l = l.
Proof.
  unfold before, from. induction l as [|b l IH]; [done|]. cbn [break_at]. destr_if; [done|].
  destruct (break_at stop l); cbn in *. by rewrite IH.
Qed.

Lemma before_clear stop l : Forall (fun b => stop b = false) (before stop l).
Proof.
  unfold before. induction l as [|b l IH]; [constructor|]. cbn [break_at]. destr_if; [constructor|].
  destruct (break_at stop l); cbn in *. by constructor.
Qed.

Lemma before_all stop l : Forall (fun b => stop b = false) l -> before stop l = l.
Proof.
  unfold before. induction 1 as [|b l Hb _ IH]; [done|]. cbn [break_at]. rewrite Hb.
  destruct (break_at stop l); cbn in *. by rewrite IH.
Qed.

Lemma before_idem stop l : before stop (before stop l) = before stop l.
Proof. apply before_all, before_clear. Qed.

(** ** Trimming stops at a printable character *)

Lemma graphic_not_white b : is_ascii_graphic b = true -> white1 b = false /\ b < 0x80.
Proof. unfold is_ascii_graphic, white1, between. intros H. bools. split; [|lia]. apply orb_false_iff. split; [apply andb_false_iff; right|]; lia. Qed.

Lemma white2_high a b : white2 a b = true -> 0x80 <= a /\ 0x80 <= b.
Proof. unfold white2. rewrite andb_true_iff, orb_true_iff, !Z.eqb_eq. lia. Qed.

Lemma white3_high a b c : white3 a b c = true -> 0x80 <= a /\ 0x80 <= b /\ 0x80 <= c.
Proof.
  unfold white3, between. repeat (rewrite ?andb_true_iff, ?orb_true_iff). rewrite !Z.eqb_eq, !Z.leb_le. lia.
Qed.

Lemma trim_start_graphic b l : is_ascii_graphic b = true -> trim_start (b :: l) = b :: l.
Proof.
  intros [Hw Hb]%graphic_not_white. cbn [trim_start]. rewrite Hw. destruct l as [|c l]; [done|].
  destruct (white2 b c) eqn:H2; [apply white2_high in H2; lia|].
  destruct l as [|d l]; [done|].
  destruct (white3 b c d) eqn:H3; [apply white3_high in H3; lia | done].
Qed.

Ltac not_white := match goal with
  | H : white2 _ _ = true |- _ => apply white2_high in H; lia
  | H : white3 _ _ _ = true |- _ => apply white3_high in H; lia
  end.

Lemma trim_back_graphic c l : is_ascii_graphic c = true -> trim_back (c :: l) = c :: l.
Proof.
  intros [Hw Hc]%graphic_not_white. cbn [trim_back]. rewrite Hw.
  destruct l as [|b [|a l]]; [done | |]; (destruct (white2 b c) eqn:H2; [not_white|]); [done|].
  destruct (white3 a b c) eqn:H3; [not_white | done].
Qed.

(** Trimming back does not get past a printable character. *)
Lemma trim_back_stops c r : is_ascii_graphic c = true ->
  forall n l, (length l <= n)%nat -> exists x, trim_back (l ++ c :: r) = x ++ c :: r.
Proof.
  intros Hg. induction n as [|n IH]; intros l Hl; (destruct l as [|x1 l]; [|cbn in Hl]);
    [| lia | |]; [by exists []; apply trim_back_graphic ..|].
  pose proof (graphic_not_white c Hg) as [_ Hc].
  cbn [app trim_back]. destr_if; [apply IH; lia|].
  destruct l as [|x2 l]; cbn [app].
  { destruct (white2 c x1) eqn:H2; [not_white|]. exists [x1]. destruct r as [|a r]; [done|].
    destruct (white3 a c x1) eqn:H3; [not_white | done]. }
  destr_if; [apply IH; cbn in Hl; lia|].
  destruct l as [|x3 l]; cbn [app].
  { destruct (white3 c x2 x1) eqn:H3; [not_white|]. by exists [x1; x2]. }
  destr_if; [apply IH; cbn in Hl; lia|]. by exists (x1 :: x2 :: x3 :: l).
Qed.

(** A printable start is kept, and nothing is cut before a printable character. *)
Lemma trim_str_keeps a c r : Forall (fun b => is_ascii_graphic b = true) (a ++ [c]) ->
  exists r', trim_str (a ++ c :: r) = a ++ c :: r'.
Proof.
  intros Ha. unfold trim_str, trim_end.
  assert (trim_start (a ++ c :: r) = a ++ c :: r) as ->.
  { destruct a as [|b a]; cbn [app] in *; apply trim_start_graphic; by apply Forall_cons in Ha as [? _]. }
  apply Forall_app in Ha as [_ Hc]. apply Forall_cons in Hc as [Hc _].
  destruct (trim_back_stops c (rev a) Hc (length (rev r)) (rev r)) as [x E]; [lia|].
  rewrite rev_app_distr. cbn [rev]. rewrite <- app_assoc. cbn [app]. rewrite E, rev_app_distr. cbn [rev].
  rewrite rev_involutive, <- app_assoc. by eexists.
Qed.

Lemma trim_str_graphic a : Forall (fun b => is_ascii_graphic b = true) a -> trim_str a = a.
Proof.
  intros Ha. destruct a as [|c a] using rev_ind; [done|]. clear IHa. unfold trim_str, trim_end.
  assert (trim_start (a ++ [c]) = a ++ [c]) as ->.
  { destruct a as [|b a]; cbn [app] in *; apply trim_start_graphic; by apply Forall_cons in Ha as [? _]. }
  apply Forall_app in Ha as [_ Hc]. apply Forall_cons in Hc as [Hc _].
  rewrite rev_app_distr. cbn [rev app]. rewrite trim_back_graphic by done. cbn [rev]. by rewrite rev_involutive.
Qed.

Lemma before_stop stop a c r : Forall (fun b => stop b = false) a -> stop c = true -> before stop (a ++ c :: r) = a.
Proof.
  unfold before. induction 1 as [|b a Hb _ IH]; intros Hc; cbn [app break_at]; [by rewrite Hc|].
  rewrite Hb. specialize (IH Hc). destruct (break_at stop _); cbn in *. by rewrite IH.
Qed.
