(* ===== verification/Address.v ===== *)
(** Payout addresses and the names work is credited to ([prime/primed/src/address.rs]).

    The bech32 and base58 decoders are third-party crates and come through an interface; what is
    modelled is what the program makes of their answers. *)

From S2P Require Import Prelude Bytes Text Handshake.
Open Scope Z_scope.

Inductive Network := Mainnet | Testnet | Signet | Regtest.

#[export] Instance Network_eq_dec : EqDecision Network.
Proof. solve_decision. Defined.

(** [Network::parse]. *)
Definition network_parse (s : string) : option Network :=
  let named x := bool_decide (s = x) in
  if named "mainnet"%string || named "main"%string || named "bitcoin"%string then Some Mainnet
  else if named "testnet"%string || named "test"%string || named "testnet4"%string || named "testnet3"%string then Some Testnet
  else if named "signet"%string then Some Signet
  else if named "regtest"%string then Some Regtest else None.

Definition hrp (n : Network) : list Z :=
  match n with
  | Mainnet => str_bytes "bc"
  | Testnet | Signet => str_bytes "tb"
  | Regtest => str_bytes "bcrt"
  end.
Definition p2pkh_version (n : Network) : Z := match n with Mainnet => 0x00 | _ => 0x6f end.
Definition p2sh_version (n : Network) : Z := match n with Mainnet => 0x05 | _ => 0xc4 end.

Definition RDTS_MAX_OUTPUT_SCRIPT : Z := 34.
Definition RDTS_MAX_OUTPUT_DATA : Z := 83.

(** Whether a script may be an output of a coinbase. *)
Definition rdts_output_ok (script : list Z) : bool :=
  match script with
  | [] => true
  | b :: _ => if b =? 0x6a then Z.of_nat (length script) <=? RDTS_MAX_OUTPUT_DATA
              else Z.of_nat (length script) <=? RDTS_MAX_OUTPUT_SCRIPT
  end.

(** [bech32::segwit::decode], which gives prefix, version and program, and
    [bs58::decode(_).with_check(None)]. *)
Class AddressCodec := {
  segwit_decode : list Z -> option (list Z * Z * list Z);
  base58_check : list Z -> option (list Z)
}.

(** What the program relies on: a witness version is at most 16 and a program has 2 to 40 bytes,
    and an address may be written in either case (BIP 173). *)
Class AddressLaws `{AddressCodec} := {
  segwit_shape a h v p : segwit_decode a = Some (h, v, p) -> 0 <= v <= 16 /\ (2 <= length p <= 40)%nat;
  segwit_lower a h v p : segwit_decode a = Some (h, v, p) ->
    segwit_decode (to_ascii_lowercase a) = Some (to_ascii_lowercase h, v, p);
  segwit_trimmed a h v p : segwit_decode a = Some (h, v, p) -> Forall (fun b => is_ascii_graphic b = true) a
}.

Section Address.
Context `{AddressCodec}.

Definition segwit_script (ver : Z) (prog : list Z) : list Z :=
  (if ver =? 0 then 0 else 0x50 + ver) :: trunc u8_max (Z.of_nat (length prog)) :: prog.

(** [decode_script]. *)
Definition decode_script (addr : list Z) (net : Network) : option (list Z) :=
  let addr := trim_str addr in
  if (length addr =? 0)%nat || (90 <? length addr)%nat then None else
  match segwit_decode addr with
  | Some (h, ver, prog) =>
      if bool_decide (to_ascii_lowercase h = to_ascii_lowercase (hrp net)) then Some (segwit_script ver prog) else None
  | None =>
      match base58_check addr with
      | Some (ver :: hash) =>
          if negb (length hash =? 20)%nat then None
          else if ver =? p2pkh_version net then Some ([0x76; 0xa9; 0x14] ++ hash ++ [0x88; 0xac])
          else if ver =? p2sh_version net then Some ([0xa9; 0x14] ++ hash ++ [0x87])
          else None
      | _ => None
      end
  end.

(** [to_script]. *)
Definition to_script (addr : list Z) (net : Network) : option (list Z) :=
  match decode_script addr net with
  | Some s => if rdts_output_ok s then Some s else None
  | None => None
  end.

(** [looks_like_address]. *)
Definition looks_like_address (s : list Z) : bool :=
  let s := trim_str s in
  if (length s <? 14)%nat || (90 <? length s)%nat then false
  else bool_decide (is_Some (segwit_decode s))
       || match base58_check s with Some raw => (length raw =? 21)%nat | None => false end.

(** [canonical_identity]. *)
Definition canonical_identity (ident : list Z) : list Z :=
  match segwit_decode ident with Some _ => to_ascii_lowercase ident | None => ident end.
End Address.

Definition ends_name (b : Z) : bool := (b =? DOT) || (b =? TILDE).

(** [identity_of]. *)
Definition identity_of (username : list Z) : list Z := before ends_name (trim_str username).

(** * Properties *)

Lemma lower_idem l : to_ascii_lowercase (to_ascii_lowercase l) = to_ascii_lowercase l.
Proof.
  unfold to_ascii_lowercase. rewrite map_map. apply map_ext. intros b. unfold between.
  destruct ((65 <=? b) && (b <=? 90)) eqn:E; [|by rewrite E]. bools.
  rewrite (proj2 (Z.leb_gt (b + 32) 90)) by lia. by rewrite andb_false_r.
Qed.

Lemma length_lower l : length (to_ascii_lowercase l) = length l.
Proof. apply length_map. Qed.

(** The characters of an address: printable, and neither [.] nor [~]. *)
Definition name_char (b : Z) : Prop := is_ascii_graphic b = true /\ ends_name b = false.

Definition suffixed (rest : list Z) : Prop := match rest with [] => True | b :: _ => ends_name b = true end.

Lemma end_graphic b : ends_name b = true -> is_ascii_graphic b = true.
Proof. unfold ends_name, DOT, TILDE. intros H. bools. destruct H as [H|H]; bools; by subst. Qed.

(** Whatever worker name or modifier follows it, with spaces around, a username stands for the
    address in front. *)
Theorem username_names_address (a rest : list Z) : Forall name_char a -> suffixed rest ->
  identity_of (a ++ rest) = a.
Proof.
  intros Ha Hr. unfold identity_of.
  assert (Hg : Forall (fun b => is_ascii_graphic b = true) a) by (eapply Forall_impl; [exact Ha | by intros b []]).
  assert (He : Forall (fun b => ends_name b = false) a) by (eapply Forall_impl; [exact Ha | by intros b []]).
  destruct rest as [|c rest].
  - rewrite app_nil_r, trim_str_graphic by done. by apply before_all.
  - destruct (trim_str_keeps a c rest) as [r' ->].
    { apply Forall_app. split; [done|]. constructor; [by apply end_graphic | done]. }
    by apply before_stop.
Qed.

Section Canonical.
Context `{AddressLaws}.

(** One payout address is one row: the name an address is credited under does not depend on
    the case it was typed in, taking it again changes nothing, and on every network it is paid the
    script of the address as it was typed. *)
Theorem canonical_identity_pays_same (a b : list Z) (net : Network) :
  canonical_identity (canonical_identity a) = canonical_identity a /\
  to_script (canonical_identity a) net = to_script a net /\
  (is_Some (segwit_decode a) -> is_Some (segwit_decode b) -> to_ascii_lowercase a = to_ascii_lowercase b ->
   canonical_identity a = canonical_identity b /\ to_script a net = to_script b net).
Proof using All.
  assert (Hs : forall a, to_script (canonical_identity a) net = to_script a net).
  { clear a b. intros a. unfold canonical_identity. destruct (segwit_decode a) as [[[h v] p]|] eqn:E; [|done].
    pose proof (segwit_trimmed _ _ _ _ E) as Hg. unfold to_script, decode_script.
    pose proof (segwit_lower _ _ _ _ E) as E'. pose proof (segwit_trimmed _ _ _ _ E') as Hg'.
    rewrite !trim_str_graphic, length_lower, E, E', lower_idem by done. done. }
  split; [|split; [apply Hs|]].
  - unfold canonical_identity at 2 3. destruct (segwit_decode a) as [[[h v] p]|] eqn:E.
    + unfold canonical_identity. rewrite (segwit_lower _ _ _ _ E). apply lower_idem.
    + unfold canonical_identity. by rewrite E.
  - intros [xa Ea] [xb Eb] Hab. rewrite <- (Hs a), <- (Hs b). unfold canonical_identity. by rewrite Ea, Eb, Hab.
Qed.

(** Every script a payout address stands for is one a coinbase may carry and a coinbaser can
    list: a witness program or a hash, never data, 4 to 34 bytes of it. *)
Theorem script_fits_a_coinbase (a s : list Z) (net : Network) : to_script a net = Some s ->
  4 <= Z.of_nat (length s) <= RDTS_MAX_OUTPUT_SCRIPT /\ rdts_output_ok s = true /\
  match s with b :: _ => b <> 0x6a | [] => False end.
Proof using All.
  unfold to_script. intros E. destruct (decode_script a net) as [s'|] eqn:D; [|done].
  destruct (rdts_output_ok s') eqn:Ok; [|done]. injection E as ->.
  assert (Hs : 4 <= Z.of_nat (length s) /\ match s with b :: _ => b <> 0x6a | [] => False end).
  { unfold decode_script in D. destruct ((length (trim_str a) =? 0)%nat || _); [done|].
    destruct (segwit_decode (trim_str a)) as [[[h v] p]|] eqn:Es.
    - destruct (segwit_shape _ _ _ _ Es) as [Hv Hp]. destruct (bool_decide _); [|done].
      injection D as <-. unfold segwit_script. cbn [length]. split; [lia|]. destr_if; lia.
    - destruct (base58_check (trim_str a)) as [[|ver hash]|]; [done | | done].
      destruct (Nat.eqb_spec (length hash) 20) as [Hl|]; [|done]. cbn [negb] in D.
      destruct (ver =? p2pkh_version net); [|destruct (ver =? p2sh_version net); [|done]];
        injection D as <-; cbn [app length]; rewrite ?length_app; cbn [length]; split; lia. }
  split; [|split; [done | apply Hs]]. destruct Hs as [Hl Hb]. split; [done|].
  unfold rdts_output_ok in Ok. destruct s as [|b s]; [done|].
  rewrite (proj2 (Z.eqb_neq b 0x6a)) in Ok by done. by apply Z.leb_le.
Qed.
End Canonical.

(** * Witnesses *)

(** A codec that knows one segwit address, in any case. *)
Definition toy_address : list Z := str_bytes "bc1qdemo".
Definition toy_codec : AddressCodec := {|
  segwit_decode := fun a => if bool_decide (to_ascii_lowercase a = toy_address) then Some (take 2 a, 0, replicate 20 7) else None;
  base58_check := fun _ => None |}.

Lemma lower_graphic l : Forall (fun b => is_ascii_graphic b = true) (to_ascii_lowercase l) ->
  Forall (fun b => is_ascii_graphic b = true) l.
Proof.
  unfold to_ascii_lowercase. rewrite Forall_map. intros Hl. eapply Forall_impl; [exact Hl|]. intros b. cbn.
  destruct (between 65 90 b) eqn:E; [|done]. intros _. unfold is_ascii_graphic, between in *. bools.
  apply andb_true_iff. split; apply Z.leb_le; lia.
Qed.

Lemma toy_codec_laws : @AddressLaws toy_codec.
Proof.
  constructor; intros a h v p; cbn [segwit_decode toy_codec]; destruct (bool_decide_reflect (to_ascii_lowercase a = toy_address)) as [E|]; try done.
  - intros [= <- <- <-]. cbn. lia.
  - intros [= <- <- <-]. rewrite lower_idem, bool_decide_eq_true_2 by done.
    do 3 f_equal. unfold to_ascii_lowercase. by rewrite firstn_map.
  - intros _. apply lower_graphic. rewrite E. by apply (bool_decide_unpack _); vm_compute.
Qed.

Lemma canonical_identity_pays_same_witness :
  @canonical_identity toy_codec (str_bytes "BC1QDEMO") = str_bytes "bc1qdemo" /\
  @to_script toy_codec (@canonical_identity toy_codec (str_bytes "BC1QDEMO")) Mainnet
    = @to_script toy_codec (str_bytes "BC1QDEMO") Mainnet.
Proof.
  split; [vm_compute; reflexivity|].
  exact (proj1 (proj2 (@canonical_identity_pays_same toy_codec toy_codec_laws (str_bytes "BC1QDEMO") [] Mainnet))).
Defined.

Lemma script_fits_a_coinbase_witness :
  @to_script toy_codec toy_address Mainnet = Some ([0; 20] ++ replicate 20 7) /\
  4 <= Z.of_nat (length ([0; 20] ++ replicate 20 7)) <= RDTS_MAX_OUTPUT_SCRIPT.
Proof.
  assert (E : @to_script toy_codec toy_address Mainnet = Some ([0; 20] ++ replicate 20 7)) by (vm_compute; reflexivity).
  split; [exact E|]. exact (proj1 (@script_fits_a_coinbase toy_codec toy_codec_laws toy_address _ Mainnet E)).
Defined.
