(* ===== verification/ClassBudget.v ===== *)
(** What a session learns of the room its gateway's coinbases have for the list it is issued, and
    of whom a held-split gateway pays ([prime/primed/src/session.rs]). *)

From S2P Require Import Prelude Bytes Text Tides Split Cursor Coinbaser Coinbase Crypto Handshake Pow State Settle Address.
Open Scope Z_scope.

(** * Builds that hold the split *)

(** [config::git_hash_prefix]. *)
Definition git_hash_prefix (s : list Z) : bool :=
  (7 <=? length s)%nat && (length s <=? 40)%nat && forallb (fun b => is_ascii_digit b || between 97 102 b) s.

(** [held_split_build]: the configured build a user agent names. *)
Definition held_split_build (builds : list (list Z)) (ua : list Z) : option (list Z) :=
  if (length builds =? 0)%nat || is_split_gateway ua then None else
  match split_once 47 ua with
  | None => None
  | Some (_, rest) =>
      let hash := to_ascii_lowercase (match split_once 40 rest with Some (h, _) => h | None => rest end) in
      if negb (forallb is_ascii_hexdigit hash) then None
      else find (fun b => git_hash_prefix b && starts_with b hash) builds
  end.

Definition HELD_SPLIT_SHARES : Z := 16.

Record HeldPayout := { h_shares : Z; h_on : option (list Z) }.
Definition held_new : HeldPayout := {| h_shares := 0; h_on := None |}.

(** [HeldPayout::script], [note] and [keeps_off]. *)
Definition held_script (h : HeldPayout) (payouts : nat) : option (list Z) :=
  if (payouts =? 1)%nat then h_on h else None.
Definition held_note (h : HeldPayout) (payouts : nat) (dominant : option (list Z)) : panics (HeldPayout * bool) :=
  n ← chk_add u64_max (h_shares h) 1;
  let counted := {| h_shares := n; h_on := h_on h |} in
  if bool_decide (is_Some (h_on h)) || negb (payouts =? 1)%nat || (n <? HELD_SPLIT_SHARES) then Ret (counted, false)
  else match dominant with
       | None => Ret (counted, false)
       | Some script => Ret ({| h_shares := n; h_on := Some script |}, true)
       end.
Definition keeps_off (h : HeldPayout) (script : list Z) : bool :=
  match h_on h with Some on => negb (bool_decide (on = script)) | None => false end.

(** * What a section kept *)

Definition class_budget_applies (generation : Generation) (ua : list Z) : bool :=
  match generation with Convoy => true | Ocean => false end
  && negb (is_split_gateway ua)
  && negb (starts_with (str_bytes "ratum") (to_ascii_lowercase (trim_start ua))).

(** The loop of [kept_payee_bytes], over the payees from the last; [None] is its early return. *)
Fixpoint kept_from (paid_to : list Z -> Z) (payees : list Output) (kept : Z) (skipped : bool) : option (Z * bool) :=
  match payees with
  | [] => Some (kept, skipped)
  | o :: payees' =>
      let need := 8 + 1 + Z.of_nat (length (script o)) in
      if 0 <? paid_to (script o) then kept_from paid_to payees' (kept + need) skipped
      else if need <=? kept then None
      else kept_from paid_to payees' kept true
  end.

Definition kept_payee_bytes (issued : list Output) (pool_script : list Z) (cb : Coinbase) : option Z :=
  let issued_value := foldl (fun a o => sat_add u64_max a (sats o)) 0 issued in
  if total_output_value cb <? issued_value then None else
  match kept_from (paid_to cb) (filter (fun o => script o <> pool_script) (rev issued)) 0 false with
  | Some (kept, skipped) => if (0 <? kept) && skipped then Some kept else None
  | None => None
  end.

Definition TEMPLATE_WEIGHT_LIMIT : Z := 4000000 - 340 - 36.
Definition CLASS_BUDGET_TEMPLATE_SLACK : Z := 512.

Definition template_left_room (kept txn_total_weight : Z) : bool :=
  kept + CLASS_BUDGET_TEMPLATE_SLACK <=? sat_sub TEMPLATE_WEIGHT_LIMIT txn_total_weight / 4.

(** * The budget *)

Definition CLASS_BUDGET_SIGHTINGS : nat := 3.
Definition CLASS_ROOM_MIN_BYTES : Z := 500 - (119 + 22 + 85).
Definition PAYEE_OUTPUT_MAX_BYTES : Z := 8 + 1 + RDTS_MAX_OUTPUT_SCRIPT.
Definition CLASS_BUDGET_MIN_BYTES : Z := CLASS_ROOM_MIN_BYTES - PAYEE_OUTPUT_MAX_BYTES.
Definition CLASS_BUDGET_TALLY : nat := 8.
Definition CLASS_BUDGET_TTL : Z := secs (6 * 3600).

(** Payee bytes a section kept, and the coinbasers they were kept on, each with when. *)
Abbreviation tally := (list (Z * list (Z * Z))).

Record ClassBudget := {
  cbt_seen : gmap Z tally;
  cbt_bytes : option Z;
  cbt_set_at : option Z
}.
Definition class_budget_new : ClassBudget := {| cbt_seen := ∅; cbt_bytes := None; cbt_set_at := None |}.

(** [drop_old_sightings]. *)
Definition young (now : Z) (s : Z * Z) : bool := elapsed now s.2 <? CLASS_BUDGET_TTL.
Definition young_tally (now : Z) (t : tally) : tally :=
  filter (fun e => e.2 <> []) (map (fun e => (e.1, filter (fun s => young now s) e.2)) t).
Definition drop_old_sightings (c : ClassBudget) (now : Z) : ClassBudget := {|
  cbt_seen := filter (fun e => e.2 <> []) (young_tally now <$> cbt_seen c);
  cbt_bytes := cbt_bytes c; cbt_set_at := cbt_set_at c |}.

(** [ClassBudget::expire]. *)
Definition expire (c : ClassBudget) (now : Z) : ClassBudget * bool :=
  let c := drop_old_sightings c now in
  match cbt_set_at c with
  | Some t => if CLASS_BUDGET_TTL <=? elapsed now t then (class_budget_new, true) else (c, false)
  | None => (c, false)
  end.

(** The tally with an entry for [kept], the oldest entry making room, and where that entry is. *)
Definition tally_entry (t : tally) (kept : Z) : tally * nat :=
  match list_find (fun e => e.1 = kept) t with
  | Some (i, _) => (t, i)
  | None =>
      let t := if (CLASS_BUDGET_TALLY <=? length t)%nat then drop 1 t else t in
      (t ++ [(kept, [])], length t)
  end.
Definition add_sighting (ids : list (Z * Z)) (coinbaser_id now : Z) : list (Z * Z) :=
  if (length ids <? CLASS_BUDGET_SIGHTINGS)%nat && negb (existsb (fun s => s.1 =? coinbaser_id) ids)
  then ids ++ [(coinbaser_id, now)] else ids.

(** [ClassBudget::observe]. *)
Definition observe (c : ClassBudget) (section coinbaser_id kept now : Z) : ClassBudget * bool :=
  if kept <? CLASS_BUDGET_MIN_BYTES then (c, false) else
  let c := drop_old_sightings c now in
  let '(t, at_) := tally_entry (default [] (cbt_seen c !! section)) kept in
  let ids := add_sighting (match t !! at_ with Some e => e.2 | None => [] end) coinbaser_id now in
  let seen := <[section := <[at_ := (kept, ids)]> t]> (cbt_seen c) in
  if (length ids <? CLASS_BUDGET_SIGHTINGS)%nat
     || match cbt_bytes c with Some b => b <=? kept | None => false end
  then ({| cbt_seen := seen; cbt_bytes := cbt_bytes c; cbt_set_at := cbt_set_at c |}, false)
  else ({| cbt_seen := seen; cbt_bytes := Some kept; cbt_set_at := Some now |}, true).

(** [Session::note_partial_share], once a budget applies to the session: what an accepted Partial
    share teaches. [solo_tag] is the tag of the session's own work. *)
Definition note_partial_share (c : ClassBudget) (section coinbaser_id txn_total_weight : Z)
    (issued : option (list Output)) (pool_script solo_tag : list Z) (cb : Coinbase) (now : Z)
    : ClassBudget * bool :=
  match issued with
  | None => (c, false)
  | Some iss =>
      if contains solo_tag (script_sig cb) then (c, false) else
      match kept_payee_bytes iss pool_script cb with
      | None => (c, false)
      | Some kept =>
          if negb (template_left_room kept txn_total_weight) then (c, false)
          else observe (fst (expire c now)) section coinbaser_id kept now
      end
  end.
