(* ===== verification/ClassBudgetProps.v ===== *)
(** What the class budget learns: the bytes it reads off a coinbase are what packing the list in
    order keeps, a budget is only learned from three of a kind, and a reply held to it is kept
    whole. *)

From S2P Require Import Prelude Bytes Text Tides Split SplitFacts Cursor Coinbaser Coinbase Crypto Handshake Pow State Settle SettleProps ClassBudget.
Open Scope Z_scope.

(** * Packing a list in order *)

Definition need (o : Output) : Z := 8 + 1 + Z.of_nat (length (script o)).

(** The reference: each output that fits what is left is placed, any other is skipped. *)
Fixpoint first_fit (room : Z) (l : list Output) : list bool :=
  match l with
  | [] => []
  | o :: l' => if need o <=? room then true :: first_fit (room - need o) l' else false :: first_fit room l'
  end.

(** The payees of an issued list, and which of them a coinbase pays. *)
Definition payees_of (pool_script : list Z) (issued : list Output) : list Output :=
  filter (fun o => script o <> pool_script) issued.
Definition kept_flags (cb : Coinbase) (l : list Output) : list bool := map (fun o => 0 <? paid_to cb (script o)) l.
Definition kept_sum (cb : Coinbase) (l : list Output) : Z :=
  zsum (map (fun o => if 0 <? paid_to cb (script o) then need o else 0) l).

Section Packing.
Context (cb : Coinbase).

(** Every output skipped is bigger than all that was placed after it. *)
Fixpoint skips_ok (l : list Output) : Prop :=
  match l with
  | [] => True
  | o :: l' => ((0 <? paid_to cb (script o)) = false -> kept_sum cb l' < need o) /\ skips_ok l'
  end.

#[export] Instance skips_ok_dec l : Decision (skips_ok l).
Proof. induction l as [|o l IH]; cbn [skips_ok]; apply _. Defined.

Lemma need_pos o : 0 < need o.
Proof. unfold need. lia. Qed.

Lemma kept_sum_nonneg l : 0 <= kept_sum cb l.
Proof. apply zsum_map_nonneg. intros o _. destr_if; [pose proof (need_pos o); lia | lia]. Qed.

Lemma kept_sum_cons o l : kept_sum cb (o :: l) = (if 0 <? paid_to cb (script o) then need o else 0) + kept_sum cb l.
Proof. done. Qed.

Lemma packed_into_kept l : skips_ok l -> first_fit (kept_sum cb l) l = kept_flags cb l.
Proof.
  induction l as [|o l IH]; intros H; [done|]. destruct H as [H1 H2]. cbn [first_fit kept_flags map].
  rewrite kept_sum_cons. pose proof (kept_sum_nonneg l). destruct (0 <? paid_to cb (script o)).
  - rewrite (proj2 (Z.leb_le _ _)) by lia. f_equal. etransitivity; [|by apply IH]. f_equal. lia.
  - specialize (H1 eq_refl). rewrite (proj2 (Z.leb_gt _ _)) by lia. f_equal. by apply IH.
Qed.

Lemma packed_skips l : forall room, 0 <= room -> first_fit room l = kept_flags cb l -> skips_ok l /\ kept_sum cb l <= room.
Proof.
  induction l as [|o l IH]; intros room Hr H; [done|]. cbn [first_fit kept_flags map skips_ok] in *. rewrite kept_sum_cons.
  destruct (Z.leb_spec (need o) room) as [Hn|Hn]; injection H as H1 H2; rewrite <- H1.
  - destruct (IH (room - need o) ltac:(lia) H2) as [I1 I2]. split; [split; [done|done] | lia].
  - destruct (IH room Hr H2) as [I1 I2]. split; [split; [intros _; lia | done] | lia].
Qed.

Lemma kept_from_app l1 : forall l2 k s,
  kept_from (paid_to cb) (l1 ++ l2) k s =
  match kept_from (paid_to cb) l1 k s with Some (k', s') => kept_from (paid_to cb) l2 k' s' | None => None end.
Proof.
  induction l1 as [|o l1 IH]; intros l2 k s; [done|]. cbn [app kept_from]. destr_if; [apply IH|]. destr_if; [done | apply IH].
Qed.

(** The loop, run from the last output, checks exactly that. *)
Lemma kept_from_rev l : (skips_ok l -> kept_from (paid_to cb) (rev l) 0 false
      = Some (kept_sum cb l, existsb (fun o => negb (0 <? paid_to cb (script o))) l)) /\
  (~ skips_ok l -> kept_from (paid_to cb) (rev l) 0 false = None).
Proof.
  induction l as [|o l [IH1 IH2]]; [done|]. cbn [rev skips_ok existsb]. rewrite kept_from_app, kept_sum_cons.
  fold (need o). split.
  - intros [H1 H2]. rewrite IH1 by done. cbn [kept_from]. fold (need o). destruct (0 <? paid_to cb (script o)).
    + cbn [negb orb]. by rewrite Z.add_comm.
    + specialize (H1 eq_refl). rewrite (proj2 (Z.leb_gt _ _)) by lia. done.
  - intros H. destruct (decide (kept_from (paid_to cb) (rev l) 0 false = None)) as [E|E]; [by rewrite E|].
    assert (Hs : skips_ok l) by (destruct (skips_ok_dec l) as [|n]; [done | by apply IH2 in n]).
    rewrite IH1 by done. cbn [kept_from]. fold (need o). destruct (0 <? paid_to cb (script o)) eqn:Ep.
    + exfalso. apply H. split; [done | done].
    + destruct (Z.leb_spec (need o) (kept_sum cb l)); [done|]. exfalso. apply H. split; [by intros _ | done].
Qed.
End Packing.

(** * Properties *)

Lemma foldl_sat_min (l : list Output) : forall a, 0 <= a -> Forall (fun o => 0 <= sats o) l ->
  foldl (fun a o => sat_add u64_max a (sats o)) (Z.min a u64_max) l = Z.min (a + zsum (map sats l)) u64_max.
Proof.
  induction l as [|o l IH]; intros a Ha H; cbn [foldl map]; [f_equal; cbn; lia|].
  apply Forall_cons in H as [H1 H2]. rewrite zsum_cons.
  replace (sat_add u64_max (Z.min a u64_max) (sats o)) with (Z.min (a + sats o) u64_max) by (unfold sat_add; lia).
  rewrite IH by (done || lia). f_equal. lia.
Qed.

(** A coinbase teaches a size exactly when it shows one. [kept_payee_bytes] gives [k] if and
    only if the coinbase is worth the list, it paid some payees and not others, what it paid is
    what packing the list in order into some room keeps, and [k] is the bytes of what it paid;
    and [k] is then itself such a room. *)
Theorem kept_bytes_exact (issued : list Output) (pool_script : list Z) (cb : Coinbase) (k : Z) :
  Forall (fun o => 0 <= sats o) issued ->
  let payees := payees_of pool_script issued in
  kept_payee_bytes issued pool_script cb = Some k <->
  (Z.min (zsum (map sats issued)) u64_max <= total_output_value cb /\
   (exists room, 0 <= room /\ first_fit room payees = kept_flags cb payees) /\
   first_fit k payees = kept_flags cb payees /\
   k = kept_sum cb payees /\ true ∈ kept_flags cb payees /\ false ∈ kept_flags cb payees).
Proof.
  intros Hs payees. unfold kept_payee_bytes.
  assert (Hv : foldl (fun a o => sat_add u64_max a (sats o)) 0 issued = Z.min (zsum (map sats issued)) u64_max)
    by exact (foldl_sat_min issued 0 ltac:(lia) Hs).
  rewrite Hv.
  assert (Hrev : filter (fun o => script o <> pool_script) (rev issued) = rev payees).
  { unfold payees, payees_of. clear. induction issued as [|o l IH]; [done|]. cbn [rev]. rewrite filter_app, IH, filter_cons.
    rewrite filter_cons, filter_nil. destruct (decide _); cbn [rev]; [done | by rewrite app_nil_r]. }
  rewrite Hrev. destruct (kept_from_rev cb payees) as [K1 K2].
  assert (Hpos : true ∈ kept_flags cb payees <-> 0 < kept_sum cb payees).
  { unfold kept_flags. clear. induction payees as [|o l IH]; [cbn; split; [by intros ?%not_elem_of_nil | lia]|].
    cbn [map]. rewrite kept_sum_cons, elem_of_cons, IH. pose proof (kept_sum_nonneg cb l). pose proof (need_pos o).
    destruct (0 <? paid_to cb (script o)); [split; [lia | by left] | split; [intros [|]; [done | lia] | intros; right; lia]]. }
  assert (Hskip : false ∈ kept_flags cb payees <-> existsb (fun o => negb (0 <? paid_to cb (script o))) payees = true).
  { rewrite existsb_exists. unfold kept_flags. rewrite list_elem_of_fmap. split.
    - intros (o & H1 & H2). exists o. split; [by apply list_elem_of_In | by rewrite <- H1].
    - intros (o & H1 & H2). exists o. apply list_elem_of_In in H1. split; [by destruct (0 <? _) | done]. }
  destruct (Z.ltb_spec (total_output_value cb) (Z.min (zsum (map sats issued)) u64_max)); [split; [done | lia]|].
  destruct (decide (skips_ok cb payees)) as [S|S].
  - rewrite K1 by done. pose proof (packed_into_kept cb payees S) as Hp. split.
    + destr_if; [|done]. intros [= <-]. apply andb_true_iff in Hif as [H1 H2]. apply Z.ltb_lt in H1.
      conjs; [lia | exists (kept_sum cb payees); split; [lia | done] | done | done | by apply Hpos | by apply Hskip].
    + intros (_ & _ & _ & -> & H1 & H2). apply Hpos in H1. apply Hskip in H2.
      by rewrite (proj2 (Z.ltb_lt _ _) H1), H2.
  - rewrite K2 by done. split; [done|]. intros (_ & (room & Hr & Hf) & _). by apply (packed_skips cb payees room Hr) in Hf as [Hf _].
Qed.

(** A block of four payees into 80 bytes: the second is too big for what the first left. *)
Definition demo_issued : list Output :=
  [{| sats := 40; script := replicate 22 1 |}; {| sats := 30; script := replicate 50 2 |};
   {| sats := 20; script := replicate 22 3 |}; {| sats := 10; script := replicate 34 4 |};
   {| sats := 5; script := replicate 22 9 |}].
Definition demo_cut : Coinbase := {|
  cb_version := 1; script_sig := [1; 1]; sequence := 0;
  outputs := [{| o_value := 40; o_script := replicate 22 1 |}; {| o_value := 20; o_script := replicate 22 3 |};
              {| o_value := 45; o_script := replicate 22 9 |}];
  lock_time := 0; cb_height := Some 1; outputs_at := 0; lock_time_at := 0 |}.

Lemma kept_bytes_exact_witness :
  kept_payee_bytes demo_issued (replicate 22 9) demo_cut = Some 62 /\
  first_fit 62 (payees_of (replicate 22 9) demo_issued) = [true; false; true; false].
Proof.
  assert (E : kept_payee_bytes demo_issued (replicate 22 9) demo_cut = Some 62) by (vm_compute; reflexivity).
  split; [exact E|].
  destruct (proj1 (kept_bytes_exact demo_issued (replicate 22 9) demo_cut 62
              ltac:(apply (bool_decide_unpack _); vm_compute; exact I)) E) as (_ & _ & H & _).
  assert (kept_flags demo_cut (payees_of (replicate 22 9) demo_issued) = [true; false; true; false]) as F by (vm_compute; reflexivity).
  rewrite <- F. exact H.
Defined.

Lemma first_fit_all l : forall room, zsum (map need l) <= room -> first_fit room l = map (fun _ => true) l.
Proof.
  induction l as [|o l IH]; intros room H; [done|]. cbn [first_fit map] in *. rewrite zsum_cons in H.
  assert (0 <= zsum (map need l)) by (apply zsum_map_nonneg; intros x _; pose proof (need_pos x); lia).
  rewrite (proj2 (Z.leb_le _ _)) by lia. f_equal. apply IH. lia.
Qed.

(** A reply held to a learned budget is kept whole. Whatever window, value and pool
    parameters the next coinbaser is computed with, a section with the room that taught the
    budget places every payee it lists. *)
Theorem budgeted_reply_kept_whole (taught : list Output) (pool_script : list Z) (cb : Coinbase) (k room : Z)
    miners total_work value pool_params rebate_owed now script_for sp :
  Forall (fun o => 0 <= sats o) taught ->
  kept_payee_bytes taught pool_script cb = Some k ->
  0 <= room -> first_fit room (payees_of pool_script taught) = kept_flags cb (payees_of pool_script taught) ->
  let p := class_params pool_params (Some k) in
  split_ok miners total_work value p rebate_owed -> k < output_budget_bytes pool_params ->
  compute miners total_work value p rebate_owed now script_for = Ret sp ->
  let list := payees_of pool_script (coinbaser_outputs sp pool_script) in
  first_fit room list = map (fun _ => true) list.
Proof.
  intros Hs Hk Hr Hf p OK Hb Hc list. apply (kept_bytes_exact taught pool_script cb k Hs) in Hk as (_ & _ & _ & Hsum & _).
  destruct (packed_skips cb _ room Hr Hf) as [_ Hle]. apply first_fit_all.
  destruct (compute_ok _ _ _ _ _ now script_for OK) as (sp' & E & S). rewrite Hc in E. injection E as <-.
  pose proof (ss_bytes _ _ _ _ _ _ _ _ S) as Hbytes.
  assert (Hp : output_budget_bytes p = k) by (unfold p, class_params; by rewrite (proj2 (Z.ltb_lt _ _) Hb)).
  rewrite Hp, Z.max_r in Hbytes by (rewrite Hsum; apply kept_sum_nonneg).
  etransitivity; [|rewrite Hsum in Hbytes; etransitivity; [exact Hbytes | exact Hle]].
  unfold list, payees_of, coinbaser_outputs. set (f := fun q => {| sats := p_sats q; script := p_script q |}).
  transitivity (zsum (map need (filter (fun o => script o <> pool_script) (map f (s_payees sp))))).
  - destr_if; [|lia]. rewrite filter_app, map_app, zsum_app, filter_cons, filter_nil.
    rewrite decide_False by (intros H; by apply H). cbn. lia.
  - etransitivity; [apply (zsum_filter_le (fun o => script o <> pool_script))|].
    + intros x _. pose proof (need_pos x). lia.
    + rewrite map_map. unfold need, need_bytes, f. cbn [script]. lia.
Qed.

Lemma budgeted_reply_kept_whole_witness :
  exists sp, compute [demo_miner "big" 9600 0; demo_miner "small" 400 3960] 10000 100000
      (class_params (demo_params 100 4000) (Some 62)) 0 0 demo_script = Ret sp /\
    first_fit 80 (payees_of (replicate 22 9) (coinbaser_outputs sp (replicate 22 9))) =
      map (fun _ => true) (payees_of (replicate 22 9) (coinbaser_outputs sp (replicate 22 9))).
Proof.
  eexists. split; [vm_compute; reflexivity|].
  eapply (budgeted_reply_kept_whole demo_issued (replicate 22 9) demo_cut 62 80
    [demo_miner "big" 9600 0; demo_miner "small" 400 3960] 10000 100000 (demo_params 100 4000) 0 0 demo_script).
  - apply (bool_decide_unpack _). vm_compute. exact I.
  - vm_compute. reflexivity.
  - lia.
  - vm_compute. reflexivity.
  - constructor; unfold in_range; try (cbn; lia). apply (bool_decide_unpack _). vm_compute. exact I.
  - cbn. lia.
  - vm_compute. reflexivity.
Defined.

(** * Learning *)

(** A section keeping so many bytes on a coinbaser at a moment. *)
Record Sighting := { sg_section : Z; sg_coinbaser : Z; sg_kept : Z; sg_at : Z }.

(** What a session's accepted shares and its clock do to its budget. *)
Inductive learns : ClassBudget -> list Sighting -> Prop :=
| learn_start : learns class_budget_new []
| learn_sighting c h section id kept now : learns c h ->
    learns (observe c section id kept now).1
           ({| sg_section := section; sg_coinbaser := id; sg_kept := kept; sg_at := now |} :: h)
| learn_expire c h now : learns c h -> learns (expire c now).1 h.

(** The sightings an entry of a tally stands for. *)
Definition entry_ok (h : list Sighting) (section : Z) (e : Z * list (Z * Z)) : Prop :=
  CLASS_BUDGET_MIN_BYTES <= e.1 /\ (length e.2 <= CLASS_BUDGET_SIGHTINGS)%nat /\ NoDup (map fst e.2) /\
  forall s, s ∈ e.2 -> {| sg_section := section; sg_coinbaser := s.1; sg_kept := e.1; sg_at := s.2 |} ∈ h.

Definition tally_ok (h : list Sighting) (section : Z) (t : tally) : Prop :=
  (length t <= CLASS_BUDGET_TALLY)%nat /\ Forall (entry_ok h section) t.

Definition seen_tallies_ok (h : list Sighting) (m : gmap Z tally) : Prop :=
  forall section t, m !! section = Some t -> tally_ok h section t.

(** Three coinbasers on which one section kept the same bytes, within the time to live. *)
Definition learned (h : list Sighting) (k set_at : Z) : Prop :=
  CLASS_BUDGET_MIN_BYTES <= k /\
  exists section ids, length ids = CLASS_BUDGET_SIGHTINGS /\ NoDup (map fst ids) /\
    Forall (fun s => {| sg_section := section; sg_coinbaser := s.1; sg_kept := k; sg_at := s.2 |} ∈ h /\
                     elapsed set_at s.2 < CLASS_BUDGET_TTL) ids.

Record budget_ok (c : ClassBudget) (h : list Sighting) : Prop := {
  bo_seen : seen_tallies_ok h (cbt_seen c);
  bo_bytes : forall k, cbt_bytes c = Some k -> exists t, cbt_set_at c = Some t /\ learned h k t
}.

Lemma entry_ok_mono h h' section e : h ⊆ h' -> entry_ok h section e -> entry_ok h' section e.
Proof. intros Hh (H1 & H2 & H3 & H4). unfold entry_ok. conjs; [done|done|done|]. intros s Hs. by apply Hh, H4. Qed.

Lemma learned_mono h h' k t : h ⊆ h' -> learned h k t -> learned h' k t.
Proof.
  intros Hh (H1 & section & ids & H2 & H3 & H4). split; [done|]. exists section, ids. conjs; [done | done |].
  eapply Forall_impl; [exact H4|]. intros s [A B]. split; [by apply Hh | done].
Qed.

Lemma budget_ok_mono c h h' : h ⊆ h' -> budget_ok c h -> budget_ok c h'.
Proof.
  intros Hh [B1 B2]. constructor.
  - intros section t Ht. destruct (B1 section t Ht) as [L F]. split; [done|].
    eapply Forall_impl; [exact F|]. intros e. by apply entry_ok_mono.
  - intros k Hk. destruct (B2 k Hk) as (t & H1 & H2). exists t. split; [done|]. by eapply learned_mono.
Qed.

Lemma NoDup_map_filter {A B} (f : A -> B) (P : A -> Prop) `{!forall x, Decision (P x)} l :
  NoDup (map f l) -> NoDup (map f (filter P l)).
Proof.
  intros HN. eapply sublist_NoDup; [exact HN|]. apply fmap_sublist, sublist_filter.
Qed.

(** Dropping old sightings leaves the young ones, and nothing else. *)
Lemma young_tally_ok h section t now : tally_ok h section t ->
  tally_ok h section (young_tally now t) /\
  Forall (fun e => Forall (fun s => elapsed now s.2 < CLASS_BUDGET_TTL) e.2) (young_tally now t).
Proof.
  intros [L F]. unfold young_tally. split; [split|].
  - etransitivity; [apply length_filter|]. by rewrite length_map.
  - apply Forall_forall. intros e He. apply list_elem_of_filter in He as [_ He].
    apply list_elem_of_fmap in He as (e0 & -> & He). rewrite Forall_forall in F.
    destruct (F e0 He) as (H1 & H2 & H3 & H4). unfold entry_ok. cbn [fst snd]. conjs.
    + done.
    + etransitivity; [apply length_filter | done].
    + by apply NoDup_map_filter.
    + intros s Hs. apply list_elem_of_filter in Hs as [_ Hs]. by apply H4.
  - apply Forall_forall. intros e He. apply list_elem_of_filter in He as [_ He].
    apply list_elem_of_fmap in He as (e0 & -> & _). cbn [snd]. apply Forall_forall. intros s Hs.
    apply list_elem_of_filter in Hs as [Hs _]. by apply Is_true_true, Z.ltb_lt in Hs.
Qed.

Lemma drop_old_seen c h now section t : seen_tallies_ok h (cbt_seen c) ->
  cbt_seen (drop_old_sightings c now) !! section = Some t ->
  tally_ok h section t /\ Forall (fun e => Forall (fun s => elapsed now s.2 < CLASS_BUDGET_TTL) e.2) t.
Proof.
  intros B H. cbn in H. apply map_lookup_filter_Some in H as [H _]. rewrite lookup_fmap in H.
  apply fmap_Some in H as (t0 & Ht & ->). by apply young_tally_ok, B.
Qed.

Lemma drop_old_ok c h now : budget_ok c h -> budget_ok (drop_old_sightings c now) h.
Proof.
  intros [B1 B2]. constructor; [|done]. intros section t Ht. by apply (drop_old_seen c h now section t B1).
Qed.

Lemma expire_ok c h now : budget_ok c h -> budget_ok (expire c now).1 h.
Proof.
  intros B. unfold expire. pose proof (drop_old_ok c h now B) as D.
  assert (N : budget_ok class_budget_new h).
  { constructor; [|done]. intros section t H. cbn in H. by rewrite lookup_empty in H. }
  destruct (cbt_set_at (drop_old_sightings c now)); [destr_if|]; done.
Qed.

Lemma add_sighting_ok ids id now :
  (length ids <= CLASS_BUDGET_SIGHTINGS)%nat -> NoDup (map fst ids) ->
  (length (add_sighting ids id now) <= CLASS_BUDGET_SIGHTINGS)%nat /\ NoDup (map fst (add_sighting ids id now)) /\
  forall s, s ∈ add_sighting ids id now -> s ∈ ids \/ s = (id, now).
Proof.
  intros H1 H2. unfold add_sighting. destr_if; [|naive_solver]. apply andb_true_iff in Hif as [H3 H4].
  apply Nat.ltb_lt in H3. apply negb_true_iff in H4. conjs.
  - rewrite length_app. cbn [length]. lia.
  - rewrite map_app. apply NoDup_app. conjs; [done | | apply NoDup_singleton].
    intros x Hx1 Hx2. apply list_elem_of_singleton in Hx2. cbn in Hx2. subst x.
    apply list_elem_of_fmap in Hx1 as (s & Hs & Hin). apply not_true_iff_false in H4. apply H4.
    apply existsb_exists. exists s. split; [by apply list_elem_of_In | by apply Z.eqb_eq].
  - intros s Hs. apply elem_of_app in Hs as [Hs|Hs]; [by left | right]. by apply list_elem_of_singleton in Hs.
Qed.

(** The entry of [kept], new or old, in a tally no longer than before or than the limit. *)
Lemma tally_entry_ok h section t kept t' i : tally_ok h section t -> CLASS_BUDGET_MIN_BYTES <= kept ->
  tally_entry t kept = (t', i) ->
  tally_ok h section t' /\ exists ids, t' !! i = Some (kept, ids) /\
    (ids = [] \/ (kept, ids) ∈ t).
Proof.
  intros [L F] Hk H. unfold tally_entry in H. destruct (list_find _ t) as [[j e]|] eqn:E.
  - injection H as <- <-. apply list_find_Some in E as (E1 & E2 & _). split; [done|].
    destruct e as [k ids]. cbn in E2. subst k. exists ids. split; [done|]. right. by eapply list_elem_of_lookup_2.
  - apply pair_equal_spec in H as [<- <-]. set (t0 := if (CLASS_BUDGET_TALLY <=? length t)%nat then drop 1 t else t).
    assert (H0 : (length t0 < CLASS_BUDGET_TALLY)%nat /\ Forall (entry_ok h section) t0).
    { unfold t0. destruct (Nat.leb_spec CLASS_BUDGET_TALLY (length t)).
      - split; [rewrite length_drop; unfold CLASS_BUDGET_TALLY in *; lia | by apply Forall_drop].
      - done. }
    destruct H0 as [H1 H2]. split; [split|].
    + rewrite length_app. cbn [length]. lia.
    + apply Forall_app. split; [done|]. apply Forall_singleton. unfold entry_ok. cbn [fst snd map length].
      conjs; [done | lia | constructor |]. intros s Hs. by apply not_elem_of_nil in Hs.
    + exists []. split; [|by left]. rewrite lookup_app_r by lia. by rewrite Nat.sub_diag.
Qed.

Lemma observe_ok c h section cid kept now : budget_ok c h ->
  budget_ok (observe c section cid kept now).1
            ({| sg_section := section; sg_coinbaser := cid; sg_kept := kept; sg_at := now |} :: h).
Proof.
  set (sg := {| sg_section := section; sg_coinbaser := cid; sg_kept := kept; sg_at := now |}). intros B.
  assert (Hsub : h ⊆ sg :: h) by (intros x Hx; by right).
  unfold observe. destruct (Z.ltb_spec kept CLASS_BUDGET_MIN_BYTES); [by eapply budget_ok_mono|].
  pose proof (drop_old_ok c h now B) as D. set (c' := drop_old_sightings c now) in *.
  assert (T : tally_ok h section (default [] (cbt_seen c' !! section)) /\
    Forall (fun e => Forall (fun s => elapsed now s.2 < CLASS_BUDGET_TTL) e.2) (default [] (cbt_seen c' !! section))).
  { destruct (cbt_seen c' !! section) as [t|] eqn:E; cbn [default from_option id].
    - by apply (drop_old_seen c h now section t (bo_seen _ _ B)).
    - split; [split; [cbn; unfold CLASS_BUDGET_TALLY; lia | constructor] | constructor]. }
  destruct T as [T Ty]. destruct (tally_entry (default [] (cbt_seen c' !! section)) kept) as [t i] eqn:Et.
  destruct (tally_entry_ok h section _ kept t i T H Et) as (T' & ids & Hi & Hids). rewrite Hi. cbn [snd].
  assert (Hold : (length ids <= CLASS_BUDGET_SIGHTINGS)%nat /\ NoDup (map fst ids) /\
      Forall (fun s => elapsed now s.2 < CLASS_BUDGET_TTL) ids /\
      forall s, s ∈ ids -> {| sg_section := section; sg_coinbaser := s.1; sg_kept := kept; sg_at := s.2 |} ∈ h).
  { destruct Hids as [-> | Hids].
    - cbn. conjs; [lia | constructor | constructor |]. intros s Hs. by apply not_elem_of_nil in Hs.
    - destruct T as [_ T]. rewrite Forall_forall in T, Ty. destruct (T _ Hids) as (_ & A2 & A3 & A4).
      conjs; [done | done | exact (Ty _ Hids) | exact A4]. }
  destruct Hold as (O1 & O2 & O3 & O4). destruct (add_sighting_ok ids cid now O1 O2) as (A1 & A2 & A3).
  set (ids' := add_sighting ids cid now) in *.
  assert (Hin : forall s, s ∈ ids' -> {| sg_section := section; sg_coinbaser := s.1; sg_kept := kept; sg_at := s.2 |} ∈ sg :: h).
  { intros s Hs. apply A3 in Hs as [Hs | ->]; [right; by apply O4 | by left]. }
  assert (Hseen : seen_tallies_ok (sg :: h) (<[section := <[i := (kept, ids')]> t]> (cbt_seen c'))).
  { intros section' t0 H0. destruct (decide (section = section')) as [<-|Hne].
    - rewrite lookup_insert_eq in H0. apply (inj Some) in H0 as <-. destruct T' as [T1 T2]. split.
      + by rewrite length_insert.
      + apply Forall_insert.
        * eapply Forall_impl; [exact T2|]. intros e. by apply entry_ok_mono.
        * by unfold entry_ok.
    - rewrite lookup_insert_ne in H0 by done. destruct (bo_seen _ _ D section' t0 H0) as [L F]. split; [done|].
      eapply Forall_impl; [exact F|]. intros e. by apply entry_ok_mono. }
  destr_if; cbn [fst].
  - constructor; [done|]. intros k Hk. cbn in Hk |- *. destruct (bo_bytes _ _ D k Hk) as (s & E1 & E2).
    exists s. split; [done|]. by eapply learned_mono.
  - apply orb_false_iff in Hif as [Hlen _]. apply Nat.ltb_ge in Hlen.
    constructor; [done|]. intros k Hk. cbn in Hk |- *. injection Hk as <-. exists now. split; [done|]. split; [done|].
    exists section, ids'. conjs; [lia | done |]. apply Forall_forall. intros s Hs. split; [by apply Hin|].
    apply A3 in Hs as [Hs | ->].
    + rewrite Forall_forall in O3. by apply O3.
    + cbn. unfold elapsed, sat_sub. rewrite Z.sub_diag. reflexivity.
Qed.

Lemma learns_ok c h : learns c h -> budget_ok c h.
Proof.
  induction 1; [|by apply observe_ok | by apply expire_ok].
  constructor; [|done]. intros section t H. cbn in H. by rewrite lookup_empty in H.
Qed.

(** Whatever shares a session accepts and however its clock runs, a budget of [k] bytes means
    that one section kept exactly [k] on three distinct coinbasers, all within the time to live of
    when it was set, and that [k] is no less than the smallest class keeps; the next sighting
    leaves it, or lowers it to a size shown the same way; and no section ever has more than
    eight sizes of three sightings in hand. *)
Theorem budget_is_shown (c : ClassBudget) (h : list Sighting) : learns c h ->
  (forall k, cbt_bytes c = Some k -> exists t, cbt_set_at c = Some t /\ learned h k t) /\
  (forall section id kept now k, cbt_bytes c = Some k ->
     exists k', cbt_bytes (observe c section id kept now).1 = Some k' /\
       (k' = k \/ (k' < k /\ k' = kept /\ (observe c section id kept now).2 = true))) /\
  (forall section t, cbt_seen c !! section = Some t ->
     (length t <= CLASS_BUDGET_TALLY)%nat /\ Forall (fun e => (length e.2 <= CLASS_BUDGET_SIGHTINGS)%nat) t).
Proof.
  intros L. pose proof (learns_ok c h L) as [B1 B2]. conjs; [done | |].
  - intros section id kept now k Hk. unfold observe. destr_if; [exists k; split; [done | by left]|].
    destruct (tally_entry _ kept) as [t i]. cbv zeta. cbn [cbt_bytes drop_old_sightings]. rewrite Hk.
    destr_if; cbn [fst snd cbt_bytes]; [exists k; split; [done | by left]|].
    apply orb_false_iff in Hif0 as [_ H0]. bools. exists kept. split; [done|]. right. done.
  - intros section t Ht. destruct (B1 section t Ht) as [H1 H2]. split; [done|].
    eapply Forall_impl; [exact H2|]. intros e (_ & H & _). done.
Qed.

Definition taught_budget : ClassBudget :=
  (observe (observe (observe class_budget_new 2 1 300 (secs 10)).1 2 2 300 (secs 20)).1 2 3 300 (secs 30)).1.

Lemma budget_is_shown_witness : cbt_bytes taught_budget = Some 300 /\
  exists k', cbt_bytes (observe taught_budget 2 4 250 (secs 40)).1 = Some k' /\ k' <= 300.
Proof.
  assert (E : cbt_bytes taught_budget = Some 300) by (vm_compute; reflexivity). split; [exact E|].
  unfold taught_budget in *. eassert (L : learns _ _) by (do 3 apply learn_sighting; apply learn_start).
  destruct (budget_is_shown _ _ L) as (_ & H & _). destruct (H 2 4 250 (secs 40) 300 E) as (k' & H1 & H2).
  exists k'. split; [exact H1 | lia].
Defined.

(** A budget and all it was learned from are gone once it is old enough. *)
Theorem budget_expires (c : ClassBudget) (t now : Z) : cbt_set_at c = Some t -> CLASS_BUDGET_TTL <= elapsed now t ->
  expire c now = (class_budget_new, true).
Proof.
  intros Ht He. unfold expire. cbn [cbt_set_at drop_old_sightings]. rewrite Ht. by rewrite (proj2 (Z.leb_le _ _) He).
Qed.

(** * Held-split sessions *)

(** A session is held only on the sixteenth share or later, with one payout named and a script
    for it, and once held on a script is never held on another. *)
Theorem held_on_one_payout (h h' : HeldPayout) (payouts : nat) (dominant : option (list Z)) (now_held : bool) :
  held_note h payouts dominant = Ret (h', now_held) ->
  (now_held = true -> payouts = 1%nat /\ HELD_SPLIT_SHARES <= h_shares h' /\ h_on h' = dominant /\ is_Some dominant) /\
  (now_held = false -> h_on h' = h_on h) /\
  (forall s, h_on h = Some s -> h_on h' = Some s /\ held_script h' 1 = Some s /\ held_script h' 2 = None).
Proof.
  unfold held_note. intros H. apply bind_Ret_inv in H as (n & _ & H). destr_if_in H.
  - injection H as <- <-. conjs; [done | done |]. intros s Hs. unfold held_script. cbn. by rewrite Hs.
  - apply orb_false_iff in Hif as [Hif H3]. apply orb_false_iff in Hif as [H1 H2]. bools.
    apply negb_false_iff, Nat.eqb_eq in H2 || (apply Nat.eqb_eq in H2).
    destruct dominant as [d|]; injection H as <- <-.
    + conjs; [intros _; cbn; conjs; done || lia | done |]. intros s Hs. exfalso. apply H1. by exists s.
    + conjs; [done | done |]. intros s Hs. exfalso. apply H1. by exists s.
Qed.
