(* ===== verification/Node.v ===== *)
(** The node poller ([prime/primed/src/node.rs]): the tip as the node's answers give it, and the
    life of a recorded block — confirmed when the node has it in its main chain, orphaned when it
    does not — with the block records of [Shared] in [state.rs].

    The node is what it answers. What a block's life does to the files is in the order the code
    does it: the record is appended to the block log, then the ledger is flushed. *)

From S2P Require Import Prelude Bytes Text Tides Split Window Grace Ledger Disk BlockLog Persist Handshake Pow State.
Open Scope Z_scope.

(** * The tip *)

(** [next_bits_follow_tip]. *)
Definition next_bits_follow_tip (network : string) (height : Z) : panics bool :=
  if bool_decide (network = "regtest"%string) then Ret true
  else if bool_decide (network = "mainnet"%string) || bool_decide (network = "signet"%string)
  then next ← chk_add u32_max height 1; Ret (negb (next mod 2016 =? 0))
  else Ret false.

(** [u32::from_str_radix(_, 16)]: an optional plus, then digits, the value in range. *)
Definition hex_digit (b : Z) : option Z :=
  if is_ascii_digit b then Some (b - 48)
  else if between 97 102 b then Some (b - 87)
  else if between 65 70 b then Some (b - 55) else None.
Fixpoint hex_value (acc : Z) (l : list Z) : option Z :=
  match l with
  | [] => Some acc
  | b :: l' => match hex_digit b with
               | Some d => if u32_max <? acc * 16 + d then None else hex_value (acc * 16 + d) l'
               | None => None
               end
  end.
Definition compact_target (s : list Z) : option Z :=
  let digits := match s with 43 :: (_ :: _) as rest => drop 1 s | _ => s end in
  match digits with [] => None | _ => hex_value 0 digits end.

(** What the node answered to [getblockchaininfo], [getblockheader] and [getmininginfo]. *)
Record ChainInfo := { ci_blocks : Z; ci_hash : string }.
Record TipAnswers := {
  an_header : option (option string * option (list Z));
  an_mining : option (option Z * option (list Z))
}.

(** [refresh_locked], with the tip published before, if any, and what the node answers. *)
Definition refresh_tip (hex_decode : string -> option (list Z)) (network : string)
    (before : option Tip) (info : ChainInfo) (an : TipAnswers) (now now_ts : Z) : panics Tip :=
  let height := trunc u32_max (ci_blocks info) in
  let current := match before with
                 | Some t => if bool_decide (t_hash t = ci_hash info) then Some t else None
                 | None => None
                 end in
  let '(parent, bits, next) := match current with
                               | Some t => (parent_le t, t_bits t, next_bits t)
                               | None => (None, None, None)
                               end in
  let '(parent, bits) :=
    if bool_decide (parent = None) || bool_decide (bits = None) then
      match an_header an with
      | Some (prev, b) => (s ← prev; hash_le hex_decode s, b ≫= compact_target)
      | None => (parent, bits)
      end
    else (parent, bits) in
  let next :=
    if bool_decide (next = None) then
      match an_mining an with
      | Some (Some blocks, b) => if blocks =? height then b ≫= compact_target else None
      | _ => None
      end
    else next in
  next ← match next, bits with
         | None, Some b =>
             follow ← next_bits_follow_tip network height; Ret (if (follow : bool) then Some b else None)
         | _, _ => Ret next
         end;
  let '(at_, ts) := match current with Some t => (seen_at t, seen_ts t) | None => (now, now_ts) end in
  Ret {| t_height := height; t_hash := ci_hash info; t_hash_le := hash_le hex_decode (ci_hash info);
         parent_le := parent; t_bits := bits; next_bits := next; seen_at := at_; seen_ts := ts |}.

(** * Recorded blocks *)

Definition BLOCKS_KEPT : nat := 10000.

(** [Shared::record_block], on the records in memory. *)
Definition record_block (blocks : list BlockRecord) (r : BlockRecord) : list BlockRecord :=
  let b := blocks ++ [r] in drop (length b - BLOCKS_KEPT) b.

(** The first record of a list with this hash, changed by a step that has a state of its own. *)
Fixpoint update_first {St} (f : St -> BlockRecord -> St * BlockRecord) (st : St) (hash : string)
    (l : list BlockRecord) : option (St * list BlockRecord * BlockRecord) :=
  match l with
  | [] => None
  | r :: l' =>
      if bool_decide (br_hash r = hash) then let '(st', r') := f st r in Some (st', r' :: l', r')
      else match update_first f st hash l' with
           | Some (st', l'', r') => Some (st', r :: l'', r')
           | None => None
           end
  end.

(** [Shared::update_block]: the last record of the hash. *)
Definition update_block {St} (f : St -> BlockRecord -> St * BlockRecord) (st : St) (hash : string)
    (blocks : list BlockRecord) : option (St * list BlockRecord * BlockRecord) :=
  match update_first f st hash (rev blocks) with
  | Some (st', l, r) => Some (st', rev l, r)
  | None => None
  end.

Definition last_record (hash : string) (blocks : list BlockRecord) : option BlockRecord :=
  find (fun r => bool_decide (br_hash r = hash)) (rev blocks).

(** A record with its kind, its books and whether it is settled replaced. *)
Definition relabelled (r : BlockRecord) (kind : string) (books : option Books) (settled : bool) : BlockRecord := {|
  br_ts := br_ts r; br_height := br_height r; br_hash := br_hash r; br_finder := br_finder r;
  br_coinbase_value := br_coinbase_value r; br_kind := kind; br_owed_sats := br_owed_sats r;
  br_split := br_split r; br_pool_sats := br_pool_sats r; br_carry_paid := br_carry_paid r;
  br_carry_delta := br_carry_delta r; br_rebate_credited := br_rebate_credited r;
  br_rebate_delta := br_rebate_delta r; br_settled := settled; br_submit := br_submit r;
  br_gateway := br_gateway r; br_books := books; br_carry_shortfall_sats := br_carry_shortfall_sats r;
  br_carry_reserved_sats := br_carry_reserved_sats r |}.

Definition ORPHAN : string := "orphan:".

(** [str::strip_prefix]. *)
Definition strip_prefix (p s : string) : option string :=
  if String.prefix p s then Some (String.substring (String.length p) (String.length s - String.length p) s) else None.
Definition is_orphan (r : BlockRecord) : bool := String.prefix ORPHAN (br_kind r).

(** ** Confirming *)

(** The closure of [settle_confirmed]: the ledger, and what a record from before the two steps
    has to have re-applied. *)
Definition Reapply : Type := Ledger * list (string * Z) * Z.
Definition confirm_record (st : Reapply) (r : BlockRecord) : Reapply * BlockRecord :=
  let '(l, legacy, rebate) := st in
  let was_orphan := is_orphan r in
  let kind := match strip_prefix ORPHAN (br_kind r) with Some k => k | None => br_kind r end in
  match br_books r with
  | Some k =>
      let '(l, k) := ledger_book_debits l (br_carry_delta r) k in
      let '(l, k) := ledger_book_credits l (br_carry_delta r) k in
      ((l, legacy, rebate), relabelled r kind (Some k) true)
  | None =>
      (if was_orphan then (l, br_carry_delta r, br_rebate_delta r) else st, relabelled r kind None true)
  end.

(** What both ends of a block's life do last: a record from before the two steps is settled in
    one. *)
Definition settle_legacy (st : Reapply) : Ledger :=
  let '(l, legacy, rebate) := st in
  if bool_decide (legacy = []) && (rebate =? 0) then l
  else fst (settle_rebate (fst (settle_carry l legacy)) rebate).

(** ** Orphaning *)

(** The closure of [mark_orphan]. *)
Definition orphan_record (st : Reapply) (r : BlockRecord) : Reapply * BlockRecord :=
  let '(l, legacy, rebate) := st in
  let kind := (ORPHAN ++ br_kind r)%string in
  match br_books r with
  | Some k => let '(l, k, _) := ledger_unbook l k in ((l, legacy, rebate), relabelled r kind (Some k) false)
  | None =>
      ((l, map (fun e => (e.1, - e.2)) (br_carry_delta r), - br_rebate_delta r), relabelled r kind None false)
  end.

Section Life.
Context `{BlockJson} `{MetaJson}.

(** The ledger, the records in memory, and the directory. *)
Record NodeState := { nd_ledger : Ledger; nd_blocks : list BlockRecord; nd_disk : Disk }.

(** The end of [settle_confirmed] and of [mark_orphan]: the record goes to the log, the ledger is
    settled and flushed. The steps on the directory come with the state they leave. *)
Definition finish (nd : NodeState) (st : Reapply) (blocks : list BlockRecord) (r : option BlockRecord)
    : panics (NodeState * list DiskOp) :=
  let log := match r with Some r => [log_append r] | None => [] end in
  '(l, ops) ← flush (settle_legacy st) (run_ops (nd_disk nd) log);
  let ops := log ++ ops in
  Ret ({| nd_ledger := l; nd_blocks := blocks; nd_disk := run_ops (nd_disk nd) ops |}, ops).

Definition settle_confirmed (nd : NodeState) (hash : string) : panics (NodeState * list DiskOp) :=
  match update_block confirm_record (nd_ledger nd, [], 0) hash (nd_blocks nd) with
  | Some (st, blocks, r) => finish nd st blocks (Some r)
  | None => finish nd (nd_ledger nd, [], 0) (nd_blocks nd) None
  end.

Definition mark_orphan (nd : NodeState) (hash : string) : panics (NodeState * list DiskOp) :=
  match last_record hash (nd_blocks nd) with
  | None => Ret (nd, [])
  | Some r =>
      if is_orphan r then Ret (nd, []) else
      match update_block orphan_record (nd_ledger nd, [], 0) hash (nd_blocks nd) with
      | Some (st, blocks, r) => finish nd st blocks (Some r)
      | None => finish nd (nd_ledger nd, [], 0) (nd_blocks nd) None
      end
  end.

(** ** Looking at the chain *)

Definition ORPHAN_RECHECK_BLOCKS : Z := 100.

(** The blocks [confirm_blocks] asks the node about: the latest twenty that are not settled and
    not too old. *)
Fixpoint pending_blocks (n : nat) (tip_height : Z) (rev_blocks : list BlockRecord) : panics (list (string * Z)) :=
  match n, rev_blocks with
  | S n', b :: rest =>
      if br_settled b then pending_blocks n tip_height rest else
      until ← chk_add u32_max (br_height b)
                (if String.prefix "orphan" (br_kind b) then ORPHAN_RECHECK_BLOCKS else 2000);
      if tip_height <? until
      then more ← pending_blocks n' tip_height rest; Ret ((br_hash b, br_height b) :: more)
      else pending_blocks n tip_height rest
  | _, _ => Ret []
  end.

(** An answer to [getblockheader]: confirmations, no such block, or a failure to ask. *)
Inductive HeaderAnswer := Confirmations (n : Z) | NotFound | AskFailed.

Definition confirm_one (nd : NodeState) (tip_height : Z) (b : string * Z) (a : HeaderAnswer)
    : panics (NodeState * list DiskOp) :=
  match a with
  | Confirmations n =>
      if 0 <? n then settle_confirmed nd b.1
      else if n <? 0 then mark_orphan nd b.1 else Ret (nd, [])
  | NotFound => lost ← chk_add u32_max b.2 6; if lost <? tip_height then mark_orphan nd b.1 else Ret (nd, [])
  | AskFailed => Ret (nd, [])
  end.

Fixpoint confirm_each (nd : NodeState) (tip_height : Z) (header : string -> HeaderAnswer)
    (bs : list (string * Z)) : panics (NodeState * list DiskOp) :=
  match bs with
  | [] => Ret (nd, [])
  | b :: bs' =>
      '(nd, ops) ← confirm_one nd tip_height b (header b.1);
      '(nd, ops') ← confirm_each nd tip_height header bs';
      Ret (nd, ops ++ ops')
  end.

Definition confirm_blocks (nd : NodeState) (tip_height : Z) (header : string -> HeaderAnswer)
    : panics (NodeState * list DiskOp) :=
  bs ← pending_blocks 20 tip_height (rev (nd_blocks nd));
  confirm_each nd tip_height header bs.
End Life.

(** * Verdicts on a block *)

Definition says_invalid (outcome : string) : bool :=
  existsb (fun s => bool_decide (s = outcome))
    ["high-hash"; "bad-diffbits"; "bad-prevblk"; "bad-version"; "bad-cb-height"; "time-too-old";
     "time-too-new"; "duplicate-invalid"]%string.

Definition says_outdated_node (outcome : list Z) : bool :=
  starts_with (str_bytes "bad-txns-premature-spend-of-coinbase") (trim_str outcome).
