(* ===== verification/NodeProps.v ===== *)
(** The properties of a recorded block's life: its label says what it has on the books, and what
    a kill between the block log and the ledger's flush does to it. *)

From S2P Require Import Prelude Bytes Text Tides Split SplitFacts Window WindowFacts BalanceFacts MinersFacts.
From S2P Require Import Grace Ledger LedgerFacts BooksFacts Disk BlockLog Persist PersistFacts.
From S2P Require Import Handshake Pow State Node BlockLogProps PersistProps WindowProps LedgerProps.
Open Scope Z_scope.

(** * Labels *)

Lemma prefix_append p s : String.prefix p (p ++ s)%string = true.
Proof.
  induction p as [|c p IH]; [by destruct s|].
  change (String.prefix (String c p) (String c (String.append p s)) = true). cbn [String.prefix].
  destruct (Ascii.ascii_dec c c) as [_|n]; [exact IH | by destruct n].
Qed.

Lemma substring_all s : forall n, n = String.length s -> String.substring 0 n s = s.
Proof. induction s as [|c s IH]; intros n ->; [done|]. cbn. by rewrite IH. Qed.

Lemma substring_drop p s : String.substring (String.length p) (String.length (p ++ s) - String.length p) (p ++ s) = s.
Proof. induction p as [|c p IH]; [apply substring_all, Nat.sub_0_r | exact IH]. Qed.

Lemma strip_append p s : strip_prefix p (p ++ s) = Some s.
Proof. unfold strip_prefix. rewrite prefix_append. by rewrite substring_drop. Qed.

(** * Live books *)

Lemma debits_live_after w delta k : let k' := (book_debits w delta k).2 in
  debits_live k' = true /\ credits_live k' = credits_live k /\ (debits_live k = true -> k' = k).
Proof.
  unfold book_debits. destruct (debits_live k) eqn:E; [done|]. by destruct (foldl _ _ _) as [[w' d] s].
Qed.

Lemma credits_live_after w delta k : let k' := (book_credits w delta k).1.2 in
  credits_live k' = true /\ debits_live k' = debits_live k.
Proof.
  unfold book_credits. destruct (credits_live k) eqn:E; [done|]. by destruct (foldl _ _ _) as [[[w' c] d] ls].
Qed.

Lemma ledger_books_window l delta' k :
  let '(l', k') := ledger_book_debits l delta' k in (l_window l', k') = book_debits (l_window l) delta' k.
Proof. unfold ledger_book_debits, book_debits. destruct (debits_live k); [done|]. by destruct (foldl _ _ _) as [[w d] s]. Qed.

Lemma ledger_credits_window l delta' k :
  let '(l', k') := ledger_book_credits l delta' k in
  exists lines, book_credits (l_window l) delta' k = (l_window l', k', lines).
Proof.
  unfold ledger_book_credits, book_credits. destruct (credits_live k); [by eexists|].
  destruct (foldl _ _ _) as [[[w c] d] ls]. by eexists.
Qed.

(** * A block's life *)

(** What becomes of a block the pool found, as a specification: it waits for the chain, is in it,
    or is not. *)
Inductive Life := Waiting | Settled | Orphaned.

Definition life_of (r : BlockRecord) : Life :=
  if is_orphan r then Orphaned else if br_settled r then Settled else Waiting.

(** What a life has on the books: the debits from the start, the credits when settled. *)
Definition debits_on (x : Life) : bool := match x with Orphaned => false | _ => true end.
Definition credits_on (x : Life) : bool := match x with Settled => true | _ => false end.

Inductive life_moves : Life -> Life -> Prop :=
| moves_settled x y : y = Settled -> life_moves x y
| moves_orphaned x y : x <> Orphaned -> y = Orphaned -> life_moves x y.

(** What the poller does to the ledger and the record: confirm, or orphan once; each with room on
    the books for the block's amounts. *)
Inductive life_step : Ledger * BlockRecord -> Ledger * BlockRecord -> Prop :=
| life_confirm l r l' legacy rebate r' :
    room (l_window l) (length (br_carry_delta r)) (volume (br_carry_delta r)) ->
    (forall k, br_books r = Some k ->
       let w := (book_debits (l_window l) (br_carry_delta r) k).1 in
       room w (length (br_carry_delta r)) (volume (br_carry_delta r))) ->
    confirm_record (l, [], 0) r = ((l', legacy, rebate), r') -> life_step (l, r) (l', r')
| life_orphan l r l' legacy rebate r' :
    is_orphan r = false ->
    (forall k, br_books r = Some k -> stock (l_window l) + on_books k <= i64_max) ->
    orphan_record (l, [], 0) r = ((l', legacy, rebate), r') -> life_step (l, r) (l', r').

Section OneBlock.
Context (w0 : Window) (delta : list (string * Z)) (oc df : Z) (kind0 : string).
Hypothesis OK : window_ok w0.
Hypothesis owed_nonneg : 0 <= oc.
Hypothesis deferred_nonneg : 0 <= df.
Hypothesis kind_plain : String.prefix ORPHAN kind0 = false.

(** A record that stands for its life: the label, the kind under it, and the books. *)
Record stands (l : Ledger) (r : BlockRecord) : Prop := {
  st_delta : br_carry_delta r = delta;
  st_kind : br_kind r = (if is_orphan r then (ORPHAN ++ kind0)%string else kind0);
  st_settled : is_orphan r = true -> br_settled r = false;
  st_books : exists k, br_books r = Some k /\ booked_at delta w0 (l_window l, k) /\
    debits_live k = debits_on (life_of r) /\ credits_live k = credits_on (life_of r)
}.

Lemma kind_prefixed : String.prefix ORPHAN (ORPHAN ++ kind0)%string = true.
Proof using. apply prefix_append. Qed.

Lemma confirm_stands l r l' legacy rebate r' : stands l r ->
  room (l_window l) (length delta) (volume delta) ->
  (forall k, br_books r = Some k -> room (book_debits (l_window l) delta k).1 (length delta) (volume delta)) ->
  confirm_record (l, [], 0) r = ((l', legacy, rebate), r') ->
  stands l' r' /\ life_of r' = Settled /\ legacy = [] /\ rebate = 0.
Proof using OK owed_nonneg deferred_nonneg kind_plain.
  intros [S1 S2 S3 (k & Hk & B & Hd & Hc)] R1 R2 H. unfold confirm_record in H. rewrite Hk, S1 in H.
  pose proof (ledger_books_window l delta k) as D. destruct (ledger_book_debits l delta k) as [l1 k1].
  pose proof (booked_debits delta w0 _ _ B R1) as B1. specialize (R2 k Hk). rewrite <- D in B1, R2. cbn [fst] in R2.
  pose proof (ledger_credits_window l1 delta k1) as C. destruct (ledger_book_credits l1 delta k1) as [l2 k2].
  destruct C as [lines C]. destruct (debits_live_after (l_window l) delta k) as (Hd1 & _).
  destruct (credits_live_after (l_window l1) delta k1) as (Hc2 & Hd2). rewrite C in Hc2, Hd2. rewrite <- D in Hd1.
  cbn [fst snd] in Hd1, Hc2, Hd2. rewrite Hd1 in Hd2.
  pose proof (booked_credits delta w0 _ _ _ _ _ B1 Hd1 R2 C) as B2.
  injection H as <- <- <- <-.
  assert (Hkind : match strip_prefix ORPHAN (br_kind r) with Some x => x | None => br_kind r end = kind0).
  { rewrite S2. destruct (is_orphan r); [by rewrite strip_append|]. unfold strip_prefix. by rewrite kind_plain. }
  rewrite Hkind. assert (Ho : is_orphan (relabelled r kind0 (Some k2) true) = false) by done.
  assert (Hlife : life_of (relabelled r kind0 (Some k2) true) = Settled) by (unfold life_of; by rewrite Ho).
  conjs; [|done|done|done]. constructor; rewrite ?Ho; [done | done | done |]. exists k2. rewrite Hlife. done.
Qed.

Lemma orphan_stands l r l' legacy rebate r' : stands l r -> is_orphan r = false ->
  (forall k, br_books r = Some k -> stock (l_window l) + on_books k <= i64_max) ->
  orphan_record (l, [], 0) r = ((l', legacy, rebate), r') ->
  stands l' r' /\ life_of r' = Orphaned /\ legacy = [] /\ rebate = 0.
Proof using OK owed_nonneg deferred_nonneg kind_plain.
  intros [S1 S2 S3 (k & Hk & B & Hd & Hc)] Ho R H. unfold orphan_record in H. rewrite Hk in H.
  destruct (ledger_unbook l k) as [[l1 k1] short] eqn:E. injection H as <- <- <- <-.
  unfold ledger_unbook in E. destruct (unbook (l_window l) k) as [[w1 k1'] short'] eqn:Eu. injection E as <- <- <-.
  destruct (booked_unbook delta w0 _ _ _ _ _ B OK (R k Hk) Eu) as [B1 _].
  assert (Hl : debits_live k1' = false /\ credits_live k1' = false).
  { clear -Eu Hd Hc B. unfold unbook in Eu. pose proof (ba_order _ _ _ B) as Hord. cbn [snd] in Hord.
    destruct (credits_live k) eqn:Ec.
    - rewrite (Hord eq_refl) in Eu. destruct (foldl unbook_credit _ _). cbn [debits_live] in Eu. injection Eu as _ <- _. done.
    - destruct (debits_live k) eqn:Ed; injection Eu as _ <- _; done. }
  rewrite Ho in S2. rewrite S2.
  assert (Hor : is_orphan (relabelled r (ORPHAN ++ kind0) (Some k1') false) = true) by apply kind_prefixed.
  assert (Hlife : life_of (relabelled r (ORPHAN ++ kind0) (Some k1') false) = Orphaned) by (unfold life_of; by rewrite Hor).
  conjs; [|done|done|done]. constructor; rewrite ?Hor; [done | done | done |]. exists k1'. rewrite Hlife.
  destruct Hl. done.
Qed.

Lemma life_stands st st' : rtc life_step st st' -> stands st.1 st.2 ->
  stands st'.1 st'.2 /\ rtc life_moves (life_of st.2) (life_of st'.2).
Proof using OK owed_nonneg deferred_nonneg kind_plain.
  induction 1 as [|s1 s2 s3 S _ IH]; [done|]. intros H.
  assert (stands s2.1 s2.2 /\ life_moves (life_of s1.2) (life_of s2.2)) as [H2 M].
  { inversion S; subst; cbn [fst snd] in *.
    - pose proof (st_delta _ _ H) as Hdel. rewrite Hdel in *.
      match goal with E : confirm_record _ _ = _ |- _ => eapply confirm_stands in E as (? & E & _); [|done..] end.
      split; [done|]. by constructor.
    - match goal with E : orphan_record _ _ = _ |- _ => eapply orphan_stands in E as (? & E & _); [|done..] end.
      split; [done|]. constructor; [|done]. unfold life_of. destr_if; [congruence|]. by destr_if. }
  destruct (IH H2) as [H3 Ms]. split; [done|]. by econstructor.
Qed.
End OneBlock.

Lemma block_life w0 delta oc df kind0 l r l' r' k :
  window_ok w0 -> 0 <= oc -> 0 <= df -> String.prefix ORPHAN kind0 = false ->
  room w0 (length delta) (volume delta) ->
  br_carry_delta r = delta -> br_kind r = kind0 -> br_settled r = false -> br_books r = Some k ->
  (l_window l, k) = book_debits w0 delta (books_new oc df) ->
  rtc life_step (l, r) (l', r') ->
  rtc life_moves Waiting (life_of r') /\
  br_kind r' = (match life_of r' with Orphaned => ORPHAN ++ kind0 | _ => kind0 end)%string /\
  (forall s, net (l_window l') s = net w0 s
    + (if debits_on (life_of r') then entries_of s (debits_in delta) else 0)
    + (if credits_on (life_of r') then entries_of s (credits_in delta) else 0)) /\
  window_ok (l_window l').
Proof.
  intros OK Hoc Hdf Hk R Hdel Hkind Hset Hb Hl Hs.
  assert (Ho : is_orphan r = false) by (unfold is_orphan; by rewrite Hkind).
  assert (Hw : life_of r = Waiting) by (unfold life_of; by rewrite Ho, Hset).
  pose proof (booked_debits delta w0 w0 (books_new oc df) (booked_new delta w0 oc df OK Hoc Hdf) R) as B.
  rewrite <- Hl in B.
  destruct (debits_live_after w0 delta (books_new oc df)) as (Hd & Hc & _). rewrite <- Hl in Hd, Hc. cbn [snd] in Hd, Hc.
  assert (S : stands w0 delta kind0 l r).
  { constructor; rewrite ?Ho; [done | done | done |]. exists k. rewrite Hw. done. }
  destruct (life_stands w0 delta oc df kind0 OK Hoc Hdf Hk (l, r) (l', r') Hs S) as [[T1 T2 _ (k' & _ & B' & Hd' & Hc')] M].
  cbn [fst snd] in *. rewrite Hw in M. split; [done|]. split; [|split].
  - rewrite T2. unfold life_of. destruct (is_orphan r'); [done|]. by destr_if.
  - intros s. pose proof (ba_net _ _ _ B' s) as N. cbn [fst snd] in N. rewrite Hd', Hc' in N. exact N.
  - apply B'.
Qed.

(** However often the chain takes a found block in and throws it out again, its record is one of
    three things and its label says which: under the kind it was found with, waiting or settled, or
    under that kind with one [orphan:] before it, never more. And the books follow the label, for
    every identity: the block's debits are on them unless it is an orphan, its credits only when it
    is settled, and nothing else of it ever is. *)
Theorem block_life_refines w0 delta oc df kind0 l r l' r' k :
  window_ok w0 -> 0 <= oc -> 0 <= df -> String.prefix ORPHAN kind0 = false ->
  room w0 (length delta) (volume delta) ->
  br_carry_delta r = delta -> br_kind r = kind0 -> br_settled r = false -> br_books r = Some k ->
  (l_window l, k) = book_debits w0 delta (books_new oc df) ->
  rtc life_step (l, r) (l', r') ->
  rtc life_moves Waiting (life_of r') /\
  br_kind r' = (match life_of r' with Orphaned => ORPHAN ++ kind0 | _ => kind0 end)%string /\
  (forall s, net (l_window l') s = net w0 s
    + (if debits_on (life_of r') then entries_of s (debits_in delta) else 0)
    + (if credits_on (life_of r') then entries_of s (credits_in delta) else 0)) /\
  window_ok (l_window l').
Proof. apply block_life. Qed.

(** * The log and the ledger *)

Section Kill.
Context `{BlockJson} `{MetaJson}.
Context {LB : BlockJsonLaws} {LM : MetaJsonLaws}.

(** A directory at rest: the files hold the ledger, and the log one record. *)
Record at_rest (l : Ledger) (m : Meta) (d : Disk) (r : BlockRecord) : Prop := {
  ar_files : files_ok l;
  ar_rows : credits_out l = credits (l_window l);
  ar_written : all_written l d;
  ar_main : main_whole d m;
  ar_meta : describes m l;
  ar_slid : slid (target_work (l_window l)) (credits (l_window l)) (credits (l_window l));
  ar_log : contents d BLOCKS = block_line r
}.

Lemma log_leaves_ledger d r n : n <> BLOCKS -> run_op d (log_append r) !! n = d !! n.
Proof using. intros Hn. cbn [run_op log_append]. by rewrite lookup_insert_ne. Qed.

Lemma latest_of_two r r' out : br_hash r' = br_hash r -> latest_of [r; r'] out -> out = [r'].
Proof using.
  intros Hh [E F]. unfold first_seen in E. cbn in E.
  rewrite Hh in E. rewrite decide_True in E by apply list_elem_of_here.
  destruct out as [|x [|y out]]; try discriminate E. injection E as E. apply Forall_cons in F as [F _].
  rewrite !filter_cons, filter_nil, E, Hh, !decide_True in F by done. by injection F as ->.
Qed.

(** A kill when the record is in the log and the flush has not begun: the restart reads the new
    record beside the ledger of before. *)
Lemma kill_after_log l m d r r' : at_rest l m d r -> br_hash r' = br_hash r ->
  let d' := run_op d (log_append r') in
  read_all d' = [r'] /\ exists ops l', open_ledger d' = Ret (ops, Ok l') /\ same_ledger l l'.
Proof using LB LM.
  intros [A1 A2 [A3 A3'] A4 A5 A6 A7] Hh d'. split.
  - apply (latest_of_two r); [done|]. pose proof (read_all_latest d') as X. unfold d' in X at 1.
    cbn [run_op log_append] in X. rewrite contents_insert, A7, records_app, !records_line in X; [exact X|].
    right. unfold block_line. by eexists.
  - assert (W : all_written l d') by (split; unfold contents, d'; rewrite log_leaves_ledger by done; done).
    assert (M : main_whole d' m) by (unfold main_whole, d'; rewrite !log_leaves_ledger by done; exact A4).
    destruct (reopen_same l m d' A1 A2 W M A5 A6) as (ops & l' & E & S & _). by exists ops, l'.
Qed.

Lemma reconcile_nothing l r :
  (forall k, br_books r = Some k -> debits_live k = false \/ br_hash r ∈ applied_debits l) ->
  reconcile_debits l [r] = l.
Proof using.
  intros Hk. unfold reconcile_debits. destr_if; [|done]. cbn [foldl]. unfold reconcile_one.
  destruct (br_books r) as [k|]; [|done]. destruct (Hk k eq_refl) as [-> | E]; [done|].
  by rewrite bool_decide_eq_true_2, orb_true_r.
Qed.

(** A block is settled in its log before the ledger that pays for it is flushed, and nothing
    reconciles the two: a Prime killed between them starts with the block settled and its credits
    recorded as given, the balances of before, no debit left to re-apply, and no block left to ask
    the node about. What the block earned people is on no book again. *)
Theorem kill_after_confirm_loses_credits l m d r k nd' ops :
  at_rest l m d r -> br_books r = Some k -> debits_live k = true -> br_hash r ∈ applied_debits l ->
  settle_confirmed {| nd_ledger := l; nd_blocks := [r]; nd_disk := d |} (br_hash r) = Ret (nd', ops) ->
  exists d' r' k' ops' l', crashes d ops d' /\ nd_blocks nd' = [r'] /\ read_all d' = [r'] /\
    br_books r' = Some k' /\ credits_live k' = true /\
    open_ledger d' = Ret (ops', Ok l') /\ same_ledger l l' /\ reconcile_debits l' [r'] = l' /\
    forall tip, pending_blocks 20 tip [r'] = Ret [].
Proof using LB LM.
  intros A Hb Hd Hin E. unfold settle_confirmed, update_block in E. cbn [nd_ledger nd_blocks nd_disk rev app update_first] in E.
  rewrite bool_decide_eq_true_2 in E by done. unfold confirm_record in E. rewrite Hb in E.
  destruct (ledger_book_debits l (br_carry_delta r) k) as [l1 k1] eqn:Ed.
  pose proof (ledger_books_window l (br_carry_delta r) k) as D. rewrite Ed in D.
  destruct (debits_live_after (l_window l) (br_carry_delta r) k) as (_ & _ & Hk). rewrite <- D in Hk. specialize (Hk Hd). cbn in Hk. subst k1.
  destruct (ledger_book_credits l1 (br_carry_delta r) k) as [l2 k2] eqn:Ec.
  pose proof (ledger_credits_window l1 (br_carry_delta r) k) as C. rewrite Ec in C. destruct C as [lines C].
  destruct (credits_live_after (l_window l1) (br_carry_delta r) k) as (Hc & _). rewrite C in Hc. cbn in Hc.
  set (r' := relabelled r _ (Some k2) true) in *.
  unfold finish in E. apply bind_Ret_inv in E as ([lf ops2] & _ & E). cbn [rev app] in E. injection E as <- <-.
  destruct (kill_after_log l m d r r' A eq_refl) as (Hr & ops' & l' & Eo & S).
  exists (run_op d (log_append r')), r', k2, ops', l'. split; [right; apply crashes_start|].
  conjs; try done. apply reconcile_nothing. intros k0 _. right. by rewrite (proj1 (sl_debits _ _ S)).
Qed.
End Kill.

(** * Witnesses *)

(** A block that pays bob out of his carry and defers an earning of carol's. *)
Definition demo_found (books : option Books) (delta : list (string * Z)) : BlockRecord := {|
  br_ts := 1; br_height := 2; br_hash := "00cc"; br_finder := None; br_coinbase_value := 5; br_kind := "split";
  br_owed_sats := 0; br_split := []; br_pool_sats := 0; br_carry_paid := 9; br_carry_delta := delta;
  br_rebate_credited := 0; br_rebate_delta := 0; br_settled := false; br_submit := "pending";
  br_gateway := "gw"; br_books := books; br_carry_shortfall_sats := 0; br_carry_reserved_sats := 0 |}.

Definition demo_on_ledger (w : Window) : Ledger := {|
  l_window := w; credits_out := []; idents_out := []; rows_on_disk := 0; dirty := false;
  applied_debits := ∅; debits_tracked := true; l_grace := grace_empty; grace_loaded := false |}.

Definition demo_waiting : Ledger * BlockRecord :=
  (demo_on_ledger demo_booked.1, demo_found (Some demo_booked.2) demo_delta).
Definition demo_settled : Ledger * BlockRecord :=
  let '(l, _, _, r) := confirm_record (demo_waiting.1, [], 0) demo_waiting.2 in (l, r).
Definition demo_orphaned : Ledger * BlockRecord :=
  let '(l, _, _, r) := orphan_record (demo_settled.1, [], 0) demo_settled.2 in (l, r).

Lemma demo_life : rtc life_step (demo_waiting.1, demo_waiting.2) (demo_orphaned.1, demo_orphaned.2).
Proof.
  apply (rtc_l _ _ (demo_settled.1, demo_settled.2)); [|apply rtc_once].
  - apply (life_confirm demo_waiting.1 demo_waiting.2 demo_settled.1 [] 0 demo_settled.2).
    + split; vm_compute; discriminate.
    + change (br_books demo_waiting.2) with (Some demo_booked.2).
      intros k Hk. apply Some_inj in Hk as <-. split; vm_compute; discriminate.
    + vm_compute. reflexivity.
  - apply (life_orphan demo_settled.1 demo_settled.2 demo_orphaned.1 [] 0 demo_orphaned.2).
    + vm_compute. reflexivity.
    + assert (X : match br_books demo_settled.2 with
        | Some k => stock (l_window demo_settled.1) + on_books k <=? i64_max | None => true end = true)
        by (vm_compute; reflexivity).
      intros k Hk. rewrite Hk in X. by apply Z.leb_le.
    + vm_compute. reflexivity.
Qed.

Lemma block_life_refines_witness :
  life_of demo_orphaned.2 = Orphaned /\
  (forall s, net (l_window demo_orphaned.1) s = net demo_window s + 0 + 0).
Proof.
  assert (Hl : life_of demo_orphaned.2 = Orphaned) by (vm_compute; reflexivity).
  split; [exact Hl|].
  destruct (block_life_refines demo_window demo_delta 0 0 "split" demo_waiting.1 demo_waiting.2
    demo_orphaned.1 demo_orphaned.2 demo_booked.2 demo_window_ok (Z.le_refl 0) (Z.le_refl 0) eq_refl demo_room
    eq_refl eq_refl eq_refl eq_refl (eq_sym (surjective_pairing demo_booked)) demo_life) as (_ & _ & H & _).
  rewrite Hl in H. exact H.
Defined.

Definition demo_debited : Books := {|
  bk_owed_credited := 0; bk_deferred := 0; debits_live := true; debited := [("bc1qa", 9)];
  rebate_debited := 0; credits_live := false; credited_sats := []; rebate_added := 0; shortfall := [];
  debt_paid := [] |}.
Definition demo_pending : BlockRecord := demo_found (Some demo_debited) [("bc1qa", 40)].
Definition demo_applied : Ledger := with_applied demo_ledger {["00cc"]}.
Definition demo_rest_steps : list DiskOp :=
  match @flush toy_meta_json demo_applied ∅ with Ret (_, ops) => ops | Panic => [] end.
Definition demo_rest : Disk := run_op (run_ops ∅ demo_rest_steps) (@log_append toy_block_json demo_pending).

Lemma demo_at_rest : exists m, @at_rest toy_block_json toy_meta_json (flushed demo_applied) m demo_rest demo_pending.
Proof.
  assert (F : files_ok demo_applied) by (destruct demo_ledger_ok; by constructor).
  destruct (@demo_recoverable toy_meta_json) as [(_ & P & L & D) M].
  assert (R : @recoverable toy_meta_json demo_applied 0 meta_default ∅) by (split; [exact F|]; split; [by destruct P; constructor|]; split; [exact L | exact D]).
  destruct (@flush_crash_ok toy_meta_json toy_meta_laws demo_applied 0 meta_default ∅ R M eq_refl)
    as (l' & ops & m & E & Ds & Hl & _ & W & Mw).
  assert (Ho : demo_rest_steps = ops) by (unfold demo_rest_steps; by rewrite E).
  exists m. unfold demo_rest. rewrite Ho. constructor.
  - by apply flushed_ok.
  - vm_compute. reflexivity.
  - destruct W as [W1 W2]. split; unfold contents; rewrite log_leaves_ledger by done; destruct Hl as [-> | ->]; done.
  - unfold main_whole. rewrite !log_leaves_ledger by done. exact Mw.
  - destruct Ds. by constructor.
  - reflexivity.
  - cbn [run_op log_append]. rewrite contents_insert. rewrite <- Ho.
    assert (Hc : contents (run_ops ∅ demo_rest_steps) BLOCKS = []) by (vm_compute; reflexivity). by rewrite Hc.
Qed.

Lemma kill_after_confirm_loses_credits_witness :
  exists nd' ops d' r' l' ops', @settle_confirmed toy_block_json toy_meta_json
    {| nd_ledger := flushed demo_applied; nd_blocks := [demo_pending]; nd_disk := demo_rest |} "00cc" = Ret (nd', ops) /\
  carry_of (l_window (nd_ledger nd')) "bc1qa" = 40 /\
  crashes demo_rest ops d' /\ @read_all toy_block_json d' = [r'] /\
  @open_ledger toy_meta_json d' = Ret (ops', Ok l') /\ carry_of (l_window (reconcile_debits l' [r'])) "bc1qa" = 0.
Proof.
  destruct demo_at_rest as [m A].
  destruct (@settle_confirmed toy_block_json toy_meta_json
    {| nd_ledger := flushed demo_applied; nd_blocks := [demo_pending]; nd_disk := demo_rest |} "00cc") as [[nd' ops]|] eqn:E.
  - destruct (@kill_after_confirm_loses_credits toy_block_json toy_meta_json toy_block_laws toy_meta_laws
      (flushed demo_applied) m demo_rest demo_pending demo_debited nd' ops A eq_refl eq_refl) as
      (d' & r' & k' & ops' & l' & H1 & _ & H3 & _ & _ & H6 & H7 & H8 & _); [change ("00cc" ∈@{gset string} {["00cc"]}); by apply elem_of_singleton_2 | exact E |].
    exists nd', ops, d', r', l', ops'. split; [reflexivity|]. split.
    + assert (X : match @settle_confirmed toy_block_json toy_meta_json
        {| nd_ledger := flushed demo_applied; nd_blocks := [demo_pending]; nd_disk := demo_rest |} "00cc" with
        | Ret (n, _) => carry_of (l_window (nd_ledger n)) "bc1qa" | Panic => 0 end = 40) by (vm_compute; reflexivity).
      rewrite E in X. exact X.
    + conjs; [exact H1 | exact H3 | exact H6 |]. rewrite H8, (sl_carry _ _ H7). by vm_compute.
  - exfalso. assert (X : match @settle_confirmed toy_block_json toy_meta_json
        {| nd_ledger := flushed demo_applied; nd_blocks := [demo_pending]; nd_disk := demo_rest |} "00cc" with
        | Ret _ => true | Panic => false end = true) by (vm_compute; reflexivity).
    rewrite E in X. discriminate X.
Defined.
