(* ===== verification/Validity.v ===== *)
(** Work that can never become a valid block ([prime/primed/src/validity.rs]): what our node says
    of the parents gateways build on, and the gateways whose templates it found invalid.

    Instants are in nanoseconds, [since_ts] in unix seconds; what the node answers is an argument. *)

From S2P Require Import Prelude Bytes Text Handshake Pow State.
Open Scope Z_scope.

(** * Parents *)

Definition PARENT_GRACE : Z := secs 30.
Definition PARENT_RECHECK : Z := secs 10.
Definition PARENT_MAX : nat := 4096.
Definition PARENT_KEEP : Z := secs (6 * 3600).

Inductive ParentState := PUnknown | PKnown | PUnseen | PInvalid.
#[export] Instance ParentState_eq_dec : EqDecision ParentState.
Proof. solve_decision. Defined.

Record ParentEntry := { pe_state : ParentState; pe_first_seen : Z; pe_asked : option Z }.

Inductive ParentVerdict := VTake | VInvalid | VUnseen.
#[export] Instance ParentVerdict_eq_dec : EqDecision ParentVerdict.
Proof. solve_decision. Defined.

Abbreviation ParentBook := (gmap Hash ParentEntry).

(** [verdict]. *)
Definition verdict (e : ParentEntry) (at_ : Z) : ParentVerdict :=
  match pe_state e with
  | PInvalid => VInvalid
  | PUnseen => if PARENT_GRACE <=? elapsed at_ (pe_first_seen e) then VUnseen else VTake
  | _ => VTake
  end.

(** The clearing out at the start of [ParentBook::lookup]. *)
Definition make_room_for (b : ParentBook) (prev : Hash) (at_ : Z) : ParentBook :=
  if (PARENT_MAX <=? size b)%nat && negb (bool_decide (is_Some (b !! prev))) then
    let b := filter (fun e => elapsed at_ (pe_first_seen e.2) < PARENT_KEEP) b in
    if (PARENT_MAX <=? size b)%nat then ∅ else b
  else b.

(** [ParentBook::lookup]: the verdict from what is known, and whether the node is to be asked. *)
Definition parent_lookup (b : ParentBook) (prev : Hash) (at_ : Z) : ParentBook * ParentVerdict * bool :=
  let b := make_room_for b prev at_ in
  let e := default {| pe_state := PUnknown; pe_first_seen := at_; pe_asked := None |} (b !! prev) in
  let ask := negb (bool_decide (pe_state e = PInvalid))
             && match pe_asked e with Some t => PARENT_RECHECK <=? elapsed at_ t | None => true end in
  let e := if ask then {| pe_state := pe_state e; pe_first_seen := pe_first_seen e; pe_asked := Some at_ |} else e in
  (<[prev := e]> b, verdict e at_, ask).

(** [ParentBook::record]. *)
Definition parent_record (b : ParentBook) (prev : Hash) (state : ParentState) (at_ : Z) : ParentBook * ParentVerdict :=
  let e := default {| pe_state := state; pe_first_seen := at_; pe_asked := Some at_ |} (b !! prev) in
  let e := if negb (bool_decide (pe_state e = PInvalid)) && negb (bool_decide (state = PUnknown))
           then {| pe_state := state; pe_first_seen := pe_first_seen e; pe_asked := pe_asked e |} else e in
  (<[prev := e]> b, verdict e at_).

(** What the node answered to [getblockheader], and to [getchaintips] when it has the block. *)
Inductive ParentAnswer := HasBlock (tips : option (list (string * string))) | NoBlock | NoAnswer.

Definition parent_state (hash : string) (a : ParentAnswer) : ParentState :=
  match a with
  | HasBlock (Some tips) =>
      if existsb (fun t => bool_decide (t.1 = hash) && bool_decide (t.2 = "invalid"%string)) tips
      then PInvalid else PKnown
  | HasBlock None => PKnown
  | NoBlock => PUnseen
  | NoAnswer => PUnknown
  end.

(** [parent_verdict], with nobody else between its two steps. *)
Definition parent_verdict (b : ParentBook) (prev : Hash) (hash : string) (at_ : Z) (a : ParentAnswer)
    : ParentBook * ParentVerdict :=
  let '(b, known, ask) := parent_lookup b prev at_ in
  if negb ask then (b, known) else parent_record b prev (parent_state hash a) at_.

(** * Templates *)

(** [template_fault] and [faults_at_once]. *)
Definition template_fault (reason : list Z) : bool :=
  let reason := trim_str reason in
  starts_with (str_bytes "bad-txns-") reason || bool_decide (reason = str_bytes "bad-blk-sigops").
Definition faults_at_once (reason : list Z) : bool :=
  starts_with (str_bytes "bad-txns-premature-spend-of-coinbase") (trim_str reason).

(** [job_token]. *)
Definition job_token (job_id height : Z) : Z := Z.lor (Z.shiftl job_id 24) (Z.land height 0x00ffffff).

Record Fault := { f_reason : list Z; f_height : Z; since_ts : Z; found_by : string }.

(** [ttl_secs] of 0 is no expiry. *)
Record Faults := { by_key : gmap string Fault; fails : gmap string Z; ttl_secs : Z }.

Definition faults_with_ttl (ttl : Z) : Faults := {| by_key := ∅; fails := ∅; ttl_secs := ttl |}.
Definition ttl (f : Faults) : Z := if ttl_secs f =? 0 then u64_max else ttl_secs f.

(** [Faults::get_at], and [Faults::get] at the time [now]. An expired fault is dropped as it is
    read. *)
Definition fault_expired (ttl at_ : Z) (e : Fault) : bool := (ttl <? u64_max) && (ttl <=? sat_sub at_ (since_ts e)).
Definition fault_get (f : Faults) (key : string) (now : Z) : Faults * option Fault :=
  match by_key f !! key with
  | Some e => if fault_expired (ttl f) now e
              then ({| by_key := delete key (by_key f); fails := fails f; ttl_secs := ttl_secs f |}, None)
              else (f, Some e)
  | None => (f, None)
  end.

(** [Faults::set_at]; true if the key was not marked before. *)
Definition fault_set (f : Faults) (key : string) (reason : list Z) (height : Z) (by_ : string) (now : Z) : Faults * bool :=
  ({| by_key := <[key := {| f_reason := reason; f_height := height; since_ts := now; found_by := by_ |}]> (by_key f);
      fails := delete key (fails f); ttl_secs := ttl_secs f |},
   bool_decide (by_key f !! key = None)).

(** [Faults::note_fail]. *)
Definition note_fail (f : Faults) (key : string) (reason : list Z) (job height : Z) (by_ : string) (now : Z)
    : Faults * bool :=
  let '(f, live) := fault_get f key now in
  if bool_decide (is_Some live) || faults_at_once reason then fault_set f key reason height by_ now else
  match fails f !! key with
  | Some prev => if negb (prev =? job) then fault_set f key reason height by_ now else (f, false)
  | None => ({| by_key := by_key f; fails := <[key := job]> (fails f); ttl_secs := ttl_secs f |}, false)
  end.

(** [Faults::clear]. *)
Definition fault_clear (f : Faults) (key : string) : Faults * option Fault :=
  ({| by_key := delete key (by_key f); fails := delete key (fails f); ttl_secs := ttl_secs f |}, by_key f !! key).

(** [Faults::all_at] drops what has expired. *)
Definition faults_live (f : Faults) (now : Z) : Faults :=
  {| by_key := if ttl f <? u64_max then filter (fun e => sat_sub now (since_ts e.2) < ttl f) (by_key f) else by_key f;
     fails := fails f; ttl_secs := ttl_secs f |}.

Definition quarantine_has_lapsed (until now : Z) : bool := until <=? now.
