(* ===== verification/ValidityProps.v ===== *)
(** Nobody's work is refused on a guess: a parent is refused on what the node said of it and after
    its grace, a gateway is faulted on proof or on two failing jobs in a row. *)

From S2P Require Import Prelude Bytes Text Handshake Pow State Validity.
Open Scope Z_scope.

(** * What happened last *)

(** In the history, oldest first, something satisfying [P] happened and nothing satisfying [Q]
    has since. *)
Definition standing {A} (P Q : A -> Prop) (es : list A) : Prop :=
  exists old e later, es = old ++ e :: later /\ P e /\ Forall (fun x => ~ Q x) later.

Lemma standing_last {A} (P Q : A -> Prop) es e : P e -> standing P Q (es ++ [e]).
Proof. intros HP. by exists es, e, []. Qed.

Lemma standing_snoc {A} (P Q : A -> Prop) es e : standing P Q es -> ~ Q e -> standing P Q (es ++ [e]).
Proof.
  intros (old & x & later & -> & HP & HQ) Hn. exists old, x, (later ++ [e]). rewrite <- app_assoc.
  split; [done|]. split; [done|]. apply Forall_app. by split; [|constructor].
Qed.

(** * Parents *)

Inductive ParentEvent := Looked (prev : Hash) (at_ : Z) | Answered (prev : Hash) (s : ParentState) (at_ : Z).

Definition about (e : ParentEvent) : Hash := match e with Looked p _ | Answered p _ _ => p end.
Definition when (e : ParentEvent) : Z := match e with Looked _ t | Answered _ _ t => t end.
Definition said (prev : Hash) (s : ParentState) (e : ParentEvent) : Prop :=
  match e with Answered p s' _ => p = prev /\ s' = s | _ => False end.

Definition parent_step (b : ParentBook) (e : ParentEvent) : ParentBook * ParentVerdict :=
  match e with
  | Looked p t => let '(b, v, _) := parent_lookup b p t in (b, v)
  | Answered p s t => parent_record b p s t
  end.
Definition parent_run (es : list ParentEvent) : ParentBook := foldl (fun b e => (parent_step b e).1) ∅ es.

(** What an entry stands for in the history. *)
Record entry_of (es : list ParentEvent) (prev : Hash) (e : ParentEntry) : Prop := {
  eo_first : exists x, x ∈ es /\ about x = prev /\ when x = pe_first_seen e;
  eo_invalid : pe_state e = PInvalid -> exists x, x ∈ es /\ said prev PInvalid x;
  eo_unseen : pe_state e = PUnseen -> standing (said prev PUnseen) (said prev PKnown) es
}.

Definition book_of (es : list ParentEvent) (b : gmap Hash ParentEntry) : Prop :=
  forall prev e, b !! prev = Some e -> entry_of es prev e.

Lemma said_known_not prev s x : said prev s x -> s <> PKnown -> ~ said prev PKnown x.
Proof. destruct x as [|p s' t]; [done|]. cbn. intros [_ ->] Hs [_ ?]. by apply Hs. Qed.

Lemma entry_later es prev e x : entry_of es prev e -> ~ said prev PKnown x -> entry_of (es ++ [x]) prev e.
Proof.
  intros [(y & Hy & E1 & E2) E3 E4] Hx. constructor.
  - exists y. rewrite elem_of_app. auto.
  - intros Hi. destruct (E3 Hi) as (z & Hz & Hs). exists z. rewrite elem_of_app. auto.
  - intros Hu. apply standing_snoc; auto.
Qed.

Lemma entry_other es prev e x : entry_of es prev e -> about x <> prev -> entry_of (es ++ [x]) prev e.
Proof. intros He Hx. apply entry_later; [done|]. destruct x; cbn in *; naive_solver. Qed.

Lemma room_subset b prev t : make_room_for b prev t ⊆ b.
Proof.
  unfold make_room_for. destr_if; [|done]. cbv zeta. destr_if; [apply map_empty_subseteq | apply map_filter_subseteq].
Qed.

(** The book after an event, and the entry its verdict is read off. *)
Lemma parent_step_ok es b x : book_of es b -> exists e,
  (parent_step b x).1 !! about x = Some e /\ (parent_step b x).2 = verdict e (when x) /\
  book_of (es ++ [x]) (parent_step b x).1.
Proof.
  intros B.
  assert (Hput : forall (b' : gmap Hash ParentEntry) e, (forall p e, p <> about x -> b' !! p = Some e -> b !! p = Some e) ->
    entry_of (es ++ [x]) (about x) e -> book_of (es ++ [x]) (<[about x := e]> b')).
  { intros b' e Hb He p e' Hp. destruct (decide (about x = p)) as [<-|Hne].
    - rewrite lookup_insert_eq in Hp. by injection Hp as <-.
    - rewrite lookup_insert_ne in Hp by done. apply entry_other; [|done]. apply B. by apply Hb. }
  destruct x as [p t | p s t]; cbn [parent_step about when].
  - unfold parent_lookup. cbv zeta. eexists. cbn [fst snd]. rewrite lookup_insert_eq. split; [done|]. split; [done|].
    apply Hput; [intros q e _ Hq; by eapply lookup_weaken, room_subset|].
    assert (He : entry_of (es ++ [Looked p t]) p (default {| pe_state := PUnknown; pe_first_seen := t; pe_asked := None |}
      (make_room_for b p t !! p))).
    { destruct (make_room_for b p t !! p) as [e|] eqn:E; cbn.
      - apply entry_later; [|by intros []]. apply B. by eapply lookup_weaken, room_subset.
      - constructor; try done. exists (Looked p t). split; [|done]. apply elem_of_app. right. by left. }
    destruct He as [H1 H2 H3]. destr_if; by constructor.
  - unfold parent_record. cbv zeta. eexists. cbn [fst snd]. rewrite lookup_insert_eq. split; [done|]. split; [done|].
    apply Hput; [done|]. cbn [about].
    assert (Hin : Answered p s t ∈ es ++ [Answered p s t]) by (apply elem_of_app; right; by left).
    assert (Hnew : forall f a, (exists y, y ∈ es ++ [Answered p s t] /\ about y = p /\ when y = f) ->
      entry_of (es ++ [Answered p s t]) p {| pe_state := s; pe_first_seen := f; pe_asked := a |}).
    { intros f a Hf. constructor; [done | |]; cbn; intros ->.
      - by exists (Answered p PInvalid t).
      - by apply standing_last. }
    destruct (b !! p) as [e|] eqn:E; cbn [default from_option id].
    + destruct (B p e E) as [(y & Hy & Hy1 & Hy2) E2 E3].
      destruct (bool_decide_reflect (pe_state e = PInvalid)) as [Hi|Hi]; cbn [negb andb].
      { constructor; [exists y; rewrite elem_of_app; auto | | by rewrite Hi].
        intros _. destruct (E2 Hi) as (z & Hz & Hs). exists z. rewrite elem_of_app. auto. }
      destruct (bool_decide_reflect (s = PUnknown)) as [->|Hs]; cbn [negb].
      * apply entry_later; [by apply B | by intros []].
      * apply Hnew. exists y. rewrite elem_of_app. auto.
    + destr_if; apply Hnew; by exists (Answered p s t).
Qed.

Lemma parent_run_ok es : book_of es (parent_run es).
Proof.
  unfold parent_run. induction es as [|x es IH] using rev_ind; [intros p e He; cbn in He; by apply lookup_empty_Some in He|].
  rewrite foldl_app. cbn. by destruct (parent_step_ok es _ x IH) as (e & _ & _ & H).
Qed.

(** A share is refused for its parent only on the node's word: as invalid only when the node
    called that very block invalid; as unseen only when the node's last word on it was that it has
    no such block, at least half a minute after the first share on it. So a parent the node never
    answered for is always taken, whatever sessions ask and in whatever order answers come. *)
Theorem parent_refused_with_cause (es : list ParentEvent) (x : ParentEvent) :
  match (parent_step (parent_run es) x).2 with
  | VTake => True
  | VInvalid => exists y, y ∈ es ++ [x] /\ said (about x) PInvalid y
  | VUnseen => standing (said (about x) PUnseen) (said (about x) PKnown) (es ++ [x]) /\
      exists y, y ∈ es ++ [x] /\ about y = about x /\ PARENT_GRACE <= when x - when y
  end.
Proof.
  destruct (parent_step_ok es _ x (parent_run_ok es)) as (e & E & -> & B). destruct (B _ _ E) as [E1 E2 E3].
  unfold verdict. destruct (pe_state e); [done | done | | by apply E2].
  destr_if; [|done]. split; [by apply E3|]. destruct E1 as (y & Hy & Hy1 & Hy2). exists y. split; [done|].
  split; [done|]. bools. unfold elapsed in *. assert (0 < PARENT_GRACE) by done. sat_lia.
Qed.

(** * Templates *)

Inductive FaultEvent :=
| Failed (key : string) (reason : list Z) (job height : Z) (by_ : string) (now : Z)
| Passed (key : string)
| Read (key : string) (now : Z)
| Listed (now : Z).

Definition fault_step (f : Faults) (e : FaultEvent) : Faults :=
  match e with
  | Failed k r j h by_ t => (note_fail f k r j h by_ t).1
  | Passed k => (fault_clear f k).1
  | Read k t => (fault_get f k t).1
  | Listed t => faults_live f t
  end.
Definition fault_run (ttl : Z) (es : list FaultEvent) : Faults := foldl fault_step (faults_with_ttl ttl) es.

Definition failed_on (key : string) (P : Z -> Prop) (e : FaultEvent) : Prop :=
  match e with Failed k _ j _ _ _ => k = key /\ P j | _ => False end.
Definition passed (key : string) (e : FaultEvent) : Prop := match e with Passed k => k = key | _ => False end.

Definition fails_of (es : list FaultEvent) (f : Faults) : Prop :=
  forall key j, fails f !! key = Some j -> standing (failed_on key (eq j)) (passed key) es.

Lemma fails_snoc es f x : fails_of es f -> (forall key, ~ passed key x) -> fails_of (es ++ [x]) f.
Proof. intros H Hx key j Hj. apply standing_snoc; auto. Qed.

Lemma fails_delete es f x key : fails_of es f -> (forall k, k <> key -> ~ passed k x) ->
  forall f', fails f' = delete key (fails f) -> fails_of (es ++ [x]) f'.
Proof.
  intros H Hx f' E k j Hj. rewrite E in Hj. apply lookup_delete_Some in Hj as [Hne Hj].
  apply standing_snoc; [by apply H | by apply Hx].
Qed.

Lemma fault_get_fails f key t : fails (fault_get f key t).1 = fails f.
Proof. unfold fault_get. destruct (by_key f !! key); [by destr_if | done]. Qed.

Lemma fault_run_ok ttl es : fails_of es (fault_run ttl es).
Proof.
  unfold fault_run. induction es as [|x es IH] using rev_ind; [intros k j Hj; cbn in Hj; by apply lookup_empty_Some in Hj|].
  rewrite foldl_app. cbn [foldl]. set (f := foldl _ _ es) in *. destruct x as [k r j h b t | k | k t | t]; cbn [fault_step].
  - unfold note_fail. pose proof (fault_get_fails f k t) as Hf. destruct (fault_get f k t) as [f' live].
    cbn [fst] in Hf. assert (IH' : fails_of es f') by (intros ? ?; rewrite Hf; apply IH).
    destr_if; [apply (fails_delete es f' _ k); [exact IH' | by intros ? ? [] | done]|].
    destruct (fails f' !! k) as [prev|] eqn:Ep; [destr_if; [apply (fails_delete es f' _ k); [exact IH' | by intros ? ? [] | done] | apply fails_snoc; [exact IH' | by intros ? []]]|].
    intros k' j' Hj. cbn [fst fails] in Hj. apply lookup_insert_Some in Hj as [[<- <-]|[Hne Hj]].
    + by apply standing_last.
    + apply standing_snoc; [by apply IH' | by intros []].
  - apply (fails_delete es f _ k); [done | | done]. intros k' Hk Hp. by cbn in Hp.
  - intros k' j Hj. rewrite fault_get_fails in Hj. apply standing_snoc; [by apply IH | by intros []].
  - apply fails_snoc; [exact IH | by intros ? []].
Qed.

(** A gateway is newly faulted only on proof: on the one reason no assembly slip of Prime can
    give, or on a second failing check of another job, with no check of its passing in between. *)
Theorem fault_needs_proof (ttl : Z) (es : list FaultEvent) (key : string) (reason : list Z) (job height : Z)
    (by_ : string) (now : Z) (f : Faults) :
  note_fail (fault_run ttl es) key reason job height by_ now = (f, true) ->
  is_Some (by_key f !! key) /\
  (faults_at_once reason = true \/ standing (failed_on key (fun j => j <> job)) (passed key) es).
Proof.
  intros E. unfold note_fail in E. pose proof (fault_run_ok ttl es) as Hr.
  pose proof (fault_get_fails (fault_run ttl es) key now) as Hf.
  destruct (fault_get (fault_run ttl es) key now) as [f0 live] eqn:Eg. cbn [fst] in Hf.
  assert (Hset : fault_set f0 key reason height by_ now = (f, true) -> is_Some (by_key f !! key) /\ by_key f0 !! key = None).
  { intros Es. unfold fault_set in Es. apply pair_equal_spec in Es as [<- Hn]. apply bool_decide_eq_true in Hn.
    cbn. rewrite lookup_insert_eq. by split. }
  destruct (bool_decide_reflect (is_Some live)) as [Hl|Hl]; cbn [orb] in E.
  - destruct (Hset E) as [_ Hn]. exfalso. unfold fault_get in Eg.
    destruct (by_key (fault_run ttl es) !! key) as [e|] eqn:Ek.
    + destr_if_in Eg; apply pair_equal_spec in Eg as [<- <-]; [by destruct Hl | congruence].
    + apply pair_equal_spec in Eg as [_ <-]. by destruct Hl.
  - destruct (faults_at_once reason) eqn:Ea; [destruct (Hset E) as [Hi _]; auto|].
    destruct (fails f0 !! key) as [prev|] eqn:Ep; [|done]. destruct (prev =? job) eqn:Ej; cbn [negb] in E; [done|].
    destruct (Hset E) as [Hi _]. split; [done|]. right. rewrite Hf in Ep.
    destruct (Hr key prev Ep) as (old & e & later & -> & He & Hl'). exists old, e, later. split; [done|]. split; [|done].
    destruct e; try done. destruct He as [-> <-]. split; [done|]. by apply Z.eqb_neq.
Qed.

Lemma fault_needs_proof_witness :
  exists f, note_fail (fault_run 0 [Failed "gw" (str_bytes "bad-txns-inputs-missingorspent") 1 9 "proposal" 5])
    "gw" (str_bytes "bad-txns-inputs-missingorspent") 2 9 "proposal" 6 = (f, true) /\ is_Some (by_key f !! "gw"%string).
Proof.
  destruct (note_fail (fault_run 0 [Failed "gw" (str_bytes "bad-txns-inputs-missingorspent") 1 9 "proposal" 5])
    "gw" (str_bytes "bad-txns-inputs-missingorspent") 2 9 "proposal" 6) as [f b] eqn:E.
  assert (b = true) as -> by (change b with (f, b).2; rewrite <- E; vm_compute; reflexivity).
  exists f. split; [reflexivity|]. exact (proj1 (fault_needs_proof _ _ _ _ _ _ _ _ _ E)).
Defined.
