(* ===== verification/Slots.v ===== *)
(** The job slots of a session ([prime/primed/src/session.rs]): the sections a gateway sends are
    kept within a budget of bytes and a number of live slots. The slots themselves and [absorb]
    are in [Verify]. *)

From S2P Require Import Prelude Bytes Mining Verify.
Open Scope Z_scope.

Definition MAX_LIVE_SLOTS : nat := 16.

(** [slots], [coinbase_bytes] and [live_slots] of a session. *)
Record Slots := { job_slots : list JobSlot; held_bytes : Z; live_slots : list nat }.

Definition slots_new : Slots :=
  {| job_slots := replicate MAX_JOB_SLOTS slot_default; held_bytes := 0; live_slots := [] |}.

(** [self.slots.iter().map(JobSlot::coinbase_bytes).sum()]. *)
Definition total_bytes (sl : list JobSlot) : Z := zsum (map coinbase_bytes sl).

Definition slot_at (st : Slots) (job_id : nat) : JobSlot := default slot_default (job_slots st !! job_id).
Definition with_slot (st : Slots) (job_id : nat) (slot : JobSlot) : Slots :=
  {| job_slots := <[job_id := slot]> (job_slots st); held_bytes := held_bytes st; live_slots := live_slots st |}.

(** [Session::drop_coinbase]. *)
Definition drop_coinbase (st : Slots) (job_id : nat) (added : option Z) : Slots :=
  match added with
  | None => st
  | Some id =>
      let slot := slot_at st job_id in
      let after := forget_coinbase slot id in
      {| job_slots := <[job_id := after]> (job_slots st);
         held_bytes := sat_sub (held_bytes st) (sat_sub (coinbase_bytes slot) (coinbase_bytes after));
         live_slots := live_slots st |}
  end.

(** The loop of [touch_slot]: the slots longest without a new job lose their sections. *)
Fixpoint evict_over (live : list nat) (sl : list JobSlot) : list nat * list JobSlot :=
  match live with
  | old :: live' =>
      if (MAX_LIVE_SLOTS <? length live)%nat then evict_over live' (alter evict_sections old sl) else (live, sl)
  | [] => (live, sl)
  end.

(** [Session::touch_slot]. *)
Definition touch_slot (st : Slots) (job_id : nat) : Slots :=
  let '(live, sl) := evict_over (filter (fun s => s <> job_id) (live_slots st) ++ [job_id]) (job_slots st) in
  {| job_slots := sl; held_bytes := held_bytes st; live_slots := live |}.

(** The count of bytes after a share's sections have gone into slot [id], which held [before]. *)
Definition count_sections (st : Slots) (id : nat) (before : Z) (changed : bool) : Slots :=
  if changed then
    let st := touch_slot st id in
    {| job_slots := job_slots st; held_bytes := total_bytes (job_slots st); live_slots := live_slots st |}
  else {| job_slots := job_slots st;
          held_bytes := sat_add u64_max (sat_sub (held_bytes st) before) (coinbase_bytes (slot_at st id));
          live_slots := live_slots st |}.

(** The part of [on_pow] that takes in a share's sections, up to the job it is on: the slots, and
    the job or the code it is rejected with. *)
Definition take_sections (st : Slots) (s : PowSubmit) (budget : Z) : Slots * result Z JobSection :=
  let id := Z.to_nat (job_id s) in
  let before := coinbase_bytes (slot_at st id) in
  match absorb (slot_at st id) s with
  | (Err code, slot) => (with_slot st id slot, Err code)
  | (Ok absorbed, slot) =>
      let st := count_sections (with_slot st id slot) id before (job_changed absorbed) in
      if bool_decide (is_Some (coinbase_added absorbed)) && (budget <? held_bytes st)
      then (drop_coinbase st id (coinbase_added absorbed), Err REJECT_COINBASE_TOO_LARGE)
      else match js_job (slot_at st id) with
           | Some j => (st, Ok j)
           | None => (st, Err REJECT_BAD_JOB_ID)
           end
  end.
