(* ===== verification/SlotsProps.v ===== *)
(** What a session can make Prime hold of coinbase sections: the count of bytes is exact and stays
    within its budget, whatever the gateway sends. *)

From S2P Require Import Prelude Bytes Cursor Coinbaser Mining Handshake Pow Coinbase Verify VerifyFacts VerifyProps Slots.
Open Scope Z_scope.

Section SlotsOk.
Context (sha256 : list Z -> list Z) (budget : Z).
Hypothesis budget_range : 0 <= budget /\ budget + MAX_COINBASE_SECTION_BYTES <= u64_max.

Record slots_ok (st : Slots) : Prop := {
  so_length : length (job_slots st) = MAX_JOB_SLOTS;
  so_held : held_bytes st = total_bytes (job_slots st);
  so_budget : held_bytes st <= budget;
  so_slots : Forall (slot_ok sha256) (job_slots st);
  so_live : NoDup (live_slots st) /\ (length (live_slots st) <= MAX_LIVE_SLOTS)%nat /\
    Forall (fun i => (i < MAX_JOB_SLOTS)%nat) (live_slots st)
}.

(** ** Bytes *)

Lemma section_bytes_nonneg c : 0 <= section_bytes c.
Proof using. unfold section_bytes. lia. Qed.

Lemma coinbase_bytes_nonneg slot : 0 <= coinbase_bytes slot.
Proof using. apply (fsum_nonneg section_bytes). intros k c _. apply section_bytes_nonneg. Qed.

Lemma total_bytes_nonneg sl : 0 <= total_bytes sl.
Proof using. apply zsum_map_nonneg. intros x _. apply coinbase_bytes_nonneg. Qed.

Lemma slot_bytes_total sl i slot : sl !! i = Some slot -> coinbase_bytes slot <= total_bytes sl.
Proof using.
  intros Hi. apply zsum_map_elem_le; [intros x _; apply coinbase_bytes_nonneg | by eapply list_elem_of_lookup_2].
Qed.

Lemma forget_bytes slot id : coinbase_bytes (forget_coinbase slot id) <= coinbase_bytes slot.
Proof using.
  change (fsum section_bytes (delete id (coinbases slot)) <= fsum section_bytes (coinbases slot)).
  destruct (coinbases slot !! id) as [c|] eqn:E.
  - rewrite (fsum_delete _ _ _ _ E). pose proof (section_bytes_nonneg c). lia.
  - by rewrite delete_id.
Qed.

(** What a share's sections do to the bytes of its slot. *)
Lemma absorb_bytes slot s slot' r : absorb slot s = (r, slot') ->
  match r with
  | Err _ => slot' = slot
  | Ok a =>
      coinbase_bytes slot' <= coinbase_bytes slot + MAX_COINBASE_SECTION_BYTES /\
      match coinbase_added a with
      | None => coinbase_bytes slot' <= coinbase_bytes slot
      | Some id => coinbase_bytes (forget_coinbase slot' id) <= coinbase_bytes slot
      end
  end.
Proof using.
  unfold absorb. destruct (coinbase s) as [c|] eqn:Ec.
  2:{ destruct (absorb_job slot (job s)) as [ch sl] eqn:Ej. intros [= <- <-]. cbn [coinbase_added].
      assert (coinbase_bytes sl <= coinbase_bytes slot); [|unfold MAX_COINBASE_SECTION_BYTES; lia].
      unfold absorb_job in Ej. destruct (job s); [destruct (decide _)|]; injection Ej as _ <-; try lia.
      apply coinbase_bytes_nonneg. }
  destruct (MAX_COINBASE_SECTION_BYTES <? section_bytes c) eqn:El; [by intros [= <- <-]|]. apply Z.ltb_ge in El.
  pose proof (section_bytes_nonneg c) as Hc. pose proof (coinbase_bytes_nonneg slot) as Hs.
  destruct (absorb_job slot (job s)) as [ch sl] eqn:Ej.
  assert (Hsl : (sl = slot \/ coinbases sl = ∅) /\ coinbase_bytes sl <= coinbase_bytes slot).
  { unfold absorb_job in Ej. destruct (job s); [destruct (decide _)|]; injection Ej as _ <-; split; auto; lia. }
  destruct Hsl as [Hsl Hb]. destruct (decide _) as [|Hne].
  { intros [= <- <-]. cbn [coinbase_added]. lia. }
  destruct (bool_decide _ && _) eqn:Ef.
  { intros [= <- <-]. destruct Hsl as [->|He]; [done|]. apply andb_true_iff in Ef as [_ Ef]. apply Nat.leb_le in Ef.
    rewrite He, map_size_empty in Ef. unfold MAX_COINBASES_PER_SLOT in Ef. lia. }
  intros [= <- <-]. cbn [coinbase_added]. clear Hsl Ej Ef.
  assert (Hd : fsum section_bytes (delete (cb_id c) (coinbases sl)) <= coinbase_bytes sl) by apply (forget_bytes sl).
  assert (Hn : coinbase_bytes (insert_coinbase sl c) = section_bytes c + fsum section_bytes (delete (cb_id c) (coinbases sl))).
  { change (coinbase_bytes (insert_coinbase sl c)) with (fsum section_bytes (<[cb_id c := c]> (coinbases sl))).
    rewrite <- insert_delete_eq. apply fsum_insert, lookup_delete_eq. }
  split; [lia|]. change (coinbase_bytes (forget_coinbase (insert_coinbase sl c) (cb_id c)))
    with (fsum section_bytes (delete (cb_id c) (<[cb_id c := c]> (coinbases sl)))).
  rewrite delete_insert_eq. lia.
Qed.

(** ** Eviction *)

Lemma total_insert sl i slot slot' : sl !! i = Some slot ->
  total_bytes (<[i := slot']> sl) = total_bytes sl - coinbase_bytes slot + coinbase_bytes slot'.
Proof using. apply zsum_map_insert. Qed.

Lemma alter_slot (f : JobSlot -> JobSlot) (sl : list JobSlot) i :
  alter f i sl = match sl !! i with Some x => <[i := f x]> sl | None => sl end.
Proof using.
  revert i. induction sl as [|x sl IH]; intros [|i]; [done | done | done |].
  change (alter f (S i) (x :: sl)) with (x :: alter f i sl). rewrite IH.
  change ((x :: sl) !! S i) with (sl !! i). by destruct (sl !! i).
Qed.

Lemma evict_over_ok live : forall sl live' sl', evict_over live sl = (live', sl') ->
  Forall (slot_ok sha256) sl -> NoDup live ->
  length sl' = length sl /\ total_bytes sl' <= total_bytes sl /\ Forall (slot_ok sha256) sl' /\
  live' `suffix_of` live /\ (length live' <= MAX_LIVE_SLOTS)%nat.
Proof using.
  induction live as [|old live IH]; intros sl live' sl' E Hs Hn; cbn [evict_over] in E.
  { injection E as <- <-. conjs; [done | lia | done | done | cbn; lia]. }
  destruct (Nat.ltb_spec MAX_LIVE_SLOTS (length (old :: live))) as [Hl|Hl].
  2:{ injection E as <- <-. conjs; [done | lia | done | done | done]. }
  apply NoDup_cons in Hn as [_ Hn].
  assert (Ha : length (alter evict_sections old sl) = length sl /\
    total_bytes (alter evict_sections old sl) <= total_bytes sl /\ Forall (slot_ok sha256) (alter evict_sections old sl)).
  { split; [apply length_alter|]. rewrite alter_slot. destruct (sl !! old) as [slot|] eqn:Eo.
    - rewrite (total_insert _ _ _ _ Eo). split.
      + pose proof (coinbase_bytes_nonneg slot). change (coinbase_bytes (evict_sections slot)) with 0. lia.
      + apply Forall_insert; [done|]. eapply evict_ok, Forall_lookup_1; [exact Hs | exact Eo].
    - split; [lia | done]. }
  destruct Ha as (A1 & A2 & A3). destruct (IH _ _ _ E A3 Hn) as (B1 & B2 & B3 & B4 & B5).
  conjs; [lia | lia | done | by apply suffix_cons_r | done].
Qed.

Lemma touch_ok st id : length (job_slots st) = MAX_JOB_SLOTS -> Forall (slot_ok sha256) (job_slots st) ->
  NoDup (live_slots st) -> Forall (fun i => (i < MAX_JOB_SLOTS)%nat) (live_slots st) -> (id < MAX_JOB_SLOTS)%nat ->
  let st' := touch_slot st id in
  length (job_slots st') = MAX_JOB_SLOTS /\ total_bytes (job_slots st') <= total_bytes (job_slots st) /\
  Forall (slot_ok sha256) (job_slots st') /\ NoDup (live_slots st') /\
  (length (live_slots st') <= MAX_LIVE_SLOTS)%nat /\ Forall (fun i => (i < MAX_JOB_SLOTS)%nat) (live_slots st') /\
  held_bytes st' = held_bytes st.
Proof using.
  intros Hl Hs Hn Hf Hid. unfold touch_slot.
  set (live := filter (fun s => s <> id) (live_slots st) ++ [id]).
  assert (Hnd : NoDup live).
  { apply NoDup_app. split; [by apply NoDup_filter|]. split; [|apply NoDup_singleton].
    intros x [Hx _]%list_elem_of_filter Hx'%list_elem_of_singleton. done. }
  assert (Hfl : Forall (fun i => (i < MAX_JOB_SLOTS)%nat) live).
  { apply Forall_app. split; [|by constructor]. apply Forall_forall. intros x [_ Hx]%list_elem_of_filter. by eapply Forall_forall in Hx; [|exact Hf]. }
  destruct (evict_over live (job_slots st)) as [live' sl'] eqn:E. cbn [job_slots live_slots held_bytes].
  destruct (evict_over_ok _ _ _ _ E Hs Hnd) as (A1 & A2 & A3 & [pre A4] & A5).
  rewrite A4 in Hnd, Hfl. apply NoDup_app in Hnd as (_ & _ & Hnd). apply Forall_app in Hfl as [_ Hfl].
  conjs; [lia | done | done | done | done | done | done].
Qed.

(** ** A share's sections *)

Lemma slot_at_lookup st id : length (job_slots st) = MAX_JOB_SLOTS -> (id < MAX_JOB_SLOTS)%nat ->
  job_slots st !! id = Some (slot_at st id).
Proof using.
  intros Hl Hid. unfold slot_at. destruct (job_slots st !! id) eqn:E; [done|].
  apply lookup_ge_None in E. lia.
Qed.

(** The slots after a slot is put back, whatever the count says meanwhile. *)
Lemma with_slot_ok st id slot : slots_ok st -> (id < MAX_JOB_SLOTS)%nat -> slot_ok sha256 slot ->
  let st' := with_slot st id slot in
  length (job_slots st') = MAX_JOB_SLOTS /\ Forall (slot_ok sha256) (job_slots st') /\ slot_at st' id = slot /\
  total_bytes (job_slots st') = total_bytes (job_slots st) - coinbase_bytes (slot_at st id) + coinbase_bytes slot.
Proof using.
  intros [S1 S2 S3 S4 S5] Hid Hok. cbn [with_slot job_slots]. conjs.
  - by rewrite length_insert.
  - by apply Forall_insert.
  - unfold slot_at. cbn [with_slot job_slots]. by rewrite list_lookup_insert_eq by lia.
  - apply total_insert. by apply slot_at_lookup.
Qed.

Lemma drop_ok st id added : length (job_slots st) = MAX_JOB_SLOTS -> (id < MAX_JOB_SLOTS)%nat ->
  Forall (slot_ok sha256) (job_slots st) -> held_bytes st = total_bytes (job_slots st) ->
  let st' := drop_coinbase st id (Some added) in
  length (job_slots st') = MAX_JOB_SLOTS /\ Forall (slot_ok sha256) (job_slots st') /\
  held_bytes st' = total_bytes (job_slots st') /\ live_slots st' = live_slots st /\
  held_bytes st' = held_bytes st - coinbase_bytes (slot_at st id)
    + coinbase_bytes (forget_coinbase (slot_at st id) added).
Proof using.
  intros Hl Hid Hs Hh. pose proof (slot_at_lookup st id Hl Hid) as Hi. cbn [drop_coinbase job_slots held_bytes live_slots].
  pose proof (forget_bytes (slot_at st id) added) as Hf. pose proof (slot_bytes_total _ _ _ Hi) as Ht.
  rewrite length_insert, (total_insert _ _ _ _ Hi). pose proof (coinbase_bytes_nonneg (forget_coinbase (slot_at st id) added)).
  conjs; [done | | sat_lia | done | sat_lia].
  apply Forall_insert; [done|]. apply forget_ok. by eapply Forall_lookup_1.
Qed.

Lemma absorb_empty slot s a slot' : absorb slot s = (Ok a, slot') -> job_changed a = true ->
  match coinbase_added a with None => coinbase_bytes slot' = 0
  | Some id => coinbase_bytes (forget_coinbase slot' id) = 0 end.
Proof using.
  unfold absorb. destruct (match coinbase s with Some c => _ | None => false end); [done|].
  destruct (absorb_job slot (job s)) as [ch sl] eqn:Ej.
  assert (Hsl : ch = true -> coinbases sl = ∅).
  { unfold absorb_job in Ej. destruct (job s); [destruct (decide _)|]; injection Ej as <- <-; done. }
  assert (Hz : ch = true -> coinbase_bytes sl = 0).
  { intros Hc. change (fsum section_bytes (coinbases sl) = 0). by rewrite (Hsl Hc), fsum_empty. }
  destruct (coinbase s) as [c|]; [|intros [= <- <-]; exact Hz].
  destruct (decide _); [intros [= <- <-]; exact Hz|]. destruct (bool_decide _ && _); [done|].
  intros [= <- <-] Hc. cbn [coinbase_added].
  change (fsum section_bytes (delete (cb_id c) (<[cb_id c := c]> (coinbases sl))) = 0).
  rewrite delete_insert_eq, (Hsl Hc), delete_empty. apply fsum_empty.
Qed.

Lemma evict_over_keeps id l : forall sl live' sl', id ∉ l ->
  evict_over (l ++ [id]) sl = (live', sl') -> sl' !! id = sl !! id.
Proof using.
  induction l as [|old l IH]; intros sl live' sl' Hn E; cbn [app evict_over] in E.
  { by injection E as _ <-. }
  apply not_elem_of_cons in Hn as [Hne Hn].
  destruct (_ <? _)%nat; [|by injection E as _ <-]. rewrite (IH _ _ _ Hn E).
  by apply list_lookup_alter_ne.
Qed.

Lemma touch_keeps st id : slot_at (touch_slot st id) id = slot_at st id.
Proof using.
  unfold touch_slot, slot_at. destruct (evict_over _ _) as [live' sl'] eqn:E. cbn [job_slots].
  f_equal. eapply evict_over_keeps; [|exact E]. by intros [? _]%list_elem_of_filter.
Qed.

Lemma count_ok st id slot changed : slots_ok st -> (id < MAX_JOB_SLOTS)%nat -> slot_ok sha256 slot ->
  coinbase_bytes slot <= coinbase_bytes (slot_at st id) + MAX_COINBASE_SECTION_BYTES ->
  let st' := count_sections (with_slot st id slot) id (coinbase_bytes (slot_at st id)) changed in
  length (job_slots st') = MAX_JOB_SLOTS /\ Forall (slot_ok sha256) (job_slots st') /\
  held_bytes st' = total_bytes (job_slots st') /\ slot_at st' id = slot /\
  held_bytes st' <= held_bytes st - coinbase_bytes (slot_at st id) + coinbase_bytes slot /\
  (NoDup (live_slots st') /\ (length (live_slots st') <= MAX_LIVE_SLOTS)%nat /\
   Forall (fun i => (i < MAX_JOB_SLOTS)%nat) (live_slots st')).
Proof using budget_range.
  intros S Hid Hok Hb. destruct (with_slot_ok st id slot S Hid Hok) as (W1 & W2 & W3 & W4).
  destruct S as [S1 S2 S3 S4 (S5 & S6 & S7)]. pose proof (slot_bytes_total _ _ _ (slot_at_lookup st id S1 Hid)) as Ht.
  pose proof (coinbase_bytes_nonneg slot) as Hn.
  unfold count_sections. destruct changed.
  - destruct (touch_ok (with_slot st id slot) id W1 W2 S5 S7 Hid) as (T1 & T2 & T3 & T4 & T5 & T6 & _).
    cbn [job_slots held_bytes live_slots]. conjs; try done; [|lia].
    change (slot_at (touch_slot (with_slot st id slot) id) id = slot). by rewrite touch_keeps.
  - cbn [job_slots held_bytes live_slots] in *. rewrite W3. change (held_bytes (with_slot st id slot)) with (held_bytes st). conjs; try done; sat_lia.
Qed.

Lemma take_sections_ok (st st' : Slots) (s : PowSubmit) (r : result Z JobSection) :
  slots_ok st -> (Z.to_nat (job_id s) < MAX_JOB_SLOTS)%nat -> take_sections st s budget = (st', r) ->
  slots_ok st' /\
  match r with
  | Ok j => js_job (slot_at st' (Z.to_nat (job_id s))) = Some j /\ forall j', job s = Some j' -> j = j'
  | Err code => code = REJECT_COINBASE_TOO_LARGE \/ code = REJECT_BAD_COINBASE_ID \/ code = REJECT_BAD_JOB_ID
  end.
Proof using budget_range.
  intros S Hid E. set (id := Z.to_nat (job_id s)) in *.
  pose proof S as [S1 S2 S3 S4 S5]. pose proof (slot_at_lookup st id S1 Hid) as Hi.
  assert (Hok : slot_ok sha256 (slot_at st id)) by by eapply Forall_lookup_1.
  unfold take_sections in E. fold id in E. pose proof (absorb_ok sha256 (slot_at st id) s Hok) as Ha.
  destruct (absorb (slot_at st id) s) as [[a|code] slot] eqn:Ea; cbn [snd] in Ha; pose proof (absorb_bytes _ _ _ _ Ea) as Hb.
  2:{ rewrite Hb in *. injection E as <- <-. destruct (with_slot_ok st id _ S Hid Hok) as (W1 & W2 & W3 & W4). split.
      - constructor; try done. cbn [with_slot held_bytes job_slots] in *. lia.
      - unfold absorb in Ea. destruct (match coinbase s with Some c => _ | None => false end).
        { simplify_eq. auto. }
        destruct (absorb_job _ _). destruct (coinbase s); [|done]. destruct (decide _); [done|].
        destruct (bool_decide _ && _); [|done]. simplify_eq. auto. }
  destruct Hb as [Hb Hadd].
  destruct (count_ok st id slot (job_changed a) S Hid Ha Hb) as (C1 & C2 & C3 & C4 & C5 & C6).
  set (st1 := count_sections _ id _ _) in *.
  assert (Hjob : forall j, js_job slot = Some j -> forall j', job s = Some j' -> j = j').
  { intros j Hs j' Hj'. clear -Ea Hs Hj'. unfold absorb in Ea.
    destruct (match coinbase s with Some c => _ | None => false end); [done|].
    destruct (absorb_job (slot_at st id) (job s)) as [ch sl] eqn:Ej.
    assert (js_job sl = Some j').
    { unfold absorb_job in Ej. rewrite Hj' in Ej. destruct (decide _); by injection Ej as _ <-. }
    destruct (coinbase s); [|by injection Ea as _ <-; congruence].
    destruct (decide _); [by injection Ea as _ <-; congruence|].
    destruct (bool_decide _ && _); [done|]. injection Ea as _ <-. cbn [insert_coinbase js_job] in Hs. congruence. }
  destruct (coinbase_added a) as [added|]; cbn [is_Some] in E.
  - rewrite bool_decide_eq_true_2 in E by done. destruct (Z.ltb_spec budget (held_bytes st1)) as [Hl|Hl]; cbn [andb] in E.
    + injection E as <- <-. destruct (drop_ok st1 id added C1 Hid C2 C3) as (D1 & D2 & D3 & D4 & D5).
      split; [|auto]. constructor; [done | done | | done | exact C6]. rewrite C4 in D5. eapply Z.le_trans; [exact (Z.eq_le_incl _ _ D5) | lia].
    + rewrite C4 in E. destruct (js_job slot) as [j|] eqn:Ej; injection E as <- <-; (split; [by constructor|]); [|auto].
      rewrite C4. split; [done|]. by apply Hjob.
  - rewrite bool_decide_eq_false_2 in E by by intros [].
    cbn [andb] in E. rewrite C4 in E.
    destruct (js_job slot) as [j|] eqn:Ej; injection E as <- <-; (split; [constructor; try done; lia|]); [|auto].
    rewrite C4. split; [done|]. by apply Hjob.
Qed.

(** Whatever sections a gateway sends, in whatever slots, what the session holds of them is
    counted to the byte and stays within its budget; at most sixteen slots are live, and a section
    that breaks the budget costs only itself. A share is judged on the job its slot now has. *)
Theorem sections_within_budget (st st' : Slots) (s : PowSubmit) (r : result Z JobSection) :
  slots_ok st -> 0 <= job_id s < Z.of_nat MAX_JOB_SLOTS -> take_sections st s budget = (st', r) ->
  slots_ok st' /\
  match r with
  | Ok j => js_job (slot_at st' (Z.to_nat (job_id s))) = Some j /\ forall j', job s = Some j' -> j = j'
  | Err code => code = REJECT_COINBASE_TOO_LARGE \/ code = REJECT_BAD_COINBASE_ID \/ code = REJECT_BAD_JOB_ID
  end.
Proof using budget_range. intros S Hj. apply take_sections_ok; [done | lia]. Qed.
End SlotsOk.

(** * Witnesses *)

Lemma slots_new_ok sha256 budget : 0 <= budget -> slots_ok sha256 budget slots_new.
Proof.
  intros Hb. constructor.
  - apply length_replicate.
  - vm_compute; reflexivity.
  - exact Hb.
  - apply Forall_replicate, slot_default_ok.
  - split; [constructor|]. split; [apply Nat.le_0_l | constructor].
Qed.

Lemma sections_within_budget_witness :
  exists st j, take_sections slots_new demo_share 1000000 = (st, Ok j) /\ height j = 966267 /\
    slots_ok toy_sha 1000000 st.
Proof.
  destruct (take_sections slots_new demo_share 1000000) as [st r] eqn:E.
  assert (Hj : match r with Ok j => height j = 966267 | Err _ => False end).
  { change r with (st, r).2. rewrite <- E. vm_compute. reflexivity. }
  destruct r as [j|e]; [|destruct Hj]. exists st, j. split; [reflexivity|]. split; [exact Hj|].
  refine (proj1 (sections_within_budget toy_sha 1000000 _ slots_new st demo_share (Ok j) (slots_new_ok _ _ _) _ E));
    try split; vm_compute; congruence.
Defined.

(** A share that starts a job in a slot, with a coinbase section of one byte. *)
Definition starts_job (slot_id : Z) : PowSubmit :=
  {| job_id := slot_id; coinbase_id := 1; flags := 8; target_pot := 13; ntime32 := 0; nonce32 := 77;
     version := 0; extranonce := []; username := []; reserved := []; blake2b := None; time_on_wire := None;
     job := Some {| j_prev_hash := []; target_byte_index := 0; nbits := []; coinbaser_id := 7; height := 1;
                    coinbase_value := 5; txn_count := 0; txn_total_weight := 0; txn_total_size := 0;
                    txn_total_sigops := 0; merkle_branches := [] |};
     coinbase := Some {| cb_id := 1; coinb1 := [0]; coinb2 := [] |} |}.

Definition start_jobs (ids : list Z) : Slots :=
  foldl (fun st i => (take_sections st (starts_job i) 1000000).1) slots_new ids.

(** A slot is noted as live when its job changes, and only then. A gateway that sends the sections of
    an evicted slot again, the job unchanged, fills it without its being on the list, and it is not
    evicted again: more slots than [MAX_LIVE_SLOTS] hold sections. *)
Theorem evicted_slot_refills_unlisted :
  let st := start_jobs (seqZ 0 17 ++ [0]) in
  length (live_slots st) = MAX_LIVE_SLOTS /\
  length (filter (fun slot => 0 < coinbase_bytes slot) (job_slots st)) = 17%nat /\ 0%nat ∉ live_slots st.
Proof.
  assert (E : live_slots (start_jobs (seqZ 0 17 ++ [0])) = seq 1 16) by (vm_compute; reflexivity).
  cbv zeta. split; [by rewrite E|]. split; [by vm_compute|]. rewrite E. apply (bool_decide_unpack _). by vm_compute.
Qed.
