(* ===== verification/Replies.v ===== *)
(** Coinbaser requests ([prime/primed/src/session.rs], with the window snapshot of
    [prime/primed/src/state.rs]): which requests are priced afresh and which repeat a reply, the
    replies a session keeps, and the snapshot a reply is priced off.

    Identities are strings, instants are in nanoseconds. *)

From S2P Require Import Prelude Bytes Tides Split Window Grace Ledger Cursor Coinbaser Coinbase Mining Handshake Pow Verify State Settle.
Open Scope Z_scope.

(** * The snapshot *)

Definition COINBASER_BASE_TTL : Z := secs 1.

Record CoinbaserBase := {
  cbb_miners : list MinerStat;
  cbb_total_work : Z;
  cbb_target_work : Z;
  cbb_rebate_owed : Z;
  cbb_scripts : gmap string (list Z);
  built_at : Z
}.

Definition base_total_carry (b : CoinbaserBase) : Z := foldl (fun a m => sat_add u64_max a (m_carry m)) 0 (cbb_miners b).

(** The scripts of the identities that have one; [to_script] is [address::to_script] on the
    network of the pool. *)
Definition scripts_of (to_script : string -> option (list Z)) (ms : list MinerStat) : gmap string (list Z) :=
  list_to_map (omap (fun m => s ← to_script (m_identity m); Some (m_identity m, s)) ms).

(** A snapshot of the window. *)
Definition snapshot (to_script : string -> option (list Z)) (w : Window) (now : Z) : panics CoinbaserBase :=
  ms ← miners w;
  Ret {| cbb_miners := ms; cbb_total_work := total_work w; cbb_target_work := target_work w;
         cbb_rebate_owed := rebate_owed w; cbb_scripts := scripts_of to_script ms; built_at := now |}.

(** [Shared::coinbaser_base]: the snapshot in the slot while it is fresh, or a new one. *)
Definition coinbaser_base (to_script : string -> option (list Z)) (slot : option CoinbaserBase) (w : Window) (now : Z)
    : panics CoinbaserBase :=
  match slot with
  | Some b => if elapsed now (built_at b) <? COINBASER_BASE_TTL then Ret b else snapshot to_script w now
  | None => snapshot to_script w now
  end.

(** * Requests *)

Definition COINBASERS_KEPT : nat := 16.
Definition COINBASER_BURST : Z := 32.
Definition COINBASER_REFILL : Z := secs 1.
Definition MAX_MONEY : Z := 2100000000000000.

(** [coinbasers], [next_coinbaser_id], [coinbaser_tokens] and [coinbaser_refill_at]. *)
Record Replies := { kept : list IssuedCoinbaser; next_id : Z; tokens : Z; refill_at : Z }.

Definition replies_new (now : Z) : Replies :=
  {| kept := []; next_id := 1; tokens := COINBASER_BURST; refill_at := now |}.

(** The refill of the bucket. The code divides seconds as floats; below the burst the quotient is
    exact, and above it the bucket is full either way. *)
Definition refill (st : Replies) (now : Z) : Replies :=
  let gone := elapsed now (refill_at st) in
  if COINBASER_REFILL <=? gone then
    {| kept := kept st; next_id := next_id st;
       tokens := Z.min (sat_add u32_max (tokens st) (Z.min (gone / COINBASER_REFILL) u32_max)) COINBASER_BURST;
       refill_at := now |}
  else st.

(** How a request is answered: with the reply [c] again, or afresh; [over] is the request being
    over the rate with nothing to repeat. *)
Inductive Plan := RepeatOf (c : IssuedCoinbaser) | Fresh (over : bool) | OverButFresh.

Definition matches_request (id value : Z) (budget : option Z) (c : IssuedCoinbaser) : bool :=
  (ic_id c =? id) && (ic_value c =? value) && bool_decide (class_budget c = budget)
  && negb (length (ic_outputs c) =? 0)%nat.

(** The first half of [on_coinbaser_request], up to the split. *)
Definition plan_reply (st : Replies) (value : Z) (budget : option Z) : panics (Replies * Plan) :=
  match coinbaser_action (tokens st) (kept st) value budget with
  | FreshReply =>
      t ← chk_sub (tokens st) 1;
      Ret ({| kept := kept st; next_id := next_id st; tokens := t; refill_at := refill_at st |}, Fresh false)
  | Repeat id =>
      Ret (st, match find (matches_request id value budget) (rev (kept st)) with
               | Some c => RepeatOf c
               | None => OverButFresh
               end)
  | FreshOverRate => Ret (st, Fresh true)
  end.

(** The id a fresh reply takes. *)
Definition take_id (st : Replies) : Replies * Z :=
  ({| kept := kept st; next_id := if next_id st =? 255 then 1 else next_id st + 1;
      tokens := tokens st; refill_at := refill_at st |}, next_id st).

(** A reply, kept with the last few. *)
Definition keep_reply (st : Replies) (c : IssuedCoinbaser) : Replies :=
  let l := kept st ++ [c] in
  {| kept := drop (length l - COINBASERS_KEPT) l; next_id := next_id st; tokens := tokens st; refill_at := refill_at st |}.

(** A fresh reply: the split of the snapshot, and what is kept of it once it is sent. *)
Definition price_reply (pool_params : SplitParams) (b : CoinbaserBase) (value : Z) (budget : option Z) (now_ts : Z)
    : panics Split.Split :=
  compute (cbb_miners b) (cbb_total_work b) value (class_params pool_params budget) (cbb_rebate_owed b) now_ts
    (fun i => cbb_scripts b !! i).

Definition issued_reply (pool_script : list Z) (id value : Z) (prev_hash : Hash) (budget : option Z)
    (tip : option Tip) (sp : Split.Split) : panics IssuedCoinbaser :=
  height ← match tip with Some t => chk_add u32_max (t_height t) 1 | None => Ret 0 end;
  Ret {| ic_id := id; ic_value := value; ic_prev_hash := prev_hash; ic_height := height;
         ic_outputs := coinbaser_outputs sp pool_script; ic_payees := s_payees sp; ic_unpaid := s_unpaid sp;
         ic_rebate_credits := s_rebate_credits sp; ic_owed_credited := s_rebate_owed_credited sp;
         ic_deferred := s_rebate_deferred sp; class_budget := budget |}.
