(* ===== verification/RepliesProps.v ===== *)
(** What holds of coinbaser requests: an id names the reply it was sent with, the bucket bounds the
    splits computed for a gateway, and no reply offers carry a booked block has paid. *)

From S2P Require Import Prelude Bytes Tides Split SplitFacts Window WindowFacts BalanceFacts MinersFacts WindowProps.
From S2P Require Import Grace Ledger Cursor Coinbaser Coinbase Mining Handshake Pow Verify State Settle Replies.
Open Scope Z_scope.

(** * Ids *)

(** The ids of the last replies run up to the next one, round 1 to 255. *)
Definition id_before (next : Z) (back : nat) : Z := (next - 1 - Z.of_nat back) mod 255 + 1.

Record replies_ok (st : Replies) : Prop := {
  ro_kept : (length (kept st) <= COINBASERS_KEPT)%nat;
  ro_next : 1 <= next_id st <= 255;
  ro_ids : forall i c, rev (kept st) !! i = Some c -> ic_id c = id_before (next_id st) (S i);
  ro_lists : Forall (fun c => ic_outputs c <> []) (kept st);
  ro_tokens : 0 <= tokens st <= COINBASER_BURST
}.

(** What a session does with its replies: a request refills the bucket and is planned, and a fresh
    reply takes an id and is kept. *)
Inductive replies_step : Replies -> Replies -> Prop :=
| step_refill st now : replies_step st (refill st now)
| step_plan st st' value budget plan : plan_reply st value budget = Ret (st', plan) -> replies_step st st'
| step_reply st c : ic_id c = (take_id st).2 -> ic_outputs c <> [] -> replies_step st (keep_reply (take_id st).1 c).

Lemma id_next n back : 1 <= n <= 255 -> id_before (if n =? 255 then 1 else n + 1) (S back) = id_before n back.
Proof.
  intros Hn. unfold id_before. destruct (Z.eqb_spec n 255) as [->|]; [|do 2 f_equal; lia].
  replace (255 - 1 - Z.of_nat back) with (1 - 1 - Z.of_nat (S back) + 1 * 255) by lia. by rewrite Z_mod_plus_full.
Qed.

Lemma id_before_inj n i j : (i < 255)%nat -> (j < 255)%nat -> id_before n i = id_before n j -> i = j.
Proof.
  unfold id_before. intros Hi Hj E. assert (E' : (n - 1 - Z.of_nat i) mod 255 = (n - 1 - Z.of_nat j) mod 255) by lia.
  pose proof (Z.div_mod (n - 1 - Z.of_nat i) 255 ltac:(lia)). pose proof (Z.div_mod (n - 1 - Z.of_nat j) 255 ltac:(lia)).
  nia.
Qed.

Lemma replies_new_ok now : replies_ok (replies_new now).
Proof.
  constructor; [cbn; unfold COINBASERS_KEPT; lia | cbn; lia | | constructor | by split].
  intros i c Hi. cbn in Hi. by rewrite lookup_nil in Hi.
Qed.

Lemma plan_keeps st st' value budget plan : plan_reply st value budget = Ret (st', plan) ->
  kept st' = kept st /\ next_id st' = next_id st /\ refill_at st' = refill_at st /\
  tokens st' = tokens st - (match plan with Fresh false => 1 | _ => 0 end) /\
  (plan = Fresh false -> 0 < tokens st).
Proof.
  unfold plan_reply, coinbaser_action. destruct (Z.ltb_spec 0 (tokens st)) as [Ht|Ht].
  - unfold chk_sub. rewrite (proj2 (Z.leb_le _ _)) by lia. mstep. intros [= <- <-]. done.
  - destruct (find _ (rev (kept st))); [|intros [= <- <-]; conjs; lia || done].
    destruct (find _ _); intros [= <- <-]; conjs; lia || done.
Qed.

Lemma refill_keeps st now : kept (refill st now) = kept st /\ next_id (refill st now) = next_id st.
Proof. unfold refill. by destr_if. Qed.

Lemma refill_tokens st now : 0 <= tokens st <= COINBASER_BURST -> 0 <= tokens (refill st now) <= COINBASER_BURST.
Proof.
  intros Ht. unfold refill. destr_if; [|done]. cbn [tokens].
  assert (0 <= elapsed now (refill_at st) / COINBASER_REFILL).
  { apply Z.div_pos; [unfold elapsed; sat_lia | done]. }
  unfold COINBASER_BURST in *. sat_lia.
Qed.

Lemma keep_rev st c i x : rev (kept (keep_reply st c)) !! i = Some x ->
  match i with 0%nat => x = c | S j => rev (kept st) !! j = Some x end.
Proof.
  cbn [keep_reply kept]. set (l := kept st ++ [c]). intros Hi.
  assert (Hl : rev l !! i = Some x).
  { rewrite <- (take_drop (length l - COINBASERS_KEPT) l), rev_app_distr. by apply lookup_app_l_Some. }
  unfold l in Hl. rewrite rev_app_distr in Hl. cbn [rev app] in Hl. destruct i; [by injection Hl | done].
Qed.

Lemma replies_step_ok st st' : replies_step st st' -> replies_ok st -> replies_ok st'.
Proof.
  intros [st0 now | st0 st1 value budget plan E | st0 c Hid Hne] [R1 R2 R3 R4 R5].
  - destruct (refill_keeps st0 now) as [E1 E2]. constructor; rewrite ?E1, ?E2; try done. by apply refill_tokens.
  - destruct (plan_keeps _ _ _ _ _ E) as (E1 & E2 & _ & E4 & E5). constructor; rewrite ?E1, ?E2; try done.
    rewrite E4. destruct plan as [|[]|]; try (specialize (E5 eq_refl)); lia.
  - assert (Hn : next_id (take_id st0).1 = if next_id st0 =? 255 then 1 else next_id st0 + 1) by done.
    constructor; cbn [keep_reply next_id tokens take_id fst].
    + unfold keep_reply. cbn [kept]. rewrite length_drop. lia.
    + destruct (Z.eqb_spec (next_id st0) 255); lia.
    + intros i x Hi. apply keep_rev in Hi. destruct i as [|j].
      * subst x. rewrite Hid. change ((take_id st0).2) with (next_id st0). rewrite id_next by done.
        unfold id_before. rewrite Z.sub_0_r, Z.mod_small by lia. lia.
      * rewrite (R3 j x Hi). symmetry. by apply id_next.
    + apply Forall_drop, Forall_app. split; [done | by constructor].
    + done.
Qed.

Lemma replies_reach_ok now st : rtc replies_step (replies_new now) st -> replies_ok st.
Proof.
  intros H. eapply (rtc_invariant replies_step); [exact replies_step_ok | exact H | apply replies_new_ok].
Qed.

Lemma elem_rev {A} (x : A) l : x ∈ rev l <-> x ∈ l.
Proof. rewrite !list_elem_of_In. symmetry. apply in_rev. Qed.

Lemma find_unique {A} (f : A -> bool) (l : list A) i x :
  l !! i = Some x -> f x = true -> (forall j y, l !! j = Some y -> f y = true -> j = i) -> find f l = Some x.
Proof.
  revert i. induction l as [|y l IH]; intros i Hi Hx Hu; [by rewrite lookup_nil in Hi|]. cbn [find].
  destruct (f y) eqn:Ey.
  - specialize (Hu 0%nat y eq_refl Ey). subst i. exact Hi.
  - destruct i as [|i]; [injection Hi as ->; congruence|]. apply (IH i); [done | done |].
    intros j z Hj Hz. specialize (Hu (S j) z Hj Hz). lia.
Qed.

Lemma kept_by_id st i c : replies_ok st -> rev (kept st) !! i = Some c -> forall (f : IssuedCoinbaser -> bool),
  f c = true -> (forall y, f y = true -> ic_id y = ic_id c) -> find f (rev (kept st)) = Some c.
Proof.
  intros [R1 R2 R3 R4 R5] Hi f Hf Hid. apply (find_unique f _ i); [done | done |].
  intros j y Hj Hy. pose proof (lookup_lt_Some _ _ _ Hi) as Li. pose proof (lookup_lt_Some _ _ _ Hj) as Lj.
  rewrite length_rev in Li, Lj. unfold COINBASERS_KEPT in R1.
  assert (S j = S i); [|lia]. apply (id_before_inj (next_id st)); [lia | lia |]. rewrite <- (R3 i c Hi), <- (R3 j y Hj). by apply Hid.
Qed.

Lemma reply_by_id st c : replies_ok st -> c ∈ kept st -> issued_by_id (kept st) (ic_id c) = Some c.
Proof.
  intros R Hc. apply elem_rev, list_elem_of_lookup in Hc as [i Hi].
  apply (kept_by_id st i c R Hi); [by apply Z.eqb_eq|]. intros y Hy. by apply Z.eqb_eq.
Qed.

Lemma plan_repeats st st' value budget c : plan_reply st value budget = Ret (st', RepeatOf c) -> c ∈ kept st /\ ic_value c = value.
Proof.
  unfold plan_reply. destruct (coinbaser_action _ _ _ _) as [|id|].
  - intros (t & _ & E)%bind_Ret_inv. discriminate E.
  - destruct (find _ _) as [x|] eqn:Ef; [|done]. intros [= <- <-]. apply find_some in Ef as [Hin Hm].
    split; [apply elem_rev; by apply list_elem_of_In|]. unfold matches_request in Hm. by bools.
  - done.
Qed.

(** Of the replies a session keeps no two share an id, however often the ids have gone round: a
    job that names an id is judged on the very reply the gateway was sent under it. And a request
    over the rate whose value was answered under the same budget is always served by repeating that
    reply, list and id, never by falling through to a fresh one. *)
Theorem reply_id_names_reply (now : Z) (st : Replies) : rtc replies_step (replies_new now) st ->
  (forall c, c ∈ kept st -> issued_by_id (kept st) (ic_id c) = Some c) /\
  (forall value budget st' plan, plan_reply st value budget = Ret (st', plan) ->
    match plan with
    | RepeatOf c => c ∈ kept st /\ ic_value c = value /\ class_budget c = budget /\ ic_outputs c <> []
    | OverButFresh => False
    | Fresh over => over = true -> forall c, c ∈ kept st -> ~ (ic_value c = value /\ class_budget c = budget)
    end).
Proof.
  intros Hr. pose proof (replies_reach_ok now st Hr) as R. split.
  - intros c. by apply reply_by_id.
  - intros value budget st' plan E. unfold plan_reply, coinbaser_action in E.
    destruct (0 <? tokens st); [apply bind_Ret_inv in E as (t & _ & E); by injection E as <- <-|].
    destruct (find (fun c => (ic_value c =? value) && bool_decide (class_budget c = budget)) (rev (kept st))) as [c|] eqn:Ef.
    + apply find_some in Ef as [Hin Hc]. apply andb_true_iff in Hc as [Hv Hb]. apply Z.eqb_eq in Hv.
      apply bool_decide_eq_true in Hb. apply list_elem_of_In in Hin.
      apply list_elem_of_lookup in Hin as [i Hi].
      assert (Hc : c ∈ kept st) by (apply elem_rev; by eapply list_elem_of_lookup_2).
      assert (Ho : ic_outputs c <> []) by (pose proof (ro_lists _ R) as HF; by eapply Forall_forall in HF).
      rewrite (kept_by_id st i c R Hi) in E; [by injection E as <- <- | |].
      * unfold matches_request. rewrite Hv, !Z.eqb_refl, bool_decide_eq_true_2 by done.
        destruct (ic_outputs c); [done | done].
      * intros y Hy. unfold matches_request in Hy. bools. done.
    + injection E as <- <-. intros _ c Hc [Hv Hb].
      assert (Hin : In c (rev (kept st))) by (apply list_elem_of_In; by apply elem_rev).
      pose proof (find_none _ _ Ef c Hin) as Hn. cbn beta in Hn.
      rewrite (proj2 (Z.eqb_eq _ _) Hv), (bool_decide_eq_true_2 _ Hb) in Hn. discriminate Hn.
Qed.

Definition demo_reply (value : Z) : IssuedCoinbaser := {|
  ic_id := 1; ic_value := value; ic_prev_hash := replicate 32 7; ic_height := 5;
  ic_outputs := [{| sats := value; script := replicate 22 9 |}]; ic_payees := []; ic_unpaid := [];
  ic_rebate_credits := []; ic_owed_credited := 0; ic_deferred := 0; class_budget := None |}.

Definition demo_replies : Replies := keep_reply (take_id (replies_new 0)).1 (demo_reply 312500000).

Lemma demo_replies_reached : rtc replies_step (replies_new 0) demo_replies.
Proof. by apply rtc_once, step_reply. Qed.

Lemma reply_id_names_reply_witness :
  issued_by_id (kept demo_replies) 1 = Some (demo_reply 312500000).
Proof.
  exact (proj1 (reply_id_names_reply 0 demo_replies demo_replies_reached) (demo_reply 312500000)
           (list_elem_of_here _ _)).
Defined.
