(* ===== verification/Session.v ===== *)
(** A gateway's session ([prime/primed/src/session.rs]): what it keeps, what the sessions of a Prime
    share, and the monad its handlers run in.

    A handler runs over a session and the state all sessions share, may be refused ([?] on a
    [SessionError]) or panic, and leaves a trace of what it did. Wherever the code awaits (a write, a
    question to the node) the other tasks run: [waits] holds what they do to the shared state each
    time and what the clocks read afterwards, and every theorem is about all such lists. A lock held
    across two operations of the code makes one step here. *)

From S2P Require Import Prelude Bytes Text Tides Split Window Grace Ledger Disk BlockLog Persist Cursor Frame Coinbaser Coinbase.
From S2P Require Import Mining Handshake Pow Verify State Settle Address ClassBudget Node Validity Slots Replies.
Open Scope Z_scope.

(** * What is outside the program *)

(** The [hex] crate, the hash functions, the codecs of addresses and of the files, and the order
    a [HashMap] is walked in: [dominant] is the entry [max_by_key] ends on. *)
Class World := {
  hex_encode : list Z -> string;
  sha256 : list Z -> Hash;
  blake2b256 : list Z -> Hash;
  dominant : gmap string Z -> option string;
  w_address :: AddressCodec;
  w_blocks :: BlockJson;
  w_meta :: MetaJson
}.

Class WorldLaws `{World} := {
  dominant_max m i : dominant m = Some i -> exists w, m !! i = Some w /\ map_Forall (fun _ w' => w' <= w) m;
  dominant_some m : m <> ∅ -> is_Some (dominant m)
}.

(** * Configuration *)

Class Config := {
  cfg_pool_script : list Z;
  cfg_network : Network;
  cfg_coinbase_tag : list Z;
  cfg_prime_id : Z;
  cfg_min_diff : Z;
  cfg_house_loopback : bool;
  cfg_house_gateways : list string;
  cfg_front_ips : list IpAddr;
  cfg_front_gateways : list string;
  cfg_stale_grace : Z;
  cfg_split_tolerance : Z;
  cfg_min_pot : Z;
  cfg_empty_solo_fee_bps : Z;
  cfg_uncommitted_pot : Z;
  cfg_coinbase_budget : Z;
  cfg_stock_full_pool_only : string;
  cfg_coinbaser_delay_ms : Z;
  cfg_split_params : SplitParams;
  cfg_grace : GraceParams;
  cfg_carry_ceiling : Z;
  cfg_quarantine : QuarantineConfig;
  cfg_require_split_gateway : bool;
  cfg_held_split_builds : list (list Z);
  cfg_class_budget : bool;
  cfg_stale_after_secs : Z;
  cfg_stale_min_payout : Z;
  cfg_solo_rebate_bps : Z;
  cfg_solo_coinbase_tag : list Z
}.

(** The gateway at the other end, as its hello and its socket name it. *)
Class Peer := {
  p_id : Z;
  p_remote : IpAddr;
  p_hello : ClientHello;
  p_resume_token : list Z
}.

(** [house_stratum] and [stratum_front]. *)
Definition house_stratum `{Config} (remote : IpAddr) (gateway_key : string) : bool :=
  (cfg_house_loopback && is_loopback remote)
  || existsb (fun h => negb (bool_decide (h = ""%string)) && String.prefix h (lower gateway_key)) cfg_house_gateways.
Definition stratum_front `{Config} (remote : IpAddr) (gateway_key : string) : bool :=
  if house_stratum remote gateway_key then false
  else bool_decide (remote ∈ cfg_front_ips) || existsb (fun k => String.prefix k (lower gateway_key)) cfg_front_gateways.

(** * State *)

(** What the sessions share ([Shared]). *)
Record Shared := {
  sh_node : NodeState;
  sh_tip : option Tip;
  sh_seen : SeenShares;
  sh_parents : ParentBook;
  sh_faults : Faults;
  sh_quarantine : gmap string Quarantine;
  sh_base : option CoinbaserBase;
  sh_held_off : bool;
  sh_gateways : gmap string GatewayPayout;
  sh_pinned : gset string
}.

(** Which script the gateway is configured with, and why. *)
Record Paying := {
  identity_work : gmap string Z;
  payout_script : option (list Z);
  payout_identity : option string;
  restore_script_at : option Z;
  configured_as_gateway : bool;
  split_ready : bool;
  held : option HeldPayout;
  pins_script : bool;
  last_split_prev : option string;
  pending_reply : option (Z * list Z * Hash);
  reply_at : option Z;
  full_pool_only : Z
}.

Record PendingBlock := { pb_share : VerifiedShare; pb_submit : PowSubmit; pb_hash : string; pb_at : Z }.
Record TemplateCheck := { tc_job : Z; tc_share : VerifiedShare; tc_submit : PowSubmit; tc_at : Z }.

Record Session := {
  s_slots : Slots;
  s_replies : Replies;
  s_paying : Paying;
  s_budget : option ClassBudget;
  s_pending : gmap Z (list PendingBlock);
  s_rejects : list Z;
  s_check : option TemplateCheck;
  s_check_due : Z;
  s_check_asked : option Z;
  s_suspect : bool;
  s_tip_asked : option Z;
  s_candidate_at : option Z;
  s_last_send : Z
}.

(** Why a session ends. *)
Inductive SessionError := Bad (why : string) | Wire (e : Error) | Io | Idle | RejectFlood (n : Z) (secs : Z).

(** What a handler does that others see: a mining message given to the channel, a keep-alive, work credited, a
    block recorded, the other sessions told, and the two tasks it may start. *)
Inductive Event :=
| Sent (plain : list Z) (signed : bool)
| Ping
| Credited (identity : string) (work height ts source : Z)
| Booked (r : BlockRecord)
| Told (id : Z)
| Submitting (p : PendingBlock) (block : list Z)
| Checking (c : TemplateCheck) (block : list Z).

(** One wait: what the other tasks did, what the clocks read after it, and what the node answered
    if it was asked about a parent. *)
Record Wait := { acts : Shared -> Shared; reads : Z; reads_ts : Z; answer : ParentAnswer }.

Record St := {
  st_session : Session;
  st_shared : Shared;
  st_clock : Z;
  st_ts : Z;
  waits : list Wait;
  trace : list Event
}.

(** ** Field updates *)

Definition with_session (st : St) (s : Session) : St := {|
  st_session := s; st_shared := st_shared st; st_clock := st_clock st; st_ts := st_ts st;
  waits := waits st; trace := trace st |}.
Definition with_shared (st : St) (x : Shared) : St := {|
  st_session := st_session st; st_shared := x; st_clock := st_clock st; st_ts := st_ts st;
  waits := waits st; trace := trace st |}.

Definition with_slots (s : Session) (x : Slots) : Session := {|
  s_slots := x; s_replies := s_replies s; s_paying := s_paying s; s_budget := s_budget s; s_pending := s_pending s;
  s_rejects := s_rejects s; s_check := s_check s; s_check_due := s_check_due s; s_check_asked := s_check_asked s;
  s_suspect := s_suspect s; s_tip_asked := s_tip_asked s; s_candidate_at := s_candidate_at s; s_last_send := s_last_send s |}.
Definition with_replies (s : Session) (x : Replies) : Session := {|
  s_slots := s_slots s; s_replies := x; s_paying := s_paying s; s_budget := s_budget s; s_pending := s_pending s;
  s_rejects := s_rejects s; s_check := s_check s; s_check_due := s_check_due s; s_check_asked := s_check_asked s;
  s_suspect := s_suspect s; s_tip_asked := s_tip_asked s; s_candidate_at := s_candidate_at s; s_last_send := s_last_send s |}.
Definition with_paying (s : Session) (x : Paying) : Session := {|
  s_slots := s_slots s; s_replies := s_replies s; s_paying := x; s_budget := s_budget s; s_pending := s_pending s;
  s_rejects := s_rejects s; s_check := s_check s; s_check_due := s_check_due s; s_check_asked := s_check_asked s;
  s_suspect := s_suspect s; s_tip_asked := s_tip_asked s; s_candidate_at := s_candidate_at s; s_last_send := s_last_send s |}.
Definition with_budget (s : Session) (x : option ClassBudget) : Session := {|
  s_slots := s_slots s; s_replies := s_replies s; s_paying := s_paying s; s_budget := x; s_pending := s_pending s;
  s_rejects := s_rejects s; s_check := s_check s; s_check_due := s_check_due s; s_check_asked := s_check_asked s;
  s_suspect := s_suspect s; s_tip_asked := s_tip_asked s; s_candidate_at := s_candidate_at s; s_last_send := s_last_send s |}.
Definition with_pending (s : Session) (x : gmap Z (list PendingBlock)) : Session := {|
  s_slots := s_slots s; s_replies := s_replies s; s_paying := s_paying s; s_budget := s_budget s; s_pending := x;
  s_rejects := s_rejects s; s_check := s_check s; s_check_due := s_check_due s; s_check_asked := s_check_asked s;
  s_suspect := s_suspect s; s_tip_asked := s_tip_asked s; s_candidate_at := s_candidate_at s; s_last_send := s_last_send s |}.
Definition with_rejects (s : Session) (x : list Z) : Session := {|
  s_slots := s_slots s; s_replies := s_replies s; s_paying := s_paying s; s_budget := s_budget s; s_pending := s_pending s;
  s_rejects := x; s_check := s_check s; s_check_due := s_check_due s; s_check_asked := s_check_asked s;
  s_suspect := s_suspect s; s_tip_asked := s_tip_asked s; s_candidate_at := s_candidate_at s; s_last_send := s_last_send s |}.
Definition with_check (s : Session) (c : option TemplateCheck) (due : Z) (asked : option Z) (suspect : bool) : Session := {|
  s_slots := s_slots s; s_replies := s_replies s; s_paying := s_paying s; s_budget := s_budget s; s_pending := s_pending s;
  s_rejects := s_rejects s; s_check := c; s_check_due := due; s_check_asked := asked;
  s_suspect := suspect; s_tip_asked := s_tip_asked s; s_candidate_at := s_candidate_at s; s_last_send := s_last_send s |}.
Definition with_stamps (s : Session) (tip_asked candidate_at : option Z) : Session := {|
  s_slots := s_slots s; s_replies := s_replies s; s_paying := s_paying s; s_budget := s_budget s; s_pending := s_pending s;
  s_rejects := s_rejects s; s_check := s_check s; s_check_due := s_check_due s; s_check_asked := s_check_asked s;
  s_suspect := s_suspect s; s_tip_asked := tip_asked; s_candidate_at := candidate_at; s_last_send := s_last_send s |}.
Definition with_last_send (s : Session) (x : Z) : Session := {|
  s_slots := s_slots s; s_replies := s_replies s; s_paying := s_paying s; s_budget := s_budget s; s_pending := s_pending s;
  s_rejects := s_rejects s; s_check := s_check s; s_check_due := s_check_due s; s_check_asked := s_check_asked s;
  s_suspect := s_suspect s; s_tip_asked := s_tip_asked s; s_candidate_at := s_candidate_at s; s_last_send := x |}.

Definition with_node (x : Shared) (n : NodeState) (base : option CoinbaserBase) : Shared := {|
  sh_node := n; sh_tip := sh_tip x; sh_seen := sh_seen x; sh_parents := sh_parents x; sh_faults := sh_faults x;
  sh_quarantine := sh_quarantine x; sh_base := base; sh_held_off := sh_held_off x;
  sh_gateways := sh_gateways x; sh_pinned := sh_pinned x |}.
Definition with_seen (x : Shared) (s : SeenShares) : Shared := {|
  sh_node := sh_node x; sh_tip := sh_tip x; sh_seen := s; sh_parents := sh_parents x; sh_faults := sh_faults x;
  sh_quarantine := sh_quarantine x; sh_base := sh_base x; sh_held_off := sh_held_off x;
  sh_gateways := sh_gateways x; sh_pinned := sh_pinned x |}.
Definition with_parents (x : Shared) (p : ParentBook) : Shared := {|
  sh_node := sh_node x; sh_tip := sh_tip x; sh_seen := sh_seen x; sh_parents := p; sh_faults := sh_faults x;
  sh_quarantine := sh_quarantine x; sh_base := sh_base x; sh_held_off := sh_held_off x;
  sh_gateways := sh_gateways x; sh_pinned := sh_pinned x |}.
Definition with_faults (x : Shared) (f : Faults) (q : gmap string Quarantine) : Shared := {|
  sh_node := sh_node x; sh_tip := sh_tip x; sh_seen := sh_seen x; sh_parents := sh_parents x; sh_faults := f;
  sh_quarantine := q; sh_base := sh_base x; sh_held_off := sh_held_off x;
  sh_gateways := sh_gateways x; sh_pinned := sh_pinned x |}.
Definition with_held_off (x : Shared) (b : bool) : Shared := {|
  sh_node := sh_node x; sh_tip := sh_tip x; sh_seen := sh_seen x; sh_parents := sh_parents x; sh_faults := sh_faults x;
  sh_quarantine := sh_quarantine x; sh_base := sh_base x; sh_held_off := b;
  sh_gateways := sh_gateways x; sh_pinned := sh_pinned x |}.
Definition with_gateways (x : Shared) (g : gmap string GatewayPayout) (pinned : gset string) : Shared := {|
  sh_node := sh_node x; sh_tip := sh_tip x; sh_seen := sh_seen x; sh_parents := sh_parents x; sh_faults := sh_faults x;
  sh_quarantine := sh_quarantine x; sh_base := sh_base x; sh_held_off := sh_held_off x;
  sh_gateways := g; sh_pinned := pinned |}.

(** * The monad *)

Definition M (A : Type) : Type := St -> panics (St * result SessionError A).
#[export] Instance M_ret : MRet M := fun A a st => Ret (st, Ok a).
#[export] Instance M_bind : MBind M := fun A B f m st =>
  match m st with
  | Ret (st', Ok a) => f a st'
  | Ret (st', Err e) => Ret (st', Err e)
  | Panic => Panic
  end.

Definition fails {A} (e : SessionError) : M A := fun st => Ret (st, Err e).
Definition lift {A} (m : panics A) : M A := fun st => match m with Ret a => Ret (st, Ok a) | Panic => Panic end.
Definition asks {A} (f : St -> A) : M A := fun st => Ret (st, Ok (f st)).
Definition session : M Session := asks st_session.
Definition shared : M Shared := asks st_shared.
Definition put_session (s : Session) : M () := fun st => Ret (with_session st s, Ok tt).
Definition put_shared (x : Shared) : M () := fun st => Ret (with_shared st x, Ok tt).
Definition set_session (f : Session -> Session) : M () := s ← session; put_session (f s).
Definition set_shared (f : Shared -> Shared) : M () := x ← shared; put_shared (f x).

(** [Instant::now], and [state::now]. *)
Definition instant_now : M Z := asks st_clock.
Definition ts_now : M Z := asks st_ts.

(** Something done. *)
Definition did (e : Event) : M () := fun st => Ret ({|
  st_session := st_session st; st_shared := st_shared st; st_clock := st_clock st; st_ts := st_ts st;
  waits := waits st; trace := trace st ++ [e] |}, Ok tt).

(** An [await]: the other tasks run. *)
Definition ask : M ParentAnswer := fun st => Ret (match waits st with
  | [] => (st, Ok NoAnswer)
  | w :: ws => ({| st_session := st_session st; st_shared := acts w (st_shared st); st_clock := reads w;
                   st_ts := reads_ts w; waits := ws; trace := trace st |}, Ok (answer w))
  end).
Definition await_ : M () := _ ← ask; mret tt.

(** [Session::send_mining]: a message is signed and encrypted, then written; and the keep-alive. *)
Definition sent (e : Event) : M () :=
  _ ← did e;
  _ ← await_;
  now ← instant_now;
  set_session (fun s => with_last_send s now).
Definition send_mining (plain : list Z) (signed : bool) : M () := sent (Sent plain signed).
