(* ===== verification/Paying.v ===== *)
(** Which script a session's gateway is configured to pay ([prime/primed/src/session.rs]): its own
    while a tip has no split, the pool's once it has one, and the gateways that need another
    treatment; then its coinbaser requests and its flood limit. *)

From S2P Require Import Prelude Bytes Text Tides Split Window Grace Ledger Disk BlockLog Persist Cursor Frame Coinbaser Coinbase.
From S2P Require Import Mining Handshake Pow Verify State Settle Address ClassBudget Node Validity Slots Replies Session.
Open Scope Z_scope.

Definition MAX_SESSION_IDENTITIES : nat := 1024.

(** ** Field updates *)

Definition with_votes (p : Paying) (x : gmap string Z) (h : option HeldPayout) : Paying := {|
  identity_work := x; payout_script := payout_script p; payout_identity := payout_identity p;
  restore_script_at := restore_script_at p; configured_as_gateway := configured_as_gateway p;
  split_ready := split_ready p; held := h; pins_script := pins_script p; last_split_prev := last_split_prev p;
  pending_reply := pending_reply p; reply_at := reply_at p; full_pool_only := full_pool_only p |}.
Definition with_payout (p : Paying) (script : option (list Z)) (identity : option string) : Paying := {|
  identity_work := identity_work p; payout_script := script; payout_identity := identity;
  restore_script_at := restore_script_at p; configured_as_gateway := configured_as_gateway p;
  split_ready := split_ready p; held := held p; pins_script := pins_script p; last_split_prev := last_split_prev p;
  pending_reply := pending_reply p; reply_at := reply_at p; full_pool_only := full_pool_only p |}.
Definition with_restore (p : Paying) (x : option Z) : Paying := {|
  identity_work := identity_work p; payout_script := payout_script p; payout_identity := payout_identity p;
  restore_script_at := x; configured_as_gateway := configured_as_gateway p;
  split_ready := split_ready p; held := held p; pins_script := pins_script p; last_split_prev := last_split_prev p;
  pending_reply := pending_reply p; reply_at := reply_at p; full_pool_only := full_pool_only p |}.
Definition with_configured (p : Paying) (x : bool) : Paying := {|
  identity_work := identity_work p; payout_script := payout_script p; payout_identity := payout_identity p;
  restore_script_at := restore_script_at p; configured_as_gateway := x;
  split_ready := split_ready p; held := held p; pins_script := pins_script p; last_split_prev := last_split_prev p;
  pending_reply := pending_reply p; reply_at := reply_at p; full_pool_only := full_pool_only p |}.
Definition with_split (p : Paying) (ready : bool) (prev : option string) : Paying := {|
  identity_work := identity_work p; payout_script := payout_script p; payout_identity := payout_identity p;
  restore_script_at := restore_script_at p; configured_as_gateway := configured_as_gateway p;
  split_ready := ready; held := held p; pins_script := pins_script p; last_split_prev := prev;
  pending_reply := pending_reply p; reply_at := reply_at p; full_pool_only := full_pool_only p |}.
Definition with_pins (p : Paying) : Paying := {|
  identity_work := identity_work p; payout_script := payout_script p; payout_identity := payout_identity p;
  restore_script_at := None; configured_as_gateway := configured_as_gateway p;
  split_ready := split_ready p; held := held p; pins_script := true; last_split_prev := last_split_prev p;
  pending_reply := pending_reply p; reply_at := reply_at p; full_pool_only := full_pool_only p |}.
Definition with_pending_reply (p : Paying) (x : option (Z * list Z * Hash)) (at_ : option Z) : Paying := {|
  identity_work := identity_work p; payout_script := payout_script p; payout_identity := payout_identity p;
  restore_script_at := restore_script_at p; configured_as_gateway := configured_as_gateway p;
  split_ready := split_ready p; held := held p; pins_script := pins_script p; last_split_prev := last_split_prev p;
  pending_reply := x; reply_at := at_; full_pool_only := full_pool_only p |}.
Definition with_pool_only (p : Paying) (n : Z) : Paying := {|
  identity_work := identity_work p; payout_script := payout_script p; payout_identity := payout_identity p;
  restore_script_at := restore_script_at p; configured_as_gateway := configured_as_gateway p;
  split_ready := split_ready p; held := held p; pins_script := pins_script p; last_split_prev := last_split_prev p;
  pending_reply := pending_reply p; reply_at := reply_at p; full_pool_only := n |}.

Definition paying : M Paying := s ← session; mret (s_paying s).
Definition set_paying (f : Paying -> Paying) : M () := set_session (fun s => with_paying s (f (s_paying s))).

(** The start of a session: what Prime remembers of the gateway, and whether its build is held. *)
Definition paying_new (known_script : option (list Z)) (held_build pins : bool) : Paying := {|
  identity_work := ∅; payout_script := known_script; payout_identity := None; restore_script_at := None;
  configured_as_gateway := false; split_ready := false; held := if held_build then Some held_new else None;
  pins_script := pins; last_split_prev := None; pending_reply := None; reply_at := None; full_pool_only := 0 |}.

Section Paying.
Context `{World} {cfg : Config} {peer : Peer}.

(** [gateway_key_hex]. *)
Definition gateway_key : string := hex_encode (identity_sign_pk p_hello).

(** * Configures *)

(** [str::ends_with]. *)
Definition ends_with (l tail : list Z) : bool :=
  (length tail <=? length l)%nat && bool_decide (drop (length l - length tail) l = tail).

Definition solo_tag : list Z :=
  let solo := str_bytes "/solo" in
  if ends_with cfg_coinbase_tag solo then cfg_coinbase_tag else cfg_coinbase_tag ++ solo.

Definition configure_body (script tag : list Z) : list Z :=
  match generation p_hello with
  | Ocean => configure_v1 script cfg_prime_id tag cfg_min_diff
  | Convoy => configure_v3 script cfg_prime_id p_resume_token tag cfg_min_diff
  end.

Definition send_configure_script (script : list Z) (gateway : bool) : M () :=
  _ ← send_mining (configure_body script (if gateway then solo_tag else cfg_coinbase_tag)) true;
  set_paying (fun p => with_configured p gateway).

Definition solo_script (p : Paying) : option (list Z) := if pins_script p then None else payout_script p.

Definition send_configure : M () :=
  p ← paying;
  match solo_script p with
  | Some script => send_configure_script script true
  | None => send_configure_script cfg_pool_script false
  end.

Definition stay_on_gateway (p : Paying) : bool :=
  bool_decide (cfg_stock_full_pool_only = "gateway-solo"%string) && (0 <? full_pool_only p).

(** [Session::held_script]. *)
Definition own_script (p : Paying) : option (list Z) :=
  h ← held p; held_script h (size (identity_work p)).

(** [Session::reply_class_budget]. *)
Definition reply_class_budget (p : Paying) (b : option ClassBudget) : option Z :=
  let on_own_script := bool_decide (is_Some (own_script p)) || stay_on_gateway p in
  c ← b; bytes ← cbt_bytes c; if on_own_script then None else Some bytes.

(** * Learning the payout *)

Definition note_held (h : option HeldPayout) (payouts : nat) (dominant_script : option (list Z))
    : M (option HeldPayout * bool) :=
  match h with
  | Some h => r ← lift (held_note h payouts dominant_script); mret (Some (fst r), snd r)
  | None => mret (None, false)
  end.

Definition note_identity (identity : string) (work : Z) : M () :=
  p ← paying;
  if (MAX_SESSION_IDENTITIES <=? size (identity_work p))%nat && bool_decide (identity_work p !! identity = None)
  then mret tt
  else
    let votes := <[identity := sat_add u64_max (default 0 (identity_work p !! identity)) work]> (identity_work p) in
    match dominant votes with
    | None => set_paying (fun p => with_votes p votes (held p))
    | Some dom =>
        let script : option (list Z) := s ← to_script (str_bytes dom) cfg_network; if bool_decide (s = cfg_pool_script) then None else Some s in
        r ← note_held (held p) (size votes) script;
        let '(h, held_now) := (r : option HeldPayout * bool) in
        _ ← set_paying (fun p => with_votes p votes h);
        match script with
        | None => mret tt
        | Some script =>
            let changed := negb (bool_decide (payout_script p = Some script)) in
            if match h with Some h => keeps_off h script | None => false end then mret tt
            else
              _ ← set_paying (fun p => with_payout p (Some script) (Some dom));
              _ ← set_shared (fun x => with_gateways x (fst (remember_gateway (sh_gateways x) gateway_key dom script)) (sh_pinned x));
              if held_now then mret tt
              else if changed && negb (pins_script p) && negb (split_ready p) && negb (configured_as_gateway p)
                      && bool_decide (restore_script_at p = None)
              then now ← instant_now; set_paying (fun p => with_restore p (Some now))
              else mret tt
        end
    end.

Definition follow_held_split (was_held : bool) : M () :=
  p ← paying;
  match was_held, own_script p with
  | false, Some script => send_configure_script script true
  | true, None =>
      if split_ready p && negb (stay_on_gateway p) then send_configure_script cfg_pool_script false else mret tt
  | _, _ => mret tt
  end.

(** * Following the tip *)

Definition has_split_for_tip : M bool :=
  x ← shared; p ← paying;
  mret (match sh_tip x with
        | Some t => split_ready p && bool_decide (last_split_prev p = Some (t_hash t))
        | None => false
        end).

Definition solo_until_split : M () :=
  _ ← set_paying (fun p => with_restore (with_split p false None) None);
  p ← paying;
  match solo_script p with Some script => send_configure_script script true | None => mret tt end.

(** * Replies *)

Definition flush_coinbaser_reply (value : Z) (encoded : list Z) (prev : Hash) : M () :=
  _ ← set_paying (fun p => with_restore p None);
  p ← paying;
  _ ← match own_script p with
      | Some script => if configured_as_gateway p then mret tt else send_configure_script script true
      | None => if stay_on_gateway p then mret tt else send_configure_script cfg_pool_script false
      end;
  _ ← send_mining (coinbaser_reply value encoded) false;
  set_paying (fun p => with_split p true (Some (hex_encode (rev prev)))).

Definition send_coinbaser_reply (value : Z) (encoded : list Z) (prev : Hash) : M () :=
  if negb (cfg_coinbaser_delay_ms =? 0) then
    now ← instant_now;
    set_paying (fun p => with_pending_reply p (Some (value, encoded, prev))
      (match reply_at p with Some t => Some t | None => Some (now + cfg_coinbaser_delay_ms * 1000000) end))
  else flush_coinbaser_reply value encoded prev.

(** * Gateways that keep a job's script *)

Definition shows_pinned_script (p : Paying) (cb : Coinbase) (pol : Policy) : bool :=
  negb (pins_script p) && bool_decide (held p = None) && negb (stay_on_gateway p) && remainder_on_gateway cb pol.

Definition hold_on_pool_script : M () :=
  _ ← set_paying with_pins;
  _ ← set_shared (fun x => with_gateways x (sh_gateways x) (remember_pinned_script (sh_pinned x) gateway_key));
  p ← paying;
  _ ← (if configured_as_gateway p then send_configure_script cfg_pool_script false else mret tt);
  send_mining block_notify false.

(** * The arms of the session's loop that are not frames *)

(** What [serve] sends first. *)
Definition open_session : M () := _ ← send_configure; send_mining block_notify false.

(** A notice from the shared channel: a find of session [n], or a new tip (0) or a lag ([None]). *)
Definition on_notify (n : option Z) : M () :=
  _ ← match n with
      | Some id => if id =? 0 then
                     b ← has_split_for_tip; if (b : bool) then mret tt else solo_until_split
                   else solo_until_split
      | None => b ← has_split_for_tip; if (b : bool) then mret tt else solo_until_split
      end;
  send_mining block_notify false.

(** The timer of [restore_script_at]. *)
Definition on_restore : M () :=
  p ← paying;
  _ ← match solo_script p with Some script => send_configure_script script true | None => mret tt end;
  set_paying (fun p => with_restore p None).

(** The timer of [coinbaser_send_at]. *)
Definition on_reply_due : M () :=
  p ← paying;
  _ ← set_paying (fun p => with_pending_reply p None None);
  match pending_reply p with
  | Some (value, encoded, prev) => flush_coinbaser_reply value encoded prev
  | None => mret tt
  end.
End Paying.

(** * Answering the share stream *)

Section Requests.
Context `{World} {cfg : Config} {peer : Peer}.

Definition is_house_stratum : bool := house_stratum p_remote gateway_key.
Definition is_stratum_front : bool := stratum_front p_remote gateway_key.

(** * The flood limit *)

Definition REJECT_FLOOD : nat := 2000.
Definition REJECT_WINDOW : Z := secs 10.

Fixpoint drop_stale (now : Z) (l : list Z) : list Z :=
  match l with
  | t :: l' => if REJECT_WINDOW <? elapsed now t then drop_stale now l' else l
  | [] => []
  end.

(** [note_reject]: the pool's own gateway starts over, any other is hung up on. *)
Definition note_reject : M () :=
  now ← instant_now;
  s ← session;
  let l := drop_stale now (s_rejects s ++ [now]) in
  _ ← put_session (with_rejects s l);
  if (REJECT_FLOOD <? length l)%nat then
    if is_house_stratum then put_session (with_rejects s [])
    else fails (RejectFlood (Z.of_nat (length l)) 10)
  else mret tt.

Fixpoint note_rejects (n : nat) : M () :=
  match n with O => mret tt | S k => _ ← note_reject; note_rejects k end.

(** * The budget of a reply *)

Definition expire_class_budget : M () :=
  now ← instant_now;
  set_session (fun s => with_budget s (match s_budget s with Some c => Some (fst (expire c now)) | None => None end)).

(** [Shared::coinbaser_base] and [Shared::class_budget_open]. *)
Definition payout_of (identity : string) : option (list Z) := to_script (str_bytes identity) cfg_network.
Definition take_base : M CoinbaserBase :=
  x ← shared;
  now ← instant_now;
  b ← lift (coinbaser_base payout_of (sh_base x) (l_window (nd_ledger (sh_node x))) now);
  _ ← put_shared (with_node x (sh_node x) (Some b));
  mret b.
Definition budget_open (carry : Z) : M bool :=
  x ← shared;
  let '(off, open) := class_budget_open (sh_held_off x) carry cfg_carry_ceiling in
  _ ← put_shared (with_held_off x off);
  mret open.

(** The budget a session has learned, the snapshot taken to see whether it may be applied, and the
    budget that is. *)
Definition settle_budget : M (option CoinbaserBase * option Z) :=
  _ ← expire_class_budget;
  s ← session;
  match reply_class_budget (s_paying s) (s_budget s) with
  | None => mret (None, None)
  | Some bytes =>
      base ← take_base;
      open ← budget_open (base_total_carry base);
      mret (Some base, if (open : bool) then Some bytes else None)
  end.

(** * Requests *)

Definition OVER_RATE_COST : nat := 10.

Definition fresh_reply (value : Z) (prev : Hash) (base : option CoinbaserBase) (budget : option Z) : M () :=
  s ← session;
  let '(r, id) := take_id (s_replies s) in
  _ ← put_session (with_replies s r);
  base ← match base with Some b => mret b | None => take_base end;
  ts ← ts_now;
  sp ← lift (price_reply cfg_split_params base value budget (trunc u32_max ts));
  _ ← send_coinbaser_reply value (encode_v2 id (coinbaser_outputs sp cfg_pool_script)) prev;
  x ← shared;
  c ← lift (issued_reply cfg_pool_script id value prev budget (sh_tip x) sp);
  set_session (fun s => with_replies s (keep_reply (s_replies s) c)).

Definition on_coinbaser_request (value : Z) (prev : Hash) : M () :=
  if (value =? 0) || (MAX_MONEY <? value) then note_reject
  else
    now ← instant_now;
    _ ← set_session (fun s => with_replies s (refill (s_replies s) now));
    r ← settle_budget;
    let '(base, budget) := (r : option CoinbaserBase * option Z) in
    s ← session;
    p ← lift (plan_reply (s_replies s) value budget);
    let '(replies, plan) := (p : Replies * Plan) in
    _ ← put_session (with_replies s replies);
    match plan with
    | RepeatOf c => send_coinbaser_reply value (encode_v2 (ic_id c) (ic_outputs c)) prev
    | Fresh true => _ ← note_rejects OVER_RATE_COST; fresh_reply value prev base budget
    | Fresh false | OverButFresh => fresh_reply value prev base budget
    end.
End Requests.
