(* ===== verification/Found.v ===== *)
(** Found blocks and template checks ([prime/primed/src/session.rs]): a candidate is booked and
    recorded, its gateway asked for the transactions, and the block built from them submitted; the
    same question asked now and then lets our node check the gateway's template. *)

From S2P Require Import Prelude Bytes Text Tides Split Window Grace Ledger Disk BlockLog Persist Cursor Frame Coinbaser Coinbase.
From S2P Require Import Mining Handshake Pow Verify State Settle Address ClassBudget Node Validity Slots Replies Session Paying.
Open Scope Z_scope.

Section Found.
Context `{World} {cfg : Config} {peer : Peer}.

Definition PENDING_BLOCK_TTL : Z := secs 120.
Definition TEMPLATE_CHECK_EVERY : Z := secs 600.
Definition TEMPLATE_RECHECK_EVERY : Z := secs 120.
Definition TEMPLATE_CHECK_FIRST : Z := secs 30.
Definition TEMPLATE_CHECK_TTL : Z := secs 120.

(** * Booking a candidate *)

(** The coinbaser a block is settled against. *)
Definition coinbaser_of (c : IssuedCoinbaser) : Settle.Coinbaser := {|
  cbr_value := ic_value c; cbr_payees := ic_payees c; cbr_unpaid := ic_unpaid c;
  cbr_rebate_credits := ic_rebate_credits c; cbr_owed_credited := ic_owed_credited c;
  cbr_deferred := ic_deferred c; class_capped := bool_decide (is_Some (class_budget c)) |}.
Definition coinbaser_live (sp : Split.Split) : Settle.Coinbaser := {|
  cbr_value := s_value sp; cbr_payees := s_payees sp; cbr_unpaid := s_unpaid sp;
  cbr_rebate_credits := s_rebate_credits sp; cbr_owed_credited := s_rebate_owed_credited sp;
  cbr_deferred := s_rebate_deferred sp; class_capped := false |}.

(** The reply a job named, where the session still holds it. *)
Definition issued_to_job (s : Session) (job_id : Z) : panics (option IssuedCoinbaser) :=
  match js_job (slot_at (s_slots s) (Z.to_nat job_id)) with
  | Some j => issued_for (kept (s_replies s)) (coinbaser_id j) (j_prev_hash j) (height j)
  | None => Ret None
  end.

(** What a block on [kind] is settled against: that reply, or for a pool-only one a split of the
    window as it is. *)
Definition settled_against (kind : CoinbaseKind) (value : Z) (issued : option IssuedCoinbaser) (w : Window) (ts : Z)
    : panics (option Settle.Coinbaser) :=
  match issued with
  | Some c => Ret (Some (coinbaser_of c))
  | None =>
      if bool_decide (kind = PoolOnly)
      then sp ← window_split w value cfg_split_params (trunc u32_max ts) payout_of; Ret (Some (coinbaser_live sp))
      else Ret None
  end.

(** [Shared::book_block_debits]. *)
Definition book_block_debits (nd : NodeState) (hash : string) (delta : list (string * Z)) (b : Books)
    : panics (NodeState * Books) :=
  let '(l, b) := ledger_book_debits (nd_ledger nd) delta b in
  '(l, ops) ← flush (note_debit_applied l hash) (nd_disk nd);
  _ ← carries (l_window l);
  Ret ({| nd_ledger := l; nd_blocks := nd_blocks nd; nd_disk := run_ops (nd_disk nd) ops |}, b).

(** What the books make of a settlement: the state after the debits, the books, and the figures of
    the record that depend on what was on them. *)
Record Figures := {
  fg_books : Books;
  fg_carry_paid : Z;
  fg_shortfall : Z;
  fg_delta : list (string * Z);
  fg_credited : Z
}.
Definition settles (se : Settlement) : bool :=
  negb (bool_decide (se_carry_delta se = [])) || (0 <? se_rebate_credited se) || negb (se_rebate_delta se =? 0).

Definition book_settlement (nd : NodeState) (hash : string) (se : Settlement) (cb : option Settle.Coinbaser)
    (issued : option IssuedCoinbaser) : panics (NodeState * Figures) :=
  let owed_credited := match cb with Some c => cbr_owed_credited c | None => 0 end in
  let deferred := match cb with Some c => cbr_deferred c | None => 0 end in
  if settles se then
    '(nd, b) ← book_block_debits nd hash (se_carry_delta se) (books_new owed_credited deferred);
    _ ← chk_sum u64_max 0 (map snd (debited b));
    '(paid, short) ← carry_on_record (se_carry_placed se) b;
    '(delta, credited) ← match issued with
      | Some c => if rebate_debited b <? ic_owed_credited c
                  then cap_rebate_to_owed_drawn (se_carry_delta se) (se_rebate_credits se) (ic_owed_credited c) (rebate_debited b)
                  else Ret (se_carry_delta se, se_rebate_credited se)
      | None => Ret (se_carry_delta se, se_rebate_credited se)
      end;
    _ ← chk_sum i64_max 0 (map (fun d => Z.max d.2 0) delta);
    Ret (nd, {| fg_books := b; fg_carry_paid := paid; fg_shortfall := short; fg_delta := delta; fg_credited := credited |})
  else Ret (nd, {| fg_books := books_new 0 0; fg_carry_paid := se_carry_paid se; fg_shortfall := 0;
                   fg_delta := se_carry_delta se; fg_credited := se_rebate_credited se |}).

Definition record_of (v : VerifiedShare) (finder gateway hash : string) (ts : Z) (se : Settlement) (f : Figures) : BlockRecord := {|
  br_ts := ts; br_height := v_height v; br_hash := hash; br_finder := Some finder;
  br_coinbase_value := v_coinbase_value v; br_kind := se_kind se; br_owed_sats := se_owed se; br_split := se_split se;
  br_pool_sats := v_paid_to_pool v; br_carry_paid := fg_carry_paid f; br_carry_delta := fg_delta f;
  br_rebate_credited := fg_credited f; br_rebate_delta := se_rebate_delta se; br_settled := false;
  br_submit := "pending"; br_gateway := gateway; br_books := Some (fg_books f);
  br_carry_shortfall_sats := fg_shortfall f; br_carry_reserved_sats := se_carry_reserved se |}.

(** [Shared::record_block], with its line in the log. *)
Definition record_found (nd : NodeState) (r : BlockRecord) : NodeState := {|
  nd_ledger := nd_ledger nd; nd_blocks := record_block (nd_blocks nd) r;
  nd_disk := run_ops (nd_disk nd) [log_append r] |}.

Definition gateway_hex : string := hex_encode (take 8 (identity_sign_pk p_hello)).
Definition block_hex (hash : Hash) : string := hex_encode (rev hash).

(** The books and the record of a candidate. *)
Definition book_candidate (s : PowSubmit) (v : VerifiedShare) (finder : string) : M () :=
  sn ← session;
  issued ← lift (issued_to_job sn (job_id s));
  x ← shared;
  ts ← ts_now;
  cb ← lift (settled_against (v_coinbase_kind v) (v_coinbase_value v) issued (l_window (nd_ledger (sh_node x))) ts);
  se ← lift (settle (v_coinbase_kind v) cb (v_coinbase_value v) (paid_to (v_coinbase v)));
  b ← lift (book_settlement (sh_node x) (block_hex (v_hash v)) se cb issued);
  let '(nd, f) := (b : NodeState * Figures) in
  let r := record_of v finder gateway_hex (block_hex (v_hash v)) ts se f in
  _ ← put_shared (with_node x (record_found nd r) (if settles se then None else sh_base x));
  did (Booked r).

Definition on_block_candidate (s : PowSubmit) (v : VerifiedShare) (finder : string) : M () :=
  now ← instant_now;
  _ ← set_session (fun sn => with_stamps sn (s_tip_asked sn) (Some now));
  _ ← book_candidate s v finder;
  now ← instant_now;
  let p := {| pb_share := v; pb_submit := s; pb_hash := block_hex (v_hash v); pb_at := now |} in
  _ ← set_session (fun sn => with_pending sn (<[job_id s := default [] (s_pending sn !! job_id s) ++ [p]]> (s_pending sn)));
  _ ← send_mining (request_full_block (job_id s)) false;
  did (Told (p_id)).

(** * Template checks *)

(** [Faults::get] of the session's gateway. *)
Definition gateway_fault : M (option Fault) :=
  x ← shared;
  ts ← ts_now;
  let '(f, r) := fault_get (sh_faults x) gateway_key ts in
  _ ← put_shared (with_faults x f (sh_quarantine x));
  mret r.

(** [maybe_check_template]. *)
Definition check_is_due (sn : Session) (x : Shared) (now job : Z) (prev : Hash) : bool :=
  negb ((now <? s_check_due sn)
        || match s_check sn with Some c => elapsed now (tc_at c) <? TEMPLATE_CHECK_TTL | None => false end
        || bool_decide (is_Some (s_pending sn !! job))
        || negb (bool_decide ((t ← sh_tip x; t_hash_le t) = Some prev))).

Definition maybe_check_template (chain : option JobCheck) (prev : Hash) (s : PowSubmit) (v : VerifiedShare) : M () :=
  if is_house_stratum || negb (bool_decide (chain = Some Current)) || (c_txcount (v_commitment v) <=? 1) then mret tt
  else
    now ← instant_now;
    sn ← session;
    x ← shared;
    if negb (check_is_due sn x now (job_id s) prev) then mret tt
    else
      fault ← gateway_fault;
      let often := bool_decide (is_Some (fault : option Fault)) || s_suspect sn in
      _ ← put_session (with_check sn (Some {| tc_job := job_id s; tc_share := v; tc_submit := s; tc_at := now |})
            (now + (if often then TEMPLATE_RECHECK_EVERY else TEMPLATE_CHECK_EVERY)) (Some now) (s_suspect sn));
      send_mining (request_full_block (job_id s)) false.

(** * The gateway's transactions *)

(** [submit_candidate] and [check_template] build the block and hand it to a task of its own. *)
Definition submit_candidate (p : PendingBlock) (txns : list (list Z)) : M () :=
  match assemble_block (pb_share p) (pb_submit p) txns with
  | Some block => did (Submitting p block)
  | None => lift Panic
  end.
Definition check_template (c : TemplateCheck) (txns : list (list Z)) : M () :=
  match assemble_block (tc_share c) (tc_submit c) txns with
  | Some block => did (Checking c block)
  | None => lift Panic
  end.
Fixpoint submit_all (ps : list PendingBlock) (txns : list (list Z)) : M () :=
  match ps with [] => mret tt | p :: ps' => _ ← submit_candidate p txns; submit_all ps' txns end.

(** [Shared::update_block] on the label of a submit. *)
Definition with_submit (r : BlockRecord) (outcome : string) : BlockRecord := {|
  br_ts := br_ts r; br_height := br_height r; br_hash := br_hash r; br_finder := br_finder r;
  br_coinbase_value := br_coinbase_value r; br_kind := br_kind r; br_owed_sats := br_owed_sats r;
  br_split := br_split r; br_pool_sats := br_pool_sats r; br_carry_paid := br_carry_paid r;
  br_carry_delta := br_carry_delta r; br_rebate_credited := br_rebate_credited r;
  br_rebate_delta := br_rebate_delta r; br_settled := br_settled r; br_submit := outcome;
  br_gateway := br_gateway r; br_books := br_books r; br_carry_shortfall_sats := br_carry_shortfall_sats r;
  br_carry_reserved_sats := br_carry_reserved_sats r |}.
Definition label_block (nd : NodeState) (hash outcome : string) : NodeState * option BlockRecord :=
  match update_block (fun (st : ()) r => (st, with_submit r outcome)) tt hash (nd_blocks nd) with
  | Some (_, blocks, r) =>
      ({| nd_ledger := nd_ledger nd; nd_blocks := blocks; nd_disk := run_ops (nd_disk nd) [log_append r] |}, Some r)
  | None => (nd, None)
  end.
Fixpoint label_all (ps : list PendingBlock) (outcome : string) : M () :=
  match ps with
  | [] => mret tt
  | p :: ps' =>
      _ ← set_shared (fun x => with_node x (fst (label_block (sh_node x) (pb_hash p) outcome)) (sh_base x));
      label_all ps' outcome
  end.

Definition on_validation (r : JobValidationReply) : M () :=
  sn ← session;
  let job := validation_job r in
  let pending := s_pending sn !! job in
  let check := match s_check sn with Some c => if tc_job c =? job then Some c else None | None => None end in
  let taken := with_check (with_pending sn (delete job (s_pending sn)))
                 (if bool_decide (is_Some check) then None else s_check sn) (s_check_due sn) (s_check_asked sn) (s_suspect sn) in
  if negb (bool_decide (is_Some pending)) && negb (bool_decide (is_Some check)) then put_session taken
  else
    let have (status : ValidationStatus) (txns : list (list Z)) :=
      _ ← put_session taken;
      if bool_decide (status = StatusOk) then
        _ ← submit_all (default [] pending) txns;
        match check with Some c => check_template c txns | None => mret tt end
      else label_all (default [] pending) "no-transactions" in
    match r with
    | FullBlock _ status txns | Transactions _ status txns => have status txns
    | ShortIds _ _ _ _ => mret tt
    end.

(** * The tasks *)

(** [mark_faulted] and [clear_fault]. *)
Definition mark_faulted (x : Shared) (reason : list Z) (job height : Z) (found_by : string) (ts : Z) : Shared :=
  let f := fst (note_fail (sh_faults x) gateway_key reason job height found_by ts) in
  with_faults x f (sh_quarantine x).
Definition clear_fault (x : Shared) : Shared :=
  with_faults x (fst (fault_clear (sh_faults x) gateway_key)) (sh_quarantine x).

(** The task of [check_template]: [Passes] is a null answer. *)
Inductive Proposal := Passes | Refused (reason : list Z) | Inconclusive.
Definition judge_template (x : Shared) (c : TemplateCheck) (a : Proposal) (ts : Z) : Shared :=
  let height := v_height (tc_share c) in
  match a with
  | Passes => clear_fault x
  | Refused reason =>
      if template_fault reason
      then mark_faulted x reason (job_token (job_id (tc_submit c)) height) height "template check" ts else x
  | Inconclusive => x
  end.

(** The task of [submit_candidate], with the node's word on the block. *)
Definition judge_submit (x : Shared) (p : PendingBlock) (outcome : string) (ts : Z) : panics Shared :=
  let share_height := v_height (pb_share p) in
  let bytes := str_bytes outcome in
  let x :=
    if is_house_stratum then x
    else if template_fault bytes
    then mark_faulted x bytes (job_token (job_id (pb_submit p)) share_height) share_height "found block" ts
    else if bool_decide (outcome = "accepted"%string) then clear_fault x else x in
  let '(nd, r) := label_block (sh_node x) (pb_hash p) outcome in
  let x := with_node x nd (sh_base x) in
  x ← (if says_outdated_node bytes && negb is_house_stratum then
         q ← quarantine_gateway cfg_quarantine (sh_quarantine x) gateway_key
               (match r with Some r => br_height r | None => 0 end) outcome ts;
         Ret (with_faults x (sh_faults x) (fst q))
       else Ret x);
  match r with
  | Some _ =>
      if says_invalid outcome then
        '(nd, ops) ← mark_orphan (sh_node x) (pb_hash p);
        Ret (with_node x nd (match ops with [] => sh_base x | _ => None end))
      else Ret x
  | None => Ret x
  end.
End Found.
