(* ===== verification/Shares.v ===== *)
(** A share, from the frame to its receipt ([prime/primed/src/session.rs], [on_pow] and what it
    calls). *)

From S2P Require Import Prelude Bytes Text Tides Split Window Grace Ledger Disk BlockLog Persist Cursor Frame Coinbaser Coinbase.
From S2P Require Import Mining Handshake Pow Verify State Settle Address ClassBudget Node Validity Slots Replies Session Paying Found.
Open Scope Z_scope.

Section Shares.
Context `{World} {cfg : Config} {peer : Peer}.

Definition AHEAD_REFRESH_EVERY : Z := secs 1.
Definition MAX_IDENTITIES : Z := Z.shiftl 1 16.
Definition MAX_IDENTITIES_HARD : Z := Z.shiftl 1 20.

(** * Refusing *)

Definition receipt (s : PowSubmit) (status code : Z) : list Z :=
  share_receipt status code (nonce32 s) (target_pot s) (job_id s).
Definition refuse (s : PowSubmit) (code : Z) : M () := send_mining (receipt s REJECTED code) false.
Definition reject (s : PowSubmit) (code : Z) : M () := _ ← refuse s code; note_reject.

(** * Taking a share in *)

Definition share_identity (s : PowSubmit) : option string :=
  let i := canonical_identity (identity_of (username s)) in
  if (length i =? 0)%nat || (128 <? length i)%nat || negb (forallb is_ascii_graphic i) then None
  else Some (bytes_str i).

(** The checks that need no hashing, and the share's sections. *)
Definition take_share (s : PowSubmit) : M (result Z (string * JobSection)) :=
  sn ← session;
  if (length (job_slots (s_slots sn)) <=? Z.to_nat (job_id s))%nat then mret (Err REJECT_BAD_JOB_ID) else
  match share_identity s with
  | None => mret (Err REJECT_BAD_USERNAME)
  | Some identity =>
      let '(slots, r) := take_sections (s_slots sn) s cfg_coinbase_budget in
      _ ← put_session (with_slots sn slots);
      mret (match r with Ok j => Ok (identity, j) | Err code => Err code end)
  end.

(** * The chain *)

Definition check_on (t : Tip) (j : JobSection) (now : Z) : M JobCheck :=
  lift (check_job t (j_prev_hash j) (height j) (nbits_u32 j) (secs cfg_stale_grace) now).

Definition code_of (c : JobCheck) : option Z :=
  match c with
  | Current | AheadByOne | OtherBranch => None
  | Stale | Ahead => Some REJECT_STALE_BLOCK
  | WrongBits => Some REJECT_TARGET_MISMATCH
  end.

(** The job held to the node's tip, the node asked again when the job is ahead of it. [None] is
    the node having given no tip. *)
Definition hold_to_chain (j : JobSection) : M (result Z (option JobCheck)) :=
  x ← shared;
  match sh_tip x with
  | None => mret (Ok None)
  | Some tip =>
      now ← instant_now;
      check ← check_on tip j now;
      sn ← session;
      let ahead := bool_decide (check = Ahead) || bool_decide (check = AheadByOne) in
      check ← (if ahead && match s_tip_asked sn with Some t => AHEAD_REFRESH_EVERY <? elapsed now t | None => true end
               then
                 _ ← put_session (with_stamps sn (Some now) (s_candidate_at sn));
                 _ ← await_;
                 x ← shared;
                 now ← instant_now;
                 match sh_tip x with Some t => check_on t j now | None => mret check end
               else mret check);
      mret (match code_of check with Some code => Err code | None => Ok (Some check) end)
  end.

(** [parent_verdict], for a job that is not on our tip's chain; what else happens while the node is
    asked happens. *)
Definition judge_parent (chain : option JobCheck) (prev : Hash) : M ParentVerdict :=
  if bool_decide (chain = Some OtherBranch) || bool_decide (chain = Some AheadByOne) then
    now ← instant_now;
    x ← shared;
    let '(b, known, asked) := parent_lookup (sh_parents x) prev now in
    _ ← put_shared (with_parents x b);
    if negb asked then mret known
    else
      a ← ask;
      _ ← match (a : ParentAnswer) with HasBlock _ => await_ | _ => mret tt end;
      x ← shared;
      let '(b, v) := parent_record (sh_parents x) prev (parent_state (hex_encode (rev prev)) a) now in
      _ ← put_shared (with_parents x b);
      mret v
  else mret VTake.

Definition refuse_dead_parent (s : PowSubmit) : M () :=
  now ← instant_now;
  _ ← set_session (fun sn => if s_suspect sn then sn else with_check sn (s_check sn) now (s_check_asked sn) true);
  refuse s REJECT_STALE_BLOCK.

(** * Verifying *)

Definition policy_for (j : JobSection) : M Policy :=
  sn ← session;
  issued ← lift (issued_for (kept (s_replies sn)) (coinbaser_id j) (j_prev_hash j) (height j));
  ts ← ts_now;
  mret {| pool_script := cfg_pool_script; Verify.issued := ic_outputs <$> issued; tolerance := cfg_split_tolerance;
          Verify.now := trunc u32_max ts; min_pot := cfg_min_pot; gateway_script := payout_script (s_paying sn);
          empty_solo_fee_bps := cfg_empty_solo_fee_bps; trusted_target := is_house_stratum;
          uncommitted_pot := cfg_uncommitted_pot; held_split := bool_decide (is_Some (held (s_paying sn))) |}.

Definition verify_in_slot (s : PowSubmit) (pol : Policy) : M (result Z VerifiedShare) :=
  sn ← session;
  let id := Z.to_nat (job_id s) in
  r ← lift (verify_share sha256 blake2b256 (slot_at (s_slots sn) id) s pol);
  match r with
  | Ok (v, slot) => _ ← put_session (with_slots sn (with_slot (s_slots sn) id slot)); mret (Ok v)
  | Err code => mret (Err code)
  end.

Definition refuse_unverified (s : PowSubmit) (pol : Policy) (code : Z) : M () :=
  sn ← session;
  let refused := if code =? REJECT_BAD_COINBASE_OUTPUTS
                 then coinbase_of (slot_at (s_slots sn) (Z.to_nat (job_id s))) s else None in
  let pinned := match refused with Some cb => shows_pinned_script (s_paying sn) cb pol | None => false end in
  _ ← reject s code;
  if pinned then hold_on_pool_script else mret tt.

(** * Crediting *)

(** A share that earned nothing is kept out of the set. *)
Definition enter_seen (v : VerifiedShare) : M State.Seen :=
  if (v_work v =? 0) && negb (v_is_block_candidate v) then mret State.Fresh
  else
    x ← shared;
    let '(set, r) := seen_insert (sh_seen x) (v_height v) (v_hash v) in
    _ ← put_shared (with_seen x set);
    mret r.

Definition is_solo (k : CoinbaseKind) : bool := bool_decide (k = EmptySolo) || bool_decide (k = GatewaySolo).

Definition vote (identity : string) (v : VerifiedShare) : M () :=
  if 0 <? v_work v then
    p ← paying;
    let was_held := bool_decide (is_Some (own_script p)) in
    _ ← note_identity identity (v_work v);
    p ← paying;
    if bool_decide (is_Some (held p)) then follow_held_split was_held else mret tt
  else mret tt.

(** Whether the identity table takes a new row for the identity. *)
Definition no_row_for (w : Window) (identity : string) (work : Z) : bool :=
  let known := Z.of_nat (length (idents w)) in
  (MAX_IDENTITIES <=? known) && (work_of w identity =? 0) && (0 <? work)
  && ((MAX_IDENTITIES_HARD <=? known) || bool_decide (payout_of identity = None)).

Definition credit_window (l : Ledger) (identity : string) (v : VerifiedShare) (ts : Z) : panics (Ledger * Z) :=
  let '(l, source) := if is_stratum_front then (l, SOURCE_STRATUM)
                      else ledger_source_for l identity ts is_house_stratum cfg_grace in
  l ← ledger_credit l identity (v_work v) (v_height v) ts source;
  Ret (l, source).

Definition credit_share (identity : string) (v : VerifiedShare) (ts : Z) : M bool :=
  if is_solo (v_coinbase_kind v) then mret true
  else
    x ← shared;
    let nd := sh_node x in
    if no_row_for (l_window (nd_ledger nd)) identity (v_work v) then mret false
    else if 0 <? v_work v then
      r ← lift (credit_window (nd_ledger nd) identity v (trunc u32_max ts));
      let '(l, source) := (r : Ledger * Z) in
      _ ← put_shared (with_node x {| nd_ledger := l; nd_blocks := nd_blocks nd; nd_disk := nd_disk nd |} (sh_base x));
      _ ← did (Credited identity (v_work v) (v_height v) (trunc u32_max ts) source);
      mret true
    else mret true.

(** [note_partial_share], where a class budget applies to the session. *)
Definition learn_budget (s : PowSubmit) (j : JobSection) (pol : Policy) (v : VerifiedShare) : M () :=
  if match v_coinbase_kind v with Partial _ => true | _ => false end && (0 <? v_work v) then
    now ← instant_now;
    set_session (fun sn => with_budget sn (c ← s_budget sn;
      Some (fst (note_partial_share c (coinbase_id s) (coinbaser_id j) (txn_total_weight j) (Verify.issued pol)
                   cfg_pool_script solo_tag (v_coinbase v) now))))
  else mret tt.

(** [note_pool_only_share]. *)
Definition note_pool_only (s : PowSubmit) (v : VerifiedShare) : M () :=
  if bool_decide (v_coinbase_kind v = PoolOnly) && negb (subsidy_only s) then
    p ← paying;
    n ← lift (chk_add u64_max (full_pool_only p) 1);
    set_paying (fun p => with_pool_only p n)
  else mret tt.

Definition status_of (k : CoinbaseKind) : Z := if bool_decide (k = Split) then ACCEPTED else ACCEPTED_TENTATIVELY.

(** A share whose gateway's template our node found invalid. *)
Definition refuse_faulted (s : PowSubmit) (j : JobSection) (chain : option JobCheck) (v : VerifiedShare) (identity : string) : M () :=
  _ ← refuse s REJECT_OTHER;
  _ ← maybe_check_template chain (j_prev_hash j) s v;
  if v_is_block_candidate v && bool_decide (is_Some chain) then on_block_candidate s v identity else mret tt.

(** What is done for a share that is credited, up to its receipt. *)
Definition accept_share (s : PowSubmit) (j : JobSection) (chain : option JobCheck) (pol : Policy) (v : VerifiedShare)
    (identity : string) : M () :=
  _ ← learn_budget s j pol v;
  _ ← note_pool_only s v;
  _ ← maybe_check_template chain (j_prev_hash j) s v;
  _ ← (if v_is_block_candidate v && bool_decide (is_Some chain) then on_block_candidate s v identity else mret tt);
  send_mining (receipt s (status_of (v_coinbase_kind v)) 0) false.

(** The part of [on_pow] after the share verified. *)
Definition on_verified (s : PowSubmit) (j : JobSection) (chain : option JobCheck) (pol : Policy) (v : VerifiedShare)
    (identity : string) : M () :=
  p ← paying;
  _ ← (if bool_decide (v_coinbase_kind v = GatewaySolo) && shows_pinned_script p (v_coinbase v) pol
       then hold_on_pool_script else mret tt);
  seen ← enter_seen v;
  match (seen : State.Seen) with
  | Duplicate => reject s REJECT_DUPLICATE_WORK
  | Full => reject s REJECT_OTHER
  | State.Fresh =>
      fault ← (if is_house_stratum then mret None else gateway_fault);
      match (fault : option Fault) with
      | Some _ => refuse_faulted s j chain v identity
      | None =>
          _ ← vote identity v;
          ts ← ts_now;
          ok ← credit_share identity v ts;
          if (ok : bool) then accept_share s j chain pol v identity else reject s REJECT_BAD_USERNAME
      end
  end.

Definition on_pow (s : PowSubmit) : M () :=
  r ← take_share s;
  match (r : result Z (string * JobSection)) with
  | Err code => reject s code
  | Ok (identity, j) =>
      r ← hold_to_chain j;
      match (r : result Z (option JobCheck)) with
      | Err code => reject s code
      | Ok chain =>
          verdict ← judge_parent chain (j_prev_hash j);
          if negb (bool_decide (verdict = VTake)) then refuse_dead_parent s
          else
            pol ← policy_for j;
            r ← verify_in_slot s pol;
            match (r : result Z VerifiedShare) with
            | Err code => refuse_unverified s pol code
            | Ok v => on_verified s j chain pol v identity
            end
      end
  end.
End Shares.
