(* ===== verification/Serve.v ===== *)
(** The loop of a session ([prime/primed/src/session.rs], [serve] and [handle_frame]): frames cut
    from the bytes that arrive, notices, the clock and the two timers.

    The loop's own state is kept apart from the session's ([Reader]). *)

From S2P Require Import Prelude Bytes Text Tides Split Window Grace Ledger Disk BlockLog Persist Cursor Frame Crypto Coinbaser Coinbase.
From S2P Require Import Mining Handshake Pow Verify State Settle Address ClassBudget Node Validity Slots Replies Session Paying Found Shares.
Open Scope Z_scope.

Definition MAX_IDLE_FRAME : Z := 192 * 1024.
Definition BLOCK_REPLY_WINDOW : Z := secs 1800.
Definition KEEPALIVE : Z := secs 20.
Definition IDLE_LIMIT : Z := secs 300.

Section Serve.
Context `{World} {cfg : Config} {peer : Peer}.
Context {Key Identity Rand : Type} `{Nacl Identity Rand} (box_decrypt : Key -> list Z -> list Z -> option (list Z)).

(** * Frames *)

Definition handle_message (m : ClientMsg) : M () :=
  match m with
  | MsgCoinbaserRequest r => on_coinbaser_request (cr_value r) (cr_prev_hash r)
  | MsgPow s => on_pow s
  | MsgJobValidation r => on_validation r
  | MsgUnknown _ => mret tt
  end.

(** What a frame's payload says, opened and its signature checked, and the channel after it. *)
Definition open_payload (ch : Channel (Key := Key)) (h : Header) (payload : list Z) : result Error (list Z) * Channel (Key := Key) :=
  let '(body, ch) := if h_channel h then decrypt box_decrypt ch payload else (Ok payload, ch) in
  (match body with
   | Ok body => if h_signed h then verify_trailing (session_sign_pk p_hello) body else Ok body
   | Err e => Err e
   end, ch).

Definition handle_frame (ch : Channel (Key := Key)) (h : Header) (payload : list Z) : M (Channel (Key := Key)) :=
  if h_sealed h then fails (Bad "sealed frame after handshake")
  else
    let '(body, ch) := open_payload ch h payload in
    match body with
    | Err e => fails (Wire e)
    | Ok body =>
        _ ← (if h_cmd h =? Cursor.MINING then
               if negb (h_channel h) then fails (Bad "plaintext mining frame")
               else match parse_client body with
                    | Ok m => handle_message m
                    | Err _ => note_reject
                    end
             else if h_cmd h =? HELLO then fails (Bad "second hello") else mret tt);
        mret ch
    end.

(** * Writing frames *)

(** [write_frame]: the bytes that go out, and the header keys after it. *)
Definition write_frame (h : Header) (payload : list Z) (keys : KeyStream) : list Z * KeyStream :=
  let '(hb, keys) := header_encode h keys in (hb ++ payload, keys).

(** What [send_mining] and [keepalive_frame] put on the wire; a gateway builds its mining frames the
    same way. *)
Definition mining_frame (box_encrypt : Key -> list Z -> list Z -> list Z) (session_key : Identity)
    (ch : Channel (Key := Key)) (keys : KeyStream) (plain : list Z) (signed : bool)
    : list Z * Channel (Key := Key) * KeyStream :=
  let '(payload, ch) := encrypt box_encrypt ch (if signed then plain ++ sign session_key plain else plain) in
  let h := header_new Cursor.MINING (Z.of_nat (length payload)) in
  let h := {| h_len := h_len h; h_signed := signed; h_sealed := false; h_channel := true; h_cmd := h_cmd h |} in
  let '(out, keys) := write_frame h payload keys in
  (out, ch, keys).

Definition keepalive_frame (box_encrypt : Key -> list Z -> list Z -> list Z) (ch : Channel (Key := Key))
    : Header * list Z * Channel (Key := Key) :=
  let '(payload, ch) := encrypt box_encrypt ch [] in
  let h := header_new PING (Z.of_nat (length payload)) in
  ({| h_len := h_len h; h_signed := false; h_sealed := false; h_channel := true; h_cmd := h_cmd h |}, payload, ch).

(** * Cutting frames *)

Record Reader := {
  rd_buf : list Z;
  rd_keys : KeyStream;
  rd_header : option Header;
  rd_channel : Channel (Key := Key);
  rd_last_recv : Z
}.

(** [InBuf::take]. *)
Definition buf_take (rd : Reader) (n : nat) : option (list Z * Reader) :=
  if (length (rd_buf rd) <? n)%nat then None
  else Some (take n (rd_buf rd),
             {| rd_buf := drop n (rd_buf rd); rd_keys := rd_keys rd; rd_header := rd_header rd;
                rd_channel := rd_channel rd; rd_last_recv := rd_last_recv rd |}).
Definition with_header (rd : Reader) (h : option Header) (k : KeyStream) : Reader := {|
  rd_buf := rd_buf rd; rd_keys := k; rd_header := h; rd_channel := rd_channel rd; rd_last_recv := rd_last_recv rd |}.
Definition received (rd : Reader) (ch : Channel (Key := Key)) (now : Z) : Reader := {|
  rd_buf := rd_buf rd; rd_keys := rd_keys rd; rd_header := None; rd_channel := ch; rd_last_recv := now |}.
Definition feed (rd : Reader) (b : list Z) : Reader := {|
  rd_buf := rd_buf rd ++ b; rd_keys := rd_keys rd; rd_header := rd_header rd;
  rd_channel := rd_channel rd; rd_last_recv := rd_last_recv rd |}.

(** The largest frame taken now: full size while a found block's transactions may be on their
    way. *)
Definition within (now : Z) (o : option Z) (span : Z) : bool :=
  match o with Some t => elapsed now t <? span | None => false end.
Definition frame_cap (s : Session) (now : Z) : Z :=
  if negb (bool_decide (s_pending s = ∅)) || within now (s_candidate_at s) BLOCK_REPLY_WINDOW
     || within now (s_check_asked s) TEMPLATE_CHECK_TTL
  then MAX_CMD_LEN else MAX_IDLE_FRAME.

(** The header of the next frame, when its bytes are there. *)
Definition next_header (rd : Reader) : M (option (Header * Reader)) :=
  match rd_header rd with
  | Some h => mret (Some (h, rd))
  | None =>
      match buf_take rd HEADER_SIZE with
      | None => mret None
      | Some (hb, rd) =>
          match header_decode hb (rd_keys rd) with
          | (Err e, _) => fails (Wire e)
          | (Ok h, k) =>
              s ← session;
              now ← instant_now;
              if frame_cap s now <? h_len h then fails (Bad "frame too large")
              else mret (Some (h, with_header rd (Some h) k))
          end
      end
  end.

(** The inner loop of [serve]; every round but the last uses up a header, so a round for every
    byte and two more are enough ([frames_enough]). *)
Fixpoint read_frames (fuel : nat) (rd : Reader) : M Reader :=
  match fuel with
  | O => mret rd
  | S k =>
      r ← next_header rd;
      match (r : option (Header * Reader)) with
      | None => mret rd
      | Some (h, rd) =>
          match buf_take rd (Z.to_nat (h_len h)) with
          | None => mret rd
          | Some (payload, rd) =>
              ch ← handle_frame (rd_channel rd) h payload;
              now ← instant_now;
              read_frames k (received rd ch now)
          end
      end
  end.
Definition enough (rd : Reader) : nat := 2 + length (rd_buf rd).

(** * The loop *)

(** What [select] wakes for: bytes, the end of the stream, a notice, the tick, the two timers. *)
Inductive Input := Bytes (b : list Z) | Eof | Notify (n : option Z) | Tick | RestoreDue | ReplyDue.

Definition on_tick (rd : Reader) : M () :=
  now ← instant_now;
  if IDLE_LIMIT <? elapsed now (rd_last_recv rd) then fails Idle
  else
    s ← session;
    _ ← (if KEEPALIVE <? elapsed now (s_last_send s) then sent Ping else mret tt);
    now ← instant_now;
    set_session (fun s => with_pending s
    (filter (fun e => e.2 <> []) (filter (fun p => elapsed now (pb_at p) < PENDING_BLOCK_TTL) <$> s_pending s))).

Definition serve_once (rd : Reader) (i : Input) : M Reader :=
  match i with
  | Bytes b => let rd := feed rd b in read_frames (enough rd) rd
  | Eof => fails Io
  | Notify n => _ ← on_notify n; mret rd
  | Tick => _ ← on_tick rd; mret rd
  | RestoreDue => _ ← on_restore; mret rd
  | ReplyDue => _ ← on_reply_due; mret rd
  end.

(** [serve]: the opening, then one input after the other; other tasks run while it waits for
    each. *)
Fixpoint serve_inputs (rd : Reader) (ins : list Input) : M Reader :=
  match ins with
  | [] => mret rd
  | i :: ins' => _ ← await_; rd ← serve_once rd i; serve_inputs rd ins'
  end.
Definition serve (rd : Reader) (ins : list Input) : M Reader := _ ← open_session; serve_inputs rd ins.

(** * The beginning *)

Definition OUTDATED_NODE_REFUSAL : string :=
  "gateway refused: its node built a block this chain rejected. Upgrade Bitcoin Knots to a build that has the #419 rule (29.4.2 or later) and reconnect — the refusal lifts on its own and an upgraded gateway is taken back straight away".

Definition trim_text (s : string) : string := bytes_str (trim_str (str_bytes s)).
Definition quarantine_lapsed (q : gmap string Quarantine) (key : string) (now : Z) : bool :=
  match q !! lower key with Some e => quarantine_has_lapsed (q_until e) now | None => false end.

(** What [run] makes of a gateway whose hello it has answered: refused, or a session. *)
Definition begin_session (x : Shared) (now ts : Z) : Shared * result SessionError Session :=
  if cfg_require_split_gateway && negb (is_split_gateway (user_agent p_hello))
  then (x, Err (Bad "split-only gateway required"))
  else if bool_decide (is_Some (quarantined trim_text cfg_quarantine (sh_quarantine x) gateway_key ts))
  then (x, Err (Bad OUTDATED_NODE_REFUSAL))
  else
    let x := if quarantine_lapsed (sh_quarantine x) gateway_key ts then clear_fault x else x in
    let held_build := if is_house_stratum then None else held_split_build cfg_held_split_builds (user_agent p_hello) in
    let held_b := bool_decide (is_Some held_build) in
    let budget := cfg_class_budget && negb is_house_stratum && negb held_b
                  && class_budget_applies (generation p_hello) (user_agent p_hello) in
    (x, Ok {| s_slots := slots_new; s_replies := replies_new now;
              s_paying := paying_new (gp_script <$> sh_gateways x !! gateway_key) held_b (bool_decide (gateway_key ∈ sh_pinned x));
              s_budget := if budget then Some class_budget_new else None; s_pending := ∅; s_rejects := [];
              s_check := None; s_check_due := now + TEMPLATE_CHECK_FIRST; s_check_asked := None; s_suspect := false;
              s_tip_asked := None; s_candidate_at := None; s_last_send := now |}).
End Serve.
