(* ===== verification/SessionFacts.v ===== *)
(** Reasoning about handlers: what a step leaves of the session and adds to the trace, by a rule for
    each way handlers are put together. At the end, a world, a configuration and a gateway for the
    witnesses of the session's theorems. *)

From S2P Require Import Prelude Bytes Text Tides Split Window Grace Ledger Disk BlockLog Persist Cursor Frame Crypto Coinbaser Coinbase.
From S2P Require Import Mining Handshake Pow Verify State Settle Address ClassBudget Node Validity Slots Replies Session Paying Found Shares Serve.
From S2P Require Import BlockLogProps PersistProps VerifyProps.
Open Scope Z_scope.

(** * Binds *)

Lemma M_bind_inv {A B} (m : M A) (k : A -> M B) st st' r : (m ≫= k) st = Ret (st', r) ->
  (exists st1 a, m st = Ret (st1, Ok a) /\ k a st1 = Ret (st', r)) \/
  (exists e, m st = Ret (st', Err e) /\ r = Err e).
Proof.
  unfold mbind, M_bind. destruct (m st) as [[st1 [a|e]]|]; [| |done].
  - intros H. left. eauto.
  - intros [= <- <-]. right. eauto.
Qed.

(** Reading the state runs straight into what follows. *)
Lemma asks_bind {A B} (f : St -> A) (k : A -> M B) st : (asks f ≫= k) st = k (f st) st.
Proof. done. Qed.
Lemma session_bind {B} (k : Session -> M B) st : (session ≫= k) st = k (st_session st) st.
Proof. done. Qed.
Lemma shared_bind {B} (k : Shared -> M B) st : (shared ≫= k) st = k (st_shared st) st.
Proof. done. Qed.
Lemma paying_bind {B} (k : Paying -> M B) st : (paying ≫= k) st = k (s_paying (st_session st)) st.
Proof. done. Qed.
Lemma put_session_bind {B} s (k : () -> M B) st : (put_session s ≫= k) st = k tt (with_session st s).
Proof. done. Qed.
Lemma put_shared_bind {B} x (k : () -> M B) st : (put_shared x ≫= k) st = k tt (with_shared st x).
Proof. done. Qed.

(** * Steps

    [step I G m]: run from a session that has [I], [m] leaves one that has it and does only things
    that are [G]. [E] is what it may fail with. *)

Section Step.
Context (I : Session -> Prop) (G : Event -> Prop) (E : SessionError -> Prop).

Definition step {A} (m : M A) : Prop := forall st st' r, I (st_session st) -> m st = Ret (st', r) ->
  I (st_session st') /\ (exists evs, trace st' = trace st ++ evs /\ Forall G evs) /\
  match r with Err e => E e | Ok _ => True end.

Lemma step_ret {A} (a : A) : step (mret a).
Proof. intros st st' r HI [= <- <-]. split; [done|]. split; [exists []; by rewrite app_nil_r | done]. Qed.

Lemma step_fails {A} e : E e -> step (fails (A := A) e).
Proof. intros He st st' r HI [= <- <-]. split; [done|]. split; [exists []; by rewrite app_nil_r | done]. Qed.

Lemma step_asks {A} (f : St -> A) : step (asks f).
Proof. intros st st' r HI [= <- <-]. split; [done|]. split; [exists []; by rewrite app_nil_r | done]. Qed.

Lemma step_lift {A} (m : panics A) : step (lift m).
Proof.
  intros st st' r HI. unfold lift. destruct m; [|done]. intros [= <- <-].
  split; [done|]. split; [exists []; by rewrite app_nil_r | done].
Qed.

(** What follows, from what the first step gave. *)
Lemma step_bind_inv {A B} (m : M A) (k : A -> M B) : step m ->
  (forall st st' a, m st = Ret (st', Ok a) -> step (k a)) -> step (m ≫= k).
Proof.
  intros Hm Hk st st' r HI [(st1 & a & E1 & E2)|(e & E1 & ->)]%M_bind_inv.
  - destruct (Hm _ _ _ HI E1) as (HI1 & (ev1 & T1 & G1) & _).
    destruct (Hk st st1 a E1 _ _ _ HI1 E2) as (HI2 & (ev2 & T2 & G2) & HE).
    split; [done|]. split; [|done]. exists (ev1 ++ ev2). rewrite T2, T1, app_assoc. split; [done|].
    by apply Forall_app.
  - by destruct (Hm _ _ _ HI E1).
Qed.

Lemma step_bind {A B} (m : M A) (k : A -> M B) : step m -> (forall a, step (k a)) -> step (m ≫= k).
Proof. intros Hm Hk. by apply step_bind_inv; [|intros _ _ a _]. Qed.

Lemma step_put_shared x : step (put_shared x).
Proof. intros st st' r HI [= <- <-]. split; [done|]. split; [exists []; by rewrite app_nil_r | done]. Qed.

Lemma step_set_shared f : step (set_shared f).
Proof. apply step_bind; [apply step_asks | intros x; apply step_put_shared]. Qed.

Lemma step_ask : step ask.
Proof.
  intros st st' r HI. unfold ask. intros Hr. destruct (waits st); injection Hr as <- <-;
    (split; [done|]; split; [exists []; by rewrite app_nil_r | done]).
Qed.

Lemma step_await : step await_.
Proof. apply step_bind; [apply step_ask | intros a; apply step_ret]. Qed.

Lemma step_did e : G e -> step (did e).
Proof. intros He st st' r HI [= <- <-]. split; [done|]. split; [exists [e]; split; [done | by constructor] | done]. Qed.

(** Reading the session hands its invariant on. *)
Lemma step_session {B} (k : Session -> M B) : (forall s, I s -> step (k s)) -> step (session ≫= k).
Proof. intros Hk st st' r HI Hr. exact (Hk (st_session st) HI st st' r HI Hr). Qed.

Lemma step_put_session s : I s -> step (put_session s).
Proof. intros Hs st st' r HI [= <- <-]. split; [done|]. split; [exists []; by rewrite app_nil_r | done]. Qed.

Lemma step_set_session f : (forall s, I s -> I (f s)) -> step (set_session f).
Proof. intros Hf. apply step_session. intros s Hs. apply step_put_session. by apply Hf. Qed.

Lemma step_paying {B} (k : Paying -> M B) : (forall s, I s -> step (k (s_paying s))) -> step (paying ≫= k).
Proof. intros Hk st st' r HI Hr. exact (Hk (st_session st) HI st st' r HI Hr). Qed.

Lemma step_paying_only : step paying.
Proof. apply step_session. intros s _. apply step_ret. Qed.

Lemma step_set_paying f : (forall s, I s -> I (with_paying s (f (s_paying s)))) -> step (set_paying f).
Proof. apply step_set_session. Qed.

Lemma step_if {A} (b : bool) (m1 m2 : M A) : (b = true -> step m1) -> (b = false -> step m2) -> step (if b then m1 else m2).
Proof. destruct b; auto. Qed.

Lemma step_apply {A} (m : M A) st st' r : step m -> I (st_session st) -> m st = Ret (st', r) ->
  I (st_session st') /\ exists evs, trace st' = trace st ++ evs /\ Forall G evs.
Proof. intros H HI Hr. destruct (H _ _ _ HI Hr) as (? & ? & _). done. Qed.
End Step.

Lemma step_mono {A} I G G' (E E' : SessionError -> Prop) (m : M A) :
  (forall e, G e -> G' e) -> (forall e, E e -> E' e) -> step I G E m -> step I G' E' m.
Proof.
  intros HG HE H st st' r HI Hr. destruct (H _ _ _ HI Hr) as (H1 & (evs & T & F) & H3).
  split; [done|]. split; [exists evs; split; [done | by eapply Forall_impl] | destruct r; eauto].
Qed.

Create HintDb steps.
#[export] Hint Resolve step_ret step_asks step_lift step_put_shared step_set_shared step_ask step_await step_paying_only : steps.

(** Take a handler apart along its binds, tests and matches; what is left is about single
    operations. *)
Ltac steps_go :=
  repeat (cbn [fst snd]; match goal with
  | |- step _ _ _ (session ≫= _) => apply step_session; intros ? ?
  | |- step _ _ _ (paying ≫= _) => apply step_paying; intros ? ?
  | |- step _ _ _ (_ ≫= _) => apply step_bind; [|intros ?]
  | |- step _ _ _ (if ?b then _ else _) => apply step_if; intros ?
  | |- step _ _ _ (match ?x with _ => _ end) => destruct x eqn:?
  | |- step _ _ _ (let '(_, _) := ?x in _) => destruct x eqn:?
  | |- step _ _ _ (let _ := _ in _) => cbv zeta
  | |- step _ _ _ _ => solve [eauto with steps]
  end).

(** * Operations that touch neither shares nor books *)

(** What a gateway is told on the side: configures, notices, questions about a job's
    transactions, keep-alives. *)
Definition background (e : Event) : Prop :=
  match e with
  | Sent (b :: _) _ => b = SUB_CONFIGURE \/ b = SUB_BLOCK_NOTIFY \/ b = SUB_JOB_VALIDATION
  | Ping | Told _ => True
  | _ => False
  end.
Abbreviation quiet m := (step (fun _ => True) background (fun _ => False) m).

(** The events a claim is about: none of them in the background. *)
Section Marks.
Context (mark : Event -> bool) (unmarked : forall e, background e -> mark e = false).

Definition marks (evs : list Event) : list Event := filter (fun e => mark e = true) evs.

Lemma marks_quiet evs : Forall background evs -> marks evs = [].
Proof using unmarked.
  intros Hq. apply filter_none_list. eapply Forall_impl; [exact Hq|]. intros e He. rewrite (unmarked e He). done.
Qed.
Lemma marks_app l1 l2 : marks (l1 ++ l2) = marks l1 ++ marks l2.
Proof. apply filter_app. Qed.

(** [adds st st' l]: from [st] to [st'] the marked events of the trace are [l]. *)
Definition adds (st st' : St) (l : list Event) : Prop := exists evs, trace st' = trace st ++ evs /\ marks evs = l.

Lemma adds_nil st : adds st st [].
Proof. exists []. by rewrite app_nil_r. Qed.
Lemma adds_trans a b c l1 l2 : adds a b l1 -> adds b c l2 -> adds a c (l1 ++ l2).
Proof. intros (e1 & T1 & <-) (e2 & T2 & <-). exists (e1 ++ e2). by rewrite T2, T1, app_assoc, marks_app. Qed.
Lemma adds_after a b c l : adds a b [] -> adds b c l -> adds a c l.
Proof. apply adds_trans. Qed.
Lemma adds_before a b c l : adds a b l -> adds b c [] -> adds a c l.
Proof. intros H1 H2. rewrite <- (app_nil_r l). by eapply adds_trans. Qed.

Lemma quiet_inv {A} (m : M A) st st' r : quiet m -> m st = Ret (st', r) -> (exists a, r = Ok a) /\ adds st st' [].
Proof using unmarked.
  intros Hm Hr. destruct (Hm _ _ _ Logic.I Hr) as (_ & (evs & T & F) & He). destruct r as [a|e]; [|done].
  split; [by exists a|]. exists evs. split; [done | by apply marks_quiet].
Qed.

Lemma quiet_bind {A B} (m : M A) (k : A -> M B) st st' r : quiet m -> (m ≫= k) st = Ret (st', r) ->
  exists st1 a, m st = Ret (st1, Ok a) /\ adds st st1 [] /\ k a st1 = Ret (st', r).
Proof using unmarked.
  intros Hm [(st1 & a & E1 & E2)|(e & E1 & ->)]%M_bind_inv; destruct (quiet_inv m _ _ _ Hm E1) as [[a' Ha] Hadd];
    [exists st1, a; done | discriminate Ha].
Qed.
End Marks.

Lemma step_sent (I : Session -> Prop) G E e : G e -> (forall s x, I s -> I (with_last_send s x)) -> step I G E (sent e).
Proof.
  intros He Hx. unfold sent. apply step_bind; [by apply step_did|]. intros _.
  apply step_bind; [apply step_await|]. intros _. apply step_bind; [apply step_asks|]. intros now.
  apply step_set_session. intros s. apply Hx.
Qed.

Section Quiet.
Context `{World} {cfg : Config} {peer : Peer}.

Lemma quiet_sent e : background e -> quiet (sent e).
Proof. intros He. by apply step_sent. Qed.
Lemma quiet_put s : quiet (put_session s).
Proof. by apply step_put_session. Qed.
Lemma quiet_set f : quiet (set_session f).
Proof. by apply step_set_session. Qed.
Lemma quiet_set_paying f : quiet (set_paying f).
Proof. by apply step_set_paying. Qed.

Hint Resolve quiet_put quiet_set quiet_set_paying : steps.

Lemma quiet_configure script gateway : quiet (send_configure_script script gateway).
Proof.
  unfold send_configure_script, configure_body. apply step_bind; [|intros _; apply quiet_set_paying].
  destruct (generation p_hello); apply quiet_sent; by left.
Qed.
Lemma quiet_notify : quiet (send_mining block_notify false).
Proof. apply quiet_sent. right. by left. Qed.
Lemma quiet_request job : quiet (send_mining (request_full_block job) false).
Proof. apply quiet_sent. right. by right. Qed.
Hint Resolve quiet_configure quiet_notify quiet_request : steps.

Lemma quiet_hold_on_pool : quiet hold_on_pool_script.
Proof. unfold hold_on_pool_script. steps_go. Qed.
Lemma quiet_note_identity identity work : quiet (note_identity identity work).
Proof. unfold note_identity, note_held. steps_go. Qed.
Lemma quiet_follow b : quiet (follow_held_split b).
Proof. unfold follow_held_split. steps_go. Qed.
Hint Resolve quiet_hold_on_pool quiet_note_identity quiet_follow : steps.

Lemma quiet_take_share s : quiet (take_share s).
Proof. unfold take_share. steps_go. Qed.
Lemma quiet_hold_to_chain j : quiet (hold_to_chain j).
Proof. unfold hold_to_chain, check_on. steps_go. Qed.
Lemma quiet_judge_parent chain prev : quiet (judge_parent chain prev).
Proof. unfold judge_parent. steps_go. Qed.
Lemma quiet_policy j : quiet (policy_for j).
Proof. unfold policy_for. steps_go. Qed.
Lemma quiet_verify s pol : quiet (verify_in_slot s pol).
Proof. unfold verify_in_slot. steps_go. Qed.
Lemma quiet_enter_seen v : quiet (enter_seen v).
Proof. unfold enter_seen. steps_go. Qed.
Lemma quiet_vote identity v : quiet (vote identity v).
Proof. unfold vote. steps_go. Qed.
Lemma quiet_fault : quiet gateway_fault.
Proof. unfold gateway_fault. steps_go. Qed.
Hint Resolve quiet_fault : steps.
Lemma quiet_check chain prev s v : quiet (maybe_check_template chain prev s v).
Proof. unfold maybe_check_template. steps_go. Qed.
Lemma quiet_learn s j pol v : quiet (learn_budget s j pol v).
Proof. unfold learn_budget. steps_go. Qed.
Lemma quiet_pool_only s v : quiet (note_pool_only s v).
Proof. unfold note_pool_only. steps_go. Qed.
End Quiet.

#[export] Hint Resolve quiet_put quiet_set quiet_set_paying quiet_configure quiet_notify quiet_request quiet_hold_on_pool
  quiet_note_identity quiet_follow quiet_take_share quiet_hold_to_chain quiet_judge_parent quiet_policy quiet_verify
  quiet_enter_seen quiet_vote quiet_fault quiet_check quiet_learn quiet_pool_only : steps.

(** * A session at work *)

(** The entry [max_by_key] ends on, walking the map in its own order. *)
Definition toy_dominant (m : gmap string Z) : option string :=
  match map_to_list m with
  | [] => None
  | e :: l => Some (fst (foldl (fun best e => if best.2 <=? e.2 then e else best) e l))
  end.

Lemma best_of_list (l : list (string * Z)) : forall e,
  let b := foldl (fun best e => if best.2 <=? e.2 then e else best) e l in
  b ∈ e :: l /\ Forall (fun x => x.2 <= b.2) (e :: l).
Proof.
  induction l as [|x l IH]; intros e; cbn [foldl].
  - split; [left | by repeat constructor].
  - specialize (IH (if e.2 <=? x.2 then x else e)). cbv zeta in IH |- *. destruct IH as [Hin HF].
    inversion HF as [|? ? H1 H2]; subst. split.
    + apply elem_of_cons in Hin as [->|Hin]; [destr_if; [right; left | left] | right; by right].
    + destruct (Z.leb_spec e.2 x.2); repeat (constructor; [lia|]); done.
Qed.

Definition toy_world : World := {|
  hex_encode := bytes_str; sha256 := toy_sha; blake2b256 := toy_blake; dominant := toy_dominant;
  w_address := toy_codec; w_blocks := toy_block_json; w_meta := toy_meta_json |}.

Lemma toy_world_laws : @WorldLaws toy_world.
Proof.
  constructor; cbn [dominant toy_world]; unfold toy_dominant.
  - intros m i. destruct (map_to_list m) as [|e l] eqn:E; [done|]. intros [= <-].
    destruct (best_of_list l e) as [Hin HF]. cbv zeta in Hin, HF. rewrite <- E in Hin, HF.
    set (b := foldl _ e l) in *. exists b.2. split; [apply elem_of_map_to_list; by destruct b|].
    intros k w Hk. apply elem_of_map_to_list in Hk. rewrite Forall_forall in HF. exact (HF _ Hk).
  - intros m Hm. destruct (map_to_list m) as [|e l] eqn:E; [|by eexists].
    by apply map_to_list_empty_iff in E.
Qed.

Definition demo_cfg : Config := {|
  cfg_pool_script := demo_pool; cfg_network := Mainnet; cfg_coinbase_tag := str_bytes "Lazarus"; cfg_prime_id := 1;
  cfg_min_diff := 1024; cfg_house_loopback := true; cfg_house_gateways := []; cfg_front_ips := []; cfg_front_gateways := [];
  cfg_stale_grace := 10; cfg_split_tolerance := 0; cfg_min_pot := 10; cfg_empty_solo_fee_bps := 0;
  cfg_uncommitted_pot := 20; cfg_coinbase_budget := 4000000; cfg_stock_full_pool_only := "off";
  cfg_coinbaser_delay_ms := 0; cfg_split_params := split_params_default;
  cfg_grace := {| Grace.secs := 0; Grace.datum_secs := 0; Grace.rearm_secs := 0; Grace.epoch := 0 |}; cfg_carry_ceiling := 0;
  cfg_quarantine := {| quarantine_minutes := 30; quarantine_max_hours := 24; quarantine_forget_hours := 48; blocked_gateways := [] |};
  cfg_require_split_gateway := false; cfg_held_split_builds := []; cfg_class_budget := false;
  cfg_stale_after_secs := 3600; cfg_stale_min_payout := 1; cfg_solo_rebate_bps := 500;
  cfg_solo_coinbase_tag := str_bytes "Lazarus/solo" |}.

Definition demo_peer : Peer := {|
  p_id := 7; p_remote := V4 [10; 0; 0; 1];
  p_hello := {| identity_sign_pk := replicate 32 65; identity_box_pk := replicate 32 66; session_sign_pk := replicate 32 67;
                session_box_pk := replicate 32 68; user_agent := str_bytes "v0.4.1-beta/abc"; seed := 5;
                generation := Ocean; resume_token := None |};
  p_resume_token := replicate 40 0 |}.

Definition demo_tip : Tip := {|
  t_height := 966266; t_hash := "tip"; t_hash_le := Some (replicate 32 119); parent_le := None;
  t_bits := Some (of_le [64; 45; 60; 25]); next_bits := Some (of_le [64; 45; 60; 25]); seen_at := 0; seen_ts := 0 |}.

Definition demo_shared (seen : SeenShares) : Shared := {|
  sh_node := {| nd_ledger := demo_ledger; nd_blocks := []; nd_disk := ∅ |};
  sh_tip := Some demo_tip; sh_seen := seen; sh_parents := ∅; sh_faults := faults_with_ttl 0; sh_quarantine := ∅;
  sh_base := None; sh_held_off := false; sh_gateways := ∅; sh_pinned := ∅ |}.

Definition demo_session : Session := {|
  s_slots := slots_new; s_replies := replies_new 0; s_paying := paying_new None false false; s_budget := None;
  s_pending := ∅; s_rejects := []; s_check := None; s_check_due := secs 30; s_check_asked := None; s_suspect := false;
  s_tip_asked := None; s_candidate_at := None; s_last_send := 0 |}.

Definition demo_st (seen : SeenShares) : St := {|
  st_session := demo_session; st_shared := demo_shared seen; st_clock := secs 1; st_ts := 1788408530;
  waits := []; trace := [] |}.

Definition demo_pow (seen : SeenShares) : panics (St * result SessionError ()) :=
  @on_pow toy_world demo_cfg demo_peer demo_share (demo_st seen).
Definition demo_after (seen : SeenShares) : St :=
  match demo_pow seen with Ret (st, _) => st | Panic => demo_st seen end.
