(* ===== verification/ShareProps.v ===== *)
(** What comes of a share: one receipt for it, and what is credited and booked before the receipt
    says so. *)

From S2P Require Import Prelude Bytes Text Tides Split Window Grace Ledger Disk BlockLog Persist Cursor Frame Crypto Coinbaser Coinbase.
From S2P Require Import Mining Handshake Pow Verify State Settle Address ClassBudget Node Validity Slots Replies Session Paying Found Shares Serve SessionFacts.
From S2P Require Import VerifyProps SessionFacts.
Open Scope Z_scope.

Section Answers.
Context `{World} {cfg : Config} {peer : Peer}.

(** What answers a share: its receipt, what is credited for it, a block booked. *)
Definition share_mark (e : Event) : bool :=
  match e with
  | Sent (b :: _) _ => b =? SUB_SHARE_RECEIPT
  | Credited _ _ _ _ _ | Booked _ => true
  | _ => false
  end.
Lemma share_unmarked e : background e -> share_mark e = false.
Proof. destruct e as [[|b l] sg| | | | | |]; cbn; try done. by intros [-> | [-> | ->]]. Qed.

Abbreviation adds := (SessionFacts.adds share_mark).
Abbreviation quiet_bind := (SessionFacts.quiet_bind share_mark share_unmarked).
Abbreviation quiet_inv := (SessionFacts.quiet_inv share_mark share_unmarked).
Abbreviation marks := (SessionFacts.marks share_mark).

(** * Refusals *)

Definition flooded (r : result SessionError ()) : Prop := exists n, r = Err (RejectFlood n 10).

Lemma note_reject_inv st st' r : note_reject st = Ret (st', r) -> adds st st' [] /\ (r = Ok tt \/ flooded r).
Proof.
  unfold note_reject, instant_now, session, asks, put_session, fails. unfold mbind, M_bind. cbn -[REJECT_FLOOD drop_stale].
  destr_if; [destr_if|]; intros [= <- <-]; (split; [exists []; by rewrite app_nil_r|]); [by left | right; by eexists | by left].
Qed.

Lemma sent_inv e st st' r : sent e st = Ret (st', r) -> r = Ok tt /\ adds st st' (marks [e]).
Proof.
  intros Hr. assert (Hs : step (fun _ => True) (fun x => x = e) (fun _ => False) (sent e)) by by apply step_sent.
  unfold sent in Hr. apply M_bind_inv in Hr as [(st1 & a & E1 & E2)|(x & [=] & _)]. injection E1 as <- <-.
  assert (Hq : quiet (_ ← await_; now ← instant_now; set_session (fun s => with_last_send s now))).
  { steps_go. }
  destruct (quiet_inv _ _ _ _ Hq E2) as [[[] ->] Hadd]. split; [done|].
  eapply adds_before; [|exact Hadd]. exists [e]. done.
Qed.

Lemma refuse_inv s code st st' r : refuse s code st = Ret (st', r) ->
  r = Ok tt /\ adds st st' [Sent (receipt s REJECTED code) false].
Proof. apply sent_inv. Qed.

Lemma reject_inv s code st st' r : reject s code st = Ret (st', r) ->
  adds st st' [Sent (receipt s REJECTED code) false] /\ (r = Ok tt \/ flooded r).
Proof.
  intros [(st1 & [] & E1 & E2)|(e & E1 & ->)]%M_bind_inv; apply refuse_inv in E1 as [Hr Ha]; [|discriminate Hr].
  apply note_reject_inv in E2 as [Hb Hc]. split; [by eapply adds_before | done].
Qed.

(** * Booking *)

(** What is booked for a share: the block it solves, where the node has given a tip to hold its job
    to. *)
Definition booking (v : VerifiedShare) (tip_known : bool) (evs : list Event) : Prop :=
  if v_is_block_candidate v && tip_known
  then exists b, evs = [Booked b] /\ br_hash b = block_hex (v_hash v) /\ br_height b = v_height v
  else evs = [].

Lemma book_candidate_inv s v finder st st' r : book_candidate s v finder st = Ret (st', r) ->
  r = Ok tt /\ exists b, adds st st' [Booked b] /\ br_hash b = block_hex (v_hash v) /\ br_height b = v_height v.
Proof.
  unfold book_candidate. intros H1.
  apply quiet_bind in H1 as (s1 & sn & _ & A1 & H1); [|steps_go].
  apply quiet_bind in H1 as (s2 & iss & _ & A2 & H1); [|steps_go].
  apply quiet_bind in H1 as (s3 & x & _ & A3 & H1); [|steps_go].
  apply quiet_bind in H1 as (s4 & ts & _ & A4 & H1); [|steps_go].
  apply quiet_bind in H1 as (s5 & cb & _ & A5 & H1); [|steps_go].
  apply quiet_bind in H1 as (s6 & se & _ & A6 & H1); [|steps_go].
  apply quiet_bind in H1 as (s7 & [nd f] & _ & A7 & H1); [|steps_go].
  apply quiet_bind in H1 as (s8 & [] & _ & A8 & H1); [|steps_go].
  unfold did in H1. injection H1 as <- <-. split; [done|].
  exists (record_of v finder gateway_hex (block_hex (v_hash v)) ts se f). split; [|by split].
  do 8 (eapply adds_after; [eassumption|]). by eexists.
Qed.

Lemma on_candidate_inv s v finder st st' r : on_block_candidate s v finder st = Ret (st', r) ->
  r = Ok tt /\ exists b, adds st st' [Booked b] /\ br_hash b = block_hex (v_hash v) /\ br_height b = v_height v.
Proof.
  unfold on_block_candidate. intros H1.
  apply quiet_bind in H1 as (s1 & now & _ & A1 & H1); [|steps_go].
  apply quiet_bind in H1 as (s2 & [] & _ & A2 & H1); [|steps_go].
  apply M_bind_inv in H1 as [(s3 & [] & H2 & H1)|(e & H2 & ->)]; [|by apply book_candidate_inv in H2 as [[=] _]].
  apply book_candidate_inv in H2 as (_ & b & A3 & Hb).
  assert (Hq : quiet (now ← instant_now;
    let p := {| pb_share := v; pb_submit := s; pb_hash := block_hex (v_hash v); pb_at := now |} in
    _ ← set_session (fun sn => with_pending sn (<[job_id s := default [] (s_pending sn !! job_id s) ++ [p]]> (s_pending sn)));
    _ ← send_mining (request_full_block (job_id s)) false;
    did (Told (p_id)))).
  { steps_go. by apply step_did. }
  destruct (quiet_inv _ _ _ _ Hq H1) as [[[] ->] A4]. split; [done|]. exists b. split; [|done].
  do 2 (eapply adds_after; [eassumption|]). by eapply adds_before.
Qed.

Lemma candidate_booked s v finder known st st' r :
  (if v_is_block_candidate v && known then on_block_candidate s v finder else mret tt) st = Ret (st', r) ->
  r = Ok tt /\ exists evs, adds st st' evs /\ booking v known evs.
Proof.
  unfold booking. destr_if.
  - intros [Hr (b & Ha & Hb)]%on_candidate_inv. split; [done|]. exists [Booked b]. split; [done|]. by exists b.
  - intros [= <- <-]. split; [done|]. exists []. split; [apply adds_nil | done].
Qed.
(** * Crediting *)

Definition crediting (identity : string) (v : VerifiedShare) (evs : list Event) : Prop :=
  if is_solo (v_coinbase_kind v) || negb (0 <? v_work v) then evs = []
  else exists ts source, evs = [Credited identity (v_work v) (v_height v) ts source].

Lemma credit_share_inv identity v ts st st' r : credit_share identity v ts st = Ret (st', r) ->
  exists ok evs, r = Ok ok /\ adds st st' evs /\ (if ok : bool then crediting identity v evs else evs = []).
Proof.
  unfold credit_share, crediting. destruct (is_solo (v_coinbase_kind v)); cbn [orb].
  { intros [= <- <-]. exists true, []. split; [done|]. by split; [apply adds_nil|]. }
  intros H1. apply quiet_bind in H1 as (s1 & x & _ & A1 & H1); [|steps_go].
  destruct (no_row_for _ _ _).
  { injection H1 as <- <-. exists false, []. done. }
  destruct (0 <? v_work v); cbn [negb]; [|injection H1 as <- <-; by exists true, []].
  apply quiet_bind in H1 as (s2 & [l source] & _ & A2 & H1); [|steps_go].
  apply quiet_bind in H1 as (s3 & [] & _ & A3 & H1); [|steps_go].
  apply M_bind_inv in H1 as [(s4 & [] & [= <-] & [= <- <-])|(e & [=] & _)].
  eexists true, _. split; [done|]. split; [|by eexists _, _].
  do 3 (eapply adds_after; [eassumption|]). by eexists.
Qed.

(** * The answer *)

Definition verified (s : PowSubmit) (v : VerifiedShare) : Prop :=
  exists slot slot' pol, Verify.pool_script pol = cfg_pool_script /\
    verify_share sha256 blake2b256 slot s pol = Ret (Ok (v, slot')).

(** What a share comes to, as it is seen from outside: refused with nothing credited or booked;
    refused for its gateway's template, where a block it solves is still booked; or credited, with
    the block booked, and then its receipt. *)
Inductive answer (s : PowSubmit) (tip_known : bool) : list Event -> Prop :=
| answer_refused code : answer s tip_known [Sent (receipt s REJECTED code) false]
| answer_faulted v booked : verified s v -> booking v tip_known booked ->
    answer s tip_known (Sent (receipt s REJECTED REJECT_OTHER) false :: booked)
| answer_credited v identity credited booked : verified s v -> share_identity s = Some identity ->
    crediting identity v credited -> booking v tip_known booked ->
    answer s tip_known (credited ++ booked ++ [Sent (receipt s (status_of (v_coinbase_kind v)) 0) false]).

Lemma accept_share_inv s j chain pol v identity st st' r : accept_share s j chain pol v identity st = Ret (st', r) ->
  r = Ok tt /\ exists booked, booking v (bool_decide (is_Some chain)) booked /\
    adds st st' (booked ++ [Sent (receipt s (status_of (v_coinbase_kind v)) 0) false]).
Proof.
  unfold accept_share. intros H1.
  apply quiet_bind in H1 as (s1 & [] & _ & A1 & H1); [|steps_go].
  apply quiet_bind in H1 as (s2 & [] & _ & A2 & H1); [|steps_go].
  apply quiet_bind in H1 as (s3 & [] & _ & A3 & H1); [|steps_go].
  apply M_bind_inv in H1 as [(s4 & [] & H2 & H1)|(e & H2 & ->)]; [|by apply candidate_booked in H2 as [[=] _]].
  apply candidate_booked in H2 as (_ & b & A4 & Hb). apply sent_inv in H1 as [-> A5]. split; [done|].
  exists b. split; [done|]. do 3 (eapply adds_after; [eassumption|]). by eapply adds_trans.
Qed.

Lemma refuse_faulted_inv s j chain v identity st st' r : refuse_faulted s j chain v identity st = Ret (st', r) ->
  r = Ok tt /\ exists booked, booking v (bool_decide (is_Some chain)) booked /\
    adds st st' (Sent (receipt s REJECTED REJECT_OTHER) false :: booked).
Proof.
  unfold refuse_faulted. intros H1.
  apply M_bind_inv in H1 as [(s1 & [] & H2 & H1)|(e & H2 & ->)]; [|by apply refuse_inv in H2 as [[=] _]].
  apply refuse_inv in H2 as [_ A1].
  apply quiet_bind in H1 as (s2 & [] & _ & A2 & H1); [|steps_go].
  apply candidate_booked in H1 as (-> & b & A3 & Hb). split; [done|]. exists b. split; [done|].
  apply (adds_trans _ _ _ _ [_] b A1). by eapply adds_after.
Qed.

Definition answered (s : PowSubmit) (known : bool) (st st' : St) (r : result SessionError ()) : Prop :=
  exists evs, adds st st' evs /\ answer s known evs /\
    (r = Ok tt \/ flooded r /\ exists code, evs = [Sent (receipt s REJECTED code) false]).

Lemma refused_answered s known code st st1 st' r : adds st st1 [] ->
  adds st1 st' [Sent (receipt s REJECTED code) false] /\ (r = Ok tt \/ flooded r) -> answered s known st st' r.
Proof.
  intros Ha (Hb & Hr). eexists. split; [by eapply adds_after|]. split; [constructor|].
  destruct Hr as [|Hf]; [by left | right; eauto].
Qed.
Lemma rejected_answered s known code st st1 st' r : adds st st1 [] -> reject s code st1 = Ret (st', r) ->
  answered s known st st' r.
Proof. intros Ha Hr%reject_inv. by eapply refused_answered. Qed.

Lemma on_verified_inv s j chain pol v identity st st' r : share_identity s = Some identity -> verified s v ->
  on_verified s j chain pol v identity st = Ret (st', r) -> answered s (bool_decide (is_Some chain)) st st' r.
Proof.
  intros Hi Hv. unfold on_verified. intros H1.
  apply quiet_bind in H1 as (s1 & p & _ & A1 & H1); [|steps_go].
  apply quiet_bind in H1 as (s2 & [] & _ & A2 & H1); [|steps_go].
  apply quiet_bind in H1 as (s3 & seen & _ & A3 & H1); [|steps_go].
  assert (A : adds st s3 []) by (do 2 (eapply adds_after; [eassumption|]); done).
  destruct seen; [|by eapply rejected_answered..].
  apply quiet_bind in H1 as (s4 & fault & _ & A4 & H1); [|steps_go].
  assert (A' : adds st s4 []) by (by eapply adds_after). destruct fault as [f|].
  - apply refuse_faulted_inv in H1 as (-> & b & Hb & Ha). eexists. split; [by eapply adds_after|].
    split; [by eapply answer_faulted | by left].
  - apply quiet_bind in H1 as (s5 & [] & _ & A5 & H1); [|steps_go].
    apply quiet_bind in H1 as (s6 & ts & _ & A6 & H1); [|steps_go].
    assert (A'' : adds st s6 []) by (do 2 (eapply adds_after; [eassumption|]); done).
    apply M_bind_inv in H1 as [(s7 & ok & H2 & H1)|(e & H2 & ->)]; [|by apply credit_share_inv in H2 as (? & ? & [=] & _)].
    apply credit_share_inv in H2 as (ok' & c & [= <-] & A7 & Hc). destruct ok.
    + apply accept_share_inv in H1 as (-> & b & Hb & A8). eexists. split; [|split; [by eapply answer_credited | by left]].
      eapply adds_after; [exact A''|]. by eapply adds_trans.
    + subst c. eapply rejected_answered; [|exact H1]. by eapply adds_after.
Qed.
Lemma hold_to_chain_known j st st' chain : hold_to_chain j st = Ret (st', Ok (Ok chain)) ->
  is_Some chain <-> is_Some (sh_tip (st_shared st)).
Proof.
  unfold hold_to_chain. rewrite shared_bind. intros H1.
  destruct (sh_tip (st_shared st)); [|injection H1 as _ <-; by split; intros [? [=]]].
  repeat match type of H1 with (_ ≫= _) _ = _ =>
    apply M_bind_inv in H1 as [(? & ? & _ & H1)|(? & _ & [=])] end.
  destruct (code_of _); [discriminate H1|]. injection H1 as _ <-. by split; eexists.
Qed.

Lemma take_share_shared s st st' r : take_share s st = Ret (st', r) -> st_shared st' = st_shared st.
Proof.
  unfold take_share. rewrite session_bind. intros H1.
  destr_if_in H1; [by injection H1 as <- _|]. destruct (share_identity s); [|by injection H1 as <- _].
  destruct (take_sections _ _ _) as [sl r0]. by injection H1 as <- _.
Qed.

Lemma take_share_identity s st st' i j : take_share s st = Ret (st', Ok (Ok (i, j))) -> share_identity s = Some i.
Proof.
  unfold take_share. rewrite session_bind. intros H1.
  destr_if_in H1; [discriminate H1|]. destruct (share_identity s) as [i'|]; [|discriminate H1].
  destruct (take_sections _ _ _) as [sl [j'|c]]; injection H1 as _ H1; congruence.
Qed.

Lemma refuse_unverified_inv s pol code st st' r : refuse_unverified s pol code st = Ret (st', r) ->
  adds st st' [Sent (receipt s REJECTED code) false] /\ (r = Ok tt \/ flooded r).
Proof.
  intros (s2 & sn & _ & A2 & H1)%quiet_bind; [|steps_go]. cbv zeta in H1.
  apply M_bind_inv in H1 as [(s3 & [] & H2 & H1)|(e & H2 & ->)]; apply reject_inv in H2 as [A3 Hb].
  - assert (Hq : quiet (if match (if code =? REJECT_BAD_COINBASE_OUTPUTS then coinbase_of (slot_at (s_slots sn) (Z.to_nat (job_id s))) s else None) with
                           | Some cb => shows_pinned_script (s_paying sn) cb pol | None => false end
                        then hold_on_pool_script else mret ())) by steps_go.
    destruct (quiet_inv _ _ _ _ Hq H1) as [[[] ->] A4]. split; [|by left].
    eapply adds_after; [exact A2|]. by eapply adds_before.
  - split; [by eapply adds_after | done].
Qed.

Lemma policy_pool j st st' pol : policy_for j st = Ret (st', Ok pol) -> Verify.pool_script pol = cfg_pool_script.
Proof.
  unfold policy_for. intros H1.
  repeat match type of H1 with (_ ≫= _) _ = _ =>
    apply M_bind_inv in H1 as [(? & ? & _ & H1)|(? & _ & [=])] end. by injection H1 as _ <-.
Qed.

Lemma verify_in_slot_inv s j pol v st st1 st2 : policy_for j st = Ret (st1, Ok pol) ->
  verify_in_slot s pol st1 = Ret (st2, Ok (Ok v)) -> verified s v.
Proof.
  intros Hp. unfold verify_in_slot. rewrite session_bind. intros H1.
  apply M_bind_inv in H1 as [(s2 & y & E2 & H1)|(e & _ & [=])].
  unfold lift in E2. destruct (verify_share _ _ _ _ _) as [y'|] eqn:Ev; [|discriminate E2]. injection E2 as <- <-.
  destruct y' as [[v' slot]|c]; [|discriminate H1].
  apply M_bind_inv in H1 as [(s3 & z & _ & H1)|(e & _ & [=])]. injection H1 as _ <-.
  eexists _, _, pol. split; [by eapply policy_pool | exact Ev].
Qed.

(** C4: Every share a gateway sends is answered by exactly one receipt, and the receipt tells the
    truth whatever the other sessions and the node do while it is handled. A refusal credits
    nothing, and books nothing but a block found by a gateway whose template is faulted. An
    acceptance is sent last: by then the work of the verified share is credited once, to the
    identity its username names (nothing for work on the gateway's own account or below the
    difficulty), and a block it solves, once the node has given a tip to hold its job to, is booked
    and recorded under the share's hash. The session goes on, unless it is hung up on for its
    rejects. *)
Theorem share_answered (s : PowSubmit) (st st' : St) (r : result SessionError ()) :
  on_pow s st = Ret (st', r) ->
  exists evs, adds st st' evs /\ answer s (bool_decide (is_Some (sh_tip (st_shared st)))) evs /\
    (r = Ok tt \/ flooded r /\ exists code, evs = [Sent (receipt s REJECTED code) false]).
Proof.
  unfold on_pow. intros H1.
  apply quiet_bind in H1 as (s1 & a & E1 & A1 & H1); [|steps_go].
  destruct a as [[identity j]|code]; [|by eapply rejected_answered].
  rewrite <- (take_share_shared _ _ _ _ E1).
  apply quiet_bind in H1 as (s2 & c & E2 & A2 & H1); [|steps_go].
  assert (A : adds st s2 []) by (by eapply adds_after).
  destruct c as [chain|code]; [|by eapply rejected_answered].
  rewrite <- (bool_decide_ext _ _ (hold_to_chain_known _ _ _ _ E2)).
  apply quiet_bind in H1 as (s3 & verdict & _ & A3 & H1); [|steps_go].
  assert (A' : adds st s3 []) by (by eapply adds_after). destr_if_in H1.
  { unfold refuse_dead_parent in H1.
    apply quiet_bind in H1 as (s4 & now & _ & A4 & H1); [|steps_go].
    apply quiet_bind in H1 as (s5 & [] & _ & A5 & H1); [|steps_go].
    apply refuse_inv in H1 as [-> A6]. eexists. split; [|split; [constructor | by left]].
    do 3 (eapply adds_after; [eassumption|]). done. }
  apply quiet_bind in H1 as (s4 & pol & E4 & A4 & H1); [|steps_go].
  apply quiet_bind in H1 as (s5 & v & E5 & A5 & H1); [|steps_go].
  assert (A'' : adds st s5 []) by (do 2 (eapply adds_after; [eassumption|]); done).
  destruct v as [v|code]; [|by eapply refused_answered, refuse_unverified_inv].
  assert (Hv : verified s v) by (by eapply verify_in_slot_inv).
  destruct (on_verified_inv _ _ _ _ _ _ _ _ _ (take_share_identity _ _ _ _ _ E1) Hv H1) as (evs & Ha & Hans).
  exists evs. split; [by eapply adds_after | done].
Qed.
End Answers.

Lemma demo_pow_runs : demo_pow seen_new = Ret (demo_after seen_new, Ok tt).
Proof. vm_compute. reflexivity. Qed.

Lemma share_answered_witness :
  exists evs, adds share_mark (demo_st seen_new) (demo_after seen_new) evs /\
    @answer toy_world demo_cfg demo_share (bool_decide (is_Some (Some demo_tip))) evs.
Proof.
  destruct (@share_answered toy_world demo_cfg demo_peer demo_share (demo_st seen_new) (demo_after seen_new) (Ok tt) demo_pow_runs)
    as (evs & Ha & Hans & _).
  exists evs. split; [exact Ha | exact Hans].
Defined.
