(* ===== verification/CreditProps.v ===== *)
(** What a credited share has been held to, and what it leaves of the state the sessions share. *)

From S2P Require Import Prelude Bytes Text Tides Split Window Grace Ledger Disk BlockLog Persist Cursor Frame Crypto Coinbaser Coinbase.
From S2P Require Import Mining Handshake Pow Verify State Settle Address ClassBudget Node Validity Slots Replies Session Paying Found Shares Serve SessionFacts ShareProps.
From S2P Require Import VerifyProps SessionFacts.
Open Scope Z_scope.

(** * Left alone

    A share handled while no other task gets a turn: the tip, the credited shares and the books are
    the ones the checks were made on. *)

Lemma fault_get_again f key ts : (fault_get (fault_get f key ts).1 key ts).2 = (fault_get f key ts).2.
Proof.
  unfold fault_get. destruct (by_key f !! key) as [e|] eqn:Hk; [destruct (fault_expired (ttl f) ts e) eqn:He|]; cbn [fst snd by_key].
  - by rewrite lookup_delete_eq.
  - by rewrite Hk, He.
  - by rewrite Hk.
Qed.

Section Alone.
Context `{World} {cfg : Config} {peer : Peer}.

(** What the gateway is refused for, as things stand. *)
Definition faulted_now (st : St) : option Fault := (fault_get (sh_faults (st_shared st)) gateway_key (st_ts st)).2.

Record same (st st' : St) : Prop := {
  sm_waits : waits st' = [];
  sm_ts : st_ts st' = st_ts st;
  sm_clock : st_clock st' = st_clock st;
  sm_tip : sh_tip (st_shared st') = sh_tip (st_shared st);
  sm_seen : sh_seen (st_shared st') = sh_seen (st_shared st);
  sm_node : sh_node (st_shared st') = sh_node (st_shared st);
  sm_fault : faulted_now st' = faulted_now st
}.

Lemma same_refl st : waits st = [] -> same st st.
Proof. done. Qed.
Lemma same_trans a b c : same a b -> same b c -> same a c.
Proof. intros [? ? ? ? ? ? ?] [? ? ? ? ? ? ?]. constructor; congruence. Qed.

(** [alone m st]: run in [st], [m] changes nothing of that. *)
Definition alone {A} (m : M A) (st : St) : Prop :=
  waits st = [] -> forall st' r, m st = Ret (st', r) -> same st st'.

Lemma alone_ret {A} (a : A) st : alone (mret a) st.
Proof. intros Hw st' r [= <- <-]. by apply same_refl. Qed.
Lemma alone_lift {A} (m : panics A) st : alone (lift m) st.
Proof. intros Hw st' r. unfold lift. destruct m; [|done]. intros [= <- <-]. by apply same_refl. Qed.
Lemma alone_asks {A} (f : St -> A) st : alone (asks f) st.
Proof. intros Hw st' r [= <- <-]. by apply same_refl. Qed.
Lemma alone_fails {A} e st : alone (fails (A := A) e) st.
Proof. intros Hw st' r [= <- <-]. by apply same_refl. Qed.
Lemma alone_bind {A B} (m : M A) (k : A -> M B) st : alone m st ->
  (forall st1 a, m st = Ret (st1, Ok a) -> alone (k a) st1) -> alone (m ≫= k) st.
Proof.
  intros Hm Hk Hw st' r [(st1 & a & E1 & E2)|(e & E1 & ->)]%M_bind_inv; [|by eapply Hm].
  pose proof (Hm Hw _ _ E1) as S1. eapply same_trans; [exact S1|]. exact (Hk _ _ E1 (sm_waits _ _ S1) _ _ E2).
Qed.
Lemma alone_put s st : alone (put_session s) st.
Proof. intros Hw st' r [= <- <-]. by constructor. Qed.
Lemma alone_ask st : alone ask st.
Proof. intros Hw st' r. unfold ask. rewrite Hw. intros [= <- <-]. by apply same_refl. Qed.
Lemma alone_did e st : alone (did e) st.
Proof. intros Hw st' r [= <- <-]. by constructor. Qed.
Lemma alone_put_shared x st : sh_tip x = sh_tip (st_shared st) -> sh_seen x = sh_seen (st_shared st) ->
  sh_node x = sh_node (st_shared st) ->
  (fault_get (sh_faults x) gateway_key (st_ts st)).2 = faulted_now st -> alone (put_shared x) st.
Proof. intros ? ? ? ? Hw st' r [= <- <-]. by constructor. Qed.

(** Reads hand the state itself on. *)
Lemma alone_session {B} (k : Session -> M B) st : alone (k (st_session st)) st -> alone (session ≫= k) st.
Proof. done. Qed.
Lemma alone_shared {B} (k : Shared -> M B) st : alone (k (st_shared st)) st -> alone (shared ≫= k) st.
Proof. done. Qed.
Lemma alone_paying {B} (k : Paying -> M B) st : alone (k (s_paying (st_session st))) st -> alone (paying ≫= k) st.
Proof. done. Qed.
Lemma alone_instant {B} (k : Z -> M B) st : alone (k (st_clock st)) st -> alone (instant_now ≫= k) st.
Proof. done. Qed.
Lemma alone_ts {B} (k : Z -> M B) st : alone (k (st_ts st)) st -> alone (ts_now ≫= k) st.
Proof. done. Qed.
Lemma alone_set f st : alone (set_session f) st.
Proof. apply alone_session, alone_put. Qed.
Lemma alone_set_paying f st : alone (set_paying f) st.
Proof. apply alone_set. Qed.
Lemma alone_set_shared f st : sh_tip (f (st_shared st)) = sh_tip (st_shared st) ->
  sh_seen (f (st_shared st)) = sh_seen (st_shared st) -> sh_node (f (st_shared st)) = sh_node (st_shared st) ->
  (fault_get (sh_faults (f (st_shared st))) gateway_key (st_ts st)).2 = faulted_now st -> alone (set_shared f) st.
Proof. intros. by apply alone_shared, alone_put_shared. Qed.

Hint Resolve alone_ret alone_lift alone_asks alone_fails alone_put alone_ask alone_did alone_set alone_set_paying : core.
Hint Extern 1 (alone (put_shared _) _) => apply alone_put_shared; reflexivity : core.
Hint Extern 1 (alone (set_shared _) _) => apply alone_set_shared; reflexivity : core.

Ltac alone_go :=
  repeat (cbn [fst snd]; match goal with
  | |- alone (session ≫= _) _ => apply alone_session
  | |- alone (shared ≫= _) _ => apply alone_shared
  | |- alone (paying ≫= _) _ => apply alone_paying
  | |- alone (instant_now ≫= _) _ => apply alone_instant
  | |- alone (ts_now ≫= _) _ => apply alone_ts
  | |- alone (_ ≫= _) _ => apply alone_bind; [|intros ? ? ?]
  | |- alone (match ?x with _ => _ end) _ => destruct x eqn:?
  | |- alone (let '(_, _) := ?x in _) _ => destruct x eqn:?
  | |- alone (let _ := _ in _) _ => cbv zeta
  | |- alone _ _ => solve [eauto]
  end).

Lemma alone_await st : alone await_ st.
Proof. unfold await_. alone_go. Qed.
Hint Resolve alone_await : core.
Lemma alone_sent e st : alone (sent e) st.
Proof. unfold sent. alone_go. Qed.
Hint Resolve alone_sent : core.
Lemma alone_send body signed st : alone (send_mining body signed) st.
Proof. apply alone_sent. Qed.
Hint Resolve alone_send : core.
Lemma alone_configure script g st : alone (send_configure_script script g) st.
Proof. unfold send_configure_script. alone_go. Qed.
Hint Resolve alone_configure : core.
Lemma alone_hold st : alone hold_on_pool_script st.
Proof. unfold hold_on_pool_script. alone_go. Qed.
Lemma alone_note_identity i w st : alone (note_identity i w) st.
Proof. unfold note_identity, note_held. alone_go. Qed.
Lemma alone_follow b st : alone (follow_held_split b) st.
Proof. unfold follow_held_split. alone_go. Qed.
Hint Resolve alone_hold alone_note_identity alone_follow : core.
Lemma alone_vote i v st : alone (vote i v) st.
Proof. unfold vote. alone_go. Qed.
Lemma alone_take s st : alone (take_share s) st.
Proof. unfold take_share. alone_go. Qed.
Lemma alone_chain j st : alone (hold_to_chain j) st.
Proof. unfold hold_to_chain, check_on. alone_go. Qed.
Lemma alone_parent chain prev st : alone (judge_parent chain prev) st.
Proof. unfold judge_parent. alone_go. Qed.
Lemma alone_policy j st : alone (policy_for j) st.
Proof. unfold policy_for. alone_go. Qed.
Lemma alone_verify s pol st : alone (verify_in_slot s pol) st.
Proof. unfold verify_in_slot. alone_go. Qed.
Lemma alone_fault st : alone gateway_fault st.
Proof.
  unfold gateway_fault. apply alone_shared, alone_ts. pose proof (fault_get_again (sh_faults (st_shared st)) gateway_key (st_ts st)) as E.
  destruct (fault_get (sh_faults (st_shared st)) gateway_key (st_ts st)) as [f r] eqn:Ef. cbn [fst snd] in E. apply alone_bind; [|intros; apply alone_ret].
  apply alone_put_shared; [reflexivity.. |]. unfold faulted_now. by rewrite Ef.
Qed.
Hint Resolve alone_fault : core.
Lemma alone_check chain prev s v st : alone (maybe_check_template chain prev s v) st.
Proof. unfold maybe_check_template. alone_go. Qed.
Lemma alone_learn s j pol v st : alone (learn_budget s j pol v) st.
Proof. unfold learn_budget. alone_go. Qed.
Lemma alone_pool_only s v st : alone (note_pool_only s v) st.
Proof. unfold note_pool_only. alone_go. Qed.
Hint Resolve alone_vote alone_take alone_chain alone_parent alone_policy alone_verify alone_check alone_learn alone_pool_only : core.

(** * The checks a share has passed *)

Lemma bind_alone {A B} (m : M A) (k : A -> M B) st st' r : waits st = [] -> alone m st -> quiet m ->
  (m ≫= k) st = Ret (st', r) -> exists st1 a, m st = Ret (st1, Ok a) /\ same st st1 /\
    SessionFacts.adds share_mark st st1 [] /\ k a st1 = Ret (st', r).
Proof.
  intros Hw Ha Hq Hr. destruct (SessionFacts.quiet_bind share_mark share_unmarked m k st st' r Hq Hr) as (st1 & a & E1 & A1 & E2).
  exists st1, a. split; [done|]. split; [exact (Ha Hw _ _ E1) | done].
Qed.

Lemma chain_passed j st st' chain : waits st = [] -> hold_to_chain j st = Ret (st', Ok (Ok chain)) ->
  forall tip, sh_tip (st_shared st) = Some tip -> exists c,
    check_job tip (j_prev_hash j) (height j) (nbits_u32 j) (State.secs cfg_stale_grace) (st_clock st) = Ret c /\ taken c = true.
Proof.
  intros Hw Hr tip Ht. unfold hold_to_chain in Hr. rewrite shared_bind, Ht in Hr.
  unfold instant_now, check_on in Hr. rewrite asks_bind in Hr.
  destruct (check_job tip (j_prev_hash j) (height j) (nbits_u32 j) (State.secs cfg_stale_grace) (st_clock st)) as [c|] eqn:Ec; [|discriminate Hr].
  exists c. split; [done|].
  apply M_bind_inv in Hr as [(s1 & c1 & [= <- <-] & Hr)|(e & [=] & _)]. rewrite session_bind in Hr.
  apply M_bind_inv in Hr as [(s2 & c2 & E2 & Hr)|(e & _ & [=])].
  assert (c2 = c) as ->.
  { destr_if_in E2; [|by injection E2]. rewrite put_session_bind in E2.
    apply M_bind_inv in E2 as [(s3 & [] & E3 & E2)|(e & _ & [=])].
    pose proof (alone_await (with_session st (with_stamps (st_session st) (Some (st_clock st)) (s_candidate_at (st_session st)))) Hw _ _ E3) as S3.
    rewrite shared_bind in E2. rewrite asks_bind, (sm_tip _ _ S3) in E2. cbn [st_shared with_session] in E2.
    rewrite Ht, (sm_clock _ _ S3) in E2. cbn [st_clock with_session] in E2. unfold lift in E2. rewrite Ec in E2. by injection E2. }
  destruct c; try done; discriminate Hr.
Qed.

(** What a session has in hand while a share is judged. *)
Definition in_hand (s : Session) : Slots * Replies * Paying := (s_slots s, s_replies s, s_paying s).

Lemma keeps_hand {A} (m : M A) st st' r : (forall x, step (fun s => in_hand s = x) (fun _ => True) (fun _ => True) m) ->
  m st = Ret (st', r) -> in_hand (st_session st') = in_hand (st_session st).
Proof. intros Hm Hr. by destruct (Hm (in_hand (st_session st)) st st' r eq_refl Hr). Qed.

Lemma hand_put x s : in_hand s = x -> step (fun s => in_hand s = x) (fun _ => True) (fun _ => True) (put_session s).
Proof. intros. by apply step_put_session. Qed.
Hint Resolve hand_put : core.

Lemma chain_hand j x : step (fun s => in_hand s = x) (fun _ => True) (fun _ => True) (hold_to_chain j).
Proof. unfold hold_to_chain, check_on. steps_go. Qed.
Lemma parent_hand chain prev x : step (fun s => in_hand s = x) (fun _ => True) (fun _ => True) (judge_parent chain prev).
Proof. unfold judge_parent. steps_go. Qed.
Lemma policy_hand j x : step (fun s => in_hand s = x) (fun _ => True) (fun _ => True) (policy_for j).
Proof. unfold policy_for. steps_go. Qed.

Lemma take_share_inv s st st' i j : take_share s st = Ret (st', Ok (Ok (i, j))) ->
  take_sections (s_slots (st_session st)) s cfg_coinbase_budget = (s_slots (st_session st'), Ok j) /\
  in_hand (st_session st') = (s_slots (st_session st'), s_replies (st_session st), s_paying (st_session st)).
Proof.
  unfold take_share. rewrite session_bind. intros Hr. destr_if_in Hr; [discriminate Hr|].
  destruct (share_identity s); [|discriminate Hr]. destruct (take_sections _ _ _) as [sl [j'|c]]; [|discriminate Hr].
  rewrite put_session_bind in Hr. injection Hr as <- <- <-. done.
Qed.

(** The policy a share on [j] is held to, with the list its job was issued. *)
Definition holds_policy (st : St) (j : JobSection) (pol : Policy) : Prop := exists issued,
  issued_for (kept (s_replies (st_session st))) (coinbaser_id j) (j_prev_hash j) (height j) = Ret issued /\
  pol = {| pool_script := cfg_pool_script; Verify.issued := ic_outputs <$> issued; tolerance := cfg_split_tolerance;
           Verify.now := trunc u32_max (st_ts st); min_pot := cfg_min_pot; gateway_script := payout_script (s_paying (st_session st));
           empty_solo_fee_bps := cfg_empty_solo_fee_bps; trusted_target := is_house_stratum;
           uncommitted_pot := cfg_uncommitted_pot; held_split := bool_decide (is_Some (held (s_paying (st_session st)))) |}.

Lemma policy_for_inv j st st' pol : policy_for j st = Ret (st', Ok pol) -> holds_policy st j pol.
Proof.
  unfold policy_for. rewrite session_bind. intros [(s1 & iss & E1 & Hr)|(e & _ & [=])]%M_bind_inv.
  unfold lift in E1. destruct (issued_for _ _ _ _) as [iss'|] eqn:Ei; [|discriminate E1]. injection E1 as <- <-.
  unfold ts_now in Hr. rewrite asks_bind in Hr. injection Hr as _ <-. exists iss'. by split.
Qed.

Lemma verify_in_slot_run s pol st st' v : verify_in_slot s pol st = Ret (st', Ok (Ok v)) ->
  exists slot', verify_share sha256 blake2b256 (slot_at (s_slots (st_session st)) (Z.to_nat (job_id s))) s pol = Ret (Ok (v, slot')).
Proof.
  unfold verify_in_slot. rewrite session_bind. intros [(s1 & r & E1 & Hr)|(e & _ & [=])]%M_bind_inv.
  unfold lift in E1. destruct (verify_share _ _ _ _ _) as [y|] eqn:Ev; [|discriminate E1]. injection E1 as <- <-.
  destruct y as [[v' slot']|c]; [|discriminate Hr]. rewrite put_session_bind in Hr. injection Hr as _ <-. by eexists.
Qed.

(** * Crediting *)

Lemma enter_seen_fresh v st st' : 0 < v_work v -> enter_seen v st = Ret (st', Ok State.Fresh) ->
  exists set, seen_insert (sh_seen (st_shared st)) (v_height v) (v_hash v) = (set, State.Fresh) /\
    st' = with_shared st (with_seen (st_shared st) set).
Proof.
  intros Hw. unfold enter_seen. rewrite (proj2 (Z.eqb_neq _ _)) by lia. cbn [andb]. rewrite shared_bind. intros Hr.
  destruct (seen_insert _ _ _) as [set r]. rewrite put_shared_bind in Hr. injection Hr as <- <-. by exists set.
Qed.

Definition credited_to (st st' : St) (identity : string) (v : VerifiedShare) (ts : Z) (l : Ledger) (source : Z) : Prop :=
  credit_window (nd_ledger (sh_node (st_shared st))) identity v (trunc u32_max ts) = Ret (l, source) /\
  nd_ledger (sh_node (st_shared st')) = l /\ sh_seen (st_shared st') = sh_seen (st_shared st) /\ waits st' = waits st.

Lemma credit_share_run identity v ts st st' ok evs x : credit_share identity v ts st = Ret (st', Ok ok) ->
  SessionFacts.adds share_mark st st' evs -> x ∈ evs -> exists l source,
    x = Credited identity (v_work v) (v_height v) (trunc u32_max ts) source /\
    is_solo (v_coinbase_kind v) = false /\ 0 < v_work v /\ credited_to st st' identity v ts l source.
Proof.
  intros Hr (es & T & <-) Hx. unfold credit_share in Hr.
  assert (Hnone : st' = st -> False).
  { intros ->. rewrite <- (app_nil_r (trace st)) in T at 1. apply app_inv_head in T as <-. by apply elem_of_nil in Hx. }
  destruct (is_solo (v_coinbase_kind v)); [injection Hr as <- _; by destruct Hnone|].
  rewrite shared_bind in Hr. destruct (no_row_for _ _ _); [injection Hr as <- _; by destruct Hnone|].
  destruct (Z.ltb_spec 0 (v_work v)); [|injection Hr as <- _; by destruct Hnone].
  apply M_bind_inv in Hr as [(s1 & [l src] & E1 & Hr)|(e & _ & [=])]. unfold lift in E1.
  destruct (credit_window _ _ _ _) as [ls|] eqn:Ec; [|discriminate E1]. injection E1 as <- ->.
  rewrite put_shared_bind in Hr. apply M_bind_inv in Hr as [(s2 & [] & [= <-] & [= <- _])|(e & _ & [=])].
  cbn [trace with_shared] in T. apply app_inv_head in T as <-. cbn in Hx. apply list_elem_of_singleton in Hx as ->.
  exists l, src. done.
Qed.

(** A block's booking leaves the credited shares as they are. *)
Lemma candidate_seen_waits s v finder st st' r : waits st = [] -> on_block_candidate s v finder st = Ret (st', r) ->
  sh_seen (st_shared st') = sh_seen (st_shared st) /\ waits st' = [].
Proof.
  intros Hw Hr. unfold on_block_candidate, instant_now in Hr. rewrite asks_bind in Hr.
  apply M_bind_inv in Hr as [(s1 & [] & E1 & Hr)|(e & [=] & _)].
  pose proof (alone_set _ st Hw _ _ E1) as S1.
  assert (Hb : forall s2 q, book_candidate s v finder s1 = Ret (s2, q) -> waits s2 = [] /\ sh_seen (st_shared s2) = sh_seen (st_shared s1)).
  { clear Hr. intros s2 q Hr. unfold book_candidate, ts_now in Hr.
    rewrite session_bind in Hr. apply M_bind_inv in Hr as [(s3 & a & E3 & Hr)|(e & E3 & _)]; [|unfold lift in E3; by destruct (issued_to_job _ _)].
    pose proof (alone_lift _ _ (sm_waits _ _ S1) _ _ E3) as S3. rewrite shared_bind, asks_bind in Hr.
    apply M_bind_inv in Hr as [(s4 & cb & E4 & Hr)|(e & E4 & _)]; [|unfold lift in E4; by destruct (settled_against _ _ _ _ _)].
    pose proof (same_trans _ _ _ S3 (alone_lift _ _ (sm_waits _ _ S3) _ _ E4)) as S4.
    apply M_bind_inv in Hr as [(s5 & se & E5 & Hr)|(e & E5 & _)]; [|unfold lift in E5; by destruct (settle _ _ _ _)].
    pose proof (same_trans _ _ _ S4 (alone_lift _ _ (sm_waits _ _ S4) _ _ E5)) as S5.
    apply M_bind_inv in Hr as [(s6 & [nd f] & E6 & Hr)|(e & E6 & _)]; [|unfold lift in E6; by destruct (book_settlement _ _ _ _ _)].
    pose proof (same_trans _ _ _ S5 (alone_lift _ _ (sm_waits _ _ S5) _ _ E6)) as S6.
    rewrite put_shared_bind in Hr. injection Hr as <- _. cbn [waits st_shared with_shared sh_seen with_node].
    split; [apply (sm_waits _ _ S6)|]. apply (sm_seen _ _ S3). }
  apply M_bind_inv in Hr as [(s2 & [] & E2 & Hr)|(e & E2 & _)];
    [|destruct (Hb _ _ E2) as [? ->]; split; [apply (sm_seen _ _ S1) | done]].
  destruct (Hb _ _ E2) as [W2 S2].
  assert (Ha : alone (now ← asks st_clock;
    let p := {| pb_share := v; pb_submit := s; pb_hash := block_hex (v_hash v); pb_at := now |} in
    _ ← set_session (fun sn => with_pending sn (<[job_id s := default [] (s_pending sn !! job_id s) ++ [p]]> (s_pending sn)));
    _ ← send_mining (request_full_block (job_id s)) false;
    did (Told (p_id))) s2) by alone_go.
  pose proof (Ha W2 _ _ Hr) as S3. split; [|apply S3]. rewrite (sm_seen _ _ S3), S2. apply (sm_seen _ _ S1).
Qed.

Abbreviation adds := (SessionFacts.adds share_mark).
Abbreviation quiet_bind := (SessionFacts.quiet_bind share_mark share_unmarked).

Definition is_credit (e : Event) : bool := match e with Credited _ _ _ _ _ => true | _ => false end.

Lemma adds_unique st st' l1 l2 : adds st st' l1 -> adds st st' l2 -> l1 = l2.
Proof. intros (e1 & T1 & <-) (e2 & T2 & <-). rewrite T1 in T2. by apply app_inv_head in T2 as ->. Qed.

Lemma booking_no_credit v known evs x : booking v known evs -> x ∈ evs -> is_credit x = false.
Proof.
  unfold booking. destr_if; [|by intros -> ?%elem_of_nil].
  intros (b & -> & _) Hx. by apply list_elem_of_singleton in Hx as ->.
Qed.

(** What is left of a share that earns something, once it is judged: it is new, its gateway is not
    refused, and the ledger takes it. *)
Definition earned (st st' : St) (identity : string) (v : VerifiedShare) (x : Event) : Prop := exists l source,
  x = Credited identity (v_work v) (v_height v) (trunc u32_max (st_ts st)) source /\
  is_solo (v_coinbase_kind v) = false /\ 0 < v_work v /\
  seen_insert (sh_seen (st_shared st)) (v_height v) (v_hash v) = (sh_seen (st_shared st'), State.Fresh) /\
  (is_house_stratum = false -> faulted_now st = None) /\
  credit_window (nd_ledger (sh_node (st_shared st))) identity v (trunc u32_max (st_ts st)) = Ret (l, source) /\
  (v_is_block_candidate v = false -> nd_ledger (sh_node (st_shared st')) = l).

Lemma accept_keeps s j chain pol v identity st st' r : waits st = [] -> accept_share s j chain pol v identity st = Ret (st', r) ->
  sh_seen (st_shared st') = sh_seen (st_shared st) /\
  (v_is_block_candidate v = false -> sh_node (st_shared st') = sh_node (st_shared st)).
Proof.
  intros Hw Hr. unfold accept_share in Hr.
  apply bind_alone in Hr as (s1 & [] & _ & S1 & _ & Hr); [|done|eauto|steps_go].
  apply bind_alone in Hr as (s2 & [] & _ & S2 & _ & Hr); [|apply S1|eauto|steps_go].
  apply bind_alone in Hr as (s3 & [] & _ & S3 & _ & Hr); [|apply S2|eauto|steps_go].
  pose proof (same_trans _ _ _ (same_trans _ _ _ S1 S2) S3) as S.
  apply M_bind_inv in Hr as [(s4 & [] & E4 & Hr)|(e & E4 & ->)]; [|by apply candidate_booked in E4 as [[=] _]].
  assert (W4 : waits s4 = [] /\ sh_seen (st_shared s4) = sh_seen (st_shared s3) /\
               (v_is_block_candidate v = false -> sh_node (st_shared s4) = sh_node (st_shared s3))).
  { destruct (v_is_block_candidate v) eqn:Ec; cbn [andb] in E4.
    - destr_if_in E4; [|injection E4 as <-; split; [apply S3 | done]].
      by destruct (candidate_seen_waits _ _ _ _ _ _ (sm_waits _ _ S3) E4).
    - injection E4 as <-. split; [apply S3 | done]. }
  destruct W4 as (W4 & N4 & D4). pose proof (alone_send _ _ _ W4 _ _ Hr) as S5. split.
  - rewrite (sm_seen _ _ S5), N4. apply (sm_seen _ _ S).
  - intros Hc. rewrite (sm_node _ _ S5), (D4 Hc). apply (sm_node _ _ S).
Qed.

Lemma on_verified_credit s j chain pol v identity st st' r evs x : waits st = [] ->
  on_verified s j chain pol v identity st = Ret (st', r) -> adds st st' evs -> x ∈ evs -> is_credit x = true ->
  earned st st' identity v x.
Proof.
  intros Hw Hr Hadd Hx Hc. unfold on_verified in Hr.
  apply bind_alone in Hr as (s1 & p & _ & S1 & A1 & Hr); [|done|apply alone_session, alone_ret|steps_go].
  apply bind_alone in Hr as (s2 & [] & _ & S2 & A2 & Hr); [|apply S1|destr_if; eauto|steps_go].
  pose proof (same_trans _ _ _ S1 S2) as S. pose proof (adds_after _ _ _ _ _ A1 A2) as A.
  apply quiet_bind in Hr as (s3 & seen & E3 & A3 & Hr); [|steps_go].
  pose proof (adds_after _ _ _ _ _ A A3) as A'.
  assert (Hrej : forall code, reject s code s3 = Ret (st', r) -> False).
  { intros code [A4 _]%reject_inv. pose proof (adds_unique _ _ _ _ Hadd (adds_after _ _ _ _ _ A' A4)) as ->.
    apply list_elem_of_singleton in Hx as ->. discriminate Hc. }
  destruct seen; [|by destruct (Hrej _ Hr)..].
  apply quiet_bind in Hr as (s4 & fault & E4 & A4 & Hr); [|steps_go].
  pose proof (adds_after _ _ _ _ _ A' A4) as A''. destruct fault as [f|].
  { apply refuse_faulted_inv in Hr as (-> & b & Hb & A5).
    pose proof (adds_unique _ _ _ _ Hadd (adds_after _ _ _ _ _ A'' A5)) as ->.
    apply elem_of_cons in Hx as [->|Hx]; [discriminate Hc|]. by rewrite (booking_no_credit _ _ _ _ Hb Hx) in Hc. }
  apply quiet_bind in Hr as (s5 & [] & E5 & A5 & Hr); [|steps_go].
  unfold ts_now in Hr. rewrite asks_bind in Hr. pose proof (adds_after _ _ _ _ _ A'' A5) as A6.
  apply M_bind_inv in Hr as [(s6 & ok & E6 & Hr)|(e & E6 & ->)]; [|by apply credit_share_inv in E6 as (? & ? & [=] & _)].
  destruct (credit_share_inv _ _ _ _ _ _ E6) as (ok' & c & [= <-] & A7 & Hcr).
  assert (Hin : ok = true /\ x ∈ c).
  { destruct ok.
    - apply accept_share_inv in Hr as (-> & b & Hb & A8). split; [done|].
      pose proof (adds_unique _ _ _ _ Hadd (adds_after _ _ _ _ _ A6 (adds_trans _ _ _ _ _ _ A7 A8))) as ->.
      apply elem_of_app in Hx as [?|Hx]; [done|]. apply elem_of_app in Hx as [Hx|Hx].
      + by rewrite (booking_no_credit _ _ _ _ Hb Hx) in Hc.
      + apply list_elem_of_singleton in Hx as ->. discriminate Hc.
    - subst c. apply reject_inv in Hr as [A8 _].
      pose proof (adds_unique _ _ _ _ Hadd (adds_after _ _ _ _ _ A6 (adds_after _ _ _ _ _ A7 A8))) as ->.
      apply list_elem_of_singleton in Hx as ->. discriminate Hc. }
  destruct Hin as [-> Hin].
  destruct (credit_share_run _ _ _ _ _ _ _ _ E6 A7 Hin) as (l & src & -> & Hsolo & Hwork & Hcw & Hl & Hseen & Hwt).
  destruct (enter_seen_fresh _ _ _ Hwork E3) as (set & Hset & ->).
  set (s3 := with_shared s2 (with_seen (st_shared s2) set)) in *.
  assert (S4 : same s3 s4).
  { assert (Ha : alone (if is_house_stratum then mret None else gateway_fault) s3) by (destr_if; eauto).
    apply (Ha (sm_waits _ _ S) _ _ E4). }
  pose proof (same_trans _ _ _ S4 (alone_vote identity v s4 (sm_waits _ _ S4) _ _ E5)) as S5.
  assert (W6 : waits s6 = []) by (rewrite Hwt; apply S5).
  destruct (accept_keeps _ _ _ _ _ _ _ _ _ W6 Hr) as [Hseen' Hnode].
  assert (Ets : st_ts s5 = st_ts st) by (rewrite (sm_ts _ _ S5); apply (sm_ts _ _ S)).
  assert (Enode : sh_node (st_shared s5) = sh_node (st_shared st)).
  { rewrite (sm_node _ _ S5). apply (sm_node _ _ S). }
  exists l, src. rewrite <- Ets, <- Enode. split; [done|]. split; [done|]. split; [done|]. split; [|split; [|split; [done|]]].
  - rewrite Hseen', Hseen, (sm_seen _ _ S5). unfold s3. cbn [st_shared with_shared sh_seen with_seen].
    by rewrite <- (sm_seen _ _ S).
  - intros Hh. rewrite Hh in E4. rewrite <- (sm_fault _ _ S). change (faulted_now s2) with (faulted_now s3).
    unfold gateway_fault, ts_now in E4. rewrite shared_bind, asks_bind in E4. unfold faulted_now.
    destruct (fault_get _ _ _) as [f r']. rewrite put_shared_bind in E4. injection E4 as _ ->. done.
  - intros Hcand. rewrite (Hnode Hcand). done.
Qed.

(** * Refused, and a block all the same *)

Lemma alone_note_reject st : alone note_reject st.
Proof. unfold note_reject. alone_go. Qed.
Lemma reject_node s code st st' r : waits st = [] -> reject s code st = Ret (st', r) ->
  sh_node (st_shared st') = sh_node (st_shared st).
Proof.
  intros Hw Hr. assert (Ha : alone (reject s code) st).
  { unfold reject, refuse. apply alone_bind; [apply alone_send | intros; apply alone_note_reject]. }
  apply (sm_node _ _ (Ha Hw _ _ Hr)).
Qed.

(** Why a share that verified is refused although nothing is wrong with it: no room for its hash
    among those credited, or none for its identity in the table. *)
Definition no_room (st : St) (identity : string) (v : VerifiedShare) : Prop :=
  (exists set, seen_insert (sh_seen (st_shared st)) (v_height v) (v_hash v) = (set, Full)) \/
  (exists set, seen_insert (sh_seen (st_shared st)) (v_height v) (v_hash v) = (set, State.Fresh) /\
     (is_house_stratum = true \/ faulted_now st = None) /\ is_solo (v_coinbase_kind v) = false /\
     no_row_for (l_window (nd_ledger (sh_node (st_shared st)))) identity (v_work v) = true).

(** C32: A block is lost to a full table. A verified share that solves a block, on a job held to the
    node's chain, is refused outright where the set of credited hashes has no room left at its height
    or the identity table takes no new row: nothing is booked and no record is kept, though its
    coinbase pays out carry like any other block's. (A gateway refused for its template has its
    blocks booked.) *)
Theorem candidate_lost_to_full_table (s : PowSubmit) (j : JobSection) (chain : option JobCheck) (pol : Policy)
    (v : VerifiedShare) (identity : string) (st st' : St) (r : result SessionError ()) :
  waits st = [] -> v_is_block_candidate v = true -> is_Some chain -> 0 < v_work v -> v_coinbase_kind v <> GatewaySolo ->
  no_room st identity v -> on_verified s j chain pol v identity st = Ret (st', r) ->
  sh_node (st_shared st') = sh_node (st_shared st) /\ exists code, adds st st' [Sent (receipt s REJECTED code) false].
Proof.
  intros Hw _ _ Hwork Hk Hroom Hr. unfold on_verified in Hr. rewrite paying_bind in Hr.
  rewrite (bool_decide_eq_false_2 _ Hk) in Hr. cbn [andb] in Hr.
  apply M_bind_inv in Hr as [(s1 & [] & [= <-] & Hr)|(e & [=] & _)].
  apply quiet_bind in Hr as (s2 & seen & E2 & A2 & Hr); [|steps_go].
  unfold enter_seen in E2. rewrite (proj2 (Z.eqb_neq _ _)) in E2 by lia. cbn [andb] in E2. rewrite shared_bind in E2.
  destruct Hroom as [[set Hset]|(set & Hset & Hf & Hsolo & Hrow)]; rewrite Hset, put_shared_bind in E2; injection E2 as <- <-.
  { set (s2 := with_shared st _) in *. apply reject_inv in Hr as Hinv.
    split; [rewrite (reject_node _ _ s2 _ _ Hw Hr); done|]. exists REJECT_OTHER. eapply adds_after; [exact A2 | apply Hinv]. }
  set (s2 := with_shared st _) in *.
  assert (Ha : alone (if is_house_stratum then mret None else gateway_fault) s2) by (destr_if; eauto).
  apply quiet_bind in Hr as (s3 & fault & E3 & A3 & Hr); [|steps_go]. pose proof (Ha Hw _ _ E3) as S3.
  assert (fault = None) as ->.
  { destruct Hf as [Hh|Hf]; [rewrite Hh in E3; by injection E3 as _ <-|]. destruct is_house_stratum; [by injection E3 as _ <-|].
    unfold gateway_fault, ts_now in E3. rewrite shared_bind, asks_bind in E3. change (faulted_now s2 = None) in Hf. unfold faulted_now in Hf.
    destruct (fault_get _ _ _) as [f x]. rewrite put_shared_bind in E3. injection E3 as _ <-. done. }
  apply quiet_bind in Hr as (s4 & [] & E4 & A4 & Hr); [|steps_go].
  pose proof (same_trans _ _ _ S3 (alone_vote identity v s3 (sm_waits _ _ S3) _ _ E4)) as S4.
  unfold ts_now in Hr. rewrite asks_bind in Hr.
  assert (Hcs : credit_share identity v (st_ts s4) s4 = Ret (s4, Ok false)).
  { unfold credit_share. rewrite Hsolo, shared_bind, (sm_node _ _ S4). change (sh_node (st_shared s2)) with (sh_node (st_shared st)).
    by rewrite Hrow. }
  apply M_bind_inv in Hr as [(s5 & ok & E5 & Hr)|(e & E5 & ->)]; rewrite Hcs in E5; [|discriminate E5]. injection E5 as <- <-.
  apply reject_inv in Hr as Hinv. split; [rewrite (reject_node _ _ _ _ _ (sm_waits _ _ S4) Hr), (sm_node _ _ S4); done|].
  exists REJECT_BAD_USERNAME. eapply adds_after; [exact A2|]. eapply adds_after; [exact A3|]. eapply adds_after; [exact A4 | apply Hinv].
Qed.

(** C3: Nothing is credited that has not passed every check. If handling a share credits anything,
    with no other task in between, then: its sections were taken within the session's budget and
    say the job it is on; the job is on the chain of the node's tip, if the node has given one; the
    share verifies in its slot against the policy of the session, with the very list the job was
    issued; its hash was not among the credited ones and now is; the gateway is not refused for its
    template; and what the ledger has more than before is one credit of the verified work, at the
    verified height, to the identity of the share's username, under the source the grace book
    gives. *)
Theorem credit_is_earned (s : PowSubmit) (st st' : St) (r : result SessionError ()) (evs : list Event)
    (identity : string) (w h t source : Z) :
  waits st = [] -> on_pow s st = Ret (st', r) -> adds st st' evs -> Credited identity w h t source ∈ evs ->
  exists slots j pol v slot' l,
    share_identity s = Some identity /\
    take_sections (s_slots (st_session st)) s cfg_coinbase_budget = (slots, Ok j) /\
    (forall tip, sh_tip (st_shared st) = Some tip -> exists c,
      check_job tip (j_prev_hash j) (height j) (nbits_u32 j) (State.secs cfg_stale_grace) (st_clock st) = Ret c /\ taken c = true) /\
    holds_policy st j pol /\
    verify_share sha256 blake2b256 (slot_at slots (Z.to_nat (job_id s))) s pol = Ret (Ok (v, slot')) /\
    w = v_work v /\ h = v_height v /\ t = trunc u32_max (st_ts st) /\ 0 < w /\ is_solo (v_coinbase_kind v) = false /\
    seen_insert (sh_seen (st_shared st)) h (v_hash v) = (sh_seen (st_shared st'), State.Fresh) /\
    (is_house_stratum = false -> faulted_now st = None) /\
    credit_window (nd_ledger (sh_node (st_shared st))) identity v t = Ret (l, source) /\
    (v_is_block_candidate v = false -> nd_ledger (sh_node (st_shared st')) = l).
Proof.
  intros Hw Hr Hadd Hx. unfold on_pow in Hr.
  assert (Hone : forall code, evs = [Sent (receipt s REJECTED code) false] -> False).
  { intros code ->. by apply list_elem_of_singleton in Hx. }
  apply bind_alone in Hr as (s1 & a & E1 & S1 & A1 & Hr); [|done|eauto|steps_go].
  assert (Hrej : forall code s2, adds st s2 [] -> reject s code s2 = Ret (st', r) -> False).
  { intros code s2 A2 [A3 _]%reject_inv. apply (Hone code), (adds_unique st st'); [done|]. by eapply adds_after. }
  destruct a as [[i j]|code]; [|by destruct (Hrej _ _ A1 Hr)].
  apply bind_alone in Hr as (s2 & c & E2 & S2 & A2 & Hr); [|apply S1|eauto|steps_go].
  pose proof (adds_after _ _ _ _ _ A1 A2) as A. destruct c as [chain|code]; [|by destruct (Hrej _ _ A Hr)].
  apply bind_alone in Hr as (s3 & vd & E3 & S3 & A3 & Hr); [|apply S2|eauto|steps_go].
  pose proof (adds_after _ _ _ _ _ A A3) as A'. destr_if_in Hr.
  { exfalso. unfold refuse_dead_parent in Hr.
    apply quiet_bind in Hr as (s4 & now & _ & A4 & Hr); [|steps_go].
    apply quiet_bind in Hr as (s5 & [] & _ & A5 & Hr); [|steps_go].
    apply refuse_inv in Hr as [_ A6]. eapply Hone, (adds_unique st st'); [done|].
    eapply adds_after; [exact A'|]. eapply adds_after; [exact A4|]. by eapply adds_after. }
  apply bind_alone in Hr as (s4 & pol & E4 & S4 & A4 & Hr); [|apply S3|eauto|steps_go].
  apply bind_alone in Hr as (s5 & vr & E5 & S5 & A5 & Hr); [|apply S4|eauto|steps_go].
  pose proof (adds_after _ _ _ _ _ A' (adds_after _ _ _ _ _ A4 A5)) as A''.
  pose proof (same_trans _ _ _ (same_trans _ _ _ (same_trans _ _ _ S1 S2) S3) (same_trans _ _ _ S4 S5)) as S.
  destruct vr as [v|code].
  2:{ apply refuse_unverified_inv in Hr as [A6 _]. destruct (Hone code). eapply (adds_unique st st'); [done|].
      by eapply adds_after. }
  assert (Hv : verified s v) by (by eapply verify_in_slot_inv).
  destruct (on_verified_inv _ _ _ _ _ _ _ _ _ (take_share_identity _ _ _ _ _ E1) Hv Hr) as (evs' & A6 & _).
  pose proof (adds_unique _ _ _ _ Hadd (adds_after _ _ _ _ _ A'' A6)) as ->.
  pose proof (on_verified_credit _ _ _ _ _ _ _ _ _ _ _ (sm_waits _ _ S5) Hr A6 Hx eq_refl)
    as (l & src & [= -> -> -> -> ->] & Hsolo & Hwork & Hseen & Hfault & Hcw & Hl).
  rewrite (sm_ts _ _ S), (sm_seen _ _ S), (sm_node _ _ S), (sm_fault _ _ S) in *.
  pose proof (take_share_identity _ _ _ _ _ E1) as Hid. apply take_share_inv in E1 as [Hs Hh1].
  pose proof (keeps_hand _ _ _ _ (chain_hand j) E2) as Hh2. pose proof (keeps_hand _ _ _ _ (parent_hand chain _) E3) as Hh3.
  pose proof (keeps_hand _ _ _ _ (policy_hand j) E4) as Hh4.
  apply policy_for_inv in E4. apply verify_in_slot_run in E5 as [slot' Hver].
  assert (Hh : in_hand (st_session s3) = in_hand (st_session s1)) by congruence.
  rewrite Hh1 in Hh. injection Hh as Hsl Hrp Hpa.
  assert (Hsl4 : s_slots (st_session s4) = s_slots (st_session s1)) by (injection Hh4 as ?; congruence).
  rewrite Hsl4 in Hver.
  exists (s_slots (st_session s1)), j, pol, v, slot', l.
  split; [exact Hid|]. split; [exact Hs|]. split.
  { intros tip Htip. rewrite <- (sm_tip _ _ S1), <- (sm_clock _ _ S1) in *.
    by apply (chain_passed j s1 s2 chain (sm_waits _ _ S1) E2). }
  split.
  { destruct E4 as (iss & Hiss & ->). exists iss. rewrite Hrp in Hiss. split; [exact Hiss|].
    rewrite Hpa, (sm_ts _ _ (same_trans _ _ _ (same_trans _ _ _ S1 S2) S3)). done. }
  repeat (split; [done|]). done.
Qed.
End Alone.

Lemma demo_marked : exists evs, adds share_mark (demo_st seen_new) (demo_after seen_new) evs /\
  Credited "bc1qminer" 8192 966267 1788408530 2 ∈ evs.
Proof. eexists. split; [exists (trace (demo_after seen_new)); split; vm_compute; reflexivity | left]. Qed.

Lemma credit_is_earned_witness : exists slots j pol v slot',
  take_sections slots_new demo_share 4000000 = (slots, Ok j) /\
  verify_share toy_sha toy_blake (slot_at slots (Z.to_nat (job_id demo_share))) demo_share pol = Ret (Ok (v, slot')) /\
  8192 = v_work v.
Proof.
  destruct demo_marked as (evs & Ha & Hx).
  destruct (@credit_is_earned toy_world demo_cfg demo_peer demo_share (demo_st seen_new) (demo_after seen_new) (Ok tt) evs
    "bc1qminer" 8192 966267 1788408530 2 eq_refl demo_pow_runs Ha Hx)
    as (slots & j & pol & v & slot' & l & _ & Ht & _ & _ & Hv & Hwk & _).
  exists slots, j, pol, v, slot'. split; [exact Ht|]. split; [exact Hv | exact Hwk].
Defined.

(** The demo share, with the set of hashes full. *)
Definition seen_full : SeenShares := {| by_height := ∅; seen_total := MAX_TOTAL |}.
Definition full_verified : option (JobSection * Policy * VerifiedShare * St) :=
  match @take_share toy_world demo_cfg demo_share (demo_st seen_full) with
  | Ret (s1, Ok (Ok (i, j))) =>
      match @policy_for toy_world demo_cfg demo_peer j s1 with
      | Ret (s2, Ok pol) =>
          match @verify_in_slot toy_world demo_share pol s2 with
          | Ret (s3, Ok (Ok v)) => Some (j, pol, v, s3)
          | _ => None
          end
      | _ => None
      end
  | _ => None
  end.

Lemma candidate_lost_to_full_table_witness : exists j pol v st st' r,
  full_verified = Some (j, pol, v, st) /\ v_is_block_candidate v = true /\
  @on_verified toy_world demo_cfg demo_peer demo_share j (Some Current) pol v "bc1qminer" st = Ret (st', r) /\
  nd_blocks (sh_node (st_shared st')) = [].
Proof.
  assert (Hall : match full_verified with
    | Some (j, pol, v, st) => waits st = [] /\ v_is_block_candidate v = true /\ 0 < v_work v /\ v_coinbase_kind v <> GatewaySolo /\
        snd (seen_insert (sh_seen (st_shared st)) (v_height v) (v_hash v)) = Full /\ nd_blocks (sh_node (st_shared st)) = [] /\
        match @on_verified toy_world demo_cfg demo_peer demo_share j (Some Current) pol v "bc1qminer" st with Ret _ => True | Panic => False end
    | None => False
    end) by (vm_compute; repeat split; congruence).
  destruct full_verified as [[[[j pol] v] st]|]; [|destruct Hall]. destruct Hall as (Hw & Hc & Hwk & Hk & Hs & Hb & Hrun).
  destruct (@on_verified toy_world demo_cfg demo_peer demo_share j (Some Current) pol v "bc1qminer" st) as [[st' r]|] eqn:Hr; [|destruct Hrun].
  destruct (seen_insert (sh_seen (st_shared st)) (v_height v) (v_hash v)) as [set x] eqn:Hset. cbn in Hs. subst x.
  destruct (@candidate_lost_to_full_table toy_world demo_cfg demo_peer demo_share j (Some Current) pol v "bc1qminer" st st' r Hw Hc
    (ex_intro _ Current eq_refl) Hwk Hk (or_introl (ex_intro _ set Hset)) Hr) as [Hn _].
  exists j, pol, v, st, st', r. split; [reflexivity|]. split; [exact Hc|]. split; [exact Hr|]. rewrite Hn. exact Hb.
Defined.
