(* ===== verification/FramesProps.v ===== *)
(** The loop that cuts frames from a gateway's bytes: it ends, and where the stream is cut makes no
    difference. *)

From S2P Require Import Prelude Bytes Text Tides Split Window Grace Ledger Disk BlockLog Persist Cursor Frame Crypto Coinbaser Coinbase.
From S2P Require Import Mining Handshake Pow Verify State Settle Address ClassBudget Node Validity Slots Replies Session Paying Found Shares Serve SessionFacts.
From S2P Require Import WireProps SessionFacts.
Open Scope Z_scope.

Section Frames.
Context `{World} {cfg : Config} {peer : Peer}.
Context {Key Identity Rand : Type} `{Nacl Identity Rand} (box_decrypt : Key -> list Z -> list Z -> option (list Z)).

Abbreviation Reader := (Serve.Reader (Key := Key)).
Abbreviation read_frames := (Serve.read_frames box_decrypt).

Lemma M_bind_cong {A B} (m : M A) (k1 k2 : A -> M B) st :
  (forall st1 a, m st = Ret (st1, Ok a) -> k1 a st1 = k2 a st1) -> (m ≫= k1) st = (m ≫= k2) st.
Proof. unfold mbind, M_bind. destruct (m st) as [[st1 [a|e]]|]; auto. Qed.

Lemma M_bind_assoc {A B C} (m : M A) (k : A -> M B) (l : B -> M C) st :
  ((m ≫= k) ≫= l) st = (m ≫= fun a => k a ≫= l) st.
Proof. unfold mbind, M_bind. by destruct (m st) as [[st1 [a|e]]|]. Qed.

Lemma M_bind_run {A B} (m : M A) (k : A -> M B) st st1 r : m st = Ret (st1, r) ->
  (m ≫= k) st = match r with Ok a => k a st1 | Err e => Ret (st1, Err e) end.
Proof. unfold mbind, M_bind. intros ->. by destruct r. Qed.

(** What is left to read: every round uses some of it. *)
Definition unread (rd : Reader) : nat := length (rd_buf rd) + (if rd_header rd then 1 else 0).

Lemma unread_enough rd : (unread rd < enough rd)%nat.
Proof. unfold unread, enough. destruct (rd_header rd); lia. Qed.
Hint Resolve unread_enough : core.

Lemma buf_take_inv (rd rd' : Reader) n p : buf_take rd n = Some (p, rd') ->
  (length (rd_buf rd') + n = length (rd_buf rd))%nat /\ rd_header rd' = rd_header rd.
Proof. unfold buf_take. destruct (Nat.ltb_spec (length (rd_buf rd)) n); [done|]. intros [= <- <-]. cbn. rewrite length_drop. split; [lia | done]. Qed.

(** A header is there: it is in hand now, nothing else has happened, and no more is left to read
    than before. *)
Lemma next_header_inv (rd rd' : Reader) h st st' : next_header rd st = Ret (st', Ok (Some (h, rd'))) ->
  st' = st /\ rd_header rd' = Some h /\ (unread rd' <= unread rd)%nat.
Proof.
  unfold next_header, unread. destruct (rd_header rd) eqn:Eh.
  { intros [= <- <- <-]. by rewrite Eh. }
  destruct (buf_take rd HEADER_SIZE) as [[hb rd1]|] eqn:Et; [|done]. apply buf_take_inv in Et as [Hl _].
  destruct (header_decode hb (rd_keys rd1)) as [[h'|e] k]; [|done].
  rewrite session_bind. unfold instant_now. rewrite asks_bind. destr_if; [done|].
  intros [= <- <- <-]. cbn. unfold HEADER_SIZE in Hl. split; [done|]. split; [done | lia].
Qed.

Lemma round_smaller (rd rd1 rd2 : Reader) h p n ch now st st' :
  next_header rd st = Ret (st', Ok (Some (h, rd1))) -> buf_take rd1 n = Some (p, rd2) ->
  (unread (received rd2 ch now) < unread rd)%nat.
Proof.
  intros (_ & Hh & Hle)%next_header_inv [Hl Hh2]%buf_take_inv. unfold unread, received in *. cbn. rewrite Hh in Hle.
  destruct (rd_header rd); lia.
Qed.

(** More rounds than are needed change nothing. *)
Lemma rounds_enough k1 : forall k2 (rd : Reader) st, (unread rd < k1)%nat -> (unread rd < k2)%nat ->
  read_frames k1 rd st = read_frames k2 rd st.
Proof.
  induction k1 as [|k1 IH]; [lia|]. intros [|k2] rd st H1 H2; [lia|]. cbn [Serve.read_frames].
  apply M_bind_cong. intros st1 [[h rd1]|] Eh; [|done].
  destruct (buf_take rd1 _) as [[p rd2]|] eqn:Et; [|done].
  apply M_bind_cong. intros st2 ch _. apply M_bind_cong. intros st3 now _.
  pose proof (round_smaller _ _ _ _ _ _ ch now _ _ Eh Et). apply IH; lia.
Qed.

(** No frame is ready: not even a header, or a header whose payload is not all there. *)
Definition starved (rd : Reader) : Prop :=
  match rd_header rd with
  | None => (length (rd_buf rd) < HEADER_SIZE)%nat
  | Some h => (length (rd_buf rd) < Z.to_nat (h_len h))%nat
  end.

Lemma buf_take_none (rd : Reader) n : buf_take rd n = None -> (length (rd_buf rd) < n)%nat.
Proof. unfold buf_take. destruct (Nat.ltb_spec (length (rd_buf rd)) n); [done|done]. Qed.

Lemma next_header_none (rd : Reader) st st' : next_header rd st = Ret (st', Ok None) -> starved rd.
Proof.
  unfold next_header, starved. destruct (rd_header rd); [done|].
  destruct (buf_take rd HEADER_SIZE) as [[hb rd1]|] eqn:Et; [|by intros _; apply buf_take_none].
  destruct (header_decode hb (rd_keys rd1)) as [[h'|e] k]; [|done].
  rewrite session_bind. unfold instant_now. rewrite asks_bind. by destr_if.
Qed.

(** C14: the loop that cuts frames from the bytes of a gateway ends, and ends for want of bytes. A
    round for every byte held and two more are enough: any larger number gives the same result, the
    state, the error and the panics included. And when it ends without an error no frame is ready:
    the next header is not all there, or the payload of the one in hand is not. *)
Theorem frames_run_dry (k : nat) (rd : Reader) (st : St) : (enough rd <= k)%nat ->
  read_frames k rd st = read_frames (enough rd) rd st /\
  forall st' rd', read_frames k rd st = Ret (st', Ok rd') -> starved rd'.
Proof.
  intros Hk. pose proof (unread_enough rd) as Hu. assert (Hk' : (unread rd < k)%nat) by lia.
  split; [by apply rounds_enough|]. clear Hk Hu. revert rd st Hk'.
  induction k as [|k IH]; [lia|]. intros rd st Hu st' rd'. cbn [Serve.read_frames].
  intros [(st1 & [[h rd1]|] & Eh & Hr)|(e & _ & [=])]%M_bind_inv; [|injection Hr as _ <-; by eapply next_header_none].
  destruct (buf_take rd1 _) as [[p rd2]|] eqn:Et.
  - apply M_bind_inv in Hr as [(st2 & ch & _ & Hr)|(e & _ & [=])].
    apply M_bind_inv in Hr as [(st3 & now & _ & Hr)|(e & _ & [=])].
    eapply IH; [|exact Hr]. pose proof (round_smaller _ _ _ _ _ _ ch now _ _ Eh Et). lia.
  - injection Hr as _ <-. unfold starved. apply next_header_inv in Eh as (_ & -> & _). by apply buf_take_none.
Qed.

(** * Where the stream is cut *)

Lemma buf_take_feed (rd rd' : Reader) b n p : buf_take rd n = Some (p, rd') -> buf_take (feed rd b) n = Some (p, feed rd' b).
Proof.
  unfold buf_take. cbn [rd_buf feed]. rewrite length_app.
  destruct (Nat.ltb_spec (length (rd_buf rd)) n) as [|Hle]; [done|]. intros [= <- <-].
  destruct (Nat.ltb_spec (length (rd_buf rd) + length b) n); [lia|].
  rewrite take_app_le, drop_app_le by lia. done.
Qed.

Lemma next_header_feed (rd : Reader) b st st' r : next_header rd st = Ret (st', r) -> r <> Ok None ->
  next_header (feed rd b) st =
    Ret (st', match r with Ok (Some (h, rd')) => Ok (Some (h, feed rd' b)) | Ok None => Ok None | Err e => Err e end).
Proof.
  unfold next_header. cbn [rd_header feed]. destruct (rd_header rd); [by intros [= <- <-]|].
  destruct (buf_take rd HEADER_SIZE) as [[hb rd1]|] eqn:Et; [|by intros [= <- <-]].
  rewrite (buf_take_feed _ _ b _ _ Et). cbn [rd_keys feed].
  destruct (header_decode hb (rd_keys rd1)) as [[h|e] k]; [|by intros [= <- <-]].
  rewrite !session_bind. unfold instant_now. rewrite !asks_bind. destr_if; by intros [= <- <-].
Qed.

Lemma next_header_again (rd : Reader) h st : rd_header rd = Some h -> next_header rd st = Ret (st, Ok (Some (h, rd))).
Proof. unfold next_header. by intros ->. Qed.

Lemma next_header_runs (rd : Reader) st : exists r, next_header rd st = Ret (st, r).
Proof.
  unfold next_header. destruct (rd_header rd); [by eexists|]. destruct (buf_take rd HEADER_SIZE) as [[hb rd1]|]; [|by eexists].
  destruct (header_decode hb (rd_keys rd1)) as [[h|e] k]; [|by eexists].
  rewrite session_bind. unfold instant_now. rewrite asks_bind. destr_if; by eexists.
Qed.

Lemma read_frames_cut b k : forall (rd : Reader) st, (unread rd < k)%nat ->
  (read_frames k rd ≫= fun rd' => read_frames (enough (feed rd' b)) (feed rd' b)) st =
  read_frames (enough (feed rd b)) (feed rd b) st.
Proof.
  induction k as [|k IH]; [lia|]. intros rd st Hu.
  assert (exists F, (unread (feed rd b) < F)%nat) as [F HF] by (eexists; constructor).
  rewrite (rounds_enough (enough (feed rd b)) (S F)) by (done || lia).
  cbn [Serve.read_frames]. destruct (next_header_runs rd st) as [r Er].
  rewrite M_bind_assoc, (M_bind_run _ _ _ _ _ Er).
  destruct r as [[[h rd1]|]|e].
  2:{ change ((mret rd ≫= fun rd' => read_frames (enough (feed rd' b)) (feed rd' b)) st)
        with (read_frames (enough (feed rd b)) (feed rd b) st).
      by rewrite (rounds_enough _ (S F)) by (done || lia). }
  2:{ by rewrite (M_bind_run _ _ _ _ _ (next_header_feed rd b st st _ Er ltac:(done))). }
  pose proof (next_header_feed rd b st st _ Er ltac:(done)) as Ef. rewrite (M_bind_run _ _ _ _ _ Ef).
  destruct (next_header_inv _ _ _ _ _ Er) as (_ & Hh & _).
  destruct (buf_take rd1 (Z.to_nat (h_len h))) as [[p rd2]|] eqn:Et.
  - rewrite (buf_take_feed _ _ b _ _ Et), M_bind_assoc. apply M_bind_cong. intros st2 ch _.
    rewrite M_bind_assoc. apply M_bind_cong. intros st3 now _.
    pose proof (round_smaller _ _ _ _ _ _ ch now _ _ Er Et) as Hlt. rewrite IH by lia.
    apply rounds_enough; [done|]. pose proof (round_smaller _ _ _ _ _ _ ch now _ _ Ef (buf_take_feed _ _ b _ _ Et)). cbn in *. lia.
  - change ((mret rd1 ≫= fun rd' => read_frames (enough (feed rd' b)) (feed rd' b)) st)
      with (read_frames (enough (feed rd1 b)) (feed rd1 b) st).
    rewrite (rounds_enough (enough (feed rd1 b)) (S (enough (feed rd1 b)))) by (done || (pose proof (unread_enough (feed rd1 b)); lia)).
    cbn [Serve.read_frames].
    rewrite (M_bind_run _ _ _ _ _ (next_header_again (feed rd1 b) h st Hh)).
    destruct (buf_take (feed rd1 b) (Z.to_nat (h_len h))) as [[p rd2]|] eqn:Et2; [|done].
    apply M_bind_cong. intros st2 ch _. apply M_bind_cong. intros st3 now _.
    pose proof (round_smaller _ _ _ _ _ _ ch now _ _ Ef Et2).
    pose proof (round_smaller _ _ _ _ _ _ ch now _ _ (next_header_again (feed rd1 b) h st Hh) Et2).
    pose proof (unread_enough (feed rd1 b)). apply rounds_enough; lia.
Qed.

(** Frames are where the bytes say, however the stream happens to arrive. Handing the session
    [a] and then [b] is handing it [a ++ b] at once: the same messages are handled in the same
    order, on the same state, with the same errors, and the same header, keys and rest are kept for
    the bytes still to come, whatever the cut goes through. *)
Theorem stream_cut_anywhere (rd : Reader) (a b : list Z) (st : St) :
  (serve_once box_decrypt rd (Serve.Bytes a) ≫= fun rd' => serve_once box_decrypt rd' (Serve.Bytes b)) st =
  serve_once box_decrypt rd (Serve.Bytes (a ++ b)) st.
Proof.
  cbn [serve_once]. rewrite read_frames_cut by done.
  replace (feed (feed rd a) b) with (feed rd (a ++ b)); [done|]. unfold feed. cbn. by rewrite app_assoc.
Qed.
End Frames.

(** * Delivery *)

Section Delivery.
Context `{World} {cfg : Config} {peer : Peer}.
Context {Key Identity Rand : Type} `{NaclLaws Identity Rand}.
Context (box_encrypt : Key -> list Z -> list Z -> list Z) (box_decrypt : Key -> list Z -> list Z -> option (list Z)).
Context (box_opens : forall k n m, box_decrypt k n (box_encrypt k n m) = Some m).
Context (box_length : forall k n m, length (box_encrypt k n m) = (MAC + length m)%nat).
Context (gateway_session : Identity) (Hpeer : session_sign_pk p_hello = sign_pk gateway_session).

Abbreviation Reader := (Serve.Reader (Key := Key)).
Abbreviation Channel := (Crypto.Channel (Key := Key)).

(** Everything a gateway sends, one frame after the other. *)
Fixpoint mining_frames (ch : Channel) (keys : KeyStream) (ms : list (list Z * bool)) {struct ms} : list Z :=
  match ms with
  | [] => []
  | (plain, signed) :: ms' =>
      let sent := mining_frame box_encrypt gateway_session ch keys plain signed in
      sent.1.1 ++ mining_frames sent.1.2 sent.2 ms'
  end.

(** The messages handled one after the other, with what the reader keeps in between. *)
Definition opened (rd : Reader) (now : Z) (rest : list Z) : Reader := {|
  rd_buf := rest; rd_keys := (advance (rd_keys rd)).2; rd_header := None;
  rd_channel := {| bx := bx (rd_channel rd); send_nonce := send_nonce (rd_channel rd);
                   recv_nonce := bump_nonce (recv_nonce (rd_channel rd)) |};
  rd_last_recv := now |}.
Definition handle_plain (plain : list Z) : M () :=
  match parse_client plain with Ok m => handle_message m | Err _ => note_reject end.
Fixpoint deliver (ms : list (list Z * bool)) (rd : Reader) {struct ms} : M Reader :=
  match ms with
  | [] => mret rd
  | (plain, _) :: ms' => _ ← handle_plain plain; now ← instant_now; deliver ms' (opened rd now [])
  end.

Definition fits (m : list Z * bool) : Prop :=
  Z.of_nat (MAC + length m.1 + if m.2 then SIG else 0)%nat <= MAX_IDLE_FRAME.

Lemma frame_cap_least s now : MAX_IDLE_FRAME <= frame_cap s now.
Proof. unfold frame_cap. destr_if; [|lia]. unfold MAX_IDLE_FRAME, MAX_CMD_LEN. lia. Qed.

Lemma frame_handled k (rd : Reader) tx (plain : list Z) signed rest st :
  rd_header rd = None -> 0 <= rd_keys rd < 2 ^ 32 -> fits (plain, signed) ->
  bx tx = bx (rd_channel rd) -> send_nonce tx = recv_nonce (rd_channel rd) ->
  rd_buf rd = (mining_frame box_encrypt gateway_session tx (rd_keys rd) plain signed).1.1 ++ rest ->
  read_frames box_decrypt (S k) rd st =
    (_ ← handle_plain plain; now ← instant_now; read_frames box_decrypt k (opened rd now rest)) st.
Proof using Type*.
  intros Hh Hk Hfit Hbx Hn Hbuf. cbn [read_frames].
  unfold mining_frame, write_frame in Hbuf. set (body := if signed then _ else plain) in Hbuf.
  pose proof (decrypt_encrypted box_encrypt box_decrypt box_opens box_length tx (rd_channel rd) body Hbx Hn) as Hdec.
  unfold encrypt in Hbuf, Hdec. set (payload := box_encrypt (bx tx) (send_nonce tx) body) in *. cbn [fst] in Hdec.
  set (h := {| h_len := trunc u32_max (Z.of_nat (length payload)); h_signed := signed; h_sealed := false; h_channel := true; h_cmd := 5 |}) in *.
  assert (Hl : length payload = (MAC + length plain + if signed then SIG else 0)%nat).
  { unfold payload. rewrite box_length. unfold body. destruct signed; [rewrite length_app, sign_length|]; lia. }
  unfold fits in Hfit. cbn [fst snd] in Hfit. rewrite <- Hl in Hfit. unfold MAX_IDLE_FRAME in Hfit.
  assert (Htr : trunc u32_max (Z.of_nat (length payload)) = Z.of_nat (length payload)) by (unfold trunc; apply Z.mod_small; lia).
  assert (Hok : header_ok h) by (unfold header_ok, h; cbn; rewrite Htr; lia).
  pose proof (header_decode_encode h (rd_keys rd) Hok Hk) as Hhd.
  assert (Hhl : length (header_encode h (rd_keys rd)).1 = HEADER_SIZE) by (unfold header_encode, advance; cbn [fst]; apply length_u32).
  change (header_encode _ (rd_keys rd)) with (header_encode h (rd_keys rd)) in Hbuf.
  destruct (header_encode h (rd_keys rd)) as [hb keys] eqn:Ehe. cbn [fst snd] in *.
  assert (Hnext : next_header rd st = Ret (st, Ok (Some (h, {| rd_buf := payload ++ rest; rd_keys := keys; rd_header := Some h;
    rd_channel := rd_channel rd; rd_last_recv := rd_last_recv rd |})))).
  { unfold next_header. rewrite Hh. unfold buf_take. rewrite Hbuf, <- app_assoc.
    rewrite (proj2 (Nat.ltb_ge _ _)) by (rewrite length_app, Hhl; lia).
    rewrite take_app_length' , drop_app_length' by done. cbn [rd_keys]. rewrite Hhd. cbn [fst snd].
    rewrite session_bind. unfold instant_now. rewrite asks_bind.
    rewrite (proj2 (Z.ltb_ge _ _)); [done|]. etransitivity; [|apply frame_cap_least]. unfold h. cbn [h_len]. rewrite Htr. unfold MAX_IDLE_FRAME. lia. }
  rewrite (M_bind_run _ _ _ _ _ Hnext). unfold buf_take at 1. cbn [rd_buf rd_channel rd_keys rd_header rd_last_recv].
  assert (Hhn : Z.to_nat (h_len h) = length payload) by (unfold h; cbn [h_len]; rewrite Htr; lia).
  rewrite Hhn, (proj2 (Nat.ltb_ge _ _)) by (rewrite length_app; lia). rewrite take_app_length, drop_app_length.
  unfold handle_frame, open_payload. cbn [h_sealed h_channel h h_signed h_cmd rd_channel]. rewrite Hdec.
  assert (Hbody : (if signed then verify_trailing (session_sign_pk p_hello) body else Ok body) = Ok plain).
  { unfold body. destruct signed; [|done]. rewrite Hpeer. apply verify_trailing_signed. }
  rewrite Hbody. cbn [Z.eqb Pos.eqb negb]. rewrite M_bind_assoc. unfold handle_plain. apply M_bind_cong. intros st1 [] _.
  rewrite (M_bind_run _ _ st1 st1 (Ok _) eq_refl). apply M_bind_cong. intros st2 now _. unfold received, opened. cbn.
  assert (keys = feedback (rd_keys rd)) as -> by (unfold header_encode, advance in Ehe; by injection Ehe as _ <-). done.
Qed.

Definition emptied (rd : Reader) : Reader := {|
  rd_buf := []; rd_keys := rd_keys rd; rd_header := rd_header rd; rd_channel := rd_channel rd; rd_last_recv := rd_last_recv rd |}.

Lemma mining_frame_after tx keys plain signed :
  let sent := mining_frame box_encrypt gateway_session tx keys plain signed in
  (0 < length sent.1.1)%nat /\ bx sent.1.2 = bx tx /\ send_nonce sent.1.2 = bump_nonce (send_nonce tx) /\ sent.2 = (advance keys).2.
Proof using Type.
  unfold mining_frame, write_frame, encrypt, header_encode, advance. cbn [fst snd bx send_nonce].
  rewrite length_app, length_u32. split; [lia|]. by repeat split.
Qed.

Lemma frames_delivered ms : forall (tx : Channel) (rd : Reader) st F,
  Forall fits ms -> rd_buf rd = mining_frames tx (rd_keys rd) ms -> rd_header rd = None -> 0 <= rd_keys rd < 2 ^ 32 ->
  bx tx = bx (rd_channel rd) -> send_nonce tx = recv_nonce (rd_channel rd) -> (unread rd < F)%nat ->
  read_frames box_decrypt F rd st = deliver ms (emptied rd) st.
Proof using Type*.
  induction ms as [|[plain signed] ms IH]; intros tx rd st [|F] HF Hb Hh Hk Hbx Hn Hu; [lia| |lia|].
  { cbn [read_frames]. unfold next_header, buf_take. rewrite Hh, Hb. cbn [length Nat.ltb Nat.leb HEADER_SIZE].
    destruct rd. cbn in *. by subst. }
  apply Forall_cons in HF as [Hm HF]. cbn [mining_frames] in Hb. cbv zeta in Hb.
  rewrite (frame_handled F rd tx plain signed _ st Hh Hk Hm Hbx Hn Hb). cbn [deliver].
  apply M_bind_cong. intros st1 [] _. apply M_bind_cong. intros st2 now _.
  pose proof (mining_frame_after tx (rd_keys rd) plain signed) as (Hlen & Hbx' & Hn' & Hk'). cbv zeta in Hlen, Hbx', Hn', Hk'.
  set (sent := mining_frame _ _ _ _ _ _) in *.
  rewrite (IH sent.1.2 (opened rd now (mining_frames sent.1.2 sent.2 ms)) st2 F HF); cbn [opened rd_buf rd_header rd_keys rd_channel bx recv_nonce].
  - done.
  - by rewrite Hk'.
  - done.
  - apply feedback_range.
  - by rewrite Hbx'.
  - by rewrite Hn', Hn.
  - unfold unread in *. rewrite Hh, Hb, length_app in Hu. cbn [opened rd_buf rd_header]. lia.
Qed.

(** C13: what a gateway sends is what its session handles. Frame by frame, whether signed or not, the
    bytes a gateway writes over a channel and header keys that are in step with the session's are
    opened, checked and taken for exactly the messages written, each handled once and in the order
    sent, with nothing of one frame left for the next; and the session ends up in step with the
    gateway again. (A frame of the size taken at any time, and signed with the key of the hello.) *)
Theorem stream_delivers (ms : list (list Z * bool)) (tx : Channel) (rd : Reader) (st : St) :
  Forall fits ms -> rd_buf rd = [] -> rd_header rd = None -> 0 <= rd_keys rd < 2 ^ 32 ->
  bx tx = bx (rd_channel rd) -> send_nonce tx = recv_nonce (rd_channel rd) ->
  serve_once box_decrypt rd (Serve.Bytes (mining_frames tx (rd_keys rd) ms)) st = deliver ms rd st.
Proof using Type*.
  intros HF Hb Hh Hk Hbx Hn. cbn [serve_once].
  rewrite (frames_delivered ms tx (feed rd (mining_frames tx (rd_keys rd) ms)) st) ; [|done|cbn; by rewrite Hb|done..|apply unread_enough].
  unfold emptied, feed. destruct rd. cbn in *. by subst.
Qed.
End Delivery.

(** * A gateway of the toy world *)

Definition demo_key : Z := of_le (replicate 32 67).
Definition demo_reader (buf : list Z) : Reader (Key := Z) := {|
  rd_buf := buf; rd_keys := (from_seed 5).1; rd_header := None;
  rd_channel := demo_channel 9 (replicate 24 0) (replicate 24 1); rd_last_recv := 0 |}.
Definition demo_tx : Channel (Key := Z) := demo_channel 9 (replicate 24 1) (replicate 24 0).
Definition demo_ms : list (list Z * bool) := [([SUB_COINBASER_REQUEST; 1; 2], false); ([255; 7], true)].

Lemma toy_opens k n m : toy_dec k n (toy_enc k n m) = Some m.
Proof. done. Qed.
Lemma toy_length k n m : length (toy_enc k n m) = (MAC + length m)%nat.
Proof. done. Qed.
Lemma demo_sign : session_sign_pk (@p_hello demo_peer) = @sign_pk Z () toy_nacl demo_key.
Proof. vm_compute. reflexivity. Qed.

Lemma stream_delivers_witness :
  @serve_once toy_world demo_cfg demo_peer Z Z () toy_nacl toy_dec (demo_reader [])
    (Serve.Bytes (@mining_frames Z Z () toy_nacl toy_enc demo_key demo_tx (from_seed 5).1 demo_ms)) (demo_st seen_new) =
  @deliver toy_world demo_cfg demo_peer Z demo_ms (demo_reader []) (demo_st seen_new).
Proof.
  apply (@stream_delivers toy_world demo_cfg demo_peer Z Z () toy_nacl toy_laws toy_enc toy_dec toy_opens toy_length demo_key demo_sign
    demo_ms demo_tx (demo_reader []) (demo_st seen_new)).
  - apply Forall_cons. split; [vm_compute; congruence|]. apply Forall_cons. split; [vm_compute; congruence | constructor].
  - reflexivity.
  - reflexivity.
  - vm_compute. split; congruence.
  - reflexivity.
  - reflexivity.
Defined.

Lemma frames_run_dry_witness :
  @read_frames toy_world demo_cfg demo_peer Z Z () toy_nacl toy_dec 9 (demo_reader [1; 2; 3]) (demo_st seen_new) =
  Ret (demo_st seen_new, Ok (demo_reader [1; 2; 3])) /\ starved (demo_reader [1; 2; 3]).
Proof.
  assert (Hr : @read_frames toy_world demo_cfg demo_peer Z Z () toy_nacl toy_dec 9 (demo_reader [1; 2; 3]) (demo_st seen_new) =
    Ret (demo_st seen_new, Ok (demo_reader [1; 2; 3]))) by (vm_compute; reflexivity).
  split; [exact Hr|].
  assert (Hk : (enough (demo_reader [1; 2; 3]%Z) <= 9)%nat) by (vm_compute; lia).
  destruct (@frames_run_dry toy_world demo_cfg demo_peer Z Z () toy_nacl toy_dec 9 (demo_reader [1; 2; 3]) (demo_st seen_new) Hk) as [_ Hs].
  exact (Hs _ _ Hr).
Defined.
