(* ===== verification/SessionProps.v ===== *)
(** What a session promises its gateway and the pool: whom it hangs up on, what it answers, what it
    keeps, and whom it pays. *)

From S2P Require Import Prelude Bytes Text Tides Split Window Grace Ledger Disk BlockLog Persist Cursor Frame Crypto Coinbaser Coinbase.
From S2P Require Import Mining Handshake Pow Verify State Settle Address ClassBudget Node Validity Slots Replies Session Paying Found Shares Serve SessionFacts.
From S2P Require Import VerifyFacts SlotsProps RepliesProps WireProps SessionFacts.
Open Scope Z_scope.

(** * The flood limit *)

Section Flood.
Context `{World} {cfg : Config} {peer : Peer}.

(** The rejects of the window that ends at [now]. *)
Definition recent (now : Z) (l : list Z) : list Z := filter (fun t => now - t <= REJECT_WINDOW) l.

Lemma recent_app now l1 l2 : recent now (l1 ++ l2) = recent now l1 ++ recent now l2.
Proof. apply filter_app. Qed.
Lemma recent_all now l : Forall (fun t => now - t <= REJECT_WINDOW) l -> recent now l = l.
Proof.
  unfold recent. induction 1 as [|t l Ht _ IH]; [done|]. by rewrite filter_cons_True, IH.
Qed.

Lemma drop_stale_recent now l : StronglySorted Z.le l -> drop_stale now l = recent now l.
Proof.
  induction 1 as [|t l Hs IH HF]; [done|]. cbn [drop_stale]. unfold elapsed, sat_sub, REJECT_WINDOW in *.
  destruct (Z.ltb_spec (State.secs 10) (Z.max 0 (now - t))).
  - unfold recent. rewrite filter_cons_False; [exact IH|]. unfold REJECT_WINDOW, State.secs in *. lia.
  - symmetry. apply recent_all. constructor; [unfold REJECT_WINDOW, State.secs in *; lia|].
    eapply Forall_impl; [exact HF|]. cbn. unfold REJECT_WINDOW, State.secs in *. lia.
Qed.

Lemma recent_later t t' l : t <= t' -> recent t' (recent t l) = recent t' l.
Proof.
  intros Ht. unfold recent. rewrite list_filter_filter. apply list_filter_iff. intros x. lia.
Qed.

Lemma sorted_recent t l : StronglySorted Z.le l -> StronglySorted Z.le (recent t l).
Proof.
  induction 1 as [|x l Hs IH HF]; [constructor|]. unfold recent in *. rewrite filter_cons. case_decide; [|done].
  constructor; [done|]. rewrite Forall_forall in *. intros y [_ Hy]%list_elem_of_filter. auto.
Qed.

Lemma sorted_snoc l t : StronglySorted Z.le l -> Forall (fun x => x <= t) l -> StronglySorted Z.le (l ++ [t]).
Proof.
  induction 1 as [|x l Hs IH HF]; intros Hle; cbn; [by repeat constructor|].
  apply Forall_cons in Hle as [Hx Hle]. constructor; [by apply IH|]. apply Forall_app. split; [done | by repeat constructor].
Qed.

Definition at_instant (st : St) (now : Z) : St := {|
  st_session := st_session st; st_shared := st_shared st; st_clock := now; st_ts := st_ts st;
  waits := waits st; trace := trace st |}.

(** Rejects at one instant after the other, until one is the last straw. *)
Fixpoint rejects_at (times : list Z) (st : St) : panics (St * result SessionError ()) :=
  match times with
  | [] => Ret (st, Ok tt)
  | t :: times' =>
      match note_reject (at_instant st t) with
      | Ret (st, Ok _) => rejects_at times' st
      | x => x
      end
  end.

Lemma note_reject_at st t past now : is_house_stratum = false -> s_rejects (st_session st) = recent now past ->
  StronglySorted Z.le past -> Forall (fun x => x <= t) past -> now <= t ->
  exists st', note_reject (at_instant st t) =
    Ret (st', if (REJECT_FLOOD <? length (recent t (past ++ [t])))%nat
              then Err (RejectFlood (Z.of_nat (length (recent t (past ++ [t])))) 10) else Ok tt) /\
    s_rejects (st_session st') = recent t (past ++ [t]).
Proof.
  intros Hh Hr Hs HF Hn. unfold note_reject, instant_now. rewrite asks_bind, session_bind, put_session_bind, Hh. cbn [st_clock st_session at_instant].
  rewrite Hr, drop_stale_recent, recent_app, (recent_later now t) by
    (done || (apply sorted_snoc; [by apply sorted_recent|]; rewrite Forall_forall in *; intros y [_ Hy]%list_elem_of_filter; auto)).
  rewrite <- recent_app. destr_if; by eexists.
Qed.

(** Who is hung up on. Whatever the instants its rejects and malformed messages come at, a
    session (but the pool's own gateway's) is kept exactly as long as no more than two thousand of
    them lie within any ten seconds up to one of them; and what it remembers of them is never more
    than that. *)
Theorem flood_limit_exact (times : list Z) (st : St) :
  is_house_stratum = false -> s_rejects (st_session st) = [] -> StronglySorted Z.le times ->
  (exists st', rejects_at times st = Ret (st', Ok tt) /\ (length (s_rejects (st_session st')) <= REJECT_FLOOD)%nat) <->
  forall i t, times !! i = Some t -> (length (recent t (take (S i) times)) <= REJECT_FLOOD)%nat.
Proof.
  intros Hh Hr Hs.
  enough (Hgen : forall times past st now, StronglySorted Z.le (past ++ times) -> s_rejects (st_session st) = recent now past ->
    (length (recent now past) <= REJECT_FLOOD)%nat -> Forall (fun t => now <= t) times ->
    (exists st', rejects_at times st = Ret (st', Ok tt) /\ (length (s_rejects (st_session st')) <= REJECT_FLOOD)%nat) <->
    forall i t, times !! i = Some t -> (length (recent t (past ++ take (S i) times)) <= REJECT_FLOOD)%nat).
  { apply (Hgen times [] st (hd 0 times)); [done | done | cbn; lia|]. destruct Hs as [|t l Hs HF]; constructor; [cbn; lia | done]. }
  clear times st Hr Hs. induction times as [|t times IH]; intros past st now Hs Hr Hlen HF.
  { cbn [rejects_at]. split; [by intros _ i t|]. intros _. exists st. by rewrite Hr. }
  apply Forall_cons in HF as [Hn HF]. cbn [rejects_at].
  assert (Hs' : StronglySorted Z.le past /\ Forall (fun x => x <= t) past).
  { clear -Hs. induction past as [|x past IH]; [by repeat constructor|]. cbn in Hs. inversion Hs as [|? ? H1 H2]; subst.
    apply Forall_app in H2 as [H2 H3]. apply Forall_cons in H3 as [H3 _]. destruct (IH H1). by repeat constructor. }
  destruct Hs' as [Hsp HFp]. destruct (note_reject_at st t past now Hh Hr Hsp HFp Hn) as (st1 & -> & Hr1).
  rewrite (app_assoc past [t] times : past ++ t :: times = _) in Hs.
  destruct (Nat.ltb_spec REJECT_FLOOD (length (recent t (past ++ [t])))) as [Hlt|Hle].
  - split; [by intros (st' & [=] & _)|]. intros Hall. specialize (Hall 0%nat t eq_refl). change (take 1 (t :: times)) with [t] in Hall. lia.
  - rewrite (IH (past ++ [t]) st1 t Hs Hr1 Hle).
    2:{ clear -Hs. rewrite <- app_assoc in Hs. induction past as [|x past IH]; [by inversion Hs|]. cbn in Hs. inversion Hs; auto. }
    split.
    + intros Hall [|i] u Hu; [injection Hu as <-; done|]. specialize (Hall i u Hu). by rewrite <- app_assoc in Hall.
    + intros Hall i u Hu. rewrite <- app_assoc. exact (Hall (S i) u Hu).
Qed.
End Flood.

Lemma sorted_replicate n (x : Z) : StronglySorted Z.le (replicate n x).
Proof.
  induction n as [|n IH]; cbn; constructor; [done|]. apply Forall_forall. by intros y [-> _]%elem_of_replicate.
Qed.

Lemma flood_limit_exact_witness : exists st',
  @rejects_at toy_world demo_cfg demo_peer (replicate 3 5) (demo_st seen_new) = Ret (st', Ok tt) /\
  (length (s_rejects (st_session st')) <= REJECT_FLOOD)%nat.
Proof.
  assert (Hh : @is_house_stratum toy_world demo_cfg demo_peer = false) by (vm_compute; reflexivity).
  assert (Hs : StronglySorted Z.le (replicate 3 5)) by apply sorted_replicate.
  apply (proj2 (@flood_limit_exact toy_world demo_cfg demo_peer (replicate 3 5) (demo_st seen_new) Hh eq_refl Hs)).
  intros [|[|[|i]]] t Ht; [injection Ht as <-; vm_compute; lia.. | discriminate Ht].
Defined.

(** * Answers to requests *)

Section Answered.
Context `{World} {cfg : Config} {peer : Peer}.

Definition reply_mark (e : Event) : bool := match e with Sent (b :: _) _ => b =? SUB_COINBASER_REPLY | _ => false end.
Lemma reply_unmarked e : background e -> reply_mark e = false.
Proof. destruct e as [[|b l] sg| | | | | |]; cbn; try done. by intros [-> | [-> | ->]]. Qed.

Abbreviation adds := (SessionFacts.adds reply_mark).
Abbreviation quiet_bind := (SessionFacts.quiet_bind reply_mark reply_unmarked).
Abbreviation quiet_inv := (SessionFacts.quiet_inv reply_mark reply_unmarked).

(** A step that leaves the replies in hand alone. *)
Abbreviation holds_replies x m := (step (fun s => s_replies s = x) (fun _ => True) (fun _ => True) m).

Lemma replies_put x s : s_replies s = x -> holds_replies x (put_session s).
Proof. intros. by apply step_put_session. Qed.
Lemma replies_set x f : (forall s, s_replies (f s) = s_replies s) -> holds_replies x (set_session f).
Proof. intros Hf. apply step_set_session. intros s <-. apply Hf. Qed.
Lemma replies_set_paying x f : holds_replies x (set_paying f).
Proof. by apply step_set_paying. Qed.
Lemma replies_fails {A} x e : holds_replies x (fails (A := A) e).
Proof. by apply step_fails. Qed.
Lemma replies_sent x e : holds_replies x (sent e).
Proof. by apply step_sent. Qed.
Hint Resolve replies_put replies_set_paying replies_fails replies_sent : steps.
Hint Extern 1 (holds_replies _ (set_session _)) => apply replies_set; reflexivity : steps.
Hint Extern 1 (holds_replies _ (send_mining _ _)) => apply replies_sent : steps.

Lemma replies_configure x script g : holds_replies x (send_configure_script script g).
Proof. unfold send_configure_script. steps_go. Qed.
Hint Resolve replies_configure : steps.
Lemma replies_flush x value encoded prev : holds_replies x (flush_coinbaser_reply value encoded prev).
Proof. unfold flush_coinbaser_reply. steps_go. Qed.
Hint Resolve replies_flush : steps.
Lemma replies_send x value encoded prev : holds_replies x (send_coinbaser_reply value encoded prev).
Proof. unfold send_coinbaser_reply, instant_now. steps_go. Qed.
Lemma replies_reject x : holds_replies x note_reject.
Proof. unfold note_reject, instant_now. steps_go. Qed.
Hint Resolve replies_reject : steps.
Lemma replies_rejects x n : holds_replies x (note_rejects n).
Proof. induction n as [|n IH]; cbn [note_rejects]; steps_go. Qed.
Lemma replies_base x : holds_replies x take_base.
Proof. unfold take_base, instant_now. steps_go. Qed.
Lemma replies_open x carry : holds_replies x (budget_open carry).
Proof. unfold budget_open. steps_go. Qed.
Hint Resolve replies_base replies_open : steps.
Lemma replies_settle x : holds_replies x settle_budget.
Proof. unfold settle_budget, expire_class_budget, instant_now. steps_go. Qed.

Lemma replies_kept {A} (m : M A) st st' r : (forall x, holds_replies x m) -> m st = Ret (st', r) ->
  s_replies (st_session st') = s_replies (st_session st).
Proof. intros Hm Hr. by destruct (Hm _ _ _ _ eq_refl Hr). Qed.

Lemma quiet_base : quiet take_base.
Proof. unfold take_base, instant_now. steps_go. Qed.
Hint Resolve quiet_base : steps.
Lemma quiet_settle : quiet settle_budget.
Proof. unfold settle_budget, expire_class_budget, budget_open, instant_now. steps_go. Qed.

Lemma note_rejects_inv n st st' r : note_rejects n st = Ret (st', r) ->
  adds st st' [] /\ (r = Ok tt \/ exists k, r = Err (RejectFlood k 10)).
Proof.
  revert st. induction n as [|n IH]; intros st; cbn [note_rejects]; [intros [= <- <-]; split; [apply adds_nil | by left]|].
  assert (Hone : forall st1 r1, note_reject st = Ret (st1, r1) -> adds st st1 [] /\ (r1 = Ok tt \/ exists k, r1 = Err (RejectFlood k 10))).
  { intros st1 r1. unfold note_reject, instant_now. rewrite asks_bind, session_bind, put_session_bind. destr_if; [destr_if|];
      intros [= <- <-]; (split; [exists []; by rewrite app_nil_r|]); eauto. }
  intros [(st1 & [] & E1 & E2)|(e & E1 & ->)]%M_bind_inv; destruct (Hone _ _ E1) as [A1 H1].
  - destruct (IH _ E2) as [A2 H2]. split; [by eapply adds_after | done].
  - split; [done|]. destruct H1 as [[=]|[k [= ->]]]. right. by exists k.
Qed.

Lemma sent_marked e st st' r : sent e st = Ret (st', r) -> r = Ok tt /\ adds st st' (SessionFacts.marks reply_mark [e]).
Proof.
  unfold sent. intros [(st1 & a & E1 & E2)|(x & [=] & _)]%M_bind_inv. injection E1 as <- <-.
  assert (Hq : quiet (_ ← await_; now ← instant_now; set_session (fun s => with_last_send s now))) by steps_go.
  destruct (quiet_inv _ _ _ _ Hq E2) as [[[] ->] Hadd]. split; [done|]. eapply adds_before; [|exact Hadd]. by exists [e].
Qed.

Lemma flush_sends value encoded prev st st' r : flush_coinbaser_reply value encoded prev st = Ret (st', r) ->
  r = Ok tt /\ adds st st' [Sent (coinbaser_reply value encoded) false].
Proof.
  unfold flush_coinbaser_reply. intros (s1 & [] & _ & A1 & Hr)%quiet_bind; [|steps_go].
  apply quiet_bind in Hr as (s2 & p & _ & A2 & Hr); [|steps_go].
  apply quiet_bind in Hr as (s3 & [] & _ & A3 & Hr); [|steps_go].
  apply M_bind_inv in Hr as [(s4 & [] & E4 & Hr)|(e & E4 & ->)]; apply sent_marked in E4 as [Ho A4]; [|discriminate Ho].
  assert (Hq : quiet (set_paying (fun p => with_split p true (Some (hex_encode (rev prev)))))) by steps_go.
  destruct (quiet_inv _ _ _ _ Hq Hr) as [[[] ->] A5]. split; [done|].
  do 3 (eapply adds_after; [eassumption|]). by eapply adds_before.
Qed.

Lemma send_sends value encoded prev st st' r : cfg_coinbaser_delay_ms = 0 ->
  send_coinbaser_reply value encoded prev st = Ret (st', r) ->
  r = Ok tt /\ adds st st' [Sent (coinbaser_reply value encoded) false].
Proof. intros Hd. unfold send_coinbaser_reply. rewrite Hd. apply flush_sends. Qed.

Definition answers (value : Z) (st st' : St) : Prop := exists c,
  c ∈ kept (s_replies (st_session st')) /\ issued_by_id (kept (s_replies (st_session st'))) (ic_id c) = Some c /\
  ic_value c = value /\ adds st st' [Sent (coinbaser_reply value (encode_v2 (ic_id c) (ic_outputs c))) false].

Lemma answers_after value a b c : adds a b [] -> answers value b c -> answers value a c.
Proof. intros Ha (x & H1 & H2 & H3 & H4). exists x. do 3 (split; [done|]). by eapply adds_after. Qed.

Lemma keep_reply_last st c : c ∈ kept (keep_reply st c) /\ issued_by_id (kept (keep_reply st c)) (ic_id c) = Some c.
Proof.
  cbn [keep_reply kept]. rewrite drop_app_le by (rewrite length_app; cbn; unfold COINBASERS_KEPT; lia).
  split; [apply elem_of_app; right; left|]. unfold issued_by_id. rewrite rev_app_distr. cbn. by rewrite Z.eqb_refl.
Qed.

Lemma outputs_nonempty sp script : coinbaser_outputs sp script <> [].
Proof.
  unfold coinbaser_outputs. destr_if.
  - intros E. by apply app_nil in E as [_ E].
  - intros E. rewrite E in Hif. by rewrite orb_true_r in Hif.
Qed.

Lemma replies_given x (base : option CoinbaserBase) : holds_replies x (match base with Some b => mret b | None => take_base end).
Proof. destruct base; steps_go. Qed.

Lemma fresh_run value prev base budget st st' r : fresh_reply value prev base budget st = Ret (st', r) ->
  exists c, ic_id c = (take_id (s_replies (st_session st))).2 /\ ic_outputs c <> [] /\ s_replies (st_session st') = keep_reply (take_id (s_replies (st_session st))).1 c.
Proof.
  unfold fresh_reply. rewrite session_bind. destruct (take_id (s_replies (st_session st))) as [rp id] eqn:Et. cbn [fst snd].
  rewrite put_session_bind. intros Hr.
  set (s1 := with_session st _) in Hr. change rp with (s_replies (st_session s1)).
  apply quiet_bind in Hr as (s2 & b & E2 & _ & Hr); [|destruct base; steps_go].
  rewrite <- (replies_kept _ s1 s2 (Ok b) (fun x => replies_given x base) E2).
  apply quiet_bind in Hr as (s3 & ts & E3 & _ & Hr); [|steps_go]. injection E3 as <- _.
  apply M_bind_inv in Hr as [(s4 & sp & E4 & Hr)|(e & E4 & ->)]; [|unfold lift in E4; by destruct (price_reply _ _ _ _ _)].
  unfold lift in E4. destruct (price_reply _ _ _ _ _); [|discriminate E4]. injection E4 as <- ->.
  apply M_bind_inv in Hr as [(s5 & [] & E5 & Hr)|(e & E5 & ->)].
  2:{ exfalso. unfold send_coinbaser_reply in E5. destr_if_in E5; [|by apply flush_sends in E5 as [[=] _]].
      unfold instant_now in E5. rewrite asks_bind in E5. discriminate E5. }
  rewrite <- (replies_kept _ s2 s5 (Ok tt) (fun x => replies_send x _ _ _) E5).
  rewrite shared_bind in Hr.
  apply M_bind_inv in Hr as [(s6 & c & E6 & Hr)|(e & E6 & ->)]; unfold lift in E6;
    (destruct (issued_reply _ _ _ _ _ _ _) as [c'|] eqn:Ei; [|discriminate E6]); [|discriminate E6]. injection E6 as <- ->.
  unfold issued_reply in Ei. destruct (match sh_tip _ with Some _ => _ | None => _ end) as [h|]; [|discriminate Ei].
  injection Ei as <-. unfold set_session in Hr. rewrite session_bind in Hr. injection Hr as <- _.
  eexists. split; [|split; [|reflexivity]]; [done | apply outputs_nonempty].
Qed.

Lemma fresh_answers value prev base budget st st' r : cfg_coinbaser_delay_ms = 0 ->
  fresh_reply value prev base budget st = Ret (st', r) -> r = Ok tt /\ answers value st st'.
Proof.
  intros Hd. unfold fresh_reply. rewrite session_bind. destruct (take_id (s_replies (st_session st))) as [rp id].
  intros (s1 & [] & _ & A1 & Hr)%quiet_bind; [|steps_go].
  apply quiet_bind in Hr as (s2 & b & _ & A2 & Hr); [|destruct base; steps_go].
  apply quiet_bind in Hr as (s3 & ts & _ & A3 & Hr); [|steps_go].
  apply quiet_bind in Hr as (s4 & sp & _ & A4 & Hr); [|steps_go].
  apply M_bind_inv in Hr as [(s5 & [] & E5 & Hr)|(e & E5 & ->)]; apply (send_sends _ _ _ _ _ _ Hd) in E5 as [Ho A5]; [|discriminate Ho].
  apply quiet_bind in Hr as (s6 & x & _ & A6 & Hr); [|steps_go].
  apply quiet_bind in Hr as (s7 & c & E7 & A7 & Hr); [|steps_go].
  unfold set_session in Hr. rewrite session_bind in Hr. injection Hr as <- <-. split; [done|].
  unfold lift in E7. destruct (issued_reply _ _ _ _ _ _ _) as [c'|] eqn:Ei; [|discriminate E7]. injection E7 as <- <-.
  unfold issued_reply in Ei. destruct (match sh_tip x with Some _ => _ | None => _ end) as [h|]; [|discriminate Ei].
  injection Ei as <-. set (c := {| ic_id := id |}). destruct (keep_reply_last (s_replies (st_session s6)) c) as [K1 K2].
  exists c. do 3 (split; [done|]). do 4 (eapply adds_after; [eassumption|]).
  eapply adds_before; [exact A5|]. eapply adds_after; [exact A6|]. eapply adds_after; [exact A7|]. exists []. cbn. by rewrite app_nil_r.
Qed.

End Answered.

Definition demo_request : panics (St * result SessionError ()) :=
  @on_coinbaser_request toy_world demo_cfg demo_peer 312500000 (replicate 32 119) (demo_st seen_new).
Definition demo_answered : St := match demo_request with Ret (st, _) => st | Panic => demo_st seen_new end.
Lemma demo_request_runs : demo_request = Ret (demo_answered, Ok tt).
Proof. vm_compute. reflexivity. Qed.

