(* ===== verification/SessionKept.v ===== *)
(** What a whole session keeps: an interface between a property of a session's state and the
    handlers of its loop. [Kept I G] asks how [I] fares under each change the handlers make to the
    session, and whether what is sent has [G]; [serve_kept] then gives it of the loop, whatever
    comes in and whatever the other tasks do meanwhile. *)

From S2P Require Import Prelude Bytes Text Tides Split Window Grace Ledger Disk BlockLog Persist Cursor Frame Crypto Coinbaser Coinbase.
From S2P Require Import Mining Handshake Pow Verify State Settle Address ClassBudget Node Validity Slots Replies Session Paying Found Shares Serve SessionFacts.
Open Scope Z_scope.

(** Everything but a configure. *)
Definition plain_event (e : Event) : Prop := match e with Sent (b :: _) _ => b <> SUB_CONFIGURE | Sent [] _ => False | _ => True end.

Definition any_error (e : SessionError) : Prop := True.

Class Kept `{World} {cfg : Config} {peer : Peer} (I : Session -> Prop) (G : Event -> Prop) := {
  k_says e : plain_event e -> G e;
  k_pool_script : step I G any_error (send_configure_script cfg_pool_script false);
  k_own_script s script : I s -> solo_script (s_paying s) = Some script \/ own_script (s_paying s) = Some script ->
    step I G any_error (send_configure_script script true);
  k_last s x : I s -> I (with_last_send s x);
  k_rejects s l : I s -> I (with_rejects s l);
  k_check s c due asked suspect : I s -> I (with_check s c due asked suspect);
  k_stamps s a b : I s -> I (with_stamps s a b);
  k_budget s b : I s -> I (with_budget s b);
  k_pending_add s k p : I s -> I (with_pending s (<[k := default [] (s_pending s !! k) ++ [p]]> (s_pending s)));
  k_pending_take s k : I s -> I (with_pending s (delete k (s_pending s)));
  k_pending_tick s now : I s -> I (with_pending s
    (filter (fun e => e.2 <> []) (filter (fun p => elapsed now (pb_at p) < PENDING_BLOCK_TTL) <$> s_pending s)));
  k_take s q slots r : I s -> (Z.to_nat (job_id q) < length (job_slots (s_slots s)))%nat ->
    take_sections (s_slots s) q cfg_coinbase_budget = (slots, r) -> I (with_slots s slots);
  k_verify s q pol v slot : I s ->
    verify_share sha256 blake2b256 (slot_at (s_slots s) (Z.to_nat (job_id q))) q pol = Ret (Ok (v, slot)) ->
    I (with_slots s (with_slot (s_slots s) (Z.to_nat (job_id q)) slot));
  k_refill s now : I s -> I (with_replies s (refill (s_replies s) now));
  k_plan s value budget replies plan : I s -> plan_reply (s_replies s) value budget = Ret (replies, plan) ->
    I (with_replies s replies);
  k_votes s0 s identity n h : I s0 -> I s ->
    (MAX_SESSION_IDENTITIES <=? size (identity_work (s_paying s0)))%nat && bool_decide (identity_work (s_paying s0) !! identity = None) = false ->
    h = held (s_paying s) \/ (held (s_paying s0) = None -> h = None) ->
    I (with_paying s (with_votes (s_paying s) (<[identity := n]> (identity_work (s_paying s0))) h));
  k_paying s p : I s -> identity_work p = identity_work (s_paying s) -> held p = held (s_paying s) ->
    (pins_script (s_paying s) = true -> pins_script p = true) -> I (with_paying s p)
}.

(** A fresh reply takes an id before it is sent and is kept after, so it is asked about as a whole. *)
Class KeptReply `{World} {cfg : Config} {peer : Peer} (I : Session -> Prop) (G : Event -> Prop) := {
  k_fresh value prev base budget : step I G any_error (fresh_reply value prev base budget)
}.

Section Kept.
Context `{World} {cfg : Config} {peer : Peer} (I : Session -> Prop) (G : Event -> Prop) `{!Kept I G}.

Abbreviation keeps m := (step I G any_error m).

Lemma keeps_set f : (forall s, I s -> I (f s)) -> keeps (set_session f).
Proof. apply step_set_session. Qed.
Lemma keeps_set_paying f : (forall p, identity_work (f p) = identity_work p) -> (forall p, held (f p) = held p) ->
  (forall p, pins_script p = true -> pins_script (f p) = true) -> keeps (set_paying f).
Proof using All. intros. apply step_set_paying. intros s Hs. apply k_paying; auto. Qed.
Lemma keeps_fails {A} e : keeps (fails (A := A) e).
Proof. by apply step_fails. Qed.
Lemma keeps_did e : plain_event e -> keeps (did e).
Proof using All. intros. by apply step_did, k_says. Qed.
Lemma keeps_sent e : plain_event e -> keeps (sent e).
Proof using All. intros. apply step_sent; [by apply k_says | apply k_last]. Qed.
Lemma keeps_put s : I s -> keeps (put_session s).
Proof. apply step_put_session. Qed.

Ltac update_kept :=
  first [ assumption
        | apply (k_rejects (I := I) (G := G)) | apply (k_check (I := I) (G := G)) | apply (k_stamps (I := I) (G := G))
        | apply (k_budget (I := I) (G := G)) | apply (k_refill (I := I) (G := G)) | apply (k_pending_tick (I := I) (G := G))
        | apply (k_pending_add (I := I) (G := G)) | apply (k_pending_take (I := I) (G := G)) ]; try assumption.

Hint Resolve keeps_fails k_pool_script : steps.
Hint Extern 1 (step _ _ _ (set_paying _)) => apply keeps_set_paying; reflexivity || done : steps.
Hint Extern 1 (step _ _ _ (did _)) => apply keeps_did; exact Logic.I : steps.
Hint Extern 1 (step _ _ _ (sent Ping)) => apply keeps_sent; exact Logic.I : steps.
Hint Extern 1 (step _ _ _ (send_mining _ _)) => apply keeps_sent; cbn; discriminate : steps.
Hint Extern 1 (step _ _ _ (put_session _)) => apply keeps_put; update_kept : steps.
Hint Extern 1 (step _ _ _ (set_session _)) => apply keeps_set; intros ? ?; update_kept : steps.

Lemma keeps_hold : keeps hold_on_pool_script.
Proof using All. unfold hold_on_pool_script. steps_go. Qed.
Lemma keeps_follow b : keeps (follow_held_split b).
Proof using All. unfold follow_held_split. steps_go. eapply k_own_script; eauto. Qed.
Lemma note_held_inv h n d st st' h' b : note_held h n d st = Ret (st', Ok (h', b)) -> h = None -> h' = None.
Proof using Type. intros Hr ->. unfold note_held in Hr. by injection Hr as _ <- _. Qed.

Lemma keeps_note_identity identity work : keeps (note_identity identity work).
Proof using All.
  unfold note_identity. apply step_paying. intros s Hs. apply step_if; intros Hg; [steps_go|]. cbv zeta.
  destruct (dominant _) as [dom|].
  2:{ apply step_set_paying. intros s' Hs'. apply (k_votes s); auto. }
  apply step_bind_inv; [unfold note_held; steps_go|]. intros st st' [h held_now] Hh. pose proof (note_held_inv _ _ _ _ _ _ _ Hh) as Hnone.
  apply step_bind; [apply step_set_paying; intros s' Hs'; apply (k_votes s); auto|]. intros [].
  steps_go.
Qed.
Hint Resolve keeps_hold keeps_follow keeps_note_identity : steps.

(** * Shares *)

Lemma keeps_take s : keeps (take_share s).
Proof using All.
  unfold take_share. apply step_session. intros sn Hs. apply step_if; intros Hg; [steps_go|]. apply Nat.leb_gt in Hg.
  destruct (share_identity s); [|intros; steps_go]. destruct (take_sections _ _ _) as [slots r] eqn:E.
  apply step_bind; [|intros; steps_go]. apply keeps_put. by eapply k_take.
Qed.
Lemma keeps_chain j : keeps (hold_to_chain j).
Proof using All. unfold hold_to_chain, check_on. steps_go. Qed.
Lemma keeps_parent chain prev : keeps (judge_parent chain prev).
Proof using All. unfold judge_parent. steps_go. Qed.
Lemma keeps_policy j : keeps (policy_for j).
Proof using All. unfold policy_for. steps_go. Qed.
Lemma keeps_verify s pol : keeps (verify_in_slot s pol).
Proof using All.
  unfold verify_in_slot. apply step_session. intros sn Hs. apply step_bind_inv; [steps_go|].
  intros st st' r E. unfold lift in E. destruct (verify_share _ _ _ _ _) as [x|] eqn:Ev; [|discriminate E]. injection E as _ ->.
  destruct r as [[v slot]|code]; [|intros; steps_go]. apply step_bind; [|intros; steps_go]. apply keeps_put. by eapply k_verify.
Qed.
Lemma keeps_refuse s code : keeps (refuse s code).
Proof using All. unfold refuse. steps_go. Qed.
Lemma keeps_note_reject : keeps note_reject.
Proof using All. unfold note_reject, instant_now. steps_go. Qed.
Hint Resolve keeps_take keeps_chain keeps_parent keeps_policy keeps_verify keeps_refuse keeps_note_reject : steps.
Lemma keeps_reject s code : keeps (reject s code).
Proof using All. unfold reject. steps_go. Qed.
Lemma keeps_dead s : keeps (refuse_dead_parent s).
Proof using All.
  unfold refuse_dead_parent, instant_now. apply step_bind; [steps_go|]. intros now. apply step_bind; [|intros; steps_go].
  apply keeps_set. intros sn Hs. destr_if; [done | by apply k_check].
Qed.
Hint Resolve keeps_reject keeps_dead : steps.
Lemma keeps_unverified s pol code : keeps (refuse_unverified s pol code).
Proof using All. unfold refuse_unverified. steps_go. Qed.
Lemma keeps_seen v : keeps (enter_seen v).
Proof using All. unfold enter_seen. steps_go. Qed.
Lemma keeps_fault : keeps gateway_fault.
Proof using All. unfold gateway_fault. steps_go. Qed.
Hint Resolve keeps_unverified keeps_seen keeps_fault : steps.
Lemma keeps_vote identity v : keeps (vote identity v).
Proof using All. unfold vote. steps_go. Qed.
Lemma keeps_credit identity v ts : keeps (credit_share identity v ts).
Proof using All. unfold credit_share. steps_go. Qed.
Lemma keeps_learn s j pol v : keeps (learn_budget s j pol v).
Proof using All. unfold learn_budget, instant_now. steps_go. Qed.
Lemma keeps_pool_only s v : keeps (note_pool_only s v).
Proof using All. unfold note_pool_only. steps_go. Qed.
Lemma keeps_check chain prev s v : keeps (maybe_check_template chain prev s v).
Proof using All. unfold maybe_check_template, instant_now. steps_go. Qed.
Lemma keeps_candidate s v finder : keeps (on_block_candidate s v finder).
Proof using All. unfold on_block_candidate, book_candidate, instant_now, ts_now. steps_go. Qed.
Hint Resolve keeps_vote keeps_credit keeps_learn keeps_pool_only keeps_check keeps_candidate : steps.
Lemma keeps_faulted s j chain v identity : keeps (refuse_faulted s j chain v identity).
Proof using All. unfold refuse_faulted. steps_go. Qed.
Lemma keeps_accept s j chain pol v identity : keeps (accept_share s j chain pol v identity).
Proof using All. unfold accept_share. steps_go. Qed.
Hint Resolve keeps_faulted keeps_accept : steps.
Lemma keeps_verified s j chain pol v identity : keeps (on_verified s j chain pol v identity).
Proof using All. unfold on_verified. steps_go. Qed.
Hint Resolve keeps_verified : steps.
Lemma keeps_pow s : keeps (on_pow s).
Proof using All. unfold on_pow. steps_go. Qed.

(** * Requests, replies and notices *)

Lemma keeps_rejects n : keeps (note_rejects n).
Proof using All. induction n as [|n IH]; cbn [note_rejects]; steps_go. Qed.
Lemma keeps_settle : keeps settle_budget.
Proof using All. unfold settle_budget, expire_class_budget, take_base, budget_open, instant_now. steps_go. Qed.
Lemma keeps_flush value encoded prev : keeps (flush_coinbaser_reply value encoded prev).
Proof using All. unfold flush_coinbaser_reply. steps_go. eapply k_own_script; eauto. Qed.
Hint Resolve keeps_rejects keeps_settle keeps_flush : steps.
Lemma keeps_reply value encoded prev : keeps (send_coinbaser_reply value encoded prev).
Proof using All. unfold send_coinbaser_reply, instant_now. steps_go. Qed.
Hint Resolve keeps_reply : steps.
Lemma keeps_base : keeps take_base.
Proof using All. unfold take_base, instant_now. steps_go. Qed.
Hint Resolve keeps_base : steps.

(** A fresh reply, where whatever replies a session holds will do. *)
Lemma keeps_fresh : (forall s r, I s -> I (with_replies s r)) -> KeptReply I G.
Proof using All.
  intros Hr. constructor. intros value prev base budget. unfold fresh_reply, ts_now.
  apply step_session. intros s Hs. destruct (take_id _) as [r id].
  apply step_bind; [apply keeps_put; by apply Hr|]. intros _. apply step_bind; [destruct base; steps_go|]. intros b.
  do 3 (apply step_bind; [steps_go|]; intros ?). apply step_bind; [steps_go|]. intros x. apply step_bind; [steps_go|]. intros c.
  apply keeps_set. auto.
Qed.

Context `{!KeptReply I G}.
Hint Resolve k_fresh : steps.

Lemma keeps_request value prev : keeps (on_coinbaser_request value prev).
Proof using All.
  unfold on_coinbaser_request, instant_now. apply step_if; intros _; [steps_go|].
  apply step_bind; [steps_go|]. intros now. apply step_bind; [steps_go|]. intros [].
  apply step_bind; [steps_go|]. intros [base budget]. apply step_session. intros s Hs. apply step_bind_inv; [steps_go|].
  intros st st' [replies plan] E. unfold lift in E. destruct (plan_reply _ _ _) as [x|] eqn:Ep; [|discriminate E]. injection E as _ ->.
  apply step_bind; [|intros; steps_go]. apply keeps_put. by eapply k_plan.
Qed.
Lemma keeps_submit_all ps txns : keeps (submit_all ps txns).
Proof using All. induction ps as [|p ps IH]; cbn [submit_all]; unfold submit_candidate; steps_go. Qed.
Lemma keeps_label ps outcome : keeps (label_all ps outcome).
Proof using All. induction ps as [|p ps IH]; cbn [label_all]; steps_go. Qed.
Hint Resolve keeps_pow keeps_request keeps_submit_all keeps_label : steps.
Lemma keeps_validation r : keeps (on_validation r).
Proof using All.
  unfold on_validation, check_template. apply step_session. intros s Hs. cbv zeta.
  assert (Hput : forall c due asked suspect, keeps (put_session (with_check (with_pending s (delete (validation_job r) (s_pending s))) c due asked suspect))).
  { intros. apply keeps_put. apply k_check. by apply k_pending_take. }
  steps_go.
Qed.
Lemma keeps_solo : keeps solo_until_split.
Proof using All. unfold solo_until_split. steps_go. eapply k_own_script; eauto. Qed.
Hint Resolve keeps_validation keeps_solo : steps.
Lemma keeps_notify n : keeps (on_notify n).
Proof using All. unfold on_notify, has_split_for_tip. steps_go. Qed.
Lemma keeps_restore : keeps on_restore.
Proof using All. unfold on_restore. steps_go. eapply k_own_script; eauto. Qed.
Lemma keeps_due : keeps on_reply_due.
Proof using All. unfold on_reply_due. steps_go. Qed.
Lemma keeps_open : keeps open_session.
Proof using All. unfold open_session, send_configure. steps_go. eapply k_own_script; eauto. Qed.
Hint Resolve keeps_notify keeps_restore keeps_due : steps.

(** * The loop *)

Context {Key Identity Rand : Type} `{Nacl Identity Rand} (box_decrypt : Key -> list Z -> list Z -> option (list Z)).

Lemma keeps_frame ch h payload : keeps (handle_frame box_decrypt ch h payload).
Proof using All. unfold handle_frame, handle_message. steps_go. Qed.
Lemma keeps_frames fuel : forall rd, keeps (read_frames box_decrypt fuel rd).
Proof using All.
  induction fuel as [|fuel IH]; intros rd; cbn [read_frames]; [steps_go|].
  apply step_bind; [unfold next_header, instant_now; steps_go|]. intros [[h rd1]|]; [|intros; steps_go].
  destruct (buf_take rd1 _) as [[p rd2]|]; [|intros; steps_go].
  apply step_bind; [apply keeps_frame|]. intros ch. apply step_bind; [steps_go|]. intros now. apply IH.
Qed.
Lemma keeps_tick (rd : Reader (Key := Key)) : keeps (on_tick rd).
Proof using All. unfold on_tick, instant_now. steps_go. Qed.
Hint Resolve keeps_frames keeps_tick : steps.
Lemma keeps_once rd i : keeps (serve_once box_decrypt rd i).
Proof using All. destruct i; cbn [serve_once]; steps_go. Qed.

Lemma serve_kept rd ins : keeps (serve box_decrypt rd ins).
Proof using All.
  unfold serve. apply step_bind; [apply keeps_open|]. intros _. revert rd.
  induction ins as [|i ins IH]; intros rd; cbn [serve_inputs]; [steps_go|].
  apply step_bind; [steps_go|]. intros _. apply step_bind; [apply keeps_once | exact IH].
Qed.
End Kept.
