(* ===== verification/SessionInv.v ===== *)
(** What every session keeps from its start to its end, whatever its gateway sends and the other
    sessions do: what it holds is in order and bounded, and one whose jobs keep their script is never
    put on its own payout again. *)

From S2P Require Import Prelude Bytes Text Tides Split Window Grace Ledger Disk BlockLog Persist Cursor Frame Crypto Coinbaser Coinbase.
From S2P Require Import Mining Handshake Pow Verify State Settle Address ClassBudget Node Validity Slots Replies Session Paying Found Shares Serve SessionFacts.
From S2P Require Import VerifyFacts VerifyProps SlotsProps RepliesProps WireProps SessionFacts SessionProps SessionKept FramesProps.
Open Scope Z_scope.

Section Order.
Context `{World} {cfg : Config} {peer : Peer}.
Hypothesis budget_range : 0 <= cfg_coinbase_budget /\ cfg_coinbase_budget + MAX_COINBASE_SECTION_BYTES <= u64_max.

(** What a session holds is in order: the sections of its slots, counted and within the budget; the
    replies, by distinct ids; the votes on its payout; the candidates it waits for. *)
Record session_ok (s : Session) : Prop := {
  ok_slots : slots_ok sha256 cfg_coinbase_budget (s_slots s);
  ok_replies : replies_ok (s_replies s);
  ok_votes : (size (identity_work (s_paying s)) <= MAX_SESSION_IDENTITIES)%nat;
  ok_pending : map_Forall (fun _ l => l <> []) (s_pending s)
}.

Definition in_order (s : Session) : Prop := slots_ok sha256 cfg_coinbase_budget (s_slots s) /\
  (size (identity_work (s_paying s)) <= MAX_SESSION_IDENTITIES)%nat /\ map_Forall (fun _ l => l <> []) (s_pending s).
Definition anything (e : Event) : Prop := True.

(** A share that verifies leaves its slot in order and the sections of it as they were. *)
Lemma verify_slot_ok st q pol v slot : slots_ok sha256 cfg_coinbase_budget st ->
  verify_share sha256 blake2b256 (slot_at st (Z.to_nat (job_id q))) q pol = Ret (Ok (v, slot)) ->
  slots_ok sha256 cfg_coinbase_budget (with_slot st (Z.to_nat (job_id q)) slot).
Proof.
  intros S Hv. set (id := Z.to_nat (job_id q)) in *. destruct (decide (id < MAX_JOB_SLOTS)%nat) as [Hid|Hid].
  2:{ replace (with_slot st id slot) with st; [done|]. pose proof (so_length _ _ _ S) as Hl. destruct st as [sl hb lv]. unfold with_slot.
      cbn [job_slots held_bytes live_slots] in *. f_equal. symmetry. apply list_insert_ge. rewrite Hl. lia. }
  pose proof (slot_at_lookup st id (so_length _ _ _ S) Hid) as Hi.
  assert (Hok : slot_ok sha256 (slot_at st id)) by (eapply Forall_lookup_1; [apply (so_slots _ _ _ S) | exact Hi]).
  unfold verify_share in Hv. destruct (need (share_target_le (target_pot q)) REJECT_BAD_TARGET) as [[t|e]|]; [|discriminate Hv..].
  cbn [mbind checked_bind] in Hv. pose proof (verify_refines sha256 blake2b256 (slot_at st id) q pol t Hok) as Hr.
  destruct (verify_reference _ _ _ _ _ _ _ _) as [[[v' i]|e]|]; [|congruence..].
  destruct Hr as (slot' & E & Hok' & _ & Hcb & _). rewrite E in Hv. injection Hv as -> ->.
  destruct (with_slot_ok sha256 cfg_coinbase_budget st id slot S Hid Hok') as (W1 & W2 & W3 & W4).
  destruct S as [S1 S2 S3 S4 S5]. constructor; [done | | done | done | done].
  rewrite W4. unfold Verify.coinbase_bytes. rewrite Hcb. cbn [with_slot held_bytes]. lia.
Qed.

Lemma votes_bound (m : gmap string Z) identity n : (size m <= MAX_SESSION_IDENTITIES)%nat ->
  (MAX_SESSION_IDENTITIES <=? size m)%nat && bool_decide (m !! identity = None) = false ->
  (size (<[identity := n]> m) <= MAX_SESSION_IDENTITIES)%nat.
Proof.
  intros Hm Hg. destruct (m !! identity) eqn:E; [by rewrite map_size_insert_Some|].
  rewrite map_size_insert_None by done. rewrite bool_decide_eq_true_2, andb_true_r in Hg by done. apply Nat.leb_gt in Hg. lia.
Qed.

Lemma pending_tick_ok (m : gmap Z (list PendingBlock)) now :
  map_Forall (fun _ l => l <> []) (filter (fun e => e.2 <> []) (filter (fun p => elapsed now (pb_at p) < PENDING_BLOCK_TTL) <$> m)).
Proof. intros k l Hk. by apply map_lookup_filter_Some in Hk as [_ Hl]. Qed.

Lemma order_configure script g : step in_order anything any_error (send_configure_script script g).
Proof.
  unfold send_configure_script. apply step_bind; [by apply step_sent|]. intros _. by apply step_set_paying.
Qed.

#[local] Instance order_kept : Kept in_order anything.
Proof.
  constructor; try (intros; exact Logic.I); try apply order_configure; try done.
  - intros. apply order_configure.
  - intros s k p (A & B & C). split; [done|]. split; [done|]. apply map_Forall_insert_2; [by destruct (default [] (s_pending s !! k)) | exact C].
  - intros s k (A & B & C). split; [done|]. split; [done|]. by apply map_Forall_delete.
  - intros s now (A & B & C). split; [done|]. split; [done|]. apply pending_tick_ok.
  - intros s q slots r (A & B & C) Hid E. split; [|done].
    rewrite (so_length _ _ _ A) in Hid. exact (proj1 (take_sections_ok _ _ budget_range _ _ _ _ A Hid E)).
  - intros s q pol v slot (A & B & C) Hv. split; [by eapply verify_slot_ok | done].
  - intros s0 s identity n h (_ & B0 & _) (A & B & C) Hg _. split; [done|]. split; [by apply votes_bound | done].
  - intros s p (A & B & C) Hw _ _. split; [done|]. split; [|done]. cbn. by rewrite Hw.
Qed.
#[local] Instance order_kept_reply : KeptReply in_order anything.
Proof. apply keeps_fresh; [exact order_kept|]. intros s rp Hs. exact Hs. Qed.

(** The replies, apart: a fresh one takes its id before it is sent and is kept after. *)
Definition replies_in_order (s : Session) : Prop := replies_ok (s_replies s).

Lemma replies_configure' script g : step replies_in_order anything any_error (send_configure_script script g).
Proof.
  unfold send_configure_script. apply step_bind; [by apply step_sent|]. intros _. by apply step_set_paying.
Qed.

#[local] Instance replies_order_kept : Kept replies_in_order anything.
Proof.
  constructor; try (intros; exact Logic.I); try apply replies_configure'; try done.
  - intros. apply replies_configure'.
  - intros s now Hs. exact (replies_step_ok _ _ (step_refill _ _) Hs).
  - intros s value budget replies plan Hs E. eapply (replies_step_ok (s_replies s)); [by eapply step_plan | exact Hs].
Qed.

#[local] Instance replies_order_fresh : KeptReply replies_in_order anything.
Proof.
  constructor. intros value prev base budget st st' r Hs Hr.
  destruct (fresh_run _ _ _ _ _ _ _ Hr) as (c & Hid & Hne & E). split.
  - unfold replies_in_order. rewrite E. eapply replies_step_ok; [by apply step_reply | exact Hs].
  - assert (HT : KeptReply (fun _ => True) anything).
    { apply keeps_fresh; [|done]. constructor; try done; intros; unfold send_configure_script; steps_go;
        (by apply step_sent) || by apply step_set_paying. }
    exact (proj2 (k_fresh value prev base budget st st' r Logic.I Hr)).
Qed.

Context {Key Identity Rand : Type} `{Nacl Identity Rand} (box_decrypt : Key -> list Z -> list Z -> option (list Z)).

(** C11: a session stays in order as long as it lives. From its start, whatever bytes its gateway
    sends, however they are cut, whatever notices and timers come in between and whatever the other
    tasks do at each wait, up to its end by whatever error: the sections it holds are coherent,
    counted to the byte and within the budget, at most sixteen slots live; at most sixteen replies
    are kept, no two under one id; the bucket holds at most its burst; at most 1024 identities have a
    vote; and no job waits for transactions without a candidate. *)
Theorem session_stays_in_order (x : Shared) (now ts : Z) (s : Session) (rd : Reader (Key := Key)) (ins : list Input)
    (st st' : St) (r : result SessionError (Reader (Key := Key))) :
  snd (begin_session x now ts) = Ok s -> st_session st = s -> serve box_decrypt rd ins st = Ret (st', r) ->
  session_ok (st_session st').
Proof using budget_range.
  intros Hs Est Hr.
  assert (Hnew : in_order s /\ replies_in_order s).
  { unfold begin_session in Hs. destr_if_in Hs; [discriminate Hs|]. destr_if_in Hs; [discriminate Hs|]. injection Hs as <-.
    split; [|apply replies_new_ok]. split; [apply slots_new_ok; lia|]. split; [|apply map_Forall_empty].
    cbn. rewrite map_size_empty. unfold MAX_SESSION_IDENTITIES. lia. }
  rewrite <- Est in Hnew. destruct Hnew as [H1' H2'].
  destruct (serve_kept in_order anything box_decrypt rd ins st st' r H1' Hr) as ((A & B & C) & _ & _).
  destruct (serve_kept replies_in_order anything box_decrypt rd ins st st' r H2' Hr) as (D & _ & _).
  by constructor.
Qed.
End Order.

(** * The pool's script for good *)

Section Pinned.
Context `{World} {cfg : Config} {peer : Peer}.

Definition pinned (s : Session) : Prop := pins_script (s_paying s) = true /\ held (s_paying s) = None.
Definition pays_pool (e : Event) : Prop :=
  match e with Sent (b :: l) _ => b = SUB_CONFIGURE -> b :: l = configure_body cfg_pool_script cfg_coinbase_tag | _ => True end.

Lemma configure_starts script tag : exists l, configure_body script tag = SUB_CONFIGURE :: l.
Proof. unfold configure_body, configure_v1, configure_v3. destruct (generation p_hello); by eexists. Qed.

#[local] Instance pinned_kept : Kept pinned pays_pool.
Proof.
  constructor; try done.
  - intros [[|b l] sg| | | | | |]; cbn; done.
  - unfold send_configure_script. apply step_bind.
    + apply step_sent; [|done]. cbn. destruct (configure_starts cfg_pool_script cfg_coinbase_tag) as [l E]. by rewrite E.
    + intros _. by apply step_set_paying.
  - intros s script [Hp Hh] [Hs|Hs].
    + unfold solo_script in Hs. by rewrite Hp in Hs.
    + unfold own_script in Hs. by rewrite Hh in Hs.
  - intros s0 s identity n h [_ Hh0] [Hp Hh] _ [->|Hn]; [by split|]. split; [done | by apply Hn].
  - intros s p [Hp Hh] _ Hh' Hp'. split; [by apply Hp' | by rewrite <- Hh].
Qed.
#[local] Instance pinned_kept_reply : KeptReply pinned pays_pool.
Proof. apply keeps_fresh; [exact pinned_kept|]. intros s rp Hs. exact Hs. Qed.

Context {Key Identity Rand : Type} `{Nacl Identity Rand} (box_decrypt : Key -> list Z -> list Z -> option (list Z)).

(** A gateway whose jobs keep the script they were made under, once seen to do so or remembered
    for it, is never again configured to pay itself: through every tip, find, reply and share to the
    end of the session, each configure it is sent carries the pool's script and the pool's tag. (A
    build listed as held-split is another matter; see [held_build_pays_itself].) *)
Theorem pinned_stays_on_pool (rd : Reader (Key := Key)) (ins : list Input) (st st' : St)
    (r : result SessionError (Reader (Key := Key))) :
  pins_script (s_paying (st_session st)) = true -> held (s_paying (st_session st)) = None ->
  serve box_decrypt rd ins st = Ret (st', r) ->
  pins_script (s_paying (st_session st')) = true /\
  exists evs, trace st' = trace st ++ evs /\
    forall plain signed, Sent plain signed ∈ evs -> hd 0 plain = SUB_CONFIGURE ->
      plain = configure_body cfg_pool_script cfg_coinbase_tag.
Proof.
  intros Hp Hh Hr.
  destruct (serve_kept pinned pays_pool box_decrypt rd ins st st' r (conj Hp Hh) Hr) as ((Hp' & _) & (evs & T & F) & _).
  split; [exact Hp'|]. exists evs. split; [done|]. intros plain signed Hin Hd.
  rewrite Forall_forall in F. specialize (F _ Hin). destruct plain as [|b l]; [discriminate Hd|]. exact (F Hd).
Qed.
End Pinned.

(** * A session of the toy world *)

Definition demo_inputs : list Input :=
  [Notify (Some 0); Serve.Bytes (@mining_frames Z Z () toy_nacl toy_enc demo_key demo_tx (from_seed 5).1 demo_ms); Tick; RestoreDue; Eof].
Definition demo_serve (st : St) : panics (St * result SessionError (Reader (Key := Z))) :=
  @serve toy_world demo_cfg demo_peer Z Z () toy_nacl toy_dec (demo_reader []) demo_inputs st.
Definition served (st : St) : St := match demo_serve st with Ret (st', _) => st' | Panic => st end.

Lemma demo_serve_runs : @serve toy_world demo_cfg demo_peer Z Z () toy_nacl toy_dec (demo_reader []) demo_inputs (demo_st seen_new) =
  Ret (served (demo_st seen_new), Err Io).
Proof. vm_compute. reflexivity. Qed.

Lemma session_stays_in_order_witness : @session_ok toy_world demo_cfg (st_session (served (demo_st seen_new))).
Proof.
  assert (Hb : 0 <= @cfg_coinbase_budget demo_cfg /\ @cfg_coinbase_budget demo_cfg + MAX_COINBASE_SECTION_BYTES <= u64_max)
    by (vm_compute; split; congruence).
  assert (Hs : snd (@begin_session toy_world demo_cfg demo_peer (demo_shared seen_new) 0 1788408530) = Ok demo_session)
    by (vm_compute; reflexivity).
  exact (@session_stays_in_order toy_world demo_cfg demo_peer Hb Z Z () toy_nacl toy_dec (demo_shared seen_new) 0 1788408530
    demo_session (demo_reader []) demo_inputs (demo_st seen_new) (served (demo_st seen_new)) (Err Io) Hs eq_refl demo_serve_runs).
Defined.

Definition pinned_st : St := with_session (demo_st seen_new) (with_paying demo_session (paying_new (Some (replicate 22 5)) false true)).
Lemma pinned_serve_runs : @serve toy_world demo_cfg demo_peer Z Z () toy_nacl toy_dec (demo_reader []) demo_inputs pinned_st =
  Ret (served pinned_st, Err Io).
Proof. vm_compute. reflexivity. Qed.

Lemma pinned_stays_on_pool_witness : exists evs, trace (served pinned_st) = evs /\
  forall plain signed, Sent plain signed ∈ evs -> hd 0 plain = SUB_CONFIGURE ->
    plain = @configure_body demo_cfg demo_peer (@cfg_pool_script demo_cfg) (@cfg_coinbase_tag demo_cfg).
Proof.
  destruct (@pinned_stays_on_pool toy_world demo_cfg demo_peer Z Z () toy_nacl toy_dec (demo_reader []) demo_inputs pinned_st
    (served pinned_st) (Err Io) eq_refl eq_refl pinned_serve_runs) as (_ & evs & T & F).
  exists evs. split; [exact T | exact F].
Defined.

(** * Held-split builds *)

Section HeldBuild.
Context `{World} {cfg : Config} {peer : Peer}.

Lemma sent_trace e st st' r : sent e st = Ret (st', r) -> r = Ok tt /\ trace st' = trace st ++ [e].
Proof.
  unfold sent, await_, ask, instant_now, set_session. unfold mbind, M_bind, mret, M_ret. cbn.
  destruct (waits st); by intros [= <- <-].
Qed.

(** Keeping a job's script does not keep a held-split build off its own. A session with both, pinned
    to the pool's script and of a build listed as held-split, is configured with its own payout as
    soon as its shares show it has one. *)
Theorem held_build_pays_itself (script : list Z) (st st' : St) (r : result SessionError ()) :
  pins_script (s_paying (st_session st)) = true -> own_script (s_paying (st_session st)) = Some script ->
  follow_held_split false st = Ret (st', r) ->
  r = Ok tt /\ trace st' = trace st ++ [Sent (configure_body script solo_tag) true].
Proof.
  intros _ Ho. unfold follow_held_split. rewrite paying_bind, Ho. unfold send_configure_script.
  intros [(s1 & [] & E1 & Hr)|(e & E1 & ->)]%M_bind_inv; apply sent_trace in E1 as [He T]; [|discriminate He].
  unfold set_paying, set_session in Hr. rewrite session_bind in Hr. injection Hr as <- <-. done.
Qed.
End HeldBuild.

Definition held_paying : Paying :=
  with_votes (paying_new (Some (replicate 22 5)) true true) {["bc1qdemo" := 16]} (Some {| h_shares := 16; h_on := Some (replicate 22 5) |}).
Definition held_st : St := with_session (demo_st seen_new) (with_paying demo_session held_paying).

Lemma held_build_pays_itself_witness : exists st' r,
  @follow_held_split demo_cfg demo_peer false held_st = Ret (st', r) /\
  trace st' = [Sent (@configure_body demo_cfg demo_peer (replicate 22 5) (@solo_tag demo_cfg)) true].
Proof.
  assert (Hr : exists st' r, @follow_held_split demo_cfg demo_peer false held_st = Ret (st', r)) by (vm_compute; by eexists _, _).
  destruct Hr as (st' & r & Hr). exists st', r. split; [exact Hr|].
  exact (proj2 (@held_build_pays_itself demo_cfg demo_peer (replicate 22 5) held_st st' r eq_refl eq_refl Hr)).
Defined.
