(* ===== verification/FoundProps.v ===== *)
(** What comes of a block a share solves: its books from the session to the chain's last word, and the
    copy of it the pool submits. *)

From S2P Require Import Prelude Bytes Text Tides Split Window WindowFacts BalanceFacts Grace Ledger LedgerFacts BooksFacts Disk BlockLog Persist Cursor Frame Crypto Coinbaser Coinbase.
From S2P Require Import Mining Handshake Pow Verify State Settle Address ClassBudget Node NodeProps Validity Slots Replies Session Paying Found Shares Serve SessionFacts.
From S2P Require Import WindowProps VerifyProps BlockLogProps SessionFacts.
Open Scope Z_scope.

(** * The debits of a settlement *)

Lemma debits_only w d d' b : debits_in d = debits_in d' -> book_debits w d b = book_debits w d' b.
Proof. unfold book_debits, debits_in. by intros ->. Qed.

Lemma debits_app l1 l2 : debits_in (l1 ++ l2) = debits_in l1 ++ debits_in l2.
Proof. apply filter_app. Qed.
Lemma debits_rev l : debits_in (rev l) = rev (debits_in l).
Proof.
  induction l as [|e l IH]; [done|]. cbn [rev]. rewrite debits_app, IH. unfold debits_in. rewrite filter_cons, filter_cons.
  case_decide; cbn; [done | by rewrite app_nil_r].
Qed.

Lemma take_credit_debits identity want rd rd' n : take_credit identity want rd = Some (rd', n) -> debits_in rd' = debits_in rd.
Proof.
  revert rd' n. induction rd as [|e rd IH]; intros rd' n; [done|]. cbn [take_credit]. destr_if.
  - intros [= <- <-]. apply andb_true_iff in Hif as [_ Hp]. apply Z.ltb_lt in Hp. unfold debits_in. rewrite !filter_cons. cbn [snd].
    rewrite !decide_False by lia. done.
  - destruct (take_credit identity want rd) as [[rest k]|]; [|done]. intros [= <- <-]. unfold debits_in in *. rewrite !filter_cons.
    by rewrite (IH _ _ eq_refl).
Qed.
Lemma cut_credits_debits rp : forall cut rd, debits_in (cut_credits cut rp rd).1 = debits_in rd.
Proof.
  induction rp as [|[i s] rp IH]; intros cut rd; cbn [cut_credits]; [done|]. destr_if; [done|].
  destruct (take_credit _ _ _) as [[rd' n]|] eqn:E; [|apply IH]. rewrite IH. by eapply take_credit_debits.
Qed.
Lemma cap_keeps_debits delta planned oc drawn delta' left : cap_rebate_to_owed_drawn delta planned oc drawn = Ret (delta', left) ->
  debits_in delta' = debits_in delta.
Proof.
  unfold cap_rebate_to_owed_drawn, cap_rebate_credits. intros (s & _ & Hr)%bind_Ret_inv.
  apply bind_Ret_inv in Hr as (p & _ & Hr). destr_if_in Hr; [by injection Hr as <- _|].
  pose proof (cut_credits_debits (rev planned) (p - sat_sub s (sat_sub oc drawn)) (rev delta)) as Hd.
  destruct (cut_credits _ _ _) as [rd cut]. injection Hr as <- _. cbn [fst] in Hd.
  assert (Hz : debits_in (filter (fun e => e.2 <> 0) (rev rd)) = debits_in (rev rd)).
  { unfold debits_in. rewrite list_filter_filter. apply list_filter_iff. intros e. lia. }
  rewrite Hz, debits_rev, Hd, debits_rev. apply rev_involutive.
Qed.

Section Found.
Context `{World} {cfg : Config} {peer : Peer}.

Lemma flush_window l d l' ops : flush l d = Ret (l', ops) -> l_window l' = l_window l.
Proof.
  unfold flush. destr_if; [by intros [= <- <-]|]. intros (m & _ & Hr)%bind_Ret_inv. destr_if_in Hr; by injection Hr as <- _.
Qed.

Lemma applied_window l h : l_window (note_debit_applied l h) = l_window l.
Proof. unfold note_debit_applied. by repeat destr_if. Qed.

(** Whatever a settlement is, the books made of it are those of the record's own changes. *)
Lemma book_settlement_debits nd hash se cb issued nd' f : book_settlement nd hash se cb issued = Ret (nd', f) ->
  nd_blocks nd' = nd_blocks nd /\
  exists oc df, (oc = match cb with Some c => cbr_owed_credited c | None => 0 end \/ oc = 0) /\
    (df = match cb with Some c => cbr_deferred c | None => 0 end \/ df = 0) /\
    (l_window (nd_ledger nd'), fg_books f) = book_debits (l_window (nd_ledger nd)) (fg_delta f) (books_new oc df) \/
  settles se = false /\ nd' = nd /\ fg_delta f = [] /\ fg_books f = books_new 0 0.
Proof.
  unfold book_settlement. destr_if.
  2:{ intros [= <- <-]. split; [done|]. exists 0, 0. right. cbn [fg_delta fg_books]. split; [done|].
      unfold settles in Hif. apply orb_false_iff in Hif as [Hif _]. apply orb_false_iff in Hif as [Hd _].
      apply negb_false_iff, bool_decide_eq_true in Hd. done. }
  intros ([nd1 b] & Hb & Hr)%bind_Ret_inv.
  apply bind_Ret_inv in Hr as (x1 & _ & Hr). apply bind_Ret_inv in Hr as ([paid short] & _ & Hr).
  apply bind_Ret_inv in Hr as ([delta credited] & Hd & Hr). apply bind_Ret_inv in Hr as (x2 & _ & Hr). injection Hr as <- <-.
  unfold book_block_debits in Hb.
  pose proof (ledger_books_window (nd_ledger nd) (se_carry_delta se)
    (books_new (match cb with Some c => cbr_owed_credited c | None => 0 end) (match cb with Some c => cbr_deferred c | None => 0 end))) as Hw.
  destruct (ledger_book_debits _ _ _) as [l b1]. apply bind_Ret_inv in Hb as ([l2 ops] & Hf & Hb).
  apply bind_Ret_inv in Hb as (x3 & _ & Hb). injection Hb as <- <-. cbn [nd_ledger nd_blocks fg_books fg_delta].
  split; [done|]. eexists _, _. left. split; [by left|]. split; [by left|].
  rewrite (flush_window _ _ _ _ Hf). rewrite applied_window, Hw. apply debits_only.
  destruct issued as [c|]; [|by injection Hd as <- _]. destr_if_in Hd; [|by injection Hd as <- _].
  symmetry. by eapply cap_keeps_debits.
Qed.

Lemma settle_kind kind cb value paid_to se : settle kind cb value paid_to = Ret se -> String.prefix ORPHAN (se_kind se) = false.
Proof.
  unfold settle, settle_as_issued, settle_repriced. intros Hr.
  destruct kind; repeat match type of Hr with
    | match cb with _ => _ end = _ => destruct cb
    | (if ?b then _ else _) = _ => destruct b
    | _ = Ret _ => first [injection Hr as <-; cbn [se_kind bare]; repeat destr_if; vm_compute; reflexivity | apply bind_Ret_inv in Hr as (? & _ & Hr)]
    end.
Qed.

(** What booking a candidate leaves: the record, its place among the blocks, and the books. *)
Lemma book_candidate_run s v finder st st' r : book_candidate s v finder st = Ret (st', r) ->
  exists se cb issued nd f ts, settle (v_coinbase_kind v) cb (v_coinbase_value v) (paid_to (v_coinbase v)) = Ret se /\
    book_settlement (sh_node (st_shared st)) (block_hex (v_hash v)) se cb issued = Ret (nd, f) /\
    let rec := record_of v finder gateway_hex (block_hex (v_hash v)) ts se f in
    trace st' = trace st ++ [Booked rec] /\ sh_node (st_shared st') = record_found nd rec.
Proof.
  unfold book_candidate, ts_now. rewrite session_bind.
  assert (Hl : forall {A B} (m : panics A) (k : A -> M B) st0 y, (lift m ≫= k) st0 = Ret y -> exists a, m = Ret a /\ k a st0 = Ret y).
  { intros A B m k st0 y. unfold mbind, M_bind, lift. destruct m as [a|]; [|done]. intros E. by exists a. }
  intros (issued & _ & Hr)%Hl. rewrite shared_bind, asks_bind in Hr.
  apply Hl in Hr as (cb & _ & Hr). apply Hl in Hr as (se & Hse & Hr). apply Hl in Hr as ([nd f] & Hb & Hr).
  rewrite put_shared_bind in Hr. injection Hr as <- _. exists se, cb, issued, nd, f, (st_ts st). done.
Qed.

(** C5: a found block is on the books from the moment its share is handled, and stays on them the
    way the chain has it. Booking a candidate records it under its hash, waiting; and from then on,
    however often the node confirms it and throws it out, every identity's balance is what it was
    before the share, less what the block paid of it unless the block is an orphan, plus what the
    block earned it once it is confirmed: whatever the share was settled against, a rebate cut to
    what was still owed included. *)
Theorem found_block_life (s : PowSubmit) (v : VerifiedShare) (finder : string) (st st' : St) (r : result SessionError ()) :
  book_candidate s v finder st = Ret (st', r) ->
  exists rec, trace st' = trace st ++ [Booked rec] /\ br_hash rec = block_hex (v_hash v) /\ life_of rec = Waiting /\
    nd_blocks (sh_node (st_shared st')) = record_block (nd_blocks (sh_node (st_shared st))) rec /\
    (let w0 := l_window (nd_ledger (sh_node (st_shared st))) in
     window_ok w0 -> br_carry_delta rec <> [] -> room w0 (length (br_carry_delta rec)) (volume (br_carry_delta rec)) ->
     (forall k, br_books rec = Some k -> 0 <= bk_owed_credited k /\ 0 <= bk_deferred k) ->
     forall l' r', rtc life_step (nd_ledger (sh_node (st_shared st')), rec) (l', r') ->
       rtc life_moves Waiting (life_of r') /\
       (forall id, net (l_window l') id = net w0 id
          + (if debits_on (life_of r') then entries_of id (debits_in (br_carry_delta rec)) else 0)
          + (if credits_on (life_of r') then entries_of id (credits_in (br_carry_delta rec)) else 0))).
Proof.
  intros (se & cb & issued & nd & f & ts & Hse & Hb & T & Hnd)%book_candidate_run. cbv zeta in T, Hnd.
  set (rec := record_of _ _ _ _ _ _ _) in *. pose proof (settle_kind _ _ _ _ _ Hse) as Hk.
  assert (Hlife : life_of rec = Waiting) by (unfold life_of, is_orphan; cbn [rec record_of br_kind br_settled]; by rewrite Hk).
  destruct (book_settlement_debits _ _ _ _ _ _ _ Hb) as [Hblocks (oc & df & Hcase)].
  exists rec. split; [done|]. split; [done|]. split; [done|]. split; [by rewrite Hnd; cbn [record_found nd_blocks]; rewrite Hblocks|].
  cbv zeta. intros OK Hne R Hpos l' r' Hs. destruct Hcase as [(_ & _ & Hbd)|(_ & _ & Hd & _)]; [|by destruct Hne].
  assert (Hoc : bk_owed_credited (fg_books f) = oc /\ bk_deferred (fg_books f) = df).
  { unfold book_debits in Hbd. cbn [debits_live books_new] in Hbd. destruct (foldl _ _ _) as [[w d] sh]. by injection Hbd as _ ->. }
  destruct (Hpos (fg_books f) eq_refl) as [P1 P2]. destruct Hoc as [<- <-].
  rewrite Hnd in Hs. cbn [record_found nd_ledger] in Hs.
  destruct (block_life _ (br_carry_delta rec) _ _ (se_kind se) (nd_ledger nd) rec l' r' (fg_books f) OK P1 P2 Hk R
    eq_refl eq_refl eq_refl eq_refl Hbd Hs) as (M & _ & N & _).
  split; [exact M | exact N].
Qed.

(** * The gateway's transactions *)

Definition submission (p : PendingBlock) (txns : list (list Z)) (e : Event) : Prop :=
  exists block, assemble_block (pb_share p) (pb_submit p) txns = Some block /\ e = Submitting p block.

Lemma submit_all_run ps txns : Forall (fun p => is_Some (blake2b (pb_submit p))) ps -> forall st,
  exists st' evs, submit_all ps txns st = Ret (st', Ok tt) /\ st_session st' = st_session st /\ trace st' = trace st ++ evs /\
    Forall2 (fun p e => submission p txns e) ps evs.
Proof.
  induction 1 as [|p ps [b2 Hb] _ IH]; intros st; cbn [submit_all].
  { exists st, []. by rewrite app_nil_r. }
  unfold submit_candidate. unfold assemble_block at 1. rewrite Hb. cbn [mbind option_bind].
  match goal with |- context [did ?e] => set (e0 := e) end.
  destruct (IH {| st_session := st_session st; st_shared := st_shared st; st_clock := st_clock st; st_ts := st_ts st;
    waits := waits st; trace := trace st ++ [e0] |}) as (st' & evs & Hr & Hs & T & F).
  exists st', (e0 :: evs). split; [exact Hr|]. split; [exact Hs|]. cbn [trace] in T. rewrite <- app_assoc in T. split; [exact T|].
  constructor; [|exact F]. eexists. split; [|reflexivity]. unfold assemble_block. by rewrite Hb.
Qed.

(** A found block is submitted once its transactions are there. When a gateway sends the
    transactions of a job, in either form, every candidate that waits for them is assembled and
    handed to the node, in the order they were found, and none is left waiting; the handler always
    returns. *)
Theorem candidates_are_submitted (job : Z) (ps : list PendingBlock) (txns : list (list Z)) (st : St) (reply : JobValidationReply) :
  reply = FullBlock job StatusOk txns \/ reply = Transactions job StatusOk txns ->
  s_pending (st_session st) !! job = Some ps ->
  Forall (fun p => is_Some (blake2b (pb_submit p))) ps ->
  (forall c, s_check (st_session st) = Some c -> is_Some (blake2b (tc_submit c))) ->
  exists st' evs more, on_validation reply st = Ret (st', Ok tt) /\ trace st' = trace st ++ evs ++ more /\
    Forall2 (fun p e => submission p txns e) ps evs /\ s_pending (st_session st') !! job = None /\
    forall j, j <> job -> s_pending (st_session st') !! j = s_pending (st_session st) !! j.
Proof.
  intros Hreply Hp HF Hc. unfold on_validation. rewrite session_bind. cbv zeta.
  assert (Hjob : validation_job reply = job) by (by destruct Hreply as [-> | ->]). rewrite Hjob, Hp.
  rewrite (bool_decide_eq_true_2 (is_Some (Some ps))) by by eexists. cbn [negb andb default].
  set (check := match s_check (st_session st) with Some c => if tc_job c =? job then Some c else None | None => None end).
  assert (Hck : forall c, check = Some c -> is_Some (blake2b (tc_submit c))).
  { unfold check. intros c. destruct (s_check (st_session st)) as [c'|] eqn:E; [|done]. destr_if; [|done]. intros [= <-]. by apply Hc. }
  set (s1 := with_check _ _ _ _ _).
  assert (Hpend : s_pending s1 !! job = None /\ forall j, j <> job -> s_pending s1 !! j = s_pending (st_session st) !! j).
  { unfold s1. cbn [with_check with_pending s_pending]. split; [apply lookup_delete_eq | intros j Hj; by apply lookup_delete_ne]. }
  destruct (submit_all_run ps txns HF (with_session st s1)) as (st' & evs & Hr & Hs & T & F).
  assert (Hgo : exists st2 more, (_ ← put_session s1; if bool_decide (StatusOk = StatusOk)
      then _ ← submit_all ps txns; match check with Some c => check_template c txns | None => mret tt end
      else label_all ps "no-transactions") st = Ret (st2, Ok tt) /\ st_session st2 = s1 /\ trace st2 = trace st ++ evs ++ more).
  { rewrite put_session_bind, bool_decide_eq_true_2 by done. unfold mbind, M_bind. rewrite Hr. destruct check as [c|].
    - destruct (Hck c eq_refl) as [b2 Hb2]. unfold check_template, assemble_block. rewrite Hb2. cbn [mbind option_bind].
      eexists _, _. split; [reflexivity|]. cbn [st_session trace]. rewrite T, <- app_assoc. done.
    - exists st', []. rewrite app_nil_r. done. }
  destruct Hgo as (st2 & more & Hgo & Hs2 & T2). exists st2, evs, more.
  split; [by destruct Hreply as [-> | ->]|]. split; [exact T2|]. split; [exact F|]. by rewrite Hs2.
Qed.
End Found.

(** * A block of the toy world *)

Definition owed_window : Window :=
  set_carry (credit_to (credit_to (set_target window_new 100) "bc1qdemo" 60 7 1000 SOURCE_STRATUM) "bob" 70 7 1001 SOURCE_DATUM)
    "bc1qdemo" 900.
Lemma owed_window_ok : window_ok owed_window.
Proof.
  apply reachable_ok. unfold owed_window. eapply rtc_r; [|apply step_set_carry; [left; vm_compute; discriminate | split; lia]].
  apply credit_to_reachable; [|room | lia]. apply credit_to_reachable; [|room | lia]. apply rtc_once. apply step_set_target. lia.
Qed.

Definition owing_st : St := with_shared (demo_st seen_new) (with_node (demo_shared seen_new)
  {| nd_ledger := demo_on_ledger owed_window; nd_blocks := []; nd_disk := ∅ |} None).

(** The demo share, verified there, and its booking. *)
Definition demo_candidate : option (VerifiedShare * St) :=
  match @take_share toy_world demo_cfg demo_share owing_st with
  | Ret (s1, Ok (Ok (i, j))) =>
      match @policy_for toy_world demo_cfg demo_peer j s1 with
      | Ret (s2, Ok pol) =>
          match @verify_in_slot toy_world demo_share pol s2 with
          | Ret (s3, Ok (Ok v)) => Some (v, s3)
          | _ => None
          end
      | _ => None
      end
  | _ => None
  end.

Lemma found_block_life_witness : exists v st st' r rec,
  demo_candidate = Some (v, st) /\ @book_candidate toy_world demo_cfg demo_peer demo_share v "bc1qdemo" st = Ret (st', r) /\
  br_carry_delta rec = [("bc1qdemo", -900)] /\ net (l_window (nd_ledger (sh_node (st_shared st')))) "bc1qdemo" = 900 - 900.
Proof.
  assert (Hall : match demo_candidate with
    | Some (v, st) => l_window (nd_ledger (sh_node (st_shared st))) = owed_window /\ trace st = [] /\
        match @book_candidate toy_world demo_cfg demo_peer demo_share v "bc1qdemo" st with
        | Ret (st', _) => match trace st' with
            | [Booked rec] => br_carry_delta rec = [("bc1qdemo", -900)] /\
                match br_books rec with Some k => bk_owed_credited k = 0 /\ bk_deferred k = 0 | None => False end
            | _ => False end
        | Panic => False end
    | None => False end) by (vm_compute; repeat split).
  destruct demo_candidate as [[v st]|]; [|destruct Hall]. destruct Hall as (Hw & Ht & Hall).
  destruct (@book_candidate toy_world demo_cfg demo_peer demo_share v "bc1qdemo" st) as [[st' r]|] eqn:E; [|destruct Hall].
  destruct (@found_block_life toy_world demo_cfg demo_peer demo_share v "bc1qdemo" st st' r E) as (rec & T & _ & Hl & _ & Hlife).
  rewrite Ht in T. cbn [app] in T. rewrite T in Hall. destruct Hall as [Hd Hk].
  cbv zeta in Hlife. rewrite Hw, Hd in Hlife.
  assert (Hr : room owed_window (length [("bc1qdemo"%string, -900)]) (volume [("bc1qdemo"%string, -900)]))
    by (split; vm_compute; congruence).
  assert (Hpos : forall k, br_books rec = Some k -> 0 <= bk_owed_credited k /\ 0 <= bk_deferred k).
  { intros k E2. rewrite E2 in Hk. destruct Hk as [-> ->]. split; lia. }
  destruct (Hlife owed_window_ok ltac:(discriminate) Hr Hpos _ _ (rtc_refl _ _)) as [_ Hn].
  exists v, st, st', r, rec. split; [reflexivity|]. split; [exact E|]. split; [exact Hd|].
  rewrite (Hn "bc1qdemo"), Hl. vm_compute. reflexivity.
Defined.

Definition waiting_st : St := with_session (demo_st seen_new) (with_pending demo_session
  (match demo_candidate with
   | Some (v, _) => {[13 := [{| pb_share := v; pb_submit := demo_share; pb_hash := "00"; pb_at := 0 |}]]}
   | None => ∅ end)).

Lemma candidates_are_submitted_witness : exists p st' e,
  s_pending (st_session waiting_st) !! 13 = Some [p] /\
  @on_validation toy_world (FullBlock 13 StatusOk [[1; 2; 3]]) waiting_st = Ret (st', Ok tt) /\ trace st' = [e] /\
  submission p [[1; 2; 3]] e.
Proof.
  assert (Hp : exists p, s_pending (st_session waiting_st) !! 13 = Some [p] /\ is_Some (blake2b (pb_submit p))).
  { unfold waiting_st. assert (Hc : is_Some demo_candidate) by (vm_compute; by eexists).
    destruct demo_candidate as [[v st]|]; [|by destruct Hc]. eexists. split; [reflexivity|]. vm_compute. by eexists. }
  destruct Hp as (p & Hp & Hb).
  assert (HF : Forall (fun p => is_Some (blake2b (pb_submit p))) [p]) by (constructor; [exact Hb | constructor]).
  destruct (@candidates_are_submitted toy_world 13 [p] [[1; 2; 3]] waiting_st (FullBlock 13 StatusOk [[1; 2; 3]]) (or_introl eq_refl) Hp
    HF ltac:(discriminate)) as (st' & evs & more & Hr & T & F & _).
  assert (Hm : match @on_validation toy_world (FullBlock 13 StatusOk [[1; 2; 3]]) waiting_st with
    | Ret (s, _) => length (trace s) = 1%nat | Panic => False end) by (vm_compute; reflexivity).
  rewrite Hr in Hm. apply Forall2_cons_inv_l in F as (e & rest & He & Hrest & ->). apply Forall2_nil_inv_l in Hrest as ->.
  assert (more = []) as ->.
  { rewrite T, length_app in Hm. cbn in Hm. destruct more; [done|]. cbn in Hm. lia. }
  exists p, st', e. split; [exact Hp|]. split; [exact Hr|]. split; [exact T | exact He].
Defined.
