(* ===== verification/Payouts.v ===== *)
(** Balances paid by hand ([prime/primed/src/payouts.rs]): the operator's requests to set balances
    aside, pay them, let them go or move carry, and the directory they arrive in.

    What the node answers is an argument; a request is a decoded file, and the answers are the
    values the code writes as JSON. Between a question to the node and its answer the other tasks
    run: [others] is what they do to the shared state. *)

From S2P Require Import Prelude Bytes Text Tides Split Window Grace Ledger Disk BlockLog Persist Cursor Frame Coinbaser Coinbase.
From S2P Require Import Mining Handshake Pow Verify State Settle Address ClassBudget Node Validity Slots Replies Session Paying.
Open Scope Z_scope.

(** * Requests *)

Module Payouts.

Inductive Request :=
| Hold (entries : list (string * Z))
| Paid (txid : string) (blockhash : option string)
| Release
| Credit (entries : list (string * Z)) (note : string).

Definition PAID_CONFIRMATIONS : Z := 3.
Definition READY_AFTER_BLOCKS : Z := COINBASER_GRACE_BLOCKS + 2.
Definition RETRY_EVERY : Z := secs 30.
Definition MAX_REQUEST_BYTES : nat := 4194304.
Definition MAX_ENTRIES : nat := 5000.

Definition id_byte (b : Z) : bool :=
  is_ascii_digit b || between 65 90 b || between 97 122 b || (b =? 45) || (b =? 95) || (b =? 46).
Definition valid_id (id : string) : bool :=
  let b := str_bytes id in
  negb (length b =? 0)%nat && (length b <=? 64)%nat && negb (bool_decide (head b = Some 46)) && forallb id_byte b.

Inductive BadRequest := BadId | Unreadable (e : string) | TooLarge | NotARequest | EntryCount.

Definition entry_count (r : Request) : option nat :=
  match r with Hold es => Some (length es) | Credit es _ => Some (length es) | _ => None end.

(** [read_request], on what reading the file gave; [parse] is the decoder [serde] derives. *)
Definition read_request (parse : list Z -> option Request) (id : string) (file : result string (list Z))
    : result BadRequest Request :=
  if negb (valid_id id) then Err BadId else
  match file with
  | Err e => Err (Unreadable e)
  | Ok bytes =>
      if (MAX_REQUEST_BYTES <? length bytes)%nat then Err TooLarge else
      match parse bytes with
      | None => Err NotARequest
      | Some req =>
          match entry_count req with
          | Some n => if (n =? 0)%nat || (MAX_ENTRIES <? n)%nat then Err EntryCount else Ok req
          | None => Ok req
          end
      end
  end.

(** * Amounts *)

(** [str::parse::<u64>]: digits, with a plus sign or without, that fit. *)
Fixpoint digits_value (acc : Z) (l : list Z) : option Z :=
  match l with
  | [] => Some acc
  | b :: l' =>
      if is_ascii_digit b then
        let acc := acc * 10 + (b - 48) in if acc <=? u64_max then digits_value acc l' else None
      else None
  end.
Definition parse_u64 (l : list Z) : option Z :=
  match l with
  | [] => None
  | b :: l' => if b =? 43 then match l' with [] => None | _ => digits_value 0 l' end else digits_value 0 l
  end.

(** [str::trim_matches] on one character. *)
Fixpoint strip_front (c : Z) (l : list Z) : list Z :=
  match l with b :: l' => if b =? c then strip_front c l' else l | [] => [] end.
Definition trim_matches (c : Z) (l : list Z) : list Z := rev (strip_front c (rev (strip_front c l))).

(** [btc_to_sats] on the text of a JSON value; [by_float] is the way of an amount written with an
    exponent. *)
Definition QUOTE : Z := 34.
Definition pad8 (l : list Z) : list Z := l ++ replicate (8 - length l) 48.
Definition btc_to_sats (by_float : list Z -> Z) (v : list Z) : Z :=
  let s := trim_matches QUOTE v in
  if existsb (fun b => (b =? 101) || (b =? 69)) s then by_float v else
  let '(whole, frac) := default (s, []) (split_once DOT s) in
  sat_add u64_max (Z.min (default 0 (parse_u64 whole) * 100000000) u64_max)
          (default 0 (parse_u64 (pad8 (take 8 frac)))).

(** * What a transaction pays *)

(** The parts of a verbose [getrawtransaction] the code reads; a script's hex and an amount's text
    may be missing. *)
Record NodeOut := { no_hex : option string; no_value : option (list Z) }.
Record NodeTx := { nt_confirmations : option Z; nt_vout : option (list NodeOut) }.

Inductive NotThis := NoOutputs | NoValue | NotAddress (identity : string) | Underpaid (identity : string) (sats got : Z).

Section Pays.
Context (hex_encode : list Z -> string) (by_float : list Z -> Z) (script_for : string -> option (list Z)).

Fixpoint tally_outputs (paid : gmap string Z) (outs : list NodeOut) : panics (result NotThis (gmap string Z)) :=
  match outs with
  | [] => Ret (Ok paid)
  | o :: outs' =>
      let script := lower (default ""%string (no_hex o)) in
      match no_value o with
      | None => Ret (Err NoValue)
      | Some v =>
          total ← chk_add u64_max (default 0 (paid !! script)) (btc_to_sats by_float v);
          tally_outputs (<[script := total]> paid) outs'
      end
  end.

Fixpoint pays_each (paid : gmap string Z) (es : list (string * Z)) : result NotThis () :=
  match es with
  | [] => Ok tt
  | (identity, sats) :: es' =>
      match script_for identity with
      | None => Err (NotAddress identity)
      | Some script =>
          let got := default 0 (paid !! hex_encode script) in
          if got <? sats then Err (Underpaid identity sats got) else pays_each paid es'
      end
  end.

Definition pays_all (tx : NodeTx) (es : list (string * Z)) : panics (result NotThis ()) :=
  match nt_vout tx with
  | None => Ret (Err NoOutputs)
  | Some outs =>
      r ← tally_outputs ∅ outs;
      Ret (match r with Ok paid => pays_each paid es | Err e => Err e end)
  end.
End Pays.

(** * Answers *)

Inductive Skipped := SkippedBy (s : HoldSkip) | NotPayable (identity : string) (requested : Z).
Record Moved := { mo_identity : string; mo_requested : Z; mo_before : Z; mo_after : Z; mo_debt_paid : Z }.

Inductive Refusal :=
| StaleOff | NoTip | HoldRefused (e : string) | NoSuchHold | BadTxid
| NotShown (e : string) | Unconfirmed (conf : Z) | NotThisPayment (e : NotThis) | Unread (e : BadRequest).

Inductive Answer :=
| Refused (e : Refusal)
| Waiting (e : Refusal)
| Held (height ready_height held_sats : Z) (entries : list (string * Z)) (skipped : list Skipped)
| Credited (credited_sats debited_sats : Z) (note : string) (moves : list Moved)
| Released (released_sats : Z) (entries : list (string * Z))
| PaidOff (txid : string) (conf paid_sats : Z) (entries : list (string * Z)).

Definition hex64 (s : string) : bool :=
  let b := str_bytes s in (length b =? 64)%nat && forallb is_ascii_hexdigit b.

(** * Handling a request *)

Section Handle.
Context `{World} {cfg : Config}.

(** The node's answer to [getrawtransaction], for a transaction id and the block named with it. *)
Class NodeTxs := { get_tx : string -> option string -> result string NodeTx; by_float : list Z -> Z }.
Context `{NodeTxs}.


(** The ledger as an operation left it, saved. *)
Definition saved (nd : NodeState) (l : Ledger) : panics NodeState :=
  '(l, ops) ← persist_window l (nd_disk nd);
  Ret {| nd_ledger := l; nd_blocks := nd_blocks nd; nd_disk := run_ops (nd_disk nd) ops |}.

Definition handle_hold (x : Shared) (ts : Z) (id : string) (es : list (string * Z)) : panics (Shared * Answer) :=
  if cfg_stale_after_secs =? 0 then Ret (x, Refused StaleOff) else
  match sh_tip x with
  | None => Ret (x, Refused NoTip)
  | Some tip =>
      let payable := filter (fun e => is_Some (payout_of e.1)) es in
      let unpayable := filter (fun e => ~ is_Some (payout_of e.1)) es in
      ready ← chk_add u32_max (t_height tip) READY_AFTER_BLOCKS;
      let nd := sh_node x in
      r ← ledger_hold_carry (nd_ledger nd) id payable (trunc u32_max ts) cfg_stale_after_secs
            cfg_stale_min_payout (t_height tip) ready;
      '(l, answer) ← match r with
        | Ok (l, held, skipped) =>
            held_sats ← chk_sum u64_max 0 (map snd held);
            Ret (l, Held (t_height tip) ready held_sats held
                      (map SkippedBy skipped ++ map (fun e => NotPayable e.1 e.2) unpayable))
        | Err e => Ret (nd_ledger nd, Refused (HoldRefused e))
        end;
      nd ← saved nd l;
      Ret (with_node x nd None, answer)
  end.

(** One entry of a credit: the carry moved, and what of it went to a debt. *)
Definition credit_one (l : Ledger) (e : string * Z) : Ledger * Moved :=
  let '(identity, delta) := e in
  let before := carry_of (l_window l) identity in
  let debt := debt_of (l_window l) identity in
  let '(l', out) := settle_carry l [(identity, delta)] in
  let after := match out with c :: _ => c.2 | [] => before end in
  (l', {| mo_identity := identity; mo_requested := delta; mo_before := before; mo_after := after;
          mo_debt_paid := sat_sub debt (debt_of (l_window l') identity) |}).

Fixpoint credit_all (l : Ledger) (credited debited : Z) (es : list (string * Z))
    : panics (Ledger * Z * Z * list Moved) :=
  match es with
  | [] => Ret (l, credited, debited, [])
  | e :: es' =>
      let '(l, m) := credit_one l e in
      '(credited, debited) ←
        (if mo_before m <? mo_after m
         then c ← chk_add u64_max credited (mo_after m - mo_before m); Ret (c, debited)
         else d ← chk_add u64_max debited (mo_before m - mo_after m); Ret (credited, d));
      '(l, credited, debited, ms) ← credit_all l credited debited es';
      Ret (l, credited, debited, m :: ms)
  end.

Definition handle_credit (x : Shared) (es : list (string * Z)) (note : string) : panics (Shared * Answer) :=
  let nd := sh_node x in
  '(l, credited, debited, moves) ← credit_all (nd_ledger nd) 0 0 es;
  nd ← saved nd l;
  Ret (with_node x nd None, Credited credited debited note moves).

Definition handle_release (x : Shared) (id : string) : panics (Shared * Answer) :=
  let nd := sh_node x in
  match ledger_release_hold (nd_ledger nd) id with
  | None => Ret (x, Refused NoSuchHold)
  | Some (l, es) =>
      nd ← saved nd l;
      total ← chk_sum u64_max 0 (map snd es);
      Ret (with_node x nd None, Released total es)
  end.

(** The hold leaves the books: read again, as other tasks may have drawn from it. *)
Definition finish_paid (x : Shared) (id txid : string) (conf : Z) : panics (Shared * Answer) :=
  let nd := sh_node x in
  match ledger_finish_hold (nd_ledger nd) id with
  | None => Ret (x, Refused NoSuchHold)
  | Some (l, es) =>
      nd ← saved nd l;
      total ← chk_sum u64_max 0 (map snd es);
      Ret (with_node x nd (sh_base x), PaidOff txid conf total es)
  end.

Definition handle_paid (x : Shared) (others : Shared -> Shared) (id txid : string) (blockhash : option string)
    : panics (Shared * Answer) :=
  match holds (l_window (nd_ledger (sh_node x))) !! id with
  | None => Ret (x, Refused NoSuchHold)
  | Some hold =>
      if negb (hex64 txid) then Ret (x, Refused BadTxid) else
      let r := get_tx txid (b ← blockhash; if hex64 b then Some b else None) in
      let x := others x in
      match r with
      | Err e => Ret (x, Waiting (NotShown e))
      | Ok tx =>
          let conf := default 0 (nt_confirmations tx) in
          if conf <? PAID_CONFIRMATIONS then Ret (x, Waiting (Unconfirmed conf)) else
          r ← pays_all hex_encode by_float payout_of tx (entries hold);
          match r with
          | Err e => Ret (x, Refused (NotThisPayment e))
          | Ok _ => finish_paid x id txid conf
          end
      end
  end.

Definition handle (x : Shared) (others : Shared -> Shared) (ts : Z) (id : string) (req : Request)
    : panics (Shared * Answer) :=
  match req with
  | Hold es => handle_hold x ts id es
  | Credit es note => handle_credit x es note
  | Release => handle_release x id
  | Paid txid blockhash => handle_paid x others id txid blockhash
  end.

(** * The directory *)

(** A request file: what reading it gives and when it was written. *)
Record RequestFile := { rf_read : result string (list Z); rf_written : option Z }.

(** The requests by id, those looked at again later, and the answers: the latest of each id and
    the log. *)
Record Desk := {
  dk_requests : gmap string RequestFile;
  dk_waiting : gmap string (Z * option Z);
  dk_answers : gmap string Answer;
  dk_log : list (string * Answer)
}.

(** One request's turn: the clocks, and what the other tasks do while the node is asked. *)
Record Turn := { tn_now : Z; tn_ts : Z; tn_others : Shared -> Shared }.

Definition not_yet (dk : Desk) (id : string) (f : RequestFile) (now : Z) : bool :=
  match dk_waiting dk !! id with
  | Some (at_, file) => (now <? at_) && bool_decide (file = rf_written f)
  | None => false
  end.

Definition poll_one (parse : list Z -> option Request) (st : Shared * Desk) (id : string) (f : RequestFile) (t : Turn)
    : panics (Shared * Desk) :=
  let '(x, dk) := st in
  if not_yet dk id f (tn_now t) then Ret (x, dk) else
  '(x, answer) ← match read_request parse id (rf_read f) with
    | Ok req => handle x (tn_others t) (tn_ts t) id req
    | Err e => Ret (x, Refused (Unread e))
    end;
  Ret (x, match answer with
          | Waiting _ => {| dk_requests := dk_requests dk;
                            dk_waiting := <[id := (tn_now t + RETRY_EVERY, rf_written f)]> (dk_waiting dk);
                            dk_answers := <[id := answer]> (dk_answers dk); dk_log := dk_log dk |}
          | _ => {| dk_requests := delete id (dk_requests dk); dk_waiting := delete id (dk_waiting dk);
                    dk_answers := <[id := answer]> (dk_answers dk); dk_log := dk_log dk ++ [(id, answer)] |}
          end).

(** [poll]: the requests in order of their ids. *)
Fixpoint poll_each (parse : list Z -> option Request) (st : Shared * Desk) (fs : list (string * RequestFile))
    (turn : string -> Turn) : panics (Shared * Desk) :=
  match fs with
  | [] => Ret st
  | (id, f) :: fs' => st ← poll_one parse st id f (turn id); poll_each parse st fs' turn
  end.
Definition poll (parse : list Z -> option Request) (st : Shared * Desk) (turn : string -> Turn) : panics (Shared * Desk) :=
  poll_each parse st (sort_by (fun a b => String.leb a.1 b.1) (map_to_list (dk_requests st.2))) turn.
End Handle.
End Payouts.
