(* ===== verification/PayoutsProps.v ===== *)
(** The properties of payouts: an answer says what moved, a payment is taken off the books on the
    node's word only, held amounts are final when they say, and a request handled twice. *)

From S2P Require Import Prelude Bytes Text Tides Split Window WindowFacts BalanceFacts Grace Ledger LedgerFacts BooksFacts Disk BlockLog Persist.
From S2P Require Import Cursor Frame Coinbaser Coinbase Mining Handshake Pow Verify State Settle Address ClassBudget Node Validity Slots Replies Session Paying Payouts.
From S2P Require Import WindowProps LedgerProps VerifyProps SessionFacts.
From S2P Require Import PersistFacts.
Import Payouts.
Open Scope Z_scope.

Import Payouts.

(** * Saving *)

Section Saved.
Context `{World}.

Lemma flush_ok l d : window_ok (l_window l) -> exists l' ops, flush l d = Ret (l', ops) /\ l_window l' = l_window l.
Proof.
  intros OK. unfold flush. destr_if; [by eexists _, _|].
  destruct (meta_of_ok l OK) as (m & -> & _). mstep. destr_if; by eexists _, _.
Qed.

Lemma saved_ok nd l : window_ok (l_window l) -> exists nd', saved nd l = Ret nd' /\
  l_window (nd_ledger nd') = l_window l /\ nd_blocks nd' = nd_blocks nd.
Proof.
  intros OK. unfold saved, persist_window. destruct (flush_ok l (nd_disk nd) OK) as (l' & ops & -> & E). mstep.
  destr_if; eexists; (split; [reflexivity|]); by cbn.
Qed.

Lemma flush_keeps l d l' ops : flush l d = Ret (l', ops) -> l_window l' = l_window l.
Proof.
  unfold flush. destr_if; [by intros [= <- <-]|]. intros (m & _ & Hr)%bind_Ret_inv. destr_if_in Hr; by injection Hr as <- _.
Qed.
Lemma saved_keeps nd l nd' : saved nd l = Ret nd' -> l_window (nd_ledger nd') = l_window l /\ nd_blocks nd' = nd_blocks nd.
Proof.
  unfold saved, persist_window. intros ([l' ops] & Hp & [= <-])%bind_Ret_inv.
  apply bind_Ret_inv in Hp as ([l1 ops1] & Hf & Hp). apply flush_keeps in Hf.
  destr_if_in Hp; injection Hp as <- _; cbn; by rewrite Hf.
Qed.
End Saved.

(** * A hold is part of the stock *)

Lemma hold_within_stock w b h : window_ok w -> holds w !! b = Some h -> 0 <= hold_total h <= stock w.
Proof.
  intros OK Hb. pose proof (fsum_delete hold_total _ _ _ Hb) as Hs.
  assert (Hd : 0 <= fsum hold_total (delete b (holds w))).
  { assert (window_ok (with_holds w (delete b (holds w)))) as OK'.
    { apply with_holds_ok; [done|]. apply map_Forall_delete, OK. }
    exact (holds_nonneg _ OK'). }
  assert (Hh : 0 <= hold_total h).
  { apply total_of_pos. by apply (wo_holds _ OK b h). }
  pose proof (balances_nonneg _ _ (wo_carry _ OK)) as Hc. pose proof (balances_nonneg _ _ (wo_debt _ OK)) as Hdb.
  assert (forall m : gmap Z Z, map_Forall (fun _ v => 0 <= v) m -> 0 <= msum m) as Hm.
  { intros m Hm. apply zsum_map_nonneg. intros [j u] Hin. apply elem_of_map_to_list in Hin. by apply Hm in Hin. }
  pose proof (Hm _ Hc). pose proof (Hm _ Hdb). unfold stock. lia.
Qed.

(** * Carry moved by hand *)

(** What a move did to the identity's position. *)
Definition move_sats (m : Moved) : Z := mo_after m - mo_before m + mo_debt_paid m.
Definition moved_of (s : string) (ms : list Moved) : Z :=
  zsum (map (fun m => one (mo_identity m) (move_sats m) s) ms).

(** A credit is booked in full, a debt of the identity's settled first; a debit takes what carry
    there is. *)
Definition move_true (e : string * Z) (m : Moved) : Prop :=
  mo_identity m = e.1 /\ mo_requested m = e.2 /\ 0 <= mo_before m /\ 0 <= mo_debt_paid m /\
  if 0 <? e.2 then move_sats m = e.2 /\ mo_before m <= mo_after m
  else mo_after m = Z.max 0 (mo_before m + e.2) /\ mo_debt_paid m = 0.

Definition asked (es : list (string * Z)) : Z := zsum (map (fun e => Z.abs e.2) es).

Lemma asked_nonneg es : 0 <= asked es.
Proof. apply zsum_map_nonneg. lia. Qed.
Lemma asked_cons e es : asked (e :: es) = Z.abs e.2 + asked es.
Proof. done. Qed.

Lemma credit_one_ok l id d :
  let w := l_window l in
  window_ok w -> can_intern w id -> Z.abs d <= i64_max -> stock w + Z.abs d <= i64_max ->
  let '(l', m) := credit_one l (id, d) in
  effects w (l_window l') (one id (move_sats m)) (Z.abs d) 1 /\ move_true (id, d) m.
Proof.
  cbv zeta. intros OK R Hd Hst. unfold credit_one, settle_carry. cbn [foldl settle_one snd fst forallb andb app].
  destruct (stock_bounds (l_window l) id OK) as (Hc & Hb & _).
  destruct (Z.eqb_spec d 0) as [->|Hz].
  { cbn. unfold move_true, move_sats. cbn. rewrite Z.max_r by lia.
    assert (sat_sub (debt_of (l_window l) id) (debt_of (l_window l) id) = 0) as -> by sat_lia. split; [|conjs; lia || done].
    eapply effects_ext; [by apply effects_refl | | lia | lia]. intros s. unfold one. case_decide; lia. }
  destruct (Z.ltb_spec 0 d) as [Hp|Hp].
  - destruct (restore_carry_moved (l_window l) id d OK R) as [E M]; [lia|].
    destruct (restore_carry (l_window l) id d) as [w' new]. cbn [fst snd app] in *. subst new. cbn [andb l_window touched].
    pose proof (mv_debt _ _ _ _ _ M id) as Ed. rewrite decide_True in Ed by done.
    assert (Ha : after_restore (carry_of (l_window l) id) (debt_of (l_window l) id) d
      = carry_of (l_window l) id + (d - Z.min (debt_of (l_window l) id) d)) by (unfold after_restore; sat_lia).
    rewrite Ha in *. unfold move_true, move_sats.
    cbn [mo_identity mo_requested mo_before mo_after mo_debt_paid fst snd]. rewrite Ed, (proj2 (Z.ltb_lt 0 d) Hp).
    rewrite Z.abs_eq by lia. split; [|conjs; sat_lia || done].
    eapply moved_effects; [exact M | | sat_lia | intros [?|?]; lia].
    intros s. unfold one. case_decide; sat_lia.
  - destruct (adjust_carry_moved (l_window l) id d OK R) as [E M].
    destruct (adjust_carry (l_window l) id d) as [w' new]. cbn [fst snd app] in *. subst new. cbn [andb l_window touched].
    pose proof (mv_debt _ _ _ _ _ M id) as Ed. rewrite decide_True in Ed by done.
    assert (Ha : add_signed (carry_of (l_window l) id) d = Z.max 0 (carry_of (l_window l) id + d)).
    { unfold add_signed. destr_if; bools; sat_lia. }
    rewrite Ha in *. unfold move_true, move_sats.
    cbn [mo_identity mo_requested mo_before mo_after mo_debt_paid fst snd]. rewrite Ed, (proj2 (Z.ltb_ge 0 d)) by lia.
    split; [|conjs; sat_lia || done].
    eapply moved_effects; [exact M | | lia | intros [?|?]; lia].
    intros s. unfold one. case_decide; sat_lia.
Qed.

Lemma credit_all_ok es : forall l c d,
  window_ok (l_window l) -> room (l_window l) (length es) (asked es) ->
  c + asked es <= u64_max -> d + asked es <= u64_max ->
  exists l' c' d' ms, credit_all l c d es = Ret (l', c', d', ms) /\
    effects (l_window l) (l_window l') (fun s => moved_of s ms) (asked es) (length es) /\
    Forall2 move_true es ms /\ c' - d' = c - d + zsum (map (fun m => mo_after m - mo_before m) ms).
Proof.
  induction es as [|[id x] es IH]; intros l c d OK R Hc Hd; cbn [credit_all].
  { eexists _, _, _, _. split; [reflexivity|]. split; [|split; [constructor | cbn; lia]].
    eapply effects_ext; [by apply effects_refl | done | done | done]. }
  rewrite asked_cons in *. cbn [snd length] in *. pose proof (asked_nonneg es) as Hn.
  destruct R as [Rs Ra]. pose proof (stock_bounds (l_window l) id OK) as [Hs0 _].
  pose proof (credit_one_ok l id x OK) as H1.
  destruct (credit_one l (id, x)) as [l1 m]. destruct H1 as [E1 T1].
  { left. unfold spare in *. lia. }
  { lia. }
  { lia. }
  assert (R1 : room (l_window l1) (length es) (asked es)).
  { split; [eapply effects_spare; [exact E1|]; unfold spare in *; lia|]. pose proof (ef_stock _ _ _ _ _ E1). lia. }
  pose proof T1 as (Ti & Tr & Tb & Tp & Tm). cbn [fst snd] in *. unfold move_sats in Tm.
  destruct (Z.ltb_spec (mo_before m) (mo_after m)).
  - rewrite chk_add_ok by (destr_if_in Tm; bools; lia). mstep.
    destruct (IH l1 (c + (mo_after m - mo_before m)) d (ef_ok _ _ _ _ _ E1) R1) as (l' & c' & d' & ms & E & Ef & F & Hx);
      [destr_if_in Tm; bools; lia | lia |].
    rewrite E. mstep. eexists _, _, _, _. split; [reflexivity|].
    split; [|split; [by constructor | cbn [map]; rewrite zsum_cons; lia]].
    eapply effects_ext; [exact (effects_trans _ _ _ _ _ _ _ _ _ E1 Ef) | | lia | lia].
    intros s. cbn [moved_of]. unfold moved_of. cbn [map]. rewrite zsum_cons, Ti. lia.
  - rewrite chk_add_ok by (destr_if_in Tm; bools; lia). mstep.
    destruct (IH l1 c (d + (mo_before m - mo_after m)) (ef_ok _ _ _ _ _ E1) R1) as (l' & c' & d' & ms & E & Ef & F & Hx);
      [lia | destr_if_in Tm; bools; lia |].
    rewrite E. mstep. eexists _, _, _, _. split; [reflexivity|].
    split; [|split; [by constructor | cbn [map]; rewrite zsum_cons; lia]].
    eapply effects_ext; [exact (effects_trans _ _ _ _ _ _ _ _ _ E1 Ef) | | lia | lia].
    intros s. unfold moved_of. cbn [map]. rewrite zsum_cons, Ti. lia.
Qed.

Definition window_of (x : Shared) : Window := l_window (nd_ledger (sh_node x)).

(** * An answer says what moved *)

(** Books whose holds are of known identities, under the 2^63 the signed amounts allow. *)
Definition books_ok (w : Window) : Prop :=
  window_ok w /\ stock w <= i64_max /\ map_Forall (fun _ h => recorded w (entries h)) (holds w).

(** What a request asks for fits the books, and the height of the tip its field. *)
Definition fits (x : Shared) (req : Request) : Prop :=
  match req with
  | Credit es _ => room (window_of x) (length es) (asked es)
  | Hold _ => match sh_tip x with Some t => t_height t + READY_AFTER_BLOCKS <= u32_max | None => True end
  | _ => True
  end.

(** An answer against the books before the request [w], as the other tasks left them while the node
    was asked [w0], and after it [w']. *)
Definition told (req : Request) (id : string) (w w0 w' : Window) (a : Answer) : Prop :=
  match a with
  | Refused _ | Waiting _ => w' = w \/ w' = w0
  | Held _ _ sats es _ =>
      (forall s, net w' s = net w s /\ carry_of w' s = carry_of w s - entries_of s es /\ debt_of w' s = debt_of w s) /\
      sats = total_of es /\ (es <> [] -> entries <$> holds w' !! id = Some es)
  | Released sats es =>
      (forall s, net w' s = net w s) /\ sats = total_of es /\
      entries <$> holds w !! id = Some es /\ holds w' = delete id (holds w)
  | PaidOff _ _ sats es =>
      (forall s, net w' s = net w0 s - entries_of s es /\ carry_of w' s = carry_of w0 s /\ debt_of w' s = debt_of w0 s) /\
      sats = total_of es /\ entries <$> holds w0 !! id = Some es /\ holds w' = delete id (holds w0)
  | Credited c d _ ms =>
      (forall s, net w' s = net w s + moved_of s ms) /\
      c - d = zsum (map (fun m => mo_after m - mo_before m) ms) /\
      exists es note, req = Credit es note /\ Forall2 move_true es ms
  end.

Lemma restore_holds w i s : holds (restore_carry w i s).1 = holds w.
Proof.
  unfold restore_carry, reduce_debt, adjust_carry, intern. destruct (ident_index w !! i); cbn; repeat destr_if; cbn; try done.
  all: destruct (ident_index _ !! i); cbn; done.
Qed.
Lemma restore_fold_holds es : forall w, holds (foldl (fun w e => (restore_carry w e.1 e.2).1) w es) = holds w.
Proof. induction es as [|e es IH]; intros w; cbn; [done|]. by rewrite IH, restore_holds. Qed.

Lemma recorded_nonneg w es : recorded w es -> Forall (fun z => 0 <= z) (map snd es).
Proof. intros HR. apply Forall_fmap. eapply Forall_impl; [exact HR|]. cbn. intros e [? _]. lia. Qed.

Ltac refused := eexists _, _; split; [reflexivity | cbn [told]; by auto].

Section Told.
Context `{World} {cfg : Config} {txs : NodeTxs}.

Lemma hold_told x ts id es w0 : books_ok (window_of x) -> fits x (Hold es) ->
  exists x' a, handle_hold x ts id es = Ret (x', a) /\ told (Hold es) id (window_of x) w0 (window_of x') a.
Proof.
  intros (OK & S0 & HR) F. unfold handle_hold. destr_if; [refused|].
  cbn in F. destruct (sh_tip x) as [tip|]; [|refused].
  rewrite chk_add_ok by done. mstep. unfold ledger_hold_carry. fold (window_of x).
  pose proof (hold_carry_run (window_of x) id (filter (fun e => is_Some (payout_of e.1)) es) (trunc u32_max ts)
    cfg_stale_after_secs cfg_stale_min_payout (t_height tip) (t_height tip + READY_AFTER_BLOCKS) OK S0) as Hr.
  destruct (hold_carry _ _ _ _ _ _ _ _) as [[[[w' held] skipped]|e]|]; [| |done]; mstep.
  2:{ destruct (saved_ok (sh_node x) (nd_ledger (sh_node x)) OK) as (nd & -> & Ew & _). mstep.
      eexists _, _. split; [reflexivity|]. left. done. }
  destruct Hr as (_ & [E Hc Hh Hs Hn] & _ & Hi).
  assert (Hl : held = [] -> w' = window_of x \/ True) by auto.
  assert (Ht : 0 <= total_of held <= i64_max).
  { destruct held as [|e0 held]; [cbn; lia|]. specialize (Hi ltac:(done)).
    destruct (holds w' !! id) as [h|] eqn:Eh; [|done]. injection Hi as Hi.
    pose proof (hold_within_stock w' id h (ef_ok _ _ _ _ _ E) Eh) as Hw. unfold hold_total in Hw. rewrite Hi in Hw.
    pose proof (ef_stock _ _ _ _ _ E). unfold total_of. lia. }
  rewrite chk_sum_ok; [mstep | | unfold total_of in Ht; lia].
  2:{ apply Forall_fmap, Forall_forall. intros e He. rewrite Forall_forall in Hs. destruct (Hs _ He) as (_ & ? & _). cbn. lia. }
  assert (Hd : forall s, debt_of w' s = debt_of (window_of x) s).
  { intros s. pose proof (ef_net _ _ _ _ _ E s) as En. unfold net in En. rewrite Hc, Hh in En. lia. }
  set (l := match held with [] => nd_ledger (sh_node x) | _ => touched (nd_ledger (sh_node x)) w' [] end).
  destruct held as [|e0 held].
  - destruct (saved_ok (sh_node x) l OK) as (nd & -> & Ew & _). mstep. eexists _, _. split; [reflexivity|].
    cbn [told]. unfold window_of at 1 3 5. cbn [sh_node with_node]. rewrite Ew. unfold l.
    split; [|by split]. intros s. change (entries_of s []) with 0. fold (window_of x). lia.
  - destruct (saved_ok (sh_node x) l (ef_ok _ _ _ _ _ E)) as (nd & -> & Ew & _). mstep. eexists _, _. split; [reflexivity|].
    cbn [told]. unfold window_of at 1 3 5 7. cbn [sh_node with_node]. rewrite Ew. unfold l. cbn [l_window touched].
    split; [|split; [done | exact Hi]]. intros s. rewrite (ef_net _ _ _ _ _ E), Hc, Hd. lia.
Qed.

Lemma credit_told x id es note w0 : books_ok (window_of x) -> fits x (Credit es note) ->
  exists x' a, handle_credit x es note = Ret (x', a) /\ told (Credit es note) id (window_of x) w0 (window_of x') a.
Proof.
  intros (OK & S0 & HR) F. unfold handle_credit. cbn in F. pose proof (asked_nonneg es) as Hn.
  assert (Ha : asked es <= u64_max).
  { destruct F as [_ F]. pose proof (stock_bounds (window_of x) "" OK). lia. }
  destruct (credit_all_ok es (nd_ledger (sh_node x)) 0 0 OK F) as (l' & c & d & ms & -> & E & HF & Hx); [lia | lia |]. mstep.
  destruct (saved_ok (sh_node x) l' (ef_ok _ _ _ _ _ E)) as (nd & -> & Ew & _). mstep. eexists _, _. split; [reflexivity|].
  cbn [told]. unfold window_of at 1. cbn [sh_node with_node]. rewrite Ew. split; [|split; [lia | by eexists _, _]].
  intros s. by rewrite (ef_net _ _ _ _ _ E).
Qed.

Lemma release_told x id w0 : books_ok (window_of x) ->
  exists x' a, handle_release x id = Ret (x', a) /\ told Release id (window_of x) w0 (window_of x') a.
Proof.
  intros (OK & S0 & HR). unfold handle_release, ledger_release_hold. fold (window_of x).
  destruct (holds (window_of x) !! id) as [h|] eqn:Eh.
  2:{ unfold release_hold. rewrite Eh. cbn. refused. }
  destruct (release_hold_run (window_of x) id h OK S0 Eh (HR _ _ Eh)) as (w' & Er & E & _).
  assert (Hh : holds w' = delete id (holds (window_of x))).
  { unfold release_hold in Er. rewrite Eh in Er. injection Er as <-. by rewrite restore_fold_holds. }
  rewrite Er. cbn [mbind option_bind]. pose proof (hold_within_stock _ _ _ OK Eh) as Hw.
  destruct (saved_ok (sh_node x) (touched (nd_ledger (sh_node x)) w' []) (ef_ok _ _ _ _ _ E)) as (nd & -> & Ew & _). mstep.
  rewrite chk_sum_ok; [mstep | | unfold hold_total in Hw; lia].
  2:{ exact (recorded_nonneg _ _ (HR _ _ Eh)). }
  eexists _, _. split; [reflexivity|]. cbn [told]. unfold window_of at 1 4. cbn [sh_node with_node]. rewrite Ew.
  cbn [l_window touched]. conjs; [|done | by rewrite Eh | done].
  intros s. rewrite (ef_net _ _ _ _ _ E). lia.
Qed.

Lemma finish_told x0 x id txid conf req : books_ok (window_of x) ->
  exists x' a, finish_paid x id txid conf = Ret (x', a) /\ told req id (window_of x0) (window_of x) (window_of x') a.
Proof.
  intros (OK & S0 & HR). unfold finish_paid, ledger_finish_hold, finish_hold. fold (window_of x).
  destruct (holds (window_of x) !! id) as [h|] eqn:Eh; cbn [mbind option_bind].
  2:{ refused. }
  pose proof (drop_hold_effects (window_of x) id h OK Eh) as E. pose proof (hold_within_stock _ _ _ OK Eh) as Hw.
  set (w' := with_holds (window_of x) (delete id (holds (window_of x)))) in *.
  destruct (saved_ok (sh_node x) (touched (nd_ledger (sh_node x)) w' []) (ef_ok _ _ _ _ _ E)) as (nd & -> & Ew & _). mstep.
  rewrite chk_sum_ok; [mstep | | unfold hold_total in Hw; lia].
  2:{ exact (recorded_nonneg _ _ (HR _ _ Eh)). }
  eexists _, _. split; [reflexivity|]. cbn [told]. unfold window_of at 1 3 5 8. cbn [sh_node with_node]. rewrite Ew.
  cbn [l_window touched]. conjs; [|done | by rewrite Eh | done].
  intros s. rewrite (ef_net _ _ _ _ _ E). unfold hold_of. conjs; [lia | done | done].
Qed.
End Told.


(** * A payment is taken on the node's word *)

(** What the outputs of a transaction pay the script with a given hex. *)
Definition paid_to_hex (by_float : list Z -> Z) (hex : string) (outs : list NodeOut) : Z :=
  zsum (map (fun o => if bool_decide (lower (default ""%string (no_hex o)) = hex)
                      then btc_to_sats by_float (default [] (no_value o)) else 0) outs).

Lemma tally_outputs_sum f outs : forall paid paid', tally_outputs f paid outs = Ret (Ok paid') ->
  forall h, default 0 (paid' !! h) = default 0 (paid !! h) + paid_to_hex f h outs.
Proof.
  induction outs as [|o outs IH]; intros paid paid' E h; cbn [tally_outputs] in E.
  { injection E as <-. cbn. lia. }
  unfold paid_to_hex. cbn [map]. rewrite zsum_cons. fold (paid_to_hex f h outs).
  destruct (no_value o) as [v|]; [|done]. apply bind_Ret_inv in E as (t & [-> _]%chk_add_inv & E).
  rewrite (IH _ _ E h). cbn [default].
  destruct (bool_decide_reflect (lower (default ""%string (no_hex o)) = h)) as [<-|Hn].
  - rewrite lookup_insert_eq. cbn. lia.
  - rewrite lookup_insert_ne by done. lia.
Qed.

Lemma pays_each_all hex script_for paid es : pays_each hex script_for paid es = Ok () ->
  Forall (fun e => exists script, script_for e.1 = Some script /\ e.2 <= default 0 (paid !! hex script)) es.
Proof.
  induction es as [|[i s] es IH]; cbn [pays_each]; [constructor|].
  destruct (script_for i) as [script|] eqn:E; [|done]. destr_if; [done|]. bools. intros H.
  constructor; [by exists script | auto].
Qed.

(** Which request an answer is to. *)
Lemma handle_answers `{World} {cfg : Config} {txs : NodeTxs} x others ts id req x' a :
  handle x others ts id req = Ret (x', a) ->
  match a with
  | Held _ _ _ _ _ => exists es, req = Hold es
  | Credited _ _ note _ => exists es, req = Credit es note
  | Released _ _ => req = Release
  | PaidOff txid _ _ _ => exists b, req = Paid txid b
  | Refused _ | Waiting _ => True
  end.
Proof.
  destruct req as [es|t b| |es note]; cbn [handle].
  - unfold handle_hold. destr_if; [by intros [= _ <-]|]. destruct (sh_tip x); [|by intros [= _ <-]].
    intros (? & _ & E)%bind_Ret_inv. apply bind_Ret_inv in E as (r & _ & E). apply bind_Ret_inv in E as ([l a'] & Ea & E).
    apply bind_Ret_inv in E as (nd & _ & [= _ ->]).
    destruct r as [[[? ?] ?]|?]; [apply bind_Ret_inv in Ea as (? & _ & [= _ <-]); by eexists | by injection Ea as _ <-].
  - unfold handle_paid, finish_paid. destruct (holds _ !! id); [|by intros [= _ <-]]. destr_if; [by intros [= _ <-]|].
    destruct (get_tx _ _); [|by intros [= _ <-]]. destr_if; [by intros [= _ <-]|].
    intros (r & _ & E)%bind_Ret_inv. destruct r; [|by injection E as _ <-].
    destruct (ledger_finish_hold _ _) as [[l es]|]; [|by injection E as _ <-].
    apply bind_Ret_inv in E as (? & _ & E). apply bind_Ret_inv in E as (? & _ & [= _ <-]). by eexists.
  - unfold handle_release. destruct (ledger_release_hold _ _) as [[l es]|]; [|by intros [= _ <-]].
    intros (? & _ & E)%bind_Ret_inv. by apply bind_Ret_inv in E as (? & _ & [= _ <-]).
  - unfold handle_credit. intros ([[[? ?] ?] ?] & _ & E)%bind_Ret_inv. apply bind_Ret_inv in E as (? & _ & [= _ <-]).
    by eexists.
Qed.

(** C16: A hold is taken off the books as paid only when the node itself showed the transaction
    named, three blocks deep or more, and the outputs it showed pay the script of every identity
    held, as the hold was when the request came up, at least the sats held for it. *)
Theorem paid_is_proven `{World} {cfg : Config} {txs : NodeTxs} x others ts id req x' txid conf sats es :
  handle x others ts id req = Ret (x', PaidOff txid conf sats es) ->
  exists b hold tx outs, req = Paid txid b /\ holds (window_of x) !! id = Some hold /\
    get_tx txid (c ← b; if hex64 c then Some c else None) = Ok tx /\
    nt_confirmations tx = Some conf /\ 3 <= conf /\ nt_vout tx = Some outs /\
    Forall (fun e => exists script, payout_of e.1 = Some script /\
              e.2 <= paid_to_hex by_float (hex_encode script) outs) (entries hold).
Proof.
  intros E. pose proof (handle_answers _ _ _ _ _ _ _ E) as [b ->]. revert E. cbn [handle].
  unfold handle_paid, finish_paid. fold (window_of x). destruct (holds (window_of x) !! id) as [hold|] eqn:Eh; [|done].
  destr_if; [done|]. destruct (get_tx _ _) as [tx|] eqn:Et; [|done]. destr_if; [done|].
  intros (r & Ep & E)%bind_Ret_inv. destruct r as [u|e]; [|done].
  destruct (ledger_finish_hold _ _) as [[l es0]|]; [|done].
  apply bind_Ret_inv in E as (nd & _ & E). apply bind_Ret_inv in E as (s & _ & [= _ <- _ _]). bools.
  unfold PAID_CONFIRMATIONS in *. destruct (nt_confirmations tx) as [conf'|] eqn:Ec; cbn [default] in *; [|lia].
  unfold pays_all in Ep. destruct (nt_vout tx) as [outs|] eqn:Ev; [|done].
  apply bind_Ret_inv in Ep as ([paid|e] & Ey & [= Ep]). destruct u. apply pays_each_all in Ep.
  exists b, hold, tx, outs. conjs; try done. eapply Forall_impl; [exact Ep|]. intros e (script & Es & Hs).
  exists script. split; [done|]. by rewrite (tally_outputs_sum _ _ _ _ Ey), lookup_empty in Hs.
Qed.

(** * Held amounts are final *)

(** A held amount is final at the height the answer says. No coinbaser issued on the tip the
    hold was made on, or on an earlier one, settles a block as high as [ready_height], whichever
    reply a session holds it in — unless a job names the very parent the reply was priced for, and
    then at the height the reply was priced for. From that tip on, nothing older than the hold can
    pay a held balance a second time. *)
Theorem held_amounts_final `{World} {cfg : Config} {txs : NodeTxs} x others ts id es x' h ready sats held skipped
    pool_script i value prev budget tip sp c cs prev' height :
  handle x others ts id (Hold es) = Ret (x', Held h ready sats held skipped) ->
  issued_reply pool_script i value prev budget tip sp = Ret c ->
  (forall t, tip = Some t -> t_height t <= h) -> 0 <= h ->
  issued_for cs i prev' height = Ret (Some c) -> (prev' = prev -> height <= ic_height c) ->
  height < ready.
Proof.
  cbn [handle]. unfold handle_hold. intros Hh Hi Ht H0 Hf Hp. destr_if_in Hh; [done|].
  destruct (sh_tip x) as [t|]; [|done]. apply bind_Ret_inv in Hh as (rd & [-> _]%chk_add_inv & E).
  apply bind_Ret_inv in E as (r & _ & E). apply bind_Ret_inv in E as ([l a] & Ea & E).
  apply bind_Ret_inv in E as (nd & _ & [= _ ->]).
  destruct r as [[[? ?] ?]|?]; [apply bind_Ret_inv in Ea as (? & _ & [= _ <- <- _ _ _])|done].
  unfold READY_AFTER_BLOCKS, COINBASER_GRACE_BLOCKS.
  assert (Hc : ic_height c <= t_height t + 1 /\ ic_prev_hash c = prev).
  { unfold issued_reply in Hi. apply bind_Ret_inv in Hi as (ih & Eh & [= <-]). cbn. split; [|done].
    destruct tip as [t'|]; [apply chk_add_inv in Eh as [-> _]; specialize (Ht _ eq_refl); lia | injection Eh as <-; lia]. }
  unfold issued_for in Hf. destruct (issued_by_id cs i) as [c'|]; [|done]. destr_if_in Hf.
  - injection Hf as ->. bools. destruct Hc as [Hc1 Hc2]. rewrite Hc2 in Hif0. specialize (Hp (eq_sym Hif0)). lia.
  - destr_if_in Hf; [done|]. apply bind_Ret_inv in Hf as (last & [-> _]%chk_add_inv & [= Hf]).
    destr_if_in Hf; [|done]. injection Hf as ->. unfold COINBASER_GRACE_BLOCKS in *. bools. lia.
Qed.

(** * Amounts *)

(** The number a string of digits stands for. *)
Definition dec_from (acc : Z) (l : list Z) : Z := foldl (fun a b => a * 10 + (b - 48)) acc l.
Definition dec (l : list Z) : Z := dec_from 0 l.
Definition digits (l : list Z) : Prop := Forall (fun b => is_ascii_digit b = true) l.

Lemma digit_range b : is_ascii_digit b = true -> 48 <= b <= 57.
Proof. unfold is_ascii_digit, between. intros H. bools. lia. Qed.

Lemma dec_from_app acc l1 l2 : dec_from acc (l1 ++ l2) = dec_from (dec_from acc l1) l2.
Proof. apply foldl_app. Qed.
Lemma dec_from_scale l : forall acc, dec_from acc l = acc * 10 ^ Z.of_nat (length l) + dec l.
Proof.
  unfold dec. induction l as [|b l IH]; intros acc; [cbn; lia|]. cbn [dec_from foldl length].
  change (foldl _ ?a l) with (dec_from a l). rewrite (IH (acc * 10 + _)), (IH (0 * 10 + _)).
  rewrite Nat2Z.inj_succ, Z.pow_succ_r by lia. lia.
Qed.
Lemma dec_nonneg l : digits l -> 0 <= dec l.
Proof.
  unfold dec. induction l as [|b l IH]; [done|]. intros [Hb%digit_range Hl]%Forall_cons. cbn [dec_from foldl].
  change (foldl _ ?a l) with (dec_from a l). rewrite dec_from_scale. specialize (IH Hl). unfold dec in *. nia.
Qed.
Lemma dec_zeros n : dec (replicate n 48) = 0.
Proof. unfold dec. induction n as [|n IH]; [done|]. exact IH. Qed.
Lemma dec_pad8 fs : (length fs <= 8)%nat -> dec (pad8 fs) = dec fs * 10 ^ (8 - Z.of_nat (length fs)).
Proof.
  intros H. unfold pad8, dec. rewrite dec_from_app, dec_from_scale. rewrite dec_zeros, length_replicate.
  change (dec_from 0 fs) with (dec fs). replace (Z.of_nat (8 - length fs)) with (8 - Z.of_nat (length fs)) by lia. lia.
Qed.

Lemma digits_value_ok l : forall acc, 0 <= acc -> digits l -> dec_from acc l <= u64_max ->
  digits_value acc l = Some (dec_from acc l).
Proof.
  induction l as [|b l IH]; intros acc Ha Hl Hm; [done|]. apply Forall_cons in Hl as [Hb Hl].
  cbn [digits_value]. rewrite Hb. apply digit_range in Hb. change (dec_from acc (b :: l)) with (dec_from (acc * 10 + (b - 48)) l) in *.
  pose proof (dec_from_scale l (acc * 10 + (b - 48))) as Hs. pose proof (dec_nonneg l Hl).
  assert (1 <= 10 ^ Z.of_nat (length l)) by (apply Z.lt_pred_le, Z.pow_pos_nonneg; lia).
  rewrite (proj2 (Z.leb_le _ _)) by nia. apply IH; [lia | done | done].
Qed.
Lemma parse_digits l : l <> [] -> digits l -> dec l <= u64_max -> parse_u64 l = Some (dec l).
Proof.
  intros Hn Hd Hm. destruct l as [|b l]; [done|]. unfold parse_u64. pose proof Hd as Hd'. apply Forall_cons in Hd' as [Hb%digit_range _].
  rewrite (proj2 (Z.eqb_neq b 43)) by lia. by apply digits_value_ok.
Qed.

Lemma strip_front_none c l : Forall (fun b => b <> c) l -> strip_front c l = l.
Proof. destruct 1 as [|b l Hb _]; [done|]. cbn. by rewrite (proj2 (Z.eqb_neq b c)). Qed.
Lemma trim_none c l : Forall (fun b => b <> c) l -> trim_matches c l = l.
Proof.
  intros H. unfold trim_matches. rewrite (strip_front_none c l H), strip_front_none by by apply Forall_rev.
  apply rev_involutive.
Qed.
Lemma trim_quoted l : l <> [] -> Forall (fun b => b <> QUOTE) l -> trim_matches QUOTE (QUOTE :: l ++ [QUOTE]) = l.
Proof.
  intros Hn H. unfold trim_matches. cbn [strip_front]. rewrite Z.eqb_refl.
  assert (strip_front QUOTE (l ++ [QUOTE]) = l ++ [QUOTE]) as ->.
  { destruct l as [|b l]; [done|]. apply Forall_cons in H as [Hb _]. cbn. by rewrite (proj2 (Z.eqb_neq b QUOTE)). }
  rewrite rev_app_distr. cbn [rev app strip_front]. rewrite Z.eqb_refl, strip_front_none by by apply Forall_rev.
  apply rev_involutive.
Qed.

Lemma split_at_dot ws fs : digits ws -> split_once DOT (ws ++ DOT :: fs) = Some (ws, fs).
Proof.
  unfold split_once. induction 1 as [|b ws Hb _ IH]; [done|]. cbn [app break_at]. apply digit_range in Hb.
  rewrite (proj2 (Z.eqb_neq b DOT)) by (unfold DOT; lia). destruct (break_at _ _) as [pre [|c post]]; [done|].
  by injection IH as -> ->.
Qed.
Lemma split_no_dot ws : digits ws -> split_once DOT ws = None.
Proof.
  unfold split_once. induction 1 as [|b ws Hb _ IH]; [done|]. cbn [break_at]. apply digit_range in Hb.
  rewrite (proj2 (Z.eqb_neq b DOT)) by (unfold DOT; lia). by destruct (break_at _ _) as [pre [|c post]].
Qed.
Lemma no_exponent l : Forall (fun b => b <= 57) l -> existsb (fun b => (b =? 101) || (b =? 69)) l = false.
Proof.
  induction 1 as [|b l Hb _ IH]; [done|]. cbn [existsb]. by rewrite IH, (proj2 (Z.eqb_neq b 101)), (proj2 (Z.eqb_neq b 69)) by lia.
Qed.

Lemma btc_digits f ws fs v : ws <> [] -> digits ws -> digits fs -> (length fs <= 8)%nat -> dec (ws ++ pad8 fs) <= u64_max ->
  trim_matches QUOTE v = ws ++ DOT :: fs \/ (trim_matches QUOTE v = ws /\ fs = []) ->
  btc_to_sats f v = dec ws * 100000000 + dec fs * 10 ^ (8 - Z.of_nat (length fs)).
Proof.
  intros Hn Hw Hf Hl Hm Ht. pose proof (dec_nonneg ws Hw). pose proof (dec_nonneg fs Hf).
  assert (Hp : length (pad8 fs) = 8%nat) by (unfold pad8; rewrite length_app, length_replicate; lia).
  assert (Hd : digits (pad8 fs)).
  { apply Forall_app. split; [done|]. apply Forall_replicate. done. }
  unfold dec in Hm. rewrite dec_from_app, dec_from_scale, Hp in Hm. change (dec_from 0 ws) with (dec ws) in Hm.
  change (10 ^ Z.of_nat 8) with 100000000 in Hm. pose proof (dec_nonneg _ Hd).
  rewrite <- dec_pad8 by done. unfold btc_to_sats; cbv zeta.
  assert (Hx : Forall (fun b => b <= 57) ws /\ Forall (fun b => b <= 57) fs).
  { split; (eapply Forall_impl; [eassumption|]); intros b Hb%digit_range; lia. }
  destruct Hx as [Hx1 Hx2]. destruct Ht as [-> | [-> ->]].
  - rewrite no_exponent; [|apply Forall_app; split; [done|]; constructor; [unfold DOT; lia | done]].
    rewrite split_at_dot by done. cbn [default from_option id]. rewrite (parse_digits ws) by (done || lia).
    rewrite take_ge by lia. rewrite (parse_digits (pad8 fs)); [|by intros E; rewrite E in Hp | done | lia].
    cbn [default from_option id]. sat_lia.
  - rewrite no_exponent, split_no_dot by done. cbn [default from_option id]. rewrite (parse_digits ws) by (done || lia).
    rewrite (parse_digits (pad8 (take 8 []))) by (done || lia). cbn [default from_option id]. change (take 8 []) with (@nil Z). sat_lia.
Qed.

(** An amount the node writes with a decimal point, up to eight digits after it, is read to
    the sat, with no float in between: in plain digits, without the point, or as a quoted
    string. *)
Theorem amounts_read_exactly by_float ws fs :
  ws <> [] -> digits ws -> digits fs -> (length fs <= 8)%nat -> dec (ws ++ pad8 fs) <= u64_max ->
  let sats := dec ws * 100000000 + dec fs * 10 ^ (8 - Z.of_nat (length fs)) in
  btc_to_sats by_float (ws ++ DOT :: fs) = sats /\
  btc_to_sats by_float (QUOTE :: (ws ++ DOT :: fs) ++ [QUOTE]) = sats /\
  (fs = [] -> btc_to_sats by_float ws = sats).
Proof.
  intros Hn Hw Hf Hl Hm sats.
  assert (Hq : forall l, digits l -> Forall (fun b => b <> QUOTE) l).
  { intros l Hd. eapply Forall_impl; [exact Hd|]. intros b Hb%digit_range. unfold QUOTE. lia. }
  assert (Ha : Forall (fun b => b <> QUOTE) (ws ++ DOT :: fs)).
  { apply Forall_app. split; [auto|]. constructor; [done | auto]. }
  split; [|split; [|intros ->]]; apply btc_digits; try done.
  - left. by apply trim_none.
  - left. apply trim_quoted; [by destruct ws | done].
  - right. split; [apply trim_none; auto | done].
Qed.

(** * A request handled twice *)

(** What a request that moved something leaves: a hold, a release and a payment cannot be asked for
    again, with the state as it is then. *)
Section Again.
Context `{World} {cfg : Config} {txs : NodeTxs}.

Lemma holds_saved x nd l base : saved (sh_node x) l = Ret nd -> holds (window_of (with_node x nd base)) = holds (l_window l).
Proof. intros [E _]%saved_keeps. unfold window_of. cbn [sh_node with_node]. by rewrite E. Qed.

Lemma release_again x id others ts x' sats es : handle x others ts id Release = Ret (x', Released sats es) ->
  holds (window_of x') !! id = None.
Proof.
  cbn [handle]. unfold handle_release, ledger_release_hold, release_hold. fold (window_of x).
  destruct (holds (window_of x) !! id) as [h|]; [|done]. cbn [mbind option_bind].
  intros (nd & E & Hr)%bind_Ret_inv. apply bind_Ret_inv in Hr as (? & _ & [= <- _ _]).
  rewrite (holds_saved _ _ _ _ E). cbn [l_window touched]. rewrite restore_fold_holds. cbn. apply lookup_delete_eq.
Qed.

Lemma paid_again x id others ts txid b x' t c sats es : handle x others ts id (Paid txid b) = Ret (x', PaidOff t c sats es) ->
  holds (window_of x') !! id = None.
Proof.
  cbn [handle]. unfold handle_paid. destruct (holds _ !! id); [|done]. destr_if; [done|]. destruct (get_tx _ _); [|done].
  destr_if; [done|]. intros (r & _ & E)%bind_Ret_inv. destruct r; [|done].
  unfold finish_paid, ledger_finish_hold, finish_hold in E. fold (window_of (others x)) in E.
  destruct (holds (window_of (others x)) !! id); [|done]. cbn [mbind option_bind] in E.
  apply bind_Ret_inv in E as (nd & Es & E). apply bind_Ret_inv in E as (? & _ & [= <- _ _ _ _]).
  rewrite (holds_saved _ _ _ _ Es). cbn. apply lookup_delete_eq.
Qed.

Lemma hold_again x id others ts es x' h r sats held skipped :
  window_ok (window_of x) -> stock (window_of x) <= i64_max ->
  handle x others ts id (Hold es) = Ret (x', Held h r sats held skipped) -> held <> [] ->
  is_Some (holds (window_of x') !! id) /\ window_ok (window_of x').
Proof.
  intros OK S0. cbn [handle]. unfold handle_hold. destr_if; [done|]. destruct (sh_tip x) as [tip|]; [|done].
  intros (rd & _ & E)%bind_Ret_inv. apply bind_Ret_inv in E as (rr & Eh & E).
  apply bind_Ret_inv in E as ([l a] & Ea & E). apply bind_Ret_inv in E as (nd & Es & [= <- ->]).
  destruct rr as [[[l0 held0] sk0]|e]; [|done]. apply bind_Ret_inv in Ea as (hs & _ & [= <- _ _ _ -> _]). intros Hne.
  rewrite (holds_saved _ _ _ _ Es). pose proof (saved_keeps _ _ _ Es) as [Ew _].
  
  unfold ledger_hold_carry in Eh. fold (window_of x) in Eh.
  pose proof (hold_carry_run (window_of x) id (filter (fun e => is_Some (payout_of e.1)) es) (trunc u32_max ts)
    cfg_stale_after_secs cfg_stale_min_payout (t_height tip) rd OK S0) as Hr.
  destruct (hold_carry _ _ _ _ _ _ _ _) as [[[[w' held1] skipped1]|e]|]; [| done | done].
  injection Eh as <- -> ->. destruct Hr as (_ & [Ef _ _ _ _] & _ & Hi). specialize (Hi Hne).
  destruct held as [|e0 held]; [done|]. cbn. split; [by destruct (holds w' !! id)|].
  unfold window_of. cbn [sh_node with_node]. rewrite Ew. apply Ef.
Qed.
End Again.

(** If Prime is killed after a request was handled and before its file is gone, it is handled
    again when Prime is back: a hold that held something, a release and a payment are then
    refused, and move nothing a second time. *)
Theorem request_again_moves_nothing `{World} {cfg : Config} {txs : NodeTxs} x others ts id req x' a others' ts' :
  window_ok (window_of x) -> stock (window_of x) <= i64_max ->
  match sh_tip x' with Some t => t_height t + READY_AFTER_BLOCKS <= u32_max | None => True end ->
  handle x others ts id req = Ret (x', a) ->
  match a with
  | Held _ _ _ held _ => held <> []
  | Released _ _ | PaidOff _ _ _ _ => True
  | _ => False
  end ->
  exists x'' e, handle x' others' ts' id req = Ret (x'', Refused e) /\ window_of x'' = window_of x'.
Proof.
  intros OK S0 Ft E Ha. pose proof (handle_answers _ _ _ _ _ _ _ E) as K. destruct a; try done.
  - destruct K as [es ->].
    destruct (hold_again _ _ _ _ _ _ _ _ _ _ _ OK S0 E Ha) as [[hh Hh] OK']. cbn [handle]. unfold handle_hold.
    destr_if; [by eexists _, _|]. destruct (sh_tip x') as [tip|]; [|by eexists _, _].
    rewrite chk_add_ok by done. mstep. unfold ledger_hold_carry, hold_carry. fold (window_of x'). rewrite Hh. mstep.
    destruct (saved_ok (sh_node x') (nd_ledger (sh_node x')) OK') as (nd & -> & Ew & _). mstep.
    eexists _, _. split; [reflexivity|]. done.
  - subst req. pose proof (release_again _ _ _ _ _ _ _ E) as Hn. cbn [handle].
    unfold handle_release, ledger_release_hold, release_hold. fold (window_of x'). rewrite Hn. by eexists _, _.
  - destruct K as [b ->]. pose proof (paid_again _ _ _ _ _ _ _ _ _ _ _ E) as Hn. cbn [handle].
    unfold handle_paid. fold (window_of x'). rewrite Hn. by eexists _, _.
Qed.

Lemma moved_all_of es ms : Forall (fun e => 0 < e.2) es -> Forall2 move_true es ms -> forall s, moved_of s ms = entries_of s es.
Proof.
  intros Hp F s. induction F as [|e m es ms (Ti & _ & _ & _ & Tm) _ IH]; [done|]. apply Forall_cons in Hp as [He Hp].
  unfold moved_of. cbn [map]. rewrite zsum_cons, entries_of_cons, Ti. fold (moved_of s ms). rewrite IH by done.
  rewrite (proj2 (Z.ltb_lt _ _) He) in Tm. destruct Tm as [-> _]. unfold one.
  destruct (decide (s = e.1)), (decide (e.1 = s)); congruence || lia.
Qed.

(** A credit is not so guarded. Killed after it was handled and before its file is gone,
    Prime gives every entry a second time when it is back: the positions rise by twice what was
    asked. *)
Theorem credit_given_twice `{World} {cfg : Config} {txs : NodeTxs} x others ts others' ts' id es note :
  window_ok (window_of x) -> Forall (fun e => 0 < e.2) es ->
  room (window_of x) (length es + length es) (asked es + asked es) ->
  exists x' a x'' a', handle x others ts id (Credit es note) = Ret (x', a) /\
    handle x' others' ts' id (Credit es note) = Ret (x'', a') /\
    forall s, net (window_of x'') s = net (window_of x) s + 2 * entries_of s es.
Proof.
  intros OK Hp R. cbn [handle]. unfold handle_credit.
  pose proof (stock_bounds (window_of x) "" OK) as [Hs _]. pose proof (asked_nonneg es) as Hn.
  assert (R1 : room (window_of x) (length es) (asked es)).
  { destruct R as [R1 R2]. split; [unfold spare in *; lia | lia]. }
  pose proof (proj2 R1) as Ha.
  destruct (credit_all_ok es (nd_ledger (sh_node x)) 0 0 OK R1) as (l1 & c1 & d1 & ms1 & -> & E1 & F1 & _); [lia | lia |]. mstep.
  destruct (saved_ok (sh_node x) l1 (ef_ok _ _ _ _ _ E1)) as (nd & -> & Ew & _). mstep.
  eexists _, _. cbn [sh_node with_node].
  destruct (credit_all_ok es (nd_ledger nd) 0 0) as (l2 & c2 & d2 & ms2 & E & E2 & F2 & _); [| | lia | lia |].
  { rewrite Ew. apply E1. }
  { rewrite Ew. exact (effects_room _ _ _ _ _ _ _ E1 R). }
  destruct (saved_ok nd l2 (ef_ok _ _ _ _ _ E2)) as (nd2 & Es & Ew2 & _).
  eexists _, _. split; [reflexivity|]. cbn [sh_node with_node]. rewrite E. mstep. rewrite Es. mstep. split; [reflexivity|].
  intros s. unfold window_of at 1. cbn [sh_node with_node]. rewrite Ew2, (ef_net _ _ _ _ _ E2), Ew, (ef_net _ _ _ _ _ E1).
  rewrite (moved_all_of es ms1), (moved_all_of es ms2) by done. unfold window_of. lia.
Qed.

(** * Witnesses *)

(** 700 sats of an address held, and a node that shows a transaction paying them. *)
Definition pay_window : Window := with_holds (set_carry (set_carry demo_window "bc1qdemo" 700) "bc1qdemo" 0)
  {[ "b1"%string := {| created_ts := 5; hold_height := 7; ready_height := 11; entries := [("bc1qdemo"%string, 700)] |} ]}.
Definition pay_shared : Shared := with_node (demo_shared seen_new)
  {| nd_ledger := touched (nd_ledger (sh_node (demo_shared seen_new))) pay_window []; nd_blocks := []; nd_disk := ∅ |} None.
Definition toy_txs : NodeTxs := {|
  get_tx := fun _ _ => Ok {| nt_confirmations := Some 3;
    nt_vout := Some [{| no_hex := Some (bytes_str ([0; 20] ++ replicate 20 7)); no_value := Some (str_bytes "0.000007") |}] |};
  by_float := fun _ => 0 |}.
Definition toy_txid : string := bytes_str (replicate 64 48).
Definition toy_handle := @handle toy_world demo_cfg toy_txs.

Lemma pay_books_ok : books_ok pay_window.
Proof.
  split; [|split; [by vm_compute|]].
  - apply with_holds_ok.
    + eapply mv_ok. apply set_carry_moved; [|right; exists 3; by vm_compute | split; lia].
      eapply mv_ok. apply set_carry_moved; [exact demo_window_ok | left; by vm_compute | split; lia].
    + apply map_Forall_insert_2; [split; [done | repeat constructor] | apply map_Forall_empty].
  - apply map_Forall_insert_2; [|apply map_Forall_empty]. constructor; [|constructor]. split; [cbn; lia|].
    exists 3. by vm_compute.
Qed.

Lemma pay_room es n : asked es <= 1000000 -> (n <= 5)%nat -> room (window_of pay_shared) n (asked es).
Proof. intros Ha Hn. split; [unfold spare; change (length (idents (window_of pay_shared))) with 4%nat; lia|]. change (stock (window_of pay_shared)) with 1600. lia. Qed.

Definition credit_req : Request := Credit [("carol"%string, 600); ("bob"%string, -5)] "by hand".

Definition paid_req : Request := Paid toy_txid None.
Lemma paid_is_proven_witness :
  exists x' hold, toy_handle pay_shared id 100 "b1" paid_req = Ret (x', PaidOff toy_txid 3 700 [("bc1qdemo"%string, 700)]) /\
    holds (window_of pay_shared) !! "b1"%string = Some hold /\ entries hold = [("bc1qdemo"%string, 700)].
Proof.
  assert (A : match toy_handle pay_shared id 100 "b1" paid_req with
              | Ret (_, a) => a = PaidOff toy_txid 3 700 [("bc1qdemo"%string, 700)] | _ => False end) by (vm_compute; reflexivity).
  destruct (toy_handle pay_shared id 100 "b1" paid_req) as [[x' a]|] eqn:E; [|done]. subst a.
  destruct (@paid_is_proven toy_world demo_cfg toy_txs pay_shared id 100 "b1" paid_req x' toy_txid 3 700 _ E)
    as (b & hold & tx & outs & _ & H & _).
  exists x', hold. split; [reflexivity|]. split; [exact H|]. vm_compute in H. injection H as <-. reflexivity.
Defined.

(** The balance is stale an hour after it was last seen; a coinbaser issued then is not settled two
    blocks later than its grace. *)
Definition stale_shared : Shared := with_node (demo_shared seen_new)
  {| nd_ledger := touched (nd_ledger (sh_node (demo_shared seen_new)))
       (set_last_seen (set_carry demo_window "bc1qdemo" 700) "bc1qdemo" 1000) []; nd_blocks := []; nd_disk := ∅ |} None.
Definition hold_req : list (string * Z) := [("bc1qdemo"%string, 700); ("carol"%string, 5)].
Definition hold_run := toy_handle stale_shared id 90000 "b2" (Hold hold_req).
Definition empty_split : Split.Split := {|
  s_value := 1000; s_fee_sats := 0; s_total_work := 1; s_payees := []; s_unpaid := []; s_pool_sats := 1000;
  s_carry_paid := 0; s_rebate_credits := []; s_rebate_sats := 0;
  s_rebate_owed_credited := 0; s_rebate_deferred := 0 |}.

Lemma hold_runs : match hold_run with
  | Ret (_, Held h r s held _) => (h, r, s, held) = (966266, 966270, 700, [("bc1qdemo"%string, 700)]) | _ => False end.
Proof. vm_compute. reflexivity. Qed.

Definition old_reply : IssuedCoinbaser := {|
  ic_id := 3; ic_value := 1000; ic_prev_hash := [1]; ic_height := 966267; ic_outputs := [{| sats := 1000; script := demo_pool |}];
  ic_payees := []; ic_unpaid := []; ic_rebate_credits := []; ic_owed_credited := 0; ic_deferred := 0; class_budget := None |}.

Lemma held_amounts_final_witness :
  issued_for [old_reply] 3 [2] 966269 = Ret (Some old_reply) /\ 966269 < 966270.
Proof.
  pose proof hold_runs as A. destruct hold_run as [[x' a]|] eqn:E; [|exact (False_ind _ A)].
  destruct a as [| |h r s held sk| | |]; try exact (False_ind _ A).
  injection A as -> -> -> ->. split; [reflexivity|].
  apply (@held_amounts_final toy_world demo_cfg toy_txs stale_shared id 90000 "b2" hold_req x' 966266 966270 700 _ sk
    demo_pool 3 1000 [1] None (Some demo_tip) empty_split old_reply [old_reply] [2] 966269 E).
  - reflexivity.
  - intros t [= <-]. cbn. lia.
  - lia.
  - reflexivity.
  - discriminate.
Defined.

Lemma amounts_read_exactly_witness :
  btc_to_sats (fun _ => 0) (str_bytes "3.125") = 312500000 /\
  btc_to_sats (fun _ => 0) (str_bytes "20999999.97690000") = 2099999997690000.
Proof.
  assert (D : forall l, forallb is_ascii_digit l = true -> digits l).
  { intros l Hl. apply Forall_forall. intros b Hb. rewrite forallb_forall in Hl. by apply Hl, list_elem_of_In. }
  split.
  - apply (amounts_read_exactly (fun _ => 0) [51] [49; 50; 53]); [done | by apply D | by apply D | cbn; lia |].
    vm_compute. discriminate.
  - apply (amounts_read_exactly (fun _ => 0) (str_bytes "20999999") (str_bytes "97690000"));
      [done | by apply D | by apply D | cbn; lia |]. vm_compute. discriminate.
Defined.

Lemma request_again_moves_nothing_witness :
  exists x' a x'' e, toy_handle pay_shared id 100 "b1" paid_req = Ret (x', a) /\
    toy_handle x' id 200 "b1" paid_req = Ret (x'', Refused e) /\ window_of x'' = window_of x'.
Proof.
  assert (A : match toy_handle pay_shared id 100 "b1" paid_req with
              | Ret (_, PaidOff _ _ _ _) => True | _ => False end) by (vm_compute; exact I).
  destruct (toy_handle pay_shared id 100 "b1" paid_req) as [[x' a]|] eqn:E; [|done].
  assert (B : match sh_tip x' with Some t => t_height t + READY_AFTER_BLOCKS <= u32_max | None => True end).
  { assert (match toy_handle pay_shared id 100 "b1" paid_req with
            | Ret (x, _) => match sh_tip x with Some t => t_height t = 966266 | None => True end | _ => False end) as Ht by (vm_compute; reflexivity).
    rewrite E in Ht. destruct (sh_tip x') as [t|]; [|done]. rewrite Ht. vm_compute. discriminate. }
  destruct (@request_again_moves_nothing toy_world demo_cfg toy_txs pay_shared id 100 "b1" paid_req x' a id 200
    (proj1 pay_books_ok) (proj1 (proj2 pay_books_ok)) B E) as (x'' & e & E2 & W); [by destruct a|].
  exists x', a, x'', e. by conjs.
Defined.

Definition thrice : list (string * Z) := [("carol"%string, 300)].
Lemma credit_given_twice_witness :
  exists x' a x'' a', toy_handle pay_shared id 100 "c2" (Credit thrice "") = Ret (x', a) /\
    toy_handle x' id 200 "c2" (Credit thrice "") = Ret (x'', a') /\
    net (window_of pay_shared) "carol" = 900 /\ net (window_of x'') "carol" = 1500.
Proof.
  destruct (@credit_given_twice toy_world demo_cfg toy_txs pay_shared id 100 id 200 "c2" thrice "")
    as (x' & a & x'' & a' & E1 & E2 & Hn).
  - apply pay_books_ok.
  - by repeat constructor.
  - exact (pay_room [("carol"%string, 300); ("carol"%string, 300)] 2 ltac:(by vm_compute) ltac:(lia)).
  - exists x', a, x'', a'. split; [exact E1|]. split; [exact E2|]. split; [vm_compute; reflexivity|].
    rewrite (Hn "carol"%string). vm_compute. reflexivity.
Defined.
