(* ===== verification/Solo.v ===== *)
(** The observer of solo blocks ([prime/primed/src/solo.rs]): which coinbases are the pool's own solo
    blocks, the share of each that is credited to DATUM work, and the scan of the chain that books
    them.

    What the node answers is an argument; what the other tasks do to the shared state while it is
    asked is [others], by height and by question. *)

From S2P Require Import Prelude Bytes Text Tides Split Window Grace Ledger Disk BlockLog Persist Cursor Frame Coinbaser Coinbase.
From S2P Require Import Mining Handshake Pow Verify State Settle Address ClassBudget Node Validity Slots Replies Session Paying.
Open Scope Z_scope.

Module Solo.

(** One solo block whose rebate was booked. *)
Record SoloRebate := {
  sr_ts : Z;
  sr_height : Z;
  sr_hash : string;
  sr_coinbase_value : Z;
  sr_pool_sats : Z;
  sr_rebate_sats : Z;
  sr_credits : list (string * Z);
  sr_rebate_owed_after : Z
}.

(** * Reading a coinbase *)

(** The parts of a decoded coinbase the code reads: the coinbase script of its first input, and of
    each output the text of its amount and its script in hex. *)
Record SoloOut := { so_value : option (list Z); so_hex : option string }.
Record SoloTx := { sx_script_sig : option (list Z); sx_vout : option (list SoloOut) }.

Record CoinbaseFacts := { tagged : bool; value_sats : Z; pool_sats : Z }.

(** [windows(n).any(|w| w == tag)]. *)
Fixpoint has_window (tag l : list Z) : bool :=
  bool_decide (take (length tag) l = tag) || match l with [] => false | _ :: l' => has_window tag l' end.

Section Facts.
(** [btc_to_sats], which rounds a float. *)
Context (float_sats : list Z -> Z).

Definition out_sats (o : SoloOut) : Z := match so_value o with Some v => float_sats v | None => 0 end.
Definition pays_pool (pool_hex : string) (o : SoloOut) : bool :=
  bool_decide (lower (default ""%string (so_hex o)) = lower pool_hex).

Definition coinbase_facts (tx : SoloTx) (tag : list Z) (pool_hex : string) : CoinbaseFacts :=
  let outs := default [] (sx_vout tx) in {|
    tagged := negb (bool_decide (tag = [])) && has_window tag (default [] (sx_script_sig tx));
    value_sats := foldl (fun a o => sat_add u64_max a (out_sats o)) 0 outs;
    pool_sats := foldl (fun a o => if pays_pool pool_hex o then sat_add u64_max a (out_sats o) else a) 0 outs |}.
End Facts.

Definition rebate_for (value bps : Z) : Z := trunc u64_max (value * bps / 10000).
Definition SOLO_DEPTH : Z := 6.

(** * Booking *)

Section Solo.
Context `{World} {cfg : Config}.

(** The node, asked for a block's hash by height, the id of its first transaction, and that
    transaction; [None] is a failed call or an answer of another shape. *)
Class NodeChain := {
  block_hash : Z -> option string;
  coinbase_txid : string -> option string;
  coinbase_tx : string -> string -> option SoloTx;
  float_sats : list Z -> Z
}.
Context `{NodeChain}.

(** The rebate of a solo block with what was owed, to the DATUM work of the window; kept as owed
    when none can take it. *)
Definition book_solo (l : Ledger) (rebate : Z) : panics (Ledger * list (string * Z) * Z) :=
  let pot := sat_add u64_max rebate (rebate_owed (l_window l)) in
  ms ← miners (l_window l);
  '(credits, _) ← rebate_credits ms pot payout_of;
  Ret (match credits with
       | [] => let '(l, owed) := settle_rebate l (clamp_i64 rebate) in (l, credits, owed)
       | _ =>
           let '(l, _) := settle_carry l (map (fun e => (e.1, clamp_i64 e.2)) credits) in
           (ledger_set_rebate_owed l 0, credits, 0)
       end).

(** * The scan *)

(** The shared state, the cursor's file and the log of booked blocks. *)
Record Scan := { sc_shared : Shared; sc_cursor : option Z; sc_log : list SoloRebate }.
Definition with_cursor (s : Scan) (h : Z) : Scan := {|
  sc_shared := sc_shared s; sc_cursor := Some h; sc_log := sc_log s |}.
Definition passed (s : Scan) (x : Shared) : Scan := {|
  sc_shared := x; sc_cursor := sc_cursor s; sc_log := sc_log s |}.

Definition book_block (s : Scan) (ts height : Z) (hash : string) (f : CoinbaseFacts) : panics Scan :=
  let x := sc_shared s in
  let nd := sh_node x in
  let rebate := Z.min (rebate_for (value_sats f) cfg_solo_rebate_bps) (pool_sats f) in
  '(l, credits, owed) ← book_solo (nd_ledger nd) rebate;
  Ret {| sc_shared := with_node x {| nd_ledger := l; nd_blocks := nd_blocks nd; nd_disk := nd_disk nd |} None;
         sc_cursor := sc_cursor s;
         sc_log := sc_log s ++ [{| sr_ts := ts; sr_height := height; sr_hash := hash;
                                   sr_coinbase_value := value_sats f; sr_pool_sats := pool_sats f;
                                   sr_rebate_sats := rebate; sr_credits := credits; sr_rebate_owed_after := owed |}] |}.

(** One height: [None] ends the pass with the cursor where it is. *)
Definition scan_one (others : Z -> nat -> Shared -> Shared) (ts : Z) (s : Scan) (height : Z) : panics (Scan * bool) :=
  let s := passed s (others height 0%nat (sc_shared s)) in
  match block_hash height with
  | None => Ret (s, false)
  | Some hash =>
      if existsb (fun b => bool_decide (br_hash b = hash)) (nd_blocks (sh_node (sc_shared s)))
      then Ret (with_cursor s height, true) else
      match coinbase_txid hash with
      | None => Ret (s, false)
      | Some txid =>
          match coinbase_tx txid hash with
          | None => Ret (s, false)
          | Some tx =>
              let s := passed s (others height 1%nat (sc_shared s)) in
              let f := coinbase_facts float_sats tx cfg_solo_coinbase_tag (hex_encode cfg_pool_script) in
              s ← (if tagged f && (0 <? pool_sats f) then book_block s ts height hash f else Ret s);
              Ret (with_cursor s height, true)
          end
      end
  end.

Fixpoint scan_heights (others : Z -> nat -> Shared -> Shared) (ts : Z) (s : Scan) (hs : list Z) : panics Scan :=
  match hs with
  | [] => Ret s
  | h :: hs' =>
      '(s, go) ← scan_one others ts s h;
      if (go : bool) then scan_heights others ts s hs' else Ret s
  end.

(** [start..=end]. *)
Definition heights (first last : Z) : list Z := map (fun k => first + Z.of_nat k) (seq 0 (Z.to_nat (last - first + 1))).

Definition scan (others : Z -> nat -> Shared -> Shared) (ts : Z) (s : Scan) (tip_height : Z) : panics Scan :=
  if (cfg_solo_rebate_bps =? 0) || (tip_height <=? SOLO_DEPTH) then Ret s else
  let upto := tip_height - SOLO_DEPTH in
  match sc_cursor s with
  | None => Ret (with_cursor s upto)
  | Some h =>
      start ← chk_add u32_max h 1;
      if upto <? start then Ret s else
      far ← chk_add u32_max start 19;
      scan_heights others ts s (heights start (Z.min upto far))
  end.
End Solo.
End Solo.
