(* ===== verification/SoloProps.v ===== *)
(** The properties of the solo observer: what a booked block credits, that a height is booked once,
    and what a kill loses. *)

From S2P Require Import Prelude Bytes Text Tides Split SplitFacts Window WindowFacts BalanceFacts MinersFacts Grace Ledger LedgerFacts Disk BlockLog Persist.
From S2P Require Import Cursor Frame Coinbaser Coinbase Mining Handshake Pow Verify State Settle Address ClassBudget Node Validity Slots Replies Session Paying Solo.
From S2P Require Import WindowProps VerifyProps PersistProps SessionFacts.
Import Solo.
Open Scope Z_scope.

(** * Sharing a pot out *)

Lemma floor_loss (T pot : Z) (el : list (string * Z)) : 0 < T -> zsum (map snd el) = T ->
  T * (pot - zsum (map (fun x => pot * x.2 / T) el)) <= (T - 1) * Z.of_nat (length el).
Proof.
  intros HT HS.
  assert (zsum (map (fun x => pot * x.2) el) <= T * zsum (map (fun x => pot * x.2 / T) el) + (T - 1) * Z.of_nat (length el)) as Hx.
  { clear HS. induction el as [|x el IH]; cbn [map length]; [cbn; lia|]. rewrite !zsum_cons, Nat2Z.inj_succ.
    pose proof (Z.mod_pos_bound (pot * x.2) T HT). pose proof (Z.div_mod (pot * x.2) T ltac:(lia)). lia. }
  assert (zsum (map (fun x => pot * x.2) el) = T * pot) as Hy.
  { rewrite <- HS, <- zsum_map_mul_r. f_equal. apply map_ext. intros; lia. }
  lia.
Qed.

(** A pot shared over DATUM work loses less than one sat a miner. *)
Lemma rebate_dust miners total_work value p owed pot sf cs rest :
  split_ok miners total_work value p owed -> 0 <= pot <= u64_max ->
  rebate_credits miners pot sf = Ret (cs, rest) -> cs <> [] -> rest < Z.of_nat (length (eligible miners sf)).
Proof.
  intros OK Hp. pose proof (eligible_sum _ _ _ _ _ OK sf) as Ht. pose proof (so_total _ _ _ _ _ OK) as Hu. unfold in_range in Hu.
  pose proof (eligible_elem _ _ _ _ _ OK sf) as Hel.
  unfold rebate_credits. destr_if; [by intros [= <- _]|]. bools. set (el := eligible miners sf) in *.
  rewrite chk_sum_ok; [mstep | | lia].
  2:{ apply Forall_forall. intros y (x & -> & Hx)%list_elem_of_fmap. apply Hel in Hx. lia. }
  rewrite Z.add_0_l. destruct (Z.eqb_spec (zsum (map snd el)) 0) as [|Hz]; [by intros [= <- _]|].
  intros ([cs' sum] & E & Hr)%bind_Ret_inv Hn. apply bind_Ret_inv in Hr as (r & [-> _]%chk_sub_inv & [= <- <-]).
  assert (HT : 0 < zsum (map snd el)) by lia.
  assert (Hnn : forall x, x ∈ el -> 0 <= pot * x.2 / zsum (map snd el)).
  { intros x [H _]%Hel. apply Z.div_pos; [apply Z.mul_nonneg_nonneg; lia | lia]. }
  assert (Hs : 0 + zsum (map (fun x => pot * x.2 / zsum (map snd el)) el) <= pot).
  { pose proof (div_sum_le (fun x : string * Z => pot * x.2) (zsum (map snd el)) el) as Hd.
    assert (zsum (map (fun x : string * Z => pot * x.2) el) = zsum (map snd el) * pot) as Hy.
    { rewrite <- zsum_map_mul_r. f_equal. apply map_ext. intros; lia. }
    rewrite Hy, Z.mul_comm, Z.div_mul in Hd by lia. lia. }
  destruct (credit_each_ok pot (zsum (map snd el)) 0 el) as (cs2 & E2 & _); try lia.
  { apply Forall_forall. intros x [Hx _]%Hel. lia. }
  { intros x Hx. enough (pot * x.2 / zsum (map snd el) <= zsum (map (fun x => pot * x.2 / zsum (map snd el)) el)) by lia.
    by apply (zsum_map_elem_le (fun x => pot * x.2 / zsum (map snd el))). }
  rewrite E in E2. injection E2 as <- ->. pose proof (floor_loss _ pot el HT eq_refl) as Hl.
  assert (0 < Z.of_nat (length el)).
  { destruct el; [cbn in HT; lia | cbn; lia]. }
  nia.
Qed.

Lemma settle_credits_window l es : Forall (fun e => 0 < e.2) es ->
  l_window (settle_carry l es).1 = foldl (fun w e => (restore_carry w e.1 e.2).1) (l_window l) es.
Proof.
  intros Hp. unfold settle_carry.
  assert (Hg : forall es w lines out, Forall (fun e => 0 < e.2) es ->
    (foldl settle_one (w, lines, out) es).1.1 = foldl (fun w e => (restore_carry w e.1 e.2).1) w es).
  { clear. induction es as [|e es IH]; intros w lines out Hp; [done|]. apply Forall_cons in Hp as [He Hp]. cbn [foldl].
    unfold settle_one at 2. rewrite (proj2 (Z.eqb_neq e.2 0)), (proj2 (Z.ltb_lt 0 e.2)) by lia.
    destruct (restore_carry w e.1 e.2) as [w' new]. cbn [fst]. by apply IH. }
  specialize (Hg es (l_window l) [] [] Hp). destruct (foldl settle_one _ es) as [[w lines] out]. cbn [fst] in *.
  destruct es as [|e es]; [done|]. apply Forall_cons in Hp as [He _]. cbn [forallb].
  rewrite (proj2 (Z.eqb_neq e.2 0)) by lia. exact Hg.
Qed.

Lemma clamp_same es : Forall (fun e : string * Z => e.2 <= i64_max) es -> map (fun e => (e.1, clamp_i64 e.2)) es = es.
Proof.
  induction 1 as [|[i x] es Hx _ IH]; [done|]. cbn [map fst snd]. rewrite IH. unfold clamp_i64. cbn in Hx. by rewrite Z.min_l.
Qed.

(** The listing of a window is what [rebate_credits] expects, whatever a split's parameters. *)
Definition no_fees : SplitParams := {|
  fee_bps := 0; stratum_fee_bps := 0; datum_rebate_bps := 0; grace_fee_bps := 0; grace_rebate_bps := 0;
  min_payout := 0; max_outputs := 0; output_budget_bytes := 0; stale_after := 0; stale_min_payout := 0; stale_max_outputs := 0 |}.

Lemma listed_split_ok w ms : window_ok w -> listing w ms -> split_ok ms (total_work w) 0 no_fees (rebate_owed w).
Proof.
  intros OK L. constructor; try apply L; try apply OK; try (cbn; unfold in_range; lia).
  - by rewrite (ls_work _ _ L).
  - split; [|apply OK]. destruct (wo_total _ OK) as [-> _]. apply zsum_map_nonneg.
    intros c Hc. pose proof (rows_range w OK) as Hr. eapply Forall_forall in Hr; [|exact Hc].
    unfold in_range in Hr. lia.
Qed.

Lemma worked_known w s : 0 < work_of w s -> is_Some (ident_index w !! s).
Proof. unfold work_of. destruct (ident_index w !! s); [by eexists | lia]. Qed.

Section Book.
Context `{World} {cfg : Config}.

(** What the booking of a rebate leaves, the pot of [rebate] and what was owed being shared out as
    [credits], kept as [owed], and [lost] to rounding. *)
Record solo_booked (w w' : Window) (pot : Z) (credits : list (string * Z)) (owed lost : Z) : Prop := {
  sb_ok : window_ok w';
  sb_net : forall s, net w' s = net w s + entries_of s credits;
  sb_owed : rebate_owed w' = owed;
  sb_sum : total_of credits + owed + lost = pot;
  sb_nonneg : 0 <= lost /\ 0 <= owed;
  sb_kept : credits = [] -> lost = 0
}.

Lemma book_kept l rebate : let w := l_window l in
  window_ok w -> 0 <= rebate <= i64_max -> rebate + rebate_owed w <= u64_max ->
  exists l', settle_rebate l (clamp_i64 rebate) = (l', rebate + rebate_owed w) /\
    solo_booked w (l_window l') (rebate + rebate_owed w) [] (rebate + rebate_owed w) 0.
Proof.
  cbv zeta. intros OK Hr Hp. pose proof (wo_owed _ OK) as Ho. unfold in_range in Ho.
  unfold settle_rebate, clamp_i64. rewrite Z.min_l by lia. destr_if; bools.
  - subst rebate. exists l. split; [done|]. constructor; try done; try intros s; cbn; lia.
  - unfold adjust_rebate_owed. rewrite add_signed_pos by lia. eexists. split; [cbn; by rewrite Z.add_comm|].
    cbn [l_window touched]. constructor; try done; try (cbn; lia).
    + apply with_rebate_owed_ok; [done|]. unfold in_range. lia.
    + intros s. change (entries_of s []) with 0. rewrite Z.add_0_r. done.
Qed.

Lemma book_shared l es pot lost : let w := l_window l in
  window_ok w -> recorded w es -> stock w + total_of es <= i64_max -> total_of es + lost = pot -> 0 <= lost -> es <> [] ->
  solo_booked w (l_window (ledger_set_rebate_owed (settle_carry l es).1 0)) pot es 0 lost.
Proof.
  cbv zeta. intros OK HR Hst Hp Hl Hne.
  assert (Hpos : Forall (fun e => 0 < e.2) es) by (eapply Forall_impl; [exact HR|]; by intros e [[? _] _]).
  destruct (fold_effects (fun w e => (restore_carry w e.1 e.2).1) 1 restore_carry_effects es (l_window l) OK HR Hst) as [E R].
  rewrite <- (settle_credits_window l es Hpos) in E, R.
  assert (E2 := effects_owed _ _ _ _ _ 0 E ltac:(unfold in_range; lia)).
  unfold ledger_set_rebate_owed. cbn [l_window touched]. unfold set_rebate_owed.
  constructor; try done; try lia.
  - apply E2.
  - intros s. rewrite (ef_net _ _ _ _ _ E2). lia.
Qed.

Lemma book_solo_run l rebate : let w := l_window l in
  window_ok w -> 0 <= rebate -> stock w + rebate + rebate_owed w <= i64_max ->
  exists l' credits owed lost ms, book_solo l rebate = Ret (l', credits, owed) /\ miners w = Ret ms /\
    solo_booked w (l_window l') (rebate + rebate_owed w) credits owed lost /\
    (credits <> [] -> owed = 0 /\ lost < Z.of_nat (length (eligible ms payout_of))) /\
    (forall c, c ∈ credits -> 0 < c.2 /\ exists m, m ∈ ms /\ m_identity m = c.1 /\ 0 < datum_work m /\ is_Some (payout_of c.1)).
Proof.
  cbv zeta. intros OK Hr Hst. unfold book_solo.
  destruct (miners_run (l_window l) OK) as (ms & Em & L). rewrite Em. mstep.
  pose proof (listed_split_ok (l_window l) ms OK L) as SO. pose proof (wo_owed _ OK) as Ho. unfold in_range in Ho.
  pose proof (stock_bounds (l_window l) "" OK) as [Hs0 _].
  assert (Hpot : sat_add u64_max rebate (rebate_owed (l_window l)) = rebate + rebate_owed (l_window l)) by sat_lia.
  rewrite Hpot. set (pot := rebate + rebate_owed (l_window l)) in *.
  assert (Hpe : pot = rebate + rebate_owed (l_window l)) by done.
  destruct (rebate_credits_ok _ _ _ _ _ SO pot payout_of) as (cs & rest & E & Hr0 & Hsum & Hpos & Hm); [lia|].
  pose proof (rebate_dust _ _ _ _ _ pot payout_of cs rest SO ltac:(lia) E) as Hdust. rewrite E. mstep.
  assert (Hc : forall c, c ∈ cs -> 0 < c.2 /\ exists m, m ∈ ms /\ m_identity m = c.1 /\ 0 < datum_work m /\ is_Some (payout_of c.1)).
  { intros c Hc. split; [by rewrite Forall_forall in Hpos; apply Hpos|]. destruct (Hm c Hc) as (m & ? & Hid & ? & Hp).
    exists m. rewrite <- Hid. done. }
  change (zsum (map snd cs)) with (total_of cs) in Hsum. destruct cs as [|c0 cs].
  - destruct (book_kept l rebate OK) as (l' & -> & B); [lia | lia |].
    eexists _, _, _, 0, ms. split; [reflexivity|]. split; [done|]. split; [exact B|]. done.
  - set (cs' := c0 :: cs) in *. assert (HR : recorded (l_window l) cs').
    { apply Forall_forall. intros c Hin. destruct (Hc c Hin) as [Hp (m & Hmm & Hid & Hw & _)]. split.
      - assert (c.2 <= total_of cs'); [|lia]. apply (zsum_map_elem_le snd); [|done]. intros y Hy. apply Hc in Hy. lia.
      - apply worked_known. rewrite <- Hid. destruct (ls_each _ _ L m Hmm) as [<- _].
        destruct (Forall_forall miner_ok ms) as [F _]. destruct (datum_work_bounds m (F (ls_ok _ _ L) m Hmm)). lia. }
    rewrite clamp_same by (eapply Forall_impl; [exact HR|]; by intros e [[_ ?] _]).
    destruct (settle_carry l cs') as [l1 out] eqn:El. eexists _, _, _, rest, ms. split; [reflexivity|]. split; [done|].
    split; [|split; [intros Hne; by split; [|apply Hdust] | exact Hc]].
    pose proof (book_shared l cs' pot rest OK HR ltac:(lia) Hsum Hr0 ltac:(done)) as B. by rewrite El in B.
Qed.
End Book.

(** * A pass of the scan *)

Section Pass.
Context `{World} {cfg : Config}.

(** A booked block paid the pool, and is rebated no more than it paid. *)
Definition entry_ok (e : SoloRebate) : Prop :=
  0 < sr_pool_sats e /\ sr_rebate_sats e = Z.min (rebate_for (sr_coinbase_value e) cfg_solo_rebate_bps) (sr_pool_sats e).

(** What a pass adds to the log, against the cursor before and after it. *)
Record grown (s s' : Scan) (new : list SoloRebate) : Prop := {
  gr_log : sc_log s' = sc_log s ++ new;
  gr_sorted : StronglySorted Z.lt (map sr_height new);
  gr_cursor : match sc_cursor s with
              | None => new = []
              | Some c => exists c', sc_cursor s' = Some c' /\ c <= c' /\ Forall (fun e => c < sr_height e <= c') new
              end;
  gr_entries : Forall entry_ok new
}.

Lemma grown_none s s' : sc_log s' = sc_log s -> sc_cursor s' = sc_cursor s -> grown s s' [].
Proof.
  intros El Ec. constructor; rewrite ?El, ?app_nil_r; try done; try constructor.
  rewrite Ec. destruct (sc_cursor s) as [c|]; [|done]. exists c. split; [done|]. split; [lia | done].
Qed.

Lemma book_block_log s ts h hash f s' : 0 < pool_sats f -> book_block s ts h hash f = Ret s' ->
  exists e, sc_log s' = sc_log s ++ [e] /\ sr_height e = h /\ entry_ok e /\ sc_cursor s' = sc_cursor s /\
    nd_disk (sh_node (sc_shared s')) = nd_disk (sh_node (sc_shared s)).
Proof.
  intros Hp. unfold book_block. intros ([[l cs] owed] & _ & [= <-])%bind_Ret_inv. cbn. by eexists.
Qed.

Lemma scan_one_ok `{NodeChain} others ts s h s' go c : scan_one others ts s h = Ret (s', go) ->
  sc_cursor s = Some c -> c < h ->
  exists new, grown s s' new /\ (go = true -> sc_cursor s' = Some h /\ Forall (fun e => sr_height e <= h) new).
Proof.
  unfold scan_one. intros E Ec Hh.
  assert (Hstay : forall x, exists new, grown s (passed s x) new /\ (false = true -> sc_cursor (passed s x) = Some h /\
    Forall (fun e => sr_height e <= h) new)) by (intros x; exists []; split; [by apply grown_none | done]).
  assert (Hmove : forall x, exists new, grown s (with_cursor (passed s x) h) new /\
    (true = true -> sc_cursor (with_cursor (passed s x) h) = Some h /\ Forall (fun e => sr_height e <= h) new)).
  { intros x. exists []. split; [|done]. constructor; cbn; rewrite ?app_nil_r; try done; try constructor.
    rewrite Ec. exists h. split; [done|]. split; [lia | constructor]. }
  destruct (block_hash h) as [hash|]; [|injection E as <- <-; apply Hstay].
  destr_if_in E; [injection E as <- <-; apply Hmove|].
  destruct (coinbase_txid hash) as [txid|]; [|injection E as <- <-; apply Hstay].
  destruct (coinbase_tx txid hash) as [tx|]; [|injection E as <- <-; apply Hstay].
  set (f := coinbase_facts _ _ _ _) in E. apply bind_Ret_inv in E as (s1 & E & [= <- <-]).
  destr_if_in E; [|injection E as <-; apply Hmove]. bools.
  apply book_block_log in E as (e & El & Eh & Ee & Ek & _); [|done]. cbn in El, Ek. exists [e]. split.
  - constructor; cbn; [done | apply SSorted_cons; [apply SSorted_nil | done] | | by apply Forall_singleton].
    rewrite Ec. exists h. split; [done|]. split; [lia|]. apply Forall_singleton. lia.
  - intros _. cbn. split; [done|]. apply Forall_singleton. lia.
Qed.

Lemma grown_trans s s1 s2 n1 n2 c : sc_cursor s = Some c -> grown s s1 n1 -> grown s1 s2 n2 -> grown s s2 (n1 ++ n2).
Proof.
  intros Ec [L1 S1 C1 E1] [L2 S2 C2 E2]. rewrite Ec in C1. destruct C1 as (c1 & Ec1 & Hc1 & F1).
  rewrite Ec1 in C2. destruct C2 as (c2 & Ec2 & Hc2 & F2). constructor.
  - by rewrite L2, L1, app_assoc.
  - rewrite map_app. apply StronglySorted_app_2; [|done | done].
    intros a b (x & -> & Hx)%list_elem_of_fmap (y & -> & Hy)%list_elem_of_fmap.
    rewrite Forall_forall in F1, F2. specialize (F1 _ Hx). specialize (F2 _ Hy). lia.
  - rewrite Ec. exists c2. split; [done|]. split; [lia|]. apply Forall_app. split; [eapply Forall_impl; [exact F1|] | eapply Forall_impl; [exact F2|]]; cbn; intros ?; lia.
  - by apply Forall_app.
Qed.

Lemma scan_heights_ok `{NodeChain} others ts hs : forall s s' c, scan_heights others ts s hs = Ret s' ->
  sc_cursor s = Some c -> StronglySorted Z.lt hs -> Forall (fun h => c < h) hs -> exists new, grown s s' new.
Proof.
  induction hs as [|h hs IH]; intros s s' c E Ec Hs Hc; cbn [scan_heights] in E.
  { injection E as <-. exists []. by apply grown_none. }
  apply bind_Ret_inv in E as ([s1 go] & E1 & E). apply Forall_cons in Hc as [Hh Hc]. apply StronglySorted_inv in Hs as [Hs Hf].
  destruct (scan_one_ok _ _ _ _ _ _ _ E1 Ec Hh) as (n1 & G1 & Hgo). destruct go; [|injection E as <-; by exists n1].
  destruct (Hgo eq_refl) as [Ec1 _]. destruct (IH _ _ _ E Ec1 Hs Hf) as (n2 & G2). exists (n1 ++ n2). by eapply grown_trans.
Qed.

Lemma heights_sorted a b : StronglySorted Z.lt (heights a b) /\ Forall (fun h => a <= h) (heights a b).
Proof.
  unfold heights. generalize (Z.to_nat (b - a + 1)). intros n. split.
  - change 0%nat with (0 + 0)%nat at 1. generalize 0%nat at 2. revert a. induction n as [|n IH]; intros a k; [constructor|].
    cbn [seq map]. constructor; [apply IH|]. apply Forall_fmap, Forall_forall. intros j Hj%elem_of_seq. cbn. lia.
  - apply Forall_fmap, Forall_forall. intros j Hj%elem_of_seq. cbn. lia.
Qed.

Lemma scan_ok `{NodeChain} others ts s tip s' : scan others ts s tip = Ret s' -> exists new, grown s s' new.
Proof.
  unfold scan. destr_if; [intros [= <-]; exists []; by apply grown_none|].
  destruct (sc_cursor s) as [c|] eqn:Ec.
  - intros (st & [-> _]%chk_add_inv & E)%bind_Ret_inv. destr_if_in E; [injection E as <-; exists []; by apply grown_none|].
    apply bind_Ret_inv in E as (far & _ & E). destruct (heights_sorted (c + 1) (Z.min (tip - SOLO_DEPTH) far)) as [Hs Hf].
    eapply scan_heights_ok; [exact E | exact Ec | exact Hs |]. eapply Forall_impl; [exact Hf|]. cbn. intros ?. lia.
  - intros [= <-]. exists []. constructor; cbn; rewrite ?app_nil_r; try done; try constructor. by rewrite Ec.
Qed.
End Pass.

(** * Properties *)


(** ** Over all the passes *)

Section Passes.
Context `{World} {cfg : Config}.

(** A pass on whatever the shared state has become, whatever the node answers and whichever tip it is
    given; a restart keeps the cursor and the log, and only those. *)
Definition scan_step (s s' : Scan) : Prop :=
  exists (nc : NodeChain) others x ts tip, scan others ts (passed s x) tip = Ret s'.

Definition log_ok (s : Scan) : Prop :=
  StronglySorted Z.lt (map sr_height (sc_log s)) /\
  match sc_cursor s with None => sc_log s = [] | Some c => Forall (fun e => sr_height e <= c) (sc_log s) end.

Lemma grown_ok s s' new : log_ok s -> grown s s' new ->
  log_ok s' /\ forall e l, e ∈ sc_log s -> l ∈ new -> sr_height e < sr_height l.
Proof.
  intros [HS HC] [L S C E]. destruct (sc_cursor s) as [c|] eqn:Ec.
  - destruct C as (c' & Ec' & Hc & F). rewrite Forall_forall in HC, F.
    assert (Hlt : forall e l, e ∈ sc_log s -> l ∈ new -> sr_height e < sr_height l).
    { intros e l He Hl. specialize (HC _ He). specialize (F _ Hl). lia. }
    split; [|done]. split.
    + rewrite L, map_app. apply StronglySorted_app_2; [|done | done].
      intros a b (x & -> & Hx)%list_elem_of_fmap (y & -> & Hy)%list_elem_of_fmap. by apply Hlt.
    + rewrite Ec', L. apply Forall_app. split; apply Forall_forall; intros e He; [specialize (HC _ He) | specialize (F _ He)]; lia.
  - subst new. rewrite HC in L. cbn in L. split; [|intros e l _ Hl; by apply elem_of_nil in Hl]. split; rewrite L; [constructor|].
    by destruct (sc_cursor s').
Qed.

Lemma scan_steps s s' : rtc scan_step s s' -> log_ok s ->
  log_ok s' /\ exists new, sc_log s' = sc_log s ++ new /\ Forall entry_ok new /\
    forall e l, e ∈ sc_log s -> l ∈ new -> sr_height e < sr_height l.
Proof.
  induction 1 as [s|s s1 s2 (nc & others & x & ts & tip & E) _ IH]; intros OK.
  { split; [done|]. exists []. rewrite app_nil_r. conjs; [done | done |]. intros e l _ Hl. by apply elem_of_nil in Hl. }
  destruct (scan_ok _ _ _ _ _ E) as (n1 & G). destruct (grown_ok (passed s x) s1 n1 OK G) as [OK1 H1].
  destruct (IH OK1) as [OK2 (n2 & L2 & E2 & H2)]. split; [done|]. exists (n1 ++ n2). pose proof (gr_log _ _ _ G) as L1. cbn in L1, H1.
  split; [by rewrite L2, L1, app_assoc|]. split; [apply Forall_app; split; [apply G | done]|].
  intros e l He [Hl|Hl]%elem_of_app; [by apply H1|]. apply H2; [|done]. rewrite L1. apply elem_of_app. by left.
Qed.
End Passes.


(** A pass credits the ledger in memory and moves the cursor's file, but writes nothing of the
    ledger: killed before the next flush, Prime comes back with a ledger from before the pass, and no
    later pass books any of those heights again. The credits the log lists are lost. *)
Theorem solo_credit_lost_to_kill `{World} {cfg : Config} {nc : NodeChain} s ts tip s' :
  log_ok s -> scan (fun _ _ x => x) ts s tip = Ret s' ->
  nd_disk (sh_node (sc_shared s')) = nd_disk (sh_node (sc_shared s)) /\
  forall reopened s'', rtc scan_step (passed s' reopened) s'' ->
    exists later, sc_log s'' = sc_log s' ++ later /\ forall e l, e ∈ sc_log s' -> l ∈ later -> sr_height e < sr_height l.
Proof.
  intros OK E. split.
  - assert (Hone : forall s h s' go, scan_one (fun _ _ x => x) ts s h = Ret (s', go) ->
      nd_disk (sh_node (sc_shared s')) = nd_disk (sh_node (sc_shared s))).
    { clear. intros s0 h s1 go. unfold scan_one. destruct (block_hash h); [|by intros [= <- _]]. destr_if; [by intros [= <- _]|].
      destruct (coinbase_txid _); [|by intros [= <- _]]. destruct (coinbase_tx _ _); [|by intros [= <- _]].
      intros E. apply bind_Ret_inv in E as (sb & E & E'). injection E' as <- _. destr_if_in E; [|by injection E as <-]. bools.
      by apply book_block_log in E as (e & _ & _ & _ & _ & D). }
    assert (Hall : forall hs s s', scan_heights (fun _ _ x => x) ts s hs = Ret s' ->
      nd_disk (sh_node (sc_shared s')) = nd_disk (sh_node (sc_shared s))).
    { clear -Hone. induction hs as [|h hs IH]; intros s s'; cbn [scan_heights]; [by intros [= <-]|].
      intros E. apply bind_Ret_inv in E as ([s3 go] & E1 & E). apply Hone in E1. rewrite <- E1.
      destruct go; [by apply IH | by injection E as <-]. }
    revert E. unfold scan. destr_if; [by intros [= <-]|]. destruct (sc_cursor s); [|by intros [= <-]].
    intros (st & _ & E)%bind_Ret_inv. destr_if_in E; [by injection E as <-|].
    apply bind_Ret_inv in E as (far & _ & E). by apply Hall in E.
  - intros x s'' Hr. destruct (scan_ok _ _ _ _ _ E) as (new & G). destruct (grown_ok s s' new OK G) as [OK' _].
    destruct (scan_steps _ _ Hr OK') as [_ (later & L & _ & Hl)]. by exists later.
Qed.

(** * Witnesses *)

(** A chain whose block 5 is a solo block paying the pool 1000 sats of 2000. *)
Definition toy_solo_tx (solo : bool) : SoloTx := {|
  sx_script_sig := Some ([3; 5; 0; 0] ++ (if solo then str_bytes "/Lazarus/solo/" else []));
  sx_vout := Some [{| so_value := Some (str_bytes "0.00001"); so_hex := Some "76a9"%string |};
                   {| so_value := Some (str_bytes "0.00001"); so_hex := Some (bytes_str demo_pool) |}] |}.
Definition toy_chain : NodeChain := {|
  block_hash := fun h => Some (if h =? 5 then "five"%string else "other"%string);
  coinbase_txid := fun hash => Some hash;
  coinbase_tx := fun txid _ => Some (toy_solo_tx (bool_decide (txid = "five"%string)));
  float_sats := fun _ => 1000 |}.

(** The window of the demonstrations, with a miner of DATUM work and an address. *)
Definition solo_window : Window := credit_to demo_window2 "bc1qdemo" 30 8 1002 SOURCE_DATUM.
Lemma solo_window_ok : window_ok solo_window.
Proof.
  apply reachable_ok, credit_to_reachable; [|room | lia]. apply credit_to_reachable; [|room | lia].
  apply credit_to_reachable; [|room | lia]. apply rtc_once. apply step_set_target. lia.
Qed.
Definition solo_start : Scan := {|
  sc_shared := with_node (demo_shared seen_new)
    {| nd_ledger := touched (nd_ledger (sh_node (demo_shared seen_new))) solo_window []; nd_blocks := []; nd_disk := ∅ |} None;
  sc_cursor := Some 4; sc_log := [] |}.
Definition solo_facts : CoinbaseFacts := {| tagged := true; value_sats := 2000; pool_sats := 1000 |}.


Definition solo_pass := @scan toy_world demo_cfg toy_chain (fun _ _ x => x) 77 solo_start 12.
Definition solo_done : Scan := match solo_pass with Ret s => s | Panic => solo_start end.
Lemma solo_pass_runs : solo_pass = Ret solo_done /\ map sr_height (sc_log solo_done) = [5] /\ sc_cursor solo_done = Some 6.
Proof. vm_compute. done. Qed.


Lemma solo_credit_lost_to_kill_witness :
  map sr_height (sc_log solo_done) = [5] /\
  nd_disk (sh_node (sc_shared solo_done)) = nd_disk (sh_node (sc_shared solo_start)).
Proof.
  split; [exact (proj1 (proj2 solo_pass_runs))|].
  exact (proj1 (@solo_credit_lost_to_kill toy_world demo_cfg toy_chain solo_start 77 12 solo_done
    (conj (SSorted_nil _) (Forall_nil_2 _)) (proj1 solo_pass_runs))).
Defined.
