(* ===== verification/Settings.v ===== *)
(** The settings of a Prime ([prime/primed/src/config.rs]): the keys of [prime.toml], what a file may
    say ([Config::load]), what is said of old or doubtful keys, and the values derived from them.

    Reading the file and its TOML are outside: [load] starts from the parsed keys, defaults filled
    in. The listeners, the node's address and credentials, and the texts that are only shown are
    left out of the record. A string is compared and lowered by its UTF-8 bytes. *)

From S2P Require Import Prelude Bytes Text Tides Split Grace Handshake State Address ClassBudget.
Open Scope Z_scope.

Module Settings.

Record Settings := {
  payout_address : string;
  coinbase_tag : string;
  prime_id : Z;
  window : Z;
  window_min_work : Z;
  min_payout : Z;
  stale_after_days : Z;
  stale_min_payout : Z;
  stale_coinbase : bool;
  stale_per_block : Z;
  fee_bps : Z;
  empty_solo_fee_bps : Z;
  stock_full_pool_only : string;
  held_split_builds : list string;
  class_budget : bool;
  class_budget_fee_wallet_reserves : bool;
  class_budget_carry_ceiling : Z;
  coinbaser_delay_ms : Z;
  stratum_fee_bps : Z;
  datum_rebate_bps : Z;
  stratum_grace_hours : Z;
  stratum_grace_datum_hours : Z;
  stratum_grace_fee_bps : option Z;
  stratum_grace_rebate_bps : Z;
  stratum_grace_rearm_hours : Z;
  stratum_grace_epoch : Z;
  solo_rebate_bps : Z;
  solo_coinbase_tag : string;
  house_gateways : list string;
  house_loopback : bool;
  min_diff : Z;
  split_tolerance : Z;
  network : string;
  uncommitted_pot : Z;
  stale_grace_secs : Z;
  max_connections : Z;
  max_connections_per_ip : Z;
  quarantine : QuarantineConfig;
  stratum_front_gateways : list string;
  stratum_front_ips : list IpAddr;
  session_coinbase_budget : Z;
  require_split_gateway : bool;
  activation_height : option Z;
  verify_shares : option string;
  key_file : option string;
  class_budget_unreserved : bool
}.

(** * Derived values *)

Definition stale_after_secs (c : Settings) : Z := sat_mul u32_max (stale_after_days c) 86400.

Definition grace (c : Settings) : GraceParams :=
  let s := sat_mul u32_max (stratum_grace_hours c) 3600 in {|
    Grace.secs := s;
    datum_secs := Z.max (sat_mul u32_max (stratum_grace_datum_hours c) 3600) s;
    rearm_secs := sat_mul u32_max (stratum_grace_rearm_hours c) 3600;
    epoch := stratum_grace_epoch c |}.

(** [trailing_zeros] of a number that is not zero. *)
Fixpoint trailing_zeros_pos (p : positive) : Z :=
  match p with xO p => 1 + trailing_zeros_pos p | _ => 0 end.
Definition trailing_zeros (n : Z) : Z := match n with Zpos p => trailing_zeros_pos p | _ => 64 end.
Definition min_pot (c : Settings) : Z := trunc u8_max (trailing_zeros (min_diff c)).

(** [is_power_of_two]. *)
Definition is_power_of_two (n : Z) : bool := (0 <? n) && (Z.land n (n - 1) =? 0).

(** * Defaults *)

Definition d_min_payout : Z := 546.
Definition d_stale_after_days : Z := 7.
Definition d_stale_min_payout : Z := 10000.
Definition d_session_coinbase_budget : Z := Z.shiftl 4 20.
Definition d_uncommitted_pot : Z := 20.
Definition d_class_budget_carry_ceiling : Z := 500000000.
Definition quarantine_default : QuarantineConfig := {|
  quarantine_minutes := 60; quarantine_max_hours := 24; quarantine_forget_hours := 168; blocked_gateways := [] |}.

(** The keys of a file that names a payout address and nothing else. *)
Definition defaults (payout : string) : Settings := {|
  payout_address := payout; coinbase_tag := "Lazarus"; prime_id := 1; window := 8; window_min_work := 0;
  min_payout := d_min_payout; stale_after_days := d_stale_after_days; stale_min_payout := d_stale_min_payout;
  stale_coinbase := true; stale_per_block := 25; fee_bps := 0; empty_solo_fee_bps := 750;
  stock_full_pool_only := "owe"; held_split_builds := []; class_budget := false;
  class_budget_fee_wallet_reserves := false; class_budget_carry_ceiling := d_class_budget_carry_ceiling;
  coinbaser_delay_ms := 0; stratum_fee_bps := 0; datum_rebate_bps := 0; stratum_grace_hours := 0;
  stratum_grace_datum_hours := 0; stratum_grace_fee_bps := None; stratum_grace_rebate_bps := 0;
  stratum_grace_rearm_hours := 0; stratum_grace_epoch := 0; solo_rebate_bps := 0; solo_coinbase_tag := "Lazarus/solo";
  house_gateways := []; house_loopback := true; min_diff := 1; split_tolerance := 2; network := "mainnet";
  uncommitted_pot := d_uncommitted_pot; stale_grace_secs := 30; max_connections := 256; max_connections_per_ip := 8;
  quarantine := quarantine_default; stratum_front_gateways := []; stratum_front_ips := [];
  session_coinbase_budget := d_session_coinbase_budget; require_split_gateway := false; activation_height := None;
  verify_shares := None; key_file := None; class_budget_unreserved := false |}.

(** * Loading *)

Inductive LoadError :=
| MinDiff | PrimeId | NoWindow | FeeBps | StaleMinPayout | StaleAfterDays | StratumFeeBps | DatumRebateBps | SoloRebateBps
| GraceHours | GraceFeeUnset | GraceFeeBps | GraceRebateBps | GraceDatumHours | GraceOff | SoloTag | FrontGateway (entry : string)
| UncommittedPot | CoinbaseTag | Connections | CoinbaseBudget | EmptySoloFee | StockPoolOnly (other : string).

Definition refuse_if (b : bool) (e : LoadError) : result LoadError () := if b then Err e else Ok tt.
Definition bytes_of (s : string) : nat := length (str_bytes s).
Definition trim_lower (s : string) : string := bytes_str (to_ascii_lowercase (trim_str (str_bytes s))).

(** The grace keys, against the stratum fee as it stands. *)
Definition check_grace (c : Settings) (stratum_fee : Z) : result LoadError () :=
  if grace_enabled (grace c) then
    match stratum_grace_fee_bps c with
    | None => Err GraceFeeUnset
    | Some fee =>
        _ ← refuse_if (stratum_fee <? fee) GraceFeeBps;
        _ ← refuse_if (fee <? stratum_grace_rebate_bps c) GraceRebateBps;
        refuse_if (negb (stratum_grace_datum_hours c =? 0) && (stratum_grace_datum_hours c <? stratum_grace_hours c)) GraceDatumHours
    end
  else refuse_if (bool_decide (is_Some (stratum_grace_fee_bps c)) || negb (stratum_grace_rebate_bps c =? 0)
                  || negb (stratum_grace_rearm_hours c =? 0) || negb (stratum_grace_epoch c =? 0)) GraceOff.

Definition front_entry (g : string) : result LoadError string :=
  let g := trim_lower g in
  if (bytes_of g <? 16)%nat || negb (forallb is_ascii_hexdigit (str_bytes g)) then Err (FrontGateway g) else Ok g.
Fixpoint front_entries (l : list string) : result LoadError (list string) :=
  match l with [] => Ok [] | g :: l' => g ← front_entry g; l' ← front_entries l'; Ok (g :: l') end.

(** The key file: a directory left by the previous Prime keeps its identity. *)
Definition OUR_KEY : string := "prime.key".
Definition LEGACY_KEY : string := "lazarus-prime.key".
Definition choose_key (exists_ : string -> bool) (k : option string) : string :=
  match k with Some k => k | None => if negb (exists_ OUR_KEY) && exists_ LEGACY_KEY then LEGACY_KEY else OUR_KEY end.

(** [Config::load], from the parsed keys and which key files the data directory has. *)
Definition load (exists_ : string -> bool) (c : Settings) : result LoadError Settings :=
  _ ← refuse_if (negb (is_power_of_two (min_diff c))) MinDiff;
  _ ← refuse_if (prime_id c =? 0) PrimeId;
  _ ← refuse_if (window c =? 0) NoWindow;
  _ ← refuse_if (10000 <? fee_bps c) FeeBps;
  _ ← refuse_if (stale_min_payout c <? 546) StaleMinPayout;
  _ ← refuse_if (3650 <? stale_after_days c) StaleAfterDays;
  let stratum_fee := if stratum_fee_bps c =? 0 then fee_bps c else stratum_fee_bps c in
  _ ← refuse_if (10000 <? stratum_fee) StratumFeeBps;
  _ ← refuse_if (stratum_fee <? datum_rebate_bps c) DatumRebateBps;
  _ ← refuse_if (10000 <? solo_rebate_bps c) SoloRebateBps;
  _ ← refuse_if ((8760 <? stratum_grace_hours c) || (8760 <? stratum_grace_datum_hours c) || (87600 <? stratum_grace_rearm_hours c)) GraceHours;
  _ ← check_grace c stratum_fee;
  _ ← refuse_if ((bytes_of (solo_coinbase_tag c) =? 0)%nat || (32 <? bytes_of (solo_coinbase_tag c))%nat) SoloTag;
  fronts ← front_entries (stratum_front_gateways c);
  _ ← refuse_if (63 <? uncommitted_pot c) UncommittedPot;
  _ ← refuse_if (32 <? bytes_of (coinbase_tag c))%nat CoinbaseTag;
  _ ← refuse_if ((max_connections c =? 0) || (max_connections_per_ip c =? 0)) Connections;
  _ ← refuse_if (session_coinbase_budget c <? 64 * 1024) CoinbaseBudget;
  _ ← refuse_if (10000 <? empty_solo_fee_bps c) EmptySoloFee;
  _ ← refuse_if (negb (bool_decide (stock_full_pool_only c = "owe"%string) || bool_decide (stock_full_pool_only c = "gateway-solo"%string)))
        (StockPoolOnly (stock_full_pool_only c));
  let unreserved := class_budget c && negb (class_budget_fee_wallet_reserves c) in
  Ok {| payout_address := payout_address c; coinbase_tag := coinbase_tag c; prime_id := prime_id c; window := window c;
        window_min_work := window_min_work c; min_payout := min_payout c; stale_after_days := stale_after_days c;
        stale_min_payout := stale_min_payout c; stale_coinbase := stale_coinbase c; stale_per_block := stale_per_block c;
        fee_bps := fee_bps c; empty_solo_fee_bps := empty_solo_fee_bps c; stock_full_pool_only := stock_full_pool_only c;
        held_split_builds := map lower (held_split_builds c);
        class_budget := if unreserved then false else class_budget c;
        class_budget_fee_wallet_reserves := class_budget_fee_wallet_reserves c;
        class_budget_carry_ceiling := class_budget_carry_ceiling c; coinbaser_delay_ms := coinbaser_delay_ms c;
        stratum_fee_bps := stratum_fee; datum_rebate_bps := datum_rebate_bps c;
        stratum_grace_hours := stratum_grace_hours c; stratum_grace_datum_hours := stratum_grace_datum_hours c;
        stratum_grace_fee_bps := stratum_grace_fee_bps c; stratum_grace_rebate_bps := stratum_grace_rebate_bps c;
        stratum_grace_rearm_hours := stratum_grace_rearm_hours c; stratum_grace_epoch := stratum_grace_epoch c;
        solo_rebate_bps := solo_rebate_bps c; solo_coinbase_tag := solo_coinbase_tag c;
        house_gateways := map lower (house_gateways c); house_loopback := house_loopback c; min_diff := min_diff c;
        split_tolerance := split_tolerance c; network := network c; uncommitted_pot := uncommitted_pot c;
        stale_grace_secs := stale_grace_secs c; max_connections := max_connections c;
        max_connections_per_ip := max_connections_per_ip c; quarantine := quarantine c; stratum_front_gateways := fronts;
        stratum_front_ips := stratum_front_ips c; session_coinbase_budget := session_coinbase_budget c;
        require_split_gateway := require_split_gateway c; activation_height := activation_height c;
        verify_shares := verify_shares c; key_file := Some (choose_key exists_ (key_file c));
        class_budget_unreserved := if unreserved then true else class_budget_unreserved c |}.

(** * What is said at start-up *)

Inductive Note :=
| HouseMatchesNothing (entry : string) | HousePrefix (entry : string) | BuildMatchesNothing (entry : string)
| BudgetUnreserved | ActivationIgnored | VerifyIgnored (mode : string).

Definition house_note (g : string) : list Note :=
  if negb (forallb is_ascii_hexdigit (str_bytes g)) || (64 <? bytes_of g)%nat then [HouseMatchesNothing g]
  else if (bytes_of g <? 64)%nat then [HousePrefix g] else [].
Definition build_note (b : string) : list Note :=
  if git_hash_prefix (str_bytes b) then [] else [BuildMatchesNothing b].

Definition legacy_notes (c : Settings) : list Note :=
  concat (map house_note (house_gateways c)) ++ concat (map build_note (held_split_builds c))
  ++ (if class_budget_unreserved c then [BudgetUnreserved] else [])
  ++ (match activation_height c with Some _ => [ActivationIgnored] | None => [] end)
  ++ (match verify_shares c with Some m => [VerifyIgnored m] | None => [] end).

(** * Split parameters *)

(** The parameters [run] makes of the settings ([prime/primed/src/main.rs]). *)
Definition split_params (c : Settings) : SplitParams := {|
  Split.fee_bps := fee_bps c;
  Split.stratum_fee_bps := stratum_fee_bps c;
  Split.datum_rebate_bps := datum_rebate_bps c;
  grace_fee_bps := default (stratum_fee_bps c) (stratum_grace_fee_bps c);
  grace_rebate_bps := if grace_enabled (grace c) then stratum_grace_rebate_bps c else datum_rebate_bps c;
  Split.min_payout := min_payout c;
  max_outputs := 511;
  output_budget_bytes := 14000 - 9 - 64;
  stale_after := if stale_coinbase c then stale_after_secs c else 0;
  Split.stale_min_payout := stale_min_payout c;
  stale_max_outputs := stale_per_block c |}.
End Settings.
