(* ===== verification/SettingsProps.v ===== *)
(** The properties of a Prime's settings: what a file that loads promises the code that reads it. *)

From S2P Require Import Prelude Bytes Text Tides Split SplitFacts Window WindowFacts BalanceFacts MinersFacts Grace Handshake Cursor State Address ClassBudget Settings.
From S2P Require Import SplitProps WindowProps.
Import Settings.
Open Scope Z_scope.

(** * Strings lowered and trimmed *)

Lemma lower_bytes l : is_bytes l -> is_bytes (to_ascii_lowercase l).
Proof.
  unfold to_ascii_lowercase, is_bytes. intros H. apply Forall_fmap. eapply Forall_impl; [exact H|]. intros b Hb.
  unfold is_byte, in_range, between in *. cbn. destr_if; bools; lia.
Qed.

Lemma trim_start_Forall (P : Z -> Prop) n : forall l, (length l <= n)%nat -> Forall P l -> Forall P (trim_start l).
Proof.
  induction n as [|n IH]; intros l Hl Hf; (destruct l as [|a l]; [done|]); [cbn in Hl; lia|]. cbn [length] in Hl.
  pose proof Hf as Hf0. apply Forall_cons in Hf as [_ Hf]. cbn [trim_start]. destr_if; [apply IH; [lia | done]|].
  destruct l as [|b l]; [done|]. apply Forall_cons in Hf as [_ Hf]. cbn [length] in Hl.
  destr_if; [apply IH; [lia | done]|]. destruct l as [|c l]; [done|]. apply Forall_cons in Hf as [_ Hf]. cbn [length] in Hl.
  destr_if; [apply IH; [lia | done] | done].
Qed.
Lemma trim_back_Forall (P : Z -> Prop) n : forall l, (length l <= n)%nat -> Forall P l -> Forall P (trim_back l).
Proof.
  induction n as [|n IH]; intros l Hl Hf; (destruct l as [|a l]; [done|]); [cbn in Hl; lia|]. cbn [length] in Hl.
  pose proof Hf as Hf0. apply Forall_cons in Hf as [_ Hf]. cbn [trim_back]. destr_if; [apply IH; [lia | done]|].
  destruct l as [|b l]; [done|]. apply Forall_cons in Hf as [_ Hf]. cbn [length] in Hl.
  destr_if; [apply IH; [lia | done]|]. destruct l as [|c l]; [done|]. apply Forall_cons in Hf as [_ Hf]. cbn [length] in Hl.
  destr_if; [apply IH; [lia | done] | done].
Qed.
Lemma trim_bytes l : is_bytes l -> is_bytes (trim_str l).
Proof.
  intros H. unfold trim_str, trim_end, is_bytes. apply Forall_rev. eapply trim_back_Forall; [done|]. apply Forall_rev.
  by eapply trim_start_Forall.
Qed.

Lemma lower_bytes_of s : str_bytes (lower s) = to_ascii_lowercase (str_bytes s).
Proof. unfold lower. apply str_bytes_back, lower_bytes, str_bytes_is_bytes. Qed.
Lemma lower_twice s : lower (lower s) = lower s.
Proof. apply str_bytes_inj. by rewrite !lower_bytes_of, lower_idem. Qed.
Lemma trim_lower_bytes s : str_bytes (trim_lower s) = to_ascii_lowercase (trim_str (str_bytes s)).
Proof. unfold trim_lower. apply str_bytes_back, lower_bytes, trim_bytes, str_bytes_is_bytes. Qed.

Lemma hexdigit_graphic b : is_ascii_hexdigit b = true -> is_ascii_graphic b = true.
Proof. unfold is_ascii_hexdigit, is_ascii_digit, is_ascii_graphic, between. intros H. lia. Qed.

Lemma trim_lower_twice s : forallb is_ascii_hexdigit (str_bytes (trim_lower s)) = true -> trim_lower (trim_lower s) = trim_lower s.
Proof.
  intros Hx. apply str_bytes_inj. rewrite (trim_lower_bytes (trim_lower s)), trim_str_graphic.
  - by rewrite trim_lower_bytes, lower_idem.
  - apply Forall_forall. intros b Hb. apply hexdigit_graphic. rewrite forallb_forall in Hx. by apply Hx, list_elem_of_In.
Qed.

Lemma front_entries_again l l' : front_entries l = Ok l' -> front_entries l' = Ok l'.
Proof.
  revert l'. induction l as [|g l IH]; intros l'; cbn [front_entries]; [by intros [= <-]|].
  intros (g' & Eg & E)%bind_Ok_inv. apply bind_Ok_inv in E as (l1 & El & [= <-]). cbn [front_entries]. rewrite (IH _ El).
  unfold front_entry in *. destr_if_in Eg; [done|]. injection Eg as <-. apply orb_false_iff in Hif as [Hn Hx].
  rewrite trim_lower_twice by by apply negb_false_iff in Hx. rewrite Hn, Hx. done.
Qed.

(** * What a file that loads says *)

Lemma refused_if_inv {A} b e (k : () -> result LoadError A) r : (refuse_if b e ≫= k) = Ok r -> b = false /\ k tt = Ok r.
Proof. unfold refuse_if. destruct b; [done|]. by intros H. Qed.

Lemma refuse_false {A} b e (k : () -> result LoadError A) r : b = false -> k tt = r -> (refuse_if b e ≫= k) = r.
Proof. by intros ->. Qed.

(** The bounds a loaded file is within. *)
Record loaded_ok (c : Settings) : Prop := {
  lo_min_diff : is_power_of_two (min_diff c) = true;
  lo_fee : fee_bps c <= 10000;
  lo_stratum : stratum_fee_bps c <= 10000 /\ (stratum_fee_bps c = 0 -> fee_bps c = 0);
  lo_rebate : datum_rebate_bps c <= stratum_fee_bps c;
  lo_solo : solo_rebate_bps c <= 10000;
  lo_days : stale_after_days c <= 3650;
  lo_stale_min : 546 <= stale_min_payout c;
  lo_hours : stratum_grace_hours c <= 8760 /\ stratum_grace_datum_hours c <= 8760 /\ stratum_grace_rearm_hours c <= 87600;
  lo_grace : check_grace c (stratum_fee_bps c) = Ok tt;
  lo_budget : class_budget c = true -> class_budget_fee_wallet_reserves c = true
}.

Lemma load_ok ex raw c : load ex raw = Ok c -> loaded_ok c.
Proof.
  unfold load. intros H. repeat (apply refused_if_inv in H as [? H]).
  apply bind_Ok_inv in H as (u & Hg & H). destruct u.
  apply refused_if_inv in H as [? H]. apply bind_Ok_inv in H as (fr & Hf & H). repeat (apply refused_if_inv in H as [? H]).
  injection H as <-. bools. constructor; cbn; try lia; try done.
  - destruct (Z.eqb_spec (stratum_fee_bps raw) 0); lia.
  - destruct (class_budget raw), (class_budget_fee_wallet_reserves raw); done.
Qed.

(** A file that loads is settled by it: loaded again, over whatever key files, it comes out the
    same. The names are in lower case, the stratum fee is written out, the key file is chosen, and a
    class budget its fee wallet does not reserve for is off. *)
Theorem load_settles ex ex' raw c : load ex raw = Ok c -> load ex' c = Ok c.
Proof.
  unfold load at 1. intros H. repeat (apply refused_if_inv in H as [? H]).
  apply bind_Ok_inv in H as (u & Hg & H). destruct u.
  apply refused_if_inv in H as [? H]. apply bind_Ok_inv in H as (fr & Hf & H). repeat (apply refused_if_inv in H as [? H]).
  apply front_entries_again in Hf. assert (Hl : forall l, map lower (map lower l) = map lower l).
  { intros l. rewrite map_map. apply map_ext. intros s. apply lower_twice. }
  assert (Hs : forall a b, (if (if a =? 0 then b else a) =? 0 then b else if a =? 0 then b else a) = (if a =? 0 then b else a)).
  { intros a b. destruct (Z.eqb_spec a 0); [by destr_if; bools|]. by rewrite (proj2 (Z.eqb_neq a 0)). }
  injection H as <-. unfold load.
  cbn [min_diff prime_id window fee_bps stale_min_payout stale_after_days stratum_fee_bps datum_rebate_bps solo_rebate_bps
    stratum_grace_hours stratum_grace_datum_hours stratum_grace_rearm_hours solo_coinbase_tag stratum_front_gateways
    uncommitted_pot coinbase_tag max_connections max_connections_per_ip session_coinbase_budget empty_solo_fee_bps
    stock_full_pool_only class_budget class_budget_fee_wallet_reserves held_split_builds house_gateways key_file].
  rewrite Hs. repeat (apply refuse_false; [assumption|]).
  assert (check_grace _ (if stratum_fee_bps raw =? 0 then fee_bps raw else stratum_fee_bps raw) = Ok tt) as -> by exact Hg. mstep.
  apply refuse_false; [assumption|]. rewrite Hf. mstep. repeat (apply refuse_false; [assumption|]).
  rewrite !Hl. destruct (class_budget raw), (class_budget_fee_wallet_reserves raw); cbn; done.
Qed.

(** * What a split makes of it *)

(** The keys are unsigned in the file. *)
Definition unsigned (c : Settings) : Prop :=
  0 <= fee_bps c /\ 0 <= stratum_fee_bps c /\ 0 <= datum_rebate_bps c /\ 0 <= stratum_grace_rebate_bps c /\
  0 <= default 0 (stratum_grace_fee_bps c) /\ 0 <= stale_after_days c /\ 0 <= stratum_grace_hours c /\
  0 <= stratum_grace_datum_hours c /\ 0 <= stratum_grace_rearm_hours c.

(** The rates a split works with when no clamp of its own is reached. *)
Definition rates_of (c : Settings) : Rates := {|
  stratum_bps := stratum_fee_bps c;
  rebate_bps := datum_rebate_bps c;
  grace_bps := default (stratum_fee_bps c) (stratum_grace_fee_bps c);
  grace_reb_bps := if grace_enabled (grace c) then stratum_grace_rebate_bps c else datum_rebate_bps c |}.

Lemma loaded_rates c : loaded_ok c -> unsigned c -> rates (split_params c) = rates_of c /\
  0 <= default (stratum_fee_bps c) (stratum_grace_fee_bps c) /\
  0 <= (if grace_enabled (grace c) then stratum_grace_rebate_bps c else datum_rebate_bps c).
Proof.
  intros [_ Hf [Hs Hz] Hr _ _ _ _ Hg _] (U1 & U2 & U3 & U4 & U5 & _). unfold check_grace in Hg.
  unfold rates, rates_of, split_params. cbn [Split.stratum_fee_bps Split.fee_bps Split.datum_rebate_bps grace_fee_bps grace_rebate_bps].
  assert (Hst : (if stratum_fee_bps c =? 0 then fee_bps c else stratum_fee_bps c) = stratum_fee_bps c).
  { destruct (Z.eqb_spec (stratum_fee_bps c) 0); lia. }
  rewrite Hst. destruct (grace_enabled (grace c)).
  - destruct (stratum_grace_fee_bps c) as [fee|]; [|done]. change (default 0 (Some fee)) with fee in U5.
    change (default (stratum_fee_bps c) (Some fee)) with fee.
    apply refused_if_inv in Hg as [? Hg]. apply refused_if_inv in Hg as [? Hg]. bools.
    split; [f_equal; lia | split; [exact U5 | exact U4]].
  - unfold refuse_if in Hg. destr_if_in Hg; [done|]. apply orb_false_iff in Hif as [Hif _]. apply orb_false_iff in Hif as [Hif _].
    apply orb_false_iff in Hif as [Hif _]. apply bool_decide_eq_false in Hif.
    destruct (stratum_grace_fee_bps c); [by destruct Hif; eexists|].
    change (default (stratum_fee_bps c) None) with (stratum_fee_bps c).
    split; [f_equal; lia | split; lia].
Qed.


(** * Derived values *)

Lemma land_double m k : Z.land (2 * m) (2 * k + 1) = 2 * Z.land m k.
Proof.
  apply Z.bits_inj'. intros i Hi. rewrite Z.land_spec. destruct (Z.eq_dec i 0) as [->|Hn].
  - by rewrite !Z.testbit_even_0.
  - replace i with (Z.succ (i - 1)) by lia. rewrite !Z.testbit_even_succ, Z.testbit_odd_succ by lia. by rewrite Z.land_spec.
Qed.

Lemma power_of_two_pos p : Z.land (Z.pos p) (Z.pos p - 1) = 0 -> Z.pos p = 2 ^ trailing_zeros_pos p /\ 0 <= trailing_zeros_pos p.
Proof.
  induction p as [p _|p IH|]; intros H; cbn [trailing_zeros_pos].
  - exfalso. rewrite Pos2Z.inj_xI in H. replace (2 * Z.pos p + 1 - 1) with (2 * Z.pos p) in H by lia.
    rewrite Z.land_comm, land_double, Z.land_diag in H. lia.
  - rewrite Pos2Z.inj_xO in *. replace (2 * Z.pos p - 1) with (2 * (Z.pos p - 1) + 1) in H by lia.
    rewrite land_double in H. destruct IH as [IH1 IH2]; [lia|]. split; [|lia]. rewrite IH1 at 1.
    by rewrite Z.add_1_l, Z.pow_succ_r.
  - done.
Qed.

(** The values derived from settings that loaded are exact, no multiplication having saturated
    and nothing cut off: the floor of the difficulty is the power of two the pot names, and the days
    and hours are their seconds. *)
Theorem derived_values_exact ex raw c :
  load ex raw = Ok c -> unsigned c -> min_diff c <= u64_max ->
  min_diff c = 2 ^ min_pot c /\ 0 <= min_pot c <= 63 /\
  stale_after_secs c = stale_after_days c * 86400 /\
  Grace.secs (grace c) = stratum_grace_hours c * 3600 /\
  datum_secs (grace c) = Z.max (stratum_grace_datum_hours c) (stratum_grace_hours c) * 3600 /\
  rearm_secs (grace c) = stratum_grace_rearm_hours c * 3600.
Proof.
  intros L%load_ok (_ & _ & _ & _ & _ & U1 & U2 & U3 & U4) Hm.
  destruct L as [Hp _ _ _ _ Hd _ (H1 & H2 & H3) _ _].
  assert (Hpow : min_diff c = 2 ^ min_pot c /\ 0 <= min_pot c <= 63).
  { unfold is_power_of_two in Hp. bools. unfold min_pot, trailing_zeros. destruct (min_diff c) as [|p|p]; [lia | | lia].
    destruct (power_of_two_pos p) as [E1 E2]; [done|].
    assert (trailing_zeros_pos p <= 63).
    { destruct (Z.le_gt_cases (trailing_zeros_pos p) 63); [done|]. exfalso.
      assert (2 ^ 64 <= 2 ^ trailing_zeros_pos p) by (apply Z.pow_le_mono_r; lia). lia. }
    rewrite trunc_small by (unfold in_range; lia). split; [done | lia]. }
  destruct Hpow as [E1 E2]. split; [done|]. split; [done|].
  unfold stale_after_secs, grace, sat_mul. cbn [Grace.secs datum_secs rearm_secs]. lia.
Qed.

(** * What is said at start-up *)

Lemma prefix_bytes s t : String.prefix s t = true -> exists u, str_bytes t = str_bytes s ++ u.
Proof.
  revert t. induction s as [|a s IH]; intros t; [by exists (str_bytes t)|]. destruct t as [|b t]; [done|]. cbn [String.prefix].
  destruct (Ascii.ascii_dec a b) as [->|]; [|done]. intros [u Hu]%IH. exists u. unfold str_bytes in *. cbn. by rewrite Hu.
Qed.

Lemma forallb_app_l {A} (f : A -> bool) l1 l2 : forallb f (l1 ++ l2) = true -> forallb f l1 = true.
Proof. rewrite forallb_app. by intros [? _]%andb_true_iff. Qed.

Lemma lower_hex l : forallb is_ascii_hexdigit l = true -> forallb is_ascii_hexdigit (to_ascii_lowercase l) = true.
Proof.
  intros H. apply forallb_forall. intros b (x & <- & Hx)%in_map_iff. rewrite forallb_forall in H. specialize (H _ Hx).
  unfold is_ascii_hexdigit, is_ascii_digit, between in *. destr_if; bools; lia.
Qed.

Lemma note_house c g : HouseMatchesNothing g ∈ legacy_notes c <-> g ∈ house_gateways c /\ HouseMatchesNothing g ∈ house_note g.
Proof.
  unfold legacy_notes. split.
  - intros H. apply elem_of_app in H as [H|H].
    + apply list_elem_of_In, in_concat in H as (l & (x & <- & Hx)%in_map_iff & Hl). apply list_elem_of_In in Hx, Hl.
      assert (x = g) as ->; [|done]. unfold house_note in Hl. repeat destr_if_in Hl;
        [apply list_elem_of_singleton in Hl; by injection Hl | apply list_elem_of_singleton in Hl; done | by apply elem_of_nil in Hl].
    + exfalso. apply elem_of_app in H as [H|H].
      * apply list_elem_of_In, in_concat in H as (l & (x & <- & Hx)%in_map_iff & Hl). apply list_elem_of_In in Hl.
        unfold build_note in Hl. destr_if_in Hl; [by apply elem_of_nil in Hl | by apply list_elem_of_singleton in Hl].
      * destruct (class_budget_unreserved c), (activation_height c), (verify_shares c); set_solver.
  - intros [Hg Hn]. apply elem_of_app. left. apply list_elem_of_In, in_concat. exists (house_note g).
    split; [apply in_map_iff; exists g; split; [done | by apply list_elem_of_In] | by apply list_elem_of_In].
Qed.

Lemma note_build c b : BuildMatchesNothing b ∈ legacy_notes c -> git_hash_prefix (str_bytes b) = false.
Proof.
  unfold legacy_notes. rewrite !elem_of_app. intros [H|[H|H]].
  - apply list_elem_of_In, in_concat in H as (l & (x & <- & _)%in_map_iff & Hl). apply list_elem_of_In in Hl.
    unfold house_note in Hl. repeat destr_if_in Hl; try (by apply elem_of_nil in Hl); by apply list_elem_of_singleton in Hl.
  - apply list_elem_of_In, in_concat in H as (l & (x & <- & _)%in_map_iff & Hl). apply list_elem_of_In in Hl.
    unfold build_note in Hl. destr_if_in Hl; [by apply elem_of_nil in Hl|]. apply list_elem_of_singleton in Hl. by injection Hl as ->.
  - exfalso. destruct (class_budget_unreserved c), (activation_height c), (verify_shares c); set_solver.
Qed.

Lemma no_house_note g : HouseMatchesNothing g ∉ house_note g -> HousePrefix g ∉ house_note g ->
  forallb is_ascii_hexdigit (str_bytes g) = true /\ bytes_of g = 64%nat.
Proof.
  unfold house_note. intros H1 H2. repeat destr_if; try (exfalso; set_solver). apply orb_false_iff in Hif as [Hx Hl].
  split; [by apply negb_false_iff|]. apply Nat.ltb_ge in Hl, Hif0. lia.
Qed.

(** What is said of the entries at start-up is true of every gateway. With a key of 64 hex
    digits: a house-gateways entry said to match nothing is no prefix of any key, and one nothing is
    said of is the whole of the only key it matches; a held-split-builds entry said to match nothing
    holds no build. *)
Theorem notes_are_true ex raw c key :
  load ex raw = Ok c -> bytes_of key = 64%nat -> forallb is_ascii_hexdigit (str_bytes key) = true ->
  (forall g, HouseMatchesNothing g ∈ legacy_notes c -> String.prefix g (lower key) = false) /\
  (forall g, g ∈ house_gateways c -> HouseMatchesNothing g ∉ house_note g -> HousePrefix g ∉ house_note g ->
     String.prefix g (lower key) = true -> g = lower key) /\
  (forall b ua, BuildMatchesNothing b ∈ legacy_notes c ->
     held_split_build (map str_bytes (held_split_builds c)) ua <> Some (str_bytes b)).
Proof.
  intros _ Hlen Hhex.
  assert (Hlen' : length (str_bytes (lower key)) = 64%nat) by (rewrite lower_bytes_of, length_lower; exact Hlen).
  assert (Hhex' : forallb is_ascii_hexdigit (str_bytes (lower key)) = true) by (rewrite lower_bytes_of; by apply lower_hex).
  split; [|split].
  - intros g [_ Hn]%note_house. destruct (String.prefix g (lower key)) eqn:E; [|done]. exfalso.
    destruct (prefix_bytes _ _ E) as [u Hu]. rewrite Hu in Hlen', Hhex'. apply forallb_app_l in Hhex'. rewrite length_app in Hlen'.
    unfold house_note in Hn. rewrite Hhex' in Hn. cbn [negb orb] in Hn. rewrite (proj2 (Nat.ltb_ge 64 (bytes_of g))) in Hn by (unfold bytes_of; lia).
    destr_if_in Hn; [apply list_elem_of_singleton in Hn; done | by apply elem_of_nil in Hn].
  - intros g _ H1 H2 E. destruct (no_house_note g H1 H2) as [_ Hl]. destruct (prefix_bytes _ _ E) as [u Hu].
    apply str_bytes_inj. rewrite Hu in Hlen' |- *. rewrite length_app in Hlen'. unfold bytes_of in Hl.
    destruct u as [|x u]; [by rewrite app_nil_r | cbn in Hlen'; lia].
  - intros b ua Hn%note_build. unfold held_split_build. destr_if; [done|]. destruct (split_once 47 ua) as [[? rest]|]; [|done].
    destr_if; [done|]. intros [_ Hb]%find_some. apply andb_true_iff in Hb as [Hb _]. by rewrite Hn in Hb.
Qed.

(** * Witnesses *)

(** A file with a fee, a grace of a day, and two house entries of which one matches nothing. *)
Definition demo_raw : Settings := {|
  payout_address := "bc1qdemo"; coinbase_tag := "Lazarus"; prime_id := 1; window := 8; window_min_work := 0;
  min_payout := 546; stale_after_days := 7; stale_min_payout := 10000; stale_coinbase := true; stale_per_block := 25;
  fee_bps := 150; empty_solo_fee_bps := 750; stock_full_pool_only := "owe"; held_split_builds := ["C61C2E7"%string; "main"%string];
  class_budget := true; class_budget_fee_wallet_reserves := false; class_budget_carry_ceiling := 500000000;
  coinbaser_delay_ms := 0; stratum_fee_bps := 1500; datum_rebate_bps := 750; stratum_grace_hours := 24;
  stratum_grace_datum_hours := 0; stratum_grace_fee_bps := Some 150; stratum_grace_rebate_bps := 50;
  stratum_grace_rearm_hours := 0; stratum_grace_epoch := 0; solo_rebate_bps := 500; solo_coinbase_tag := "Lazarus/solo";
  house_gateways := ["the-house"%string; "ABCDEF"%string]; house_loopback := true; min_diff := 1024; split_tolerance := 2;
  network := "mainnet"; uncommitted_pot := 20; stale_grace_secs := 30; max_connections := 256; max_connections_per_ip := 8;
  quarantine := quarantine_default; stratum_front_gateways := [" 0123456789ABCDEF "%string]; stratum_front_ips := [];
  session_coinbase_budget := d_session_coinbase_budget; require_split_gateway := true; activation_height := None;
  verify_shares := None; key_file := None; class_budget_unreserved := false |}.
Definition no_files : string -> bool := fun _ => false.
Definition demo_loaded : Settings := match load no_files demo_raw with Ok c => c | Err _ => demo_raw end.
Lemma demo_loads : load no_files demo_raw = Ok demo_loaded /\ legacy_notes demo_loaded
  = [HouseMatchesNothing "the-house"; HousePrefix "abcdef"; BuildMatchesNothing "main"; BudgetUnreserved].
Proof. vm_compute. done. Qed.
Lemma demo_unsigned : unsigned demo_loaded.
Proof. vm_compute. repeat split; discriminate. Qed.

Lemma load_settles_witness : load no_files demo_raw = Ok demo_loaded /\ load (fun _ => true) demo_loaded = Ok demo_loaded.
Proof. split; [exact (proj1 demo_loads) | exact (load_settles no_files (fun _ => true) demo_raw demo_loaded (proj1 demo_loads))]. Defined.


Lemma derived_values_exact_witness : min_pot demo_loaded = 10 /\ 1024 = 2 ^ min_pot demo_loaded /\ stale_after_secs demo_loaded = 604800.
Proof.
  destruct (derived_values_exact no_files demo_raw demo_loaded (proj1 demo_loads) demo_unsigned ltac:(vm_compute; discriminate)) as (E & _ & S & _).
  split; [vm_compute; reflexivity|]. split; [exact E | rewrite S; vm_compute; reflexivity].
Defined.

Definition demo_key : string := bytes_str (replicate 64 65).
Lemma notes_are_true_witness : String.prefix "the-house" (lower demo_key) = false.
Proof.
  destruct (notes_are_true no_files demo_raw demo_loaded demo_key (proj1 demo_loads)) as (H & _); [reflexivity | reflexivity |].
  apply H. rewrite (proj2 demo_loads). left.
Defined.
