(* ===== verification/Overflow.v ===== *)
(** The network-share valve of the house stratum ([lazarus/gateway/src/overflow.rs]): the meter with
    its hysteresis, who is let in and who is sent to another pool, and the relay that sends them.

    Times of day are unix seconds, instants nanoseconds; every read of a clock is an argument. Where
    the handler waits for a socket, the other threads may run: [Overflow -> Overflow] arguments are
    what they do. A line is its bytes, with the newline. JSON is the inductive [Value]; the parser is
    the third-party [serde_json] and comes as an argument. *)

From Stdlib Require Import SpecFloat.
From S2P Require Import Prelude Bytes Text Tides Cursor Handshake Pow State.
Open Scope Z_scope.

(** * Floats *)

(** [f64], with the operations of IEEE 754 at its precision. *)
Definition f64 : Type := spec_float.
Definition f64_of (n : Z) : f64 := binary_normalize 53 1024 n 0 false.
Definition f64_mul (a b : f64) : f64 := SFmul 53 1024 a b.
Definition f64_div (a b : f64) : f64 := SFdiv 53 1024 a b.
Definition f64_le (a b : f64) : bool := SFleb a b.
Definition f64_lt (a b : f64) : bool := SFltb a b.

(** * JSON *)

Inductive Number := PosInt (n : Z) | NegInt (n : Z) | Float (f : f64).
Inductive Value :=
| Null
| Boolean (b : bool)
| Num (n : Number)
| Str (s : string)
| Arr (l : list Value)
| Obj (l : list (string * Value)).

Definition number_eqb (a b : Number) : bool :=
  match a, b with
  | PosInt x, PosInt y => x =? y
  | NegInt x, NegInt y => x =? y
  | Float x, Float y => SFeqb x y
  | _, _ => false
  end.
Fixpoint value_eqb (a b : Value) : bool :=
  match a, b with
  | Null, Null => true
  | Boolean x, Boolean y => Bool.eqb x y
  | Num x, Num y => number_eqb x y
  | Str x, Str y => bool_decide (x = y)
  | Arr x, Arr y =>
      (fix go (x y : list Value) : bool :=
         match x, y with [], [] => true | a :: x, b :: y => value_eqb a b && go x y | _, _ => false end) x y
  | Obj x, Obj y =>
      (fix go (x y : list (string * Value)) : bool :=
         match x, y with
         | [], [] => true
         | (k, a) :: x, (k', b) :: y => bool_decide (k = k') && value_eqb a b && go x y
         | _, _ => false
         end) x y
  | _, _ => false
  end.

(** [Value::get] with a key, and the [as_*] methods. *)
Fixpoint field (k : string) (l : list (string * Value)) : option Value :=
  match l with [] => None | (k', v) :: l' => if bool_decide (k' = k) then Some v else field k l' end.
Definition get (k : string) (v : Value) : option Value := match v with Obj l => field k l | _ => None end.
Definition as_str (v : Value) : option string := match v with Str s => Some s | _ => None end.
Definition as_bool (v : Value) : option bool := match v with Boolean b => Some b | _ => None end.
Definition as_array (v : Value) : option (list Value) := match v with Arr l => Some l | _ => None end.
Definition as_u64 (v : Value) : option Z := match v with Num (PosInt n) => Some n | _ => None end.
Definition is_null (v : Value) : bool := match v with Null => true | _ => false end.

(** [serde_json]: reading a text, and writing a value. *)
Class Json := { from_str : list Z -> option Value; to_text : Value -> string }.

Module Overflow.

(** * Modes and decisions *)

Inductive Mode := Off | Shadow | Auto | Force.
#[export] Instance Mode_eq_dec : EqDecision Mode.
Proof. solve_decision. Defined.

Definition mode_parse (s : string) : option Mode :=
  let t := bytes_str (to_ascii_lowercase (trim_str (str_bytes s))) in
  if bool_decide (t = "off"%string) then Some Off else
  if bool_decide (t = "shadow"%string) then Some Shadow else
  if bool_decide (t = "auto"%string) then Some Auto else
  if bool_decide (t = "force"%string) then Some Force else None.
Definition from_u8 (v : Z) : Mode :=
  if v =? 1 then Shadow else if v =? 2 then Auto else if v =? 3 then Force else Off.
Definition as_u8 (m : Mode) : Z := match m with Off => 0 | Shadow => 1 | Auto => 2 | Force => 3 end.
Definition mode_str (m : Mode) : string :=
  match m with Off => "off" | Shadow => "shadow" | Auto => "auto" | Force => "force" end.

(** One step of the valve. *)
Definition hysteresis (active : bool) (hold : Z) (share_pct enter exit_ : f64) (hold_polls : Z) : bool * Z :=
  let want_flip := if active then f64_le share_pct exit_ else f64_le enter share_pct in
  if negb want_flip then (active, 0) else
  let hold := trunc u32_max (hold + 1) in
  if Z.max hold_polls 1 <=? hold then (negb active, 0) else (active, hold).

(** The least-loaded healthy upstream, from [rr] on among equals. *)
Definition least (loads : list (bool * Z)) : option Z :=
  match map snd (filter (fun l => l.1 = true) loads) with
  | [] => None
  | s :: ss => Some (foldl Z.min s ss)
  end.
Fixpoint pick_from (loads : list (bool * Z)) (m : Z) (ks : list nat) (rr : Z) : option nat :=
  match ks with
  | [] => None
  | k :: ks' =>
      let i := Z.to_nat (trunc u64_max (rr + Z.of_nat k) mod Z.of_nat (length loads)) in
      match loads !! i with
      | Some (h, s) => if (h : bool) && (s =? m) then Some i else pick_from loads m ks' rr
      | None => pick_from loads m ks' rr
      end
  end.
Definition pick (loads : list (bool * Z)) (rr : Z) : option nat :=
  match loads with
  | [] => None
  | _ => m ← least loads; pick_from loads m (seq 0 (length loads)) rr
  end.

Inductive Decision := Local | WouldRelay | FailOpen | Proxy (i : nat).
Definition decide_ (mode : Mode) (active grandfathered : bool) (choice : option nat) : Decision :=
  let on := match mode with Off => false | Force => true | Auto | Shadow => active end in
  if negb on || grandfathered then Local else
  if bool_decide (mode = Shadow) then WouldRelay else
  match choice with Some i => Proxy i | None => FailOpen end.

(** * Who is ours *)

Definition GRANDFATHER_MAX : nat := 200000.

(** Identities and sources that have proved work here, with the time of their last share. The code
    keys a source by the text of its address. *)
Record Grandfather := { idents : gmap string Z; ips : gmap IpAddr Z }.
Definition nobody : Grandfather := {| idents := ∅; ips := ∅ |}.

Definition room_for {K} `{Countable K} {A} (m : gmap K A) (k : K) (most : nat) : bool :=
  (size m <? most)%nat || bool_decide (is_Some (m !! k)).
Definition note_ident (g : Grandfather) (ident : string) (now : Z) : Grandfather :=
  if negb (bool_decide (ident = ""%string)) && room_for (idents g) ident GRANDFATHER_MAX
  then {| idents := <[ident := now]> (idents g); ips := ips g |} else g.
Definition note_ip (g : Grandfather) (ip : IpAddr) (now : Z) : Grandfather :=
  if room_for (ips g) ip GRANDFATHER_MAX then {| idents := idents g; ips := <[ip := now]> (ips g) |} else g.
Definition within_ttl (t now ttl : Z) : bool := sat_sub now t <=? ttl.
Definition has_ident (g : Grandfather) (ident : string) (now ttl : Z) : bool :=
  match idents g !! ident with Some t => within_ttl t now ttl | None => false end.
Definition has_ip (g : Grandfather) (ip : IpAddr) (now ttl : Z) : bool :=
  match ips g !! ip with Some t => within_ttl t now ttl | None => false end.
Definition prune (g : Grandfather) (now ttl : Z) : Grandfather := {|
  idents := filter (fun e => within_ttl e.2 now ttl = true) (idents g);
  ips := filter (fun e => within_ttl e.2 now ttl = true) (ips g) |}.

(** * State *)

Record OverflowCfg := {
  cfg_mode : string;
  enter_pct : f64;
  exit_pct : f64;
  hold_polls : Z;
  grandfather_hours : Z;
  upstream_names : list string
}.

(** An upstream, with the counts of its relays. *)
Record Upstream := {
  up_healthy : bool; up_sessions : Z; up_total : Z;
  up_submits : Z; up_accepted : Z; up_rejected : Z; up_last_reject : string
}.

(** A relayed session's row. *)
Record ProxySession := { px_ip : IpAddr; px_user : string; px_identity : string; px_upstream : nat; px_since : Z }.

Record Meter := { share_pct : f64; pool_hs : f64; stratum_hs : f64; net_hs : f64; meter_ok : bool; updated : Z }.
Record Valve := { v_active : bool; v_hold : Z; v_flips : Z; v_since : Z }.
Record Counts := {
  n_relayed : Z; n_churned : Z; n_bounced : Z; n_unpayable : Z; n_shadow : Z; n_fail_open : Z
}.

Record Overflow := {
  ov_mode : Z;
  ov_valve : Valve;
  ov_meter : Meter;
  ov_grandfather : Grandfather;
  ov_upstreams : list Upstream;
  ov_rr : Z;
  ov_proxied : gmap Z ProxySession;
  ov_counts : Counts;
  ov_unpayable_ips : gmap IpAddr Z;
  ov_churn_ips : gmap IpAddr (Z * Z);
  ov_dirty : bool
}.

Definition set_mode (o : Overflow) (x : Z) : Overflow := {|
  ov_mode := x; ov_valve := ov_valve o; ov_meter := ov_meter o; ov_grandfather := ov_grandfather o;
  ov_upstreams := ov_upstreams o; ov_rr := ov_rr o; ov_proxied := ov_proxied o;
  ov_counts := ov_counts o; ov_unpayable_ips := ov_unpayable_ips o; ov_churn_ips := ov_churn_ips o; ov_dirty := ov_dirty o |}.
Definition set_valve (o : Overflow) (x : Valve) : Overflow := {|
  ov_mode := ov_mode o; ov_valve := x; ov_meter := ov_meter o; ov_grandfather := ov_grandfather o;
  ov_upstreams := ov_upstreams o; ov_rr := ov_rr o; ov_proxied := ov_proxied o;
  ov_counts := ov_counts o; ov_unpayable_ips := ov_unpayable_ips o; ov_churn_ips := ov_churn_ips o; ov_dirty := ov_dirty o |}.
Definition set_meter (o : Overflow) (x : Meter) : Overflow := {|
  ov_mode := ov_mode o; ov_valve := ov_valve o; ov_meter := x; ov_grandfather := ov_grandfather o;
  ov_upstreams := ov_upstreams o; ov_rr := ov_rr o; ov_proxied := ov_proxied o;
  ov_counts := ov_counts o; ov_unpayable_ips := ov_unpayable_ips o; ov_churn_ips := ov_churn_ips o; ov_dirty := ov_dirty o |}.
Definition set_grandfather (o : Overflow) (x : Grandfather) : Overflow := {|
  ov_mode := ov_mode o; ov_valve := ov_valve o; ov_meter := ov_meter o; ov_grandfather := x;
  ov_upstreams := ov_upstreams o; ov_rr := ov_rr o; ov_proxied := ov_proxied o;
  ov_counts := ov_counts o; ov_unpayable_ips := ov_unpayable_ips o; ov_churn_ips := ov_churn_ips o; ov_dirty := ov_dirty o |}.
Definition set_upstreams (o : Overflow) (x : list Upstream) : Overflow := {|
  ov_mode := ov_mode o; ov_valve := ov_valve o; ov_meter := ov_meter o; ov_grandfather := ov_grandfather o;
  ov_upstreams := x; ov_rr := ov_rr o; ov_proxied := ov_proxied o;
  ov_counts := ov_counts o; ov_unpayable_ips := ov_unpayable_ips o; ov_churn_ips := ov_churn_ips o; ov_dirty := ov_dirty o |}.
Definition set_rr (o : Overflow) (x : Z) : Overflow := {|
  ov_mode := ov_mode o; ov_valve := ov_valve o; ov_meter := ov_meter o; ov_grandfather := ov_grandfather o;
  ov_upstreams := ov_upstreams o; ov_rr := x; ov_proxied := ov_proxied o;
  ov_counts := ov_counts o; ov_unpayable_ips := ov_unpayable_ips o; ov_churn_ips := ov_churn_ips o; ov_dirty := ov_dirty o |}.
Definition set_proxied (o : Overflow) (x : gmap Z ProxySession) : Overflow := {|
  ov_mode := ov_mode o; ov_valve := ov_valve o; ov_meter := ov_meter o; ov_grandfather := ov_grandfather o;
  ov_upstreams := ov_upstreams o; ov_rr := ov_rr o; ov_proxied := x;
  ov_counts := ov_counts o; ov_unpayable_ips := ov_unpayable_ips o; ov_churn_ips := ov_churn_ips o; ov_dirty := ov_dirty o |}.
Definition set_counts (o : Overflow) (x : Counts) : Overflow := {|
  ov_mode := ov_mode o; ov_valve := ov_valve o; ov_meter := ov_meter o; ov_grandfather := ov_grandfather o;
  ov_upstreams := ov_upstreams o; ov_rr := ov_rr o; ov_proxied := ov_proxied o;
  ov_counts := x; ov_unpayable_ips := ov_unpayable_ips o; ov_churn_ips := ov_churn_ips o; ov_dirty := ov_dirty o |}.
Definition set_unpayable_ips (o : Overflow) (x : gmap IpAddr Z) : Overflow := {|
  ov_mode := ov_mode o; ov_valve := ov_valve o; ov_meter := ov_meter o; ov_grandfather := ov_grandfather o;
  ov_upstreams := ov_upstreams o; ov_rr := ov_rr o; ov_proxied := ov_proxied o;
  ov_counts := ov_counts o; ov_unpayable_ips := x; ov_churn_ips := ov_churn_ips o; ov_dirty := ov_dirty o |}.
Definition set_churn_ips (o : Overflow) (x : gmap IpAddr (Z * Z)) : Overflow := {|
  ov_mode := ov_mode o; ov_valve := ov_valve o; ov_meter := ov_meter o; ov_grandfather := ov_grandfather o;
  ov_upstreams := ov_upstreams o; ov_rr := ov_rr o; ov_proxied := ov_proxied o;
  ov_counts := ov_counts o; ov_unpayable_ips := ov_unpayable_ips o; ov_churn_ips := x; ov_dirty := ov_dirty o |}.
Definition set_dirty (o : Overflow) (x : bool) : Overflow := {|
  ov_mode := ov_mode o; ov_valve := ov_valve o; ov_meter := ov_meter o; ov_grandfather := ov_grandfather o;
  ov_upstreams := ov_upstreams o; ov_rr := ov_rr o; ov_proxied := ov_proxied o;
  ov_counts := ov_counts o; ov_unpayable_ips := ov_unpayable_ips o; ov_churn_ips := ov_churn_ips o; ov_dirty := x |}.

(** [Overflow::new], on what the file of the grandfathered held; an unknown mode runs off. *)
Definition new_upstream : Upstream := {|
  up_healthy := true; up_sessions := 0; up_total := 0; up_submits := 0; up_accepted := 0; up_rejected := 0;
  up_last_reject := "" |}.
Definition overflow_new (c : OverflowCfg) (file : option Grandfather) : Overflow := {|
  ov_mode := as_u8 (default Off (mode_parse (cfg_mode c)));
  ov_valve := {| v_active := false; v_hold := 0; v_flips := 0; v_since := 0 |};
  ov_meter := {| share_pct := f64_of 0; pool_hs := f64_of 0; stratum_hs := f64_of 0; net_hs := f64_of 0;
                 meter_ok := false; updated := 0 |};
  ov_grandfather := default nobody file;
  ov_upstreams := map (fun _ => new_upstream) (upstream_names c);
  ov_rr := 0; ov_proxied := ∅;
  ov_counts := {| n_relayed := 0; n_churned := 0; n_bounced := 0; n_unpayable := 0; n_shadow := 0; n_fail_open := 0 |};
  ov_unpayable_ips := ∅; ov_churn_ips := ∅; ov_dirty := false |}.

Definition mode (o : Overflow) : Mode := from_u8 (ov_mode o).
Definition set_mode_text (o : Overflow) (s : string) : Overflow * option Mode :=
  match mode_parse s with Some m => (set_mode o (as_u8 m), Some m) | None => (o, None) end.
Definition is_active (o : Overflow) : bool := v_active (ov_valve o).
Definition considering (o : Overflow) : bool :=
  match mode o with Off => false | Force => true | Auto | Shadow => is_active o end.

(** * What is remembered of sources *)

Definition UNPAYABLE_LOCAL_SECS : Z := 600.
Definition UNPAYABLE_IPS_MAX : nat := 4096.
Definition CHURN_LOCAL_AFTER : Z := 3.
Definition CHURN_LOCAL_SECS : Z := 3600.
Definition CHURN_SECS : Z := 10.

Section WithCfg.
Context (c : OverflowCfg).

Definition ttl : Z := trunc u64_max (Z.max (grandfather_hours c) 1 * 3600).
Definition ip_grandfathered (o : Overflow) (ip : IpAddr) (now : Z) : bool := has_ip (ov_grandfather o) ip now ttl.
Definition ident_grandfathered (o : Overflow) (ident : string) (now : Z) : bool :=
  negb (bool_decide (ident = ""%string)) && has_ident (ov_grandfather o) ident now ttl.

Definition note_unpayable_ip (o : Overflow) (ip : IpAddr) (now : Z) : Overflow :=
  let m := filter (fun e => within_ttl e.2 now UNPAYABLE_LOCAL_SECS = true) (ov_unpayable_ips o) in
  set_unpayable_ips o (if (size m <? UNPAYABLE_IPS_MAX)%nat then <[ip := now]> m else m).
Definition note_churn_ip (o : Overflow) (ip : IpAddr) (now : Z) : Overflow :=
  let m := filter (fun e => within_ttl e.2.2 now CHURN_LOCAL_SECS = true) (ov_churn_ips o) in
  set_churn_ips o (if room_for m ip UNPAYABLE_IPS_MAX
                   then <[ip := (sat_add u32_max (default (0, now) (m !! ip)).1 1, now)]> m else m).
Definition ip_churned (o : Overflow) (ip : IpAddr) (now : Z) : bool :=
  match ov_churn_ips o !! ip with
  | Some (n, t) => (CHURN_LOCAL_AFTER <=? n) && within_ttl t now CHURN_LOCAL_SECS
  | None => false
  end.
Definition ip_unpayable (o : Overflow) (ip : IpAddr) (now : Z) : bool :=
  match ov_unpayable_ips o !! ip with Some t => within_ttl t now UNPAYABLE_LOCAL_SECS | None => false end.

Definition note_share (o : Overflow) (ident : string) (ip : IpAddr) (now : Z) : Overflow :=
  set_dirty (set_grandfather o (note_ip (note_ident (ov_grandfather o) ident now) ip now)) true.

(** [seed_from_prime], on the identities and ages of the answer's [/window/miners]. *)
Definition prime_miners (stats : Value) : option (list Value) := w ← get "window" stats; m ← get "miners" w; as_array m.
Definition seed_one (now : Z) (gn : Grandfather * Z) (m : Value) : Grandfather * Z :=
  match i ← get "identity" m; as_str i with
  | None => gn
  | Some ident =>
      let age := default 0 (a ← get "last_share_s" m; as_u64 a) in
      if age <=? ttl then (note_ident gn.1 ident (sat_sub now age), gn.2 + 1) else gn
  end.
Definition seed_from_prime (o : Overflow) (stats : Value) (now : Z) : Overflow :=
  match prime_miners stats with
  | None => o
  | Some ms =>
      let '(g, n) := foldl (seed_one now) (ov_grandfather o, 0) ms in
      let o := set_grandfather o g in if 0 <? n then set_dirty o true else o
  end.

(** [save]: what is written to the file, when something is. *)
Definition save (o : Overflow) (now : Z) : Overflow * option Grandfather :=
  if negb (ov_dirty o) then (o, None) else
  let g := prune (ov_grandfather o) now ttl in
  (set_grandfather (set_dirty o false) g, Some g).

(** * The meter *)

Definition apply_meter (o : Overflow) (net : option f64) (stratum : f64) (pool_ghs : option f64) (now : Z) : Overflow :=
  match net with
  | Some net =>
      if f64_lt (f64_of 0) net then
        let share := f64_div (f64_mul (f64_of 100) stratum) net in
        let v := ov_valve o in
        let '(na, nh) := hysteresis (v_active v) (v_hold v) share (enter_pct c) (exit_pct c) (hold_polls c) in
        let v := if Bool.eqb na (v_active v)
                 then {| v_active := v_active v; v_hold := nh; v_flips := v_flips v; v_since := v_since v |}
                 else {| v_active := na; v_hold := nh; v_flips := trunc u64_max (v_flips v + 1);
                         v_since := if na then now else 0 |} in
        set_meter (set_valve o v) {|
          share_pct := share; pool_hs := match pool_ghs with Some pg => f64_mul pg (f64_of 1000000000) | None => stratum end;
          stratum_hs := stratum; net_hs := net; meter_ok := true; updated := now |}
      else set_meter o {| share_pct := f64_of 0; pool_hs := f64_of 0; stratum_hs := stratum; net_hs := f64_of 0;
                          meter_ok := false; updated := now |}
  | None => set_meter o {| share_pct := f64_of 0; pool_hs := f64_of 0; stratum_hs := stratum; net_hs := f64_of 0;
                           meter_ok := false; updated := now |}
  end.

(** [Value::as_f64] and the figure of the answer. *)
Definition as_f64 (v : Value) : option f64 :=
  match v with
  | Num (PosInt n) => Some (f64_of n)
  | Num (NegInt n) => Some (f64_of n)
  | Num (Float f) => Some f
  | _ => None
  end.
Definition tick (o : Overflow) (net : option f64) (stratum : f64) (prime : option Value) (now : Z) : Overflow :=
  let o := match prime with Some p => seed_from_prime o p now | None => o end in
  apply_meter o net stratum (p ← prime; h ← get "hashrate" p; g ← get "pool_ghs" h; as_f64 g) now.

(** * Upstreams *)

Definition loads (o : Overflow) : list (bool * Z) := map (fun u => (up_healthy u, up_sessions u)) (ov_upstreams o).
Definition choose (o : Overflow) : Overflow * option nat :=
  (set_rr o (trunc u64_max (ov_rr o + 1)), pick (loads o) (ov_rr o)).

Definition with_health (u : Upstream) (b : bool) : Upstream := {|
  up_healthy := b; up_sessions := up_sessions u; up_total := up_total u; up_submits := up_submits u;
  up_accepted := up_accepted u; up_rejected := up_rejected u; up_last_reject := up_last_reject u |}.
Definition mark (o : Overflow) (i : nat) (b : bool) : Overflow :=
  set_upstreams o (alter (fun u => with_health u b) i (ov_upstreams o)).

(** A pass of [run_health], on what each probe found. *)
Fixpoint health_pass (o : Overflow) (i : nat) (found : list bool) : Overflow :=
  match found with [] => o | b :: found' => health_pass (mark o i b) (S i) found' end.

(** [connect_choice]: [dial] is whether an upstream takes the connection at a try, [others] what the
    other threads do while it is dialled. *)
Fixpoint connect_tries (dial : nat -> nat -> bool) (others : nat -> Overflow -> Overflow) (n k : nat) (o : Overflow)
    : Overflow * option nat :=
  match n with
  | O => (o, None)
  | S n' =>
      let '(o, ch) := choose o in
      match ch with
      | None => (o, None)
      | Some i =>
          let o := others k o in
          if dial k i then (o, Some i) else connect_tries dial others n' (S k) (mark o i false)
      end
  end.
Definition connect_choice (dial : nat -> nat -> bool) (others : nat -> Overflow -> Overflow) (o : Overflow)
    : Overflow * option nat :=
  connect_tries dial others (Nat.max (length (ov_upstreams o)) 1) 0 o.
End WithCfg.

(** * Lines *)

Definition RELAY_MAX_LINE : nat := 8192.
Definition GATE_MAX_LINES : nat := 6.
Definition RELAY_LINES_PER_SEC : Z := 400.
Definition MAX_PENDING_SUBMITS : nat := 256.
Definition NEWLINE : Z := 10.

Definition ends_line (l : list Z) : bool := bool_decide (last l = Some NEWLINE).
(** A line as it was read is taken when it is not too long and is whole. *)
Definition whole_line (l : list Z) : bool := (length l <=? RELAY_MAX_LINE)%nat && ends_line l.

Section Lines.
Context `{Json}.

Definition method_of (v : Value) : option string := m ← get "method" v; as_str m.
Definition has_method (v : Value) (m : string) : bool := bool_decide (method_of v = Some m).

(** [authorize_user]: the username in a [mining.authorize] line, if that is what the line is. *)
Definition authorize_user (line : list Z) : option string :=
  v ← from_str line;
  if negb (has_method v "mining.authorize") then None else
  p ← get "params" v; a ← as_array p; x ← head a; as_str x.
Definition is_method (line : list Z) (m : string) : bool :=
  match from_str line with Some v => has_method v m | None => false end.

(** [str::contains]. *)
Fixpoint contains (text l : list Z) : bool :=
  bool_decide (take (length text) l = text) || match l with [] => false | _ :: l' => contains text l' end.
(** A line the relay takes for a redirection of the miner: it has the method's name as it is spelled,
    and is that method. *)
Definition RECONNECT : string := "client.reconnect".
Definition redirects (line : list Z) : bool := contains (str_bytes RECONNECT) line && is_method line RECONNECT.

(** A reply's id, when it has one. *)
Definition reply_id (v : Value) : option Value := i ← get "id" v; if is_null i then None else Some i.
Definition result_true (v : Value) : bool := bool_decide ((r ← get "result" v; as_bool r) = Some true).
Definition no_method (v : Value) : bool := bool_decide (get "method" v = None).
Definition is_true_result (line : list Z) : bool :=
  match from_str line with
  | Some v => no_method v && bool_decide (is_Some (reply_id v)) && result_true v
  | None => false
  end.

(** * What a relay counts *)

Record RelayStats := { submits : Z; accepted : Z; rejected : Z; pending : list Value; last_reject : string }.
Definition stats_new : RelayStats := {| submits := 0; accepted := 0; rejected := 0; pending := []; last_reject := "" |}.

Definition note_submit (st : RelayStats) (line : list Z) : RelayStats :=
  match from_str line with
  | None => st
  | Some v =>
      if negb (has_method v "mining.submit") then st else {|
        submits := trunc u64_max (submits st + 1); accepted := accepted st; rejected := rejected st;
        pending := match reply_id v with
                   | None => pending st
                   | Some i => (if (MAX_PENDING_SUBMITS <=? length (pending st))%nat then tail (pending st) else pending st) ++ [i]
                   end;
        last_reject := last_reject st |}
  end.

(** The first outstanding id equal to [i], taken out. *)
Fixpoint take_pending (i : Value) (q : list Value) : option (list Value) :=
  match q with
  | [] => None
  | p :: q' => if value_eqb p i then Some q' else q ← take_pending i q'; Some (p :: q)
  end.
Definition printable_chars (n : nat) (s : string) : string :=
  bytes_str (take n (filter (fun b => is_ascii_graphic b || (b =? 32) = true) (str_bytes s))).
Definition why_refused (v : Value) : string :=
  match get "error" v with
  | None | Some Null => "refused with no reason given"
  | Some (Arr a) => match m ← a !! 1%nat; as_str m with Some s => s | None => to_text (Arr a) end
  | Some (Str s) => s
  | Some other => to_text other
  end.
(** [note_reply]: the verdict on a share, if the line is one. *)
Definition note_reply (st : RelayStats) (line : list Z) : RelayStats * option bool :=
  match v ← from_str line; if no_method v then i ← reply_id v; q ← take_pending i (pending st); Some (v, q) else None with
  | None => (st, None)
  | Some (v, q) =>
      if result_true v
      then ({| submits := submits st; accepted := trunc u64_max (accepted st + 1); rejected := rejected st;
               pending := q; last_reject := last_reject st |}, Some true)
      else ({| submits := submits st; accepted := accepted st; rejected := trunc u64_max (rejected st + 1);
               pending := q; last_reject := printable_chars 160 (why_refused v) |}, Some false)
  end.

(** * The relay *)

(** What a read gave: a line, or that there are none any more. *)
Inductive Read := Line (l : list Z) | Closed.

(** The two directions of a relay, the name its miner gave, and how it was ended. *)
Record Relay := {
  rl_ov : Overflow;
  rl_stats : RelayStats;
  rl_bounced : bool;
  rl_refused : bool;
  rl_banner : option (list Z);
  rl_sec_at : Z;
  rl_sec_lines : Z;
  rl_up : bool;
  rl_down : bool;
  rl_to_up : list (list Z);
  rl_to_miner : list (list Z)
}.

(** A read from the miner at an instant and a time of day, or one from the upstream, with whether
    what follows from it could be written; or the other threads. *)
Inductive RelayEvent :=
| FromMiner (at_ now : Z) (r : Read) (wrote : bool)
| FromUpstream (r : Read) (wrote wrote_banner : bool)
| Meanwhile (f : Overflow -> Overflow).

Context (c : OverflowCfg) (canon : string -> string) (payable : string -> bool).

Definition count_unpayable (o : Overflow) : Overflow :=
  let n := ov_counts o in
  set_counts o {| n_relayed := n_relayed n; n_churned := n_churned n; n_bounced := n_bounced n;
                  n_unpayable := trunc u64_max (n_unpayable n + 1); n_shadow := n_shadow n; n_fail_open := n_fail_open n |}.
Definition printable (s : string) : string :=
  bytes_str (take 128 (filter (fun b => is_ascii_graphic b = true) (str_bytes s))).
Definition name_row (o : Overflow) (id : Z) (user identity : string) : Overflow :=
  set_proxied o (alter (fun p => {| px_ip := px_ip p; px_user := user; px_identity := identity;
                                    px_upstream := px_upstream p; px_since := px_since p |}) id (ov_proxied o)).

(** [on_authorize]: the overflow, whether the miner is bounced, whether it is refused. *)
Definition on_authorize (o : Overflow) (id : Z) (ip : IpAddr) (u : string) (now : Z) : Overflow * bool * bool :=
  let ident := canon u in
  let o := name_row o id (printable u) ident in
  if ident_grandfathered c o ident now
  then (set_dirty (set_grandfather o (note_ip (ov_grandfather o) ip now)) true, true, false)
  else if negb (payable u) then (note_unpayable_ip (count_unpayable o) ip now, false, true)
  else (o, false, false).

Definition with_ov (r : Relay) (o : Overflow) (bounced refused : bool) : Relay := {|
  rl_ov := o; rl_stats := rl_stats r; rl_bounced := rl_bounced r || bounced; rl_refused := rl_refused r || refused;
  rl_banner := rl_banner r; rl_sec_at := rl_sec_at r; rl_sec_lines := rl_sec_lines r; rl_up := rl_up r;
  rl_down := rl_down r; rl_to_up := rl_to_up r; rl_to_miner := rl_to_miner r |}.
Definition close_up (r : Relay) : Relay := {|
  rl_ov := rl_ov r; rl_stats := rl_stats r; rl_bounced := rl_bounced r; rl_refused := rl_refused r;
  rl_banner := rl_banner r; rl_sec_at := rl_sec_at r; rl_sec_lines := rl_sec_lines r; rl_up := false;
  rl_down := rl_down r; rl_to_up := rl_to_up r; rl_to_miner := rl_to_miner r |}.
Definition close_down (r : Relay) : Relay := {|
  rl_ov := rl_ov r; rl_stats := rl_stats r; rl_bounced := rl_bounced r; rl_refused := rl_refused r;
  rl_banner := rl_banner r; rl_sec_at := rl_sec_at r; rl_sec_lines := rl_sec_lines r; rl_up := rl_up r;
  rl_down := false; rl_to_up := rl_to_up r; rl_to_miner := rl_to_miner r |}.
Definition sent_up (r : Relay) (l : list Z) : Relay := {|
  rl_ov := rl_ov r; rl_stats := rl_stats r; rl_bounced := rl_bounced r; rl_refused := rl_refused r;
  rl_banner := rl_banner r; rl_sec_at := rl_sec_at r; rl_sec_lines := rl_sec_lines r; rl_up := rl_up r;
  rl_down := rl_down r; rl_to_up := rl_to_up r ++ [l]; rl_to_miner := rl_to_miner r |}.
Definition sent_down (r : Relay) (l : list Z) (banner : option (list Z)) : Relay := {|
  rl_ov := rl_ov r; rl_stats := rl_stats r; rl_bounced := rl_bounced r; rl_refused := rl_refused r;
  rl_banner := banner; rl_sec_at := rl_sec_at r; rl_sec_lines := rl_sec_lines r; rl_up := rl_up r;
  rl_down := rl_down r; rl_to_up := rl_to_up r; rl_to_miner := rl_to_miner r ++ [l] |}.
Definition counted (r : Relay) (st : RelayStats) (sec_at sec_lines : Z) : Relay := {|
  rl_ov := rl_ov r; rl_stats := st; rl_bounced := rl_bounced r; rl_refused := rl_refused r;
  rl_banner := rl_banner r; rl_sec_at := sec_at; rl_sec_lines := sec_lines; rl_up := rl_up r;
  rl_down := rl_down r; rl_to_up := rl_to_up r; rl_to_miner := rl_to_miner r |}.

(** A line of the miner: metered, counted, its name read when nobody has given one, and sent up. *)
Definition miner_line (r : Relay) (sniff : bool) (id : Z) (ip : IpAddr) (at_ now : Z) (l : list Z) (wrote : bool) : Relay :=
  let '(sec_at, n) := if secs 1 <=? elapsed at_ (rl_sec_at r) then (at_, 0) else (rl_sec_at r, rl_sec_lines r) in
  let n := n + 1 in
  if RELAY_LINES_PER_SEC <? n then close_up (counted r (rl_stats r) sec_at n) else
  let r := counted r (note_submit (rl_stats r) l) sec_at n in
  let '(r, go) := match authorize_user l with
    | Some u =>
        if sniff
        then let '(o, b, f) := on_authorize (rl_ov r) id ip u now in (with_ov r o b f, negb (b || f))
        else (r, true)
    | None => (r, true)
    end in
  if (go : bool) then if wrote then sent_up r l else close_up r else close_up r.

(** A line of the upstream: its verdict counted, a redirection dropped, and after the first reply
    that is [true] the banner. *)
Definition upstream_line (r : Relay) (l : list Z) (wrote wrote_banner : bool) : Relay :=
  let r := counted r (note_reply (rl_stats r) l).1 (rl_sec_at r) (rl_sec_lines r) in
  if redirects l then r else
  if negb wrote then close_down r else
  let r := sent_down r l (rl_banner r) in
  match rl_banner r with
  | Some m => if is_true_result l
              then if wrote_banner then sent_down r m None else close_down r
              else r
  | None => r
  end.

Definition relay_step (sniff : bool) (id : Z) (ip : IpAddr) (r : Relay) (e : RelayEvent) : Relay :=
  match e with
  | Meanwhile f => with_ov r (f (rl_ov r)) false false
  | FromMiner at_ now rd wrote =>
      if negb (rl_up r) then r else
      match rd with
      | Closed => close_up r
      | Line l => if whole_line l then miner_line r sniff id ip at_ now l wrote else close_up r
      end
  | FromUpstream rd wrote wrote_banner =>
      if negb (rl_down r) then r else
      match rd with
      | Closed => close_down r
      | Line l => if whole_line l then upstream_line r l wrote wrote_banner else close_down r
      end
  end.

(** [pump]: the lines read so far go up first, [written] of them as it turns out; then both sides run
    until they end. *)
Definition relay_start (o : Overflow) (banner : list Z) (start : Z) (initial : list (list Z)) (written : nat) : Relay := {|
  rl_ov := o; rl_stats := foldl note_submit stats_new (take written initial); rl_bounced := false; rl_refused := false;
  rl_banner := Some banner; rl_sec_at := start; rl_sec_lines := 0;
  rl_up := (length initial <=? written)%nat; rl_down := (length initial <=? written)%nat;
  rl_to_up := take written initial; rl_to_miner := [] |}.
Definition pump (o : Overflow) (banner : list Z) (start : Z) (initial : list (list Z)) (written : nat)
    (sniff : bool) (id : Z) (ip : IpAddr) (events : list RelayEvent) : Relay :=
  foldl (relay_step sniff id ip) (relay_start o banner start initial written) events.

(** * The gate *)

(** A read while the authorize is waited for: a line, a line cut by the wait with what came of it at
    the normal timeout, the end of the stream, or nothing. *)
Inductive GateRead := GLine (l : list Z) | GPartial (l : list Z) (rest : option (list Z)) | GEof | GFail.

(** The reads until the deadline: the lines kept, the name, and whether the miner hung up. *)
Fixpoint gate_wait (buf : list (list Z)) (reads : list GateRead) : list (list Z) * string * bool :=
  if (GATE_MAX_LINES <=? length buf)%nat then (buf, ""%string, false) else
  match reads with
  | [] => (buf, ""%string, false)
  | GEof :: _ => (buf, ""%string, true)
  | GFail :: _ => (buf, ""%string, false)
  | GPartial l rest :: _ =>
      match rest with
      | Some more =>
          let line := l ++ more in
          if negb (length more =? 0)%nat && whole_line line
          then (buf ++ [line], default ""%string (authorize_user line), false)
          else (buf, ""%string, false)
      | None => (buf, ""%string, false)
      end
  | GLine l :: reads' =>
      if negb (whole_line l) then (buf, ""%string, false) else
      match authorize_user l with
      | Some u => (buf ++ [l], u, false)
      | None => gate_wait (buf ++ [l]) reads'
      end
  end.

Inductive Gate := ServeLocal (lines : list (list Z)) | Relayed.

(** Everything around one run of the gate: the clocks as they are read, the reads, what the other
    threads do while it waits, the dialling, and the relay. *)
Record GateEnv := {
  ge_now : Z;
  ge_reads : list GateRead;
  ge_wait : Overflow -> Overflow;
  ge_after : Z;
  ge_dial : nat -> nat -> bool;
  ge_others : nat -> Overflow -> Overflow;
  ge_since : Z;
  ge_banner : list Z;
  ge_start : Z;
  ge_written : nat;
  ge_events : list RelayEvent;
  ge_end : Z
}.

Definition add_upstream (o : Overflow) (i : nat) (f : Upstream -> Upstream) : Overflow :=
  set_upstreams o (alter f i (ov_upstreams o)).
Definition one_more (u : Upstream) : Upstream := {|
  up_healthy := up_healthy u; up_sessions := trunc u64_max (up_sessions u + 1); up_total := trunc u64_max (up_total u + 1);
  up_submits := up_submits u; up_accepted := up_accepted u; up_rejected := up_rejected u; up_last_reject := up_last_reject u |}.
Definition one_less (u : Upstream) : Upstream := {|
  up_healthy := up_healthy u; up_sessions := trunc u64_max (up_sessions u - 1); up_total := up_total u;
  up_submits := up_submits u; up_accepted := up_accepted u; up_rejected := up_rejected u; up_last_reject := up_last_reject u |}.
Definition took (st : RelayStats) (u : Upstream) : Upstream := {|
  up_healthy := up_healthy u; up_sessions := up_sessions u; up_total := up_total u;
  up_submits := trunc u64_max (up_submits u + submits st); up_accepted := trunc u64_max (up_accepted u + accepted st);
  up_rejected := trunc u64_max (up_rejected u + rejected st);
  up_last_reject := if bool_decide (last_reject st = ""%string) then up_last_reject u else last_reject st |}.

(** The relay's row and counts, taken when it starts and given back when it ends ([ProxyGuard]). *)
Definition relay_begins (o : Overflow) (id : Z) (row : ProxySession) : Overflow :=
  let o := set_proxied o (<[id := row]> (ov_proxied o)) in
  let o := add_upstream o (px_upstream row) one_more in
  let n := ov_counts o in
  set_counts o {| n_relayed := trunc u64_max (n_relayed n + 1); n_churned := n_churned n; n_bounced := n_bounced n;
                  n_unpayable := n_unpayable n; n_shadow := n_shadow n; n_fail_open := n_fail_open n |}.
Definition relay_released (o : Overflow) (id : Z) (idx : nat) : Overflow :=
  add_upstream (set_proxied o (delete id (ov_proxied o))) idx one_less.

Definition count_bounced (o : Overflow) : Overflow :=
  let n := ov_counts o in
  set_counts o {| n_relayed := n_relayed n; n_churned := n_churned n; n_bounced := trunc u64_max (n_bounced n + 1);
                  n_unpayable := n_unpayable n; n_shadow := n_shadow n; n_fail_open := n_fail_open n |}.
Definition count_churned (o : Overflow) : Overflow :=
  let n := ov_counts o in
  set_counts o {| n_relayed := n_relayed n; n_churned := trunc u64_max (n_churned n + 1); n_bounced := n_bounced n;
                  n_unpayable := n_unpayable n; n_shadow := n_shadow n; n_fail_open := n_fail_open n |}.
(** A relay that ended: bounced, or dead on the handshake, and what its upstream took. *)
Definition relay_ended (r : Relay) (id : Z) (ip : IpAddr) (idx : nat) (now : Z) : Overflow :=
  let o := rl_ov r in
  let since := match ov_proxied o !! id with Some p => px_since p | None => now end in
  let o := if rl_bounced r then count_bounced o
           else if negb (rl_refused r) && (sat_sub now since <? CHURN_SECS) && (submits (rl_stats r) =? 0)
           then note_churn_ip (count_churned o) ip now else o in
  relay_released (add_upstream o idx (took (rl_stats r))) id idx.

Definition count_shadow (o : Overflow) : Overflow :=
  let n := ov_counts o in
  set_counts o {| n_relayed := n_relayed n; n_churned := n_churned n; n_bounced := n_bounced n;
                  n_unpayable := n_unpayable n; n_shadow := trunc u64_max (n_shadow n + 1); n_fail_open := n_fail_open n |}.
Definition count_fail_open (o : Overflow) : Overflow :=
  let n := ov_counts o in
  set_counts o {| n_relayed := n_relayed n; n_churned := n_churned n; n_bounced := n_bounced n;
                  n_unpayable := n_unpayable n; n_shadow := n_shadow n; n_fail_open := trunc u64_max (n_fail_open n + 1) |}.

Definition as_line (l : list Z) : list Z := if ends_line l then l else l ++ [NEWLINE].

(** What the gate makes of a session once the wait is over: serve it, or relay it to an upstream. *)
Definition gate_decides (o : Overflow) (env : GateEnv) (buf : list (list Z)) (user : string) (gone : bool)
    : Overflow * option nat :=
  if gone && bool_decide (user = ""%string) then (o, None) else
  if negb (bool_decide (user = ""%string)) && negb (payable user) then (count_unpayable o, None) else
  let ident := canon user in
  match decide_ (mode o) (is_active o) (ident_grandfathered c o ident (ge_after env)) (Some 0%nat) with
  | Local => (o, None)
  | WouldRelay => (count_shadow o, None)
  | FailOpen | Proxy _ =>
      match connect_choice (ge_dial env) (ge_others env) o with
      | (o, None) => (count_fail_open o, None)
      | (o, Some idx) => (o, Some idx)
      end
  end.

(** [gate]: what a new session's first [mining.subscribe] comes to, and the relay when there was one. *)
Definition gate (o : Overflow) (id : Z) (ip : IpAddr) (first : list Z) (env : GateEnv) : Overflow * Gate * option Relay :=
  if negb (considering o) || ip_grandfathered c o ip (ge_now env) || ip_unpayable o ip (ge_now env)
     || ip_churned o ip (ge_now env)
  then (o, ServeLocal [], None) else
  let '(buf, user, gone) := gate_wait [] (ge_reads env) in
  let o := ge_wait env o in
  match gate_decides o env buf user gone with
  | (o, None) => (o, ServeLocal buf, None)
  | (o, Some idx) =>
      let row := {| px_ip := ip; px_user := user; px_identity := canon user; px_upstream := idx; px_since := ge_since env |} in
      let r := pump (relay_begins o id row) (ge_banner env) (ge_start env) (as_line first :: buf) (ge_written env)
                 (bool_decide (user = ""%string)) id ip (ge_events env) in
      (relay_ended r id ip idx (ge_end env), Relayed, Some r)
  end.
End Lines.
End Overflow.
