(* ===== verification/OverflowProps.v ===== *)
(** The properties of the network-share valve: when it opens and shuts, who is sent away and where,
    what a relay passes on and counts, and what is remembered of a source. *)

From Stdlib Require Import SpecFloat.
From S2P Require Import Prelude Bytes Text Tides Cursor Handshake Pow State Overflow.
Import Overflow.
Open Scope Z_scope.

(** * The valve *)

Definition reading : Type := option f64 * f64 * option f64 * Z.
(** What a poll meters, when the node gave a network hashrate. *)
Definition metered (r : reading) : option f64 :=
  let '(net, stratum, _, _) := r in
  match net with
  | Some n => if f64_lt (f64_of 0) n then Some (f64_div (f64_mul (f64_of 100) stratum) n) else None
  | None => None
  end.
Definition poll_meter (c : OverflowCfg) (o : Overflow) (r : reading) : Overflow :=
  let '(net, stratum, pool, now) := r in apply_meter c o net stratum pool now.
Definition polls (c : OverflowCfg) (o : Overflow) (rs : list reading) : Overflow := foldl (poll_meter c) o rs.
(** A share that asks a valve to flip. *)
Definition asks_flip (c : OverflowCfg) (active : bool) (share : f64) : bool :=
  if active then f64_le share (exit_pct c) else f64_le (enter_pct c) share.
Definition run_length (c : OverflowCfg) : Z := Z.max (hold_polls c) 1.

Definition step_ (c : OverflowCfg) (s : bool * Z) (share : f64) : bool * Z :=
  hysteresis s.1 s.2 share (enter_pct c) (exit_pct c) (hold_polls c).

Lemma step_eq c a h share : 0 <= h < run_length c -> hold_polls c <= u32_max ->
  step_ c (a, h) share = if asks_flip c a share then if run_length c <=? h + 1 then (negb a, 0) else (a, h + 1) else (a, 0).
Proof.
  intros Hh Hp. unfold step_, hysteresis. cbn [fst snd]. fold (asks_flip c a share).
  destruct (asks_flip c a share); [|done]. cbn [negb]. unfold run_length in *. unfold trunc. by rewrite Z.mod_small by lia.
Qed.

Lemma poll_valve c o r :
  (v_active (ov_valve (poll_meter c o r)), v_hold (ov_valve (poll_meter c o r))) =
  match metered r with
  | Some s => step_ c (v_active (ov_valve o), v_hold (ov_valve o)) s
  | None => (v_active (ov_valve o), v_hold (ov_valve o))
  end.
Proof.
  destruct r as [[[[net|] st] pool] now]; [|done]. cbn [poll_meter metered apply_meter]. unfold apply_meter, step_. cbn [fst snd].
  destruct (f64_lt _ _); [|done]. destruct (hysteresis _ _ _ _ _ _) as [na nh]. cbn.
  destruct (Bool.eqb na (v_active (ov_valve o))) eqn:E; cbn; [|done]. apply Bool.eqb_prop in E. by rewrite E.
Qed.
Lemma polls_valve c rs : forall o,
  (v_active (ov_valve (polls c o rs)), v_hold (ov_valve (polls c o rs))) =
  foldl (step_ c) (v_active (ov_valve o), v_hold (ov_valve o)) (omap metered rs).
Proof.
  induction rs as [|r rs IH]; intros o; [done|]. unfold polls in *. cbn [foldl omap list_omap]. rewrite IH, poll_valve.
  by destruct (metered r).
Qed.

Section Valve.
Context (c : OverflowCfg) (Hp : hold_polls c <= u32_max).

Lemma step_hold s x : 0 <= s.2 < run_length c -> 0 <= (step_ c s x).2 < run_length c.
Proof.
  destruct s as [a h]. cbn [snd]. intros H. rewrite step_eq by done. unfold run_length in *.
  destruct (asks_flip c a x); [|cbn; lia]. destruct (Z.max (hold_polls c) 1 <=? h + 1) eqn:E; cbn; [lia|]. apply Z.leb_gt in E. lia.
Qed.
Lemma run_hold xs : forall s, 0 <= s.2 < run_length c -> 0 <= (foldl (step_ c) s xs).2 < run_length c.
Proof. induction xs as [|x xs IH]; intros s H; [done|]. cbn [foldl]. by apply IH, step_hold. Qed.

(** With [h] asks behind it, a valve that ends otherwise than it began has seen the rest of a run. *)
Lemma flip_has_run xs : forall a h, 0 <= h < run_length c -> (foldl (step_ c) (a, h) xs).1 <> a ->
  exists pre mid post, xs = pre ++ mid ++ post /\ forallb (asks_flip c a) mid = true /\
    (Z.of_nat (length mid) = run_length c \/ pre = [] /\ h + Z.of_nat (length mid) = run_length c).
Proof.
  induction xs as [|x xs IH]; intros a h Hh H; [done|]. cbn [foldl] in H. rewrite step_eq in H by done.
  destruct (asks_flip c a x) eqn:Ex.
  - destruct (run_length c <=? h + 1) eqn:El.
    + apply Z.leb_le in El. exists [], [x], xs. cbn. rewrite Ex. split_and!; [done | done | right; split; [done | lia]].
    + apply Z.leb_gt in El. destruct (IH a (h + 1) ltac:(lia) H) as (pre & mid & post & -> & Hm & [Hl|[-> Hl]]).
      * exists (x :: pre), mid, post. split_and!; [done | done | by left].
      * exists [], (x :: mid), post. cbn. rewrite Ex, Hm. split_and!; [done | done | right; split; [done | lia]].
  - destruct (IH a 0 ltac:(lia) H) as (pre & mid & post & -> & Hm & [Hl|[-> Hl]]).
    + exists (x :: pre), mid, post. split_and!; [done | done | by left].
    + exists [x], mid, post. split_and!; [done | done | left; lia].
Qed.

(** Readings that all ask flip it before they are as many as a run. *)
Lemma run_flips xs : forall a h, 0 <= h < run_length c -> forallb (asks_flip c a) xs = true ->
  run_length c <= h + Z.of_nat (length xs) -> exists k, (k <= length xs)%nat /\ (foldl (step_ c) (a, h) (take k xs)).1 = negb a.
Proof.
  induction xs as [|x xs IH]; intros a h Hh Hx Hl; cbn in Hl; [lia|]. cbn in Hx. apply andb_true_iff in Hx as [Hx Hxs].
  destruct (run_length c <=? h + 1) eqn:El.
  - exists 1%nat. split; [cbn; lia|]. cbn [take foldl]. rewrite step_eq by done. by rewrite Hx, El.
  - apply Z.leb_gt in El. destruct (IH a (h + 1) ltac:(lia) Hxs ltac:(cbn in *; lia)) as (k & Hk & Hf).
    exists (S k). split; [cbn; lia|]. cbn [take foldl]. rewrite step_eq by done. rewrite Hx, (proj2 (Z.leb_gt _ _) El). exact Hf.
Qed.
End Valve.

(** The valve opens and shuts only on a run of readings. From a valve nobody has argued with,
    whatever the polls report: if it ends otherwise than it began, then among the polls that metered
    anything [hold_polls] in a row (one, if that is 0) were at or over [enter_pct], or at or under
    [exit_pct] when it was open; and that many in a row always flip it. A poll without a network
    hashrate counts for neither. *)
Theorem valve_needs_a_run c o rs :
  hold_polls c <= u32_max -> v_hold (ov_valve o) = 0 ->
  (is_active (polls c o rs) <> is_active o ->
     exists pre run post, omap metered rs = pre ++ run ++ post /\ Z.of_nat (length run) = run_length c /\
       forallb (asks_flip c (is_active o)) run = true) /\
  (forall r2, Z.of_nat (length (omap metered r2)) = run_length c ->
     forallb (asks_flip c (is_active (polls c o rs))) (omap metered r2) = true ->
     exists k, is_active (polls c o (rs ++ take k r2)) = negb (is_active (polls c o rs))).
Proof.
  intros Hp H0. unfold is_active. pose proof (polls_valve c rs o) as E. rewrite H0 in E.
  assert (Hn : 0 <= 0 < run_length c) by (unfold run_length; lia). split.
  - intros Hd. destruct (flip_has_run c Hp (omap metered rs) (v_active (ov_valve o)) 0 Hn) as (pre & run & post & Es & Hr & Hl).
    { rewrite <- E. exact Hd. }
    exists pre, run, post. split_and!; [done | | done]. destruct Hl as [Hl|[_ Hl]]; [done | lia].
  - intros r2 Hl Hr. set (o1 := polls c o rs) in *.
    assert (Hh : 0 <= v_hold (ov_valve o1) < run_length c).
    { pose proof (run_hold c Hp (omap metered rs) (v_active (ov_valve o), 0) Hn) as Hb. rewrite <- E in Hb. exact Hb. }
    destruct (run_flips c Hp (omap metered r2) _ _ Hh Hr ltac:(lia)) as (k & _ & Hf).
    assert (exists j, omap metered (take j r2) = take k (omap metered r2)) as [j Ej].
    { clear. revert k. induction r2 as [|r r2 IH]; intros k; [exists 0%nat; cbn; by rewrite take_nil|].
      cbn [omap list_omap]. destruct (metered r) as [s|] eqn:Em.
      - destruct k as [|k]; [by exists 0%nat|]. destruct (IH k) as [j Hj]. exists (S j). cbn [take omap list_omap]. by rewrite Em, <- Hj.
      - destruct (IH k) as [j Hj]. exists (S j). cbn [take omap list_omap]. by rewrite Em. }
    exists j. unfold polls. rewrite foldl_app. fold (polls c o rs). fold o1. fold (polls c o1 (take j r2)).
    pose proof (polls_valve c (take j r2) o1) as E1. rewrite Ej in E1. rewrite <- E1 in Hf. exact Hf.
Qed.

(** * Choosing an upstream *)

Lemma foldl_min_le ss : forall s, foldl Z.min s ss <= s /\ Forall (fun x => foldl Z.min s ss <= x) ss.
Proof.
  induction ss as [|x ss IH]; intros s; cbn [foldl]; [split; [lia|constructor]|].
  destruct (IH (Z.min s x)) as [H1 H2]. split; [lia|]. constructor; [lia|done].
Qed.
Lemma foldl_min_in ss : forall s, foldl Z.min s ss = s \/ foldl Z.min s ss ∈ ss.
Proof.
  induction ss as [|x ss IH]; intros s; cbn [foldl]; [by left|]. destruct (IH (Z.min s x)) as [->|H].
  - destruct (Z.min_spec s x) as [[_ ->]|[_ ->]]; [by left | right; left].
  - right. by right.
Qed.
Lemma least_spec ls m : least ls = Some m ->
  (true, m) ∈ ls /\ forall s, (true, s) ∈ ls -> m <= s.
Proof.
  unfold least. destruct (map snd _) as [|s ss] eqn:E; [done|]. intros [= <-].
  assert (Hin : forall x, x ∈ s :: ss <-> (true, x) ∈ ls).
  { intros x. rewrite <- E, list_elem_of_fmap. split.
    - intros ([h y] & -> & [Hh Hy]%list_elem_of_filter). cbn in *. by rewrite <- Hh.
    - intros Hx. exists (true, x). split; [done|]. by apply list_elem_of_filter. }
  destruct (foldl_min_le ss s) as [H1 H2]. split.
  - apply Hin. destruct (foldl_min_in ss s) as [->|H]; [left | by right].
  - intros x Hx%Hin. apply elem_of_cons in Hx as [->|Hx]; [done|]. by apply (proj1 (Forall_forall _ _) H2).
Qed.
Lemma least_none ls : least ls = None -> forall s, (true, s) ∉ ls.
Proof.
  unfold least. destruct (map snd _) as [|s' ss] eqn:E; [|done]. intros _ s Hs. apply map_eq_nil in E.
  assert (H : (true, s) ∈ filter (fun l : bool * Z => l.1 = true) ls) by (apply list_elem_of_filter; split; done).
  rewrite E in H. by apply elem_of_nil in H.
Qed.

Lemma pick_from_some ls m ks rr i : pick_from ls m ks rr = Some i -> ls !! i = Some (true, m).
Proof.
  induction ks as [|k ks IH]; [done|]. cbn [pick_from]. destruct (ls !! Z.to_nat _) as [[h s]|] eqn:E; [|exact IH].
  destruct h; [|exact IH]. cbn [andb]. destruct (Z.eqb_spec s m) as [->|]; [|exact IH]. intros [= <-]. exact E.
Qed.
Lemma pick_from_none ls m ks rr : pick_from ls m ks rr = None ->
  Forall (fun k => ls !! Z.to_nat (trunc u64_max (rr + Z.of_nat k) mod Z.of_nat (length ls)) <> Some (true, m)) ks.
Proof.
  induction ks as [|k ks IH]; [constructor|]. cbn [pick_from]. intros H. constructor.
  - intros E. rewrite E in H. cbn [andb] in H. by rewrite Z.eqb_refl in H.
  - apply IH. destruct (ls !! _) as [[h s]|]; [|done]. by destruct (h && _).
Qed.
(** From [rr] on, [length ls] steps pass every index. *)
Lemma round_passes (n i rr : Z) : 0 < n -> 0 <= i < n -> 0 <= rr -> exists k, 0 <= k < n /\ (rr + k) mod n = i.
Proof.
  intros Hn Hi Hr. exists ((i - rr) mod n). split; [by apply Z.mod_pos_bound|].
  rewrite Zplus_mod_idemp_r. replace (rr + (i - rr)) with i by lia. by apply Z.mod_small.
Qed.
Lemma pick_some_iff ls rr : 0 <= rr -> rr + Z.of_nat (length ls) <= u64_max ->
  (exists i, pick ls rr = Some i) <-> exists s, (true, s) ∈ ls.
Proof.
  intros Hr Hw. unfold pick. destruct ls as [|l0 ls0].
  { split; [by intros [? ?] | by intros [s H%elem_of_nil]]. }
  set (ls := l0 :: ls0) in *. destruct (least ls) as [m|] eqn:El; cbn.
  2:{ split; [by intros [? ?]|]. intros [s Hs]. by destruct (least_none _ El s). }
  destruct (least_spec _ _ El) as [Hm _]. split; [by exists m|]. intros _.
  destruct (pick_from ls m (seq 0 (length ls)) rr) as [i|] eqn:E; [by exists i|]. exfalso.
  apply list_elem_of_lookup in Hm as [i Hi]. pose proof (lookup_lt_Some _ _ _ Hi) as Hlt.
  destruct (round_passes (Z.of_nat (length ls)) (Z.of_nat i) rr) as (k & Hk & Ek); [lia | lia | done|].
  pose proof (pick_from_none _ _ _ _ E) as F. rewrite Forall_forall in F.
  apply (F (Z.to_nat k)); [apply elem_of_seq; lia|]. rewrite Z2Nat.id by lia. unfold trunc. rewrite (Z.mod_small (rr + k)) by lia.
  by rewrite Ek, Nat2Z.id.
Qed.

(** [pick] takes an upstream that is healthy and has no more sessions than any other healthy one;
    among equals it goes round from [rr]; and it finds one whenever any is healthy. *)
Theorem pick_least ls rr :
  0 <= rr -> rr + Z.of_nat (length ls) <= u64_max ->
  (forall i, pick ls rr = Some i -> exists s, ls !! i = Some (true, s) /\ forall j s', ls !! j = Some (true, s') -> s <= s') /\
  ((exists i, pick ls rr = Some i) <-> exists j s, ls !! j = Some (true, s)) /\
  (forall s, ls <> [] -> (forall j, (j < length ls)%nat -> ls !! j = Some (true, s)) ->
     pick ls rr = Some (Z.to_nat (rr mod Z.of_nat (length ls)))).
Proof.
  intros Hr Hw. split_and!.
  - intros i H. unfold pick in H. destruct ls as [|l0 ls0]; [done|]. destruct (least (l0 :: ls0)) as [m|] eqn:El; [|done].
    cbn [mbind option_bind] in H. exists m. split; [by eapply pick_from_some|]. intros j s' Hj.
    destruct (least_spec _ _ El) as [_ H']. apply H'. by eapply list_elem_of_lookup_2.
  - rewrite pick_some_iff by done. split.
    + intros [s [j Hj]%list_elem_of_lookup]. by exists j, s.
    + intros (j & s & Hj). exists s. by eapply list_elem_of_lookup_2.
  - intros s Hne Hall. destruct ls as [|l0 ls0]; [done|]. set (ls := l0 :: ls0) in *. cbn [length] in Hw.
    assert (Hl : least ls = Some s).
    { destruct (least ls) as [m|] eqn:El.
      - destruct (least_spec _ _ El) as [[j Hj]%list_elem_of_lookup _]. pose proof (lookup_lt_Some _ _ _ Hj) as Hlt.
        rewrite (Hall j Hlt) in Hj. congruence.
      - destruct (least_none _ El s). eapply list_elem_of_lookup_2. apply (Hall 0%nat). cbn. lia. }
    unfold pick. fold ls. unfold ls at 1. rewrite Hl. cbn [mbind option_bind].
    assert (Hn : 0 < Z.of_nat (length ls)) by (cbn; lia).
    change (seq 0 (length ls)) with (0%nat :: seq 1 (length ls0)). cbn [pick_from]. unfold trunc.
    rewrite Z.add_0_r, (Z.mod_small rr) by lia.
    pose proof (Z.mod_pos_bound rr (Z.of_nat (length ls)) Hn) as Hb. rewrite Hall by lia. cbn [andb]. by rewrite Z.eqb_refl.
Qed.

(** * Dialling *)

(** The other threads leave the upstreams and the round-robin alone. *)
Definition quiet (f : nat -> Overflow -> Overflow) : Prop := forall k o, f k o = o.
(** An upstream that is up and takes the connection. *)
Definition reachable (takes : nat -> bool) (o : Overflow) (i : nat) : Prop :=
  (exists u, ov_upstreams o !! i = Some u /\ up_healthy u = true) /\ takes i = true.

Lemma loads_lookup o i h s : loads o !! i = Some (h, s) <->
  exists u, ov_upstreams o !! i = Some u /\ up_healthy u = h /\ up_sessions u = s.
Proof.
  unfold loads. rewrite list_lookup_fmap. destruct (ov_upstreams o !! i) as [u|]; cbn; [|split; [done|by intros (?&?&_)]].
  split; [intros [= <- <-]; by exists u | intros (? & [= <-] & <- & <-); done].
Qed.
Definition n_healthy (o : Overflow) : nat := length (filter (fun u => up_healthy u = true) (ov_upstreams o)).
Lemma mark_down_lookup o i j : ov_upstreams (mark o i false) !! j =
  if decide (i = j) then (fun u => with_health u false) <$> ov_upstreams o !! j else ov_upstreams o !! j.
Proof.
  cbn. rewrite list_lookup_alter. by destruct (decide (i = j)) as [->|].
Qed.
Lemma mark_down_fewer o i u : ov_upstreams o !! i = Some u -> up_healthy u = true ->
  (n_healthy (mark o i false) < n_healthy o)%nat.
Proof.
  unfold n_healthy. cbn. generalize (ov_upstreams o) as us. intros us. revert i. induction us as [|v us IH]; intros i; [done|].
  destruct i as [|i].
  - intros [= ->] Hh. change (alter ?f 0%nat (u :: us)) with (f u :: us). rewrite !filter_cons.
    rewrite decide_False by (by cbn). rewrite decide_True by done. cbn. lia.
  - intros Hu Hh. specialize (IH i Hu Hh). change (alter ?f (S i) (v :: us)) with (v :: alter f i us).
    rewrite !filter_cons. case_decide; cbn [length]; lia.
Qed.

Lemma connect_tries_spec takes others n : quiet others -> forall k o,
  (n_healthy o <= n)%nat -> 0 <= ov_rr o -> ov_rr o + Z.of_nat n + Z.of_nat (length (ov_upstreams o)) <= u64_max ->
  match connect_tries (fun _ => takes) others n k o with
  | (o', Some i) => reachable takes o i /\ ov_proxied o' = ov_proxied o /\ ov_counts o' = ov_counts o
  | (o', None) => (forall i, ~ reachable takes o i) /\ n_healthy o' = 0%nat /\ ov_counts o' = ov_counts o
  end.
Proof.
  intros Q. induction n as [|n IH]; intros k o Hn Hr Hw; cbn [connect_tries].
  { split_and!; [|lia|done]. intros i ((u & Hu & Hh) & _). unfold n_healthy in Hn.
    assert (F : u ∈ filter (fun u => up_healthy u = true) (ov_upstreams o)).
    { apply list_elem_of_filter. split; [done|]. by eapply list_elem_of_lookup_2. }
    destruct (filter _ _); [by apply elem_of_nil in F | cbn in Hn; lia]. }
  unfold choose. set (o1 := set_rr o _). rewrite Q.
  assert (Hlen : length (loads o) = length (ov_upstreams o)) by apply length_map.
  destruct (pick_least (loads o) (ov_rr o)) as (Hs & He & _); [done | rewrite Hlen; lia |].
  destruct (pick (loads o) (ov_rr o)) as [i|] eqn:Ep.
  2:{ assert (Hnone : forall j u, ov_upstreams o !! j = Some u -> up_healthy u = true -> False).
      { intros j u Hu Hh. destruct He as [_ He]. destruct He as [i Hi]; [|done]. exists j, (up_sessions u). apply loads_lookup. by exists u. }
      split_and!; [intros j ((u & Hu & Hh) & _); by eapply Hnone| |done]. unfold n_healthy. cbn.
      rewrite filter_none_list; [done|]. apply Forall_forall. intros u [j Hj]%list_elem_of_lookup Hh. by eapply Hnone. }
  destruct (Hs i eq_refl) as (s & (u & Hu & Hh & _)%loads_lookup & _). destruct (takes i) eqn:Et.
  - split_and!; [|done|done]. split; [by exists u|done].
  - assert (Hf : (n_healthy (mark o1 i false) < n_healthy o1)%nat) by by eapply mark_down_fewer.
    change (n_healthy o1) with (n_healthy o) in Hf.
    assert (Er : ov_rr (mark o1 i false) = ov_rr o + 1). { cbn. unfold trunc. rewrite Z.mod_small; lia. }
    assert (El : length (ov_upstreams (mark o1 i false)) = length (ov_upstreams o)) by apply length_alter.
    specialize (IH (S k) (mark o1 i false) ltac:(lia) ltac:(lia) ltac:(lia)).
    assert (Hreach : forall j, reachable takes (mark o1 i false) j <-> reachable takes o j).
    { intros j. unfold reachable. rewrite mark_down_lookup. change (ov_upstreams o1) with (ov_upstreams o).
      destruct (decide (i = j)) as [<-|]; [|done]. rewrite Et. split; by intros [_ ?]. }
    destruct (connect_tries _ _ _ _ _) as [o' [j|]]; [rewrite <- Hreach; exact IH|].
    destruct IH as (IH1 & IH2 & IH3). split_and!; [|done|done]. intros j Hj%Hreach. by apply (IH1 j).
Qed.

(** * The gate *)

Lemma length_omap_le {A B} (f : A -> option B) l : (length (omap f l) <= length l)%nat.
Proof.
  induction l as [|x l IH]; [done|]. change (omap f (x :: l)) with (match f x with Some y => y :: omap f l | None => omap f l end).
  destruct (f x); cbn [length]; lia.
Qed.

(** A read's line, when it is one that is kept. *)
Definition line_of (r : GateRead) : option (list Z) :=
  match r with
  | GLine l => if whole_line l then Some l else None
  | GPartial l (Some more) => if negb (length more =? 0)%nat && whole_line (l ++ more) then Some (l ++ more) else None
  | _ => None
  end.
(** The reads the wait made: all but the last gave a line. *)
Definition read_well (used : list GateRead) : Prop := Forall (fun r => is_Some (line_of r)) (take (length used - 1) used).

Section Gates.
Context `{Json} (c : OverflowCfg) (canon : string -> string) (payable : string -> bool).

Lemma gate_wait_used reads : forall buf buf' user gone, gate_wait buf reads = (buf', user, gone) ->
  exists used rest, reads = used ++ rest /\ buf' = buf ++ omap line_of used /\ read_well used.
Proof.
  assert (Stop : forall (buf : list (list Z)) reads, exists used rest, reads = used ++ rest /\ buf = buf ++ omap line_of used /\ read_well used).
  { intros buf rs. exists [], rs. cbn. rewrite app_nil_r. split_and!; [done | done | constructor]. }
  induction reads as [|r reads IH]; intros buf buf' user gone; cbn [gate_wait]; destruct (_ <=? _)%nat.
  1-3: by intros [= <- <- <-]; apply Stop.
  assert (One : forall x, line_of r = x -> exists used rest, r :: reads = used ++ rest /\ buf ++ option_list x = buf ++ omap line_of used /\ read_well used).
  { intros x <-. exists [r], reads. cbn. split_and!; [done | by destruct (line_of r) | constructor]. }
  destruct r as [l|l rest| |].
  - destruct (whole_line l) eqn:Ew; cbn [negb].
    2:{ intros [= <- <- <-]. by apply Stop. }
    destruct (authorize_user l).
    + intros [= <- <- <-]. apply (One (Some l)). cbn. by rewrite Ew.
    + intros (used & rest & -> & -> & W)%IH. exists (GLine l :: used), rest. split; [done|]. cbn [omap list_omap line_of].
      rewrite Ew, <- app_assoc. split; [done|]. unfold read_well in *. cbn [length].
      replace (S (length used) - 1)%nat with (length used) by lia. destruct used as [|u used]; [constructor|]. cbn [length] in *.
      replace (S (length used) - 1)%nat with (length used) in W by lia. cbn [take]. constructor; [cbn; by rewrite Ew|done].
  - destruct rest as [more|]; [|by intros [= <- <- <-]; apply Stop]. destruct (_ && _) eqn:Ew.
    + intros [= <- <- <-]. apply (One (Some (l ++ more))). cbn. by rewrite Ew.
    + intros [= <- <- <-]. by apply Stop.
  - intros [= <- <- <-]. by apply Stop.
  - intros [= <- <- <-]. by apply Stop.
Qed.

(** What the gate has asked of a session before it dials. *)
Definition stranger (o : Overflow) (ip : IpAddr) (now : Z) : Prop :=
  considering o = true /\ ip_grandfathered c o ip now = false /\ ip_unpayable o ip now = false /\ ip_churned o ip now = false.
Definition valve_open (o : Overflow) : Prop := mode o = Force \/ mode o = Auto /\ is_active o = true.
Definition may_relay (o : Overflow) (user : string) (gone : bool) (now : Z) : Prop :=
  valve_open o /\ ident_grandfathered c o (canon user) now = false /\
  (if decide (user = ""%string) then gone = false else payable user = true).

Lemma decide_dials o g : (exists i, decide_ (mode o) (is_active o) g (Some 0%nat) = Proxy i) <-> valve_open o /\ g = false.
Proof.
  unfold decide_, valve_open. destruct (mode o), (is_active o), g; cbn [negb orb andb]; repeat case_bool_decide; try done;
    (split; [intros [? E]; try done; auto | intros [[?|[??]] ?]; try done; by eexists]).
Qed.
Lemma decides_inv o env buf user gone :
  (gate_decides c canon payable o env buf user gone).2 <> None -> may_relay o user gone (ge_after env).
Proof.
  unfold gate_decides, may_relay. intros Hd. pose proof (decide_dials o (ident_grandfathered c o (canon user) (ge_after env))) as Dd.
  destruct (decide (user = ""%string)) as [->|Hu].
  - rewrite bool_decide_true, andb_true_r in Hd by done. destruct gone; [done|]. cbn [negb andb] in Hd.
    destruct (decide_ _ _ _ _) eqn:E; try done; [|destruct (proj1 Dd) as [Hv Hg]; [by eexists | split_and!; done]]. exfalso.
    unfold decide_ in E. by repeat case_match.
  - rewrite bool_decide_false, andb_false_r in Hd by done. cbn [negb andb] in Hd. destruct (payable user) eqn:Ep; [|done].
    cbn [negb] in Hd. destruct (decide_ _ _ _ _) eqn:E; try done; [|destruct (proj1 Dd) as [Hv Hg]; [by eexists | split_and!; done]]. exfalso.
    unfold decide_ in E. by repeat case_match.
Qed.
Lemma decides_dials o env buf user gone : may_relay o user gone (ge_after env) ->
  gate_decides c canon payable o env buf user gone =
  match connect_choice (ge_dial env) (ge_others env) o with (o', None) => (count_fail_open o', None) | r => r end.
Proof.
  unfold gate_decides, may_relay. intros (Hv & Hg & Hu).
  destruct (proj2 (decide_dials o (ident_grandfathered c o (canon user) (ge_after env))) (conj Hv Hg)) as [i Ei].
  destruct (decide (user = ""%string)) as [->|Hn].
  - rewrite bool_decide_true, Hu by done. cbn [negb andb]. rewrite Ei. by destruct (connect_choice _ _ _) as [? [?|]].
  - rewrite bool_decide_false, andb_false_r, Hu by done. cbn [negb andb]. rewrite Ei. by destruct (connect_choice _ _ _) as [? [?|]].
Qed.
Lemma gate_opens o id ip first env :
  stranger o ip (ge_now env) \/ gate c canon payable o id ip first env = (o, ServeLocal [], None).
Proof.
  unfold gate, stranger. destruct (considering o), (ip_grandfathered c o ip _), (ip_unpayable o ip _), (ip_churned o ip _); cbn; auto.
Qed.
Lemma gate_of_stranger o id ip first env : stranger o ip (ge_now env) ->
  gate c canon payable o id ip first env =
  let '(buf, user, gone) := gate_wait [] (ge_reads env) in
  match gate_decides c canon payable (ge_wait env o) env buf user gone with
  | (o, None) => (o, ServeLocal buf, None)
  | (o, Some idx) =>
      let row := {| px_ip := ip; px_user := user; px_identity := canon user; px_upstream := idx; px_since := ge_since env |} in
      let r := pump c canon payable (relay_begins o id row) (ge_banner env) (ge_start env) (as_line first :: buf) (ge_written env)
                 (bool_decide (user = ""%string)) id ip (ge_events env) in
      (relay_ended r id ip idx (ge_end env), Relayed, Some r)
  end.
Proof. unfold gate, stranger. intros (-> & -> & -> & ->). done. Qed.
End Gates.

(** C26: Only strangers are sent away. When the gate relays a session, its source was not remembered
    as ours, as one that no pool can pay or as one whose relays keep dying; the valve was forced, or
    automatic and open, when the wait was over; nobody had hung up; and the name, if one had come, is
    one that can be paid and not one of ours. *)
Theorem only_strangers_leave `{Json} c canon payable o id ip first env o' r :
  gate c canon payable o id ip first env = (o', Relayed, r) ->
  stranger c o ip (ge_now env) /\
  (let '(buf, user, gone) := gate_wait [] (ge_reads env) in
   may_relay c canon payable (ge_wait env o) user gone (ge_after env)).
Proof.
  intros E. destruct (gate_opens c canon payable o id ip first env) as [S|E0]; [|by rewrite E0 in E]. split; [done|].
  rewrite gate_of_stranger in E by done. destruct (gate_wait [] (ge_reads env)) as [[buf user] gone].
  apply (decides_inv c canon payable _ env buf). intros E1. destruct (gate_decides _ _ _ _ _ _ _) as [o1 [i|]]; [done|]. by injection E.
Qed.

(** The gate fails open, and only then. A stranger that may be relayed is relayed whenever some
    healthy upstream takes the connection, however many others refuse it; when none does, every
    upstream is down on the books, the session is served here with the lines read so far, and that is
    counted. *)
Theorem fails_open_only_then `{Json} c canon payable o id ip first env takes :
  stranger c o ip (ge_now env) ->
  (let '(buf, user, gone) := gate_wait [] (ge_reads env) in
   may_relay c canon payable (ge_wait env o) user gone (ge_after env)) ->
  quiet (ge_others env) -> ge_dial env = (fun _ => takes) ->
  let o1 := ge_wait env o in
  0 <= ov_rr o1 -> ov_rr o1 + 2 * Z.of_nat (length (ov_upstreams o1)) + 1 <= u64_max ->
  match gate c canon payable o id ip first env with
  | (_, Relayed, Some _) => exists i, reachable takes o1 i
  | (o', ServeLocal ls, None) =>
      (forall i, ~ reachable takes o1 i) /\ n_healthy o' = 0%nat /\ ls = (gate_wait [] (ge_reads env)).1.1 /\
      n_fail_open (ov_counts o') = trunc u64_max (n_fail_open (ov_counts o1) + 1)
  | _ => False
  end.
Proof.
  intros S M Q D o1 Hr Hw. rewrite gate_of_stranger by done. destruct (gate_wait [] (ge_reads env)) as [[buf user] gone].
  rewrite decides_dials by done. fold o1. unfold connect_choice. rewrite D.
  assert (Hn : (n_healthy o1 <= length (ov_upstreams o1))%nat) by apply length_filter.
  pose proof (connect_tries_spec takes (ge_others env) (Nat.max (length (ov_upstreams o1)) 1) Q 0%nat o1 ltac:(lia) Hr ltac:(lia)) as C.
  destruct (connect_tries _ _ _ _ _) as [o2 [i|]] eqn:E2.
  - exists i. apply C.
  - destruct C as (C1 & C2 & C3). split_and!; [done | done | done |]. cbn. by rewrite C3.
Qed.

(** * What a relay passes on *)

Definition miner_lines (es : list RelayEvent) : list (list Z) :=
  omap (fun e => match e with FromMiner _ _ (Line l) _ => Some l | _ => None end) es.
Definition upstream_lines (es : list RelayEvent) : list (list Z) :=
  omap (fun e => match e with FromUpstream (Line l) _ _ => Some l | _ => None end) es.

Section Passing.
Context `{Json} (c : OverflowCfg) (canon : string -> string) (payable : string -> bool).
Abbreviation step := (relay_step c canon payable).

(** Of the lines [ls] a direction read it passed on [got]: all of them while it is open. *)
Definition passing (open : bool) (got ls : list (list Z)) : Prop := got `prefix_of` ls /\ (open = true -> got = ls).

Lemma passing_closed b got ls l : passing b got ls -> passing false got (ls ++ l).
Proof. intros [P1 _]. split; [by apply prefix_app_r | done]. Qed.
Lemma passing_more b got ls l : passing b got ls -> b = true -> passing b (got ++ [l]) (ls ++ [l]).
Proof. intros [_ H1] H2. rewrite (H1 H2). by split. Qed.

Lemma miner_line_up r sniff id ip at_ now l wrote base got ls :
  rl_up r = true -> rl_to_up r = base ++ got -> passing true got ls ->
  let r' := miner_line c canon payable r sniff id ip at_ now l wrote in
  exists got', rl_to_up r' = base ++ got' /\ passing (rl_up r') got' (ls ++ [l]) /\
    rl_down r' = rl_down r /\ rl_banner r' = rl_banner r /\ rl_to_miner r' = rl_to_miner r.
Proof.
  intros Hu Ht P. unfold miner_line. cbv zeta. set (meter := if secs 1 <=? _ then _ else _). destruct meter as [sec_at n].
  destruct (_ <? _). { exists got. cbn. split_and!; try done. by eapply passing_closed. }
  set (r1 := counted _ _ _ _).
  assert (H1 : exists (r2 : Relay) (go : bool), (match authorize_user l with
      | Some u => if sniff then let '(o, b, f) := on_authorize c canon payable (rl_ov r1) id ip u now in (with_ov r1 o b f, negb (b || f)) else (r1, true)
      | None => (r1, true) end) = (r2, go) /\ rl_up r2 = true /\ rl_to_up r2 = base ++ got /\ rl_down r2 = rl_down r /\
      rl_banner r2 = rl_banner r /\ rl_to_miner r2 = rl_to_miner r).
  { destruct (authorize_user l); [destruct sniff|]; [destruct (on_authorize _ _ _ _ _ _ _ _) as [[? ?] ?]| |];
      eexists _, _; split; try reflexivity; cbn; by split_and!. }
  destruct H1 as (r2 & go & -> & Hu2 & Ht2 & Hd & Hb & Hm). destruct go; [destruct wrote|].
  - exists (got ++ [l]). cbn. rewrite Ht2, app_assoc, Hu2. split_and!; try done. by eapply passing_more.
  - exists got. cbn. split_and!; try done. by eapply passing_closed.
  - exists got. cbn. split_and!; try done. by eapply passing_closed.
Qed.

Definition kept_line (l : list Z) : bool := negb (redirects l).
Definition kept_lines (ls : list (list Z)) : list (list Z) := filter (fun l => kept_line l = true) ls.
(** What the miner got of [got]: as it is, or with the banner after the first reply that is [true]. *)
Definition announced (r : Relay) (banner : list Z) (got : list (list Z)) : Prop :=
  match rl_banner r with
  | Some m => m = banner /\ rl_to_miner r = got /\ (rl_down r = true -> Forall (fun l => is_true_result l = false) got)
  | None => exists l1 l l2, got = l1 ++ l :: l2 /\ Forall (fun l => is_true_result l = false) l1 /\ is_true_result l = true /\
              rl_to_miner r = l1 ++ l :: banner :: l2
  end.

Lemma upstream_line_down r banner l w wb got ls :
  rl_down r = true -> announced r banner got -> passing true got (kept_lines ls) ->
  let r' := upstream_line r l w wb in
  exists got', announced r' banner got' /\ passing (rl_down r') got' (kept_lines (ls ++ [l])) /\
    rl_up r' = rl_up r /\ rl_to_up r' = rl_to_up r.
Proof.
  intros Hd A P. unfold upstream_line. assert (Hk : kept_lines (ls ++ [l]) = kept_lines ls ++ (if kept_line l then [l] else [])).
  { unfold kept_lines. rewrite filter_app, filter_cons, filter_nil. by destruct (kept_line l). }
  rewrite Hk. unfold kept_line. set (r1 := counted _ _ _ _). assert (A1 : announced r1 banner got) by exact A.
  destruct (redirects l); cbn [negb].
  { exists got. rewrite app_nil_r. cbn. rewrite Hd. by split_and!. }
  destruct w; cbn [negb].
  2:{ exists got. split_and!; try done; [|by eapply passing_closed]. unfold announced in *. cbn in *.
      destruct (rl_banner r); [|done]. destruct A as (? & ? & ?). by split_and!. }
  assert (Hp : passing (rl_down r) (got ++ [l]) (kept_lines ls ++ [l])) by (apply passing_more; [by rewrite Hd | done]).
  unfold announced in A1. cbn [sent_down rl_banner]. change (rl_banner r1) with (rl_banner r) in *.
  destruct (rl_banner r) as [m|] eqn:Em.
  - destruct A1 as (-> & Hm & Hf). destruct (is_true_result l) eqn:Et.
    + destruct wb.
      * exists (got ++ [l]). split; [|by split_and!]. unfold announced. cbn. exists got, l, []. split_and!; [done | by apply Hf | done |].
        change (rl_to_miner r) with (rl_to_miner r1). by rewrite Hm, <- app_assoc.
      * exists (got ++ [l]). split; [|split_and!; try done; by destruct Hp]. unfold announced. cbn. rewrite ?Em. split_and!; try done.
        change (rl_to_miner r) with (rl_to_miner r1). by rewrite Hm.
    + exists (got ++ [l]). split; [|by split_and!]. unfold announced. cbn. rewrite ?Em. split_and!; [done | |].
      * change (rl_to_miner r) with (rl_to_miner r1). by rewrite Hm.
      * intros H'. apply Forall_app. split; [by apply Hf | by repeat constructor].
  - destruct A1 as (l1 & x & l2 & -> & Hf & Hx & Hm). exists ((l1 ++ x :: l2) ++ [l]). split; [|by split_and!].
    unfold announced. cbn. rewrite ?Em. exists l1, x, (l2 ++ [l]). split_and!; [by rewrite <- app_assoc | done | done |].
    change (rl_to_miner r) with (rl_to_miner r1). by rewrite Hm, <- app_assoc.
Qed.

(** Both directions of a relay that has seen [es]. *)
Definition passed_on (r : Relay) (base : list (list Z)) (banner : list Z) (es : list RelayEvent) : Prop :=
  exists up down, rl_to_up r = base ++ up /\ passing (rl_up r) up (miner_lines es) /\
    announced r banner down /\ passing (rl_down r) down (kept_lines (upstream_lines es)).

Lemma relay_step_passes sniff id ip r base banner es e :
  passed_on r base banner es -> passed_on (step sniff id ip r e) base banner (es ++ [e]).
Proof.
  intros (up & down & Hu & Pu & A & Pd). unfold passed_on, miner_lines, upstream_lines. rewrite !omap_app.
  assert (Skip : forall r', rl_to_up r' = rl_to_up r -> rl_to_miner r' = rl_to_miner r -> rl_banner r' = rl_banner r ->
      (rl_up r' = true -> rl_up r = true) -> (rl_down r' = true -> rl_down r = true) ->
      forall xs ys, (rl_up r' = true -> xs = []) -> (rl_down r' = true -> ys = []) ->
      exists up down, rl_to_up r' = base ++ up /\ passing (rl_up r') up (miner_lines es ++ xs) /\
        announced r' banner down /\ passing (rl_down r') down (kept_lines (upstream_lines es ++ ys))).
  { intros r' E1 E2 E3 E4 E5 xs ys Hx Hy. exists up, down. rewrite E1. split_and!; [done | | |].
    - destruct Pu as [Pu1 Pu2]. split; [by apply prefix_app_r|]. intros Ho. rewrite Hx, app_nil_r by done. by apply Pu2, E4.
    - unfold announced in *. rewrite E3. destruct (rl_banner r); [|by rewrite E2]. destruct A as (? & ? & ?).
      rewrite E2. split_and!; try done. intros ?. by auto.
    - destruct Pd as [Pd1 Pd2]. unfold kept_lines in *. rewrite filter_app. split; [by apply prefix_app_r|]. intros Ho.
      rewrite Hy, filter_nil, app_nil_r by done. by apply Pd2, E5. }
  destruct e as [at_ now rd w|rd w wb|f]; cbn [relay_step omap list_omap].
  - destruct (rl_up r) eqn:Eu; cbn [negb]. 2:{ destruct rd; apply Skip; congruence. }
    destruct rd as [l|]; [|apply Skip; cbn; congruence]. destruct (whole_line l); [|apply Skip; cbn; congruence].
    destruct (miner_line_up r sniff id ip at_ now l w base up (miner_lines es) Eu Hu) as (up' & H1 & H2 & H3 & H4 & H5); [first [exact Pu | rewrite Eu in Pu; exact Pu]|].
    exists up', down. rewrite app_nil_r, H3. split_and!; [done | done | | done].
    unfold announced in *. by rewrite H3, H4, H5.
  - destruct (rl_down r) eqn:Ed; cbn [negb]. 2:{ destruct rd; apply Skip; congruence. }
    destruct rd as [l|]; [|apply Skip; cbn; congruence]. destruct (whole_line l); [|apply Skip; cbn; congruence].
    destruct (upstream_line_down r banner l w wb down (upstream_lines es) Ed A) as (down' & H1 & H2 & H3 & H4); [first [exact Pd | rewrite Ed in Pd; exact Pd]|].
    exists up, down'. rewrite app_nil_r, H3, H4. by split_and!.
  - apply Skip; cbn; done.
Qed.
Lemma relay_passes sniff id ip base banner es2 : forall r es,
  passed_on r base banner es -> passed_on (foldl (step sniff id ip) r es2) base banner (es ++ es2).
Proof.
  induction es2 as [|e es2 IH]; intros r es P; cbn [foldl]; [by rewrite app_nil_r|].
  replace (es ++ e :: es2) with ((es ++ [e]) ++ es2) by by rewrite <- app_assoc. apply IH. by apply relay_step_passes.
Qed.
Lemma pump_passes o banner start initial written sniff id ip es : (length initial <= written)%nat ->
  passed_on (pump c canon payable o banner start initial written sniff id ip es) initial banner es.
Proof.
  intros Hw. unfold pump. apply (relay_passes sniff id ip initial banner es (relay_start o banner start initial written) []).
  exists [], []. unfold relay_start, passing, announced. cbn. rewrite take_ge, app_nil_r by done. by split_and!.
Qed.
End Passing.


(** A redirection is dropped by the spelling of its method, not by what it says: one whose JSON
    writes the name with an escape is the same method to the miner, and is passed on to it. *)
Theorem escaped_redirect_passes `{Json} c canon payable sniff id ip r l :
  rl_down r = true -> whole_line l = true -> is_method l RECONNECT = true -> contains (str_bytes RECONNECT) l = false ->
  rl_banner r = None ->
  rl_to_miner (relay_step c canon payable sniff id ip r (FromUpstream (Line l) true true)) = rl_to_miner r ++ [l].
Proof.
  intros Hd Hw Hm Hc Hb. cbn [relay_step]. rewrite Hd, Hw. cbn [negb]. unfold upstream_line, redirects. rewrite Hm, Hc.
  cbn. by rewrite Hb.
Qed.

(** * Verdicts *)

Section Verdicts.
Context `{Json} (c : OverflowCfg) (canon : string -> string) (payable : string -> bool).

(** After [n] lines sent up: every share is unanswered, forgotten, or has one verdict. *)
Definition tallied (n : Z) (st : RelayStats) : Prop :=
  0 <= accepted st /\ 0 <= rejected st /\ accepted st + rejected st + Z.of_nat (length (pending st)) <= submits st <= n /\
  (length (pending st) <= MAX_PENDING_SUBMITS)%nat.

Lemma take_pending_len i q q' : take_pending i q = Some q' -> length q = S (length q').
Proof.
  revert q'. induction q as [|p q IH]; intros q'; [done|]. cbn [take_pending]. destruct (value_eqb p i); [by intros [= <-]|].
  destruct (take_pending i q) as [q1|]; [|done]. intros [= <-]. cbn. by rewrite (IH q1).
Qed.
Lemma note_submit_tallied n st l : tallied n st -> n + 1 <= u64_max -> tallied (n + 1) (note_submit st l).
Proof.
  intros (Ha & Hr & Hs & Hp) Hn. assert (W : tallied (n + 1) st) by (unfold tallied; lia). unfold note_submit.
  destruct (from_str l) as [v|]; [|done]. destruct (negb _); [done|].
  set (q := if (MAX_PENDING_SUBMITS <=? length (pending st))%nat then tail (pending st) else pending st).
  assert (Hq : (length q <= length (pending st))%nat /\ (length q < MAX_PENDING_SUBMITS)%nat).
  { unfold q. destruct (Nat.leb_spec MAX_PENDING_SUBMITS (length (pending st))); [|lia].
    assert (length (tail (pending st)) = length (pending st) - 1)%nat by (destruct (pending st); cbn [tail length]; lia).
    assert (0 < MAX_PENDING_SUBMITS)%nat by (apply Nat.ltb_lt; reflexivity). lia. }
  unfold tallied. cbn [accepted rejected submits pending]. unfold trunc. rewrite Z.mod_small by lia.
  destruct (reply_id v) as [i|]; [|lia]. rewrite length_app. cbn [length]. lia.
Qed.
Lemma note_reply_tallied n st l : tallied n st -> n <= u64_max -> tallied n (note_reply st l).1.
Proof.
  intros (Ha & Hr & Hs & Hp) Hn. unfold note_reply.
  destruct (v ← from_str l; _) as [[v q]|] eqn:E; [|unfold tallied; cbn; lia].
  destruct (from_str l) as [v1|]; [|done]. cbn [mbind option_bind] in E. destruct (no_method v1); [|done].
  destruct (reply_id v1) as [i|]; [|done]. cbn [mbind option_bind] in E. destruct (take_pending i (pending st)) as [q'|] eqn:Et; [|done].
  injection E as -> ->. pose proof (take_pending_len _ _ _ Et). unfold tallied, trunc.
  destruct (result_true v); cbn; rewrite Z.mod_small by lia; lia.
Qed.

Lemma step_tallied sniff id ip r e n : tallied n (rl_stats r) -> n + 1 <= u64_max ->
  tallied (n + 1) (rl_stats (relay_step c canon payable sniff id ip r e)).
Proof.
  intros T Hn. assert (W : tallied (n + 1) (rl_stats r)) by (unfold tallied in *; lia).
  destruct e as [at_ now rd w|rd w wb|f]; cbn [relay_step]; [| |done].
  - destruct (rl_up r); [|done]. destruct rd as [l|]; [|done]. cbn [negb]. destruct (whole_line l); [|done].
    unfold miner_line. cbv zeta. set (meter := if secs 1 <=? _ then _ else _). destruct meter as [sec_at k].
    destruct (_ <? _); [done|]. set (r1 := counted _ _ _ _).
    assert (T1 : tallied (n + 1) (rl_stats r1)) by by apply note_submit_tallied.
    destruct (authorize_user l); [destruct sniff|]; [destruct (on_authorize _ _ _ _ _ _ _ _) as [[? ?] ?]; destruct (negb _)| |];
      by destruct w.
  - destruct (rl_down r); [|done]. destruct rd as [l|]; [|done]. cbn [negb]. destruct (whole_line l); [|done].
    unfold upstream_line. assert (T1 : tallied (n + 1) (note_reply (rl_stats r) l).1) by (apply note_reply_tallied; [done | lia]).
    destruct (redirects l); [done|]. destruct w; [|done]. cbn. destruct (rl_banner r); [|done]. destruct (is_true_result l); [|done].
    by destruct wb.
Qed.
End Verdicts.

(** A verdict is counted once and only for a share that was sent: over any relay, the shares the
    upstream accepted, those it refused and those it has yet to answer are together no more than the
    shares sent up, which are no more than the lines; and no more than 256 are remembered. *)
Theorem verdicts_are_shares `{Json} c canon payable o banner start initial written sniff id ip es :
  Z.of_nat (length initial + length es) <= u64_max ->
  let st := rl_stats (pump c canon payable o banner start initial written sniff id ip es) in
  0 <= accepted st /\ 0 <= rejected st /\
  accepted st + rejected st + Z.of_nat (length (pending st)) <= submits st <= Z.of_nat (length initial + length es) /\
  (length (pending st) <= 256)%nat.
Proof.
  intros Hn. cbv zeta. change (tallied (Z.of_nat (length initial + length es)) (rl_stats (pump c canon payable o banner start initial written sniff id ip es))).
  assert (T0 : forall ls n st, tallied n st -> n + Z.of_nat (length ls) <= u64_max -> tallied (n + Z.of_nat (length ls)) (foldl note_submit st ls)).
  { induction ls as [|l ls IH]; intros n st T Hb; cbn [foldl length] in *; [by rewrite Z.add_0_r|].
    replace (n + Z.of_nat (S (length ls))) with ((n + 1) + Z.of_nat (length ls)) by lia. apply IH; [|lia].
    apply note_submit_tallied; [done | lia]. }
  assert (T1 : forall es n r, tallied n (rl_stats r) -> n + Z.of_nat (length es) <= u64_max ->
    tallied (n + Z.of_nat (length es)) (rl_stats (foldl (relay_step c canon payable sniff id ip) r es))).
  { induction es0 as [|e es0 IH]; intros n r T Hb; cbn [foldl length] in *; [by rewrite Z.add_0_r|].
    replace (n + Z.of_nat (S (length es0))) with ((n + 1) + Z.of_nat (length es0)) by lia. apply IH; [|lia].
    apply step_tallied; [done | lia]. }
  rewrite Nat2Z.inj_add. apply T1; [|lia]. cbn [relay_start rl_stats].
  assert (Hl : (length (take written initial) <= length initial)%nat) by (rewrite length_take; lia).
  assert (T2 : tallied (0 + Z.of_nat (length (take written initial))) (foldl note_submit stats_new (take written initial))).
  { apply T0; [|lia]. unfold tallied. cbn. unfold MAX_PENDING_SUBMITS. lia. }
  unfold tallied in *. lia.
Qed.

(** * Sessions on the books *)

(** An upstream has as many sessions as there are rows that name it. *)
Definition rows_of (o : Overflow) (i : nat) : nat := size (filter (fun e : Z * ProxySession => px_upstream e.2 = i) (ov_proxied o)).
Definition rows_counted (o : Overflow) : Prop :=
  forall i u, ov_upstreams o !! i = Some u -> up_sessions u = trunc u64_max (Z.of_nat (rows_of o i)).
(** What the other threads leave of a relay's row. *)
Definition row_at (o : Overflow) (id : Z) : option nat := px_upstream <$> ov_proxied o !! id.
Definition keeps_row (id : Z) (f : Overflow -> Overflow) : Prop :=
  forall o, (rows_counted o -> rows_counted (f o)) /\ row_at (f o) id = row_at o id.

Lemma rows_counted_ext o o' : ov_proxied o' = ov_proxied o ->
  (forall i, up_sessions <$> ov_upstreams o' !! i = up_sessions <$> ov_upstreams o !! i) -> rows_counted o -> rows_counted o'.
Proof.
  intros Ep Eu R i u Hu. specialize (Eu i). rewrite Hu in Eu. destruct (ov_upstreams o !! i) as [u0|] eqn:E0; [|done].
  cbn in Eu. injection Eu as ->. unfold rows_of. rewrite Ep. by apply R.
Qed.
Lemma alter_sessions (f : Upstream -> Upstream) us i j : (forall u, up_sessions (f u) = up_sessions u) ->
  up_sessions <$> alter f i us !! j = up_sessions <$> (us : list Upstream) !! j.
Proof.
  intros Hf. rewrite list_lookup_alter. destruct (decide (i = j)) as [->|]; [|done]. destruct (us !! j); cbn; [by rewrite Hf|done].
Qed.
Lemma filter_size_insert (m : gmap Z ProxySession) id row i : m !! id = None ->
  size (filter (fun e : Z * ProxySession => px_upstream e.2 = i) (<[id := row]> m)) =
  ((if decide (px_upstream row = i) then 1 else 0) + size (filter (fun e : Z * ProxySession => px_upstream e.2 = i) m))%nat.
Proof.
  intros Hn. destruct (decide (px_upstream row = i)) as [E|E].
  - rewrite map_filter_insert_True by done. rewrite map_size_insert_None; [done|]. apply map_lookup_filter_None. by left.
  - rewrite map_filter_insert_False by done. by rewrite delete_id.
Qed.
(** A row's count moves with its upstream only. *)
Lemma filter_size_at (m : gmap Z ProxySession) id p i : m !! id = Some p ->
  size (filter (fun e : Z * ProxySession => px_upstream e.2 = i) m) =
  ((if decide (px_upstream p = i) then 1 else 0) + size (filter (fun e : Z * ProxySession => px_upstream e.2 = i) (delete id m)))%nat.
Proof.
  intros Hp. rewrite <- (insert_id _ _ _ Hp) at 1. rewrite <- (insert_delete_eq m id p).
  apply filter_size_insert. apply lookup_delete_eq.
Qed.
Lemma name_row_rows o id user ident i : rows_of (name_row o id user ident) i = rows_of o i.
Proof.
  unfold rows_of, name_row. cbn. destruct (ov_proxied o !! id) as [p|] eqn:E.
  - erewrite (filter_size_at (alter _ _ _)) by (rewrite lookup_alter_eq, E; done). cbn.
    rewrite delete_alter_eq. by rewrite (filter_size_at _ _ _ i E).
  - rewrite alter_id; [done|]. intros p Hp. by rewrite E in Hp.
Qed.

Lemma trunc_succ a b : trunc u64_max a = trunc u64_max b -> trunc u64_max (a + 1) = trunc u64_max (b + 1).
Proof. unfold trunc. intros E. by rewrite (Z.add_mod a), (Z.add_mod b), E by lia. Qed.

Section Rows.
Context `{Json} (c : OverflowCfg) (canon : string -> string) (payable : string -> bool) (id : Z).
(** The rows in order, with this session's row as it stands. *)
Definition rows_ok (at_ : option nat) (o : Overflow) : Prop := rows_counted o /\ row_at o id = at_.

Lemma rows_ok_ext a o o' : ov_proxied o' = ov_proxied o ->
  (forall i, up_sessions <$> ov_upstreams o' !! i = up_sessions <$> ov_upstreams o !! i) -> rows_ok a o -> rows_ok a o'.
Proof.
  intros Ep Eu [R1 R2]. split; [by eapply rows_counted_ext|]. unfold row_at in *. by rewrite Ep.
Qed.
Lemma name_row_ok a o user ident : rows_ok a o -> rows_ok a (name_row o id user ident).
Proof.
  intros [R1 R2]. split.
  - intros i u Hu. rewrite name_row_rows. by apply R1.
  - unfold row_at, name_row in *. cbn. rewrite lookup_alter_eq. by destruct (ov_proxied o !! id).
Qed.
Lemma on_authorize_ok a o ip u now : rows_ok a o -> rows_ok a (on_authorize c canon payable o id ip u now).1.1.
Proof.
  intros R. apply (name_row_ok _ _ (printable u) (canon u)) in R. unfold on_authorize.
  destruct (ident_grandfathered _ _ _ _); [|destruct (negb _)]; (eapply rows_ok_ext; [done | done | exact R]).
Qed.
Lemma relay_step_ok a sniff ip r e :
  match e with Meanwhile f => keeps_row id f | _ => True end ->
  rows_ok a (rl_ov r) -> rows_ok a (rl_ov (relay_step c canon payable sniff id ip r e)).
Proof.
  intros K R. destruct e as [at_ now rd w|rd w wb|f]; cbn [relay_step].
  - destruct (rl_up r); [|done]. destruct rd as [l|]; [|done]. cbn [negb]. destruct (whole_line l); [|done].
    unfold miner_line. cbv zeta. set (meter := if secs 1 <=? _ then _ else _). destruct meter as [sec_at k].
    destruct (_ <? _); [done|].
    destruct (authorize_user l) as [u|]; [destruct sniff|]; [|by destruct w|by destruct w].
    pose proof (on_authorize_ok a _ ip u now R) as R'. destruct (on_authorize _ _ _ _ _ _ _ _) as [[o b] f]. cbn in R'.
    destruct (negb _); [by destruct w | done].
  - destruct (rl_down r); [|done]. destruct rd as [l|]; [|done]. cbn [negb]. destruct (whole_line l); [|done].
    unfold upstream_line. destruct (redirects l); [done|]. destruct w; [|done]. cbn.
    destruct (rl_banner r); [|done]. destruct (is_true_result l); [|done]. by destruct wb.
  - cbn. destruct (K (rl_ov r)) as [K1 K2], R as [R1 R2]. split; [by apply K1 | by rewrite K2].
Qed.

Lemma connect_ok a dial others n : (forall k, keeps_row id (others k)) -> forall k o, rows_ok a o ->
  rows_ok a (connect_tries dial others n k o).1.
Proof.
  intros K. induction n as [|n IH]; intros k o R; [done|]. cbn [connect_tries]. unfold choose.
  destruct (pick _ _) as [i|]; [|by eapply rows_ok_ext; [..|exact R]].
  set (o1 := set_rr o _). assert (R1 : rows_ok a (others k o1)).
  { destruct (K k o1) as [K1 K2]. assert (R0 : rows_ok a o1) by (by eapply rows_ok_ext; [..|exact R]).
    destruct R0 as [R0 R0']. split; [by apply K1 | by rewrite K2]. }
  destruct (dial k i); [done|]. apply IH. apply (rows_ok_ext a (others k o1)); [done| |exact R1]. intros j. cbn. by apply alter_sessions.
Qed.

Lemma begins_ok o row : rows_ok None o -> rows_ok (Some (px_upstream row)) (relay_begins o id row).
Proof.
  intros [R1 R2]. unfold row_at in R2. destruct (ov_proxied o !! id) eqn:E; [done|]. split.
  - intros i u. unfold rows_of. cbn. rewrite list_lookup_alter, filter_size_insert by done.
    destruct (decide (px_upstream row = i)) as [->|]; [|by apply R1].
    destruct (ov_upstreams o !! i) as [u0|] eqn:Eu; [|done]. cbn. intros [= <-]. cbn. rewrite (R1 _ _ Eu).
    replace (Z.of_nat (S (size (filter (fun e : Z * ProxySession => px_upstream e.2 = i) (ov_proxied o)))))
      with (Z.of_nat (rows_of o i) + 1) by (unfold rows_of; lia).
    apply trunc_succ. unfold trunc. by rewrite Z.mod_mod by lia.
  - unfold row_at. cbn. by rewrite lookup_insert_eq.
Qed.
Lemma released_ok o idx : rows_ok (Some idx) o -> rows_ok None (relay_released o id idx).
Proof.
  intros [R1 R2]. unfold row_at in R2. destruct (ov_proxied o !! id) as [p|] eqn:E; [|done]. injection R2 as Ei. split.
  - intros i u. unfold rows_of. cbn. rewrite list_lookup_alter. pose proof (filter_size_at _ _ _ i E) as F. rewrite Ei in F.
    destruct (decide (idx = i)) as [->|].
    + destruct (ov_upstreams o !! i) as [u0|] eqn:Eu; [|done]. cbn. intros [= <-]. cbn. rewrite (R1 _ _ Eu). unfold rows_of. rewrite F.
      unfold trunc. rewrite Zminus_mod_idemp_l. f_equal. lia.
    + intros Hu. rewrite (R1 _ _ Hu). unfold rows_of. by rewrite F.
  - unfold row_at. cbn. by rewrite lookup_delete_eq.
Qed.
End Rows.


(** * What is remembered *)

#[local] Opaque GRANDFATHER_MAX.

Definition bounded_set (g : Grandfather) : Prop := (size (idents g) <= GRANDFATHER_MAX)%nat /\ (size (ips g) <= GRANDFATHER_MAX)%nat.

Lemma room_insert {K} `{Countable K} {A} (m : gmap K A) k x most :
  room_for m k most = true -> (size m <= most)%nat -> (size (<[k := x]> m) <= most)%nat.
Proof.
  unfold room_for. intros [R|R]%orb_true_iff Hs.
  - apply Nat.ltb_lt in R. rewrite map_size_insert. destruct (m !! k); unfold id; lia.
  - apply bool_decide_eq_true in R as [y Hy]. rewrite map_size_insert_Some; [done|]. by exists y.
Qed.
Lemma note_ident_bounded g i now : bounded_set g -> bounded_set (note_ident g i now).
Proof.
  intros [B1 B2]. unfold note_ident. destruct (negb _ && _) eqn:E; [|exact (conj B1 B2)]. apply andb_true_iff in E as [_ E].
  split; [cbn [idents]; by apply room_insert | exact B2].
Qed.
Lemma note_ip_bounded g ip now : bounded_set g -> bounded_set (note_ip g ip now).
Proof.
  intros [B1 B2]. unfold note_ip. destruct (room_for (ips g) ip GRANDFATHER_MAX) eqn:E; [|exact (conj B1 B2)].
  split; [exact B1 | cbn [ips]; by apply room_insert].
Qed.
Lemma filter_size_le {K} `{Countable K} {A} (P : K * A -> Prop) `{!forall x, base.Decision (P x)} (m : gmap K A) : (size (filter P m) <= size m)%nat.
Proof. apply map_subseteq_size. apply map_filter_subseteq. Qed.
Lemma within_later t now now' d : now <= now' -> within_ttl t now' d = true -> within_ttl t now d = true.
Proof. unfold within_ttl, sat_sub. rewrite !Z.leb_le. lia. Qed.
Lemma prune_lookup {K} `{Countable K} (m : gmap K Z) k now now' d : now <= now' ->
  match filter (fun e : K * Z => within_ttl e.2 now d = true) m !! k with Some t => within_ttl t now' d | None => false end =
  match m !! k with Some t => within_ttl t now' d | None => false end.
Proof.
  intros Hn. rewrite map_lookup_filter. destruct (m !! k) as [t|]; [|done]. cbn. case_guard; cbn; [done|].
  destruct (within_ttl t now' d) eqn:E; [|done]. by apply within_later with (now := now) in E.
Qed.

Section Ours.
Context (c : OverflowCfg).

Lemma seed_bounded now ms : forall gn, bounded_set gn.1 -> bounded_set (foldl (seed_one c now) gn ms).1.
Proof.
  induction ms as [|m ms IH]; intros gn B; [done|]. cbn [foldl]. apply IH. unfold seed_one.
  destruct (i ← get "identity" m; as_str i); [|done]. destruct (_ <=? _); [|done]. by apply note_ident_bounded.
Qed.

(** Who is ours stays ours for the whole of the grandfather window: a share makes its name and its
    source ours for [grandfather_hours] (one, if that is 0) as long as there is room, or they were known;
    saving the set, at any time, forgets nobody who counts then or later; and no source of names makes
    it outgrow its bound. *)
Theorem ours_stay_ours o ident ip now :
  0 <= grandfather_hours c <= 5000000000000000 -> bounded_set (ov_grandfather o) ->
  (let o' := note_share o ident ip now in
   bounded_set (ov_grandfather o') /\
   forall later, now <= later <= now + Z.max (grandfather_hours c) 1 * 3600 ->
     (ident <> ""%string -> room_for (idents (ov_grandfather o)) ident GRANDFATHER_MAX = true -> ident_grandfathered c o' ident later = true) /\
     (room_for (ips (ov_grandfather o)) ip GRANDFATHER_MAX = true -> ip_grandfathered c o' ip later = true)) /\
  (let o' := (save c o now).1 in
   bounded_set (ov_grandfather o') /\
   forall later i a, now <= later -> ident_grandfathered c o' i later = ident_grandfathered c o i later /\
                                     ip_grandfathered c o' a later = ip_grandfathered c o a later) /\
  (forall stats, bounded_set (ov_grandfather (seed_from_prime c o stats now))).
Proof.
  intros Hh B. assert (Ht : ttl c = Z.max (grandfather_hours c) 1 * 3600) by (unfold ttl, trunc; rewrite Z.mod_small; lia).
  cbv zeta. split_and!.
  - cbn. by apply note_ip_bounded, note_ident_bounded.
  - intros later Hl. cbv zeta. unfold ident_grandfathered, ip_grandfathered, has_ident, has_ip, note_share. cbn. rewrite Ht.
    assert (Hw : within_ttl now later (Z.max (grandfather_hours c) 1 * 3600) = true) by (unfold within_ttl, sat_sub; apply Z.leb_le; lia).
    split.
    + intros Hi R. unfold note_ident. rewrite bool_decide_false, R by done. cbn [negb andb].
      unfold note_ip. destruct (room_for (ips _) _ _); cbn; by rewrite lookup_insert_eq.
    + intros R. assert (Ei : ips (note_ident (ov_grandfather o) ident now) = ips (ov_grandfather o)) by (unfold note_ident; by destruct (_ && _)).
      unfold note_ip. rewrite Ei, R. cbn. by rewrite lookup_insert_eq.
  - cbv zeta. unfold save. destruct (ov_dirty o); [|done]. destruct B as [B1 B2]. split; cbn; (etrans; [apply filter_size_le | done]).
  - intros later i a Hl. cbv zeta. unfold save. destruct (ov_dirty o); [|done]. cbn [negb fst].
    unfold ident_grandfathered, ip_grandfathered, has_ident, has_ip. cbn. by rewrite !prune_lookup.
  - intros stats. unfold seed_from_prime. destruct (prime_miners stats) as [ms|]; [|done].
    pose proof (seed_bounded now ms (ov_grandfather o, 0) B) as Bs. destruct (foldl _ _ _) as [g n]. cbn in Bs. by destruct (0 <? n).
Qed.

(** Three relays that died within the hour. *)
Lemma churn_room o ip now : room_for (ov_churn_ips o) ip UNPAYABLE_IPS_MAX = true ->
  (forall p, ov_churn_ips o !! ip = Some p -> within_ttl p.2 now CHURN_LOCAL_SECS = true) ->
  ov_churn_ips (note_churn_ip o ip now) !! ip = Some (sat_add u32_max (default (0, now) (ov_churn_ips o !! ip)).1 1, now).
Proof.
  intros R Hp. unfold note_churn_ip. cbn. set (m := filter _ _).
  assert (El : m !! ip = ov_churn_ips o !! ip).
  { unfold m. rewrite map_lookup_filter. destruct (ov_churn_ips o !! ip) as [p|]; [|done]. cbn. rewrite option_guard_True; [done|]. by apply Hp. }
  assert (Rm : room_for m ip UNPAYABLE_IPS_MAX = true).
  { unfold room_for in *. apply orb_true_iff in R as [R|R]; apply orb_true_iff.
    - left. apply Nat.ltb_lt in R. apply Nat.ltb_lt. pose proof (filter_size_le (fun e : IpAddr * (Z * Z) => within_ttl e.2.2 now CHURN_LOCAL_SECS = true) (ov_churn_ips o)). unfold m. lia.
    - right. by rewrite El. }
  rewrite Rm, El. by rewrite lookup_insert_eq.
Qed.
Lemma note_churn_known o ip now p : ov_churn_ips o !! ip = Some p -> within_ttl p.2 now CHURN_LOCAL_SECS = true ->
  ov_churn_ips (note_churn_ip o ip now) !! ip = Some (sat_add u32_max p.1 1, now).
Proof.
  intros Hp Hw. rewrite churn_room; [by rewrite Hp | |].
  - unfold room_for. rewrite Hp. apply orb_true_iff. right. by apply bool_decide_eq_true.
  - intros q Hq. congruence.
Qed.

(** A source is not sent away for ever: when three of its relays have died on the handshake, each
    within an hour of the one before, it is served here for an hour from the last, whatever the valve
    says. *)
Theorem dying_relays_stop `{Json} canon payable o id ip t1 t2 t3 first env :
  ov_churn_ips o !! ip = None -> (size (ov_churn_ips o) < UNPAYABLE_IPS_MAX)%nat ->
  t1 <= t2 <= t1 + CHURN_LOCAL_SECS -> t2 <= t3 <= t2 + CHURN_LOCAL_SECS -> t3 <= ge_now env <= t3 + CHURN_LOCAL_SECS ->
  let o3 := note_churn_ip (note_churn_ip (note_churn_ip o ip t1) ip t2) ip t3 in
  gate c canon payable o3 id ip first env = (o3, ServeLocal [], None).
Proof.
  intros Hn Hs H12 H23 H34 o3. assert (E1 : ov_churn_ips (note_churn_ip o ip t1) !! ip = Some (1, t1)).
  { rewrite churn_room; [by rewrite Hn| |by intros p; rewrite Hn]. unfold room_for. apply orb_true_iff. left. by apply Nat.ltb_lt. }
  assert (W : forall a b, a <= b <= a + CHURN_LOCAL_SECS -> within_ttl a b CHURN_LOCAL_SECS = true).
  { intros a b Hab. unfold within_ttl, sat_sub. apply Z.leb_le. unfold CHURN_LOCAL_SECS in *. lia. }
  pose proof (note_churn_known _ _ t2 _ E1 (W _ _ H12)) as E2. pose proof (note_churn_known _ _ t3 _ E2 (W _ _ H23)) as E3.
  destruct (gate_opens c canon payable o3 id ip first env) as [(_ & _ & _ & Hc)|Eg]; [|done]. exfalso.
  unfold ip_churned, o3 in Hc. rewrite E3 in Hc. cbn in Hc. rewrite W in Hc by done. done.
Qed.
End Ours.

(** * A miner sent home *)

Section Bounce.
Context `{Json} (c : OverflowCfg) (canon : string -> string) (payable : string -> bool) (id : Z) (ip : IpAddr).

(** What decides whether a source is a stranger, of two states. *)
Definition same_source (o o' : Overflow) (g : gmap IpAddr Z) : Prop :=
  ov_mode o' = ov_mode o /\ ov_valve o' = ov_valve o /\ ov_unpayable_ips o' = ov_unpayable_ips o /\
  ov_churn_ips o' = ov_churn_ips o /\ ips (ov_grandfather o') = g.
(** A relay so far: untouched, its miner bounced at one of its times, or refused. *)
Definition bounce_state (o : Overflow) (r : Relay) : Prop :=
  rl_refused r = true /\ rl_bounced r = false /\ rl_up r = false \/
  rl_refused r = false /\ rl_bounced r = false /\ same_source o (rl_ov r) (ips (ov_grandfather o)) \/
  rl_refused r = false /\ rl_bounced r = true /\ rl_up r = false /\
    exists t, same_source o (rl_ov r) (ips (note_ip (ov_grandfather o) ip t)).

Lemma bounce_ext o r r' : rl_refused r' = rl_refused r -> rl_bounced r' = rl_bounced r -> rl_ov r' = rl_ov r ->
  (rl_up r = false -> rl_up r' = false) -> bounce_state o r -> bounce_state o r'.
Proof. unfold bounce_state. intros -> -> -> Hu [(? & ? & ?)|[?|(? & ? & ? & ?)]]; [left | right; left | right; right]; split_and!; auto; tauto. Qed.
Lemma bounce_step o sniff r e : (forall f, e <> Meanwhile f) -> bounce_state o r ->
  bounce_state o (relay_step c canon payable sniff id ip r e).
Proof.
  intros Hm B. destruct e as [at_ now rd w|rd w wb|f]; [| |by destruct (Hm f)]; cbn [relay_step].
  - destruct (rl_up r) eqn:Eu; [|done]. cbn [negb].
    assert (Same : forall r', rl_refused r' = rl_refused r -> rl_bounced r' = rl_bounced r -> rl_ov r' = rl_ov r -> bounce_state o r').
    { intros r' E1 E2 E3. eapply bounce_ext; [exact E1 | exact E2 | exact E3 | congruence | exact B]. }
    destruct rd as [l|]; [|by apply Same]. destruct (whole_line l); [|by apply Same].
    unfold miner_line. cbv zeta. set (meter := if secs 1 <=? _ then _ else _). destruct meter as [sec_at k].
    destruct (_ <? _); [by apply Same|].
    destruct (authorize_user l) as [u|]; [destruct sniff|]; [|by destruct w; apply Same|by destruct w; apply Same].
    destruct B as [(_ & _ & B)|[(B1 & B2 & B3)|(_ & _ & B & _)]]; [congruence| |congruence].
    destruct B3 as (M1 & M2 & M3 & M4 & M5). unfold on_authorize. destruct (ident_grandfathered _ _ _ _).
    + cbn. right. right. cbn. rewrite B1, B2. split_and!; try done. exists now. unfold same_source. cbn.
      split_and!; try done. unfold note_ip. rewrite M5. by destruct (room_for _ _ _).
    + destruct (negb (payable u)).
      * cbn. left. cbn. by rewrite B2, orb_true_r.
      * destruct w; right; left; cbn; rewrite B1, B2; split_and!; done.
  - destruct (rl_down r); [|done]. cbn [negb].
    assert (Same : forall r', rl_refused r' = rl_refused r -> rl_bounced r' = rl_bounced r -> rl_ov r' = rl_ov r -> rl_up r' = rl_up r -> bounce_state o r').
    { intros r' E1 E2 E3 E4. eapply bounce_ext; [exact E1 | exact E2 | exact E3 | congruence | exact B]. }
    destruct rd as [l|]; [|by apply Same]. destruct (whole_line l); [|by apply Same].
    unfold upstream_line. destruct (redirects l); [by apply Same|]. destruct w; [|by apply Same]. cbn [negb].
    destruct (rl_banner _); [|by apply Same]. destruct (is_true_result l); [|by apply Same]. destruct wb; by apply Same.
Qed.
Lemma same_connect dial others n : quiet others -> forall k o, same_source o (connect_tries dial others n k o).1 (ips (ov_grandfather o)).
Proof.
  intros Q. induction n as [|n IH]; intros k o; [done|]. cbn [connect_tries]. unfold choose.
  destruct (pick _ _) as [i|]; [|done]. rewrite Q. destruct (dial k i); [done|].
  apply (IH (S k) (mark (set_rr o (trunc u64_max (ov_rr o + 1))) i false)).
Qed.
End Bounce.

(** A miner that turns out to be ours is hung up on so that it comes back here, and what brings it
    here is its source, noted as ours: its next session is not a stranger's for the grandfather window
    — if the set of sources had room for it. If it had none, nothing at all is remembered: whenever the
    source was a stranger before it is one again, to be relayed and hung up on again, and as a bounce
    is not a churn nothing ever ends it. *)
Theorem bounce_needs_room `{Json} c canon payable o id ip first env o' r :
  gate c canon payable o id ip first env = (o', Relayed, Some r) -> rl_bounced r = true ->
  ge_wait env o = o -> quiet (ge_others env) -> Forall (fun e => forall f, e <> Meanwhile f) (ge_events env) ->
  exists t, forall later, stranger c o ip later ->
    (stranger c o' ip later <->
     room_for (ips (ov_grandfather o)) ip GRANDFATHER_MAX = false \/ within_ttl t later (ttl c) = false).
Proof.
  intros E Hb Hw Q Ne. destruct (gate_opens c canon payable o id ip first env) as [S|E0]; [|by rewrite E0 in E].
  rewrite gate_of_stranger in E by done. destruct (gate_wait [] (ge_reads env)) as [[buf user] gone]. rewrite Hw in E.
  destruct (gate_decides _ _ _ _ _ _ _) as [o1 [idx|]] eqn:Ed; [|done]. injection E as <- <-.
  assert (Ho1 : same_source o o1 (ips (ov_grandfather o))).
  { pose proof (decides_inv c canon payable o env buf user gone) as D. rewrite Ed in D.
    rewrite decides_dials in Ed by (by apply D). unfold connect_choice in Ed.
    pose proof (same_connect (ge_dial env) (ge_others env) (Nat.max (length (ov_upstreams o)) 1) Q 0%nat o) as Sc.
    destruct (connect_tries _ _ _ _ _) as [o2 [j|]]; [|done]. by injection Ed as -> _. }
  set (r := pump _ _ _ _ _ _ _ _ _ _ _ _) in *. assert (B : bounce_state ip o r).
  { unfold r, pump. match goal with |- bounce_state _ _ (foldl ?s ?r0 _) => assert (B0 : bounce_state ip o r0) by (by right; left) end.
    revert B0 Ne. generalize (relay_start (relay_begins o1 id {| px_ip := ip; px_user := user; px_identity := canon user; px_upstream := idx; px_since := ge_since env |})
      (ge_banner env) (ge_start env) (as_line first :: buf) (ge_written env)).
    generalize (ge_events env). induction l as [|e es IH]; intros r0 B0 Ne; [done|]. apply Forall_cons in Ne as [Ne1 Ne2].
    cbn [foldl]. apply IH; [by apply bounce_step | done]. }
  destruct B as [(_ & ? & _)|[(_ & ? & _)|(_ & _ & _ & t & M1 & M2 & M3 & M4 & M5)]]; [congruence | congruence |].
  exists t. intros later (S1 & S2 & S3 & S4).
  unfold stranger, considering, mode, is_active, ip_grandfathered, has_ip, ip_unpayable, ip_churned in *.
  unfold relay_ended. rewrite Hb. cbv zeta. cbn [relay_released add_upstream count_bounced set_upstreams set_proxied set_counts
    ov_mode ov_valve ov_grandfather ov_unpayable_ips ov_churn_ips].
  rewrite M1, M2, M3, M4, M5. unfold note_ip. destruct (room_for (ips (ov_grandfather o)) ip GRANDFATHER_MAX); cbn [ips].
  - rewrite lookup_insert_eq. split; [intros (_ & Hi & _); by right | intros [?|Hi]; [done|]; by split_and!].
  - split; [by left | intros _; by split_and!].
Qed.

(** * Witnesses *)

(** A parser of five kinds of line, and a gate in front of two upstreams. *)
Definition demo_line (kind : string) : list Z := str_bytes kind ++ [NEWLINE].
Definition demo_json : Json := {|
  from_str := fun l => match l with
    | 97 :: u => Some (Obj [("method", Str "mining.authorize"); ("params", Arr [Str (bytes_str (removelast u))])]%string)
    | 115 :: _ => Some (Obj [("id", Num (PosInt 4)); ("method", Str "mining.submit")]%string)
    | 116 :: _ => Some (Obj [("id", Num (PosInt 4)); ("result", Boolean true)]%string)
    | 99 :: _ => Some (Obj [("method", Str "client.reconnect")]%string)
    | _ => None
    end;
  to_text := fun _ => ""%string |}.
#[local] Existing Instance demo_json.
Definition demo_valve_cfg : OverflowCfg := {|
  cfg_mode := "auto"; enter_pct := f64_of 15; exit_pct := f64_of 13; hold_polls := 2; grandfather_hours := 24;
  upstream_names := ["north"; "south"]%string |}.
Definition demo_gate_cfg : OverflowCfg := {|
  cfg_mode := "force"; enter_pct := f64_of 15; exit_pct := f64_of 13; hold_polls := 2; grandfather_hours := 24;
  upstream_names := ["north"; "south"]%string |}.
Definition demo_valve : Overflow := overflow_new demo_valve_cfg None.
Definition demo_gate : Overflow :=
  overflow_new demo_gate_cfg (Some {| idents := {["ours"%string := 1000]}; ips := ∅ |}).
Definition demo_readings : list reading :=
  [(Some (f64_of 100), f64_of 20, None, 1000); (None, f64_of 20, None, 1030); (Some (f64_of 100), f64_of 16, None, 1060)].
Definition demo_ip : IpAddr := V4 [203; 0; 113; 9].
Definition demo_canon (s : string) : string := s.
Definition demo_payable (s : string) : bool := negb (bool_decide (s = "nobody"%string)).
Definition demo_env (reads : list GateRead) (es : list RelayEvent) : GateEnv := {|
  ge_now := 1000; ge_reads := reads; ge_wait := fun o => o; ge_after := 1001; ge_dial := fun _ i => (i =? 1)%nat;
  ge_others := fun _ o => o; ge_since := 1001; ge_banner := demo_line "banner"; ge_start := 0; ge_written := 9;
  ge_events := es; ge_end := 1100 |}.
(** A miner that names itself on the relay and sends a share; and one that is ours. *)
Definition demo_share : list RelayEvent :=
  [FromUpstream (Line (demo_line "client.reconnect")) true true; FromMiner 1 1002 (Line (demo_line "afresh")) true;
   FromMiner 2 1003 (Line (demo_line "s")) true; FromUpstream (Line (demo_line "t")) true true; FromMiner 3 1004 Closed true].
Definition demo_home : list RelayEvent := [FromMiner 1 1002 (Line (demo_line "aours")) true].
Definition demo_gated (es : list RelayEvent) := gate demo_gate_cfg demo_canon demo_payable demo_gate 7 demo_ip (demo_line "x") (demo_env [] es).

Lemma valve_needs_a_run_witness :
  hold_polls demo_valve_cfg <= u32_max /\ v_hold (ov_valve demo_valve) = 0 /\
  is_active (polls demo_valve_cfg demo_valve demo_readings) = true /\
  exists pre run post, omap metered demo_readings = pre ++ run ++ post /\ Z.of_nat (length run) = 2 /\
    forallb (asks_flip demo_valve_cfg false) run = true.
Proof.
  assert (A : is_active (polls demo_valve_cfg demo_valve demo_readings) = true) by (vm_compute; reflexivity).
  split; [vm_compute; discriminate|]. split; [reflexivity|]. split; [exact A|].
  apply (valve_needs_a_run demo_valve_cfg demo_valve demo_readings); [vm_compute; discriminate | reflexivity |].
  rewrite A. vm_compute. discriminate.
Defined.
Lemma pick_least_witness :
  let ls := [(true, 3); (false, 0); (true, 1); (true, 1)] in
  pick ls 7 = Some 3%nat /\ exists s, ls !! 3%nat = Some (true, s) /\ forall j s', ls !! j = Some (true, s') -> s <= s'.
Proof.
  split; [vm_compute; reflexivity|].
  apply (pick_least [(true, 3); (false, 0); (true, 1); (true, 1)] 7); [lia | vm_compute; discriminate | vm_compute; reflexivity].
Defined.
Lemma only_strangers_leave_witness :
  (demo_gated demo_share).1.2 = Relayed /\ stranger demo_gate_cfg demo_gate demo_ip 1000 /\
  may_relay demo_gate_cfg demo_canon demo_payable demo_gate "" false 1001.
Proof.
  split; [vm_compute; reflexivity|].
  apply (only_strangers_leave demo_gate_cfg demo_canon demo_payable demo_gate 7 demo_ip (demo_line "x") (demo_env [] demo_share)
    (demo_gated demo_share).1.1 (demo_gated demo_share).2). vm_compute. reflexivity.
Defined.
Lemma fails_open_only_then_witness :
  (demo_gated demo_share).1.2 = Relayed /\
  match demo_gated demo_share with (_, Relayed, Some _) => exists i, reachable (fun i => (i =? 1)%nat) demo_gate i | _ => False end.
Proof.
  split; [vm_compute; reflexivity|].
  assert (F : match demo_gated demo_share with
    | (_, Relayed, Some _) => exists i, reachable (fun i => (i =? 1)%nat) demo_gate i
    | (o', ServeLocal ls, None) =>
        (forall i, ~ reachable (fun i => (i =? 1)%nat) demo_gate i) /\ n_healthy o' = 0%nat /\ ls = (gate_wait [] []).1.1 /\
        n_fail_open (ov_counts o') = trunc u64_max (n_fail_open (ov_counts demo_gate) + 1)
    | _ => False end).
  { apply (fails_open_only_then demo_gate_cfg demo_canon demo_payable demo_gate 7 demo_ip (demo_line "x") (demo_env [] demo_share) (fun i => (i =? 1)%nat)).
    - repeat split; vm_compute; reflexivity.
    - vm_compute. repeat split. by left.
    - intros k o. reflexivity.
    - reflexivity.
    - vm_compute. discriminate.
    - vm_compute. discriminate. }
  destruct (demo_gated demo_share) as [[o' [ls|]] [r|]] eqn:E; try exact F; exfalso;
    (assert (X : (demo_gated demo_share).1.2 = Relayed) by (vm_compute; reflexivity); rewrite E in X; discriminate).
Defined.
Lemma verdicts_are_shares_witness :
  let st := rl_stats (pump demo_gate_cfg demo_canon demo_payable demo_gate (demo_line "banner") 0 [demo_line "x"] 1 true 7 demo_ip demo_share) in
  submits st = 1 /\ accepted st = 1 /\ accepted st + rejected st + Z.of_nat (length (pending st)) <= submits st.
Proof.
  split; [vm_compute; reflexivity|]. split; [vm_compute; reflexivity|].
  destruct (verdicts_are_shares demo_gate_cfg demo_canon demo_payable demo_gate (demo_line "banner") 0 [demo_line "x"] 1 true 7 demo_ip demo_share)
    as (_ & _ & V & _); [vm_compute; discriminate|]. exact (proj1 V).
Defined.
Lemma ours_stay_ours_witness :
  let o' := note_share demo_gate "new" demo_ip 2000 in
  ident_grandfathered demo_gate_cfg o' "new" 88400 = true /\ ip_grandfathered demo_gate_cfg o' demo_ip 88400 = true.
Proof.
  cbv zeta. destruct (ours_stay_ours demo_gate_cfg demo_gate "new" demo_ip 2000) as ((_ & K) & _); [vm_compute; split; discriminate | |].
  - split; apply Nat.leb_le; vm_compute; reflexivity.
  - destruct (K 88400) as [K1 K2]; [vm_compute; split; discriminate|]. split; [apply K1; [discriminate | vm_compute; reflexivity] | apply K2; vm_compute; reflexivity].
Defined.
Lemma dying_relays_stop_witness :
  let o3 := note_churn_ip (note_churn_ip (note_churn_ip demo_gate demo_ip 700) demo_ip 800) demo_ip 900 in
  gate demo_gate_cfg demo_canon demo_payable o3 7 demo_ip (demo_line "x") (demo_env [] demo_share) = (o3, ServeLocal [], None).
Proof.
  apply (dying_relays_stop demo_gate_cfg demo_canon demo_payable demo_gate 7 demo_ip 700 800 900 (demo_line "x") (demo_env [] demo_share));
    first [reflexivity | (apply Nat.ltb_lt; vm_compute; reflexivity) | (vm_compute; split; discriminate)].
Defined.
Lemma bounce_needs_room_witness :
  (demo_gated demo_home).1.2 = Relayed /\ exists t, forall later, stranger demo_gate_cfg demo_gate demo_ip later ->
    (stranger demo_gate_cfg (demo_gated demo_home).1.1 demo_ip later <->
     room_for (ips (ov_grandfather demo_gate)) demo_ip GRANDFATHER_MAX = false \/ within_ttl t later (ttl demo_gate_cfg) = false).
Proof.
  split; [vm_compute; reflexivity|].
  destruct (demo_gated demo_home).2 as [r|] eqn:Er; [|exfalso; vm_compute in Er; discriminate].
  apply (bounce_needs_room demo_gate_cfg demo_canon demo_payable demo_gate 7 demo_ip (demo_line "x") (demo_env [] demo_home) (demo_gated demo_home).1.1 r).
  - assert (E : demo_gated demo_home = ((demo_gated demo_home).1.1, Relayed, (demo_gated demo_home).2)) by (vm_compute; reflexivity).
    rewrite Er in E. exact E.
  - assert (X : option_map rl_bounced (demo_gated demo_home).2 = Some true) by (vm_compute; reflexivity). rewrite Er in X. by injection X.
  - reflexivity.
  - intros k o. reflexivity.
  - constructor; [intros f; discriminate | constructor].
Defined.
Lemma escaped_redirect_passes_witness :
  is_method (demo_line "c\u006cient.reconnect") RECONNECT = true /\
  let r := close_up (sent_down (relay_start demo_gate [] 0 [] 0) [] None) in
  rl_to_miner (relay_step demo_gate_cfg demo_canon demo_payable true 7 demo_ip r (FromUpstream (Line (demo_line "c\u006cient.reconnect")) true true)) =
  rl_to_miner r ++ [demo_line "c\u006cient.reconnect"].
Proof.
  split; [vm_compute; reflexivity|].
  apply (escaped_redirect_passes demo_gate_cfg demo_canon demo_payable true 7 demo_ip
    (close_up (sent_down (relay_start demo_gate [] 0 [] 0) [] None)) (demo_line "c\u006cient.reconnect")); vm_compute; reflexivity.
Defined.
