(* ===== verification/Protocol.v ===== *)
(** The protocol crate of the gateway ([lazarus/protocol/src]): the script of an address, the split
    a coinbase pays, the bytes of the coinbase, and the header that is hashed.

    SHA-256 and BLAKE2b-256 are parameters. A [&str] is its bytes. Where the code fills a buffer of a
    fixed size field by field, the model concatenates the fields. Sums in the code wrap: the crate is
    built without overflow checks. *)

From S2P Require Import Prelude Bytes Text Handshake Pow.
Open Scope Z_scope.

Definition slice (a b : nat) (l : list Z) : list Z := take (b - a) (drop a l).
(** Taking a counted run off the front, [None] past the end. *)
Definition get_bytes (n : Z) (l : list Z) : option (list Z * list Z) :=
  if Z.of_nat (length l) <? n then None else Some (take (Z.to_nat n) l, drop (Z.to_nat n) l).

(** * Addresses *)

Module Identity.

Definition CHARSET : list Z := str_bytes "qpzry9x8gf2tvdw0s3jn54khce6mua7l".
Definition ALPH : list Z := str_bytes "123456789ABCDEFGHJKLMNPQRSTUVWXYZabcdefghijkmnopqrstuvwxyz".
Definition gens : list Z := [0x3b6a57b2; 0x26508e6d; 0x1ea119fa; 0x3d4233dd; 0x2a1462b3].

(** [iter().position]. *)
Fixpoint index_of (c : Z) (l : list Z) : option Z :=
  match l with
  | [] => None
  | x :: l' => if x =? c then Some 0 else i ← index_of c l'; Some (i + 1)
  end.

Definition polymod_step (chk v : Z) : Z :=
  let b := Z.shiftr chk 25 in
  let chk := Z.lxor (Z.shiftl (Z.land chk 0x1ffffff) 5) v in
  foldl (fun chk ig => if Z.land (Z.shiftr b ig.1) 1 =? 1 then Z.lxor chk ig.2 else chk)
        chk (zip [0; 1; 2; 3; 4] gens).
Definition polymod (values : list Z) : Z := foldl polymod_step 1 values.
Definition hrp_expand (hrp : list Z) : list Z :=
  map (fun x => Z.shiftr x 5) hrp ++ [0] ++ map (fun x => Z.land x 31) hrp.

(** [str::rfind]. *)
Definition rfind (c : Z) (l : list Z) : option nat :=
  k ← index_of c (rev l); Some (length l - 1 - Z.to_nat k)%nat.

Definition upper_byte (b : Z) : bool := between 65 90 b.
Definition lower_byte (b : Z) : bool := between 97 122 b.

Definition bech32_decode (addr : list Z) : option (list Z * list Z * bool) :=
  let lower := to_ascii_lowercase addr in
  if existsb upper_byte addr && existsb lower_byte addr then None else
  pos ← rfind 49 lower;
  if (pos <? 1)%nat || (length lower <? pos + 7)%nat then None else
  let hrp := take pos lower in
  data ← mapM (fun c => index_of c CHARSET) (drop (pos + 1) lower);
  if (length data <? 6)%nat then None else
  let m := polymod (hrp_expand hrp ++ data) in
  let is_m := m =? 0x2bc830a3 in
  if negb (m =? 1) && negb is_m then None else
  Some (hrp, take (length data - 6) data, is_m).

(** The [while bits >= to] loop; a round takes [to] bits, so [bits] rounds are enough. *)
Fixpoint drain (fuel : nat) (acc bits to : Z) : Z * list Z :=
  if bits <? to then (bits, []) else
  match fuel with
  | O => (bits, [])
  | S k =>
      let bits := bits - to in
      let '(b, out) := drain k acc bits to in
      (b, trunc u8_max (Z.land (Z.shiftr acc bits) (Z.shiftl 1 to - 1)) :: out)
  end.

(** The loop over the digits: the accumulator and the count of its bits, and what was pushed. *)
Fixpoint regroup (data : list Z) (from to acc bits : Z) : option (Z * Z * list Z) :=
  match data with
  | [] => Some (acc, bits, [])
  | v :: data' =>
      if negb (Z.shiftr v from =? 0) then None else
      let acc := Z.lor (trunc u32_max (Z.shiftl acc from)) v in
      let '(bits, out) := drain (Z.to_nat (bits + from)) acc (bits + from) to in
      '(r, rest) ← regroup data' from to acc bits;
      Some (r, out ++ rest)
  end.

Definition convert_bits (data : list Z) (from to : Z) (pad : bool) : option (list Z) :=
  let maxv := Z.shiftl 1 to - 1 in
  '(acc, bits, ret) ← regroup data from to 0 0;
  let last := Z.land (trunc u32_max (Z.shiftl acc (to - bits))) maxv in
  if pad then Some (ret ++ (if bits =? 0 then [] else [trunc u8_max last]))
  else if (from <=? bits) || negb (last =? 0) then None else Some ret.

(** One character: every byte times 58, the carry going up to the front. *)
Definition mul_add (n : list Z) (d : Z) : Z * list Z :=
  foldr (fun b ca => let v := b * 58 + ca.1 in (Z.shiftr v 8, Z.land v 0xff :: ca.2)) (d, []) n.
(** What is left of the carry goes in front; it is below 58, so one round is enough: the fuel is
    its own value. *)
Fixpoint push_carry (fuel : nat) (carry : Z) (n : list Z) : list Z :=
  if 0 <? carry then
    match fuel with O => n | S k => push_carry k (Z.shiftr carry 8) (Z.land carry 0xff :: n) end
  else n.
Definition b58_step (n : list Z) (d : Z) : list Z :=
  let '(carry, n) := mul_add n d in push_carry (Z.to_nat carry) carry n.
Fixpoint skip_while (p : Z -> bool) (l : list Z) : list Z :=
  match l with b :: l' => if p b then skip_while p l' else l | [] => [] end.

Definition b58_decode (s : list Z) : option (list Z) :=
  ds ← mapM (fun c => index_of c ALPH) s;
  let n := foldl b58_step [0] ds in
  let lead := (length s - length (skip_while (fun c => (c =? 49)%Z) s))%nat in
  Some (replicate lead 0 ++ skip_while (fun b => b =? 0) n).

Definition is_dot (b : Z) : bool := b =? DOT.
(** [identity_of]: the username up to the first dot. *)
Definition identity_of (user : list Z) : list Z := trim_str (before is_dot user).

Section Script.
Context (sha256 : list Z -> Hash).

Definition starts_with (p l : list Z) : bool := bool_decide (take (length p) l = p).

Definition witness_script (data : list Z) (is_m : bool) : option (list Z) :=
  match data with
  | [] => None
  | ver :: rest =>
      prog ← convert_bits rest 5 8 false;
      if is_m then
        if negb (ver =? 1) || negb (length prog =? 32)%nat then None else Some ([0x51; 0x20] ++ prog)
      else if negb (ver =? 0) then None
      else if (length prog =? 20)%nat then Some ([0x00; 0x14] ++ prog)
      else if (length prog =? 32)%nat then Some ([0x00; 0x20] ++ prog)
      else None
  end.

Definition legacy_script (ident : list Z) : option (list Z) :=
  raw ← b58_decode ident;
  if (length raw <? 5)%nat then None else
  let payload := take (length raw - 4) raw in
  let checksum := drop (length raw - 4) raw in
  if negb (bool_decide (checksum = take 4 (sha256d sha256 payload))) then None else
  if negb (length payload =? 21)%nat then None else
  match payload with
  | v :: hash =>
      if v =? 0x00 then Some ([0x76; 0xa9; 0x14] ++ hash ++ [0x88; 0xac])
      else if v =? 0x05 then Some ([0xa9; 0x14] ++ hash ++ [0x87])
      else None
  | [] => None
  end.

Definition identity_script (user : list Z) : option (list Z) :=
  let ident := identity_of user in
  if (length ident =? 0)%nat then None else
  if starts_with (str_bytes "bc1") (to_ascii_lowercase ident) then
    '(hrp, data, is_m) ← bech32_decode ident;
    if negb (bool_decide (hrp = str_bytes "bc")) then None else witness_script data is_m
  else legacy_script ident.
End Script.
End Identity.

(** * The split *)

Record CoinbaserOutput := { co_sats : Z; co_script : list Z }.
Record CoinbaserV2 := { cv_id : Z; cv_outputs : list CoinbaserOutput }.

#[export] Instance CoinbaserOutput_eq_dec : EqDecision CoinbaserOutput.
Proof. solve_decision. Defined.
#[export] Instance CoinbaserV2_eq_dec : EqDecision CoinbaserV2.
Proof. solve_decision. Defined.

Module Payees.

Definition encode_out (o : CoinbaserOutput) : list Z :=
  u64_bytes (co_sats o) ++ [trunc u8_max (Z.of_nat (length (co_script o)))] ++ co_script o.
Definition encode (c : CoinbaserV2) : list Z := cv_id c :: concat (map encode_out (cv_outputs c)).

(** [iter().map(|o| o.sats).sum()]. *)
Definition sum_sats (l : list CoinbaserOutput) : Z := foldl (fun a o => trunc u64_max (a + co_sats o)) 0 l.
Definition value_sum (c : CoinbaserV2) : Z := sum_sats (cv_outputs c).

(** [part * new / old], at 128 bits and cut to 64. *)
Definition rescale (part new old : Z) : Z := trunc u64_max (part * new / old).

(** The outputs rescaled one after the other, the last taking what is left. *)
Fixpoint scale_outputs (old new paid : Z) (l : list CoinbaserOutput) : list CoinbaserOutput :=
  match l with
  | [] => []
  | [o] => [{| co_sats := sat_sub new paid; co_script := co_script o |}]
  | o :: l' =>
      let s := rescale (co_sats o) new old in
      {| co_sats := s; co_script := co_script o |} :: scale_outputs old new (sat_add u64_max paid s) l'
  end.
Definition scale_to (c : CoinbaserV2) (new_value : Z) : CoinbaserV2 :=
  let old := value_sum c in
  if (old =? 0) || (old =? new_value) || (length (cv_outputs c) =? 0)%nat then c else
  {| cv_id := cv_id c; cv_outputs := scale_outputs old new_value 0 (cv_outputs c) |}.

Definition MOST_OUTPUTS : nat := 512.

(** The loop of [parse_coinbaser_v2]; it stops after 512 outputs. *)
Fixpoint parse_outs (fuel : nat) (l : list Z) : option (list CoinbaserOutput) :=
  match fuel with
  | O => Some []
  | S k =>
      if (length l <? 9)%nat then Some [] else
      let sats := of_le (take 8 l) in
      let sl := default 0 (l !! 8%nat) in
      let l := drop 9 l in
      if (sl <? 2) || (64 <? sl) || (Z.of_nat (length l) <? sl) then None else
      outs ← parse_outs k (drop (Z.to_nat sl) l);
      Some ({| co_sats := sats; co_script := take (Z.to_nat sl) l |} :: outs)
  end.
Definition parse_coinbaser_v2 (buf : list Z) : option CoinbaserV2 :=
  match buf with
  | [] => None
  | id :: rest => outs ← parse_outs MOST_OUTPUTS rest; Some {| cv_id := id; cv_outputs := outs |}
  end.

(** The issued amounts per script, in the order the scripts come up. *)
Fixpoint add_want (script : list Z) (sats : Z) (want : list (list Z * Z)) : list (list Z * Z) :=
  match want with
  | [] => [(script, sats)]
  | (s, v) :: want' =>
      if bool_decide (s = script) then (s, sat_add u64_max v sats) :: want'
      else (s, v) :: add_want script sats want'
  end.
Definition wants (l : list CoinbaserOutput) : list (list Z * Z) :=
  foldl (fun w o => add_want (co_script o) (co_sats o) w) [] l.
Definition got_by (script : list Z) (outs : list CoinbaserOutput) : Z :=
  sum_sats (filter (fun o => co_script o = script) outs).
Definition split_satisfied (issued : CoinbaserV2) (outs : list CoinbaserOutput) (tolerance : Z) : bool :=
  let issued_total := value_sum issued in
  if (issued_total =? 0) || (length (cv_outputs issued) =? 0)%nat then false else
  let actual := sum_sats outs in
  if actual =? 0 then false else
  forallb (fun w => sat_sub (rescale w.2 actual issued_total) tolerance <=? got_by w.1 outs)
          (wants (cv_outputs issued)).

End Payees.

(** * The coinbase *)

Module Cbtx.

(** [compact], and [write_varint] of coinbaser.rs, which is the same text. *)
Definition compact (n : Z) : list Z :=
  if n <? 0xfd then [trunc u8_max n]
  else if n <=? 0xffff then 0xfd :: u16_bytes (trunc u16_max n)
  else if n <=? 0xffffffff then 0xfe :: u32_bytes (trunc u32_max n)
  else 0xff :: u64_bytes n.

Definition scriptsig (height : Z) (tag extra : list Z) : list Z :=
  (if height <? 0x100 then 1 :: [trunc u8_max height]
   else if height <? 0x10000 then 2 :: u16_bytes (trunc u16_max height)
   else 3 :: take 3 (u32_bytes height))
  ++ [trunc u8_max (Z.of_nat (length tag))] ++ tag ++ extra.

Definition push_out (o : CoinbaserOutput) : list Z :=
  u64_bytes (co_sats o) ++ compact (Z.of_nat (length (co_script o))) ++ co_script o.
Definition push_outs (cb : CoinbaserV2) (wit : option (list Z)) : list Z :=
  let outs := cv_outputs cb ++ match wit with Some w => [{| co_sats := 0; co_script := w |}] | None => [] end in
  compact (Z.of_nat (length outs)) ++ concat (map push_out outs).

Definition prefix (height : Z) (tag extra : list Z) : list Z :=
  let ss := scriptsig height tag extra in
  zeros 32 ++ u32_bytes 0xffffffff ++ compact (Z.of_nat (length ss)) ++ ss ++ u32_bytes 0xffffffff.

Definition coinbase_legacy (height : Z) (tag extra : list Z) (cb : CoinbaserV2) (wit : option (list Z)) : list Z :=
  u32_bytes 1 ++ [1] ++ prefix height tag extra ++ push_outs cb wit ++ u32_bytes 0.

Definition coinbase_witness (height : Z) (tag extra : list Z) (cb : CoinbaserV2) (wit : option (list Z)) : list Z :=
  u32_bytes 1 ++ [0; 1; 1] ++ prefix height tag extra ++ push_outs cb wit
  ++ [1; 32] ++ zeros 32 ++ u32_bytes 0.

(** ** Reading one back *)

Definition read_varint (l : list Z) : option (Z * list Z) :=
  '(b, l) ← get_bytes 1 l;
  let n := of_le b in
  let wide k := '(b, l) ← get_bytes k l; Some (of_le b, l) in
  if n =? 0xfd then wide 2 else if n =? 0xfe then wide 4 else if n =? 0xff then wide 8 else Some (n, l).

Fixpoint or_shifted (k : Z) (bs : list Z) : Z :=
  match bs with [] => 0 | b :: bs' => Z.lor (Z.shiftl b (8 * k)) (or_shifted (k + 1) bs') end.
Definition bip34_height (ss : list Z) : option Z :=
  match ss with
  | [] => None
  | n :: rest =>
      if (n =? 0) || (4 <? n) || (Z.of_nat (length ss) <? 1 + n) then None
      else Some (or_shifted 0 (take (Z.to_nat n) rest))
  end.

(** One input: the outpoint is skipped, the script read, the sequence skipped. *)
Definition read_input (l : list Z) : option (list Z * list Z) :=
  '(_, l) ← get_bytes 36 l;
  '(sl, l) ← read_varint l;
  '(s, l) ← get_bytes sl l;
  '(_, l) ← get_bytes 4 l;
  Some (s, l).
(** Running a read [n] times. *)
Fixpoint repeatedly {A} (n : nat) (read : list Z -> option (A * list Z)) (l : list Z) : option (list A * list Z) :=
  match n with
  | O => Some ([], l)
  | S k => '(a, l) ← read l; '(rest, l) ← repeatedly k read l; Some (a :: rest, l)
  end.
Definition read_output (l : list Z) : option (CoinbaserOutput * list Z) :=
  '(v, l) ← get_bytes 8 l;
  '(sl, l) ← read_varint l;
  '(s, l) ← get_bytes sl l;
  Some ({| co_sats := of_le v; co_script := s |}, l).
Definition skip_item (l : list Z) : option (unit * list Z) :=
  '(n, l) ← read_varint l; '(_, l) ← get_bytes n l; Some ((), l).
Definition skip_witness (l : list Z) : option (unit * list Z) :=
  '(items, l) ← read_varint l;
  if 16 <? items then None else
  '(_, l) ← repeatedly (Z.to_nat items) skip_item l; Some ((), l).

Record ParsedCoinbase := { pc_outputs : list CoinbaserOutput; pc_legacy : list Z; pc_height : option Z }.

(** What was consumed between two positions. *)
Definition consumed (before after : list Z) : list Z := take (length before - length after) before.

Definition parse_coinbase (tx : list Z) : option ParsedCoinbase :=
  '(version, l) ← get_bytes 4 tx;
  let segwit := bool_decide (take 2 l = [0x00; 0x01]) in
  let l := if segwit then drop 2 l else l in
  '(n_in, ins) ← read_varint l;
  if (n_in =? 0) || (8 <? n_in) then None else
  '(sigs, l) ← repeatedly (Z.to_nat n_in) read_input ins;
  let ins_bytes := consumed ins l in
  '(n_out, outs) ← read_varint l;
  if (n_out =? 0) || (512 <? n_out) then None else
  '(outputs, l) ← repeatedly (Z.to_nat n_out) read_output outs;
  let outs_bytes := consumed outs l in
  '(_, l) ← (if segwit then repeatedly (Z.to_nat n_in) skip_witness l else Some ([], l));
  '(locktime, _) ← get_bytes 4 l;
  Some {| pc_outputs := outputs;
          pc_legacy := version ++ compact n_in ++ ins_bytes ++ compact n_out ++ outs_bytes ++ locktime;
          pc_height := bip34_height (default [] (head sigs)) |}.

End Cbtx.

(** * The header *)

(** [as i32]. *)
Definition to_i32 (z : Z) : Z := let u := trunc u32_max z in if u <? 0x80000000 then u else u - 0x100000000.

Module Header.

Definition HEADER_V2_SIZE : nat := 164.
Definition V2_FLAG : Z := 0x80000000.
Definition FLAG_USE_TIME_OFFSET : Z := 4.

(** ** Targets, most significant byte first *)

(** Copying bytes into a buffer. *)
Definition put (at_ : nat) (bs l : list Z) : list Z := take at_ l ++ bs ++ drop (at_ + length bs) l.
Definition mant_bytes (w : Z) : list Z :=
  [trunc u8_max (Z.shiftr w 16); trunc u8_max (Z.shiftr w 8); trunc u8_max w].

Definition bits_to_target (bits : Z) : option Hash :=
  let exp := Z.shiftr bits 24 in
  let mant := Z.land bits 0x00ffffff in
  if (mant =? 0) || (32 <? exp) then None else
  if 3 <=? exp then
    let start := 32 - exp in
    if 32 <? start + 3 then None else Some (put (Z.to_nat start) (mant_bytes mant) (zeros 32))
  else Some (put 29 (mant_bytes (Z.shiftr mant (8 * (3 - exp)))) (zeros 32)).

(** The [for i in (1..32).rev()] pass: every byte takes the low bits of the one before it. *)
Fixpoint shift_down (bit_shift above : Z) (t : list Z) : list Z :=
  match t with
  | [] => []
  | b :: t' =>
      Z.lor (Z.shiftr b bit_shift) (trunc u8_max (Z.shiftl above (8 - bit_shift))) :: shift_down bit_shift b t'
  end.

Definition target_for_pot (pot : Z) : Hash :=
  let bits := 32 + pot in
  if 256 <=? bits then zeros 32 else
  let t := replicate 32 0xff in
  let byte_shift := Z.to_nat (bits / 8) in
  let bit_shift := bits mod 8 in
  let t := if (0 <? byte_shift)%nat then zeros byte_shift ++ take (32 - byte_shift) t else t in
  if 0 <? bit_shift then shift_down bit_shift 0 t else t.

(** [hash[..] <= target[..]], the order of slices. *)
Fixpoint meets_target (hash target : list Z) : bool :=
  match hash, target with
  | [], _ => true
  | _ :: _, [] => false
  | x :: h, y :: t => if x =? y then meets_target h t else x <? y
  end.

(** ** The header *)

Record HeaderV2 := {
  hd_version : Z;
  hd_prev_block : Hash;
  hd_merkle_root : Hash;
  hd_time : Z;
  hd_bits : Z;
  hd_nonce : Z;
  hd_nonce2 : Z;
  hd_nonce3 : Z;
  hd_extranonce : list Z;
  hd_time_offset : Z;
  hd_txcount : Z;
  hd_flags : Z;
  hd_xor_clear_bits : Z;
  hd_xor_key : list Z;
  hd_height : Z;
  hd_mm_rhs : Hash
}.

(** [time_on_wire]. *)
Definition time_on_wire (h : HeaderV2) : Z :=
  if Z.land (hd_flags h) FLAG_USE_TIME_OFFSET =? 0 then hd_time h
  else trunc u32_max (hd_time h - hd_time_offset h).

(** [serialize]. *)
Definition serialize (h : HeaderV2) : list Z :=
  u32_bytes (Z.lor (trunc u32_max (hd_version h)) V2_FLAG) ++ hd_prev_block h ++ hd_merkle_root h
  ++ u32_bytes (time_on_wire h) ++ u32_bytes (hd_bits h) ++ u32_bytes (hd_nonce h) ++ u32_bytes (hd_nonce2 h)
  ++ u32_bytes (hd_nonce3 h) ++ hd_extranonce h ++ u32_bytes (hd_time_offset h) ++ u16_bytes (hd_txcount h)
  ++ [hd_flags h] ++ [hd_xor_clear_bits h] ++ hd_xor_key h ++ u32_bytes (trunc u32_max (hd_height h))
  ++ hd_mm_rhs h.

(** [deserialize]. *)
Definition deserialize (b : list Z) : HeaderV2 :=
  let v := of_le (slice 0 4 b) in
  let wire_time := of_le (slice 68 72 b) in
  let flags := default 0 (b !! 110%nat) in
  let offset := of_le (slice 104 108 b) in
  {| hd_version := to_i32 (Z.land v (lnot_w 32 V2_FLAG));
     hd_prev_block := slice 4 36 b;
     hd_merkle_root := slice 36 68 b;
     hd_time := if Z.land flags FLAG_USE_TIME_OFFSET =? 0 then wire_time else trunc u32_max (wire_time + offset);
     hd_bits := of_le (slice 72 76 b);
     hd_nonce := of_le (slice 76 80 b);
     hd_nonce2 := of_le (slice 80 84 b);
     hd_nonce3 := of_le (slice 84 88 b);
     hd_extranonce := slice 88 104 b;
     hd_time_offset := offset;
     hd_txcount := of_le (slice 108 110 b);
     hd_flags := flags;
     hd_xor_clear_bits := default 0 (b !! 111%nat);
     hd_xor_key := slice 112 128 b;
     hd_height := to_i32 (of_le (slice 128 132 b));
     hd_mm_rhs := slice 132 164 b |}.

(** [header_extranonce]: the first twelve bytes, behind four zeros. *)
Definition header_extranonce (en12 : list Z) : list Z :=
  let en := take 12 en12 in zeros 4 ++ en ++ zeros (12 - length en).

Section Hashing.
Context (sha256 blake2b256 : list Z -> Hash).

(** [prevblock_hidden]. *)
Definition prevblock_hidden (prev_block : Hash) : Hash :=
  zeros 6 ++ drop 6 (tagged_sha256 sha256 "Bitcoin prevblock header, hashed" (rev prev_block)).

(** [xor_mask]. *)
Definition key_mask (xor_key : list Z) (clear_bits : Z) : Hash :=
  if forallb (fun b => b =? 0) xor_key then zeros 32 else
  let m := tagged_sha256 sha256 "Bitcoin block hash PoW XOR mask" xor_key in
  let clear_bytes := Z.to_nat (clear_bits / 8) in
  let m := zeros (Nat.min (Nat.min clear_bytes 32) (length m)) ++ drop (Nat.min clear_bytes 32) m in
  if (clear_bytes <? 32)%nat then alter (fun b => Z.land b (Z.shiftr 0xff (clear_bits mod 8))) clear_bytes m else m.

(** [h2]. *)
Definition h1d (h : HeaderV2) : list Z :=
  u32_bytes (Z.lor (trunc u32_max (hd_version h)) V2_FLAG) ++ rev (hd_prev_block h)
  ++ u32_bytes (trunc u32_max (hd_height h)) ++ hd_merkle_root h ++ u32_bytes (time_on_wire h) ++ [0]
  ++ u32_bytes (hd_bits h) ++ u32_bytes (hd_txcount h) ++ [hd_flags h] ++ [hd_xor_clear_bits h]
  ++ tagged_sha256 sha256 "Bitcoin block hash PoW XOR key" (hd_xor_key h).
Definition h2 (h : HeaderV2) : Hash :=
  let h1 := tagged_sha256 sha256 "Bitcoin block header 1" (h1d h) in
  tagged_sha256 sha256 "Merge-mining hook" (h1 ++ zeros 32 ++ hd_mm_rhs h).

(** [hash1]. *)
Definition hash1 (h : HeaderV2) : Hash := blake2b256 (zeros 4 ++ h2 h ++ hd_extranonce h).

(** [asic_hash]. *)
Definition asic_hash (prev_hidden hash1 : Hash) (nonce nonce2 time_offset nonce3 : Z) : Hash :=
  blake2b256 (prev_hidden ++ u32_bytes nonce ++ u32_bytes nonce2 ++ u32_bytes time_offset ++ u32_bytes nonce3 ++ hash1).

(** [pow_hash]. *)
Definition pow_hash (h : HeaderV2) : Hash :=
  let hash2 := asic_hash (prevblock_hidden (hd_prev_block h)) (hash1 h)
                 (hd_nonce h) (hd_nonce2 h) (hd_time_offset h) (hd_nonce3 h) in
  zip_with Z.lxor hash2 (key_mask (hd_xor_key h) (hd_xor_clear_bits h)).

(** [coinb1_sia]. *)
Definition coinb1_sia (h : HeaderV2) : list Z := zeros 3 ++ h2 h ++ zeros 4.

(** ** Merkle trees *)

(** [chunks(2)], hashed, after an odd level got its last hash again. *)
Definition up_one (level : list Hash) : list Hash := next_level sha256 level.

(** The [while level.len() > 1] loops; a level shrinks every round. *)
Fixpoint root_loop (fuel : nat) (level : list Hash) : option Hash :=
  match level with
  | [] => None
  | [r] => Some r
  | _ => match fuel with O => None | S k => root_loop k (up_one level) end
  end.
Definition merkle_root_from_txids (txids : list Hash) : Hash :=
  match txids with [] => zeros 32 | _ => default (zeros 32) (root_loop (length txids) txids) end.
Definition merkle_root_sha256d (coinbase_tx : list Z) (txids : list Hash) : Hash :=
  merkle_root_from_txids (sha256d sha256 coinbase_tx :: txids).

Fixpoint path_loop (fuel : nat) (level branches : list Hash) : option (list Hash) :=
  match level with
  | _ :: sib :: _ => match fuel with O => None | S k => path_loop k (up_one level) (branches ++ [sib]) end
  | _ => Some branches
  end.
Definition coinbase_branches (txids : list Hash) : list Hash :=
  default [] (path_loop (length txids) (zeros 32 :: txids) []).

(** [fold_branches]. *)
Definition fold_branches (leaf : Hash) (branches : list Hash) : Hash :=
  foldl (fun h b => sha256d sha256 (h ++ b)) leaf branches.
End Hashing.
End Header.
