(* ===== verification/ProtocolProps.v ===== *)
(** What the protocol crate of the gateway computes: the header it hashes is the one Prime's library
    hashes, its merkle path folds to the root, a rescaled split pays the new value out to the last
    sat, and the coinbase it writes reads back as what was put in. *)

From S2P Require Import Prelude Bytes Text Handshake Pow Protocol.
Open Scope Z_scope.

(** * Slices *)

Lemma slice_skip a b (x l : list Z) : (length x <= a)%nat -> slice a b (x ++ l) = slice (a - length x) (b - length x) l.
Proof.
  intros H. unfold slice. rewrite drop_app_ge by done.
  destruct (decide (a <= b)%nat); [f_equal; lia|].
  replace (b - a)%nat with 0%nat by lia. replace (b - length x - (a - length x))%nat with 0%nat by lia. done.
Qed.

Lemma slice_here n b (x l : list Z) : length x = b -> n = 0%nat -> slice n b (x ++ l) = x.
Proof. intros <- ->. unfold slice. rewrite Nat.sub_0_r. apply take_app_length. Qed.

Lemma slice_last n b (x : list Z) : length x = b -> n = 0%nat -> slice n b x = x.
Proof. intros <- ->. unfold slice. rewrite Nat.sub_0_r, drop_0. by apply take_ge. Qed.

Lemma get_bytes_app x l : get_bytes (Z.of_nat (length x)) (x ++ l) = Some (x, l).
Proof.
  unfold get_bytes. rewrite length_app, (proj2 (Z.ltb_ge _ _)) by lia. rewrite Nat2Z.id.
  by rewrite take_app_length, drop_app_length.
Qed.

Lemma get_bytes_at n x l : n = Z.of_nat (length x) -> get_bytes n (x ++ l) = Some (x, l).
Proof. intros ->. apply get_bytes_app. Qed.

Lemma get_bytes_all n x : n = Z.of_nat (length x) -> get_bytes n x = Some (x, []).
Proof. intros ->. rewrite <- (app_nil_r x) at 2. apply get_bytes_app. Qed.

(** * Headers *)

Module HeaderFacts.
Import Header.

Definition well_formed (h : HeaderV2) : Prop :=
  0 <= hd_version h < 0x80000000 /\ length (hd_prev_block h) = 32%nat /\ length (hd_merkle_root h) = 32%nat /\
  in_range u32_max (hd_time h) /\ in_range u32_max (hd_bits h) /\ in_range u32_max (hd_nonce h) /\
  in_range u32_max (hd_nonce2 h) /\ in_range u32_max (hd_nonce3 h) /\ length (hd_extranonce h) = 16%nat /\
  in_range u32_max (hd_time_offset h) /\ in_range u16_max (hd_txcount h) /\ in_range u8_max (hd_flags h) /\
  in_range u8_max (hd_xor_clear_bits h) /\ length (hd_xor_key h) = 16%nat /\
  - 0x80000000 <= hd_height h < 0x80000000 /\ length (hd_mm_rhs h) = 32%nat.

Lemma version_word v : 0 <= v < 0x80000000 ->
  in_range u32_max (Z.lor (trunc u32_max v) V2_FLAG) /\
  to_i32 (Z.land (Z.lor (trunc u32_max v) V2_FLAG) (lnot_w 32 V2_FLAG)) = v.
Proof.
  intros Hv. unfold trunc. rewrite (Z.mod_small v) by lia.
  change (lnot_w 32 V2_FLAG) with (Z.ones 31). change V2_FLAG with (2 ^ 31).
  assert (B : Z.testbit v 31 = false) by (apply Z.testbit_false; [lia|]; by rewrite Z.div_small by lia).
  assert (L : Z.land v (2 ^ 31) = 0).
  { apply Z.bits_inj'. intros n Hn. rewrite Z.land_spec, Z.pow2_bits_eqb, Z.bits_0 by lia.
    destruct (Z.eqb_spec 31 n) as [<-|]; [by rewrite B | apply andb_false_r]. }
  assert (E : Z.lor v (2 ^ 31) = v + 2 ^ 31) by (pose proof (Z.add_lor_land v (2 ^ 31)); lia).
  rewrite E, Z.land_ones by lia. split; [unfold in_range; lia|].
  replace (v + 2 ^ 31) with (v + 1 * 2 ^ 31) by lia. rewrite Z.mod_add, Z.mod_small by lia.
  unfold to_i32, trunc. rewrite Z.mod_small by lia. by rewrite (proj2 (Z.ltb_lt _ _)) by lia.
Qed.

Lemma to_i32_id z : - 0x80000000 <= z < 0x80000000 -> to_i32 (trunc u32_max z) = z.
Proof.
  intros Hz. unfold to_i32, trunc. rewrite Z.mod_mod by lia.
  destruct (Z.le_gt_cases 0 z).
  - rewrite Z.mod_small by lia. by rewrite (proj2 (Z.ltb_lt _ _)) by lia.
  - replace (z mod (4294967295 + 1)) with (z + 0x100000000)
      by (apply (Z.mod_unique _ _ (-1)); lia).
    rewrite (proj2 (Z.ltb_ge _ _)) by lia. lia.
Qed.

Lemma trunc_range top z : 0 <= top -> in_range top (trunc top z).
Proof. intros H. unfold trunc, in_range. pose proof (Z.mod_pos_bound z (top + 1)). lia. Qed.

Lemma wire_time_back t off : in_range u32_max t ->
  trunc u32_max (trunc u32_max (t - off) + off) = t.
Proof.
  intros H. unfold trunc, in_range in *. rewrite Zplus_mod_idemp_l, Z.sub_add. apply Z.mod_small. lia.
Qed.

(** Finding a field of a concatenation of fields of known length. *)
Ltac field_len := rewrite ?length_u32, ?length_u16, ?length_u64; cbn [length]; first [done | lia | eassumption].
Ltac field_at :=
  unfold serialize; repeat (rewrite slice_skip; [|field_len]);
  first [apply slice_here | apply slice_last]; field_len.

Lemma lookup_skip i (x l : list Z) : (length x <= i)%nat -> (x ++ l) !! i = l !! (i - length x)%nat.
Proof. apply lookup_app_r. Qed.

(** Reading a header back gives the header that was written. *)
Theorem header_round_trip h : well_formed h ->
  length (serialize h) = HEADER_V2_SIZE /\ deserialize (serialize h) = h.
Proof.
  intros (Hv & Hp & Hm & Ht & Hb & Hn & Hn2 & Hn3 & He & Ho & Hc & Hf & Hx & Hk & Hh & Hr).
  destruct (version_word _ Hv) as [Rv Ev]. split.
  { unfold serialize. rewrite !length_app, !length_u32, length_u16. cbn [length]. unfold HEADER_V2_SIZE. lia. }
  assert (F : serialize h !! 110%nat = Some (hd_flags h) /\ serialize h !! 111%nat = Some (hd_xor_clear_bits h)).
  { unfold serialize. split; repeat (rewrite lookup_app_r; [|field_len]); rewrite ?length_u32, ?length_u16, ?Hp, ?Hm, ?He; done. }
  destruct F as [F1 F2]. unfold deserialize. rewrite F1, F2. cbn [default from_option].
  assert (S0 : slice 0 4 (serialize h) = u32_bytes (Z.lor (trunc u32_max (hd_version h)) V2_FLAG)) by field_at.
  assert (S1 : slice 4 36 (serialize h) = hd_prev_block h) by field_at.
  assert (S2 : slice 36 68 (serialize h) = hd_merkle_root h) by field_at.
  assert (S3 : slice 68 72 (serialize h) = u32_bytes (time_on_wire h)) by field_at.
  assert (S4 : slice 72 76 (serialize h) = u32_bytes (hd_bits h)) by field_at.
  assert (S5 : slice 76 80 (serialize h) = u32_bytes (hd_nonce h)) by field_at.
  assert (S6 : slice 80 84 (serialize h) = u32_bytes (hd_nonce2 h)) by field_at.
  assert (S7 : slice 84 88 (serialize h) = u32_bytes (hd_nonce3 h)) by field_at.
  assert (S8 : slice 88 104 (serialize h) = hd_extranonce h) by field_at.
  assert (S9 : slice 104 108 (serialize h) = u32_bytes (hd_time_offset h)) by field_at.
  assert (Sa : slice 108 110 (serialize h) = u16_bytes (hd_txcount h)) by field_at.
  assert (Sb : slice 112 128 (serialize h) = hd_xor_key h) by field_at.
  assert (Sc : slice 128 132 (serialize h) = u32_bytes (trunc u32_max (hd_height h))) by field_at.
  assert (Sd : slice 132 164 (serialize h) = hd_mm_rhs h) by field_at.
  rewrite S0, S1, S2, S3, S4, S5, S6, S7, S8, S9, Sa, Sb, Sc, Sd.
  assert (Rt : in_range u32_max (time_on_wire h)).
  { unfold time_on_wire. destr_if; [done | by apply trunc_range]. }
  rewrite (of_le_u32 (Z.lor _ _)) by done. rewrite !of_le_u32 by (done || by apply trunc_range).
  rewrite of_le_u16 by done. rewrite Ev, to_i32_id by lia.
  replace (if Z.land (hd_flags h) FLAG_USE_TIME_OFFSET =? 0 then _ else _) with (hd_time h).
  2: { unfold time_on_wire. destr_if; [done|]. by rewrite wire_time_back. }
  by destruct h.
Qed.

(** ** The same hash on both sides *)

Section Agree.
Context (sha256 blake2b256 : list Z -> Hash).

(** What a gateway's header is to Prime. *)
Definition commitment_of (h : HeaderV2) : Commitment :=
  {| c_version := trunc u32_max (hd_version h); c_prev_hash := hd_prev_block h;
     c_height := trunc u32_max (hd_height h); c_merkle_root := hd_merkle_root h;
     c_time_on_wire := time_on_wire h; c_nbits := hd_bits h; c_txcount := hd_txcount h; c_flags := hd_flags h;
     c_xor_clear_bits := hd_xor_clear_bits h; c_xor_key := hd_xor_key h; c_rhs := hd_mm_rhs h |}.
Definition nonce8_of (h : HeaderV2) : list Z := u32_bytes (hd_nonce h) ++ u32_bytes (hd_nonce2 h).
Definition ntime8_of (h : HeaderV2) : list Z := u32_bytes (hd_time_offset h) ++ u32_bytes (hd_nonce3 h).

Lemma mask_agrees (key : list Z) bits : (forall d, length (sha256 d) = 32%nat) -> 0 <= bits ->
  key_mask sha256 key bits = Pow.xor_mask sha256 key bits.
Proof.
  intros H32 Hb. unfold key_mask, Pow.xor_mask. destr_if; [done|].
  set (m := tagged_sha256 sha256 _ key). assert (Hm : length m = 32%nat) by apply H32. clearbody m.
  rewrite Hm. destruct (Nat.ltb_spec (Z.to_nat (bits / 8)) 32) as [Hlt|Hge].
  - rewrite !(Nat.min_l _ 32) by lia. done.
  - rewrite !(Nat.min_r _ 32) by lia. by rewrite !drop_ge by lia.
Qed.

Lemma h2_agrees h : h2 sha256 h = commitment_h2 sha256 (commitment_of h).
Proof. done. Qed.

Lemma pow_hash_agrees h en12 : (forall d, length (sha256 d) = 32%nat) -> length en12 = 12%nat ->
  0 <= hd_xor_clear_bits h -> hd_extranonce h = header_extranonce en12 ->
  pow_hash sha256 blake2b256 h
  = rev (jobwork_hash blake2b256 (jobwork_new sha256 blake2b256 (commitment_of h) en12) (nonce8_of h) (ntime8_of h)).
Proof.
  intros H32 Hen Hx He. unfold pow_hash, jobwork_hash, jobwork_new, asic_hash, work_header, hash1, work_root. cbn [sia_prev root mask].
  assert (E : zeros 4 ++ h2 sha256 h ++ hd_extranonce h
              = [0] ++ sia_coinb1 (commitment_h2 sha256 (commitment_of h)) ++ en12).
  { rewrite He, h2_agrees. unfold header_extranonce, sia_coinb1. rewrite take_ge by lia. rewrite Hen, app_nil_r.
    rewrite <- !app_assoc. done. }
  rewrite rev_involutive, <- mask_agrees by done. rewrite E. unfold nonce8_of, ntime8_of.
  by rewrite <- !app_assoc.
Qed.

Lemma serialize_agrees h en12 : length en12 = 12%nat -> in_range u16_max (hd_txcount h) ->
  hd_extranonce h = header_extranonce en12 ->
  serialize h = serialize_header_v2 (commitment_of h) (nonce8_of h) (ntime8_of h) en12.
Proof.
  intros Hen Hc He. unfold serialize, serialize_header_v2, nonce8_of, ntime8_of. rewrite He. unfold header_extranonce.
  rewrite take_ge by lia. rewrite Hen, app_nil_r. cbn [commitment_of c_version c_prev_hash c_merkle_root c_time_on_wire
    c_nbits c_txcount c_flags c_xor_clear_bits c_xor_key c_height c_rhs].
  rewrite drop_app_ge, take_app_le by (rewrite length_u32; lia). rewrite length_u32, drop_0.
  rewrite (take_ge (u32_bytes _)) by (rewrite length_u32; lia).
  unfold trunc at 4. rewrite (Z.mod_small (hd_txcount h)) by (unfold in_range in Hc; lia).
  change V2_BIT with V2_FLAG. by rewrite <- !app_assoc.
Qed.
End Agree.

Lemma targets_agree pot : 0 <= pot < 224 -> share_target_le pot = Some (rev (target_for_pot pot)).
Proof.
  intros Hp. assert (A : Forall (fun p => share_target_le p = Some (rev (target_for_pot p))) (seqZ 0 224)).
  { apply (bool_decide_unpack _). vm_compute. done. }
  rewrite Forall_forall in A. apply A. apply elem_of_seqZ. lia.
Qed.

Lemma length_target_for_pot pot : 0 <= pot < 224 -> length (target_for_pot pot) = 32%nat.
Proof.
  intros Hp. assert (A : Forall (fun p => length (target_for_pot p) = 32%nat) (seqZ 0 224)).
  { apply (bool_decide_unpack _). vm_compute. done. }
  rewrite Forall_forall in A. apply A. apply elem_of_seqZ. lia.
Qed.

Lemma length_key_mask (sha256 : list Z -> Hash) key bits : (forall d, length (sha256 d) = 32%nat) ->
  length (key_mask sha256 key bits) = 32%nat.
Proof.
  intros H32. unfold key_mask. destr_if; [done|].
  set (m := tagged_sha256 sha256 _ key). assert (Hm : length m = 32%nat) by apply H32. clearbody m.
  set (k := Nat.min _ 32). assert (length (zeros (Nat.min k (length m)) ++ drop k m) = 32%nat).
  { rewrite length_app, length_drop. unfold zeros. rewrite length_replicate. lia. }
  destr_if; [by rewrite length_alter | done].
Qed.

Lemma length_pow_hash (sha256 blake2b256 : list Z -> Hash) h :
  (forall d, length (sha256 d) = 32%nat) -> (forall d, length (blake2b256 d) = 32%nat) ->
  length (pow_hash sha256 blake2b256 h) = 32%nat.
Proof.
  intros Hs Hb. unfold pow_hash. rewrite length_zip_with, length_key_mask by done. unfold asic_hash. by rewrite Hb.
Qed.

Lemma order_agrees h : forall t, length h = length t -> Header.meets_target h t = meets_from h t.
Proof.
  induction h as [|x h IH]; intros [|y t] L; [done..|]. cbn [Header.meets_target meets_from].
  destruct (Z.eqb_spec x y) as [->|]; [|done]. cbn [negb]. apply IH. cbn in L. lia.
Qed.

Lemma meets_agrees h t : length h = length t -> Header.meets_target h t = Pow.meets_target (rev h) (rev t).
Proof. intros L. unfold Pow.meets_target. rewrite !rev_involutive. by apply order_agrees. Qed.

Lemma mant_bytes_le w : mant_bytes w = rev (take 3 (u32_bytes w)).
Proof.
  unfold mant_bytes, u32_bytes. cbn [le_bytes take rev app]. unfold trunc.
  rewrite !Z.shiftr_div_pow2 by lia. rewrite !Z.div_div by lia. done.
Qed.

Lemma mantissa_placed e : 3 < e <= 32 -> forall a b c,
  place_bytes (Z.to_nat (e - 3)) [a; b; c] (replicate 32 0) = Some (rev (put (Z.to_nat (32 - e)) [c; b; a] (zeros 32))).
Proof.
  intros He. assert (A : Forall (fun e => forall a b c, place_bytes (Z.to_nat (e - 3)) [a; b; c] (replicate 32 0)
                   = Some (rev (put (Z.to_nat (32 - e)) [c; b; a] (zeros 32)))) (seqZ 4 29)).
  { change (seqZ 4 29) with (map Z.of_nat (seq 4 29)). cbn [seq map].
    repeat (apply Forall_cons; split; [intros; vm_compute; reflexivity|]). apply Forall_nil. done. }
  rewrite Forall_forall in A. apply A. apply elem_of_seqZ. lia.
Qed.

Lemma low_mantissa w : 0 <= w < 2 ^ 24 -> put 29 (mant_bytes w) (zeros 32) = rev (u32_bytes w ++ replicate 28 0).
Proof.
  intros Hw. rewrite mant_bytes_le. unfold u32_bytes. cbn [le_bytes take].
  rewrite !Z.div_div by lia. change (256 * (256 * 256)) with (2 ^ 24). change (256 * 256 * 256) with (2 ^ 24).
  rewrite (Z.div_small w (2 ^ 24)) by lia. done.
Qed.

(** The compact form of the block target reads alike wherever Prime reads it. *)
Lemma bits_agree bits t : 0 <= bits -> nbits_to_target_le bits = Some t -> bits_to_target bits = Some (rev t).
Proof.
  intros Hb. unfold nbits_to_target_le, bits_to_target.
  destruct (Z.eqb_spec (Z.land bits 0x800000) 0) as [Hs|]; [cbn [negb orb]|done].
  assert (E : Z.land bits 0x00ffffff = Z.land bits 0x007fffff).
  { change 0x00ffffff with (Z.lor 0x007fffff 0x800000). rewrite Z.land_lor_distr_r, Hs. apply Z.lor_0_r. }
  rewrite E. set (m := Z.land bits 0x007fffff). assert (Hm : 0 <= m < 2 ^ 23).
  { unfold m. change 0x007fffff with (Z.ones 23). rewrite Z.land_ones by lia. apply Z.mod_pos_bound. lia. }
  assert (He : 0 <= Z.shiftr bits 24) by (by apply Z.shiftr_nonneg). generalize dependent (Z.shiftr bits 24). intros e He.
  destr_if; [done|].
  destruct (Z.leb_spec e 3) as [H3|H3]; [|destruct (Z.ltb_spec 32 e) as [|H32]; [done|]].
  - assert (W : 0 <= Z.shiftr m (8 * (3 - e)) < 2 ^ 24).
    { split; [apply Z.shiftr_nonneg; lia|]. rewrite Z.shiftr_div_pow2 by lia.
      apply Z.le_lt_trans with m; [|lia]. apply Z.div_le_upper_bound; [lia|]. pose proof (Z.pow_pos_nonneg 2 (8 * (3 - e))). nia. }
    rewrite (proj2 (Z.ltb_ge 32 e)) by lia. intros Et. apply (inj Some) in Et as <-. rewrite <- low_mantissa by done.
    destruct (Z.leb_spec 3 e); [|done]. assert (e = 3) as -> by lia. change (8 * (3 - 3)) with 0. by rewrite Z.shiftr_0_r.
  - rewrite (proj2 (Z.leb_le 3 e)), (proj2 (Z.ltb_ge 32 (32 - e + 3))) by lia. rewrite mant_bytes_le.
    assert (exists a b c, take 3 (u32_bytes m) = [a; b; c]) as (a & b & c & ->) by (unfold u32_bytes; cbn [le_bytes take]; eauto).
    rewrite mantissa_placed by lia. intros Et. apply (inj Some) in Et as <-. by rewrite rev_involutive.
Qed.

(** C19: Whatever the share, the gateway that builds its header and the Prime that is handed the fields
    come to the same hash, the same verdict against the share's target and against the block's, and
    the same header bytes. *)
Theorem gateway_and_prime_agree (sha256 blake2b256 : list Z -> Hash) h en12 :
  (forall d, length (sha256 d) = 32%nat) -> (forall d, length (blake2b256 d) = 32%nat) -> length en12 = 12%nat ->
  0 <= hd_xor_clear_bits h -> in_range u16_max (hd_txcount h) -> in_range u32_max (hd_bits h) ->
  hd_extranonce h = header_extranonce en12 ->
  let hash := pow_hash sha256 blake2b256 h in
  let theirs := jobwork_hash blake2b256 (jobwork_new sha256 blake2b256 (commitment_of h) en12) (nonce8_of h) (ntime8_of h) in
  hash = rev theirs /\
  (forall pot, 0 <= pot < 224 -> exists t, share_target_le pot = Some t /\
     Header.meets_target hash (target_for_pot pot) = Pow.meets_target theirs t) /\
  (forall t, nbits_to_target_le (hd_bits h) = Some t -> exists t', bits_to_target (hd_bits h) = Some t' /\
     Header.meets_target hash t' = Pow.meets_target theirs t) /\
  serialize h = serialize_header_v2 (commitment_of h) (nonce8_of h) (ntime8_of h) en12.
Proof.
  intros Hs Hb Hen Hx Hc Hbits He hash theirs.
  assert (E : hash = rev theirs) by (by apply pow_hash_agrees). conjs; [done| | |by apply serialize_agrees].
  - intros pot Hp. exists (rev (target_for_pot pot)). split; [by apply targets_agree|].
    rewrite meets_agrees by (unfold hash; by rewrite length_pow_hash, length_target_for_pot).
    by rewrite E, rev_involutive.
  - intros t Ht. exists (rev t). unfold in_range in Hbits. split; [apply bits_agree; [lia | done]|].
    destruct (nbits_value (hd_bits h) t ltac:(lia) Ht) as [Hl _].
    rewrite meets_agrees by (unfold hash; by rewrite length_pow_hash, length_rev).
    by rewrite E, !rev_involutive.
Qed.

(** ** The coinbase path *)

Section Merkle.
Context (sha256 : list Z -> Hash).

Lemma next_level_length a b rest :
  exists x rest', up_one sha256 (a :: b :: rest) = x :: rest' /\ x = sha256d sha256 (a ++ b) /\
    (length rest' <= length rest)%nat /\
    forall a', up_one sha256 (a' :: b :: rest) = sha256d sha256 (a' ++ b) :: rest'.
Proof.
  unfold up_one, next_level. rewrite !odd_tail_if.
  set (t := odd_tail (a :: b :: rest)). exists (sha256d sha256 (a ++ b)), (hash_pairs sha256 (rest ++ t)). split; [done|]. split; [done|].
  pose proof (odd_tail_length (a :: b :: rest)) as [Ht He]. fold t in Ht, He. split.
  - rewrite length_hash_pairs, length_app. destruct rest as [|c rest]; [rewrite He by done; cbn; lia|].
    rewrite Nat.div2_div. apply Nat.Div0.div_le_upper_bound. cbn [length]. lia.
  - intros a'. rewrite odd_tail_if. by replace (odd_tail (a' :: b :: rest)) with t.
Qed.

(** Both loops end within their fuel, and the path they give folds the leaf to the root. *)
Lemma path_folds fuel : forall leaf z rest brs, (length rest <= fuel)%nat ->
  exists bs r, path_loop sha256 fuel (z :: rest) brs = Some (brs ++ bs) /\
    root_loop sha256 fuel (leaf :: rest) = Some r /\ fold_branches sha256 leaf bs = r.
Proof.
  induction fuel as [|fuel IH]; intros leaf z rest brs Hl.
  { destruct rest; [|cbn in Hl; lia]. exists [], leaf. by rewrite app_nil_r. }
  destruct rest as [|b rest]; [exists [], leaf; by rewrite app_nil_r|].
  destruct (next_level_length z b rest) as (x & rest' & E & _ & Hr & F). cbn [path_loop root_loop].
  rewrite E, (F leaf). cbn [length] in Hl.
  destruct (IH (sha256d sha256 (leaf ++ b)) x rest' (brs ++ [b])) as (bs & r & E1 & E2 & E3); [lia|].
  exists (b :: bs), r. rewrite E1, E2, <- app_assoc. done.
Qed.

Lemma root_loop_fuel fuel fuel' : forall level r, root_loop sha256 fuel level = Some r -> (fuel <= fuel')%nat ->
  root_loop sha256 fuel' level = Some r.
Proof.
  revert fuel'. induction fuel as [|fuel IH]; intros fuel' level r H Hf.
  - destruct level as [|x [|y l]]; [done | |done]. by destruct fuel'.
  - destruct fuel' as [|fuel']; [lia|]. destruct level as [|x [|y l]]; [done..|]. cbn [root_loop] in *.
    apply IH; [done | lia].
Qed.

Lemma path_proves_coinbase leaf txids :
  fold_branches sha256 leaf (coinbase_branches sha256 txids) = merkle_root_from_txids sha256 (leaf :: txids).
Proof.
  destruct (path_folds (length txids) leaf (zeros 32) txids [] ltac:(lia)) as (bs & r & E1 & E2 & E3).
  unfold coinbase_branches, merkle_root_from_txids. rewrite E1. cbn [default from_option app].
  rewrite (root_loop_fuel _ (length (leaf :: txids)) _ _ E2) by (cbn; lia). done.
Qed.
End Merkle.
End HeaderFacts.

(** * The split *)

Module PayeesFacts.
Import Payees.

Definition total (l : list CoinbaserOutput) : Z := zsum (map co_sats l).
Definition amounts_ok (l : list CoinbaserOutput) : Prop := Forall (fun o => 0 <= co_sats o) l /\ total l <= u64_max.

Lemma total_nonneg l : Forall (fun o => 0 <= co_sats o) l -> 0 <= total l.
Proof. intros H. unfold total. apply zsum_nonneg. by apply Forall_map. Qed.

Lemma sum_from l : forall a, Forall (fun o => 0 <= co_sats o) l -> 0 <= a -> a + total l <= u64_max ->
  foldl (fun a o => trunc u64_max (a + co_sats o)) a l = a + total l.
Proof.
  unfold total. induction l as [|o l IH]; intros a Hl Ha Hs; cbn [foldl map] in *; [cbn; lia|].
  inversion_clear Hl. pose proof (total_nonneg l H0) as Ht. unfold total in Ht. rewrite zsum_cons in *.
  unfold trunc at 2. rewrite Z.mod_small by lia. rewrite IH by (done || lia). lia.
Qed.

Lemma sum_exact l : amounts_ok l -> sum_sats l = total l.
Proof. intros [H1 H2]. unfold sum_sats. rewrite sum_from by (done || lia). lia. Qed.

Lemma sum_range l : in_range u64_max (sum_sats l).
Proof.
  unfold sum_sats. assert (G : forall a, in_range u64_max a -> in_range u64_max (foldl (fun a o => trunc u64_max (a + co_sats o)) a l)).
  { induction l as [|o l IH]; intros a Ha; [done|]. cbn [foldl]. apply IH. unfold trunc, in_range.
    pose proof (Z.mod_pos_bound (a + co_sats o) (u64_max + 1)). lia. }
  apply G. unfold in_range. lia.
Qed.

Lemma amount_bounds l o : Forall (fun o => 0 <= co_sats o) l -> o ∈ l -> 0 <= co_sats o <= total l.
Proof.
  intros Hl Hin. pose proof (proj1 (Forall_forall _ _) Hl) as Hl'. split; [by apply Hl'|].
  unfold total. by apply zsum_map_elem_le.
Qed.

(** What a rescaled output is to the one it comes from. *)
Definition fair (old new : Z) (o o' : CoinbaserOutput) : Prop :=
  co_script o' = co_script o /\ co_sats o * new / old <= co_sats o' /\ 0 <= co_sats o'.

Lemma scaled_from old new : 0 < old -> in_range u64_max new -> forall l paid, l <> [] ->
  Forall (fun o => 0 <= co_sats o) l -> 0 <= paid -> paid * old + new * total l <= new * old ->
  Forall2 (fair old new) l (scale_outputs old new paid l) /\ total (scale_outputs old new paid l) = new - paid.
Proof.
  intros Ho Hn. unfold total, in_range in *.
  induction l as [|o l IH]; intros paid Hne Hl Hp Hi; [done|]. inversion_clear Hl as [|? ? Hs Hl'].
  pose proof (total_nonneg l Hl') as Ht. unfold total in Ht. cbn [map] in Hi. rewrite zsum_cons in Hi.
  assert (D : co_sats o * new / old * old <= co_sats o * new).
  { rewrite Z.mul_comm. apply Z.mul_div_le. lia. }
  assert (D0 : 0 <= co_sats o * new / old) by (apply Z.div_pos; nia).
  assert (D1 : co_sats o * new / old <= new - paid).
  { apply Z.div_le_upper_bound; nia. }
  destruct l as [|o2 l].
  - cbn [scale_outputs map]. rewrite zsum_cons. unfold fair, sat_sub. cbn [co_sats co_script].
    split; [constructor; [|constructor]; cbn [co_sats co_script]; conjs; [done | lia | lia] | cbn; lia].
  - cbn [scale_outputs]. fold scale_outputs. unfold rescale.
    replace (trunc u64_max (co_sats o * new / old)) with (co_sats o * new / old)
      by (unfold trunc; rewrite Z.mod_small; lia).
    set (s := co_sats o * new / old) in *.
    replace (sat_add u64_max paid s) with (paid + s) by sat_lia.
    destruct (IH (paid + s)) as [F T]; [done | done | lia | cbn [map] in *; rewrite zsum_cons in *; nia|].
    split; [constructor; [unfold fair; cbn [co_sats co_script]; fold s; conjs; [done | lia | lia] | exact F]|].
    rewrite map_cons, zsum_cons. cbn [co_sats]. unfold total in T.
    refine (eq_trans (f_equal (Z.add s) T) _). lia.
Qed.

(** A split rescaled to a new value: nobody's script changes, nobody gets less than their part
    rounded down, and the parts come to the new value exactly. *)
Lemma scale_to_spec c v : amounts_ok (cv_outputs c) -> 0 < total (cv_outputs c) -> in_range u64_max v ->
  Forall2 (fair (total (cv_outputs c)) v) (cv_outputs c) (cv_outputs (scale_to c v)) /\
  total (cv_outputs (scale_to c v)) = v /\ cv_id (scale_to c v) = cv_id c.
Proof.
  intros Hok Hpos Hv. unfold scale_to, value_sum. rewrite sum_exact by done. set (old := total (cv_outputs c)) in *.
  rewrite (proj2 (Z.eqb_neq old 0)) by lia. cbn [orb].
  destruct (Z.eqb_spec old v) as [Heq|Hne]; cbn [orb].
  - rewrite <- Heq. conjs; [|done|done]. apply Forall_Forall2_diag. destruct Hok as [Hs _].
    eapply Forall_impl; [exact Hs|]. intros o Ho. unfold fair. rewrite Z.div_mul by lia. done.
  - destruct (cv_outputs c) as [|o l] eqn:E; [done|]. cbn [length Nat.eqb cv_outputs cv_id].
    destruct (scaled_from old v Hpos Hv (o :: l) 0) as [F T]; [done | apply Hok | lia | unfold old; lia|].
    conjs; [exact F | rewrite T; lia | done].
Qed.

Lemma value_sum_scaled c v : amounts_ok (cv_outputs c) -> 0 < total (cv_outputs c) -> in_range u64_max v ->
  value_sum (scale_to c v) = v.
Proof.
  intros Hok Hpos Hv. destruct (scale_to_spec c v Hok Hpos Hv) as (F & T & _).
  unfold value_sum. rewrite sum_exact; [done|]. split; [|unfold in_range in Hv; lia].
  clear - F. induction F as [|o o' l l' H _ IH]; constructor; [apply H | done].
Qed.

Lemma add_want_fresh script sats w : script ∉ map fst w -> add_want script sats w = w ++ [(script, sats)].
Proof.
  induction w as [|[s v] w IH]; [done|]. cbn [map fst add_want]. rewrite not_elem_of_cons. intros [Hn Hw].
  rewrite bool_decide_eq_false_2 by congruence. by rewrite IH.
Qed.

Lemma wants_distinct l : forall w, NoDup (map fst w ++ map co_script l) ->
  foldl (fun w o => add_want (co_script o) (co_sats o) w) w l = w ++ map (fun o => (co_script o, co_sats o)) l.
Proof.
  induction l as [|o l IH]; intros w Hn; cbn [foldl map] in *; [by rewrite app_nil_r|].
  apply NoDup_app in Hn as (H1 & H2 & H3). inversion_clear H3 as [|? ? H4 H5].
  assert (Hf : co_script o ∉ map fst w) by (intros Hin; apply (H2 _ Hin); left).
  rewrite add_want_fresh by done. rewrite IH, <- app_assoc; [done|].
  rewrite map_app. apply NoDup_app. conjs; [| |done].
  - apply NoDup_app. conjs; [done | | apply NoDup_singleton]. intros x Hx. cbn. by intros ->%list_elem_of_singleton.
  - intros x [Hx|Hx]%elem_of_app Hin; [apply (H2 _ Hx); by right|]. cbn in Hx.
    apply list_elem_of_singleton in Hx as ->. done.
Qed.

Lemma got_by_at_least l o : amounts_ok l -> o ∈ l -> co_sats o <= got_by (co_script o) l.
Proof.
  intros [Hs Ht] Hin. unfold got_by. assert (Hf : Forall (fun o => 0 <= co_sats o) (filter (fun x => co_script x = co_script o) l)).
  { apply Forall_forall. intros x [_ Hx]%list_elem_of_filter. by eapply Forall_forall in Hs. }
  rewrite sum_exact.
  - unfold total. apply zsum_map_elem_le; [|by apply list_elem_of_filter]. intros x Hx. by eapply Forall_forall in Hf.
  - split; [done|]. unfold total in *. etransitivity; [|exact Ht]. apply zsum_filter_le. intros x Hx. by eapply Forall_forall in Hs.
Qed.

(** A gateway that rescales the split it was issued is never found to have redirected anything,
    with no tolerance at all. *)
Theorem rescaled_split_passes c v tolerance : amounts_ok (cv_outputs c) -> 0 < total (cv_outputs c) ->
  NoDup (map co_script (cv_outputs c)) -> 0 < v <= u64_max -> 0 <= tolerance ->
  split_satisfied c (cv_outputs (scale_to c v)) tolerance = true.
Proof.
  intros Hok Hpos Hnd Hv Htol. destruct (scale_to_spec c v Hok Hpos ltac:(unfold in_range; lia)) as (F & T & _).
  assert (Hok' : amounts_ok (cv_outputs (scale_to c v))).
  { split; [|lia]. clear - F. induction F as [|o o' l l' H _ IH]; constructor; [apply H | done]. }
  unfold split_satisfied, value_sum. rewrite !sum_exact by done. rewrite T.
  rewrite (proj2 (Z.eqb_neq _ 0)), (proj2 (Z.eqb_neq v 0)) by lia.
  destruct (Nat.eqb_spec (length (cv_outputs c)) 0) as [Hl|_].
  { destruct (cv_outputs c); [done | done]. }
  cbn [orb]. unfold wants. rewrite wants_distinct by done. cbn [app].
  apply forallb_forall. intros [sc amount] (o & [= <- <-] & Hin)%in_map_iff. cbn [fst snd].
  apply list_elem_of_In in Hin. apply Z.leb_le.
  destruct (proj1 (list_elem_of_lookup _ _) Hin) as [i Hi].
  destruct (Forall2_lookup_l _ _ _ _ _ F Hi) as (o' & Hi' & Hsc & Hle & Hpos').
  pose proof (got_by_at_least _ o' Hok' (list_elem_of_lookup_2 _ _ _ Hi')) as G. rewrite Hsc in G.
  pose proof (amount_bounds _ _ (proj1 Hok) Hin) as B.
  unfold rescale, trunc. rewrite Z.mod_small; [unfold sat_sub; lia|]. split; [apply Z.div_pos; nia|].
  enough (co_sats o * v / total (cv_outputs c) <= v) by lia.
  apply Z.div_le_upper_bound; [lia|]. apply Z.mul_le_mono_nonneg_r; lia.
Qed.

(** ** The encoding *)

Definition out_ok (o : CoinbaserOutput) : Prop :=
  in_range u64_max (co_sats o) /\ (2 <= length (co_script o) <= 64)%nat.

Lemma parse_outs_encoded l : forall fuel, (length l <= fuel)%nat -> Forall out_ok l ->
  parse_outs fuel (concat (map encode_out l)) = Some l.
Proof.
  induction l as [|o l IH]; intros fuel Hf Hl; [by destruct fuel|]. inversion_clear Hl as [|? ? [Hs Hc] Hl'].
  destruct fuel as [|fuel]; [cbn in Hf; lia|]. cbn [map concat parse_outs].
  set (rest := concat (map encode_out l)). unfold encode_out. rewrite <- !app_assoc.
  set (n := trunc u8_max (Z.of_nat (length (co_script o)))).
  assert (Hn : n = Z.of_nat (length (co_script o))) by (unfold n, trunc; rewrite Z.mod_small; lia).
  rewrite !length_app, length_u64. cbn [length].
  rewrite (proj2 (Nat.ltb_ge _ _)) by lia.
  rewrite lookup_app_r by (rewrite length_u64; lia). rewrite length_u64. cbn [Nat.sub lookup app].
  rewrite take_app_le, take_ge by (rewrite length_u64; lia). rewrite of_le_u64 by done.
  rewrite drop_app_ge by (rewrite length_u64; lia). rewrite length_u64. cbn [Nat.sub drop].
  rewrite Hn.
  change (list_lookup 0%nat (Z.of_nat (length (co_script o)) :: co_script o ++ rest)) with (Some (Z.of_nat (length (co_script o)))).
  cbn [default from_option drop]. unfold id. rewrite (proj2 (Z.ltb_ge _ 2)), (proj2 (Z.ltb_ge 64 _)) by lia.
  rewrite drop_0, length_app, (proj2 (Z.ltb_ge _ (Z.of_nat (length (co_script o))))) by lia. cbn [orb].
  rewrite Nat2Z.id, take_app_length, drop_app_length. fold rest. unfold rest. cbn in Hf.
  rewrite IH by (done || lia). by destruct o.
Qed.

(** A split of at most 512 outputs reads back from its encoding. *)
Theorem split_reads_back c : Forall out_ok (cv_outputs c) -> (length (cv_outputs c) <= 512)%nat ->
  parse_coinbaser_v2 (encode c) = Some c.
Proof.
  intros Ho Hl. unfold parse_coinbaser_v2, encode. rewrite parse_outs_encoded by done. by destruct c.
Qed.
End PayeesFacts.

(** * The coinbase *)

Module CbtxFacts.
Import Cbtx.

Lemma compact_reads n l : in_range u64_max n -> read_varint (compact n ++ l) = Some (n, l).
Proof.
  intros Hn. unfold in_range in Hn. unfold compact, read_varint.
  destruct (Z.ltb_spec n 0xfd) as [H1|H1]; [|destruct (Z.leb_spec n 0xffff) as [H2|H2]; [|destruct (Z.leb_spec n 0xffffffff) as [H3|H3]]].
  - unfold trunc. rewrite Z.mod_small by lia. rewrite (get_bytes_at 1 [n]) by done. cbn [mbind option_bind of_le].
    replace (n + 256 * 0) with n by lia.
    by rewrite (proj2 (Z.eqb_neq n 0xfd)), (proj2 (Z.eqb_neq n 0xfe)), (proj2 (Z.eqb_neq n 0xff)) by lia.
  - change (0xfd :: u16_bytes (trunc u16_max n)) with ([0xfd] ++ u16_bytes (trunc u16_max n)). rewrite <- app_assoc.
    rewrite (get_bytes_at 1 [0xfd]) by done. cbn [mbind option_bind]. change (of_le [0xfd]) with 0xfd. cbn [Z.eqb Pos.eqb].
    unfold trunc. rewrite Z.mod_small by lia. rewrite (get_bytes_at 2) by (by rewrite length_u16). cbn [mbind option_bind].
    by rewrite of_le_u16 by (unfold in_range; lia).
  - change (0xfe :: u32_bytes (trunc u32_max n)) with ([0xfe] ++ u32_bytes (trunc u32_max n)). rewrite <- app_assoc.
    rewrite (get_bytes_at 1 [0xfe]) by done. cbn [mbind option_bind]. change (of_le [0xfe]) with 0xfe. cbn [Z.eqb Pos.eqb].
    unfold trunc. rewrite Z.mod_small by lia. rewrite (get_bytes_at 4) by (by rewrite length_u32). cbn [mbind option_bind].
    by rewrite of_le_u32 by (unfold in_range; lia).
  - change (0xff :: u64_bytes n) with ([0xff] ++ u64_bytes n). rewrite <- app_assoc.
    rewrite (get_bytes_at 1 [0xff]) by done. cbn [mbind option_bind]. change (of_le [0xff]) with 0xff. cbn [Z.eqb Pos.eqb].
    rewrite (get_bytes_at 8) by (by rewrite length_u64). cbn [mbind option_bind].
    by rewrite of_le_u64 by (unfold in_range; lia).
Qed.

(** Amounts and scripts that the counts of the format can hold. *)
Definition out_fits (o : CoinbaserOutput) : Prop :=
  in_range u64_max (co_sats o) /\ Z.of_nat (length (co_script o)) <= u64_max.

Lemma output_reads o l : out_fits o -> read_output (push_out o ++ l) = Some (o, l).
Proof.
  intros [Hs Hc]. unfold read_output, push_out. rewrite <- !app_assoc.
  rewrite (get_bytes_at 8) by (by rewrite length_u64). cbn [mbind option_bind].
  rewrite compact_reads by (unfold in_range; lia). cbn [mbind option_bind]. rewrite get_bytes_app. cbn [mbind option_bind].
  rewrite of_le_u64 by done. by destruct o.
Qed.

Lemma outputs_read outs l : Forall out_fits outs ->
  repeatedly (length outs) read_output (concat (map push_out outs) ++ l) = Some (outs, l).
Proof.
  induction 1 as [|o outs Ho _ IH]; [done|]. cbn [length repeatedly map concat]. rewrite <- app_assoc.
  rewrite output_reads by done. cbn [mbind option_bind]. rewrite IH. done.
Qed.

Lemma input_reads height tag extra l : Z.of_nat (length (scriptsig height tag extra)) <= u64_max ->
  read_input (prefix height tag extra ++ l) = Some (scriptsig height tag extra, l).
Proof.
  intros Hs. unfold read_input, prefix. set (ss := scriptsig height tag extra) in *. cbv zeta. rewrite <- !app_assoc.
  rewrite app_assoc, (get_bytes_at 36) by done. cbn [mbind option_bind].
  rewrite compact_reads by (unfold in_range; lia). cbn [mbind option_bind]. rewrite get_bytes_app. cbn [mbind option_bind].
  by rewrite (get_bytes_at 4) by done.
Qed.

Lemma consumed_app x l : consumed (x ++ l) l = x.
Proof.
  unfold consumed. rewrite length_app. replace (length x + length l - length l)%nat with (length x) by lia.
  apply take_app_length.
Qed.

(** The height in the script is the one that was pushed, while it fits three bytes. *)
Lemma or_shifted_le bs : forall k, 0 <= k -> is_bytes bs ->
  or_shifted k bs = Z.shiftl (of_le bs) (8 * k).
Proof.
  induction bs as [|b bs IH]; intros k Hk Hb; cbn [or_shifted of_le]; [by rewrite Z.shiftl_0_l|].
  inversion_clear Hb as [|? ? Hb1 Hb2]. rewrite IH by (done || lia). rewrite !Z.shiftl_mul_pow2 by lia.
  unfold is_byte, in_range in Hb1.
  assert (L : Z.land (b * 2 ^ (8 * k)) (of_le bs * 2 ^ (8 * (k + 1))) = 0).
  { rewrite <- !Z.shiftl_mul_pow2 by lia. replace (8 * (k + 1)) with (8 + 8 * k) by lia.
    rewrite <- Z.shiftl_shiftl, <- Z.shiftl_land by lia.
    replace (Z.land b (Z.shiftl (of_le bs) 8)) with 0; [by rewrite Z.shiftl_0_l|]. symmetry.
    apply Z.bits_inj'. intros n Hn. rewrite Z.land_spec, Z.bits_0.
    destruct (Z.lt_ge_cases n 8); [rewrite Z.shiftl_spec_low by lia; apply andb_false_r|].
    replace (Z.testbit b n) with false; [done|]. symmetry.
    apply Z.testbit_false; [lia|]. rewrite Z.div_small; [done|]. split; [lia|].
    apply Z.lt_le_trans with (2 ^ 8); [lia|]. apply Z.pow_le_mono_r; lia. }
  pose proof (Z.add_lor_land (b * 2 ^ (8 * k)) (of_le bs * 2 ^ (8 * (k + 1)))) as A. rewrite L in A.
  replace (8 * (k + 1)) with (8 * k + 8) in * by lia. rewrite Z.pow_add_r in * by lia. lia.
Qed.

Lemma height_reads height tag extra : 0 <= height < 2 ^ 24 ->
  bip34_height (scriptsig height tag extra) = Some height.
Proof.
  intros Hh. unfold scriptsig. set (more := [trunc u8_max (Z.of_nat (length tag))] ++ tag ++ extra).
  assert (G : forall n bs, length bs = n -> (1 <= n <= 4)%nat -> is_bytes bs -> of_le bs = height ->
    bip34_height (Z.of_nat n :: bs ++ more) = Some height).
  { intros n bs Hl Hn Hb Hv. cbn [bip34_height]. rewrite (proj2 (Z.eqb_neq _ 0)), (proj2 (Z.ltb_ge 4 _)) by lia.
    cbn [orb length]. rewrite length_app, (proj2 (Z.ltb_ge _ _)) by lia. rewrite Nat2Z.id, <- Hl, take_app_length.
    rewrite or_shifted_le by (done || lia). rewrite Z.shiftl_0_r. by rewrite Hv. }
  destruct (Z.ltb_spec height 0x100) as [H1|H1]; [|destruct (Z.ltb_spec height 0x10000) as [H2|H2]].
  - unfold trunc. rewrite Z.mod_small by lia. apply (G 1%nat [height]); [done | lia | | cbn; lia].
    constructor; [|constructor]. unfold is_byte, in_range. lia.
  - unfold trunc. rewrite Z.mod_small by lia. apply (G 2%nat (u16_bytes height)); [done | lia | apply le_bytes_is_bytes |].
    apply of_le_u16. unfold in_range. lia.
  - apply (G 3%nat (take 3 (u32_bytes height))); [done | lia | apply is_bytes_take, le_bytes_is_bytes |].
    change (take 3 (u32_bytes height)) with (le_bytes 3 height). apply of_le_le_bytes. change (256 ^ Z.of_nat 3) with (2 ^ 24). lia.
Qed.

Lemma length_scriptsig height tag extra : (length (scriptsig height tag extra) <= 5 + length tag + length extra)%nat.
Proof.
  unfold scriptsig. rewrite !length_app. cbn [length]. destr_if; [cbn; lia|]. destr_if; [cbn; lia|]. cbn. lia.
Qed.

(** The outputs of the coinbase a split makes. *)
Definition paid_outputs (cb : CoinbaserV2) (wit : option (list Z)) : list CoinbaserOutput :=
  cv_outputs cb ++ match wit with Some w => [{| co_sats := 0; co_script := w |}] | None => [] end.

(** Either serialization of a coinbase reads back: the outputs it was made with, the height pushed
    in its script, and the bytes its transaction id is taken over. *)
Theorem coinbase_reads_back height tag extra cb wit : 0 <= height < 2 ^ 24 ->
  Z.of_nat (length tag + length extra) <= 1000000 ->
  Forall out_fits (paid_outputs cb wit) -> (1 <= length (paid_outputs cb wit) <= 512)%nat ->
  let legacy := coinbase_legacy height tag extra cb wit in
  let parsed := Some {| pc_outputs := paid_outputs cb wit; pc_legacy := legacy; pc_height := Some height |} in
  parse_coinbase legacy = parsed /\ parse_coinbase (coinbase_witness height tag extra cb wit) = parsed.
Proof.
  intros Hh Hl Ho Hn. cbv zeta.
  pose proof (length_scriptsig height tag extra) as Hs. pose proof (height_reads height tag extra Hh) as Hr.
  assert (N1 : compact 1 = [1]) by done.
  set (n := Z.of_nat (length (paid_outputs cb wit))).
  assert (P : push_outs cb wit = compact n ++ concat (map push_out (paid_outputs cb wit))) by done.
  assert (Hin : forall l, repeatedly (Z.to_nat 1) read_input (prefix height tag extra ++ l)
                = Some ([scriptsig height tag extra], l)).
  { intros l. change (Z.to_nat 1) with 1%nat. cbn [repeatedly]. by rewrite input_reads by lia. }
  assert (Hout : forall l, repeatedly (Z.to_nat n) read_output (concat (map push_out (paid_outputs cb wit)) ++ l)
                 = Some (paid_outputs cb wit, l)).
  { intros l. unfold n. rewrite Nat2Z.id. by apply outputs_read. }
  assert (Hnr : in_range u64_max n) by (unfold in_range, n; lia).
  split.
  - unfold parse_coinbase, coinbase_legacy. rewrite (get_bytes_at 4 (u32_bytes 1)) by done. cbn [mbind option_bind].
    rewrite (bool_decide_eq_false_2 (take 2 _ = _)) by (intros E; apply (f_equal head) in E; discriminate E).
    rewrite <- N1 at 1. rewrite compact_reads by done. cbn [mbind option_bind Z.eqb Z.ltb orb Z.compare].
    rewrite Hin. cbn [mbind option_bind]. rewrite P, <- app_assoc. rewrite compact_reads by done. cbn [mbind option_bind].
    rewrite (proj2 (Z.eqb_neq n 0)), (proj2 (Z.ltb_ge 512 n)) by (unfold n; lia). cbn [orb].
    rewrite Hout. cbn [mbind option_bind].
    rewrite get_bytes_all by done. cbn [mbind option_bind default from_option head]. rewrite !consumed_app.
    unfold id. by rewrite Hr, <- ?app_assoc.
  - unfold parse_coinbase, coinbase_witness, coinbase_legacy. rewrite (get_bytes_at 4 (u32_bytes 1)) by done.
    cbn [mbind option_bind app]. rewrite bool_decide_eq_true_2 by done. cbn [drop].
    change (1 :: prefix height tag extra ++ ?l) with (compact 1 ++ prefix height tag extra ++ l).
    rewrite compact_reads by done. cbn [mbind option_bind Z.eqb Z.ltb orb Z.compare].
    rewrite Hin. cbn [mbind option_bind]. rewrite P, <- !app_assoc. rewrite compact_reads by done. cbn [mbind option_bind].
    rewrite (proj2 (Z.eqb_neq n 0)), (proj2 (Z.ltb_ge 512 n)) by (unfold n; lia). cbn [orb].
    rewrite Hout. cbn [mbind option_bind].
    change (repeatedly (Z.to_nat 1) skip_witness _) with (Some ([()], u32_bytes 0)). cbn [mbind option_bind].
    rewrite get_bytes_all by done. cbn [mbind option_bind default from_option head]. rewrite !consumed_app.
    unfold id. by rewrite Hr, <- ?app_assoc.
Qed.
End CbtxFacts.

(** * Addresses *)

Module IdentityFacts.
Import Identity.
Section Script.
Context (sha256 : list Z -> Hash).

Ltac nat_eqs := bools; repeat match goal with
  | H : Nat.eqb _ _ = true |- _ => apply Nat.eqb_eq in H
  | H : Nat.eqb _ _ = false |- _ => apply Nat.eqb_neq in H
  end.

(** Every script an identity resolves to is one of the four standard forms. *)
Lemma script_length user s : identity_script sha256 user = Some s -> (22 <= length s <= 34)%nat.
Proof.
  unfold identity_script. destr_if; [done|]. destr_if.
  - destruct (bech32_decode _) as [[[hrp data] is_m]|]; [|done]. cbn [mbind option_bind]. destr_if; [done|].
    unfold witness_script. destruct data as [|ver rest]; [done|].
    destruct (convert_bits _ _ _ _) as [prog|]; [|done]. cbn [mbind option_bind]. intros H. clear - H.
    repeat (destr_if_in H; try done); injection H as <-; nat_eqs; cbn; lia.
  - unfold legacy_script. destruct (b58_decode _) as [raw|]; [|done]. cbn [mbind option_bind].
    generalize (take (length raw - 4) raw). intros payload H. clear - H.
    destr_if_in H; [done|]. destr_if_in H; [done|]. destr_if_in H; [done|]. nat_eqs.
    destruct payload as [|v hash]; [done|]. cbn [length] in *.
    repeat (destr_if_in H; try done); injection H as <-; cbn; rewrite ?length_app; cbn; lia.
Qed.
End Script.
End IdentityFacts.

(** * A header *)

Module HeaderDemo.
Import Header HeaderFacts.

Definition sha (l : list Z) : list Z := replicate 32 (7 + Z.land (zsum l) 15).
Definition blake (l : list Z) : list Z := replicate 8 0 ++ replicate 24 (Z.land (zsum l) 255).
Definition en12 : list Z := [0x49; 0x69; 1; 0x4d; 2; 0; 0; 0; 0; 0; 0; 0].
Definition header : HeaderV2 :=
  {| hd_version := 536870912; hd_prev_block := replicate 32 7; hd_merkle_root := replicate 32 9; hd_time := 1760000000;
     hd_bits := 0x1a008d4f; hd_nonce := 77; hd_nonce2 := 78; hd_nonce3 := 79; hd_extranonce := header_extranonce en12;
     hd_time_offset := 5; hd_txcount := 2; hd_flags := 0; hd_xor_clear_bits := 0; hd_xor_key := replicate 16 0;
     hd_height := 962101; hd_mm_rhs := replicate 32 0 |}.
End HeaderDemo.

Lemma gateway_and_prime_agree_witness :
  let theirs := jobwork_hash HeaderDemo.blake
    (jobwork_new HeaderDemo.sha HeaderDemo.blake (HeaderFacts.commitment_of HeaderDemo.header) HeaderDemo.en12)
    (HeaderFacts.nonce8_of HeaderDemo.header) (HeaderFacts.ntime8_of HeaderDemo.header) in
  Header.pow_hash HeaderDemo.sha HeaderDemo.blake HeaderDemo.header = rev theirs /\
  exists t, share_target_le 12 = Some t /\ Pow.meets_target theirs t = true.
Proof.
  destruct (HeaderFacts.gateway_and_prime_agree HeaderDemo.sha HeaderDemo.blake HeaderDemo.header HeaderDemo.en12)
    as (E & T & _); [done | done | done | cbn; lia | cbn; unfold in_range; lia | cbn; unfold in_range; lia | done |].
  split; [exact E|]. destruct (T 12 ltac:(lia)) as (t & Et & V). exists t. split; [exact Et|]. rewrite <- V.
  vm_compute. reflexivity.
Defined.
