(* ===== verification/Template.v ===== *)
(** Block templates and jobs of the gateway ([lazarus/gateway/src/main.rs]): a node's template made
    into a [Template], trimmed so that a large coinbase fits, the coinbase bound to it as a [Job], the
    block that a solve assembles, and the passes that publish them in the two modes.

    SHA-256, BLAKE2b-256 and the [hex] crate are parameters. The rows of a template are kept together
    where the code keeps one vector per column, all pushed and popped at once. *)

From S2P Require Import Prelude Bytes Text Handshake Pow Overflow Protocol.
Import Payees Cbtx Header.
Open Scope Z_scope.

Inductive RunMode := Pooled | SoloMode.
#[export] Instance RunMode_eq_dec : EqDecision RunMode.
Proof. solve_decision. Defined.
Definition run_mode (s : option string) : RunMode :=
  if bool_decide (default "pooled"%string s = "solo"%string) then SoloMode else Pooled.

(** * Splits of a solo block *)

Definition fee_for (value bps : Z) : Z := trunc u64_max (value * bps / 10000).

Definition solo_split (value : Z) (miner_script fee_script : list Z) (fee_bps id : Z) : option CoinbaserV2 :=
  let fee := fee_for value fee_bps in
  if value <? fee then None else
  let mine := value - fee in
  if (mine =? 0) || (fee =? 0) || (length miner_script <? 2)%nat || (length fee_script <? 2)%nat then None else
  if (64 <? length miner_script)%nat || (64 <? length fee_script)%nat then None else
  let cb := {| cv_id := id; cv_outputs := [{| co_sats := mine; co_script := miner_script |};
                                           {| co_sats := fee; co_script := fee_script |}] |} in
  if negb (value_sum cb =? value) then None else Some cb.

(** * Templates *)

(** One entry of the template's [transactions]. *)
Record TxRow := { tx_id : Hash; tx_wtxid : Hash; tx_raw : list Z; tx_wt : Z; tx_fee : Z }.

Record Template := {
  tp_height : Z;
  tp_value : Z;
  tp_prev_notify : string;
  tp_nbits : list Z;
  tp_version : Z;
  tp_curtime : Z;
  tp_branches : list Hash;
  tp_txids : list Hash;
  tp_tx_hexes : list (list Z);
  tp_txn_count : Z;
  tp_witness_commit : option (list Z);
  tp_tag : list Z;
  tp_weightlimit : option Z;
  tp_tx_weight : Z;
  tp_trimmed_txs : Z;
  tp_trimmed_fees : Z;
  tp_prev_block : Hash
}.

Record Job := {
  jb_id : string;
  jb_tpl : Template;
  jb_header : HeaderV2;
  jb_coinb1 : list Z;
  jb_cb : CoinbaserV2;
  jb_slot : Z;
  jb_who : option (list Z)
}.
Definition job_outputs (j : Job) : nat := length (cv_outputs (jb_cb j)).

Definition BLOCK_OVERHEAD_WEIGHT : Z := 4 * 80 + 4 * 9.

(** The extranonce of the coinbase: the gateway's four bytes and eight zeros. *)
Definition extra_of (extra1 : list Z) : list Z := extra1 ++ zeros 8.

(** The weight of the two serializations. *)
Definition weight_of (legacy witness : list Z) : Z := 3 * Z.of_nat (length legacy) + Z.of_nat (length witness).
Definition coinbase_weight (height : Z) (tag extra1 : list Z) (cb : CoinbaserV2) (has_witness_commit : bool) : Z :=
  let wit := if has_witness_commit then Some (zeros 38) else None in
  weight_of (coinbase_legacy height tag (extra_of extra1) cb wit) (coinbase_witness height tag (extra_of extra1) cb wit).

(** The [while] of the trim, last row first: weight, value, count and fees so far. *)
Fixpoint trim_tail (budget : Z) (rows : list TxRow) (w value n fees : Z) : list TxRow * Z * Z * Z * Z :=
  match rows with
  | [] => ([], w, value, n, fees)
  | r :: rows' =>
      if budget <? w
      then trim_tail budget rows' (trunc u64_max (w - tx_wt r)) (sat_sub value (tx_fee r))
             (trunc u32_max (n + 1)) (sat_add u64_max fees (tx_fee r))
      else (rows, w, value, n, fees)
  end.

(** [weights.iter().sum()]. *)
Definition sum_weights (rows : list TxRow) : Z := foldl (fun a r => trunc u64_max (a + tx_wt r)) 0 rows.

(** [format!("{:04x}{:08x}")]. *)
Definition hex_char (d : Z) : Z := if d <? 10 then 48 + d else 87 + d.
Definition hex_fixed (digits z : Z) : list Z :=
  map (fun i => hex_char (Z.land (Z.shiftr z (4 * i)) 15)) (rev (seqZ 0 digits)).
Definition job_id_str (extra1 : list Z) (seq : Z) : string :=
  bytes_str (hex_fixed 4 (of_le (take 2 extra1)) ++ hex_fixed 8 (Z.land seq 0xffffffff)).

Section Building.
Context (sha256 blake2b256 : list Z -> Hash) (hex_decode : string -> option (list Z)) (hex_encode : list Z -> string).

Definition hash32_rev (s : string) : option Hash :=
  b ← hex_decode s; if negb (length b =? 32)%nat then None else Some (rev b).
Definition bits_le (s : string) : option (list Z) :=
  v ← hex_decode s; if negb (length v =? 4)%nat then None else Some (rev v).

Definition witness_commitment_script (wtxids : list Hash) : list Z :=
  let root := merkle_root_from_txids sha256 (zeros 32 :: wtxids) in
  [0x6a; 0x24; 0xaa; 0x21; 0xa9; 0xed] ++ sha256d sha256 (root ++ zeros 32).

(** The body of the loop over the transactions; [None] is its [continue]. *)
Definition hash_field (k : string) (tx : Value) : option Hash := v ← get k tx; s ← as_str v; hash32_rev s.
Definition tx_row (tx : Value) : option TxRow :=
  txid ← (match get "txid" tx with Some v => s ← as_str v; hash32_rev s | None => hash_field "hash" tx end);
  let wtxid := default txid (hash_field "hash" tx) in
  raw ← (v ← get "data" tx; s ← as_str v; hex_decode s);
  Some {| tx_id := txid; tx_wtxid := wtxid; tx_raw := raw;
          tx_wt := default 0 (v ← get "weight" tx; as_u64 v); tx_fee := default 0 (v ← get "fee" tx; as_u64 v) |}.

(** Whether the node's commitment is the one derived from its transactions. *)
Definition commit_ok (wit : option (list Z)) (rows : list TxRow) : bool :=
  match wit with
  | Some theirs => bool_decide (theirs = witness_commitment_script (map tx_wtxid rows))
  | None => forallb (fun r => bool_decide (tx_wtxid r = tx_id r)) rows
  end.

Definition budget_of (limit coinbase_reserve : Z) : Z :=
  sat_sub limit (trunc u64_max (BLOCK_OVERHEAD_WEIGHT + coinbase_reserve)).

(** The trim: the rows kept, their weight, the value, what was dropped, and the commitment. *)
Definition trim (limit : option Z) (reserve value : Z) (wit : option (list Z)) (rows : list TxRow)
    : list TxRow * Z * Z * Z * Z * option (list Z) :=
  let w := sum_weights rows in
  match limit with
  | None => (rows, w, value, 0, 0, wit)
  | Some limit =>
      let budget := budget_of limit reserve in
      if negb (budget <? w) || negb (commit_ok wit rows) then (rows, w, value, 0, 0, wit) else
      let '(kept, w, value, n, fees) := trim_tail budget (rev rows) w value 0 0 in
      let kept := rev kept in
      (kept, w, value, n, fees,
       match wit with Some _ => Some (witness_commitment_script (map tx_wtxid kept)) | None => None end)
  end.

Definition node_commitment (tpl : Value) : option (list Z) :=
  v ← get "default_witness_commitment" tpl; s ← as_str v; hex_decode s.

Definition build_template (tpl : Value) (tag : list Z) (coinbase_reserve : Z) : option Template :=
  prev ← (v ← get "previousblockhash" tpl; s ← as_str v; hash32_rev s);
  bits ← (v ← get "bits" tpl; s ← as_str v; bits_le s);
  height ← (v ← get "height" tpl; as_u64 v);
  value ← (v ← get "coinbasevalue" tpl; as_u64 v);
  curtime ← (v ← get "curtime" tpl; as_u64 v);
  version ← (v ← get "version" tpl; as_u64 v);
  txs ← (v ← get "transactions" tpl; as_array v);
  let rows := omap tx_row txs in
  if negb (length rows =? length txs)%nat || (u16_max <? Z.of_nat (length txs) + 1) then None else
  let limit := v ← get "weightlimit" tpl; as_u64 v in
  let '(kept, tx_weight, value, trimmed_txs, trimmed_fees, wit) :=
    trim limit coinbase_reserve value (node_commitment tpl) rows in
  Some {| tp_height := trunc u32_max height;
          tp_value := value;
          tp_prev_notify := hex_encode (prevblock_hidden sha256 prev);
          tp_nbits := bits;
          tp_version := to_i32 version;
          tp_curtime := trunc u32_max curtime;
          tp_branches := coinbase_branches sha256 (map tx_id kept);
          tp_txids := map tx_id kept;
          tp_tx_hexes := map tx_raw kept;
          tp_txn_count := trunc u32_max (Z.of_nat (length kept)) + 1;
          tp_witness_commit := wit;
          tp_tag := tag;
          tp_weightlimit := limit;
          tp_tx_weight := tx_weight;
          tp_trimmed_txs := trimmed_txs;
          tp_trimmed_fees := trimmed_fees;
          tp_prev_block := prev |}.

(** * Jobs *)

Definition block_weight (tpl : Template) (cb_weight : Z) : Z :=
  trunc u64_max (4 * 80 + 4 * 9 + cb_weight + tp_tx_weight tpl).

Definition job_header (tpl : Template) (extra1 cbleg : list Z) : HeaderV2 :=
  {| hd_version := tp_version tpl; hd_prev_block := tp_prev_block tpl;
     hd_merkle_root := merkle_root_sha256d sha256 cbleg (tp_txids tpl);
     hd_time := tp_curtime tpl; hd_bits := of_le (tp_nbits tpl);
     hd_nonce := 0; hd_nonce2 := 0; hd_nonce3 := 0;
     hd_extranonce := header_extranonce extra1; hd_time_offset := 0;
     hd_txcount := trunc u16_max (tp_txn_count tpl);
     hd_flags := 0; hd_xor_clear_bits := 0; hd_xor_key := zeros 16;
     hd_height := to_i32 (tp_height tpl); hd_mm_rhs := zeros 32 |}.

Definition coinbase_job (tpl : Template) (extra1 : list Z) (cb : CoinbaserV2) (slot seq : Z)
    (who : option (list Z)) : option Job :=
  let extra := extra_of extra1 in
  let cbleg := coinbase_legacy (tp_height tpl) (tp_tag tpl) extra cb (tp_witness_commit tpl) in
  let cbwit := coinbase_witness (tp_height tpl) (tp_tag tpl) extra cb (tp_witness_commit tpl) in
  let over := match tp_weightlimit tpl with
              | Some limit => limit <? block_weight tpl (weight_of cbleg cbwit)
              | None => false
              end in
  if over then None else
  Some {| jb_id := job_id_str extra1 seq; jb_tpl := tpl; jb_header := job_header tpl extra1 cbleg;
          jb_coinb1 := cbleg; jb_cb := cb; jb_slot := slot; jb_who := who |}.

(** The block a solve of the job is submitted as. *)
Definition assemble_block (extra1 : list Z) (j : Job) (hdr : HeaderV2) : list Z :=
  let t := jb_tpl j in
  serialize hdr ++ compact (1 + Z.of_nat (length (tp_tx_hexes t)))
  ++ coinbase_witness (tp_height t) (tp_tag t) (extra_of extra1) (jb_cb j) (tp_witness_commit t)
  ++ concat (tp_tx_hexes t).

(** * Publishing *)

Definition JOB_HISTORY : nat := 96.
Definition SUB_COINBASER_RESP : Z := 0x11.

(** What the publishing passes keep in the shared state. *)
Record Board := {
  bd_last_cb : option (Z * CoinbaserV2);
  bd_job_seq : Z;
  bd_jobs : list Job;
  bd_job : option Job;
  bd_tpl : option Template
}.
Definition empty_board : Board :=
  {| bd_last_cb := None; bd_job_seq := 0; bd_jobs := []; bd_job := None; bd_tpl := None |}.

Definition with_last_cb (b : Board) (c : option (Z * CoinbaserV2)) : Board :=
  {| bd_last_cb := c; bd_job_seq := bd_job_seq b; bd_jobs := bd_jobs b; bd_job := bd_job b; bd_tpl := bd_tpl b |}.
(** [job_seq.fetch_add(1)]. *)
Definition next_seq (b : Board) : Board :=
  {| bd_last_cb := bd_last_cb b; bd_job_seq := trunc u64_max (bd_job_seq b + 1); bd_jobs := bd_jobs b;
     bd_job := bd_job b; bd_tpl := bd_tpl b |}.
(** The job becomes the current one and the newest of the history. *)
Definition publish_job (b : Board) (j : Job) : Board :=
  let hist := bd_jobs b ++ [j] in
  {| bd_last_cb := bd_last_cb b; bd_job_seq := bd_job_seq b;
     bd_jobs := drop (length hist - JOB_HISTORY) hist; bd_job := Some j; bd_tpl := bd_tpl b |}.
Definition publish_tpl (b : Board) (t : Template) : Board :=
  {| bd_last_cb := bd_last_cb b; bd_job_seq := bd_job_seq b; bd_jobs := bd_jobs b; bd_job := bd_job b;
     bd_tpl := Some t |}.

(** A frame of Prime's on the gateway's session, and the session's end. *)
Definition on_frame (b : Board) (plain : list Z) : Board :=
  match plain with
  | k :: rest =>
      if (k =? SUB_COINBASER_RESP) && (13 <=? length plain)%nat then
        let value := of_le (slice 1 9 plain) in
        let n := of_le (slice 9 13 plain) in
        if 13 + n <=? Z.of_nat (length plain) then
          match parse_coinbaser_v2 (slice 13 (13 + Z.to_nat n) plain) with
          | Some cb => with_last_cb b (Some (value, cb))
          | None => b
          end
        else b
      else b
  | [] => b
  end.
Definition on_reconnect (b : Board) : Board := with_last_cb b None.

(** [wait_coinbaser]: what the slot holds every time the wait looks, until its deadline. *)
Fixpoint wait_coinbaser (value : Z) (seen : list (option (Z * CoinbaserV2))) : option CoinbaserV2 :=
  match seen with
  | [] => None
  | Some (v, cb) :: seen' =>
      if (2 <=? length (cv_outputs cb))%nat && (v =? value) then Some cb else wait_coinbaser value seen'
  | None :: seen' => wait_coinbaser value seen'
  end.
Definition split_for_value (value : Z) (seen : list (option (Z * CoinbaserV2))) (last : option (Z * CoinbaserV2))
    : option CoinbaserV2 :=
  match wait_coinbaser value seen with
  | Some cb => Some cb
  | None =>
      '(_, cb) ← last;
      if (length (cv_outputs cb) <? 2)%nat then None else Some (scale_to cb value)
  end.

(** The check of the split before anything is built on it. *)
Definition clamp_split (value : Z) (cb : CoinbaserV2) : option CoinbaserV2 :=
  let cb := if value <? value_sum cb then scale_to cb value else cb in
  if (value_sum cb =? 0) || (value <? value_sum cb) then None else Some cb.

Definition has_commitment (tpl : Value) : bool := bool_decide (is_Some (get "default_witness_commitment" tpl)).
Definition u64_field (k : string) (tpl : Value) : Z := default 0 (v ← get k tpl; as_u64 v).
Definition slot_of (seq : Z) : Z := seq mod 255 + 1.

(** The pooled branch of [gbt_loop] for a template of the node; [seen] is what the wait for Prime's
    split sees, after which the slot holds [last]. *)
Definition gbt_pooled (extra1 tag : list Z) (tpl : Value) (seen : list (option (Z * CoinbaserV2)))
    (last : option (Z * CoinbaserV2)) (b : Board) : Board * option Job :=
  let b := with_last_cb b last in
  let value := u64_field "coinbasevalue" tpl in
  if negb (0 <? value) then (b, None) else
  match cb ← split_for_value value seen last; clamp_split value cb with
  | None => (b, None)
  | Some cb =>
      let seq := bd_job_seq b in
      let b := next_seq b in
      let reserve := coinbase_weight (trunc u32_max (u64_field "height" tpl)) tag extra1 cb (has_commitment tpl) in
      match t ← build_template tpl tag reserve;
            let cb := if tp_value t <? value_sum cb then scale_to cb (tp_value t) else cb in
            coinbase_job t extra1 cb (slot_of seq) seq None with
      | None => (b, None)
      | Some j => (publish_job b j, Some j)
      end
  end.

(** The solo branch: room is kept for two outputs with the longest standard scripts. *)
Definition two_outs : CoinbaserV2 :=
  {| cv_id := 0; cv_outputs := [{| co_sats := 0; co_script := zeros 34 |}; {| co_sats := 0; co_script := zeros 34 |}] |}.
Definition gbt_solo (extra1 tag : list Z) (tpl : Value) (b : Board) : Board :=
  let value := u64_field "coinbasevalue" tpl in
  if negb (0 <? value) then b else
  let reserve := coinbase_weight (trunc u32_max (u64_field "height" tpl)) tag extra1 two_outs (has_commitment tpl) in
  match build_template tpl tag reserve with Some t => publish_tpl b t | None => b end.

(** An identity's own job on the current template. *)
Definition solo_job_for (extra1 fee_script : list Z) (fee_bps : Z) (ident : list Z) (b : Board) : Board * option Job :=
  match Identity.identity_script sha256 ident, bd_tpl b with
  | Some script, Some tpl =>
      let seq := bd_job_seq b in
      let b := next_seq b in
      (b, cb ← solo_split (tp_value tpl) script fee_script fee_bps (slot_of seq);
          coinbase_job tpl extra1 cb (slot_of seq) seq (Some ident))
  | _, _ => (b, None)
  end.
End Building.
