(* ===== verification/TemplateProps.v ===== *)
(** What the gateway publishes: a template is cut from its tail until the coinbase it is built for
    fits, no job pays out more than its template gives or weighs more than its limit, and the block a
    solve assembles carries the coinbase its header commits to. *)

From S2P Require Import Prelude Bytes Text Handshake Pow Overflow Protocol ProtocolProps Template.
Import Payees Cbtx Header HeaderFacts PayeesFacts CbtxFacts.
Open Scope Z_scope.

(** * The trim *)

Definition weights (rows : list TxRow) : Z := zsum (map tx_wt rows).
Definition fees_of (rows : list TxRow) : Z := zsum (map tx_fee rows).
Definition rows_ok (rows : list TxRow) : Prop := Forall (fun r => 0 <= tx_fee r) rows.

Lemma weights_cons r rows : weights (r :: rows) = tx_wt r + weights rows.
Proof. apply zsum_cons. Qed.
Lemma weights_app r1 r2 : weights (r1 ++ r2) = weights r1 + weights r2.
Proof. unfold weights. by rewrite map_app, zsum_app. Qed.
Lemma weights_rev rows : weights (rev rows) = weights rows.
Proof. unfold weights. rewrite map_rev. apply zsum_perm. symmetry. apply Permutation_rev. Qed.
Lemma fees_rev rows : fees_of (rev rows) = fees_of rows.
Proof. unfold fees_of. rewrite map_rev. apply zsum_perm. symmetry. apply Permutation_rev. Qed.
Lemma fees_nonneg rows : rows_ok rows -> 0 <= fees_of rows.
Proof. intros H. apply zsum_nonneg. by apply Forall_map. Qed.

Lemma sum_weights_mod rows : sum_weights rows = trunc u64_max (weights rows).
Proof.
  unfold sum_weights. enough (G : forall a, foldl (fun a r => trunc u64_max (a + tx_wt r)) (trunc u64_max a) rows
                              = trunc u64_max (a + weights rows)) by apply (G 0).
  unfold weights, trunc. induction rows as [|r rows IH]; intros a; [cbn; f_equal; lia|]. cbn [foldl map]. rewrite zsum_cons.
  rewrite Zplus_mod_idemp_l, IH. f_equal. lia.
Qed.

(** What the loop drops: as many rows as it takes, their weights and their fees with them. *)
Lemma trim_tail_spec budget rows : forall w value n fees kept w' v' n' f',
  trim_tail budget rows w value n fees = (kept, w', v', n', f') -> rows_ok rows -> in_range u64_max w -> 0 <= value ->
  exists dropped, rows = dropped ++ kept /\ w' = trunc u64_max (w - weights dropped) /\ (kept = [] \/ w' <= budget) /\
    v' = sat_sub value (fees_of dropped) /\
    (forall d1 r d2, dropped = d1 ++ r :: d2 -> budget < trunc u64_max (w - weights d1)).
Proof.
  induction rows as [|r rows IH]; intros w value n fees kept w' v' n' f' E Hr Hw Hv; cbn [trim_tail] in E.
  - injection E as <- <- <- <- <-. exists []. conjs; [done | | by left | unfold sat_sub; cbn; lia | by intros [|] ? ?].
    unfold weights, trunc, in_range in *. cbn. rewrite Z.sub_0_r, Z.mod_small by lia. done.
  - inversion_clear Hr as [|? ? Hr1 Hr2]. destruct (Z.ltb_spec budget w) as [Hb|Hb].
    + apply IH in E as (dropped & -> & Hw' & Hk & Hv' & Hd);
        [|done | apply trunc_range; lia | unfold sat_sub; lia].
      exists (r :: dropped). rewrite weights_cons. conjs; [done| | done| |].
      * rewrite Hw'. unfold trunc. rewrite Zminus_mod_idemp_l. f_equal. lia.
      * rewrite Hv'. change (fees_of (r :: dropped)) with (tx_fee r + fees_of dropped).
        assert (0 <= fees_of dropped). { apply fees_nonneg. apply Forall_app in Hr2 as [H _]. exact H. }
        unfold sat_sub. lia.
      * intros [|x d1] r' d2 Ed; injection Ed as -> Ed.
        -- unfold weights, trunc, in_range in *. cbn. rewrite Z.sub_0_r, Z.mod_small by lia. done.
        -- rewrite weights_cons. specialize (Hd _ _ _ Ed). unfold trunc in *. rewrite Zminus_mod_idemp_l in Hd.
           replace (w - (tx_wt x + weights d1)) with (w - tx_wt x - weights d1) by lia. done.
    + injection E as <- <- <- <- <-. exists []. conjs; [done | | by right | unfold sat_sub; cbn; lia | by intros [|] ? ?].
      unfold weights, trunc, in_range in *. cbn. rewrite Z.sub_0_r, Z.mod_small by lia. done.
Qed.

Section Trim.
Context (sha256 : list Z -> Hash).

(** A trim leaves a front of the rows, with their weight; what it drops is taken off the value. It
    drops something only when the weight is over the budget and the commitment can be derived again,
    and then no less stays than fits. *)
Lemma trim_spec limit reserve value wit rows kept w v n fees wit' :
  trim sha256 limit reserve value wit rows = (kept, w, v, n, fees, wit') -> rows_ok rows -> 0 <= value ->
  exists dropped, rows = kept ++ dropped /\ w = sum_weights kept /\ v = sat_sub value (fees_of dropped) /\
    match limit with
    | None => dropped = []
    | Some l => w <= budget_of l reserve \/ (dropped = [] /\ commit_ok sha256 wit rows = false)
    end /\
    wit' = match wit with
           | Some x => Some (if bool_decide (dropped = []) then x else witness_commitment_script sha256 (map tx_wtxid kept))
           | None => None
           end /\
    (dropped <> [] -> commit_ok sha256 wit rows = true).
Proof.
  intros E Hr Hv. unfold trim in E.
  assert (Same : forall l, (match l with None => [] = @nil TxRow
             | Some l => sum_weights rows <= budget_of l reserve \/ ([] = @nil TxRow /\ commit_ok sha256 wit rows = false) end) ->
    exists dropped, rows = rows ++ dropped /\ sum_weights rows = sum_weights rows /\ value = sat_sub value (fees_of dropped) /\
    match l with None => dropped = []
      | Some l => sum_weights rows <= budget_of l reserve \/ (dropped = [] /\ commit_ok sha256 wit rows = false) end /\
    wit = match wit with
           | Some x => Some (if bool_decide (dropped = []) then x else witness_commitment_script sha256 (map tx_wtxid rows))
           | None => None
           end /\ (dropped <> [] -> commit_ok sha256 wit rows = true)).
  { intros l Hl. exists []. rewrite app_nil_r. conjs; [done | done | unfold sat_sub, fees_of; cbn; lia | done | by destruct wit | done]. }
  destruct limit as [l|]; [|injection E as <- <- <- <- <- <-; by apply (Same None)].
  destruct (Z.ltb_spec (budget_of l reserve) (sum_weights rows)) as [Hb|Hb]; cbn [negb orb] in E.
  2: { injection E as <- <- <- <- <- <-. apply (Same (Some l)). by left. }
  destruct (commit_ok sha256 wit rows) eqn:Ec; cbn [negb] in E.
  2: { injection E as <- <- <- <- <- <-. rewrite <- Ec in Same. rewrite <- Ec. apply (Same (Some l)). by right. }
  clear Same. destruct (trim_tail _ (rev rows) _ _ _ _) as [[[[kept' w0] v0] n0] f0] eqn:Et.
  injection E as <- <- <- <- <- <-.
  apply trim_tail_spec in Et as (dropped & Hd & Hw & Hk & Hv' & Hmin); [|by apply Forall_rev| | done].
  2: { rewrite sum_weights_mod. apply trunc_range. lia. }
  assert (Hrows : rows = rev kept' ++ rev dropped) by (rewrite <- rev_app_distr, <- Hd; symmetry; apply rev_involutive).
  assert (Hne : dropped <> []).
  { intros ->. cbn [app] in Hd. destruct Hk as [->|Hk].
    - apply (f_equal (@length _)) in Hd. rewrite length_rev in Hd. destruct rows; [|done].
      unfold sum_weights in Hb. cbn in Hb. unfold budget_of, sat_sub in Hb. lia.
    - rewrite Hw in Hk. unfold weights in Hk. cbn in Hk. rewrite Z.sub_0_r in Hk.
      rewrite sum_weights_mod in Hk, Hb. unfold trunc in Hk. rewrite Z.mod_mod in Hk by lia. unfold trunc in Hb. lia. }
  exists (rev dropped).
  assert (W : w0 = sum_weights (rev kept')).
  { rewrite Hw, !sum_weights_mod, weights_rev. rewrite Hrows, weights_app, !weights_rev.
    unfold trunc. rewrite Zminus_mod_idemp_l. f_equal. lia. }
  conjs; [done | done | by rewrite fees_rev | | | done].
  - left. destruct Hk as [->|Hk]; [|done]. rewrite W. unfold sum_weights, budget_of, sat_sub. cbn. lia.
  - rewrite (bool_decide_eq_false_2 (rev dropped = [])); [by destruct wit|].
    intros Hn. apply (f_equal (@rev _)) in Hn. rewrite rev_involutive in Hn. done.
Qed.
End Trim.

(** * Room for the coinbase *)

(** No output of the one coinbase is longer than the same output of the other. *)
Definition narrower (cb' cb : CoinbaserV2) : Prop :=
  Forall2 (fun o' o => length (co_script o') <= length (co_script o))%nat (cv_outputs cb') (cv_outputs cb).
Definition within (wit : option (list Z)) (has : bool) : Prop :=
  match wit with Some w => has = true /\ (length w <= 38)%nat | None => True end.

Lemma length_compact n : 0 <= n ->
  length (compact n) = if n <? 0xfd then 1%nat else if n <=? 0xffff then 3%nat else if n <=? 0xffffffff then 5%nat else 9%nat.
Proof. intros Hn. unfold compact. repeat (destr_if; [done|]). done. Qed.

Lemma compact_mono n m : 0 <= n <= m -> (length (compact n) <= length (compact m))%nat.
Proof. intros H. rewrite !length_compact by lia. repeat destr_if; bools; lia. Qed.

Lemma push_out_mono o' o : (length (co_script o') <= length (co_script o))%nat ->
  (length (push_out o') <= length (push_out o))%nat.
Proof.
  intros H. unfold push_out. rewrite !length_app, !length_u64.
  pose proof (compact_mono (Z.of_nat (length (co_script o'))) (Z.of_nat (length (co_script o))) ltac:(lia)). lia.
Qed.

Lemma outs_mono l' l : Forall2 (fun o' o => length (co_script o') <= length (co_script o))%nat l' l ->
  (length (concat (map push_out l')) <= length (concat (map push_out l)))%nat.
Proof.
  induction 1 as [|o' o l' l H _ IH]; [done|]. cbn [map concat]. rewrite !length_app.
  pose proof (push_out_mono _ _ H). lia.
Qed.

Lemma push_outs_mono cb' cb wit has : narrower cb' cb -> within wit has ->
  (length (push_outs cb' wit) <= length (push_outs cb (if has then Some (zeros 38) else None)))%nat.
Proof.
  intros Hn Hw. unfold push_outs. rewrite !length_app, !map_app, !concat_app, !length_app.
  pose proof (outs_mono _ _ Hn) as Ho. pose proof (Forall2_length _ _ _ Hn) as Hl.
  set (a' := length (concat (map push_out (cv_outputs cb')))) in *. set (a := length (concat (map push_out (cv_outputs cb)))) in *.
  destruct wit as [w|]; cbn [within] in Hw.
  - destruct Hw as [-> Hw]. cbn [map concat length]. rewrite !app_nil_r, Hl.
    pose proof (push_out_mono {| co_sats := 0; co_script := w |} {| co_sats := 0; co_script := zeros 38 |} Hw). lia.
  - cbn [map concat length]. rewrite Nat.add_0_r, Hl.
    match goal with |- context [length (compact (Z.of_nat (?x + ?y)))] =>
      pose proof (compact_mono (Z.of_nat x) (Z.of_nat (x + y)) ltac:(lia)) end. lia.
Qed.

(** The reserve is enough for any coinbase with the same outputs, whatever the amounts. *)
Lemma reserve_covers height tag extra1 cb' cb wit has : narrower cb' cb -> within wit has ->
  weight_of (coinbase_legacy height tag (extra_of extra1) cb' wit) (coinbase_witness height tag (extra_of extra1) cb' wit)
  <= coinbase_weight height tag extra1 cb has.
Proof.
  intros Hn Hw. pose proof (push_outs_mono cb' cb wit has Hn Hw) as H. unfold coinbase_weight, weight_of.
  unfold coinbase_legacy, coinbase_witness. rewrite !length_app. lia.
Qed.

Lemma weight_of_nonneg l w : 0 <= weight_of l w.
Proof. unfold weight_of. lia. Qed.

Section Room.
Context (sha256 blake2b256 : list Z -> Hash) (hex_decode : string -> option (list Z)) (hex_encode : list Z -> string).
Hypothesis sha_32 : forall d, length (sha256 d) = 32%nat.
Let build_template := build_template sha256 hex_decode hex_encode.

(** The rows of a template of the node. *)
Definition rows_of (tpl : Value) : list TxRow :=
  omap (tx_row hex_decode) (default [] (v ← get "transactions" tpl; as_array v)).

(** What building a template comes to. *)
Lemma build_inv tpl tag reserve t : build_template tpl tag reserve = Some t ->
  exists kept, trim sha256 (tp_weightlimit t) reserve (u64_field "coinbasevalue" tpl) (node_commitment hex_decode tpl) (rows_of tpl)
    = (kept, tp_tx_weight t, tp_value t, tp_trimmed_txs t, tp_trimmed_fees t, tp_witness_commit t) /\
    tp_height t = trunc u32_max (u64_field "height" tpl) /\ tp_tag t = tag /\
    tp_weightlimit t = (v ← get "weightlimit" tpl; as_u64 v) /\
    tp_txids t = map tx_id kept /\ tp_tx_hexes t = map tx_raw kept /\
    tp_branches t = coinbase_branches sha256 (map tx_id kept) /\
    tp_txn_count t = trunc u32_max (Z.of_nat (length kept)) + 1 /\ Z.of_nat (length (rows_of tpl)) + 1 <= u16_max.
Proof.
  unfold build_template, Template.build_template. intros E.
  destruct (v ← get "previousblockhash" tpl; s ← as_str v; hash32_rev hex_decode s) as [prev|]; [|done]. cbn [mbind option_bind] in E.
  destruct (v ← get "bits" tpl; s ← as_str v; bits_le hex_decode s) as [bits|]; [|done]. cbn [mbind option_bind] in E.
  destruct (v ← get "height" tpl; as_u64 v) as [height|] eqn:Eh; [|done]. cbn [mbind option_bind] in E.
  destruct (v ← get "coinbasevalue" tpl; as_u64 v) as [value|] eqn:Ev; [|done]. cbn [mbind option_bind] in E.
  destruct (v ← get "curtime" tpl; as_u64 v) as [curtime|]; [|done]. cbn [mbind option_bind] in E.
  destruct (v ← get "version" tpl; as_u64 v) as [version|]; [|done]. cbn [mbind option_bind] in E.
  destruct (v ← get "transactions" tpl; as_array v) as [txs|] eqn:Et; [|done]. cbn [mbind option_bind] in E.
  destr_if_in E; [done|]. bools. apply Nat.eqb_eq in H.
  assert (R : rows_of tpl = omap (tx_row hex_decode) txs).
  { unfold rows_of. by rewrite Et. }
  rewrite <- R in *. destruct (trim _ _ _ _ _ _) as [[[[[kept w] v] n] f] wit] eqn:Etr. injection E as <-. exists kept.
  unfold u64_field. rewrite Eh, Ev. cbn [tp_weightlimit tp_tx_weight tp_value tp_trimmed_txs tp_trimmed_fees tp_witness_commit
    tp_height tp_tag tp_txids tp_tx_hexes tp_branches tp_txn_count default from_option]. unfold id.
  conjs; try done. by rewrite H.
Qed.

(** The numbers of a template are unsigned words, and its commitment has the length of one. *)
Definition sane (tpl : Value) : Prop :=
  rows_ok (rows_of tpl) /\ in_range u64_max (u64_field "coinbasevalue" tpl) /\
  (forall l, (v ← get "weightlimit" tpl; as_u64 v) = Some l -> in_range u64_max l) /\
  (forall w, node_commitment hex_decode tpl = Some w -> (length w <= 38)%nat).

Lemma length_commitment ids : length (witness_commitment_script sha256 ids) = 38%nat.
Proof. unfold witness_commitment_script, sha256d. by rewrite length_app, sha_32. Qed.

Lemma has_of_node tpl w : node_commitment hex_decode tpl = Some w -> has_commitment tpl = true.
Proof.
  unfold node_commitment, has_commitment. intros H. apply bool_decide_eq_true_2.
  destruct (get _ tpl); [by eexists | done].
Qed.

(** What the trim made of a template. *)
Lemma built_trim tpl tag reserve t : sane tpl -> build_template tpl tag reserve = Some t ->
  exists kept dropped, rows_of tpl = kept ++ dropped /\ tp_txids t = map tx_id kept /\ tp_tx_hexes t = map tx_raw kept /\
    tp_tx_weight t = sum_weights kept /\ tp_value t = sat_sub (u64_field "coinbasevalue" tpl) (fees_of dropped) /\
    match tp_weightlimit t with
    | None => dropped = []
    | Some l => tp_tx_weight t <= budget_of l reserve \/
        (dropped = [] /\ commit_ok sha256 (node_commitment hex_decode tpl) (rows_of tpl) = false)
    end /\
    within (tp_witness_commit t) (has_commitment tpl) /\
    (dropped <> [] -> commit_ok sha256 (node_commitment hex_decode tpl) (rows_of tpl) = true /\
       (is_Some (tp_witness_commit t) -> tp_witness_commit t = Some (witness_commitment_script sha256 (map tx_wtxid kept)))) /\
    tp_txn_count t = Z.of_nat (length kept) + 1 /\ tp_txn_count t <= u16_max.
Proof.
  intros (Hr & Hv & _ & Hw) B. apply build_inv in B as (kept & Et & _ & _ & _ & Hid & Hh & _ & Hc & Hlen).
  apply trim_spec in Et as (dropped & Hrows & Hwt & Hval & Hl & Hwit & Hcm); [|done | apply Hv].
  exists kept, dropped. conjs; try done.
  - rewrite Hwit. destruct (node_commitment hex_decode tpl) as [x|] eqn:En; [|done]. cbn [within]. split; [by eapply has_of_node|].
    destr_if; [by apply Hw | by rewrite length_commitment].
  - intros Hd. split; [by apply Hcm|]. rewrite Hwit. destruct (node_commitment hex_decode tpl) as [x|]; [|by intros []].
    by rewrite bool_decide_eq_false_2.
  - rewrite Hc. rewrite Hrows, length_app in Hlen. unfold trunc. rewrite Z.mod_small by lia. done.
  - rewrite Hrows, length_app in Hlen. rewrite Hc. unfold trunc. rewrite Z.mod_small by lia. lia.
Qed.

(** A job that is refused weighs more than the limit; a trimmed template leaves the room it was
    asked for. *)
Lemma job_fits tpl tag extra1 cb cb' t slot seq who : sane tpl ->
  build_template tpl tag (coinbase_weight (trunc u32_max (u64_field "height" tpl)) tag extra1 cb (has_commitment tpl)) = Some t ->
  narrower cb' cb ->
  (forall l, tp_weightlimit t = Some l ->
     BLOCK_OVERHEAD_WEIGHT + coinbase_weight (tp_height t) tag extra1 cb (has_commitment tpl) <= l /\
     tp_tx_weight t <= budget_of l (coinbase_weight (tp_height t) tag extra1 cb (has_commitment tpl))) ->
  is_Some (coinbase_job sha256 t extra1 cb' slot seq who).
Proof.
  intros Hs B Hn Hfit. pose proof Hs as (_ & _ & Hlim & _).
  destruct (built_trim _ _ _ _ Hs B) as (kept & dropped & _ & _ & _ & Hwt & _ & _ & Hwi & _).
  apply build_inv in B as (k' & _ & Eh & Etag & El & _).
  unfold coinbase_job. rewrite Etag. destruct (tp_weightlimit t) as [l|] eqn:Ewl; [|by eexists].
  destruct (Hfit l eq_refl) as [H1 H2]. specialize (Hlim l (eq_sym El)).
  pose proof (reserve_covers (tp_height t) tag extra1 cb' cb _ _ Hn Hwi) as Hc.
  match goal with |- context [block_weight t ?w] => set (cw := w) in * end.
  assert (0 <= cw) by apply weight_of_nonneg.
  assert (Hw0 : 0 <= tp_tx_weight t).
  { rewrite Hwt, sum_weights_mod. apply trunc_range. lia. }
  assert (Bo : budget_of l (coinbase_weight (tp_height t) tag extra1 cb (has_commitment tpl))
            = l - (BLOCK_OVERHEAD_WEIGHT + coinbase_weight (tp_height t) tag extra1 cb (has_commitment tpl))).
  { unfold budget_of, sat_sub, trunc. unfold BLOCK_OVERHEAD_WEIGHT, in_range in *. rewrite Z.mod_small by lia. lia. }
  rewrite Bo in H2. unfold block_weight, trunc. change (4 * 80 + 4 * 9) with BLOCK_OVERHEAD_WEIGHT.
  unfold in_range in Hlim. rewrite Z.mod_small by (unfold BLOCK_OVERHEAD_WEIGHT in *; lia).
  rewrite (proj2 (Z.ltb_ge _ _)) by lia. by eexists.
Qed.
End Room.

(** * What is published *)

Section Publishing.
Context (sha256 blake2b256 : list Z -> Hash) (hex_decode : string -> option (list Z)) (hex_encode : list Z -> string).
Hypothesis sha_32 : forall d, length (sha256 d) = 32%nat.
Context (extra1 : list Z).

(** A split whose amounts a 64-bit word can add up. *)
Definition honest (c : option (Z * CoinbaserV2)) : Prop :=
  match c with Some (_, cb) => amounts_ok (cv_outputs cb) | None => True end.

(** A split fit to build on: at least two payees, something to pay, no more than the value. *)
Definition fit_split (value : Z) (cb : CoinbaserV2) : Prop :=
  amounts_ok (cv_outputs cb) /\ 0 < total (cv_outputs cb) <= value /\ (2 <= length (cv_outputs cb))%nat.

Lemma scale_keeps c v : amounts_ok (cv_outputs c) -> 0 < total (cv_outputs c) -> in_range u64_max v ->
  amounts_ok (cv_outputs (scale_to c v)) /\ total (cv_outputs (scale_to c v)) = v /\
  length (cv_outputs (scale_to c v)) = length (cv_outputs c) /\ narrower (scale_to c v) c /\ value_sum (scale_to c v) = v.
Proof.
  intros Hok Hp Hv. pose proof (value_sum_scaled c v Hok Hp Hv) as Hs.
  destruct (scale_to_spec c v Hok Hp Hv) as (F & T & _). conjs.
  - split; [|unfold in_range in Hv; lia]. clear - F. induction F as [|o o' l l' H _ IH]; constructor; [apply H | done].
  - done.
  - symmetry. by eapply Forall2_length.
  - apply Forall2_flip. eapply Forall2_impl; [exact F|]. intros o o' (E & _). by rewrite E.
  - done.
Qed.

Lemma value_sum_total c : amounts_ok (cv_outputs c) -> value_sum c = total (cv_outputs c).
Proof. apply sum_exact. Qed.

Lemma wait_sees value seen cb : wait_coinbaser value seen = Some cb ->
  Some (value, cb) ∈ seen /\ (2 <= length (cv_outputs cb))%nat.
Proof.
  induction seen as [|[[v c]|] seen IH]; cbn [wait_coinbaser]; intros H; [done| |].
  - destr_if.
    + bools. apply Nat.leb_le in H0. injection H as <-. subst v. split; [left | done].
    + apply IH in H as [H1 H2]. split; [by right | done].
  - apply IH in H as [H1 H2]. split; [by right | done].
Qed.

(** Whatever the wait saw, the split that passes the clamp is fit. A zero split is refused by it. *)
Lemma clamped_is_fit value seen last cb cb' : 0 < value <= u64_max -> Forall honest seen -> honest last ->
  split_for_value value seen last = Some cb -> clamp_split value cb = Some cb' -> fit_split value cb'.
Proof.
  intros Hv Hs Hl Hsp Hc.
  assert (G : forall c, amounts_ok (cv_outputs c) -> (2 <= length (cv_outputs c))%nat -> clamp_split value c = Some cb' ->
    fit_split value cb').
  { intros c Hok Hlen. unfold clamp_split. rewrite (value_sum_total c) by done.
    destruct (Z.ltb_spec value (total (cv_outputs c))) as [Hgt|Hle].
    - destruct (scale_keeps c value Hok ltac:(lia) ltac:(unfold in_range; lia)) as (A & T & L & _ & S).
      rewrite S. destr_if; [done|]. intros [= <-]. unfold fit_split. rewrite T, L. split; [done | lia].
    - rewrite (value_sum_total c) by done. destr_if; [done|]. intros [= <-]. bools. split; [done|].
      split; [|done]. pose proof (total_nonneg _ (proj1 Hok)). lia. }
  unfold split_for_value in Hsp. destruct (wait_coinbaser value seen) as [c|] eqn:Ew.
  - injection Hsp as <-. apply wait_sees in Ew as [Hin Hlen]. apply (G c); [|done | done].
    rewrite Forall_forall in Hs. exact (Hs _ Hin).
  - destruct last as [[v c]|]; [|done]. cbn [mbind option_bind honest] in *.
    destruct (Nat.ltb_spec (length (cv_outputs c)) 2) as [|Hlen]; [done|]. injection Hsp as <-.
    pose proof (total_nonneg _ (proj1 Hl)) as Hnn. destruct (Z.eq_dec (total (cv_outputs c)) 0) as [Hz|Hz].
    + assert (Es : scale_to c value = c).
      { unfold scale_to. rewrite value_sum_total by done. by rewrite Hz. }
      rewrite Es in Hc. by apply (G c).
    + destruct (scale_keeps c value Hl ltac:(lia) ltac:(unfold in_range; lia)) as (A & T & L & _).
      apply (G (scale_to c value)); [done | lia | done].
Qed.

(** A job that is safe to hand out. *)
Definition sound_job (j : Job) : Prop :=
  let t := jb_tpl j in
  let leg := coinbase_legacy (tp_height t) (tp_tag t) (extra_of extra1) (jb_cb j) (tp_witness_commit t) in
  let wit := coinbase_witness (tp_height t) (tp_tag t) (extra_of extra1) (jb_cb j) (tp_witness_commit t) in
  total (cv_outputs (jb_cb j)) <= tp_value t /\ amounts_ok (cv_outputs (jb_cb j)) /\ (2 <= job_outputs j)%nat /\
  jb_coinb1 j = leg /\
  (forall l, tp_weightlimit t = Some l -> block_weight t (weight_of leg wit) <= l) /\
  hd_merkle_root (jb_header j) = fold_branches sha256 (sha256d sha256 (jb_coinb1 j)) (tp_branches t) /\
  hd_merkle_root (jb_header j) = merkle_root_sha256d sha256 (jb_coinb1 j) (tp_txids t) /\
  hd_txcount (jb_header j) = Z.of_nat (length (tp_txids t)) + 1 /\ length (tp_tx_hexes t) = length (tp_txids t).

(** What every template that was built has. *)
Definition sound_tpl (t : Template) : Prop :=
  tp_branches t = coinbase_branches sha256 (tp_txids t) /\ tp_txn_count t = Z.of_nat (length (tp_txids t)) + 1 /\
  tp_txn_count t <= u16_max /\ length (tp_tx_hexes t) = length (tp_txids t) /\ in_range u64_max (tp_value t).

Lemma built_sound tpl tag reserve t : sane hex_decode tpl ->
  build_template sha256 hex_decode hex_encode tpl tag reserve = Some t -> sound_tpl t.
Proof.
  intros Hs B. pose proof Hs as (Hr & Hv & _).
  destruct (built_trim _ hex_decode hex_encode sha_32 _ _ _ _ Hs B) as (kept & dropped & Hrows & Hid & Hh & _ & Hval & _ & _ & _ & Hc & Hm).
  apply build_inv in B as (k' & _ & _ & _ & _ & Hid' & _ & Hb & _).
  unfold sound_tpl. rewrite Hb, <- Hid', Hh, Hc, Hid, !length_map. rewrite Hc in Hm. conjs; try done.
  rewrite Hval. unfold sat_sub, in_range in *. pose proof (fees_nonneg dropped) as Hf.
  rewrite Hrows in Hr. apply Forall_app in Hr as [_ Hr]. specialize (Hf Hr). lia.
Qed.

Lemma job_sound t cb slot seq who j : sound_tpl t -> amounts_ok (cv_outputs cb) -> total (cv_outputs cb) <= tp_value t ->
  (2 <= length (cv_outputs cb))%nat -> coinbase_job sha256 t extra1 cb slot seq who = Some j ->
  sound_job j /\ jb_cb j = cb /\ jb_tpl j = t /\ jb_who j = who /\ jb_id j = job_id_str extra1 seq.
Proof.
  intros (Hb & Hc & Hm & Hh & _) Hok Ht Hlen. unfold coinbase_job.
  destr_if; [done|]. intros [= <-]. unfold sound_job, job_outputs. cbn [jb_tpl jb_cb jb_coinb1 jb_header jb_who jb_id job_header
    hd_merkle_root hd_txcount]. conjs; try done.
  - intros l El. rewrite El in Hif. by apply Z.ltb_ge in Hif.
  - rewrite Hb, path_proves_coinbase. done.
  - rewrite Hc. unfold trunc. apply Z.mod_small. lia.
Qed.
End Publishing.

(** * The board *)

Section Board.
Context (sha256 blake2b256 : list Z -> Hash) (hex_decode : string -> option (list Z)) (hex_encode : list Z -> string).
Context (extra1 : list Z).

(** What the template loop, Prime's session and a miner's authorize do to the shared state. *)
Inductive board_step : Board -> Board -> Prop :=
| frame_step plain b : honest (bd_last_cb (on_frame b plain)) -> board_step b (on_frame b plain)
| reconnect_step b : board_step b (on_reconnect b)
| pooled_step tag tpl seen last b : sane hex_decode tpl -> Forall honest seen -> honest last ->
    board_step b (gbt_pooled sha256 hex_decode hex_encode extra1 tag tpl seen last b).1
| solo_step tag tpl b : sane hex_decode tpl -> board_step b (gbt_solo sha256 hex_decode hex_encode extra1 tag tpl b)
| authorize_step fee_script bps ident b : board_step b (solo_job_for sha256 extra1 fee_script bps ident b).1.

(** The jobs kept are sound, the newest is the current one, and the template in place is sound. *)
Definition board_ok (b : Board) : Prop :=
  Forall (sound_job sha256 extra1) (bd_jobs b) /\ (length (bd_jobs b) <= JOB_HISTORY)%nat /\
  bd_job b = last (bd_jobs b) /\ honest (bd_last_cb b) /\ (forall t, bd_tpl b = Some t -> sound_tpl sha256 t).

Lemma publish_ok b j : board_ok b -> sound_job sha256 extra1 j -> board_ok (publish_job b j).
Proof.
  intros (Hj & Hl & _ & Hc & Ht) Hs. unfold board_ok, publish_job. cbn [bd_jobs bd_job bd_last_cb bd_tpl].
  rewrite length_app. cbn [length]. conjs; [| | | done | done].
  - apply Forall_drop, Forall_app. by split; [|constructor].
  - rewrite length_drop, length_app. cbn [length]. lia.
  - rewrite drop_app_le by (unfold JOB_HISTORY; lia). by rewrite last_snoc.
Qed.

Lemma next_seq_ok b : board_ok b -> board_ok (next_seq b).
Proof. by destruct b. Qed.

Lemma last_cb_ok b c : board_ok b -> honest c -> board_ok (with_last_cb b c).
Proof. intros (H1 & H2 & H3 & _ & H5) Hc. done. Qed.

Hypothesis sha_32 : forall d, length (sha256 d) = 32%nat.

Lemma pooled_job tag tpl seen last b : sane hex_decode tpl -> Forall honest seen -> honest last ->
  match gbt_pooled sha256 hex_decode hex_encode extra1 tag tpl seen last b with
  | (b', Some j) => b' = publish_job (next_seq (with_last_cb b last)) j /\ sound_job sha256 extra1 j /\ jb_who j = None
  | (b', None) => b' = with_last_cb b last \/ b' = next_seq (with_last_cb b last)
  end.
Proof.
  intros Hs Hseen Hlast. pose proof Hs as (_ & Hv & _). unfold in_range in Hv. unfold gbt_pooled.
  destruct (Z.ltb_spec 0 (u64_field "coinbasevalue" tpl)) as [Hpos|]; cbn [negb]; [|by left].
  destruct (split_for_value _ seen last) as [cb0|] eqn:Es; cbn [mbind option_bind]; [|by left].
  destruct (clamp_split _ cb0) as [cb|] eqn:Ec; [|by left].
  destruct (clamped_is_fit _ _ _ _ _ (conj Hpos (proj2 Hv)) Hseen Hlast Es Ec) as (Hok & Ht & Hlen).
  destruct (build_template _ _ _ _ _ _) as [t|] eqn:Eb; cbn [mbind option_bind]; [|by right].
  pose proof (built_sound _ hex_decode hex_encode sha_32 _ _ _ _ Hs Eb) as St. rewrite (value_sum_total cb) by done.
  destruct (coinbase_job _ _ _ _ _ _ _) as [j|] eqn:Ej; [|by right]. split; [done|].
  assert (F : exists cb', coinbase_job sha256 t extra1 cb' (slot_of (bd_job_seq (with_last_cb b last)))
                (bd_job_seq (with_last_cb b last)) None = Some j /\
              amounts_ok (cv_outputs cb') /\ total (cv_outputs cb') <= tp_value t /\ (2 <= length (cv_outputs cb'))%nat).
  { destruct (Z.ltb_spec (tp_value t) (total (cv_outputs cb))) as [Hgt|Hle].
    - destruct (scale_keeps cb (tp_value t) Hok ltac:(lia) ltac:(apply St)) as (A & T & L & _).
      exists (scale_to cb (tp_value t)). conjs; [exact Ej | done | lia | lia].
    - exists cb. done. }
  destruct F as (cb' & Ej' & A & T & L).
  destruct (job_sound sha256 extra1 t cb' _ _ _ j St A T L Ej') as (S & _ & _ & W & _). done.
Qed.

End Board.

(** * Solo jobs *)

Section Solo.
Context (sha256 blake2b256 : list Z -> Hash) (hex_decode : string -> option (list Z)) (hex_encode : list Z -> string).

(** The fee is the rate of the value rounded down, so the odd sat is the miner's. *)
Lemma fee_exact value bps : 0 <= value <= u64_max -> 0 <= bps <= 10000 -> fee_for value bps = value * bps / 10000 /\ 0 <= fee_for value bps <= value.
Proof.
  intros Hv Hb. unfold fee_for. assert (B : 0 <= value * bps / 10000 <= value).
  { split; [apply Z.div_pos; nia|]. apply Z.div_le_upper_bound; nia. }
  unfold trunc. rewrite Z.mod_small by lia. done.
Qed.

Lemma solo_split_spec value ms fs bps id cb : 0 <= value <= u64_max -> 0 <= bps <= 10000 ->
  solo_split value ms fs bps id = Some cb <->
  0 < fee_for value bps < value /\ (2 <= length ms <= 64)%nat /\ (2 <= length fs <= 64)%nat /\
  cb = {| cv_id := id; cv_outputs := [{| co_sats := value - fee_for value bps; co_script := ms |};
                                      {| co_sats := fee_for value bps; co_script := fs |}] |}.
Proof.
  intros Hv Hb. destruct (fee_exact value bps Hv Hb) as [_ Hf]. unfold solo_split.
  set (fee := fee_for value bps) in *. rewrite (proj2 (Z.ltb_ge value fee)) by lia.
  assert (S : value_sum {| cv_id := id; cv_outputs := [{| co_sats := value - fee; co_script := ms |}; {| co_sats := fee; co_script := fs |}] |} = value).
  { rewrite value_sum_total; [unfold total; cbn; lia|]. cbn [cv_outputs]. split; [|unfold total; cbn; lia].
    repeat constructor; cbn; lia. }
  rewrite S, Z.eqb_refl. cbn [negb].
  destruct (Z.eqb_spec (value - fee) 0), (Z.eqb_spec fee 0), (Nat.ltb_spec (length ms) 2), (Nat.ltb_spec (length fs) 2),
    (Nat.ltb_spec 64 (length ms)), (Nat.ltb_spec 64 (length fs)); cbn [orb];
    split; try done; try (intros (? & ? & ? & _); lia); try (intros (_ & _ & _ & ->); done);
    intros [= <-]; conjs; try done; lia.
Qed.

Hypothesis sha_32 : forall d, length (sha256 d) = 32%nat.
Context (extra1 fee_script : list Z) (bps : Z).

End Solo.

(** * A template, a split and a name *)

Module TemplateDemo.

Definition hex_of (b : Z) : option Z :=
  if between 48 57 b then Some (b - 48) else if between 97 102 b then Some (b - 87) else None.
Fixpoint pairs (l : list Z) : option (list Z) :=
  match l with
  | [] => Some []
  | a :: b :: l' => x ← hex_of a; y ← hex_of b; r ← pairs l'; Some (16 * x + y :: r)
  | _ => None
  end.
Definition from_hex (s : string) : option (list Z) := pairs (str_bytes s).
Definition to_hex (l : list Z) : string := bytes_str (concat (map (hex_fixed 2) l)).
Definition sha (l : list Z) : list Z := replicate 32 (7 + Z.land (zsum l) 15).

Definition tx (n weight fee : Z) : Value :=
  Obj [("txid"%string, Str (to_hex (replicate 32 n))); ("data"%string, Str (to_hex [n; n]));
       ("weight"%string, Num (PosInt weight)); ("fee"%string, Num (PosInt fee))].
Definition commitment : string := to_hex (witness_commitment_script sha [replicate 32 1; replicate 32 2]).
(** Two transactions, of which the second has to go. *)
Definition tpl : Value :=
  Obj [("previousblockhash"%string, Str (to_hex (replicate 32 5))); ("bits"%string, Str "1a008d4f"%string);
       ("height"%string, Num (PosInt 962049)); ("coinbasevalue"%string, Num (PosInt 1000000));
       ("curtime"%string, Num (PosInt 1760000000)); ("version"%string, Num (PosInt 536870912));
       ("transactions"%string, Arr [tx 1 400 1000; tx 2 4000 2000]);
       ("default_witness_commitment"%string, Str commitment); ("weightlimit"%string, Num (PosInt 4000))].
Definition extra1 : list Z := [0x49; 0x69; 1; 0x4d].
Definition tag : list Z := str_bytes "Lazarus".
Definition wpkh (n : Z) : list Z := [0; 20] ++ replicate 20 n.
Definition split : CoinbaserV2 :=
  {| cv_id := 3; cv_outputs := [{| co_sats := 600000; co_script := wpkh 8 |}; {| co_sats := 400000; co_script := wpkh 9 |}] |}.
Definition frame : list Z :=
  let body := Payees.encode split in [0x11] ++ u64_bytes 1000000 ++ u32_bytes (Z.of_nat (length body)) ++ body.
Definition told : Board := on_frame empty_board frame.
Definition pooled := gbt_pooled sha from_hex to_hex extra1 tag tpl [bd_last_cb told] (bd_last_cb told) told.
Definition ident : list Z := str_bytes "bc1qw508d6qejxtdg4y5r3zarvary0c5xw7kv8f3t4".

Lemma sha_32 d : length (sha d) = 32%nat.
Proof. apply length_replicate. Qed.

Lemma tpl_sane : sane from_hex tpl.
Proof.
  unfold sane. conjs.
  - apply (bool_decide_unpack (Forall (fun r => 0 <= tx_fee r) _)). vm_compute. exact I.
  - vm_compute. split; discriminate.
  - intros l E. assert (l = 4000) as -> by (vm_compute in E; congruence). unfold in_range. lia.
  - intros w E. assert (N : length <$> node_commitment from_hex tpl = Some 38%nat) by (vm_compute; reflexivity).
    rewrite E in N. injection N as ->. done.
Qed.

Lemma told_honest : honest (bd_last_cb told).
Proof.
  assert (E : bd_last_cb told = Some (1000000, split)) by (vm_compute; reflexivity). rewrite E.
  split; [repeat constructor; cbn; lia | unfold total; cbn; lia].
Qed.

(** The second transaction is dropped, its fee taken off, and the split rescaled to what is left. *)
Lemma pooled_trimmed :
  (fun j => (total (cv_outputs (jb_cb j)), tp_value (jb_tpl j), tp_trimmed_txs (jb_tpl j), length (tp_txids (jb_tpl j)))) <$> pooled.2
  = Some (998000, 998000, 1, 1%nat).
Proof. vm_compute. reflexivity. Qed.
End TemplateDemo.



(** * The block of a solve *)

(** The coinbase that goes into the block is the one the header's merkle root is taken over. *)
Theorem block_carries_the_coinbase sha256 extra1 j : sound_job sha256 extra1 j -> 0 <= tp_height (jb_tpl j) < 2 ^ 24 ->
  Z.of_nat (length (tp_tag (jb_tpl j)) + length (extra_of extra1)) <= 1000000 ->
  Forall out_fits (paid_outputs (jb_cb j) (tp_witness_commit (jb_tpl j))) ->
  (length (paid_outputs (jb_cb j) (tp_witness_commit (jb_tpl j))) <= 512)%nat ->
  forall hdr, exists cbtx p,
    assemble_block extra1 j hdr
    = serialize hdr ++ compact (hd_txcount (jb_header j)) ++ cbtx ++ concat (tp_tx_hexes (jb_tpl j)) /\
    parse_coinbase cbtx = Some p /\ pc_legacy p = jb_coinb1 j /\ pc_height p = Some (tp_height (jb_tpl j)) /\
    pc_outputs p = paid_outputs (jb_cb j) (tp_witness_commit (jb_tpl j)) /\
    hd_merkle_root (jb_header j) = merkle_root_sha256d sha256 (pc_legacy p) (tp_txids (jb_tpl j)).
Proof.
  intros (_ & _ & Hn & Hc1 & _ & _ & Hr & Hc & Hh) Ht Hl Hf Hm hdr.
  destruct (coinbase_reads_back (tp_height (jb_tpl j)) (tp_tag (jb_tpl j)) (extra_of extra1) (jb_cb j)
    (tp_witness_commit (jb_tpl j)) Ht Hl Hf) as [_ R].
  { split; [|done]. unfold paid_outputs. rewrite length_app. unfold job_outputs in Hn. lia. }
  eexists _, _. split; [|split; [exact R|]].
  - unfold assemble_block. rewrite Hc, Hh. by rewrite Z.add_comm.
  - cbn [pc_legacy pc_height pc_outputs]. rewrite Hc1 in *. done.
Qed.

(** ** Job ids *)

Lemma hex_char_inj a b : 0 <= a < 16 -> 0 <= b < 16 -> hex_char a = hex_char b -> a = b.
Proof. unfold hex_char. intros Ha Hb. destruct (Z.ltb_spec a 10), (Z.ltb_spec b 10); lia. Qed.

Lemma nibble_range z i : 0 <= Z.land (Z.shiftr z (4 * i)) 15 < 16.
Proof. change 15 with (Z.ones 4). rewrite Z.land_ones by lia. apply Z.mod_pos_bound. lia. Qed.

Lemma hex_fixed_inj n a b : 0 <= n -> 0 <= a < 2 ^ (4 * n) -> 0 <= b < 2 ^ (4 * n) -> hex_fixed n a = hex_fixed n b -> a = b.
Proof.
  intros Hn Ha Hb H. unfold hex_fixed in H. rewrite !map_rev in H. apply (f_equal (@rev _)) in H. rewrite !rev_involutive in H.
  assert (E : forall i, 0 <= i < n -> Z.land (Z.shiftr a (4 * i)) 15 = Z.land (Z.shiftr b (4 * i)) 15).
  { intros i Hi. apply hex_char_inj; [apply nibble_range..|].
    assert (L : seqZ 0 n !! Z.to_nat i = Some i) by (apply lookup_seqZ; lia).
    apply (f_equal (lookup (Z.to_nat i))) in H. change (map ?f ?l) with (f <$> l) in H. rewrite !list_lookup_fmap, L in H.
    by injection H. }
  assert (S : forall z, 0 <= z < 2 ^ (4 * n) -> forall k, 4 * n <= k -> Z.testbit z k = false).
  { intros z Hz k Hk. apply Z.testbit_false; [lia|]. rewrite Z.div_small; [done|]. split; [lia|].
    apply Z.lt_le_trans with (2 ^ (4 * n)); [lia|]. apply Z.pow_le_mono_r; lia. }
  apply Z.bits_inj'. intros k Hk. destruct (Z.le_gt_cases (4 * n) k) as [Hge|Hlt]; [by rewrite !S|].
  pose proof (Z.div_mod k 4 ltac:(lia)) as D. pose proof (Z.mod_pos_bound k 4 ltac:(lia)) as M.
  assert (Hi : 0 <= k / 4 < n) by (split; [apply Z.div_pos; lia | apply Z.div_lt_upper_bound; lia]).
  specialize (E (k / 4) Hi). apply (f_equal (fun z => Z.testbit z (k mod 4))) in E.
  change 15 with (Z.ones 4) in E. rewrite !Z.land_spec, !Z.shiftr_spec, Z.ones_spec_low, !andb_true_r in E by lia.
  by replace (k mod 4 + 4 * (k / 4)) with k in E by lia.
Qed.

Lemma hex_fixed_bytes n z : is_bytes (hex_fixed n z).
Proof.
  unfold hex_fixed, is_bytes. apply Forall_map, Forall_forall. intros i _. pose proof (nibble_range z i).
  unfold is_byte, in_range, hex_char. destr_if; bools; lia.
Qed.

(** Two jobs of one process are told apart by their ids, as long as fewer than 2^32 were issued
    between them. *)
Theorem job_ids_distinct extra1 s1 s2 : job_id_str extra1 s1 = job_id_str extra1 s2 -> s1 mod 2 ^ 32 = s2 mod 2 ^ 32.
Proof.
  unfold job_id_str. intros H. change 0xffffffff with (Z.ones 32) in H. rewrite !Z.land_ones in H by lia.
  apply bytes_str_inj in H; [|apply is_bytes_app; split; apply hex_fixed_bytes..].
  apply app_inv_head in H. pose proof (Z.mod_pos_bound s1 (2 ^ 32)). pose proof (Z.mod_pos_bound s2 (2 ^ 32)).
  apply (hex_fixed_inj 8); [lia | cbn -[Z.pow Z.modulo]; lia.. | done].
Qed.

(** ** Amounts that do not fit a word *)

Module Wrapping.
Definition split : CoinbaserV2 :=
  {| cv_id := 3; cv_outputs := [{| co_sats := 0xffffffffffffffff; co_script := [0; 20] |};
                                {| co_sats := 2; co_script := [0; 20] |}] |}.

(** The check that no job pays out more than its template gives is made on a sum that wraps. *)
Lemma clamp_misses_a_wrap : clamp_split 1000000 split = Some split /\ 1000000 < total (cv_outputs split).
Proof. vm_compute. done. Qed.
End Wrapping.
