(* ===== verification/Stratum.v ===== *)
(** The stratum front of the gateway ([lazarus/gateway/src/main.rs]): connections and their caps, what
    is kept of a miner, the limits on what it may send, difficulty, and the handling of its lines.

    Instants are nanoseconds and days unix seconds, read once per line here where the code reads them
    several times. A [HashMap] or [HashSet] is a [gmap] or [gset]. The fields of [Miner] and [Shared]
    are grouped by what changes together. Lines are JSON values; the base-2 logarithm of the platform's
    libm comes as an argument. A line for the miner of the session is taken to be written; whether the
    sockets of the broadcasts take theirs is an argument. *)

From Stdlib Require Import SpecFloat.
From S2P Require Import Prelude Bytes Text Handshake Pow State Overflow Protocol Template.
Import Header.
Open Scope Z_scope.

(** * Floats and durations *)

Definition f64_add (a b : f64) : f64 := SFadd 53 1024 a b.
Definition f64_sub (a b : f64) : f64 := SFsub 53 1024 a b.
Definition f64_max (a b : f64) : f64 := if f64_lt a b then b else a.
Definition f64_min (a b : f64) : f64 := if f64_lt b a then b else a.
Definition is_finite (a : f64) : bool :=
  match a with S754_finite _ _ _ | S754_zero _ => true | _ => false end.
(** [Duration::as_secs_f64] and [from_secs_f64], of nanoseconds. *)
Definition SECOND : Z := 1000000000.
Definition secs_f64 (d : Z) : f64 := f64_add (f64_of (d / SECOND)) (f64_div (f64_of (d mod SECOND)) (f64_of SECOND)).
Definition round_div (n d : Z) : Z :=
  let q := n / d in let r := n mod d in
  if 2 * r <? d then q else if d <? 2 * r then q + 1 else if Z.even q then q else q + 1.
Definition from_secs_f64 (f : f64) : Z :=
  match f with
  | S754_finite false m e => if 0 <=? e then Zpos m * 2 ^ e * SECOND else round_div (Zpos m * SECOND) (2 ^ (- e))
  | _ => 0
  end.

(** * Connections *)

Module Conns.

Definition MAX_CONNS : Z := 8192.
Definition MAX_CONNS_PER_IP : Z := 1024.
Record Conns := { total : Z; per_ip : gmap IpAddr Z }.
Definition no_conns : Conns := {| total := 0; per_ip := ∅ |}.

Definition try_acquire (c : Conns) (ip : IpAddr) : Conns * bool :=
  let n := default 0 (per_ip c !! ip) in
  if (MAX_CONNS <=? total c) || (MAX_CONNS_PER_IP <=? n) then (c, false)
  else ({| total := total c + 1; per_ip := <[ip := n + 1]> (per_ip c) |}, true).
Definition release (c : Conns) (ip : IpAddr) : Conns :=
  {| total := sat_sub (total c) 1;
     per_ip := match per_ip c !! ip with
               | None => per_ip c
               | Some n => let n := trunc u64_max (n - 1) in
                           if n =? 0 then delete ip (per_ip c) else <[ip := n]> (per_ip c)
               end |}.
End Conns.

(** * Difficulty *)

Module Vardiff.

Definition QUICK_SHARES : Z := 8.
Definition GRACE : Z := 30 * SECOND.
Definition STEP_DEFAULT : Z := 4.

Record Pace := { target_secs : f64; interval : Z; dt_min : f64; hr_window : Z }.
Definition PACE_DEFAULT : Pace :=
  {| target_secs := f64_of 4; interval := 20 * SECOND; dt_min := f64_of 4; hr_window := 60 * SECOND |}.
Definition from_target (t : option f64) : Pace :=
  match t with
  | Some t =>
      if negb (is_finite t) then PACE_DEFAULT else
      let t := f64_min (f64_max t (f64_of 1)) (f64_of 120) in
      {| target_secs := t; interval := from_secs_f64 (f64_max (f64_mul (f64_of 5) t) (f64_of 20)); dt_min := t;
         hr_window := from_secs_f64 (f64_max (f64_mul (f64_of 15) t) (f64_of 60)) |}
  | None => PACE_DEFAULT
  end.

(** [clamp]; the bounds are in order at every call. *)
Definition clamp (n lo hi : Z) : Z := Z.min (Z.max n lo) hi.
Definition pow2_clamp (n floor cap : Z) : Z :=
  let floor := Z.max floor 1 in
  let cap := Z.max cap floor in
  let n := clamp n floor cap in
  let pot := Z.min (Z.log2 (Z.max n 1)) 40 in
  clamp (2 ^ pot) floor cap.
Definition resolve_vardiff_step (step : option Z) : Z :=
  2 ^ Z.log2 (Z.min (Z.max (default STEP_DEFAULT step) 2) 16).
Definition step_vardiff (current ideal floor cap step : Z) : Z :=
  let step := resolve_vardiff_step (Some step) in
  let cur := pow2_clamp current floor cap in
  let want := pow2_clamp ideal floor cap in
  if cur <? want then pow2_clamp (Z.min (Z.min (cur * step) u64_max) want) floor cap
  else if want <? cur then pow2_clamp (Z.max (Z.max (cur / step) want) 1) floor cap
  else cur.

(** The [log2] of libm, rounded down and clamped to 0..40. *)
Definition vardiff_ideal_at (log2_floor : f64 -> Z) (hs target_secs : f64) : Z :=
  if negb (is_finite hs) || f64_le hs (f64_of 0) then 1 else
  let ideal := f64_div (f64_mul hs target_secs) (f64_of 4294967296) in
  2 ^ clamp (log2_floor (f64_max ideal (f64_of 1))) 0 40.

(** [Some allow_up] when it is time to look at vardiff. *)
Definition retarget_kind_at (elapsed shares_since : Z) (pace : Pace) : option bool :=
  if interval pace <=? elapsed then Some true
  else if (QUICK_SHARES <=? shares_since) && (from_secs_f64 (dt_min pace) <=? elapsed) then Some true
  else if QUICK_SHARES <=? shares_since then Some false
  else None.
End Vardiff.
Import Vardiff.

(** * A miner *)

Definition SEEN_CAP : nat := 8192.
Definition RECENT_CAP : nat := 4096.
Definition SUBMIT_RATE : f64 := f64_of 200.
Definition SUBMIT_BURST : f64 := f64_of 800.
Definition FLOOD_LIMIT : Z := 1000.
Definition SOLO_JOBS : nat := 32.
Definition LOW_BURST : Z := 200.
Definition LOW_WINDOW : Z := 60 * SECOND.
Definition JOB_DIFFS : nat := JOB_HISTORY.
Definition AUTHORIZE_DEADLINE : Z := 60 * SECOND.

Record Tally := { ta_acc : Z; ta_acc_n : Z; ta_rej : Z; ta_rej_n : Z }.
Record Difficulty := {
  df_vdiff : Z;
  df_prev : Z;
  df_prev_until : Z;
  df_last_retarget : Z;
  df_retarget_acc_n : Z;
  df_jobs : list (string * Z)
}.
Record Limits := { li_tokens : f64; li_tokens_at : Z; li_flood : Z; li_low_n : Z; li_low_at : Z }.
Record Seen := { se_set : gset Hash; se_order : list Hash }.
Record Miner := {
  mi_since : Z;
  mi_user : string;
  mi_ua : string;
  mi_ident : string;
  mi_tally : Tally;
  mi_diff : Difficulty;
  mi_limits : Limits;
  mi_recent : list (Z * Z);
  mi_seen : Seen;
  mi_jobs : list Job;
  mi_pace : Pace
}.

Definition new_miner (vstart : Z) (pace : Pace) (now : Z) : Miner :=
  {| mi_since := now; mi_user := ""; mi_ua := ""; mi_ident := "";
     mi_tally := {| ta_acc := 0; ta_acc_n := 0; ta_rej := 0; ta_rej_n := 0 |};
     mi_diff := {| df_vdiff := vstart; df_prev := vstart; df_prev_until := now; df_last_retarget := now;
                   df_retarget_acc_n := 0; df_jobs := [] |};
     mi_limits := {| li_tokens := SUBMIT_BURST; li_tokens_at := now; li_flood := 0; li_low_n := 0; li_low_at := now |};
     mi_recent := []; mi_seen := {| se_set := ∅; se_order := [] |}; mi_jobs := []; mi_pace := pace |}.

Definition with_names (m : Miner) (user ua ident : string) : Miner :=
  {| mi_since := mi_since m; mi_user := user; mi_ua := ua; mi_ident := ident; mi_tally := mi_tally m;
     mi_diff := mi_diff m; mi_limits := mi_limits m; mi_recent := mi_recent m; mi_seen := mi_seen m;
     mi_jobs := mi_jobs m; mi_pace := mi_pace m |}.
Definition with_tally (m : Miner) (t : Tally) : Miner :=
  {| mi_since := mi_since m; mi_user := mi_user m; mi_ua := mi_ua m; mi_ident := mi_ident m; mi_tally := t;
     mi_diff := mi_diff m; mi_limits := mi_limits m; mi_recent := mi_recent m; mi_seen := mi_seen m;
     mi_jobs := mi_jobs m; mi_pace := mi_pace m |}.
Definition with_diff (m : Miner) (d : Difficulty) : Miner :=
  {| mi_since := mi_since m; mi_user := mi_user m; mi_ua := mi_ua m; mi_ident := mi_ident m; mi_tally := mi_tally m;
     mi_diff := d; mi_limits := mi_limits m; mi_recent := mi_recent m; mi_seen := mi_seen m;
     mi_jobs := mi_jobs m; mi_pace := mi_pace m |}.
Definition with_limits (m : Miner) (l : Limits) : Miner :=
  {| mi_since := mi_since m; mi_user := mi_user m; mi_ua := mi_ua m; mi_ident := mi_ident m; mi_tally := mi_tally m;
     mi_diff := mi_diff m; mi_limits := l; mi_recent := mi_recent m; mi_seen := mi_seen m;
     mi_jobs := mi_jobs m; mi_pace := mi_pace m |}.
Definition with_recent (m : Miner) (r : list (Z * Z)) : Miner :=
  {| mi_since := mi_since m; mi_user := mi_user m; mi_ua := mi_ua m; mi_ident := mi_ident m; mi_tally := mi_tally m;
     mi_diff := mi_diff m; mi_limits := mi_limits m; mi_recent := r; mi_seen := mi_seen m;
     mi_jobs := mi_jobs m; mi_pace := mi_pace m |}.
Definition with_seen (m : Miner) (s : Seen) : Miner :=
  {| mi_since := mi_since m; mi_user := mi_user m; mi_ua := mi_ua m; mi_ident := mi_ident m; mi_tally := mi_tally m;
     mi_diff := mi_diff m; mi_limits := mi_limits m; mi_recent := mi_recent m; mi_seen := s;
     mi_jobs := mi_jobs m; mi_pace := mi_pace m |}.
Definition with_jobs (m : Miner) (js : list Job) : Miner :=
  {| mi_since := mi_since m; mi_user := mi_user m; mi_ua := mi_ua m; mi_ident := mi_ident m; mi_tally := mi_tally m;
     mi_diff := mi_diff m; mi_limits := mi_limits m; mi_recent := mi_recent m; mi_seen := mi_seen m;
     mi_jobs := js; mi_pace := mi_pace m |}.

(** The [while len > cap] pops at the front of a queue. *)
Definition keep_last {A} (cap : nat) (l : list A) : list A := drop (length l - cap) l.

(** [note_share]: whether the hash is new to this connection. *)
Fixpoint forget_front (over : nat) (order : list Hash) (set : gset Hash) : list Hash * gset Hash :=
  match over, order with
  | S k, h :: order' => forget_front k order' (set ∖ {[h]})
  | _, _ => (order, set)
  end.
Definition note_share (m : Miner) (hash : Hash) : Miner * bool :=
  let s := mi_seen m in
  if bool_decide (hash ∈ se_set s) then (m, false) else
  let order := se_order s ++ [hash] in
  let '(order, set) := forget_front (length order - SEEN_CAP) order ({[hash]} ∪ se_set s) in
  (with_seen m {| se_set := set; se_order := order |}, true).

(** [note_low]: true when the connection has sent a flood of shares under their target. *)
Definition note_low (m : Miner) (now : Z) : Miner * bool :=
  let l := mi_limits m in
  let fresh := LOW_WINDOW <? sat_sub now (li_low_at l) in
  let n := trunc u32_max ((if fresh then 0 else li_low_n l) + 1) in
  (with_limits m {| li_tokens := li_tokens l; li_tokens_at := li_tokens_at l; li_flood := li_flood l;
                    li_low_n := n; li_low_at := if fresh then now else li_low_at l |}, LOW_BURST <? n).

(** [take_token]. *)
Definition take_token (m : Miner) (now : Z) : Miner * bool :=
  let l := mi_limits m in
  let dt := secs_f64 (sat_sub now (li_tokens_at l)) in
  let tokens := f64_min (f64_add (li_tokens l) (f64_mul dt SUBMIT_RATE)) SUBMIT_BURST in
  let ok := f64_le (f64_of 1) tokens in
  (with_limits m {| li_tokens := if ok then f64_sub tokens (f64_of 1) else tokens; li_tokens_at := now;
                    li_flood := li_flood l; li_low_n := li_low_n l; li_low_at := li_low_at l |}, ok).

Definition add_flood (m : Miner) : Miner :=
  let l := mi_limits m in
  with_limits m {| li_tokens := li_tokens l; li_tokens_at := li_tokens_at l; li_flood := trunc u64_max (li_flood l + 1);
                   li_low_n := li_low_n l; li_low_at := li_low_at l |}.
Definition over_flood (m : Miner) : bool := FLOOD_LIMIT <? li_flood (mi_limits m).

Definition set_job_diffs (m : Miner) (js : list (string * Z)) : Miner :=
  let d := mi_diff m in
  with_diff m {| df_vdiff := df_vdiff d; df_prev := df_prev d; df_prev_until := df_prev_until d;
                 df_last_retarget := df_last_retarget d; df_retarget_acc_n := df_retarget_acc_n d; df_jobs := js |}.
(** [assign_job]. *)
Definition assign_job (m : Miner) (job_id : string) : Miner :=
  set_job_diffs m (keep_last JOB_DIFFS (df_jobs (mi_diff m) ++ [(job_id, df_vdiff (mi_diff m))])).
Definition push_job (m : Miner) (j : Job) : Miner :=
  let m := assign_job m (jb_id j) in with_jobs m (keep_last SOLO_JOBS (mi_jobs m ++ [j])).

(** [record_share]. *)
Fixpoint drop_before (cutoff : Z) (l : list (Z * Z)) : list (Z * Z) :=
  match l with e :: l' => if e.1 <? cutoff then drop_before cutoff l' else l | [] => [] end.
Definition cutoff_of (m : Miner) (now : Z) : Z :=
  if now <? hr_window (mi_pace m) then now else now - hr_window (mi_pace m).
Definition record_share (m : Miner) (work now : Z) : Miner :=
  let t := mi_tally m in
  let m := with_tally m {| ta_acc := sat_add u64_max (ta_acc t) work; ta_acc_n := trunc u64_max (ta_acc_n t + 1);
                           ta_rej := ta_rej t; ta_rej_n := ta_rej_n t |} in
  with_recent m (keep_last RECENT_CAP (drop_before (cutoff_of m now) (mi_recent m ++ [(now, work)]))).
Definition count_rejected (m : Miner) (work : Z) : Miner :=
  let t := mi_tally m in
  with_tally m {| ta_acc := ta_acc t; ta_acc_n := ta_acc_n t; ta_rej := sat_add u64_max (ta_rej t) work;
                  ta_rej_n := trunc u64_max (ta_rej_n t + 1) |}.

Definition miner_hs_window (m : Miner) (now : Z) (dt_floor : f64) : f64 :=
  let inside := filter (fun e => (cutoff_of m now <=? e.1) = true) (mi_recent m) in
  let work := foldl (fun a e => sat_add u64_max a e.2) 0 inside in
  let dt := match inside with [] => f64_of 0 | e :: _ => secs_f64 (sat_sub now e.1) end in
  f64_div (f64_mul (f64_of work) (f64_of (2 ^ 32))) (f64_max dt dt_floor).

(** * The solo book *)

Record SoloMiner := { sm_work : Z; sm_shares : Z; sm_last_ts : Z; sm_best_pot : Z; sm_blocks : Z }.
Record SoloBlock := { sb_height : Z; sb_hash : list Z; sb_who : string; sb_ts : Z; sb_value : Z; sb_fee : Z }.
Record SoloBook := {
  bk_miners : gmap string SoloMiner;
  bk_blocks : list SoloBlock;
  bk_work : Z;
  bk_shares : Z;
  bk_dirty : bool
}.
Definition empty_book : SoloBook := {| bk_miners := ∅; bk_blocks := []; bk_work := 0; bk_shares := 0; bk_dirty := false |}.
Definition SOLO_BOOK_MINERS : nat := 4096.
Definition SOLO_BOOK_BLOCKS : nat := 256.
Definition no_miner : SoloMiner := {| sm_work := 0; sm_shares := 0; sm_last_ts := 0; sm_best_pot := 0; sm_blocks := 0 |}.

(** [evict]: the identities seen longest ago that found no block, ties in the order of the map. *)
Definition by_last_ts (a b : string * SoloMiner) : bool := sm_last_ts a.2 <=? sm_last_ts b.2.
Definition evictable (ms : gmap string SoloMiner) : list (string * SoloMiner) :=
  sort_by by_last_ts (filter (fun e => sm_blocks e.2 = 0) (map_to_list ms)).
Definition evict (ms : gmap string SoloMiner) : gmap string SoloMiner :=
  foldl (fun ms e => delete e.1 ms) ms (take (size ms - SOLO_BOOK_MINERS) (evictable ms)).
Definition credit (b : SoloBook) (ident : string) (work pot now : Z) : SoloBook :=
  let e := default no_miner (bk_miners b !! ident) in
  let e := {| sm_work := sat_add u64_max (sm_work e) work; sm_shares := trunc u64_max (sm_shares e + 1);
              sm_last_ts := now; sm_best_pot := Z.max (sm_best_pot e) pot; sm_blocks := sm_blocks e |} in
  let ms := <[ident := e]> (bk_miners b) in
  {| bk_miners := if (SOLO_BOOK_MINERS <? size ms)%nat then evict ms else ms; bk_blocks := bk_blocks b;
     bk_work := sat_add u64_max (bk_work b) work; bk_shares := trunc u64_max (bk_shares b + 1); bk_dirty := true |}.
Definition note_block (b : SoloBook) (r : SoloBlock) : SoloBook :=
  {| bk_miners := alter (fun m => {| sm_work := sm_work m; sm_shares := sm_shares m; sm_last_ts := sm_last_ts m;
                                     sm_best_pot := sm_best_pot m; sm_blocks := trunc u32_max (sm_blocks m + 1) |})
                    (sb_who r) (bk_miners b);
     bk_blocks := keep_last SOLO_BOOK_BLOCKS (bk_blocks b ++ [r]); bk_work := bk_work b; bk_shares := bk_shares b;
     bk_dirty := true |}.

(** The difficulty a hash reached, as a power of two. *)
Definition hash_pot (hash : Hash) : Z := trunc u8_max (Z.min (sat_sub (lz_from hash) 32) 255).

(** * The shared state *)

Inductive VerifyMode := VerifyOff | VerifyLog | VerifyEnforce.
#[export] Instance VerifyMode_eq_dec : EqDecision VerifyMode.
Proof. solve_decision. Defined.
Definition verify_mode (s : option string) : VerifyMode :=
  let s := default "enforce"%string s in
  if bool_decide (s = "off"%string) then VerifyOff else if bool_decide (s = "log"%string) then VerifyLog else VerifyEnforce.

(** What a share is forwarded to Prime as. *)
Record PowSubmit := {
  ps_job_id : Z; ps_coinbase_id : Z; ps_target_byte : Z; ps_ntime : Z; ps_nonce : Z; ps_version : Z;
  ps_extranonce : list Z; ps_username : string; ps_prev_hash : Hash; ps_nbits : list Z; ps_height : Z; ps_value : Z;
  ps_txn_count : Z; ps_branches : list Hash; ps_coinb1 : list Z; ps_sia_ntime : list Z; ps_sia_nonce : list Z;
  ps_time_on_wire : Z
}.
Record Queue := { q_open : bool; q_bodies : list PowSubmit; q_depth : Z; q_dropped : Z }.
Record Counters := { ct_acc : Z; ct_rej : Z; ct_pow_ok : Z; ct_pow_bad : Z; ct_job_miss : Z }.

Record Front := {
  fr_conns : Conns.Conns;
  fr_miners : gmap Z Miner;
  fr_board : Board;
  fr_counters : Counters;
  fr_queue : Queue;
  fr_submitted : gset Hash;
  fr_solo : SoloBook;
  fr_overflow : option Overflow.Overflow
}.
Definition set_miners (f : Front) (m : gmap Z Miner) : Front :=
  {| fr_conns := fr_conns f; fr_miners := m; fr_board := fr_board f; fr_counters := fr_counters f; fr_queue := fr_queue f;
     fr_submitted := fr_submitted f; fr_solo := fr_solo f; fr_overflow := fr_overflow f |}.
Definition set_conns (f : Front) (c : Conns.Conns) : Front :=
  {| fr_conns := c; fr_miners := fr_miners f; fr_board := fr_board f; fr_counters := fr_counters f; fr_queue := fr_queue f;
     fr_submitted := fr_submitted f; fr_solo := fr_solo f; fr_overflow := fr_overflow f |}.
Definition set_board (f : Front) (b : Board) : Front :=
  {| fr_conns := fr_conns f; fr_miners := fr_miners f; fr_board := b; fr_counters := fr_counters f; fr_queue := fr_queue f;
     fr_submitted := fr_submitted f; fr_solo := fr_solo f; fr_overflow := fr_overflow f |}.
Definition set_counters (f : Front) (c : Counters) : Front :=
  {| fr_conns := fr_conns f; fr_miners := fr_miners f; fr_board := fr_board f; fr_counters := c; fr_queue := fr_queue f;
     fr_submitted := fr_submitted f; fr_solo := fr_solo f; fr_overflow := fr_overflow f |}.
Definition set_queue (f : Front) (q : Queue) : Front :=
  {| fr_conns := fr_conns f; fr_miners := fr_miners f; fr_board := fr_board f; fr_counters := fr_counters f; fr_queue := q;
     fr_submitted := fr_submitted f; fr_solo := fr_solo f; fr_overflow := fr_overflow f |}.
Definition set_submitted (f : Front) (s : gset Hash) : Front :=
  {| fr_conns := fr_conns f; fr_miners := fr_miners f; fr_board := fr_board f; fr_counters := fr_counters f;
     fr_queue := fr_queue f; fr_submitted := s; fr_solo := fr_solo f; fr_overflow := fr_overflow f |}.
Definition set_solo (f : Front) (b : SoloBook) : Front :=
  {| fr_conns := fr_conns f; fr_miners := fr_miners f; fr_board := fr_board f; fr_counters := fr_counters f;
     fr_queue := fr_queue f; fr_submitted := fr_submitted f; fr_solo := b; fr_overflow := fr_overflow f |}.
Definition set_overflow (f : Front) (o : option Overflow.Overflow) : Front :=
  {| fr_conns := fr_conns f; fr_miners := fr_miners f; fr_board := fr_board f; fr_counters := fr_counters f;
     fr_queue := fr_queue f; fr_submitted := fr_submitted f; fr_solo := fr_solo f; fr_overflow := o |}.
(** [lk(&st.miners).get_mut(&id)]. *)
Definition on_miner (id : Z) (g : Miner -> Miner) (f : Front) : Front := set_miners f (alter g id (fr_miners f)).

Definition bump_acc (f : Front) : Front :=
  let c := fr_counters f in set_counters f {| ct_acc := trunc u64_max (ct_acc c + 1); ct_rej := ct_rej c;
    ct_pow_ok := ct_pow_ok c; ct_pow_bad := ct_pow_bad c; ct_job_miss := ct_job_miss c |}.
Definition bump_rej (f : Front) : Front :=
  let c := fr_counters f in set_counters f {| ct_acc := ct_acc c; ct_rej := trunc u64_max (ct_rej c + 1);
    ct_pow_ok := ct_pow_ok c; ct_pow_bad := ct_pow_bad c; ct_job_miss := ct_job_miss c |}.
Definition bump_pow (ok : bool) (f : Front) : Front :=
  let c := fr_counters f in set_counters f {| ct_acc := ct_acc c; ct_rej := ct_rej c;
    ct_pow_ok := if ok then trunc u64_max (ct_pow_ok c + 1) else ct_pow_ok c;
    ct_pow_bad := if ok then ct_pow_bad c else trunc u64_max (ct_pow_bad c + 1); ct_job_miss := ct_job_miss c |}.
Definition bump_miss (f : Front) : Front :=
  let c := fr_counters f in set_counters f {| ct_acc := ct_acc c; ct_rej := ct_rej c;
    ct_pow_ok := ct_pow_ok c; ct_pow_bad := ct_pow_bad c; ct_job_miss := trunc u64_max (ct_job_miss c + 1) |}.

(** ** The queue to Prime *)

Definition PRIME_QUEUE_CAP : Z := 100000.
(** [send_prime]; the channel is open on a gateway that has a Prime. *)
Definition send_prime (q : Queue) (body : PowSubmit) : Queue :=
  if PRIME_QUEUE_CAP <=? q_depth q
  then {| q_open := q_open q; q_bodies := q_bodies q; q_depth := q_depth q; q_dropped := trunc u64_max (q_dropped q + 1) |}
  else if q_open q
  then {| q_open := true; q_bodies := q_bodies q ++ [body]; q_depth := trunc u64_max (q_depth q + 1); q_dropped := q_dropped q |}
  else q.
(** [release_prime_slots]. *)
Definition release_prime_slots (q : Queue) (n : Z) : Queue :=
  {| q_open := q_open q; q_bodies := q_bodies q; q_depth := sat_sub (q_depth q) n; q_dropped := q_dropped q |}.
(** A pass of [prime_loop]: of the bodies taken off the queue [written] are written before one fails;
    [None] when a body that holds no slot failed before them. *)
Definition drain_queue (q : Queue) (taken : nat) (written : option nat) : Queue :=
  release_prime_slots {| q_open := q_open q; q_bodies := drop taken (q_bodies q); q_depth := q_depth q;
                         q_dropped := q_dropped q |}
    (match written with Some w => Z.of_nat (Nat.min (S w) (Nat.min taken (length (q_bodies q)))) | None => 0 end).
(** A new session with Prime starts the count again. *)
Definition reset_depth (q : Queue) : Queue :=
  {| q_open := q_open q; q_bodies := q_bodies q; q_depth := 0; q_dropped := q_dropped q |}.

(** * Names *)

Definition MAX_USER : nat := 128.
Definition clean_user (u : string) : bool :=
  let b := str_bytes u in
  negb (length b =? 0)%nat && (length b <=? MAX_USER)%nat && forallb (fun x => (0x21 <=? x) && (x <? 0x7f)) b.

(** [canon_identity]; slicing three bytes off the front panics inside a character. *)
Definition canon_identity (user : string) : panics string :=
  let ident := Identity.identity_of (str_bytes user) in
  if (4 <? length ident)%nat then
    if cont (default 0 (ident !! 3%nat)) then Panic
    else Ret (if bool_decide (to_ascii_lowercase (take 3 ident) = str_bytes "bc1")
              then bytes_str (to_ascii_lowercase ident) else bytes_str ident)
  else Ret (bytes_str ident).
(** What the callers that only see printable names get. *)
Definition canon (user : string) : string := match canon_identity user with Ret s => s | Panic => ""%string end.

(** [ua.chars().filter(..).take(96)]. *)
Definition clean_agent (s : string) : string :=
  bytes_str (take 96 (filter (fun b => is_ascii_graphic b || (b =? 32) = true) (str_bytes s))).

Section Names.
Context (sha256 : list Z -> Hash).
Definition payable_user (u : string) : bool :=
  clean_user u && bool_decide (is_Some (Identity.identity_script sha256 (str_bytes (canon u)))).
End Names.

(** * A session *)

(** What the endpoint is configured with. *)
Record Endpoint := {
  en_mode : RunMode;
  en_verify : VerifyMode;
  en_vmin : Z;
  en_vmax : Z;
  en_vstart : Z;
  en_vstep : Z;
  en_pace : Pace;
  en_extra1 : list Z;
  en_fee_script : list Z;
  en_fee_bps : Z
}.
(** The settings as [handle_miner] resolves them. *)
Definition endpoint (mode : RunMode) (verify : VerifyMode) (vardiff_min : Z) (vardiff_start vardiff_max vardiff_step : option Z)
    (target : option f64) (extra1 fee_script : list Z) (fee_bps : Z) : Endpoint :=
  let vmin := Z.max vardiff_min 1 in
  let vmax := Z.max (default (2 ^ 40) vardiff_max) vmin in
  {| en_mode := mode; en_verify := verify; en_vmin := vmin; en_vmax := vmax;
     en_vstart := pow2_clamp (default vmin vardiff_start) vmin vmax;
     en_vstep := resolve_vardiff_step vardiff_step; en_pace := from_target target;
     en_extra1 := extra1; en_fee_script := fee_script; en_fee_bps := fee_bps |}.

(** The locals of [handle_miner]. *)
Record Session := {
  ss_id : Z;
  ss_ip : IpAddr;
  ss_en1 : list Z;
  ss_user : string;
  ss_ua : string;
  ss_gated : bool;
  ss_noted_at : option Z
}.
Definition with_user (s : Session) (user : string) : Session :=
  {| ss_id := ss_id s; ss_ip := ss_ip s; ss_en1 := ss_en1 s; ss_user := user; ss_ua := ss_ua s;
     ss_gated := ss_gated s; ss_noted_at := ss_noted_at s |}.
Definition with_agent (s : Session) (ua : string) : Session :=
  {| ss_id := ss_id s; ss_ip := ss_ip s; ss_en1 := ss_en1 s; ss_user := ss_user s; ss_ua := ua;
     ss_gated := ss_gated s; ss_noted_at := ss_noted_at s |}.
Definition with_gated (s : Session) : Session :=
  {| ss_id := ss_id s; ss_ip := ss_ip s; ss_en1 := ss_en1 s; ss_user := ss_user s; ss_ua := ss_ua s;
     ss_gated := true; ss_noted_at := ss_noted_at s |}.
Definition with_noted (s : Session) (now : Z) : Session :=
  {| ss_id := ss_id s; ss_ip := ss_ip s; ss_en1 := ss_en1 s; ss_user := ss_user s; ss_ua := ss_ua s;
     ss_gated := ss_gated s; ss_noted_at := Some now |}.
(** The extranonce of a session: the gateway's, mixed with the connection's number. *)
Definition session_en1 (extra1 : list Z) (id : Z) : list Z := u32_bytes (Z.lxor (of_le extra1) (trunc u32_max id)).

(** What a handled line comes to: lines for the miner, blocks for the node, and whether to go on. *)
Inductive Flow := Go | Stop.
Record Out := { o_front : Front; o_session : Session; o_lines : list Value; o_blocks : list (list Z); o_flow : Flow }.
Definition go (f : Front) (s : Session) (lines : list Value) : Out :=
  {| o_front := f; o_session := s; o_lines := lines; o_blocks := []; o_flow := Go |}.
Definition stop (f : Front) (s : Session) : Out :=
  {| o_front := f; o_session := s; o_lines := []; o_blocks := []; o_flow := Stop |}.

Definition str (s : string) : Value := Str s.
Definition int (z : Z) : Value := Num (PosInt z).
Definition reply (mid result error : Value) : Value :=
  Obj [("id"%string, mid); ("result"%string, result); ("error"%string, error)].
Definition accept (mid : Value) : Value := reply mid (Boolean true) Null.
Definition refuse (mid : Value) (code : Z) (why : string) : Value :=
  reply mid (Boolean false) (Arr [int code; str why; Null]).
Definition set_difficulty (d : Z) : Value :=
  Obj [("id"%string, Null); ("method"%string, str "mining.set_difficulty"); ("params"%string, Arr [int d])].

Definition param (i : nat) (msg : Value) : option Value := p ← get "params" msg; a ← as_array p; a !! i.
Definition str_param (i : nat) (msg : Value) : option string := v ← param i msg; as_str v.
Definition params_len (msg : Value) : nat :=
  match p ← get "params" msg; as_array p with Some a => length a | None => 0%nat end.

Section Handling.
Context (sha256 blake2b256 : list Z -> Hash) (hex_decode : string -> option (list Z)) (hex_encode : list Z -> string)
        (log2_floor : f64 -> Z) (ocfg : Overflow.OverflowCfg).

(** [hex_field]. *)
Definition MAX_HEX_FIELD : nat := 16.
Definition hex_field (v : option Value) : option (list Z) :=
  s ← (x ← v; as_str x);
  let n := length (str_bytes s) in
  if (n =? 0)%nat || (MAX_HEX_FIELD <? n)%nat || negb (Nat.even n) then None else
  b ← hex_decode s; Some (b ++ zeros (8 - length b)).

Definition notify_line (j : Job) : Value :=
  let h := slice 3 35 (coinb1_sia sha256 (jb_header j)) in
  Obj [("id"%string, Null); ("method"%string, str "mining.notify");
       ("params"%string, Arr [str (jb_id j); str (tp_prev_notify (jb_tpl j));
          str (String.append "000000" (String.append (hex_encode h) "00000000")); str ""; Arr []; str "";
          str (hex_encode (tp_nbits (jb_tpl j))); str (hex_encode (zeros 8)); Boolean true])].

(** ** Block submission *)

(** [maybe_submit_block]: [auth] is whether the node's cookie could be read. *)
Definition maybe_submit_block (e : Endpoint) (auth : bool) (now : Z) (j : Job) (hdr : HeaderV2) (f : Front)
    : Front * list (list Z) :=
  if negb auth then (f, []) else
  let hash := pow_hash sha256 blake2b256 hdr in
  if bool_decide (hash ∈ fr_submitted f) then (f, []) else
  let seen := {[hash]} ∪ fr_submitted f in
  let f := set_submitted f (if (1024 <? size seen)%nat then ∅ else seen) in
  let blk := assemble_block (en_extra1 e) j hdr in
  let f := match jb_who j with
           | Some who =>
               set_solo f (note_block (fr_solo f)
                 {| sb_height := tp_height (jb_tpl j); sb_hash := rev hash; sb_who := bytes_str who; sb_ts := now;
                    sb_value := tp_value (jb_tpl j);
                    sb_fee := default 0 (co_sats <$> last (cv_outputs (jb_cb j))) |})
           | None => f
           end in
  (f, [blk]).

(** ** A share *)

(** The header the miner hashed, rebuilt on its job. *)
Definition share_header (j : Job) (en1 en2 sia_t sia_n : list Z) : HeaderV2 :=
  let h := jb_header j in
  {| hd_version := hd_version h; hd_prev_block := hd_prev_block h; hd_merkle_root := hd_merkle_root h;
     hd_time := hd_time h; hd_bits := hd_bits h;
     hd_nonce := of_le (slice 0 4 sia_n); hd_nonce2 := of_le (slice 4 8 sia_n); hd_nonce3 := of_le (slice 4 8 sia_t);
     hd_extranonce := header_extranonce (en1 ++ en2); hd_time_offset := of_le (slice 0 4 sia_t);
     hd_txcount := hd_txcount h; hd_flags := hd_flags h; hd_xor_clear_bits := hd_xor_clear_bits h;
     hd_xor_key := hd_xor_key h; hd_height := hd_height h; hd_mm_rhs := hd_mm_rhs h |}.

(** The newest job with an id. *)
Definition find_job (want : string) (js : list Job) : option Job :=
  head (filter (fun j => jb_id j = want) (rev js)).
Definition job_wanted (e : Endpoint) (f : Front) (id : Z) (want : string) : option Job :=
  if (16 <? length (str_bytes want))%nat then None
  else if bool_decide (en_mode e = SoloMode) then m ← fr_miners f !! id; find_job want (mi_jobs m)
  else find_job want (bd_jobs (fr_board f)).

(** The difficulty a job went out at, to this session. *)
Definition accept_diff (e : Endpoint) (f : Front) (id : Z) (want : string) (now : Z) : Z :=
  match fr_miners f !! id with
  | Some m =>
      let d := mi_diff m in
      match map snd (filter (fun jd => jd.1 = want) (df_jobs d)) with
      | x :: xs => foldl Z.min x xs
      | [] => if now <? df_prev_until d then Z.min (df_vdiff d) (df_prev d) else df_vdiff d
      end
  | None => en_vmin e
  end.

(** The retarget after a share: the difficulty to send, if it changed. *)
Definition retarget (e : Endpoint) (m : Miner) (now : Z) : Miner * option Z :=
  let d := mi_diff m in
  let n := ta_acc_n (mi_tally m) in
  match retarget_kind_at (sat_sub now (df_last_retarget d)) (sat_sub n (df_retarget_acc_n d)) (mi_pace m) with
  | None => (m, None)
  | Some allow_up =>
      let hs := miner_hs_window m now (dt_min (mi_pace m)) in
      let want := step_vardiff (df_vdiff d) (vardiff_ideal_at log2_floor hs (target_secs (mi_pace m)))
                    (en_vmin e) (en_vmax e) (en_vstep e) in
      if (df_vdiff d <? want) && negb allow_up then (m, None)
      else if negb (want =? df_vdiff d) then
        (with_diff m {| df_vdiff := want; df_prev := df_vdiff d; df_prev_until := now + GRACE; df_last_retarget := now;
                        df_retarget_acc_n := n; df_jobs := df_jobs d |}, Some want)
      else
        (with_diff m {| df_vdiff := df_vdiff d; df_prev := df_prev d; df_prev_until := df_prev_until d;
                        df_last_retarget := if allow_up then now else df_last_retarget d;
                        df_retarget_acc_n := n; df_jobs := df_jobs d |}, None)
  end.

Definition submit_of (j : Job) (hdr : HeaderV2) (user : string) (pot : Z) (en12 sia_t sia_n : list Z) : PowSubmit :=
  let t := jb_tpl j in
  {| ps_job_id := jb_slot j; ps_coinbase_id := cv_id (jb_cb j); ps_target_byte := pot; ps_ntime := hd_time (jb_header j);
     ps_nonce := hd_nonce hdr; ps_version := trunc u32_max (hd_version (jb_header j)); ps_extranonce := en12;
     ps_username := user; ps_prev_hash := hd_prev_block (jb_header j); ps_nbits := tp_nbits t;
     ps_height := tp_height t; ps_value := tp_value t; ps_txn_count := tp_txn_count t; ps_branches := tp_branches t;
     ps_coinb1 := jb_coinb1 j; ps_sia_ntime := sia_t; ps_sia_nonce := sia_n; ps_time_on_wire := hd_time (jb_header j) |}.

Definition NOTE_EVERY : Z := 10 * SECOND.
(** The share is new and good: counted, credited, forwarded, and submitted when it solves the block. *)
Definition take_share (e : Endpoint) (auth : bool) (now unix : Z) (f : Front) (s : Session) (mid : Value)
    (j : Job) (hdr : HeaderV2) (en12 sia_t sia_n : list Z) (work pot : Z) : Out :=
  let hash := pow_hash sha256 blake2b256 hdr in
  let f := bump_acc f in
  let f := if bool_decide (en_mode e = SoloMode)
           then set_solo f (credit (fr_solo f) (match jb_who j with Some w => bytes_str w | None => "" end) work (hash_pot hash) unix)
           else f in
  let '(f, s) :=
    match fr_overflow f with
    | Some ov =>
        if match ss_noted_at s with Some t => NOTE_EVERY <=? sat_sub now t | None => true end
        then (set_overflow f (Some (Overflow.note_share ov (canon (ss_user s)) (ss_ip s) unix)), with_noted s now)
        else (f, s)
    | None => (f, s)
    end in
  let '(f, changed) :=
    match fr_miners f !! ss_id s with
    | Some m => let '(m, changed) := retarget e (record_share m work now) now in
                (set_miners f (<[ss_id s := m]> (fr_miners f)), changed)
    | None => (f, None)
    end in
  let f := set_queue f (send_prime (fr_queue f) (submit_of j hdr (ss_user s) pot en12 sia_t sia_n)) in
  let '(f, blocks) :=
    match bits_to_target (hd_bits (jb_header j)) with
    | Some tgt => if Header.meets_target hash tgt then maybe_submit_block e auth unix j hdr f else (f, [])
    | None => (f, [])
    end in
  {| o_front := f; o_session := s;
     o_lines := match changed with Some d => [set_difficulty d] | None => [] end ++ [accept mid];
     o_blocks := blocks; o_flow := Go |}.

(** The share rebuilt and judged at the difficulty of its job. *)
Definition judge_share (e : Endpoint) (auth : bool) (now unix : Z) (f : Front) (s : Session) (mid : Value)
    (want : string) (j : Job) (en2 sia_t sia_n : list Z) : Out :=
  let hdr := share_header j (ss_en1 s) en2 sia_t sia_n in
  let d := Z.max (accept_diff e f (ss_id s) want now) 1 in
  let pot := Z.log2 d in
  let hash := pow_hash sha256 blake2b256 hdr in
  let share_ok := Header.meets_target hash (target_for_pot pot) in
  let f := bump_pow share_ok f in
  if negb share_ok then
    let '(f, over) :=
      match fr_miners f !! ss_id s with
      | Some m => let '(m, over) := note_low m now in (set_miners f (<[ss_id s := m]> (fr_miners f)), over)
      | None => (f, true)
      end in
    if over then stop f s else
    if bool_decide (en_verify e = VerifyEnforce)
    then go (on_miner (ss_id s) (fun m => count_rejected m d) (bump_rej f)) s [refuse mid 23 "LowDifficultyShare"]
    else go f s [accept mid]
  else
    let '(f, fresh) :=
      match fr_miners f !! ss_id s with
      | Some m => let '(m, fresh) := note_share m hash in (set_miners f (<[ss_id s := m]> (fr_miners f)), fresh)
      | None => (f, false)
      end in
    if negb fresh
    then go (on_miner (ss_id s) (fun m => add_flood (count_rejected m 0)) (bump_rej f)) s [refuse mid 22 "Duplicate"]
    else take_share e auth now unix f s mid j hdr (ss_en1 s ++ en2) sia_t sia_n d pot.

(** [mining.submit]. *)
Definition on_submit (e : Endpoint) (auth : bool) (now unix : Z) (f : Front) (s : Session) (mid msg : Value) : Out :=
  match fr_miners f !! ss_id s with
  | None => stop f s
  | Some m =>
      let '(m, ok) := take_token m now in
      let m := if ok then m else add_flood m in
      let f := set_miners f (<[ss_id s := m]> (fr_miners f)) in
      if over_flood m then stop f s else
      if negb ok then go f s [refuse mid 25 "RateLimited"] else
      if bool_decide (ss_user s = ""%string) then go f s [refuse mid 24 "Unauthorized"] else
      let want := default ""%string (str_param 1 msg) in
      match job_wanted e f (ss_id s) want with
      | None => go (bump_miss f) s [refuse mid 21 "StaleJob"]
      | Some j =>
          if (job_outputs j <? 2)%nat || (params_len msg <? 5)%nat then go f s [refuse mid 21 "UnsplitJob"] else
          match hex_field (param 2 msg), hex_field (param 3 msg), hex_field (param 4 msg) with
          | Some en2, Some sia_t, Some sia_n => judge_share e auth now unix f s mid want j en2 sia_t sia_n
          | _, _, _ => go (on_miner (ss_id s) add_flood f) s [refuse mid 20 "BadParams"]
          end
      end
  end.

(** ** Names and jobs *)

(** [mining.authorize]; [None] is the panic of the handler's thread. *)
Definition on_authorize (e : Endpoint) (unix : Z) (f : Front) (s : Session) (mid msg : Value) : option Out :=
  let raw := default ""%string (str_param 0 msg) in
  match canon_identity raw with
  | Panic => None
  | Ret ident =>
      let swapped :=
        negb (bool_decide (ss_user s = ""%string)) && negb (bool_decide (canon (ss_user s) = ident))
        && match fr_overflow f with
           | Some ov => Overflow.considering ov && negb (Overflow.ident_grandfathered ocfg ov ident unix)
           | None => false
           end in
      let ok := payable_user sha256 raw && negb swapped in
      let s := if ok then with_user s raw else if negb swapped then with_user s "" else s in
      let answer := reply mid (Boolean ok) (if ok then Null else Arr [int 14; str "BadUsername"; Null]) in
      let f := on_miner (ss_id s) (fun m => with_names m (ss_user s) (ss_ua s) (if ok then ident else "")) f in
      if ok && bool_decide (en_mode e = SoloMode) then
        let f := on_miner (ss_id s) add_flood f in
        match solo_job_for sha256 (en_extra1 e) (en_fee_script e) (en_fee_bps e) (str_bytes ident) (fr_board f) with
        | (b, Some j) =>
            Some (go (on_miner (ss_id s) (fun m => push_job m j) (set_board f b)) s [answer; notify_line j])
        | (b, None) => Some (go (set_board f b) s [answer])
        end
      else Some (go f s [answer])
  end.

(** [mining.subscribe], once the gate has been passed or did not apply. *)
Definition on_subscribe (e : Endpoint) (f : Front) (s : Session) (mid : Value) : Out :=
  let d0 := match fr_miners f !! ss_id s with Some m => df_vdiff (mi_diff m) | None => en_vmin e end in
  let hello := reply mid (Arr [Arr [Arr [str "mining.notify"; str "lz"]]; str (hex_encode (ss_en1 s)); int 8]) Null in
  match (if bool_decide (en_mode e = Pooled) then bd_job (fr_board f) else None) with
  | Some j =>
      if (2 <=? job_outputs j)%nat
      then go (on_miner (ss_id s) (fun m => assign_job m (jb_id j)) f) s [hello; set_difficulty d0; notify_line j]
      else go f s [hello; set_difficulty d0]
  | None => go f s [hello; set_difficulty d0]
  end.

(** The line as the loop handles it. [gate] runs the overflow gate; what it gives back are the shared
    state and the lines it read, or nothing when the session was relayed. *)
Definition handle_msg (e : Endpoint) (auth : bool) (now unix : Z)
    (gate : Overflow.Overflow -> Overflow.Overflow * option (list (list Z)))
    (f : Front) (s : Session) (msg : Value) : option (Out * list (list Z)) :=
  let method := default ""%string (m ← get "method" msg; as_str m) in
  let mid := default Null (get "id" msg) in
  if bool_decide (method = "mining.subscribe"%string) then
    let s := match str_param 0 msg with Some u => with_agent s (clean_agent u) | None => s end in
    if negb (ss_gated s) && bool_decide (en_mode e = Pooled) then
      let s := with_gated s in
      match fr_overflow f with
      | Some ov =>
          if Overflow.considering ov then
            let f := set_miners f (delete (ss_id s) (fr_miners f)) in
            match gate ov with
            | (ov, None) => Some (stop (set_overflow f (Some ov)) s, [])
            | (ov, Some extra) =>
                let f := set_overflow f (Some ov) in
                let f := set_miners f (<[ss_id s := new_miner (en_vstart e) (en_pace e) now]> (fr_miners f)) in
                Some (on_subscribe e f s mid, extra)
            end
          else Some (on_subscribe e f s mid, [])
      | None => Some (on_subscribe e f s mid, [])
      end
    else Some (on_subscribe e f s mid, [])
  else if bool_decide (method = "mining.authorize"%string) then o ← on_authorize e unix f s mid msg; Some (o, [])
  else if bool_decide (method = "mining.submit"%string) then Some (on_submit e auth now unix f s mid msg, [])
  else if bool_decide (method = "mining.configure"%string)
  then Some (go f s [reply mid (Obj [("version-rolling"%string, Boolean false)]) Null], [])
  else Some (go f s [reply mid Null Null], []).

Context `{Json}.
Definition MAX_LINE : nat := 8192.

(** A line that is not JSON counts toward the flood budget. *)
Definition on_garbage (f : Front) (s : Session) : Out :=
  match fr_miners f !! ss_id s with
  | Some m => let m := add_flood m in
              let f := set_miners f (<[ss_id s := m]> (fr_miners f)) in
              if over_flood m then stop f s else go f s []
  | None => stop f s
  end.
Definition handle_line (e : Endpoint) (auth : bool) (now unix : Z)
    (gate : Overflow.Overflow -> Overflow.Overflow * option (list (list Z)))
    (f : Front) (s : Session) (line : list Z) : option (Out * list (list Z)) :=
  match from_str line with
  | None => Some (on_garbage f s, [])
  | Some msg => handle_msg e auth now unix gate f s msg
  end.
(** A line read off the socket: too long or unterminated ends the session. *)
Definition readable (line : list Z) : bool := (length line <=? MAX_LINE)%nat && Overflow.ends_line line.

(** ** The life of a connection *)

(** [handle_miner] up to its loop, on the slot the accept loop took. *)
Definition connect (e : Endpoint) (now : Z) (f : Front) (id : Z) (ip : IpAddr) : option (Front * Session) :=
  match Conns.try_acquire (fr_conns f) ip with
  | (_, false) => None
  | (c, true) =>
      let f := set_conns f c in
      Some (set_miners f (<[id := new_miner (en_vstart e) (en_pace e) now]> (fr_miners f)),
            {| ss_id := id; ss_ip := ip; ss_en1 := session_en1 (en_extra1 e) id; ss_user := ""; ss_ua := "";
               ss_gated := false; ss_noted_at := None |})
  end.
(** The guard of a session when it is dropped, after a panic too. *)
Definition disconnect (f : Front) (s : Session) : Front :=
  set_conns (set_miners f (delete (ss_id s) (fr_miners f))) (Conns.release (fr_conns f) (ss_ip s)).

(** [broadcast]: the sessions whose socket took the line are assigned the job. *)
Definition broadcast (ok : list Z) (job_id : string) (f : Front) : Front :=
  foldl (fun f id => on_miner id (fun m => assign_job m job_id) f) f ok.

(** [broadcast_solo]: one job per identity, for the sessions with a socket, given to those whose
    socket took it. *)
Definition solo_target (e : Endpoint) (has_sock writes : Z -> bool) (acc : Board * gmap string Job * list (Z * Job))
    (t : Z * string) : Board * gmap string Job * list (Z * Job) :=
  let '(b, built, sent) := acc in
  if negb (has_sock t.1) then acc else
  let '(b, built, job) :=
    match built !! t.2 with
    | Some j => (b, built, Some j)
    | None =>
        match solo_job_for sha256 (en_extra1 e) (en_fee_script e) (en_fee_bps e) (str_bytes t.2) b with
        | (b, Some j) => (b, <[t.2 := j]> built, Some j)
        | (b, None) => (b, built, None)
        end
    end in
  match job with
  | Some j => (b, built, if writes t.1 then sent ++ [(t.1, j)] else sent)
  | None => (b, built, sent)
  end.
Definition solo_targets (f : Front) : list (Z * string) :=
  map (fun im => (im.1, mi_ident im.2))
    (filter (fun im => negb (bool_decide (mi_ident im.2 = ""%string)) = true) (map_to_list (fr_miners f))).
Definition broadcast_solo (e : Endpoint) (has_sock writes : Z -> bool) (f : Front) : Front :=
  let '(b, _, sent) := foldl (solo_target e has_sock writes) (fr_board f, ∅, []) (solo_targets f) in
  foldl (fun f ij => on_miner ij.1 (fun m => push_job m ij.2) f) (set_board f b) sent.

(** [reap_silent]: the connections closed for never having authorized. *)
Definition silent (now : Z) (f : Front) : list Z :=
  map fst (filter (fun im => (bool_decide (mi_user im.2 = ""%string) && (AUTHORIZE_DEADLINE <? sat_sub now (mi_since im.2))) = true)
                  (map_to_list (fr_miners f))).
End Handling.
