(* ===== verification/StratumProps.v ===== *)
(** What the stratum front promises: connections are counted exactly and capped, what a miner can make
    the gateway hold is bounded, difficulty moves by bounded steps, a share is counted and forwarded
    only when its hash meets the difficulty its job went out at and is new to its connection, and a
    session let in under one name does not turn into another. *)

From Stdlib Require Import SpecFloat.
From S2P Require Import Prelude Bytes Text Handshake Pow State Overflow Protocol ProtocolProps Template TemplateProps Stratum.
Import Header Vardiff.
Open Scope Z_scope.

(** * Difficulty *)

Lemma clamp_range n lo hi : lo <= hi -> lo <= clamp n lo hi <= hi.
Proof. unfold clamp. lia. Qed.

Lemma pow2_clamp_range n floor cap : 1 <= floor <= cap -> floor <= pow2_clamp n floor cap <= cap.
Proof. intros H. unfold pow2_clamp. rewrite (Z.max_l floor 1), (Z.max_l cap floor) by lia. apply clamp_range. lia. Qed.

Definition power (n : Z) : Prop := exists k, 0 <= k <= 40 /\ n = 2 ^ k.

Lemma power_pos n : power n -> 1 <= n.
Proof. intros (k & Hk & ->). pose proof (Z.pow_pos_nonneg 2 k). lia. Qed.

(** A power of two that is not above a number is not above the greatest power that is not above it. *)
Lemma power_le_log2 a n : power a -> a <= n -> a <= 2 ^ Z.log2 n.
Proof.
  intros (k & Hk & ->) H. apply Z.pow_le_mono_r; [lia|]. rewrite <- (Z.log2_pow2 k) by lia. by apply Z.log2_le_mono.
Qed.

(** Between bounds that are powers of two, [pow2_clamp] rounds down to a power of two. *)
Lemma pow2_clamp_spec n floor cap : power floor -> power cap -> floor <= cap ->
  power (pow2_clamp n floor cap) /\ (forall a, power a -> floor <= a <= cap -> a <= n -> a <= pow2_clamp n floor cap) /\
  pow2_clamp n floor cap <= Z.max n floor.
Proof.
  intros Hf Hc Hle. pose proof (power_pos _ Hf) as H1. unfold pow2_clamp.
  rewrite (Z.max_l floor 1), (Z.max_l cap floor) by lia. set (m := clamp n floor cap).
  assert (Hm : floor <= m <= cap) by (apply clamp_range; lia). rewrite (Z.max_l m 1) by lia.
  pose proof (Z.log2_spec m ltac:(lia)) as [L1 L2]. pose proof (Z.log2_nonneg m).
  assert (Hlog : Z.log2 m <= 40).
  { destruct Hc as (k & Hk & Ec). rewrite <- (Z.log2_pow2 40) by lia. apply Z.log2_le_mono.
    transitivity cap; [lia|]. rewrite Ec. apply Z.pow_le_mono_r; lia. }
  rewrite (Z.min_l _ 40) by lia.
  assert (F : floor <= 2 ^ Z.log2 m) by (apply power_le_log2; [done | lia]).
  assert (E : clamp (2 ^ Z.log2 m) floor cap = 2 ^ Z.log2 m) by (unfold clamp; lia). rewrite E. conjs.
  - exists (Z.log2 m). lia.
  - intros a Ha Hb Hn. apply power_le_log2; [done|]. unfold m, clamp. lia.
  - unfold m, clamp in *. lia.
Qed.

Lemma pow2_clamp_id a floor cap : power floor -> power cap -> power a -> floor <= a <= cap -> pow2_clamp a floor cap = a.
Proof.
  intros Hf Hc Ha Hb. destruct (pow2_clamp_spec a floor cap Hf Hc ltac:(lia)) as (_ & H1 & H2).
  specialize (H1 a Ha Hb ltac:(lia)). lia.
Qed.

Lemma step_power step : 2 <= resolve_vardiff_step step <= 16 /\ power (resolve_vardiff_step step).
Proof.
  unfold resolve_vardiff_step. set (s := Z.min _ 16). assert (Hs : 2 <= s <= 16) by (unfold s; lia).
  assert (L : 1 <= Z.log2 s <= 4).
  { split; [change 1 with (Z.log2 2) | change 4 with (Z.log2 16)]; apply Z.log2_le_mono; lia. }
  split; [|exists (Z.log2 s); lia]. split.
  - change 2 with (2 ^ 1) at 1. apply Z.pow_le_mono_r; lia.
  - change 16 with (2 ^ 4). apply Z.pow_le_mono_r; lia.
Qed.

Lemma power_mul a b : power a -> power b -> a * b <= 2 ^ 40 -> power (a * b).
Proof.
  intros (k & Hk & ->) (l & Hl & ->) H. rewrite <- Z.pow_add_r in * by lia. exists (k + l). split; [|done]. split; [lia|].
  apply (Z.pow_le_mono_r_iff 2); lia.
Qed.

Lemma power_div a b : power a -> power b -> b <= a -> power (a / b) /\ a / b * b = a.
Proof.
  intros (k & Hk & ->) (l & Hl & ->) H. apply Z.pow_le_mono_r_iff in H; [|lia..].
  rewrite <- Z.pow_sub_r by lia. split; [exists (k - l); lia|]. rewrite <- Z.pow_add_r by lia. f_equal. lia.
Qed.



(** Bounds that are not powers of two give a difficulty that is not one: the share is then judged at
    the power below it and credited in full. *)
Lemma odd_floor_overcredits :
  pow2_clamp 1 3000 100000 = 3000 /\ target_for_pot (Z.log2 3000) = target_for_pot (Z.log2 2048).
Proof. vm_compute. done. Qed.

(** * What is kept of a miner is bounded *)

Record seen_ok (s : Seen) : Prop := {
  so_set : se_set s = list_to_set (se_order s);
  so_nodup : NoDup (se_order s);
  so_cap : (length (se_order s) <= SEEN_CAP)%nat
}.

Lemma forget_front_spec over : forall order (set : gset Hash), NoDup order -> set = list_to_set order ->
  forget_front over order set = (drop over order, list_to_set (drop over order)).
Proof.
  induction over as [|over IH]; intros order set Hn ->; [done|]. destruct order as [|h order]; [done|].
  cbn [forget_front drop]. inversion_clear Hn as [|? ? Hh Ho]. apply IH; [done|].
  apply set_eq. intros x. rewrite elem_of_difference, list_to_set_cons, elem_of_union, !elem_of_singleton, elem_of_list_to_set.
  split; [intros [[->|H] H']; done|]. intros H. split; [by right|]. intros ->. done.
Qed.

Lemma length_keep_last {A} cap (l : list A) : (length (keep_last cap l) <= cap)%nat.
Proof. unfold keep_last. rewrite length_drop. lia. Qed.

Lemma seen_cap_pos : (0 < SEEN_CAP)%nat.
Proof. apply Nat.ltb_lt. vm_compute. reflexivity. Qed.

#[local] Opaque SEEN_CAP RECENT_CAP.

Lemma note_share_spec m hash : seen_ok (mi_seen m) ->
  let '(m', fresh) := note_share m hash in
  (fresh = true <-> hash ∉ se_order (mi_seen m)) /\ (fresh = false -> m' = m) /\
  (fresh = true -> exists s, m' = with_seen m s /\ seen_ok s /\
     se_order s = drop (length (se_order (mi_seen m) ++ [hash]) - SEEN_CAP) (se_order (mi_seen m) ++ [hash])).
Proof.
  intros [Hs Hn Hc]. unfold note_share. case_bool_decide as Hin; rewrite Hs, elem_of_list_to_set in Hin.
  { split; [|split; done]. split; done. }
  assert (Hn' : NoDup (se_order (mi_seen m) ++ [hash])).
  { apply NoDup_app. conjs; [done | | apply NoDup_singleton]. intros x Hx ->%list_elem_of_singleton. done. }
  rewrite forget_front_spec; [|done|].
  - split; [split; done|]. split; [done|]. intros _. eexists. split; [done|]. split; [|done]. constructor; cbn [se_set se_order].
    + done.
    + set (k := (_ - _)%nat). rewrite <- (take_drop k (_ ++ _)) in Hn'. by apply NoDup_app in Hn' as (_ & _ & H).
    + rewrite length_drop. lia.
  - rewrite Hs, list_to_set_app_L. cbn [list_to_set]. set_solver.
Qed.

Section Bounds.
Context (e : Endpoint).

Record miner_ok (m : Miner) : Prop := {
  mo_seen : seen_ok (mi_seen m);
  mo_recent : (length (mi_recent m) <= RECENT_CAP)%nat;
  mo_diffs : (length (df_jobs (mi_diff m)) <= JOB_DIFFS)%nat;
  mo_jobs : (length (mi_jobs m) <= SOLO_JOBS)%nat;
  mo_vdiff : en_vmin e <= df_vdiff (mi_diff m) <= en_vmax e
}.
Definition endpoint_ok : Prop := 1 <= en_vmin e <= en_vmax e /\ en_vmin e <= en_vstart e <= en_vmax e.

Lemma new_miner_ok now : endpoint_ok -> miner_ok (new_miner (en_vstart e) (en_pace e) now).
Proof.
  intros [_ H]. unfold new_miner. constructor; cbn; [|lia|lia|lia|done].
  constructor; cbn; [done | constructor | lia].
Qed.

(** Changes that touch none of the bounded fields. *)
Lemma names_ok m u a i : miner_ok m -> miner_ok (with_names m u a i).
Proof. by intros [? ? ? ? ?]. Qed.
Lemma tally_ok m t : miner_ok m -> miner_ok (with_tally m t).
Proof. by intros [? ? ? ? ?]. Qed.
Lemma limits_ok m l : miner_ok m -> miner_ok (with_limits m l).
Proof. by intros [? ? ? ? ?]. Qed.
Lemma flood_ok m : miner_ok m -> miner_ok (add_flood m).
Proof. apply limits_ok. Qed.
Lemma rejected_ok m w : miner_ok m -> miner_ok (count_rejected m w).
Proof. apply tally_ok. Qed.

Lemma assign_ok m j : miner_ok m -> miner_ok (assign_job m j).
Proof. intros [? ? ? ? ?]. constructor; cbn; try done. apply length_keep_last. Qed.
Lemma push_ok m j : miner_ok m -> miner_ok (push_job m j).
Proof. intros H. destruct (assign_ok m (jb_id j) H). constructor; cbn; try done. apply length_keep_last. Qed.

Lemma record_ok m w now : miner_ok m -> miner_ok (record_share m w now).
Proof. intros [? ? ? ? ?]. constructor; cbn; try done. apply length_keep_last. Qed.

Lemma step_in_range current ideal step : 1 <= en_vmin e <= en_vmax e ->
  en_vmin e <= step_vardiff current ideal (en_vmin e) (en_vmax e) step <= en_vmax e.
Proof. intros H. unfold step_vardiff. repeat destr_if; by apply pow2_clamp_range. Qed.

Lemma retarget_ok log2_floor m now : endpoint_ok -> miner_ok m -> miner_ok (retarget log2_floor e m now).1.
Proof.
  intros [He _] [? ? ? ? ?]. unfold retarget. destruct (retarget_kind_at _ _ _) as [up|]; [|done].
  repeat destr_if; constructor; cbn; try done; by apply step_in_range.
Qed.

(** Applying the lemmas of this section, and looking through the bindings of pairs. *)
Create HintDb miner discriminated.
#[local] Hint Resolve new_miner_ok names_ok tally_ok limits_ok flood_ok rejected_ok assign_ok push_ok record_ok retarget_ok : miner.

Definition miners_ok (f : Front) : Prop := map_Forall (fun _ => miner_ok) (fr_miners f).

Lemma on_miner_ok id g f : (forall m, miner_ok m -> miner_ok (g m)) -> miners_ok f -> miners_ok (on_miner id g f).
Proof.
  intros Hg Hf i m. unfold on_miner. cbn [set_miners fr_miners]. rewrite lookup_alter. case_decide as Hd; [|apply Hf].
  intros (m0 & E & ->)%fmap_Some. apply Hg. by eapply Hf.
Qed.

Lemma insert_ok id m f : miner_ok m -> miners_ok f -> miners_ok (set_miners f (<[id := m]> (fr_miners f))).
Proof. intros Hm Hf. by apply map_Forall_insert_2. Qed.

Lemma delete_ok id f : miners_ok f -> miners_ok (set_miners f (delete id (fr_miners f))).
Proof. intros Hf. by apply map_Forall_delete. Qed.
End Bounds.

(** * What handling a line keeps *)

Section Handling.
Context (sha256 blake2b256 : list Z -> Hash) (hex_decode : string -> option (list Z)) (hex_encode : list Z -> string)
        (log2_floor : f64 -> Z) (ocfg : Overflow.OverflowCfg) (e : Endpoint).
Hypothesis endpoint_fine : endpoint_ok e.

(** The slots are nobody's business but the connection's, a session keeps its number and address, and
    what is held of the miners stays bounded. *)
Record keeps (f f' : Front) : Prop := {
  kp_conns : fr_conns f' = fr_conns f;
  kp_miners : miners_ok e f -> miners_ok e f'
}.
Definition same_session (s s' : Session) : Prop := ss_id s' = ss_id s /\ ss_ip s' = ss_ip s.
Definition out_keeps (f : Front) (s : Session) (o : Out) : Prop := keeps f (o_front o) /\ same_session s (o_session o).

#[local] Instance keeps_refl : Reflexive keeps.
Proof. intros f. by constructor. Qed.
#[local] Instance keeps_trans : Transitive keeps.
Proof. intros f g h [H1 H2] [H3 H4]. constructor; [congruence | tauto]. Qed.

Lemma on_miner_keeps id g f : (forall m, miner_ok e m -> miner_ok e (g m)) -> keeps f (on_miner id g f).
Proof. intros Hg. constructor; [done|]. intros Hf. by apply on_miner_ok. Qed.
(** A miner read, changed and put back. *)
Lemma put_back_keeps id m m' f : fr_miners f !! id = Some m -> (miner_ok e m -> miner_ok e m') ->
  keeps f (set_miners f (<[id := m']> (fr_miners f))).
Proof. intros Hm Hg. constructor; [done|]. intros Hf. apply insert_ok; [|done]. apply Hg. by eapply Hf. Qed.

Lemma maybe_submit_keeps auth now j hdr f : keeps f (maybe_submit_block sha256 blake2b256 e auth now j hdr f).1.
Proof.
  unfold maybe_submit_block. destruct auth; [|done]. cbn [negb]. case_bool_decide; [done|].
  by destruct (jb_who j).
Qed.

Lemma take_share_keeps auth now unix f s mid j hdr en12 sia_t sia_n work pot :
  out_keeps f s (take_share sha256 blake2b256 log2_floor e auth now unix f s mid j hdr en12 sia_t sia_n work pot).
Proof.
  unfold take_share. set (f1 := if bool_decide (en_mode e = SoloMode) then _ else bump_acc f).
  assert (K1 : keeps f f1) by (unfold f1; case_bool_decide; done). clearbody f1.
  destruct (match fr_overflow f1 with Some ov => _ | None => (f1, s) end) as [f2 s2] eqn:E2.
  assert (K2 : keeps f1 f2 /\ same_session s s2).
  { destruct (fr_overflow f1); [|injection E2 as <- <-; done].
    destruct (match ss_noted_at s with Some t => _ | None => true end); injection E2 as <- <-; done. }
  destruct K2 as [K2 S2].
  destruct (match fr_miners f2 !! ss_id s2 with Some m => _ | None => (f2, None) end) as [f3 changed] eqn:E3.
  assert (K3 : keeps f2 f3).
  { destruct (fr_miners f2 !! ss_id s2) as [m|] eqn:Em; [|injection E3 as <- <-; done].
    pose proof (retarget_ok e log2_floor (record_share m work now) now endpoint_fine) as R.
    destruct (retarget _ _ _ _) as [m' d]. injection E3 as <- <-. apply (put_back_keeps _ m); [done|].
    intros Hm. by apply R, record_ok. }
  set (f4 := set_queue f3 _). assert (K4 : keeps f3 f4) by done. clearbody f4.
  destruct (match bits_to_target _ with Some tgt => _ | None => (f4, []) end) as [f5 blocks] eqn:E5.
  assert (K5 : keeps f4 f5).
  { destruct (bits_to_target _); [|injection E5 as <- <-; done]. destr_if; [|injection E5 as <- <-; done].
    pose proof (maybe_submit_keeps auth unix j hdr f4) as M. by rewrite E5 in M. }
  split; [|exact S2]. cbn [o_front]. by etransitivity; [|etransitivity; [|etransitivity; [|etransitivity]]].
Qed.

Lemma judge_share_keeps auth now unix f s mid want j en2 sia_t sia_n :
  out_keeps f s (judge_share sha256 blake2b256 log2_floor e auth now unix f s mid want j en2 sia_t sia_n).
Proof.
  unfold judge_share. set (ok := Header.meets_target _ _). set (f1 := bump_pow ok f). assert (K1 : keeps f f1) by done. clearbody f1.
  destruct ok; cbn [negb].
  - destruct (match fr_miners f1 !! ss_id s with Some m => _ | None => (f1, false) end) as [f2 fresh] eqn:E2.
    assert (K2 : keeps f1 f2).
    { destruct (fr_miners f1 !! ss_id s) as [m|] eqn:Em; [|injection E2 as <- <-; done].
      set (h := pow_hash _ _ _) in E2.
      destruct (note_share m h) as [m' b] eqn:En. injection E2 as <- <-. apply (put_back_keeps _ m); [done|]. intros [? ? ? ? ?].
      pose proof (note_share_spec m h mo_seen0) as N. rewrite En in N. destruct N as (_ & Ns & Nf). destruct b.
      - destruct (Nf eq_refl) as (q & -> & Hq & _). by constructor.
      - rewrite (Ns eq_refl). by constructor. }
    destruct fresh; cbn [negb].
    + assert (G : keeps f f2) by (by etransitivity). clear K1 K2. generalize dependent f2. intros f2 _ G.
      destruct (take_share_keeps auth now unix f2 s mid j (share_header j (ss_en1 s) en2 sia_t sia_n) (ss_en1 s ++ en2) sia_t sia_n
                  (Z.max (accept_diff e f (ss_id s) want now) 1) (Z.log2 (Z.max (accept_diff e f (ss_id s) want now) 1))) as [T1 T2].
      split; [by etransitivity | done].
    + split; [|done]. cbn [go o_front]. etransitivity; [etransitivity; [exact K1 | exact K2]|].
      etransitivity; [|apply on_miner_keeps; intros m Hm; by apply flood_ok, rejected_ok]. done.
  - destruct (match fr_miners f1 !! ss_id s with Some m => _ | None => (f1, true) end) as [f2 over] eqn:E2.
    assert (K2 : keeps f1 f2).
    { destruct (fr_miners f1 !! ss_id s) as [m|] eqn:Em; [|injection E2 as <- <-; done].
      unfold note_low in E2. injection E2 as <- <-. apply (put_back_keeps _ m); [done|]. by apply limits_ok. }
    assert (G : keeps f f2) by (by etransitivity). clear E2.
    destruct over; [split; done|]. case_bool_decide; split; try done. cbn [go o_front].
    etransitivity; [exact G|]. etransitivity; [|apply on_miner_keeps; intros m Hm; by apply rejected_ok]. done.
Qed.

Lemma on_submit_keeps auth now unix f s mid msg :
  out_keeps f s (on_submit sha256 blake2b256 hex_decode log2_floor e auth now unix f s mid msg).
Proof.
  unfold on_submit. destruct (fr_miners f !! ss_id s) as [m|] eqn:Em; [|split; done].
  destruct (take_token m now) as [m1 ok] eqn:Et. set (m2 := if ok then m1 else add_flood m1).
  set (f1 := set_miners f _). assert (K1 : keeps f f1).
  { apply (put_back_keeps _ m); [done|]. intros Hm. unfold take_token in Et. injection Et as <- <-. unfold m2.
    destr_if; [|apply flood_ok]; by apply limits_ok. }
  assert (G : forall l, out_keeps f s (go f1 s l)) by (intros l; by split).
  destr_if; [by split|]. destr_if; [apply G|]. case_bool_decide; [apply G|].
  destruct (job_wanted _ _ _ _) as [j|]; [|split; [by etransitivity; [exact K1|] | done]]. destr_if; [apply G|].
  destruct (hex_field hex_decode (param 2 msg)), (hex_field hex_decode (param 3 msg)), (hex_field hex_decode (param 4 msg));
    try (split; [cbn [go o_front]; etransitivity; [exact K1|]; apply on_miner_keeps; intros; by apply flood_ok | done]).
  match goal with |- out_keeps _ _ (judge_share ?a ?b ?c ?e ?au ?n ?u ?f ?s ?mi ?w ?j ?x ?y ?z) =>
    destruct (judge_share_keeps au n u f s mi w j x y z) as [J1 J2] end.
  split; [by etransitivity | done].
Qed.

Lemma on_authorize_keeps unix f s mid msg o :
  on_authorize sha256 hex_encode ocfg e unix f s mid msg = Some o -> out_keeps f s o.
Proof.
  unfold on_authorize. destruct (canon_identity _) as [ident|]; [|done].
  set (swapped := negb _ && _ && _). set (ok := payable_user _ _ && _).
  set (s1 := if ok then _ else _). assert (S1 : same_session s s1) by (unfold s1; destruct ok; [done|]; by destruct swapped).
  clearbody s1 swapped. set (f1 := on_miner (ss_id s1) _ f).
  assert (K1 : keeps f f1) by (apply on_miner_keeps; intros; by apply names_ok). clearbody f1.
  destr_if; [|by intros [= <-]].
  assert (K2 : keeps f1 (on_miner (ss_id s1) add_flood f1)) by (apply on_miner_keeps; intros; by apply flood_ok).
  set (f2 := on_miner (ss_id s1) add_flood f1) in *. clearbody f2.
  destruct (solo_job_for _ _ _ _ _ _) as [b [j|]]; intros [= <-]; (split; [|done]); cbn [go o_front].
  - etransitivity; [exact K1|]. etransitivity; [exact K2|]. etransitivity; [|apply on_miner_keeps; intros; by apply push_ok]. done.
  - etransitivity; [exact K1|]. by etransitivity.
Qed.

Lemma on_subscribe_keeps f s mid : out_keeps f s (on_subscribe sha256 hex_encode e f s mid) /\ o_flow (on_subscribe sha256 hex_encode e f s mid) = Go.
Proof.
  unfold on_subscribe. destruct (if bool_decide _ then _ else _) as [j|]; [|done]. destr_if; [|done].
  split; [|done]. split; [|done]. apply on_miner_keeps. intros. by apply assign_ok.
Qed.

Context `{Json}.
Lemma handle_line_keeps auth now unix gate f s line o extra :
  handle_line sha256 blake2b256 hex_decode hex_encode log2_floor ocfg e auth now unix gate f s line = Some (o, extra) ->
  out_keeps f s o.
Proof.
  unfold handle_line. destruct (from_str line) as [msg|].
  2: { unfold on_garbage. intros [= <- _]. destruct (fr_miners f !! ss_id s) as [m|] eqn:Em; [|done].
       assert (K : keeps f (set_miners f (<[ss_id s := add_flood m]> (fr_miners f)))) by (apply (put_back_keeps _ m); [done | apply flood_ok]).
       by destr_if. }
  unfold handle_msg. set (mid := default Null _). case_bool_decide.
  { set (s1 := match str_param 0 msg with Some u => _ | None => s end). assert (S1 : same_session s s1) by (unfold s1; by destruct (str_param 0 msg)).
    clearbody s1. assert (P : forall f' s', keeps f f' -> same_session s1 s' -> out_keeps f s (on_subscribe sha256 hex_encode e f' s' mid)).
    { intros f' s' K S. destruct (on_subscribe_keeps f' s' mid) as [[K' S'] _]. split; [by etransitivity|].
      unfold same_session in *. intuition congruence. }
    destr_if; [|intros [= <- _]; by apply P].
    destruct (fr_overflow f) as [ov|]; [|intros [= <- _]; by apply P].
    destr_if; [|intros [= <- _]; by apply P].
    destruct (gate ov) as [ov' [ex|]]; intros [= <- _].
    - apply P; [|done]. constructor; [done|]. intros Hf. apply insert_ok; [by apply new_miner_ok|]. by apply delete_ok.
    - split; [|done]. constructor; [done|]. intros Hf. by apply delete_ok. }
  case_bool_decide.
  { destruct (on_authorize _ _ _ _ _ _ _ _ _) as [o'|] eqn:Ea; [|done]. intros [= <- _]. by eapply on_authorize_keeps. }
  case_bool_decide; [intros [= <- _]; apply on_submit_keeps|].
  case_bool_decide; by intros [= <- _].
Qed.
End Handling.

(** * Connections *)

Definition count_ip (ip : IpAddr) (ss : list Session) : nat := length (filter (fun s => ss_ip s = ip) ss).

(** The table of slots says what is open, address by address. *)
Record conns_ok (c : Conns.Conns) (ss : list Session) : Prop := {
  co_total : Conns.total c = Z.of_nat (length ss);
  co_ips : forall ip, Conns.per_ip c !! ip = if (count_ip ip ss =? 0)%nat then None else Some (Z.of_nat (count_ip ip ss));
  co_cap : Conns.total c <= Conns.MAX_CONNS;
  co_cap_ip : forall ip, Z.of_nat (count_ip ip ss) <= Conns.MAX_CONNS_PER_IP
}.

Lemma count_ip_cons ip s ss : count_ip ip (s :: ss) = ((if decide (ss_ip s = ip) then 1 else 0) + count_ip ip ss)%nat.
Proof. unfold count_ip. rewrite filter_cons. by case_decide. Qed.

Lemma count_ip_perm ip ss ss' : ss ≡ₚ ss' -> count_ip ip ss = count_ip ip ss'.
Proof. intros H. unfold count_ip. by rewrite H. Qed.

Lemma conns_perm c ss ss' : ss ≡ₚ ss' -> conns_ok c ss -> conns_ok c ss'.
Proof.
  intros H [H1 H2 H3 H4]. constructor; [by rewrite <- H | | done |]; intros ip; rewrite <- (count_ip_perm ip _ _ H); done.
Qed.

(** A table with the same addresses is as good. *)
Lemma conns_same_ips c s s' ss : ss_ip s' = ss_ip s -> conns_ok c (s :: ss) -> conns_ok c (s' :: ss).
Proof.
  intros E [H1 H2 H3 H4]. constructor; [done | | done |]; intros ip; [rewrite H2 | specialize (H4 ip); revert H4]; rewrite !count_ip_cons, E; done.
Qed.

Lemma acquire_ok c c' s ss : conns_ok c ss -> Conns.try_acquire c (ss_ip s) = (c', true) -> conns_ok c' (s :: ss).
Proof.
  intros [H1 H2 H3 H4]. unfold Conns.try_acquire. rewrite H2.
  set (n := count_ip (ss_ip s) ss). assert (D : default 0 (if (n =? 0)%nat then None else Some (Z.of_nat n)) = Z.of_nat n).
  { destruct n; done. }
  rewrite D. destr_if; [done|]. intros [= <-]. bools. constructor; cbn [Conns.total Conns.per_ip length].
  - lia.
  - intros ip. rewrite count_ip_cons. destruct (decide (ss_ip s = ip)) as [<-|Hn].
    + rewrite lookup_insert_eq. fold n. cbn [Nat.add Nat.eqb]. f_equal. lia.
    + rewrite lookup_insert_ne by done. apply H2.
  - lia.
  - intros ip. rewrite count_ip_cons. destruct (decide (ss_ip s = ip)) as [<-|Hn]; [fold n; lia | apply H4].
Qed.

Lemma slot_release_ok c s ss : conns_ok c (s :: ss) -> conns_ok (Conns.release c (ss_ip s)) ss.
Proof.
  intros [H1 H2 H3 H4]. pose proof (H2 (ss_ip s)) as Hs. pose proof (H4 (ss_ip s)) as Hc.
  rewrite count_ip_cons, decide_True in Hs, Hc by done. cbn [Nat.add Nat.eqb] in Hs. set (n := count_ip (ss_ip s) ss) in *.
  cbn [length] in H1. unfold Conns.MAX_CONNS, Conns.MAX_CONNS_PER_IP in *.
  assert (P : forall ip, Conns.per_ip (Conns.release c (ss_ip s)) !! ip = if (count_ip ip ss =? 0)%nat then None else Some (Z.of_nat (count_ip ip ss))).
  { intros ip. unfold Conns.release. cbn [Conns.per_ip]. rewrite Hs.
    replace (trunc u64_max (Z.of_nat (S n) - 1)) with (Z.of_nat n) by (unfold trunc; rewrite Z.mod_small; lia).
    specialize (H2 ip). rewrite count_ip_cons in H2. destruct (decide (ss_ip s = ip)) as [<-|Hn].
    - fold n. destruct (Nat.eqb_spec n 0) as [Hz|Hz]; [rewrite (proj2 (Z.eqb_eq (Z.of_nat n) 0)) by lia; by rewrite lookup_delete_eq|].
      rewrite (proj2 (Z.eqb_neq (Z.of_nat n) 0)) by lia. by rewrite lookup_insert_eq.
    - destr_if; [rewrite lookup_delete_ne by done | rewrite lookup_insert_ne by done]; exact H2. }
  constructor; [| exact P | |].
  - unfold Conns.release, sat_sub. cbn. lia.
  - unfold Conns.release, sat_sub, Conns.MAX_CONNS. cbn. lia.
  - intros ip. specialize (H4 ip). rewrite count_ip_cons in H4. unfold Conns.MAX_CONNS_PER_IP. case_decide; lia.
Qed.

Section Life.
Context (sha256 blake2b256 : list Z -> Hash) (hex_decode : string -> option (list Z)) (hex_encode : list Z -> string)
        (log2_floor : f64 -> Z) (ocfg : Overflow.OverflowCfg) (e : Endpoint) `{Json}.

(** What happens at the front: a connection is taken, one of its lines is handled, it ends — by a line
    that ends it, by a panic or by hanging up — a job goes out to sockets that take it, and everything
    that touches neither the slots nor the miners. *)
Inductive front_step : Front * list Session -> Front * list Session -> Prop :=
| connect_step now id ip f ss f' s : connect e now f id ip = Some (f', s) -> front_step (f, ss) (f', s :: ss)
| line_step auth now unix gate f s ss line o extra :
    handle_line sha256 blake2b256 hex_decode hex_encode log2_floor ocfg e auth now unix gate f s line = Some (o, extra) ->
    o_flow o = Go -> front_step (f, s :: ss) (o_front o, o_session o :: ss)
| last_line_step auth now unix gate f s ss line o extra :
    handle_line sha256 blake2b256 hex_decode hex_encode log2_floor ocfg e auth now unix gate f s line = Some (o, extra) ->
    o_flow o = Stop -> front_step (f, s :: ss) (disconnect (o_front o) (o_session o), ss)
| hangup_step f s ss : front_step (f, s :: ss) (disconnect f s, ss)
| reorder_step f ss ss' : ss ≡ₚ ss' -> front_step (f, ss) (f, ss')
| broadcast_step ok job_id f ss : front_step (f, ss) (broadcast ok job_id f, ss)
| solo_broadcast_step has_sock writes f ss : front_step (f, ss) (broadcast_solo sha256 e has_sock writes f, ss)
| elsewhere_step f f' ss : fr_conns f' = fr_conns f -> fr_miners f' = fr_miners f -> front_step (f, ss) (f', ss).

Definition front_ok (fs : Front * list Session) : Prop := conns_ok (fr_conns fs.1) fs.2 /\ miners_ok e fs.1.
Hypothesis endpoint_fine : endpoint_ok e.

Lemma disconnect_ok f s ss : front_ok (f, s :: ss) -> front_ok (disconnect f s, ss).
Proof. intros [Hc Hm]. split; [by apply slot_release_ok | by apply delete_ok]. Qed.

Lemma handled_ok auth now unix gate f s ss line o extra : front_ok (f, s :: ss) ->
  handle_line sha256 blake2b256 hex_decode hex_encode log2_floor ocfg e auth now unix gate f s line = Some (o, extra) ->
  front_ok (o_front o, o_session o :: ss).
Proof.
  intros [Hc Hm] Hh. apply handle_line_keeps in Hh as [[Kc Km] [Si Sp]]; [|done]. split; cbn [fst snd] in *; [|by apply Km].
  rewrite Kc. by apply (conns_same_ips _ s).
Qed.

Lemma on_miners_ok {A} (g : A -> Z * (Miner -> Miner)) (l : list A) f : (forall a m, miner_ok e m -> miner_ok e ((g a).2 m)) ->
  miners_ok e f -> miners_ok e (foldl (fun f a => on_miner (g a).1 (g a).2 f) f l) /\
  fr_conns (foldl (fun f a => on_miner (g a).1 (g a).2 f) f l) = fr_conns f.
Proof.
  intros Hg. revert f. induction l as [|a l IH]; intros f Hf; [done|]. cbn [foldl].
  destruct (IH (on_miner (g a).1 (g a).2 f)) as [I1 I2]; [by apply on_miner_ok; [apply Hg|]|]. by rewrite I2.
Qed.

End Life.

(** * A share is taken only when it is proven and new *)

Section Shares.
Context (sha256 blake2b256 : list Z -> Hash) (hex_decode : string -> option (list Z)) (hex_encode : list Z -> string)
        (log2_floor : f64 -> Z) (e : Endpoint).

(** Nothing was counted, credited, forwarded or submitted. *)
Definition nothing_taken (f : Front) (o : Out) : Prop :=
  ct_acc (fr_counters (o_front o)) = ct_acc (fr_counters f) /\ fr_queue (o_front o) = fr_queue f /\
  fr_solo (o_front o) = fr_solo f /\ fr_submitted (o_front o) = fr_submitted f /\ fr_board (o_front o) = fr_board f /\
  o_blocks o = [].

Definition solves (hdr : HeaderV2) (hash : Hash) : bool :=
  match bits_to_target (hd_bits hdr) with Some tgt => Header.meets_target hash tgt | None => false end.

(** What a share that is taken comes to: one more accepted, the work credited to the miner, one body
    for Prime, and the block when it solves one that was not submitted before. *)
Record taken (auth : bool) (f : Front) (s : Session) (m : Miner) (j : Job) (hdr : HeaderV2)
    (en12 sia_t sia_n : list Z) (work pot : Z) (mid : Value) (o : Out) : Prop := {
  tk_acc : ct_acc (fr_counters (o_front o)) = trunc u64_max (ct_acc (fr_counters f) + 1);
  tk_queue : fr_queue (o_front o) = send_prime (fr_queue f) (submit_of j hdr (ss_user s) pot en12 sia_t sia_n);
  tk_miner : exists m', fr_miners (o_front o) !! ss_id s = Some m' /\
    ta_acc (mi_tally m') = sat_add u64_max (ta_acc (mi_tally m)) work /\ mi_seen m' = mi_seen m /\ mi_jobs m' = mi_jobs m /\
    df_jobs (mi_diff m') = df_jobs (mi_diff m);
  tk_block : o_blocks o = if solves (jb_header j) (pow_hash sha256 blake2b256 hdr) && auth
                             && negb (bool_decide (pow_hash sha256 blake2b256 hdr ∈ fr_submitted f))
                          then [assemble_block (en_extra1 e) j hdr] else [];
  tk_answer : last (o_lines o) = Some (accept mid);
  tk_go : o_flow o = Go
}.

Lemma maybe_submit_spec auth now j hdr f :
  let r := maybe_submit_block sha256 blake2b256 e auth now j hdr f in
  r.2 = (if auth && negb (bool_decide (pow_hash sha256 blake2b256 hdr ∈ fr_submitted f))
         then [assemble_block (en_extra1 e) j hdr] else []) /\
  fr_counters r.1 = fr_counters f /\ fr_queue r.1 = fr_queue f /\ fr_miners r.1 = fr_miners f.
Proof.
  unfold maybe_submit_block. destruct auth; cbn [negb andb]; [|done].
  case_bool_decide; [done|]. cbn [negb]. by destruct (jb_who j).
Qed.

Lemma retarget_keeps m now : let m' := (retarget log2_floor e m now).1 in
  mi_tally m' = mi_tally m /\ mi_seen m' = mi_seen m /\ mi_jobs m' = mi_jobs m /\ df_jobs (mi_diff m') = df_jobs (mi_diff m).
Proof. unfold retarget. destruct (retarget_kind_at _ _ _); [|done]. by repeat destr_if. Qed.

Lemma take_share_spec auth now unix f s mid j hdr en12 sia_t sia_n work pot m :
  fr_miners f !! ss_id s = Some m ->
  taken auth f s m j hdr en12 sia_t sia_n work pot mid
    (take_share sha256 blake2b256 log2_floor e auth now unix f s mid j hdr en12 sia_t sia_n work pot).
Proof.
  intros Hm. unfold take_share. set (f1 := if bool_decide (en_mode e = SoloMode) then _ else bump_acc f).
  assert (A1 : fr_counters f1 = fr_counters (bump_acc f) /\ fr_queue f1 = fr_queue f /\ fr_miners f1 = fr_miners f /\
               fr_submitted f1 = fr_submitted f) by (unfold f1; case_bool_decide; done).
  clearbody f1. destruct A1 as (C1 & Q1 & M1 & S1).
  destruct (match fr_overflow f1 with Some ov => _ | None => (f1, s) end) as [f2 s2] eqn:E2.
  assert (A2 : fr_counters f2 = fr_counters f1 /\ fr_queue f2 = fr_queue f1 /\ fr_miners f2 = fr_miners f1 /\
               fr_submitted f2 = fr_submitted f1 /\ ss_id s2 = ss_id s /\ ss_user s2 = ss_user s).
  { destruct (fr_overflow f1); [|injection E2 as <- <-; done].
    destruct (match ss_noted_at s with Some t => _ | None => true end); injection E2 as <- <-; done. }
  destruct A2 as (C2 & Q2 & M2 & S2 & I2 & U2). clear E2.
  rewrite M2, M1, I2, Hm. pose proof (retarget_keeps (record_share m work now) now) as R.
  destruct (retarget _ _ _ _) as [m' changed]. cbn [fst] in R. destruct R as (R1 & R2 & R3 & R4).
  set (f3 := set_queue _ _).
  assert (A3 : fr_counters f3 = fr_counters f1 /\ fr_submitted f3 = fr_submitted f /\ fr_miners f3 !! ss_id s = Some m' /\
               fr_queue f3 = send_prime (fr_queue f) (submit_of j hdr (ss_user s) pot en12 sia_t sia_n)).
  { unfold f3. cbn [set_queue set_miners fr_counters fr_submitted fr_miners fr_queue]. rewrite U2, Q2, Q1, C2, S2, S1.
    conjs; try done. apply lookup_insert_eq. }
  clearbody f3. destruct A3 as (C3 & S3 & M3 & Q3).
  destruct (match bits_to_target _ with Some tgt => _ | None => (f3, []) end) as [f4 blocks] eqn:E4.
  assert (A4 : fr_counters f4 = fr_counters f3 /\ fr_queue f4 = fr_queue f3 /\ fr_miners f4 = fr_miners f3 /\
     blocks = if solves (jb_header j) (pow_hash sha256 blake2b256 hdr) && auth
                 && negb (bool_decide (pow_hash sha256 blake2b256 hdr ∈ fr_submitted f))
              then [assemble_block (en_extra1 e) j hdr] else []).
  { unfold solves. destruct (bits_to_target _) as [tgt|]; [|injection E4 as <- <-; done].
    destruct (Header.meets_target _ tgt); [|injection E4 as <- <-; done].
    pose proof (maybe_submit_spec auth unix j hdr f3) as M. rewrite E4, S3 in M. cbn [fst snd andb] in *.
    destruct M as (-> & -> & -> & ->). done. }
  destruct A4 as (C4 & Q4 & M4 & ->). constructor; cbn [o_front o_session o_lines o_blocks o_flow].
  - by rewrite C4, C3, C1.
  - by rewrite Q4, Q3.
  - exists m'. rewrite M4, M3, R1, R2, R3, R4. done.
  - done.
  - apply last_snoc.
  - done.
Qed.

(** What a submitted share is judged on. *)
Definition proven (f : Front) (s : Session) (now : Z) (msg : Value) (m : Miner) (j : Job) (en2 sia_t sia_n : list Z) : Prop :=
  let want := default ""%string (str_param 1 msg) in
  let hash := pow_hash sha256 blake2b256 (share_header j (ss_en1 s) en2 sia_t sia_n) in
  fr_miners f !! ss_id s = Some m /\ ss_user s <> ""%string /\ job_wanted e f (ss_id s) want = Some j /\ (2 <= job_outputs j)%nat /\
  hex_field hex_decode (param 2 msg) = Some en2 /\ hex_field hex_decode (param 3 msg) = Some sia_t /\
  hex_field hex_decode (param 4 msg) = Some sia_n /\
  Header.meets_target hash (target_for_pot (Z.log2 (Z.max (accept_diff e f (ss_id s) want now) 1))) = true /\
  hash ∉ se_order (mi_seen m).

Lemma wanted_put_back f id m l want :
  fr_miners f !! id = Some m -> let f' := set_miners f (<[id := with_limits m l]> (fr_miners f)) in
  job_wanted e f' id want = job_wanted e f id want /\ forall now, accept_diff e f' id want now = accept_diff e f id want now.
Proof.
  intros Hm f'. unfold job_wanted, accept_diff, f'. cbn [set_miners fr_miners fr_board]. rewrite lookup_insert_eq, Hm. done.
Qed.

Lemma new_hash_remembered m hash s : se_order s = drop (length (se_order (mi_seen m) ++ [hash]) - SEEN_CAP) (se_order (mi_seen m) ++ [hash]) ->
  hash ∈ se_order s.
Proof.
  intros ->. rewrite length_app. cbn [length]. pose proof seen_cap_pos.
  rewrite drop_app_le by lia. apply elem_of_app. right. by left.
Qed.

(** Judging, on a front whose miner is known. *)
Lemma judge_share_spec auth now unix f s mid want j en2 sia_t sia_n m :
  fr_miners f !! ss_id s = Some m -> seen_ok (mi_seen m) ->
  let o := judge_share sha256 blake2b256 log2_floor e auth now unix f s mid want j en2 sia_t sia_n in
  let hdr := share_header j (ss_en1 s) en2 sia_t sia_n in
  let hash := pow_hash sha256 blake2b256 hdr in
  let d := Z.max (accept_diff e f (ss_id s) want now) 1 in
  nothing_taken f o \/
  Header.meets_target hash (target_for_pot (Z.log2 d)) = true /\ hash ∉ se_order (mi_seen m) /\
  exists f' m', taken auth f' s m' j hdr (ss_en1 s ++ en2) sia_t sia_n d (Z.log2 d) mid o /\
    ct_acc (fr_counters f') = ct_acc (fr_counters f) /\ fr_queue f' = fr_queue f /\ fr_submitted f' = fr_submitted f /\
    mi_tally m' = mi_tally m /\ hash ∈ se_order (mi_seen m').
Proof.
  intros Hm Hseen. cbv zeta. unfold judge_share. set (d := Z.max (accept_diff e f (ss_id s) want now) 1).
  set (hdr := share_header j (ss_en1 s) en2 sia_t sia_n). set (hash := pow_hash sha256 blake2b256 hdr).
  cbn [bump_pow set_counters fr_miners]. rewrite Hm. destruct (Header.meets_target hash (target_for_pot (Z.log2 d))) eqn:Eok; cbn [negb].
  - pose proof (note_share_spec m hash Hseen) as N. destruct (note_share m hash) as [m1 [|]]; cbn [negb].
    2: { left. unfold nothing_taken. done. }
    right. destruct N as (N1 & _ & N2). destruct (N2 eq_refl) as (q & -> & _ & Hq).
    split; [done|]. split; [by apply N1|]. eexists _, (with_seen m q). split; [apply take_share_spec; apply lookup_insert_eq|].
    conjs; try done. cbn [with_seen mi_seen]. by eapply new_hash_remembered.
  - left. unfold note_low. cbv zeta beta iota. destr_if; [done|]. case_bool_decide; done.
Qed.

End Shares.

(** * A session keeps the name it was let in under *)

(** While new miners are being relayed, a session that has a name ends an authorize with no name, with
    the same identity, or with one that has proved work here; and a name it takes is one that can be
    paid. *)
Theorem names_do_not_swap sha256 hex_encode ocfg e unix f s mid msg o ov :
  on_authorize sha256 hex_encode ocfg e unix f s mid msg = Some o ->
  fr_overflow f = Some ov -> Overflow.considering ov = true -> ss_user s <> ""%string ->
  let user := ss_user (o_session o) in
  (user = ""%string \/ canon user = canon (ss_user s) \/ Overflow.ident_grandfathered ocfg ov (canon user) unix = true) /\
  (user = ""%string \/ user = ss_user s \/ payable_user sha256 user = true).
Proof.
  intros Ha Hov Hc Hu. cbv zeta. unfold on_authorize in Ha. set (raw := default ""%string (str_param 0 msg)) in *.
  destruct (canon_identity raw) as [ident|] eqn:Ei; [|done]. rewrite Hov, Hc in Ha. cbn [andb] in Ha.
  rewrite (bool_decide_eq_false_2 (ss_user s = _)) in Ha by done. cbn [negb andb] in Ha.
  assert (Ec : canon raw = ident) by (unfold canon; by rewrite Ei).
  set (swapped := negb (bool_decide (canon (ss_user s) = ident)) && negb (Overflow.ident_grandfathered ocfg ov ident unix)) in *.
  set (ok := payable_user sha256 raw && negb swapped) in *.
  set (s1 := if ok then with_user s raw else if negb swapped then with_user s "" else s) in *.
  assert (Eo : ss_user (o_session o) = ss_user s1).
  { destr_if_in Ha; [|by injection Ha as <-]. destruct (solo_job_for _ _ _ _ _ _) as [b [j|]]; by injection Ha as <-. }
  rewrite Eo. unfold s1. destruct ok eqn:Eok; [|destruct swapped; cbn [negb with_user ss_user]; tauto].
  cbn [with_user ss_user]. unfold ok in Eok. apply andb_true_iff in Eok as [Hp Hs]. rewrite Ec. split; [|by right; right].
  unfold swapped in Hs. apply negb_true_iff, andb_false_iff in Hs as [Hs|Hs]; apply negb_false_iff in Hs.
  - apply bool_decide_eq_true in Hs. right; left. done.
  - by right; right.
Qed.

(** A name whose fourth byte is inside a character ends the connection's thread in a panic. *)
Definition euro_name : string := bytes_str [97; 98; 0xE2; 0x82; 0xAC; 99; 100].
Lemma a_name_can_panic sha256 hex_encode ocfg e unix f s mid :
  on_authorize sha256 hex_encode ocfg e unix f s mid (Obj [("params"%string, Arr [Str euro_name])]) = None.
Proof. reflexivity. Qed.

(** * A session *)

Module StratumDemo.

Definition blake (l : list Z) : list Z := replicate 8 0 ++ replicate 24 (Z.land (zsum l) 255).
Definition log2 (f : f64) : Z := match f with S754_finite false m e => Z.log2 (Zpos m) + e | _ => 0 end.
Definition e : Endpoint :=
  endpoint Pooled VerifyEnforce 4096 None (Some 16777216) (Some 2) None TemplateDemo.extra1 [] 0.
Definition ip : IpAddr := V4 [203; 0; 113; 9].
Definition valve : Overflow.Overflow :=
  Overflow.overflow_new {| Overflow.cfg_mode := "force"; Overflow.enter_pct := f64_of 40; Overflow.exit_pct := f64_of 35;
    Overflow.hold_polls := 3; Overflow.grandfather_hours := 24; Overflow.upstream_names := [] |} None.
Definition cfg : Overflow.OverflowCfg :=
  {| Overflow.cfg_mode := "force"; Overflow.enter_pct := f64_of 40; Overflow.exit_pct := f64_of 35;
     Overflow.hold_polls := 3; Overflow.grandfather_hours := 24; Overflow.upstream_names := [] |}.
(** A pooled front with the job of [TemplateDemo] out. *)
Definition front (b : Board) : Front :=
  {| fr_conns := Conns.no_conns; fr_miners := ∅; fr_board := b;
     fr_counters := {| ct_acc := 0; ct_rej := 0; ct_pow_ok := 0; ct_pow_bad := 0; ct_job_miss := 0 |};
     fr_queue := {| q_open := true; q_bodies := []; q_depth := 0; q_dropped := 0 |};
     fr_submitted := ∅; fr_solo := empty_book; fr_overflow := Some valve |}.
Definition line (l : list Z) : list Z := l ++ [10].
Definition share (nonce : string) : Value :=
  Obj [("id"%string, int 4); ("method"%string, str "mining.submit");
       ("params"%string, Arr [str "w"; str (job_id_str TemplateDemo.extra1 0); str "0200000000000000"; str "0000000000000000"; str nonce])].
(** Three lines: what is left to say of a connection is who it is and what it found. *)
#[export] Instance json : Json := {
  from_str l := match l with
    | [48; 10] => Some (Obj [("id"%string, int 1); ("method"%string, str "mining.subscribe"); ("params"%string, Arr [str "rig"])])
    | [49; 10] => Some (Obj [("id"%string, int 2); ("method"%string, str "mining.authorize");
                             ("params"%string, Arr [Str (bytes_str TemplateDemo.ident)])])
    | [50; 10] => Some (share "0100000000000000")
    | _ => None end;
  to_text := fun _ => ""%string }.
Definition gate (ov : Overflow.Overflow) : Overflow.Overflow * option (list (list Z)) := (ov, Some []).
Definition said (now : Z) (l : list Z) (fs : Front * Session) : option (Out * list (list Z)) :=
  handle_line TemplateDemo.sha blake TemplateDemo.from_hex TemplateDemo.to_hex log2 cfg e true now 1760000000 gate fs.1 fs.2 l.
Definition next (r : option (Out * list (list Z))) : option (Front * Session) :=
  match r with Some (o, _) => Some (o_front o, o_session o) | None => None end.
Definition joined : option (Front * Session) := connect e 0 (front TemplateDemo.pooled.1) 1 ip.
Definition subscribed : option (Front * Session) := fs ← joined; next (said 1000 [48; 10] fs).
Definition named : option (Front * Session) := fs ← subscribed; next (said 2000 [49; 10] fs).

Definition flows : option (Flow * Flow) :=
  fs ← joined; '(o2, _) ← said 1000 [48; 10] fs; '(o3, _) ← said 2000 [49; 10] (o_front o2, o_session o2);
  Some (o_flow o2, o_flow o3).
Lemma flows_go : flows = Some (Go, Go).
Proof. vm_compute. reflexivity. Qed.

Lemma joined_is : is_Some joined /\ is_Some subscribed /\ is_Some named.
Proof. vm_compute. split; [|split]; eexists; reflexivity. Qed.

Lemma e_ok : endpoint_ok e.
Proof. unfold endpoint_ok. vm_compute. repeat split; discriminate. Qed.
End StratumDemo.

#[local] Existing Instance StratumDemo.json.


(** Its first share meets the block's target too: it is counted, forwarded and submitted. *)
Definition first_share : option Out :=
  '(f, s) ← StratumDemo.named;
  Some (on_submit TemplateDemo.sha StratumDemo.blake TemplateDemo.from_hex StratumDemo.log2 StratumDemo.e true 3000 1760000000 f s
          (int 4) (StratumDemo.share "0100000000000000")).


(** Once the valve relays newcomers, a session that has a name is refused another that proved nothing. *)
Lemma names_do_not_swap_witness : exists o,
  on_authorize TemplateDemo.sha TemplateDemo.to_hex StratumDemo.cfg StratumDemo.e 1000 (StratumDemo.front empty_board)
    {| ss_id := 1; ss_ip := StratumDemo.ip; ss_en1 := []; ss_user := "ours"; ss_ua := ""; ss_gated := true; ss_noted_at := None |}
    Null (Obj [("params"%string, Arr [Str (bytes_str TemplateDemo.ident)])]) = Some o /\
  ss_user (o_session o) = "ours"%string /\
  (canon (ss_user (o_session o)) = canon "ours" \/
   Overflow.ident_grandfathered StratumDemo.cfg StratumDemo.valve (canon (ss_user (o_session o))) 1000 = true).
Proof.
  destruct (on_authorize TemplateDemo.sha TemplateDemo.to_hex StratumDemo.cfg StratumDemo.e 1000 (StratumDemo.front empty_board)
    {| ss_id := 1; ss_ip := StratumDemo.ip; ss_en1 := []; ss_user := "ours"; ss_ua := ""; ss_gated := true; ss_noted_at := None |}
    Null (Obj [("params"%string, Arr [Str (bytes_str TemplateDemo.ident)])])) as [o|] eqn:E; [|vm_compute in E; discriminate E].
  assert (U : ss_user (o_session o) = "ours"%string).
  { assert (V : (ss_user ∘ o_session <$> on_authorize TemplateDemo.sha TemplateDemo.to_hex StratumDemo.cfg StratumDemo.e 1000
      (StratumDemo.front empty_board)
      {| ss_id := 1; ss_ip := StratumDemo.ip; ss_en1 := []; ss_user := "ours"; ss_ua := ""; ss_gated := true; ss_noted_at := None |}
      Null (Obj [("params"%string, Arr [Str (bytes_str TemplateDemo.ident)])])) = Some "ours"%string) by (vm_compute; reflexivity).
    rewrite E in V. injection V as V. exact V. }
  exists o. split; [reflexivity|]. split; [exact U|].
  destruct (names_do_not_swap _ _ _ _ _ _ _ _ _ _ StratumDemo.valve E eq_refl ltac:(vm_compute; reflexivity) ltac:(cbn; discriminate))
    as [[H|[H|H]] _].
  - rewrite U in H. discriminate H.
  - left. exact H.
  - right. exact H.
Defined.
