(* ===== verification/Lazarus.v ===== *)
(** The earlier Prime of the pool ([lazarus/prime/src/ledger.rs] and [main.rs]) with the messages and
    the check of a share it takes of [lazarus/protocol/src] ([mining.rs], [verify.rs]).

    Identities and usernames are the bytes of their strings. A [HashMap] is a [gmap]; where one is
    walked, the order is an argument. Sums the source does not check wrap, as a release build has them.
    The hash functions are parameters; the clock, the tip and what the node says of a block are
    arguments. *)

From S2P Require Import Prelude Bytes Text Pow State Protocol.
Import Payees Cbtx Header.
Open Scope Z_scope.

(** * Messages *)

Module Wire.

Definition SUB_COINBASER_REQ : Z := 0x10.
Definition SUB_SHARE : Z := 0x27.
Definition SUB_SHARE_RESP : Z := 0x8F.
Definition SUB_CONFIG : Z := 0x99.
Definition SHARE_ACCEPT : Z := 0x50.
Definition SHARE_REJECT : Z := 0x66.
Definition REJECT_BAD_JOB_ID : Z := 10.
Definition REJECT_BAD_COINBASE_ID : Z := 11.
Definition REJECT_BAD_EXTRANONCE_SIZE : Z := 12.
Definition REJECT_BAD_USERNAME : Z := 14.
Definition REJECT_STALE : Z := 25.
Definition REJECT_HIGH_HASH : Z := 21.
Definition REJECT_DUPLICATE : Z := 29.
Definition REJECT_OTHER : Z := 30.
Definition SECTION_JOB : Z := 1.
Definition SECTION_COINBASE : Z := 2.
Definition SECTION_BLAKE2B : Z := 3.
Definition STRUCT_END : Z := 0xFE.

Record CoinbaserRequest := { rq_value : Z; rq_prevhash : Hash }.
Definition decode_request (body : list Z) : option CoinbaserRequest :=
  if (length body <? 40)%nat then None else
  Some {| rq_value := of_le (take 8 body); rq_prevhash := slice 8 40 body |}.
Definition encode_request (r : CoinbaserRequest) : list Z :=
  [SUB_COINBASER_REQ] ++ u64_bytes (rq_value r) ++ rq_prevhash r ++ [STRUCT_END].

(** The body; the first byte is [SUB_COINBASER_RESP] of [Template]. *)
Definition encode_coinbaser_resp (value : Z) (blob : list Z) : list Z :=
  [0x11] ++ u64_bytes value ++ u32_bytes (trunc u32_max (Z.of_nat (length blob))) ++ blob.
Definition encode_config (script : list Z) (prime_id : Z) (tag : list Z) (min_diff : Z) : list Z :=
  [SUB_CONFIG; 1; trunc u8_max (Z.of_nat (length script))] ++ script ++ u32_bytes prime_id
  ++ [trunc u8_max (Z.of_nat (length tag))] ++ tag ++ u64_bytes min_diff ++ [0; STRUCT_END].
Definition encode_share_response (accept : bool) (reason nonce pot job_id : Z) : list Z :=
  [SUB_SHARE_RESP; if accept then SHARE_ACCEPT else SHARE_REJECT] ++ u16_bytes reason ++ u32_bytes nonce ++ [pot; job_id].

Record JobSection := {
  jo_prev_hash : Hash;
  jo_target_byte_index : Z;
  jo_nbits : list Z;
  jo_coinbaser_id : Z;
  jo_height : Z;
  jo_coinbase_value : Z;
  jo_txn_count : Z;
  jo_txn_total_weight : Z;
  jo_txn_total_size : Z;
  jo_txn_total_sigops : Z;
  jo_merkle_branches : list Hash
}.
Record CoinbaseSection := { co_id : Z; co_coinb1 : list Z; co_coinb2 : list Z }.
Record Blake2bSection := { bl_sia_ntime : list Z; bl_sia_nonce : list Z; bl_time_on_wire : Z }.
Record PowSubmit := {
  su_job_id : Z;
  su_coinbase_id : Z;
  su_is_block : bool;
  su_subsidy_only : bool;
  su_quickdiff : bool;
  su_target_byte : Z;
  su_ntime : Z;
  su_nonce : Z;
  su_version : Z;
  su_extranonce : list Z;
  su_username : list Z;
  su_use_time_offset : bool;
  su_job : option JobSection;
  su_coinbase : option CoinbaseSection;
  su_blake2b : option Blake2bSection
}.

Definition difficulty (s : PowSubmit) : Z := 2 ^ Z.min (su_target_byte s) 63.

(** ** Encoding *)

Definition encode_job (j : JobSection) : list Z :=
  [SECTION_JOB] ++ jo_prev_hash j ++ u16_bytes (jo_target_byte_index j) ++ jo_nbits j ++ [jo_coinbaser_id j]
  ++ u32_bytes (jo_height j) ++ u64_bytes (jo_coinbase_value j) ++ u32_bytes (jo_txn_count j)
  ++ u32_bytes (jo_txn_total_weight j) ++ u32_bytes (jo_txn_total_size j) ++ u32_bytes (jo_txn_total_sigops j)
  ++ [trunc u8_max (Z.of_nat (length (jo_merkle_branches j)))] ++ concat (jo_merkle_branches j).
Definition encode_coinbase (c : CoinbaseSection) : list Z :=
  [SECTION_COINBASE; co_id c] ++ u16_bytes (trunc u16_max (Z.of_nat (length (co_coinb1 c))))
  ++ u16_bytes (trunc u16_max (Z.of_nat (length (co_coinb2 c)))) ++ co_coinb1 c ++ co_coinb2 c.
Definition encode_blake2b (b : Blake2bSection) : list Z :=
  [SECTION_BLAKE2B; 1] ++ bl_sia_ntime b ++ bl_sia_nonce b ++ [4] ++ u32_bytes (bl_time_on_wire b).

Definition flags_of (s : PowSubmit) : Z :=
  (if su_is_block s then 1 else 0) + (if su_subsidy_only s then 2 else 0) + (if su_quickdiff s then 4 else 0).
Definition opt_bytes {A} (enc : A -> list Z) (o : option A) : list Z := match o with Some a => enc a | None => [] end.
Definition encode (s : PowSubmit) : list Z :=
  [SUB_SHARE; su_job_id s; su_coinbase_id s; flags_of s; su_target_byte s] ++ u32_bytes (su_ntime s)
  ++ u32_bytes (su_nonce s) ++ u32_bytes (su_version s) ++ [12] ++ take 12 (su_extranonce s ++ zeros 12)
  ++ su_username s ++ [0] ++ [if su_use_time_offset s then 1 else 0; 0; 0; 0]
  ++ opt_bytes encode_job (su_job s) ++ opt_bytes encode_coinbase (su_coinbase s)
  ++ opt_bytes encode_blake2b (su_blake2b s) ++ [STRUCT_END].

(** ** Decoding *)

Definition read_le (n : Z) (l : list Z) : option (Z * list Z) := '(b, l) ← get_bytes n l; Some (of_le b, l).

Definition read_job (l : list Z) : option (JobSection * list Z) :=
  '(prev, l) ← get_bytes 32 l; '(tbi, l) ← read_le 2 l; '(nbits, l) ← get_bytes 4 l; '(cid, l) ← read_le 1 l;
  '(height, l) ← read_le 4 l; '(value, l) ← read_le 8 l; '(txns, l) ← read_le 4 l; '(weight, l) ← read_le 4 l;
  '(size, l) ← read_le 4 l; '(sigops, l) ← read_le 4 l; '(n, l) ← read_le 1 l;
  if 24 <? n then None else
  '(branches, l) ← repeatedly (Z.to_nat n) (get_bytes 32) l;
  Some ({| jo_prev_hash := prev; jo_target_byte_index := tbi; jo_nbits := nbits; jo_coinbaser_id := cid;
           jo_height := height; jo_coinbase_value := value; jo_txn_count := txns; jo_txn_total_weight := weight;
           jo_txn_total_size := size; jo_txn_total_sigops := sigops; jo_merkle_branches := branches |}, l).
Definition read_coinbase (l : list Z) : option (CoinbaseSection * list Z) :=
  '(id, l) ← read_le 1 l; '(len1, l) ← read_le 2 l; '(len2, l) ← read_le 2 l;
  '(c1, l) ← get_bytes len1 l; '(c2, l) ← get_bytes len2 l;
  Some ({| co_id := id; co_coinb1 := c1; co_coinb2 := c2 |}, l).
Definition read_blake2b (l : list Z) : option (Blake2bSection * list Z) :=
  '(one, l) ← read_le 1 l; if negb (one =? 1) then None else
  '(t, l) ← get_bytes 8 l; '(n, l) ← get_bytes 8 l;
  '(four, l) ← read_le 1 l; if negb (four =? 4) then None else
  '(time, l) ← read_le 4 l;
  Some ({| bl_sia_ntime := t; bl_sia_nonce := n; bl_time_on_wire := time |}, l).

(** The loop over the sections; each pass takes a byte at least, so the bytes left are fuel enough. *)
Definition Sections : Type := option JobSection * option CoinbaseSection * option Blake2bSection.
Fixpoint read_sections (fuel : nat) (l : list Z) (acc : Sections) : option Sections :=
  match fuel, l with
  | S k, m :: l =>
      let '(j, c, b) := acc in
      if m =? STRUCT_END then Some acc
      else if m =? SECTION_JOB then '(x, l) ← read_job l; read_sections k l (Some x, c, b)
      else if m =? SECTION_COINBASE then '(x, l) ← read_coinbase l; read_sections k l (j, Some x, b)
      else if m =? SECTION_BLAKE2B then '(x, l) ← read_blake2b l; read_sections k l (j, c, Some x)
      else None
  | _, _ => Some acc
  end.

(** The position of the first NUL. *)
Fixpoint nul_at (l : list Z) : option nat :=
  match l with [] => None | b :: l' => if b =? 0 then Some O else n ← nul_at l'; Some (S n) end.

Definition decode (data : list Z) : option PowSubmit :=
  match data with
  | [] => None
  | d :: rest =>
      let l := if d =? SUB_SHARE then rest else data in
      '(job_id, l) ← read_le 1 l; '(coinbase_id, l) ← read_le 1 l; '(flags, l) ← read_le 1 l;
      '(target_byte, l) ← read_le 1 l; '(ntime, l) ← read_le 4 l; '(nonce, l) ← read_le 4 l;
      '(version, l) ← read_le 4 l; '(en_size, l) ← read_le 1 l;
      if negb (en_size =? 12) then None else
      '(extranonce, l) ← get_bytes 12 l;
      nul ← nul_at (take 385 l);
      let username := utf8_lossy (take nul l) in
      '(opts, l) ← get_bytes 4 (drop (S nul) l);
      '(job, coinbase, blake2b) ← read_sections (length l) l (None, None, None);
      Some {| su_job_id := job_id; su_coinbase_id := coinbase_id; su_is_block := Z.testbit flags 0;
              su_subsidy_only := Z.testbit flags 1; su_quickdiff := Z.testbit flags 2; su_target_byte := target_byte;
              su_ntime := ntime; su_nonce := nonce; su_version := version; su_extranonce := extranonce;
              su_username := username; su_use_time_offset := Z.testbit (default 0 (head opts)) 0;
              su_job := job; su_coinbase := coinbase; su_blake2b := blake2b |}
  end.
End Wire.
Import Wire.

(** * The check of a share *)

Module Check.

Definition SPLIT_TOLERANCE_SATS : Z := 2.
Definition HEIGHT_LEAD : Z := 2.
Definition HEIGHT_LAG : Z := 3.
Definition MAX_TIME_SKEW : Z := 7200.

Record ShareContext := { cx_issued : option CoinbaserV2; cx_tip_height : Z; cx_now : Z; cx_min_diff : Z }.
Record VerifiedShare := { ve_work : Z; ve_hash : Hash; ve_height : Z; ve_is_block_candidate : bool }.

Definition header_from_share (s : PowSubmit) (merkle_root : Hash) : option HeaderV2 :=
  job ← su_job s;
  b2 ← su_blake2b s;
  Some {| hd_version := to_i32 (su_version s); hd_prev_block := jo_prev_hash job; hd_merkle_root := merkle_root;
          hd_time := bl_time_on_wire b2; hd_bits := of_le (jo_nbits job);
          hd_nonce := of_le (slice 0 4 (bl_sia_nonce b2)); hd_nonce2 := of_le (slice 4 8 (bl_sia_nonce b2));
          hd_nonce3 := of_le (slice 4 8 (bl_sia_ntime b2)); hd_extranonce := header_extranonce (su_extranonce s);
          hd_time_offset := of_le (slice 0 4 (bl_sia_ntime b2)); hd_txcount := trunc u16_max (jo_txn_count job);
          hd_flags := if su_use_time_offset s then FLAG_USE_TIME_OFFSET else 0; hd_xor_clear_bits := 0;
          hd_xor_key := zeros 16; hd_height := to_i32 (jo_height job); hd_mm_rhs := zeros 32 |}.

Definition absent {A} (o : option A) : bool := match o with None => true | Some _ => false end.
Definition refuse_when (b : bool) (code : Z) : result Z () := if b then Err code else Ok tt.

Definition check_coinbase (s : PowSubmit) (issued : option CoinbaserV2) : result Z ParsedCoinbase :=
  job ← ok_or REJECT_BAD_JOB_ID (su_job s);
  cbs ← ok_or REJECT_BAD_COINBASE_ID (su_coinbase s);
  _ ← refuse_when (negb (co_id cbs =? su_coinbase_id s) || negb (jo_coinbaser_id job =? co_id cbs)) REJECT_BAD_COINBASE_ID;
  parsed ← ok_or REJECT_BAD_COINBASE_ID (parse_coinbase (co_coinb1 cbs ++ co_coinb2 cbs));
  issued ← ok_or REJECT_BAD_COINBASE_ID issued;
  _ ← refuse_when (negb (co_id cbs =? cv_id issued)) REJECT_BAD_COINBASE_ID;
  _ ← refuse_when (negb (split_satisfied issued (pc_outputs parsed) SPLIT_TOLERANCE_SATS)) REJECT_BAD_COINBASE_ID;
  _ ← refuse_when (match pc_height parsed with Some h => negb (h =? jo_height job) | None => false end) REJECT_BAD_JOB_ID;
  mret parsed.

Section Hashing.
Context (sha256 blake2b256 : list Z -> Hash).

Definition share_hash (s : PowSubmit) (coinbase : ParsedCoinbase) : result Z (HeaderV2 * Hash) :=
  job ← ok_or REJECT_BAD_JOB_ID (su_job s);
  let root := fold_branches sha256 (sha256d sha256 (pc_legacy coinbase)) (jo_merkle_branches job) in
  hdr ← ok_or REJECT_OTHER (header_from_share s root);
  mret (hdr, pow_hash sha256 blake2b256 hdr).

Definition bad_height (tip h : Z) : bool :=
  (0 <? tip) && ((h + HEIGHT_LAG <? tip) || (trunc u64_max (tip + HEIGHT_LEAD) <? h)).
Definition bad_time (now t : Z) : bool :=
  (0 <? now) && (MAX_TIME_SKEW <? (if now <? t then t - now else now - t)).

Definition verify_share_against (s : PowSubmit) (ctx : ShareContext) (share_target : Hash) : result Z VerifiedShare :=
  _ ← refuse_when (absent (su_job s)) REJECT_BAD_JOB_ID;
  _ ← refuse_when (absent (su_blake2b s)) REJECT_OTHER;
  _ ← refuse_when (negb (length (su_extranonce s) =? 12)%nat) REJECT_BAD_EXTRANONCE_SIZE;
  coinbase ← check_coinbase s (cx_issued ctx);
  job ← ok_or REJECT_BAD_JOB_ID (su_job s);
  b2 ← ok_or REJECT_OTHER (su_blake2b s);
  _ ← refuse_when (bad_height (cx_tip_height ctx) (jo_height job)) REJECT_STALE;
  _ ← refuse_when (bad_time (cx_now ctx) (bl_time_on_wire b2)) REJECT_STALE;
  '(hdr, hash) ← share_hash s coinbase;
  _ ← refuse_when (negb (Header.meets_target hash share_target)) REJECT_HIGH_HASH;
  mret {| ve_work := Z.max (difficulty s) (cx_min_diff ctx); ve_hash := hash; ve_height := jo_height job;
          ve_is_block_candidate := match bits_to_target (hd_bits hdr) with
                                   | Some t => Header.meets_target hash t
                                   | None => false
                                   end |}.

(** [verify_share]: against the target the share itself names. *)
Definition verify_share (s : PowSubmit) (ctx : ShareContext) : result Z VerifiedShare :=
  verify_share_against s ctx (target_for_pot (su_target_byte s)).
End Hashing.
End Check.
Import Check.

(** * The ledger *)

Module Books.

Definition BUCKET_SECS : Z := 60.
Definition SEEN_CAP : nat := 400000.
Record Credit := { cr_ts : Z; cr_identity : list Z; cr_work : Z }.
Record Bonus := { bo_beneficiary : list Z; bo_source : list Z; bo_owed : Z; bo_paid : Z; bo_note : string }.
Definition remaining (b : Bonus) : Z := sat_sub (bo_owed b) (bo_paid b).

Record Persist := {
  pe_credits : list Credit;
  pe_carry : gmap (list Z) Z;
  pe_shares : Z;
  pe_accepted_work : Z;
  pe_bonus : option Bonus;
  pe_bonuses : list Bonus
}.
Record Ledger := {
  lg_credits : list Credit;
  lg_carry : gmap (list Z) Z;
  lg_shares : Z;
  lg_accepted_work : Z;
  lg_total : Z;
  lg_seen : gset (list Z);
  lg_last_save : option Z;
  lg_dirty : bool;
  lg_bonuses : list Bonus
}.
Definition empty_ledger : Ledger :=
  {| lg_credits := []; lg_carry := ∅; lg_shares := 0; lg_accepted_work := 0; lg_total := 0; lg_seen := ∅;
     lg_last_save := None; lg_dirty := false; lg_bonuses := [] |}.

Definition bucket_of (ts : Z) : Z := ts - ts mod BUCKET_SECS.

(** The walk from the newest row back to the bucket: the row of the identity takes the work. *)
Fixpoint merge_back (bucket : Z) (identity : list Z) (work : Z) (newest_first : list Credit) : option (list Credit) :=
  match newest_first with
  | [] => None
  | c :: older =>
      if cr_ts c <? bucket then None
      else if bool_decide (cr_identity c = identity)
      then Some ({| cr_ts := cr_ts c; cr_identity := cr_identity c; cr_work := sat_add u64_max (cr_work c) work |} :: older)
      else older ← merge_back bucket identity work older; Some (c :: older)
  end.
Definition add_row (bucket : Z) (identity : list Z) (work : Z) (rows : list Credit) : list Credit :=
  match merge_back bucket identity work (rev rows) with
  | Some rows => rev rows
  | None => rows ++ [{| cr_ts := bucket; cr_identity := identity; cr_work := work |}]
  end.
Definition compacted (credits : list Credit) : list Credit :=
  foldl (fun out c => add_row (bucket_of (cr_ts c)) (cr_identity c) (cr_work c) out) [] credits.
Definition sum_works (rows : list Credit) : Z := foldl (fun a c => trunc u64_max (a + cr_work c)) 0 rows.

(** [load] of what the file holds, when it can be read and parsed. *)
Definition load (file : option Persist) : Ledger :=
  match file with
  | None => empty_ledger
  | Some p =>
      let credits := compacted (pe_credits p) in
      {| lg_credits := credits; lg_carry := pe_carry p; lg_shares := pe_shares p; lg_accepted_work := pe_accepted_work p;
         lg_total := sum_works credits; lg_seen := ∅; lg_last_save := None; lg_dirty := negb (length (pe_credits p) =? 0)%nat;
         lg_bonuses := pe_bonuses p ++ match pe_bonus p with Some b => [b] | None => [] end |}
  end.
(** [save]: what is written, and the ledger once it has been. *)
Definition saved (l : Ledger) : Persist :=
  {| pe_credits := lg_credits l; pe_carry := lg_carry l; pe_shares := lg_shares l;
     pe_accepted_work := lg_accepted_work l; pe_bonus := None; pe_bonuses := lg_bonuses l |}.
Definition after_save (l : Ledger) (now : Z) : Ledger :=
  {| lg_credits := lg_credits l; lg_carry := lg_carry l; lg_shares := lg_shares l; lg_accepted_work := lg_accepted_work l;
     lg_total := lg_total l; lg_seen := lg_seen l; lg_last_save := Some now; lg_dirty := false; lg_bonuses := lg_bonuses l |}.
Definition save_is_due (l : Ledger) (now min_interval : Z) : bool :=
  lg_dirty l && match lg_last_save l with Some t => min_interval <=? sat_sub now t | None => true end.

Definition with_carry (l : Ledger) (carry : gmap (list Z) Z) : Ledger :=
  {| lg_credits := lg_credits l; lg_carry := carry; lg_shares := lg_shares l; lg_accepted_work := lg_accepted_work l;
     lg_total := lg_total l; lg_seen := lg_seen l; lg_last_save := lg_last_save l; lg_dirty := true; lg_bonuses := lg_bonuses l |}.
Definition merge_carry (l : Ledger) (ident : list Z) (work : Z) : Ledger :=
  if (length ident =? 0)%nat || (work =? 0) then l
  else with_carry l (<[ident := sat_add u64_max (default 0 (lg_carry l !! ident)) work]> (lg_carry l)).
(** [load_carry_file] of the entries the file holds, in the order they are walked. *)
Definition load_carry (l : Ledger) (file : list (list Z * Z)) : Ledger := foldl (fun l e => merge_carry l e.1 e.2) l file.
Definition clear_carry (l : Ledger) : Ledger := with_carry l ∅.

(** [credit]; [key] tells submissions apart. *)
Definition credit (l : Ledger) (now : Z) (identity : list Z) (work : Z) (key : list Z) : Ledger * bool :=
  if bool_decide (key ∈ lg_seen l) then (l, false) else
  let seen := if (SEEN_CAP <=? size (lg_seen l))%nat then ∅ else lg_seen l in
  ({| lg_credits := add_row (bucket_of now) identity work (lg_credits l); lg_carry := lg_carry l;
      lg_shares := trunc u64_max (lg_shares l + 1); lg_accepted_work := sat_add u64_max (lg_accepted_work l) work;
      lg_total := sat_add u64_max (lg_total l) work; lg_seen := {[key]} ∪ seen; lg_last_save := lg_last_save l;
      lg_dirty := true; lg_bonuses := lg_bonuses l |}, true).

(** [trim]: rows leave at the front until the window is down to the target. *)
Fixpoint trim_rows (target total : Z) (rows : list Credit) : list Credit * Z :=
  match rows with
  | c :: rows' => if target <? total then trim_rows target (sat_sub total (cr_work c)) rows' else (rows, total)
  | [] => ([], total)
  end.
Definition trim (l : Ledger) (target_work : Z) : Ledger :=
  if target_work =? 0 then l else
  let '(rows, total) := trim_rows target_work (lg_total l) (lg_credits l) in
  if (length rows =? length (lg_credits l))%nat then l else
  {| lg_credits := rows; lg_carry := lg_carry l; lg_shares := lg_shares l; lg_accepted_work := lg_accepted_work l;
     lg_total := total; lg_seen := lg_seen l; lg_last_save := lg_last_save l; lg_dirty := true; lg_bonuses := lg_bonuses l |}.

Definition window_work (l : Ledger) : Z := trunc u64_max (lg_total l + zsum (map snd (map_to_list (lg_carry l)))).
Definition tides_work (l : Ledger) : Z := lg_total l.
Definition add_work (m : gmap (list Z) Z) (ident : list Z) (work : Z) : gmap (list Z) Z :=
  <[ident := trunc u64_max (default 0 (m !! ident) + work)]> m.
Definition by_identity (l : Ledger) : gmap (list Z) Z :=
  let m := foldl (fun m c => add_work m (cr_identity c) (cr_work c)) ∅ (lg_credits l) in
  union_with (fun a b => Some (trunc u64_max (a + b))) m (lg_carry l).

(** ** The split of a block *)

Section Split.
Context (sha256 : list Z -> Hash).

Definition MOST_PAYEES : nat := 32.
Definition more_work (a b : list Z * Z) : bool := b.2 <=? a.2.
Fixpoint pay (miners total min_payout : Z) (rows : list (list Z * Z)) (outs : list CoinbaserOutput) (paid : Z)
    : list CoinbaserOutput * Z :=
  match rows with
  | [] => (outs, paid)
  | (ident, work) :: rows =>
      match Identity.identity_script sha256 ident with
      | None => pay miners total min_payout rows outs paid
      | Some script =>
          let sats := sat_mul u64_max miners work / total in
          if sats <? min_payout then pay miners total min_payout rows outs paid else
          let outs := outs ++ [{| co_sats := sats; co_script := script |}] in
          let paid := sat_add u64_max paid sats in
          if (MOST_PAYEES <=? length outs)%nat then (outs, paid) else pay miners total min_payout rows outs paid
      end
  end.
(** The outputs before any make-good; [walk] is the map in the order it is walked. *)
Definition plain_split (l : Ledger) (walk : list (list Z * Z)) (value fee_bps min_payout : Z) (pool_script : list Z)
    : list CoinbaserOutput :=
  let fee := sat_mul u64_max value fee_bps / 10000 in
  let miners := sat_sub value fee in
  let total := Z.max (window_work l) 1 in
  let '(outs, paid) := pay miners total min_payout (sort_by more_work walk) [] 0 in
  let rest := sat_sub value paid in
  if (0 <? rest) || (length outs =? 0)%nat then outs ++ [{| co_sats := rest; co_script := pool_script |}] else outs.

(** [apply_bonus]: the outputs of the source give from the largest on; what is left of one below the
    payout floor goes along; the beneficiary's first output takes it all. *)
Definition set_sats (i : nat) (sats : Z) (outs : list CoinbaserOutput) : list CoinbaserOutput :=
  alter (fun o => {| co_sats := sats; co_script := co_script o |}) i outs.
Definition sats_at (outs : list CoinbaserOutput) (i : nat) : Z := match outs !! i with Some o => co_sats o | None => 0 end.
Fixpoint take_from (idx : list nat) (left_ : Z) (outs : list CoinbaserOutput) : list CoinbaserOutput :=
  match idx with
  | [] => outs
  | i :: idx =>
      let d := Z.min left_ (sats_at outs i) in
      let outs := set_sats i (sats_at outs i - d) outs in
      if left_ - d =? 0 then outs else take_from idx (left_ - d) outs
  end.
Definition indices_of (src : list Z) (outs : list CoinbaserOutput) : list nat :=
  map fst (filter (fun io => co_script io.2 = src) (imap (fun i o => (i, o)) outs)).
Definition is_dust (src : list Z) (min_payout : Z) (o : CoinbaserOutput) : bool :=
  bool_decide (co_script o = src) && (co_sats o <? min_payout).
Fixpoint give (dst : list Z) (sats : Z) (outs : list CoinbaserOutput) : list CoinbaserOutput :=
  match outs with
  | [] => [{| co_sats := sats; co_script := dst |}]
  | o :: outs =>
      if bool_decide (co_script o = dst) then {| co_sats := sat_add u64_max (co_sats o) sats; co_script := dst |} :: outs
      else o :: give dst sats outs
  end.
Definition apply_bonus (outs : list CoinbaserOutput) (src dst : list Z) (owed min_payout : Z)
    : list CoinbaserOutput * Z :=
  if bool_decide (src = dst) then (outs, 0) else
  let avail := got_by src outs in
  let wanted := Z.min owed avail in
  if wanted =? 0 then (outs, 0) else
  let largest := sort_by (fun i j => sats_at outs j <=? sats_at outs i) (indices_of src outs) in
  let outs := take_from largest wanted outs in
  let dust := filter (fun o => is_dust src min_payout o = true) outs in
  let moved := foldl (fun a o => trunc u64_max (a + co_sats o)) wanted dust in
  (give dst moved (filter (fun o => is_dust src min_payout o = false) outs), moved).

Definition Moves : Type := list (list Z * Z).
Definition make_good (min_payout : Z) (acc : list CoinbaserOutput * Moves) (b : Bonus) : list CoinbaserOutput * Moves :=
  let '(outs, moves) := acc in
  if negb (0 <? remaining b) then acc else
  match Identity.identity_script sha256 (bo_source b), Identity.identity_script sha256 (bo_beneficiary b) with
  | Some src, Some dst =>
      let '(outs, moved) := apply_bonus outs src dst (remaining b) min_payout in
      (outs, if 0 <? moved then moves ++ [(bo_beneficiary b, moved)] else moves)
  | _, _ => acc
  end.
Definition coinbaser_with_moves (l : Ledger) (walk : list (list Z * Z)) (value fee_bps min_payout : Z)
    (pool_script : list Z) (id : Z) : CoinbaserV2 * Moves :=
  let '(outs, moves) := foldl (make_good min_payout) (plain_split l walk value fee_bps min_payout pool_script, []) (lg_bonuses l) in
  ({| cv_id := id; cv_outputs := outs |}, moves).
End Split.

(** ** Make-goods that were paid *)

(** One move: the first open debt to the beneficiary takes it. *)
Fixpoint pay_debt (beneficiary : list Z) (moved : Z) (bs : list Bonus) : list Bonus :=
  match bs with
  | [] => []
  | b :: bs =>
      if bool_decide (bo_beneficiary b = beneficiary) && (0 <? remaining b)
      then {| bo_beneficiary := bo_beneficiary b; bo_source := bo_source b; bo_owed := bo_owed b;
              bo_paid := Z.min (sat_add u64_max (bo_paid b) moved) (bo_owed b); bo_note := bo_note b |} :: bs
      else b :: pay_debt beneficiary moved bs
  end.
Definition settle_bonuses (l : Ledger) (moves : Moves) : Ledger * list Bonus :=
  if (length moves =? 0)%nat then (l, []) else
  let bs := foldl (fun bs m => pay_debt m.1 m.2 bs) (lg_bonuses l) moves in
  let retired := filter (fun b => remaining b = 0) bs in
  let touched := existsb (fun m => existsb (fun b => bool_decide (bo_beneficiary b = m.1) && (0 <? remaining b)) (lg_bonuses l)) moves in
  ({| lg_credits := lg_credits l; lg_carry := lg_carry l; lg_shares := lg_shares l; lg_accepted_work := lg_accepted_work l;
      lg_total := lg_total l; lg_seen := lg_seen l; lg_last_save := lg_last_save l;
      lg_dirty := lg_dirty l || touched || negb (length retired =? 0)%nat;
      lg_bonuses := filter (fun b => ~ remaining b = 0) bs |}, retired).
Definition owed_sats (l : Ledger) : Z := trunc u64_max (zsum (map remaining (lg_bonuses l))).
End Books.
Import Books.

(** * The server *)

Module Server.

Inductive VerifyMode := Off | Log | Enforce.
#[export] Instance VerifyMode_eq_dec : EqDecision VerifyMode.
Proof. solve_decision. Defined.
Definition verify_mode (s : string) : VerifyMode :=
  if bool_decide (s = "off"%string) then Off else if bool_decide (s = "enforce"%string) then Enforce else Log.

Record Settings := {
  st_fee_bps : Z;
  st_min_payout : Z;
  st_min_diff : Z;
  st_pool_script : list Z;
  st_verify : VerifyMode
}.
(** What the sessions share: the tip is its height and the window it asks for. *)
Record Prime := {
  pr_ledger : Ledger;
  pr_tip_height : Z;
  pr_window_target : Z;
  pr_coinbaser_id : Z;
  pr_issued : gmap Z (CoinbaserV2 * Moves);
  pr_verified : Z;
  pr_rejected : Z;
  pr_dupes : Z
}.
(** [main]: the ledger read back with what was carried over; no split has been issued. *)
Definition start (ledger_file : option Persist) (carry_file : list (list Z * Z)) : Prime :=
  {| pr_ledger := load_carry (load ledger_file) carry_file; pr_tip_height := 0; pr_window_target := 0; pr_coinbaser_id := 1;
     pr_issued := ∅; pr_verified := 0; pr_rejected := 0; pr_dupes := 0 |}.
(** What a session keeps. *)
Record Gateway := { gw_jobs : gmap Z JobSection; gw_cbs : gmap Z CoinbaseSection; gw_seen : gset (list Z) }.
Definition no_gateway : Gateway := {| gw_jobs := ∅; gw_cbs := ∅; gw_seen := ∅ |}.

Definition set_ledger (p : Prime) (l : Ledger) : Prime :=
  {| pr_ledger := l; pr_tip_height := pr_tip_height p; pr_window_target := pr_window_target p;
     pr_coinbaser_id := pr_coinbaser_id p; pr_issued := pr_issued p; pr_verified := pr_verified p;
     pr_rejected := pr_rejected p; pr_dupes := pr_dupes p |}.
Definition set_issued (p : Prime) (id : Z) (issued : gmap Z (CoinbaserV2 * Moves)) : Prime :=
  {| pr_ledger := pr_ledger p; pr_tip_height := pr_tip_height p; pr_window_target := pr_window_target p;
     pr_coinbaser_id := id; pr_issued := issued; pr_verified := pr_verified p;
     pr_rejected := pr_rejected p; pr_dupes := pr_dupes p |}.
Definition set_counts (p : Prime) (verified rejected dupes : Z) : Prime :=
  {| pr_ledger := pr_ledger p; pr_tip_height := pr_tip_height p; pr_window_target := pr_window_target p;
     pr_coinbaser_id := pr_coinbaser_id p; pr_issued := pr_issued p; pr_verified := verified;
     pr_rejected := rejected; pr_dupes := dupes |}.

Section Handling.
Context (sha256 blake2b256 : list Z -> Hash) (cfg : Settings).

(** [share_key]. *)
Definition share_key (s : PowSubmit) : list Z :=
  take 16 (sha256d sha256 ([su_job_id s; su_coinbase_id s] ++ u32_bytes (su_nonce s) ++ u32_bytes (su_ntime s)
    ++ su_extranonce s ++ match su_blake2b s with Some b => bl_sia_nonce b ++ bl_sia_ntime b | None => [] end)).

(** A coinbaser request: the next id, never 0, and the split issued under it. *)
Definition next_id (id : Z) : Z := let id := trunc u8_max (id + 1) in if id =? 0 then 1 else id.
Definition on_coinbaser_request (p : Prime) (walk : list (list Z * Z)) (req : CoinbaserRequest) : Prime * list Z :=
  let id := next_id (pr_coinbaser_id p) in
  let cm := coinbaser_with_moves sha256 (pr_ledger p) walk (rq_value req) (st_fee_bps cfg) (st_min_payout cfg)
              (st_pool_script cfg) id in
  (set_issued p id (<[id := cm]> (pr_issued p)), encode_coinbaser_resp (rq_value req) (Payees.encode cm.1)).

(** The sections a share leaves out are those its job was last sent with. *)
Definition keep_sections (g : Gateway) (s : PowSubmit) : Gateway * PowSubmit :=
  let jobs := match su_job s with Some j => <[su_job_id s := j]> (gw_jobs g) | None => gw_jobs g end in
  let cbs := match su_coinbase s with Some c => <[co_id c := c]> (gw_cbs g) | None => gw_cbs g end in
  ({| gw_jobs := jobs; gw_cbs := cbs; gw_seen := gw_seen g |},
   {| su_job_id := su_job_id s; su_coinbase_id := su_coinbase_id s; su_is_block := su_is_block s;
      su_subsidy_only := su_subsidy_only s; su_quickdiff := su_quickdiff s; su_target_byte := su_target_byte s;
      su_ntime := su_ntime s; su_nonce := su_nonce s; su_version := su_version s; su_extranonce := su_extranonce s;
      su_username := su_username s; su_use_time_offset := su_use_time_offset s;
      su_job := match su_job s with Some j => Some j | None => jobs !! su_job_id s end;
      su_coinbase := match su_coinbase s with Some c => Some c | None => cbs !! su_coinbase_id s end;
      su_blake2b := su_blake2b s |}).

Definition SESSION_SEEN : nat := 200000.
Definition context (p : Prime) (now : Z) (s : PowSubmit) : ShareContext :=
  {| cx_issued := fst <$> pr_issued p !! su_coinbase_id s; cx_tip_height := pr_tip_height p; cx_now := now;
     cx_min_diff := st_min_diff cfg |}.
(** The answer: whether it was accepted and why not. *)
Definition on_share (p : Prime) (g : Gateway) (now : Z) (s : PowSubmit) : Prime * Gateway * (bool * Z) :=
  let '(g, s) := keep_sections g s in
  let ident := Identity.identity_of (su_username s) in
  match Identity.identity_script sha256 ident with
  | None => (p, g, (false, REJECT_BAD_USERNAME))
  | Some _ =>
      let key := share_key s in
      if bool_decide (key ∈ gw_seen g) then (set_counts p (pr_verified p) (pr_rejected p) (pr_dupes p + 1), g, (false, REJECT_DUPLICATE)) else
      let seen := {[key]} ∪ gw_seen g in
      let g := {| gw_jobs := gw_jobs g; gw_cbs := gw_cbs g; gw_seen := if (SESSION_SEEN <? size seen)%nat then ∅ else seen |} in
      let verdict := if bool_decide (st_verify cfg = Off) then None
                     else Some (verify_share sha256 blake2b256 s (context p now s)) in
      let p := match verdict with
               | Some (Ok _) => set_counts p (pr_verified p + 1) (pr_rejected p) (pr_dupes p)
               | Some (Err _) => set_counts p (pr_verified p) (pr_rejected p + 1) (pr_dupes p)
               | None => p
               end in
      match verdict, st_verify cfg with
      | Some (Err code), Enforce => (p, g, (false, code))
      | _, _ =>
          let work := match verdict with Some (Ok v) => ve_work v | _ => Z.max (difficulty s) (st_min_diff cfg) end in
          let '(l, _) := credit (pr_ledger p) now ident work key in
          (set_ledger p (Books.trim l (Z.max (pr_window_target p) 1)), g, (true, 0))
      end
  end.
(** The answer to a message; one that does not decode is refused as it is. *)
Definition on_share_message (p : Prime) (g : Gateway) (now : Z) (plain : list Z) : Prime * Gateway * list Z :=
  match decode plain with
  | None => (p, g, encode_share_response false REJECT_OTHER 0 0 0)
  | Some s => let '(p, g, (ok, reason)) := on_share p g now s in
              (p, g, encode_share_response ok reason (su_nonce s) (su_target_byte s) (su_job_id s))
  end.
(** A message of a session: what is no request and no share is not answered. *)
Definition on_message (p : Prime) (g : Gateway) (walk : list (list Z * Z)) (now : Z) (plain : list Z)
    : Prime * Gateway * option (list Z) :=
  match plain with
  | [] => (p, g, None)
  | c :: body =>
      if c =? SUB_COINBASER_REQ then
        match decode_request body with
        | Some req => let '(p, answer) := on_coinbaser_request p walk req in (p, g, Some answer)
        | None => (p, g, None)
        end
      else if c =? SUB_SHARE then let '(p, g, answer) := on_share_message p g now plain in (p, g, Some answer)
      else (p, g, None)
  end.
End Handling.

(** ** A block of ours *)

(** The outputs with a value as a sorted list; [hex::encode] keeps the order of scripts. *)
Definition out_before (a b : list Z * Z) : bool :=
  bool_decide (a = b) || negb (Header.meets_target b.1 a.1) || bool_decide (a.1 = b.1) && (a.2 <=? b.2).
Definition output_set (outs : list (list Z * Z)) : list (list Z * Z) :=
  sort_by out_before (filter (fun o => (0 <? o.2) = true) outs).
Definition split_set (c : CoinbaserV2) : list (list Z * Z) := output_set (map (fun o => (co_script o, co_sats o)) (cv_outputs c)).
(** The tip moved to a block; [walk] is the map of the splits issued, in the order it is walked. *)
Definition on_own_block (p : Prime) (walk : list (Z * (CoinbaserV2 * Moves))) (is_ours : bool) (value_outputs : Z)
    (outs : list (list Z * Z)) : Prime :=
  if negb (is_ours && (2 <=? value_outputs)) then p else
  let won := head (filter (fun e => split_set e.2.1 = output_set outs) walk) in
  let l := match won with Some e => (settle_bonuses (pr_ledger p) e.2.2).1 | None => pr_ledger p end in
  set_ledger p (clear_carry l).
End Server.
