(* ===== verification/LazarusProps.v ===== *)
(** The earlier Prime: what a gateway forwards reads back and is judged as the gateway judged it, a
    split gives the value of the block away to the sat, a make-good takes from its source only and is
    settled by what a block paid, and the ledger's figures are those of its rows. *)

From S2P Require Import Prelude Bytes Text Pow State Overflow Protocol ProtocolProps Template TemplateProps Stratum StratumProps Lazarus.
Import Payees Cbtx Header HeaderFacts PayeesFacts CbtxFacts Lazarus.Wire Lazarus.Check Lazarus.Books Lazarus.Server.
Open Scope Z_scope.
#[local] Opaque Lazarus.Books.SEEN_CAP Lazarus.Server.SESSION_SEEN.

(** * Messages *)

Lemma read_le_at n k v l : Z.of_nat k = n -> 0 <= v < 256 ^ n -> read_le n (le_bytes k v ++ l) = Some (v, l).
Proof.
  intros <- Hv. unfold read_le. rewrite get_bytes_at by (by rewrite length_le_bytes). cbn [mbind option_bind].
  by rewrite of_le_le_bytes.
Qed.

Lemma read_byte v l : read_le 1 (v :: l) = Some (v, l).
Proof.
  unfold read_le. change (v :: l) with ([v] ++ l). rewrite get_bytes_at by done. cbn [mbind option_bind of_le].
  do 2 f_equal. lia.
Qed.

Lemma read_hashes hs l : Forall (fun h => length h = 32%nat) hs ->
  repeatedly (length hs) (get_bytes 32) (concat hs ++ l) = Some (hs, l).
Proof.
  induction 1 as [|h hs Hh _ IH]; [done|]. cbn [length repeatedly concat]. rewrite <- app_assoc.
  rewrite get_bytes_at by (by rewrite Hh). cbn [mbind option_bind]. by rewrite IH.
Qed.

Definition job_section_fits (j : JobSection) : Prop :=
  length (jo_prev_hash j) = 32%nat /\ in_range u16_max (jo_target_byte_index j) /\ length (jo_nbits j) = 4%nat /\
  in_range u32_max (jo_height j) /\ in_range u64_max (jo_coinbase_value j) /\ in_range u32_max (jo_txn_count j) /\
  in_range u32_max (jo_txn_total_weight j) /\ in_range u32_max (jo_txn_total_size j) /\
  in_range u32_max (jo_txn_total_sigops j) /\ (length (jo_merkle_branches j) <= 24)%nat /\
  Forall (fun h => length h = 32%nat) (jo_merkle_branches j).
Definition coinbase_fits (c : CoinbaseSection) : Prop :=
  Z.of_nat (length (co_coinb1 c)) <= u16_max /\ Z.of_nat (length (co_coinb2 c)) <= u16_max.
Definition blake2b_fits (b : Blake2bSection) : Prop :=
  length (bl_sia_ntime b) = 8%nat /\ length (bl_sia_nonce b) = 8%nat /\ in_range u32_max (bl_time_on_wire b).
(** A share as [PowSubmit]'s types have it, with a username that is text of at most 384 bytes, no NUL. *)
Record submit_fits (s : PowSubmit) : Prop := {
  sf_words : in_range u32_max (su_ntime s) /\ in_range u32_max (su_nonce s) /\ in_range u32_max (su_version s);
  sf_extranonce : length (su_extranonce s) = 12%nat;
  sf_username : Forall (fun b => b <> 0) (su_username s) /\ (length (su_username s) <= 384)%nat /\
                utf8_lossy (su_username s) = su_username s;
  sf_job : forall j, su_job s = Some j -> job_section_fits j;
  sf_coinbase : forall c, su_coinbase s = Some c -> coinbase_fits c;
  sf_blake2b : forall b, su_blake2b s = Some b -> blake2b_fits b
}.

Lemma in_u16 v : in_range u16_max v -> 0 <= v < 256 ^ 2. Proof. unfold in_range. lia. Qed.
Lemma in_u32 v : in_range u32_max v -> 0 <= v < 256 ^ 4. Proof. unfold in_range. lia. Qed.
Lemma in_u64 v : in_range u64_max v -> 0 <= v < 256 ^ 8. Proof. unfold in_range. lia. Qed.

(** One field off the front. *)
Ltac take_field :=
  first [ rewrite read_byte
        | rewrite (read_le_at 2 2) by (done || by apply in_u16)
        | rewrite (read_le_at 4 4) by (done || by apply in_u32)
        | rewrite (read_le_at 8 8) by (done || by apply in_u64)
        | rewrite get_bytes_at by lia ];
  cbn [mbind option_bind]; rewrite <- ?app_assoc; cbn [app].

Lemma job_reads j l : job_section_fits j -> read_job (drop 1 (encode_job j) ++ l) = Some (j, l).
Proof.
  intros (Hp & Ht & Hn & Hh & Hv & Hc & Hw & Hs & Hg & Hb & Hbs). unfold encode_job, read_job, u16_bytes, u32_bytes, u64_bytes.
  cbn [app drop]. rewrite drop_0, <- !app_assoc. cbn [app]. do 11 take_field.
  unfold trunc. rewrite Z.mod_small, (proj2 (Z.ltb_ge _ _)), Nat2Z.id by lia.
  rewrite read_hashes by done. cbn [mbind option_bind]. by destruct j.
Qed.

Lemma coinbase_reads c l : coinbase_fits c -> read_coinbase (drop 1 (encode_coinbase c) ++ l) = Some (c, l).
Proof.
  intros [H1 H2]. unfold encode_coinbase, read_coinbase, u16_bytes. cbn [app drop]. unfold trunc.
  rewrite !Z.mod_small, <- !app_assoc by lia. take_field.
  do 2 (rewrite (read_le_at 2 2) by (done || lia); cbn [mbind option_bind]). do 2 take_field. by destruct c.
Qed.

Lemma blake2b_reads b l : blake2b_fits b -> read_blake2b (drop 1 (encode_blake2b b) ++ l) = Some (b, l).
Proof.
  intros (Ht & Hn & Hw). unfold encode_blake2b, read_blake2b, u32_bytes. cbn [app drop]. rewrite <- !app_assoc. cbn [app].
  take_field. cbn [Z.eqb Pos.eqb negb]. do 3 take_field. cbn [Z.eqb Pos.eqb negb]. take_field. by destruct b.
Qed.

(** One section, or none, off the front of the loop: the fuel left is enough for the rest. *)
Lemma opt_section {A} (enc : A -> list Z) (upd : Sections -> A -> Sections) o l fuel (acc : Sections) :
  (forall x, o = Some x -> forall k acc, read_sections (S k) (enc x ++ l) acc = read_sections k l (upd acc x)) ->
  (forall x, (0 < length (enc x))%nat) -> (length (opt_bytes enc o ++ l) <= fuel)%nat ->
  exists fuel', (length l <= fuel')%nat /\
    read_sections fuel (opt_bytes enc o ++ l) acc
    = read_sections fuel' l (match o with Some x => upd acc x | None => acc end).
Proof.
  intros Hr Hn Hf. destruct o as [x|]; [|by exists fuel]. cbn [opt_bytes] in *.
  specialize (Hn x). rewrite length_app in Hf. destruct fuel as [|k]; [lia|]. exists k. split; [lia|]. by apply Hr.
Qed.

Lemma job_section j l k (acc : Sections) : job_section_fits j ->
  read_sections (S k) (encode_job j ++ l) acc = read_sections k l (let '(_, c, b) := acc in (Some j, c, b)).
Proof.
  intros Hj. change (encode_job j ++ l) with (SECTION_JOB :: (drop 1 (encode_job j) ++ l)).
  destruct acc as [[? ?] ?]. cbn [read_sections]. change (SECTION_JOB =? STRUCT_END) with false.
  change (SECTION_JOB =? SECTION_JOB) with true. cbv iota. by rewrite job_reads.
Qed.

Lemma coinbase_section c l k (acc : Sections) : coinbase_fits c ->
  read_sections (S k) (encode_coinbase c ++ l) acc = read_sections k l (let '(j, _, b) := acc in (j, Some c, b)).
Proof.
  intros Hc. change (encode_coinbase c ++ l) with (SECTION_COINBASE :: (drop 1 (encode_coinbase c) ++ l)).
  destruct acc as [[? ?] ?]. cbn [read_sections]. change (SECTION_COINBASE =? STRUCT_END) with false.
  change (SECTION_COINBASE =? SECTION_JOB) with false. change (SECTION_COINBASE =? SECTION_COINBASE) with true.
  cbv iota. by rewrite coinbase_reads.
Qed.

Lemma blake2b_section b l k (acc : Sections) : blake2b_fits b ->
  read_sections (S k) (encode_blake2b b ++ l) acc = read_sections k l (let '(j, c, _) := acc in (j, c, Some b)).
Proof.
  intros Hb. change (encode_blake2b b ++ l) with (SECTION_BLAKE2B :: (drop 1 (encode_blake2b b) ++ l)).
  destruct acc as [[? ?] ?]. cbn [read_sections]. change (SECTION_BLAKE2B =? STRUCT_END) with false.
  change (SECTION_BLAKE2B =? SECTION_JOB) with false. change (SECTION_BLAKE2B =? SECTION_COINBASE) with false.
  change (SECTION_BLAKE2B =? SECTION_BLAKE2B) with true. cbv iota. by rewrite blake2b_reads.
Qed.

Lemma sections_read s fuel : submit_fits s ->
  let l := opt_bytes encode_job (su_job s) ++ opt_bytes encode_coinbase (su_coinbase s)
           ++ opt_bytes encode_blake2b (su_blake2b s) ++ [STRUCT_END] in
  (length l <= fuel)%nat -> read_sections fuel l (None, None, None) = Some (su_job s, su_coinbase s, su_blake2b s).
Proof.
  intros F l Hl. unfold l in *.
  edestruct (opt_section encode_job (fun acc j => let '(_, c, b) := acc in (Some j, c, b)) (su_job s)) as (f1 & L1 & ->);
    [|intros x; cbn; lia | exact Hl|].
  { intros j Hj k acc. apply job_section. by apply F. }
  edestruct (opt_section encode_coinbase (fun acc c => let '(j, _, b) := acc in (j, Some c, b)) (su_coinbase s)) as (f2 & L2 & ->);
    [|intros x; cbn; lia | exact L1|].
  { intros c Hc k acc. apply coinbase_section. by apply F. }
  edestruct (opt_section encode_blake2b (fun acc b => let '(j, c, _) := acc in (j, c, Some b)) (su_blake2b s)) as (f3 & L3 & ->);
    [|intros x; cbn; lia | exact L2|].
  { intros b Hb k acc. apply blake2b_section. by apply F. }
  destruct f3 as [|f3]; [cbn in L3; lia|]. by destruct (su_job s), (su_coinbase s), (su_blake2b s).
Qed.

Lemma nul_found u l : Forall (fun b => b <> 0) u -> (length u <= 384)%nat -> nul_at (take 385 (u ++ 0 :: l)) = Some (length u).
Proof.
  intros Hu Hl. rewrite take_app_ge by lia. replace (385 - length u)%nat with (S (384 - length u)) by lia. cbn [take].
  clear Hl. generalize (384 - length u)%nat. intros n. induction Hu as [|b u Hb _ IH]; [done|].
  cbn [app nul_at length]. rewrite (proj2 (Z.eqb_neq b 0)) by done. by rewrite IH.
Qed.

(** A share reads back as it was forwarded. *)
Lemma submit_decodes s : submit_fits s -> decode (encode s) = Some s.
Proof.
  intros F. pose proof (sections_read s _ F (le_n _)) as Hs. destruct F as [(Ht & Hn & Hv) He (Hu & Hl & Hx) _ _ _].
  unfold encode, decode, u32_bytes. cbn [app]. change (SUB_SHARE =? SUB_SHARE) with true. cbv iota.
  rewrite <- ?app_assoc. cbn [app]. do 8 take_field. cbn [Z.eqb Pos.eqb negb].
  rewrite take_app_length' by done. take_field. rewrite nul_found by done. cbn [mbind option_bind].
  rewrite take_app_length, Hx. rewrite drop_app_ge by lia. replace (S (length (su_username s)) - length (su_username s))%nat with 1%nat by lia.
  cbn [drop].
  set (o := if su_use_time_offset s then 1 else 0).
  change (o :: 0 :: 0 :: 0 :: ?l) with ([o; 0; 0; 0] ++ l). rewrite get_bytes_at by done. cbn [mbind option_bind].
  rewrite Hs. cbn [mbind option_bind default from_option head]. unfold id, o, flags_of.
  destruct s as [? ? [] [] [] ? ? ? ? ? ? [] ? ? ?]; done.
Qed.

(** * The verdict on a share the gateway forwards *)

(** The share as [PowSubmit] of the protocol has it. *)
Definition forwarded (p : Stratum.PowSubmit) : PowSubmit :=
  {| su_job_id := ps_job_id p; su_coinbase_id := ps_coinbase_id p; su_is_block := false; su_subsidy_only := false;
     su_quickdiff := false; su_target_byte := ps_target_byte p; su_ntime := ps_ntime p; su_nonce := ps_nonce p;
     su_version := ps_version p; su_extranonce := ps_extranonce p; su_username := str_bytes (ps_username p);
     su_use_time_offset := false;
     su_job := Some {| jo_prev_hash := ps_prev_hash p; jo_target_byte_index := 0; jo_nbits := ps_nbits p;
                       jo_coinbaser_id := ps_coinbase_id p; jo_height := ps_height p; jo_coinbase_value := ps_value p;
                       jo_txn_count := ps_txn_count p; jo_txn_total_weight := 0; jo_txn_total_size := 0;
                       jo_txn_total_sigops := 0; jo_merkle_branches := ps_branches p |};
     su_coinbase := Some {| co_id := ps_coinbase_id p; co_coinb1 := ps_coinb1 p; co_coinb2 := [] |};
     su_blake2b := Some {| bl_sia_ntime := ps_sia_ntime p; bl_sia_nonce := ps_sia_nonce p;
                           bl_time_on_wire := ps_time_on_wire p |} |}.

(** A commitment of no value changes nothing about who was paid what. *)
Lemma plus_nothing l w : amounts_ok l -> sum_sats (l ++ [{| co_sats := 0; co_script := w |}]) = sum_sats l.
Proof.
  intros Hl. rewrite !sum_exact; [|done|].
  - unfold total. rewrite map_app, zsum_app. cbn. lia.
  - destruct Hl as [H1 H2]. split; [apply Forall_app; split; [done|repeat constructor; cbn; lia]|].
    unfold total in *. rewrite map_app, zsum_app. cbn. lia.
Qed.

Lemma amounts_filter (P : CoinbaserOutput -> Prop) `{!forall o, Decision (P o)} l : amounts_ok l -> amounts_ok (filter P l).
Proof.
  intros [H1 H2]. split; [apply Forall_forall; intros o [_ Ho]%list_elem_of_filter; by eapply Forall_forall in H1|]. unfold total in *.
  etransitivity; [|exact H2]. apply zsum_filter_le. intros o Ho. by eapply Forall_forall in H1.
Qed.

Lemma commitment_ignored c outs w tolerance : amounts_ok outs ->
  split_satisfied c (outs ++ [{| co_sats := 0; co_script := w |}]) tolerance = split_satisfied c outs tolerance.
Proof.
  intros Hok. unfold split_satisfied. rewrite plus_nothing by done. destr_if; [done|]. destr_if; [done|].
  apply eq_true_iff_eq. rewrite !forallb_forall. apply forall_proper. intros e. apply imp_iff_compat_l.
  unfold got_by. rewrite filter_app, filter_cons, filter_nil. case_decide; [|by rewrite app_nil_r].
  by rewrite plus_nothing by by apply amounts_filter.
Qed.

Section Forwarded.
Context (sha256 blake2b256 : list Z -> Hash) (extra1 : list Z).

(** A job bound to a template that can be parsed back. *)
Definition bindable (t : Template) (cb : CoinbaserV2) : Prop :=
  0 <= tp_height t < 2 ^ 24 /\ - 0x80000000 <= tp_version t < 0x80000000 /\
  Z.of_nat (length (tp_tag t) + length (extra_of extra1)) <= 1000000 /\
  Forall out_fits (paid_outputs cb (tp_witness_commit t)) /\ (length (paid_outputs cb (tp_witness_commit t)) <= 512)%nat.

(** The header Prime rebuilds is the one the gateway judged. *)
Lemma header_rebuilt t cb slot seq who j user pot en1 en2 sia_t sia_n :
  coinbase_job sha256 t extra1 cb slot seq who = Some j -> - 0x80000000 <= tp_version t < 0x80000000 ->
  let hdr := share_header j en1 en2 sia_t sia_n in
  header_from_share (forwarded (submit_of j hdr user pot (en1 ++ en2) sia_t sia_n)) (hd_merkle_root (jb_header j)) = Some hdr.
Proof.
  unfold coinbase_job. destr_if; [done|]. intros [= <-] Hv. cbn -[to_i32 trunc]. by rewrite to_i32_id.
Qed.

(** Past a check that holds. *)
Ltac passes :=
  repeat (mstep; cbn [su_job su_coinbase su_blake2b su_extranonce su_coinbase_id su_target_byte absent co_id co_coinb1 co_coinb2
    jo_coinbaser_id jo_height jo_merkle_branches bl_time_on_wire pc_outputs pc_height ok_or negb orb refuse_when]).

(** The coinbase of the share pays the split it was issued. *)
Lemma coinbase_checked t cb slot seq who j c p :
  sound_job sha256 extra1 j -> coinbase_job sha256 t extra1 cb slot seq who = Some j -> bindable t cb ->
  ps_coinbase_id p = cv_id cb -> ps_height p = tp_height t -> ps_coinb1 p = jb_coinb1 j ->
  cv_id c = cv_id cb -> split_satisfied c (cv_outputs cb) SPLIT_TOLERANCE_SATS = true ->
  exists parsed, check_coinbase (forwarded p) (Some c) = Ok parsed /\ pc_legacy parsed = jb_coinb1 j.
Proof.
  intros S Ej (Hh & _ & Hl & Hf & Hm) Ei Eh Ec Hid Hs.
  destruct S as (_ & Hok & Hn & Hc1 & _). unfold coinbase_job in Ej. destr_if; [done|]. injection Ej as <-.
  cbn [jb_tpl jb_cb jb_coinb1] in *. unfold job_outputs in Hn. cbn [jb_cb] in Hn.
  destruct (coinbase_reads_back (tp_height t) (tp_tag t) (extra_of extra1) cb (tp_witness_commit t) Hh Hl Hf) as [R _].
  { split; [|done]. unfold paid_outputs. rewrite length_app. lia. }
  match type of R with _ = Some ?x => exists x end. split; [|reflexivity].
  unfold check_coinbase, forwarded. passes. rewrite Ei, Eh, Ec, !Z.eqb_refl, app_nil_r. passes. rewrite R. passes.
  rewrite Hid, Z.eqb_refl. passes.
  replace (split_satisfied c (paid_outputs cb (tp_witness_commit t)) SPLIT_TOLERANCE_SATS) with true.
  - passes. by rewrite Z.eqb_refl.
  - unfold paid_outputs. destruct (tp_witness_commit t); [by rewrite commitment_ignored | by rewrite app_nil_r].
Qed.

Lemma share_hash_at s coinbase job : su_job s = Some job ->
  share_hash sha256 blake2b256 s coinbase =
  (hdr ← ok_or REJECT_OTHER
     (header_from_share s (fold_branches sha256 (sha256d sha256 (pc_legacy coinbase)) (jo_merkle_branches job)));
   mret (hdr, pow_hash sha256 blake2b256 hdr)).
Proof. intros E. unfold share_hash. by rewrite E. Qed.

(** A share whose parts are in order is judged by its hash alone. *)
Lemma verify_at s ctx target job b2 parsed hdr hash : su_job s = Some job -> su_blake2b s = Some b2 ->
  length (su_extranonce s) = 12%nat -> check_coinbase s (cx_issued ctx) = Ok parsed ->
  bad_height (cx_tip_height ctx) (jo_height job) = false -> bad_time (cx_now ctx) (bl_time_on_wire b2) = false ->
  share_hash sha256 blake2b256 s parsed = Ok (hdr, hash) ->
  verify_share_against sha256 blake2b256 s ctx target =
  if Header.meets_target hash target
  then Ok {| ve_work := Z.max (difficulty s) (cx_min_diff ctx); ve_hash := hash; ve_height := jo_height job;
             ve_is_block_candidate := match bits_to_target (hd_bits hdr) with
                                      | Some t => Header.meets_target hash t
                                      | None => false
                                      end |}
  else Err REJECT_HIGH_HASH.
Proof.
  intros Ej Eb El Ec Eh Et Es. unfold verify_share_against. rewrite Ej, Eb, El, Ec. cbn [Nat.eqb]. passes. rewrite Eh. passes.
  rewrite Et. passes. rewrite Es. passes. by destruct (Header.meets_target hash target).
Qed.

(** What the gateway forwards is judged by Prime as the gateway judged it: on a job of the split it was
    issued, rescaled or not, that is neither old nor early, a share is taken exactly when its hash, the
    very hash the gateway took, meets the target it names, and a block is seen exactly when the gateway
    sees one. *)
Lemma forwarded_verified t cb slot seq who j c user pot en1 en2 sia_t sia_n ctx :
  sound_job sha256 extra1 j -> coinbase_job sha256 t extra1 cb slot seq who = Some j -> bindable t cb ->
  cx_issued ctx = Some c -> cv_id c = cv_id cb -> split_satisfied c (cv_outputs cb) SPLIT_TOLERANCE_SATS = true ->
  length (en1 ++ en2) = 12%nat ->
  bad_height (cx_tip_height ctx) (tp_height t) = false -> bad_time (cx_now ctx) (tp_curtime t) = false ->
  let hdr := share_header j en1 en2 sia_t sia_n in
  let hash := pow_hash sha256 blake2b256 hdr in
  verify_share sha256 blake2b256 (forwarded (submit_of j hdr user pot (en1 ++ en2) sia_t sia_n)) ctx =
  if Header.meets_target hash (target_for_pot pot)
  then Ok {| ve_work := Z.max (2 ^ Z.min pot 63) (cx_min_diff ctx); ve_hash := hash; ve_height := tp_height t;
             ve_is_block_candidate := match bits_to_target (hd_bits (jb_header j)) with
                                      | Some tgt => Header.meets_target hash tgt
                                      | None => false
                                      end |}
  else Err REJECT_HIGH_HASH.
Proof.
  intros S Ej B Hi Hid Hsat Hen Hbh Hbt hdr hash. pose proof B as (_ & Hv & _).
  set (p := submit_of j hdr user pot (en1 ++ en2) sia_t sia_n).
  assert (J : jb_tpl j = t /\ jb_cb j = cb /\ hd_time (jb_header j) = tp_curtime t).
  { unfold coinbase_job in Ej. destr_if; [done|]. by injection Ej as <-. }
  destruct J as (Jt & Jc & Jh).
  destruct (coinbase_checked t cb slot seq who j c p S Ej B) as (parsed & Ep & El);
    [unfold p; cbn; by rewrite Jc | unfold p; cbn; by rewrite Jt | done..|].
  destruct S as (_ & _ & _ & _ & _ & Hroot & _).
  assert (Eh : share_hash sha256 blake2b256 (forwarded p) parsed = Ok (hdr, hash)).
  { erewrite share_hash_at by reflexivity. rewrite El. cbn [jo_merkle_branches].
    change (ps_branches p) with (tp_branches (jb_tpl j)). rewrite <- Hroot.
    pose proof (header_rebuilt t cb slot seq who j user pot en1 en2 sia_t sia_n Ej Hv) as Hb. cbv zeta in Hb.
    fold hdr in Hb. fold p in Hb. by rewrite Hb. }
  unfold verify_share. erewrite (verify_at (forwarded p) ctx _ _ _ parsed hdr hash);
    [|reflexivity|reflexivity|done|by rewrite Hi|by cbn; rewrite Jt|by cbn; rewrite Jh|done].
  cbn [jo_height]. change (ps_height p) with (tp_height (jb_tpl j)). by rewrite Jt.
Qed.
End Forwarded.

(** * The ledger's figures *)

Definition works (rows : list Credit) : Z := zsum (map cr_work rows).
Definition works_of (ident : list Z) (rows : list Credit) : Z := works (filter (fun c => cr_identity c = ident) rows).
Definition carried (l : Ledger) : Z := fsum (fun w => w) (lg_carry l).

(** The running total is the sum of the rows, and with the carry it fits a word. *)
Record ledger_ok (l : Ledger) : Prop := {
  lo_rows : Forall (fun c => 0 <= cr_work c) (lg_credits l);
  lo_total : lg_total l = works (lg_credits l);
  lo_carry : map_Forall (fun _ w => 0 <= w) (lg_carry l);
  lo_fits : works (lg_credits l) + carried l <= u64_max
}.

Lemma works_cons c rows : works (c :: rows) = cr_work c + works rows.
Proof. apply zsum_cons. Qed.
Lemma works_app r1 r2 : works (r1 ++ r2) = works r1 + works r2.
Proof. unfold works. by rewrite map_app, zsum_app. Qed.
Lemma works_rev rows : works (rev rows) = works rows.
Proof. unfold works. rewrite map_rev. apply zsum_perm. symmetry. apply Permutation_rev. Qed.
Lemma works_nonneg rows : Forall (fun c => 0 <= cr_work c) rows -> 0 <= works rows.
Proof. intros H. apply zsum_nonneg. by apply Forall_map. Qed.

Lemma works_of_cons ident c rows :
  works_of ident (c :: rows) = (if bool_decide (cr_identity c = ident) then cr_work c else 0) + works_of ident rows.
Proof. unfold works_of. rewrite filter_cons. case_decide; case_bool_decide; rewrite ?works_cons; try done; lia. Qed.
Lemma works_of_app ident r1 r2 : works_of ident (r1 ++ r2) = works_of ident r1 + works_of ident r2.
Proof. unfold works_of. by rewrite filter_app, works_app. Qed.
Lemma works_of_rev ident rows : works_of ident (rev rows) = works_of ident rows.
Proof. unfold works_of, works. apply zsum_perm, Permutation_map. by rewrite <- Permutation_rev. Qed.
Lemma works_of_range ident rows : Forall (fun c => 0 <= cr_work c) rows -> 0 <= works_of ident rows <= works rows.
Proof.
  induction 1 as [|c rows Hc _ IH]; [done|]. rewrite works_of_cons, works_cons. case_bool_decide; lia.
Qed.

Lemma merged bucket ident work rows rows' : Forall (fun c => 0 <= cr_work c) rows -> 0 <= work ->
  works rows + work <= u64_max -> merge_back bucket ident work rows = Some rows' ->
  Forall (fun c => 0 <= cr_work c) rows' /\ works rows' = works rows + work /\
  forall i, works_of i rows' = works_of i rows + (if bool_decide (ident = i) then work else 0).
Proof.
  intros Hr Hw. revert rows'. induction Hr as [|c rows Hc Hr IH]; intros rows' Hs Hm; cbn [merge_back] in Hm; [done|].
  rewrite works_cons in Hs. pose proof (works_nonneg rows Hr) as Hn. destr_if_in Hm; [done|]. case_bool_decide as He.
  - injection Hm as <-. split; [by constructor; [cbn; sat_lia|]|]. split; [rewrite !works_cons; cbn; sat_lia|].
    intros i. rewrite !works_of_cons. cbn [cr_identity cr_work]. rewrite He. case_bool_decide; sat_lia.
  - destruct (merge_back bucket ident work rows) as [r|]; [|done]. cbn [mbind option_bind] in Hm. injection Hm as <-.
    destruct (IH r ltac:(lia) eq_refl) as (H1 & H2 & H3). split; [by constructor|]. split; [rewrite !works_cons; lia|].
    intros i. rewrite !works_of_cons, H3. lia.
Qed.

Lemma row_added bucket ident work rows : Forall (fun c => 0 <= cr_work c) rows -> 0 <= work -> works rows + work <= u64_max ->
  let rows' := add_row bucket ident work rows in
  Forall (fun c => 0 <= cr_work c) rows' /\ works rows' = works rows + work /\
  forall i, works_of i rows' = works_of i rows + (if bool_decide (ident = i) then work else 0).
Proof.
  intros Hr Hw Hs. cbv zeta. unfold add_row. destruct (merge_back bucket ident work (rev rows)) as [r|] eqn:E.
  - apply merged in E as (H1 & H2 & H3); [|by apply Forall_rev|done|by rewrite works_rev].
    split; [by apply Forall_rev|]. rewrite works_rev, H2, works_rev. split; [done|]. intros i.
    by rewrite works_of_rev, H3, works_of_rev.
  - split; [apply Forall_app; split; [done|by constructor]|]. rewrite works_app, works_cons. cbn [cr_work].
    split; [cbn; lia|]. intros i. rewrite works_of_app, works_of_cons. cbn [cr_identity cr_work]. cbn. lia.
Qed.

Lemma compacted_keeps rows : Forall (fun c => 0 <= cr_work c) rows -> works rows <= u64_max ->
  Forall (fun c => 0 <= cr_work c) (compacted rows) /\ works (compacted rows) = works rows /\
  forall i, works_of i (compacted rows) = works_of i rows.
Proof.
  intros Hr Hs. unfold compacted.
  enough (G : forall out, Forall (fun c => 0 <= cr_work c) out -> works out + works rows <= u64_max ->
    let out' := foldl (fun out c => add_row (bucket_of (cr_ts c)) (cr_identity c) (cr_work c) out) out rows in
    Forall (fun c => 0 <= cr_work c) out' /\ works out' = works out + works rows /\
    forall i, works_of i out' = works_of i out + works_of i rows) by (apply (G []); [done|change (works []) with 0; lia]).
  clear Hs. induction Hr as [|c rows Hc Hr IH]; intros out Ho Hs; [|].
  { cbv zeta. cbn [foldl]. change (works []) with 0. split; [done|]. split; [lia|]. intros i. change (works_of i []) with 0. lia. }
  rewrite works_cons in *. pose proof (works_nonneg rows Hr) as Hn. cbn [foldl].
  destruct (row_added (bucket_of (cr_ts c)) (cr_identity c) (cr_work c) out Ho Hc ltac:(lia)) as (H1 & H2 & H3).
  destruct (IH _ H1 ltac:(lia)) as (I1 & I2 & I3). split; [done|]. split; [lia|]. intros i.
  rewrite I3, H3, works_of_cons. lia.
Qed.

Lemma sum_works_exact rows : Forall (fun c => 0 <= cr_work c) rows -> works rows <= u64_max -> sum_works rows = works rows.
Proof.
  unfold sum_works. intros Hr Hs. enough (G : forall a, 0 <= a -> a + works rows <= u64_max ->
    foldl (fun a c => trunc u64_max (a + cr_work c)) a rows = a + works rows) by (rewrite G; lia).
  clear Hs. induction Hr as [|c rows Hc Hr IH]; intros a Ha Hs; [change (works []) with 0; cbn [foldl]; lia|]. rewrite works_cons in *. cbn [foldl].
  pose proof (works_nonneg rows Hr). unfold trunc at 2. rewrite Z.mod_small by lia. rewrite IH; lia.
Qed.

Lemma trim_rows_spec target rows : forall total, Forall (fun c => 0 <= cr_work c) rows -> total = works rows -> 0 <= target ->
  let '(rows', total') := trim_rows target total rows in
  exists gone, rows = gone ++ rows' /\ total' = works rows' /\ total' <= target /\
    (forall g1 c g2, gone = g1 ++ c :: g2 -> target < works (c :: g2 ++ rows')).
Proof.
  induction rows as [|c rows IH]; intros total Hr Ht Hg; cbn [trim_rows].
  - change (works []) with 0 in *. exists []. conjs; [done|done|lia|by intros [|] ? ?].
  - inversion_clear Hr as [|? ? Hc Hr']. pose proof (works_nonneg rows Hr') as Hn. rewrite works_cons in Ht.
    destruct (Z.ltb_spec target total).
    + specialize (IH (sat_sub total (cr_work c)) Hr' ltac:(sat_lia) Hg).
      destruct (trim_rows target _ rows) as [rows' total']. destruct IH as (gone & -> & E & L & Hx).
      exists (c :: gone). conjs; [done..|]. intros [|g g1] d g2 Ed; injection Ed as <- Ed.
      * subst gone. rewrite works_cons. lia.
      * by apply (Hx g1).
    + exists []. conjs; [done|by rewrite works_cons|lia|by intros [|] ? ?].
Qed.

(** What happens to the ledger: shares, trims, carry, blocks, and a restart. *)
Inductive ledger_step (l : Ledger) : Ledger -> Prop :=
| credit_step now ident work key : 0 <= work -> works (lg_credits l) + carried l + work <= u64_max ->
    ledger_step l (Books.credit l now ident work key).1
| trim_step target : 0 <= target -> ledger_step l (Books.trim l target)
| carry_step ident work : 0 <= work -> works (lg_credits l) + carried l + work <= u64_max ->
    ledger_step l (merge_carry l ident work)
| block_step moves : ledger_step l (clear_carry (settle_bonuses l moves).1)
| save_step now : ledger_step l (after_save l now)
| reload_step : ledger_step l (load (Some (saved l))).

Lemma carry_grows (m : gmap (list Z) Z) ident work : map_Forall (fun _ w => 0 <= w) m -> 0 <= work -> fsum (fun w => w) m + work <= u64_max ->
  let m' := <[ident := sat_add u64_max (default 0 (m !! ident)) work]> m in
  map_Forall (fun _ w => 0 <= w) m' /\ fsum (fun w => w) m' = fsum (fun w => w) m + work.
Proof.
  intros Hm Hw Hs. cbv zeta. destruct (m !! ident) as [v|] eqn:E; cbn [default from_option]; unfold id.
  - pose proof (Hm _ _ E) as Hv. pose proof (fsum_delete (fun w : Z => w) m ident v E) as D.
    assert (0 <= fsum (fun w : Z => w) (delete ident m)) by (apply fsum_nonneg; by apply map_Forall_delete).
    split; [apply map_Forall_insert_2; [sat_lia|done]|]. rewrite (fsum_replace _ _ _ v) by done. cbv beta. cbv beta in *. sat_lia.
  - assert (0 <= fsum (fun w : Z => w) m) by by apply fsum_nonneg.
    split; [apply map_Forall_insert_2; [sat_lia|done]|]. rewrite fsum_insert by done. sat_lia.
Qed.

Lemma reload_ok l : ledger_ok l -> ledger_ok (load (Some (saved l))) /\
  (forall i, works_of i (lg_credits (load (Some (saved l)))) = works_of i (lg_credits l)) /\
  lg_total (load (Some (saved l))) = lg_total l.
Proof.
  intros [H1 H2 H3 H4]. pose proof (fsum_nonneg (fun w : Z => w) (lg_carry l) H3) as Hc. unfold carried in H4.
  destruct (compacted_keeps (lg_credits l) H1 ltac:(lia)) as (C1 & C2 & C3). split; [|split; [exact C3|]].
  - constructor; cbn [load saved lg_credits lg_total lg_carry pe_credits pe_carry]; [done| |done|unfold carried; cbn [lg_carry lg_credits load saved pe_credits pe_carry]; lia].
    apply sum_works_exact; [done|lia].
  - cbn [load saved lg_total pe_credits]. rewrite sum_works_exact by (done || lia). by rewrite C2, H2.
Qed.

Lemma step_ok l l' : ledger_step l l' -> ledger_ok l -> ledger_ok l'.
Proof.
  intros Hst Hok. pose proof Hok as [H1 H2 H3 H4]. destruct Hst as [now ident work key Hw Hs|target Ht|ident work Hw Hs|moves|now|].
  - unfold Books.credit. destr_if; [done|]. cbn [fst].
    pose proof (fsum_nonneg (fun w : Z => w) (lg_carry l) H3) as Hc. unfold carried in *.
    destruct (row_added (bucket_of now) ident work (lg_credits l) H1 Hw ltac:(lia)) as (R1 & R2 & _).
    constructor; unfold carried; cbn [lg_credits lg_total lg_carry clear_carry with_carry]; [done| |done|lia]. rewrite R2, H2. sat_lia.
  - unfold Books.trim. destr_if; [done|]. pose proof (trim_rows_spec target (lg_credits l) (lg_total l) H1 H2 Ht) as T.
    destruct (trim_rows _ _ _) as [rows total]. destr_if; [done|]. destruct T as (gone & E & -> & _).
    rewrite E, works_app in *. apply Forall_app in H1 as [G1 G2]. pose proof (works_nonneg gone G1).
    unfold carried in *. constructor; unfold carried; cbn [lg_credits lg_total lg_carry clear_carry with_carry]; [done..|lia].
  - unfold merge_carry. destr_if; [done|]. pose proof (works_nonneg _ H1). unfold carried in *.
    destruct (carry_grows (lg_carry l) ident work H3 Hw ltac:(lia)) as [C1 C2].
    constructor; unfold carried; cbn [lg_credits lg_total lg_carry clear_carry with_carry]; [done..|lia].
  - unfold settle_bonuses. pose proof (fsum_nonneg (fun w : Z => w) (lg_carry l) H3). unfold carried in *.
    destr_if; (constructor; unfold carried; cbn [lg_credits lg_total lg_carry clear_carry with_carry]; [done|done|apply map_Forall_empty|cbn [fst lg_credits]; rewrite fsum_empty; lia]).
  - by constructor.
  - by apply reload_ok.
Qed.

(** ** Who has what *)

Abbreviation held := (fsum (fun w : Z => w)).
Abbreviation worth m i := (default 0 ((m : gmap (list Z) Z) !! i)).

Lemma worth_range (m : gmap (list Z) Z) i : map_Forall (fun _ w => 0 <= w) m -> 0 <= worth m i <= held m.
Proof.
  intros Hm. destruct (m !! i) as [v|] eqn:E; cbn [default from_option]; unfold id; [|split; [lia|by apply fsum_nonneg]].
  pose proof (fsum_delete (fun w : Z => w) m i v E) as D. pose proof (Hm _ _ E) as Hv. cbv beta in *.
  assert (0 <= held (delete i m)) by (apply fsum_nonneg; by apply map_Forall_delete). lia.
Qed.

Lemma worth_insert (m : gmap (list Z) Z) k v i : worth (<[k := v]> m) i = if bool_decide (k = i) then v else worth m i.
Proof. case_bool_decide as H; [subst i; by rewrite lookup_insert_eq | by rewrite lookup_insert_ne]. Qed.

Lemma added_work (m : gmap (list Z) Z) ident work : map_Forall (fun _ w => 0 <= w) m -> 0 <= work -> held m + work <= u64_max ->
  map_Forall (fun _ w => 0 <= w) (add_work m ident work) /\ held (add_work m ident work) = held m + work /\
  forall i, worth (add_work m ident work) i = worth m i + (if bool_decide (ident = i) then work else 0).
Proof.
  intros Hm Hw Hs. pose proof (worth_range m ident Hm) as R. unfold add_work.
  assert (E : trunc u64_max (worth m ident + work) = sat_add u64_max (worth m ident) work).
  { unfold trunc. rewrite Z.mod_small by lia. sat_lia. }
  rewrite E. destruct (carry_grows m ident work Hm Hw Hs) as [G1 G2]. split; [exact G1|]. split; [exact G2|].
  intros i. rewrite worth_insert. case_bool_decide as Hi; [subst i; sat_lia|lia].
Qed.

Lemma rows_listed rows : forall m, map_Forall (fun _ w => 0 <= w) m -> Forall (fun c => 0 <= cr_work c) rows ->
  held m + works rows <= u64_max ->
  let m' := foldl (fun m c => add_work m (cr_identity c) (cr_work c)) m rows in
  map_Forall (fun _ w => 0 <= w) m' /\ held m' = held m + works rows /\ forall i, worth m' i = worth m i + works_of i rows.
Proof.
  induction rows as [|c rows IH]; intros m Hm Hr Hs; cbn [foldl].
  - change (works []) with 0. split; [done|]. split; [lia|]. intros i. change (works_of i []) with 0. lia.
  - inversion_clear Hr as [|? ? Hc Hr']. pose proof (works_nonneg rows Hr'). rewrite works_cons in *.
    destruct (added_work m (cr_identity c) (cr_work c) Hm Hc ltac:(lia)) as (A1 & A2 & A3).
    destruct (IH _ A1 Hr' ltac:(lia)) as (I1 & I2 & I3). split; [done|]. split; [lia|].
    intros i. rewrite I3, A3, works_of_cons. lia.
Qed.

Abbreviation both m c := (union_with (fun a b : Z => Some (trunc u64_max (a + b))) m c).

Lemma both_insert (m c : gmap (list Z) Z) k v : c !! k = None ->
  both m (<[k := v]> c) = <[k := match m !! k with Some a => trunc u64_max (a + v) | None => v end]> (both m c).
Proof.
  intros Hk. apply map_eq. intros i. destruct (decide (k = i)) as [<-|Hne].
  - rewrite lookup_insert_eq, lookup_union_with, lookup_insert_eq. by destruct (m !! k).
  - by rewrite lookup_insert_ne, !lookup_union_with, lookup_insert_ne.
Qed.

Lemma carry_listed (m c : gmap (list Z) Z) : map_Forall (fun _ w => 0 <= w) m -> map_Forall (fun _ w => 0 <= w) c ->
  held m + held c <= u64_max ->
  held (both m c) = held m + held c /\ forall i, worth (both m c) i = worth m i + worth c i.
Proof.
  intros Hm. induction c as [|k v c Hk IH] using map_ind; intros Hc Hs.
  - rewrite fsum_empty. assert (E : both m ∅ = m).
    { apply map_eq. intros i. rewrite lookup_union_with, lookup_empty. by destruct (m !! i). }
    rewrite E. split; [lia|]. intros i. rewrite lookup_empty. cbn. lia.
  - apply map_Forall_insert in Hc as [Hv Hc]; [|done]. rewrite fsum_insert in * by done.
    assert (0 <= held c) by by apply fsum_nonneg. destruct (IH Hc ltac:(lia)) as [I1 I2].
    pose proof (worth_range m k Hm) as R. rewrite both_insert by done. specialize (I2 k) as Ik. rewrite Hk in Ik.
    assert (Eb : both m c !! k = m !! k) by (rewrite lookup_union_with, Hk; by destruct (m !! k)).
    assert (T : match m !! k with Some a => trunc u64_max (a + v) | None => v end = worth m k + v).
    { destruct (m !! k) as [a|]; cbn [default from_option] in *; unfold id in *; [|lia].
      unfold trunc. apply Z.mod_small. lia. }
    rewrite T. split.
    + destruct (m !! k) as [a|] eqn:Em; [rewrite (fsum_replace _ _ _ a) by done | rewrite fsum_insert by done];
        cbn [default from_option] in *; unfold id in *; lia.
    + intros i. rewrite !worth_insert. case_bool_decide as Hi; [by subst i|]. apply I2.
Qed.

(** In order, the listing gives everyone the work of their rows and their carry, and comes to the work
    of the window. *)
Lemma listing_exact l : ledger_ok l ->
  held (by_identity l) = window_work l /\ window_work l = lg_total l + carried l /\
  forall i, worth (by_identity l) i = works_of i (lg_credits l) + worth (lg_carry l) i.
Proof.
  intros [H1 H2 H3 H4]. pose proof (fsum_nonneg (fun w : Z => w) (lg_carry l) H3) as Hc. unfold carried in *.
  destruct (rows_listed (lg_credits l) ∅ (map_Forall_empty _) H1) as (R1 & R2 & R3); [rewrite fsum_empty; lia|].
  rewrite fsum_empty in R2. destruct (carry_listed _ (lg_carry l) R1 H3 ltac:(lia)) as [C1 C2].
  pose proof (works_nonneg _ H1) as Hw.
  assert (W : window_work l = lg_total l + held (lg_carry l)).
  { unfold window_work. change (zsum (map snd (map_to_list (lg_carry l)))) with (held (lg_carry l)). rewrite H2.
    unfold trunc. apply Z.mod_small. lia. }
  split; [|split; [done|]].
  - unfold by_identity. rewrite C1, R2, W. lia.
  - intros i. unfold by_identity. by rewrite C2, R3, lookup_empty.
Qed.

Lemma trim_bounded l target : ledger_ok l -> 0 < target -> lg_total (Books.trim l target) <= target.
Proof.
  intros [H1 H2 _ _] Ht. unfold Books.trim. rewrite (proj2 (Z.eqb_neq _ _)) by lia.
  pose proof (trim_rows_spec target (lg_credits l) (lg_total l) H1 H2 ltac:(lia)) as T.
  destruct (trim_rows _ _ _) as [rows total]. destruct T as (gone & E & Et & L & _). destr_if; [|done].
  apply Nat.eqb_eq in Hif. rewrite E, length_app in Hif. destruct gone; [|cbn in Hif; lia]. rewrite H2, E. cbn [app]. lia.
Qed.

(** C22: However shares, trims, carry, blocks, saves and restarts follow each other: the total is the sum of
    the rows, the listing that blocks are split by gives everyone exactly the work of their rows and
    their carry and comes to the work of the window, a restart changes nobody's work although it merges
    rows, and a trim leaves no more than its target. *)
Theorem ledger_stays_exact l : rtc ledger_step empty_ledger l ->
  lg_total l = works (lg_credits l) /\ held (by_identity l) = window_work l /\ window_work l = lg_total l + carried l /\
  (forall i, worth (by_identity l) i = works_of i (lg_credits l) + worth (lg_carry l) i) /\
  (forall i, worth (by_identity (load (Some (saved l)))) i = worth (by_identity l) i) /\
  (forall target, 0 < target -> lg_total (Books.trim l target) <= target).
Proof.
  intros R. assert (Hok : ledger_ok l).
  { refine (rtc_invariant ledger_step ledger_ok _ _ _ R _); [intros a b; apply step_ok|].
    constructor; [constructor|done|apply map_Forall_empty|done]. }
  destruct (listing_exact l Hok) as (L1 & L2 & L3). destruct (reload_ok l Hok) as (K1 & K2 & K3).
  destruct (listing_exact _ K1) as (_ & _ & M3). conjs; [apply Hok|done..| |].
  - intros i. by rewrite M3, K2, L3.
  - intros t. by apply trim_bounded.
Qed.

(** Nothing of the keys that tell submissions apart is saved: after a restart a share that was credited
    is credited again. *)
Lemma replay_after_restart l now ident work key :
  (Books.credit (load (Some (saved (Books.credit l now ident work key).1))) now ident work key).2 = true.
Proof. reflexivity. Qed.

(** * The split of a block *)

Lemma total_cons o l : total (o :: l) = co_sats o + total l.
Proof. apply zsum_cons. Qed.
Lemma total_app l1 l2 : total (l1 ++ l2) = total l1 + total l2.
Proof. unfold total. by rewrite map_app, zsum_app. Qed.

(** What the split before make-goods pays an identity, when it pays it. *)
Definition payable sha256 (miners whole min_payout : Z) (row : list Z * Z) : option CoinbaserOutput :=
  script ← Identity.identity_script sha256 row.1;
  let sats := sat_mul u64_max miners row.2 / whole in
  if sats <? min_payout then None else Some {| co_sats := sats; co_script := script |}.

Section Splits.
Context (sha256 : list Z -> Hash) (miners whole min_payout : Z).
Hypothesis Hm : 0 <= miners <= u64_max.
Hypothesis Ht : 0 < whole.

Lemma payable_part row o : 0 <= row.2 -> payable sha256 miners whole min_payout row = Some o ->
  0 <= co_sats o /\ co_sats o * whole <= miners * row.2.
Proof.
  intros Hr. unfold payable. destruct (Identity.identity_script sha256 row.1); [|done]. cbn [mbind option_bind].
  destr_if; [done|]. intros [= <-]. cbn [co_sats]. unfold sat_mul.
  assert (0 <= Z.min (miners * row.2) u64_max) by (apply Z.min_glb; nia).
  split; [by apply Z.div_pos|]. pose proof (Z.mul_div_le (Z.min (miners * row.2) u64_max) whole Ht). lia.
Qed.

(** The loop takes the rows that can be paid, in order, until there are 32 of them. *)
Lemma pay_takes rows : forall outs paid, (length outs < MOST_PAYEES)%nat -> Forall (fun r => 0 <= r.2) rows ->
  Forall (fun o => 0 <= co_sats o) outs -> paid = total outs -> paid * whole + miners * zsum (map snd rows) <= miners * whole ->
  let new := take (MOST_PAYEES - length outs) (omap (payable sha256 miners whole min_payout) rows) in
  pay sha256 miners whole min_payout rows outs paid = (outs ++ new, total (outs ++ new)) /\
  Forall (fun o => 0 <= co_sats o) (outs ++ new) /\ total (outs ++ new) <= miners.
Proof.
  induction rows as [|[ident work] rows IH]; intros outs paid Hl Hr Ho Hp Hs; cbn [pay omap list_omap].
  - rewrite take_nil, app_nil_r, Hp. conjs; [done..|]. subst paid. cbn [map zsum foldr] in Hs. nia.
  - inversion_clear Hr as [|? ? Hw Hr']. cbn [snd map] in *. rewrite zsum_cons in Hs. cbn [snd] in Hs.
    assert (Hn : 0 <= zsum (map snd rows)) by (apply zsum_nonneg; by apply Forall_map).
    destruct (payable sha256 miners whole min_payout (ident, work)) as [o|] eqn:Eo; unfold payable in Eo; cbn [fst snd] in Eo;
      destruct (Identity.identity_script sha256 ident) as [script|] eqn:Es; cbn [mbind option_bind] in Eo; try done.
    + destruct (payable_part (ident, work) o Hw) as [P1 P2]; [unfold payable; cbn [fst snd]; by rewrite Es|]. cbn [snd] in P2.
      destr_if_in Eo; [done|]. injection Eo as Eo. rewrite Eo.
      assert (T : total (outs ++ [o]) = paid + co_sats o) by (rewrite total_app, total_cons, Hp; change (total []) with 0; lia).
      assert (Fo : Forall (fun o => 0 <= co_sats o) (outs ++ [o])) by (apply Forall_app; split; [done|by constructor]).
      pose proof (total_nonneg outs Ho) as Hpos. rewrite <- Hp in Hpos.
      assert (B : paid + co_sats o <= miners) by nia.
      assert (Sa : sat_add u64_max paid (sat_mul u64_max miners work / whole) = paid + co_sats o).
      { rewrite <- Eo in B |- *. cbn [co_sats] in *. sat_lia. }
      rewrite Sa, length_app. cbn [length].
      replace (MOST_PAYEES - length outs)%nat with (S (MOST_PAYEES - (length outs + 1)))%nat by lia. cbn [take].
      destruct (Nat.leb_spec MOST_PAYEES (length outs + 1)).
      * replace (MOST_PAYEES - (length outs + 1))%nat with 0%nat by lia. rewrite take_0, T. done.
      * destruct (IH (outs ++ [o]) (paid + co_sats o)) as (I1 & I2 & I3); [rewrite length_app; cbn; lia|done|done|done|nia|].
        rewrite length_app in *. cbn [length] in *. rewrite <- app_assoc in *. cbn [app] in *. done.
    + destr_if_in Eo; [|done]. apply IH; [done..|nia].
    + apply IH; [done..|nia].
Qed.
End Splits.

(** What a ledger's split is: the parts of the 32 with the most work that can be paid, and the rest of the
    value to the pool. *)
Lemma plain_split_spec sha256 l walk value fee_bps min_payout pool_script : ledger_ok l ->
  walk ≡ₚ map_to_list (by_identity l) -> 0 <= value <= u64_max -> 0 <= fee_bps ->
  let miners := sat_sub value (sat_mul u64_max value fee_bps / 10000) in
  let paid := take MOST_PAYEES (omap (payable sha256 miners (Z.max (window_work l) 1) min_payout) (sort_by more_work walk)) in
  let outs := plain_split sha256 l walk value fee_bps min_payout pool_script in
  exists rest, outs = paid ++ rest /\ Forall (fun o => co_script o = pool_script) rest /\
    total outs = value /\ Forall (fun o => 0 <= co_sats o) outs.
Proof.
  intros Hok Hwalk Hv Hf miners paid outs. destruct (listing_exact l Hok) as (L1 & L2 & L3).
  pose proof Hok as [H1 H2 H3 H4]. pose proof (works_nonneg _ H1) as Hw. pose proof (fsum_nonneg (fun w : Z => w) _ H3) as Hc.
  unfold carried in *.
  assert (Hfee : 0 <= sat_mul u64_max value fee_bps / 10000) by (apply Z.div_pos; [unfold sat_mul; apply Z.min_glb; nia|lia]).
  assert (Hm : 0 <= miners <= value) by (unfold miners; sat_lia).
  assert (Hrows : Forall (fun r : list Z * Z => 0 <= r.2) (sort_by more_work walk)).
  { rewrite sort_by_perm, Hwalk. apply Forall_forall. intros [i w] Hin%elem_of_map_to_list. cbn [snd].
    assert (w = works_of i (lg_credits l) + worth (lg_carry l) i) by (by rewrite <- L3, Hin).
    pose proof (works_of_range i _ H1). pose proof (worth_range (lg_carry l) i H3). lia. }
  assert (Hsum : zsum (map snd (sort_by more_work walk)) = window_work l).
  { rewrite <- L1. apply zsum_perm, Permutation_map. by rewrite sort_by_perm. }
  destruct (pay_takes sha256 miners (Z.max (window_work l) 1) min_payout ltac:(lia) ltac:(lia) (sort_by more_work walk) [] 0)
    as (P1 & P2 & P3); [cbn; unfold MOST_PAYEES; lia|done|constructor|done|rewrite Hsum; nia|].
  cbn [length app] in P1, P2, P3. rewrite Nat.sub_0_r in P1, P2, P3. fold paid in P1, P2, P3.
  pose proof (total_nonneg paid P2) as Hp. unfold outs, plain_split. fold miners. rewrite P1.
  assert (E : sat_sub value (total paid) = value - total paid) by sat_lia. rewrite E. destr_if.
  - eexists. split; [reflexivity|]. split; [by constructor|]. split.
    + rewrite total_app, total_cons. cbn [co_sats]. change (total []) with 0. lia.
    + apply Forall_app. split; [done|]. constructor; [cbn [co_sats]; lia|done].
  - exists []. bools. rewrite app_nil_r. conjs; [done|constructor|lia|done].
Qed.

(** ** Make-goods *)

Definition for_script (s : list Z) (l : list CoinbaserOutput) : list CoinbaserOutput := filter (fun o => co_script o = s) l.
Definition due (s : list Z) (l : list CoinbaserOutput) : Z := total (for_script s l).

Lemma due_cons s o l : due s (o :: l) = (if bool_decide (co_script o = s) then co_sats o else 0) + due s l.
Proof. unfold due, for_script. rewrite filter_cons. case_decide; case_bool_decide; rewrite ?total_cons; try done; lia. Qed.

(** Outputs of [src] only went down; all else is as it was. *)
Definition debited (src : list Z) (o o' : CoinbaserOutput) : Prop :=
  co_script o' = co_script o /\ (co_script o <> src -> o' = o) /\ (0 <= co_sats o -> 0 <= co_sats o').

Lemma set_sats_debited src i v outs o : outs !! i = Some o -> co_script o = src -> 0 <= v ->
  Forall2 (debited src) outs (set_sats i v outs) /\ total (set_sats i v outs) = total outs - co_sats o + v.
Proof.
  intros Hi Hs Hv. revert i Hi. induction outs as [|x outs IH]; intros [|i] Hi; cbn in Hi; try done.
  - injection Hi as ->. unfold set_sats. cbn [alter list_alter]. split.
    + constructor; [by unfold debited|]. apply Forall_Forall2_diag. apply Forall_forall. by intros.
    + rewrite !total_cons. cbn [co_sats]. lia.
  - destruct (IH i Hi) as [I1 I2]. unfold set_sats in *. cbn [alter list_alter]. split.
    + constructor; [by unfold debited|done].
    + rewrite !total_cons, I2. lia.
Qed.

Lemma debited_trans src l1 l2 l3 : Forall2 (debited src) l1 l2 -> Forall2 (debited src) l2 l3 -> Forall2 (debited src) l1 l3.
Proof.
  intros H12. revert l3. induction H12 as [|x y l1 l2 (A1 & A2 & A3) _ IH]; intros l3 H23; inversion_clear H23 as [|? z ? ? (B1 & B2 & B3) ?];
    constructor; [|by apply IH]. split; [congruence|]. split; [|auto]. intros Hn. rewrite B2, A2; [done|done|congruence].
Qed.

Lemma taken_exactly src idx : forall left_ outs, NoDup idx -> Forall (fun o => 0 <= co_sats o) outs ->
  Forall (fun i => exists o, outs !! i = Some o /\ co_script o = src) idx ->
  0 < left_ <= zsum (map (sats_at outs) idx) ->
  Forall2 (debited src) outs (take_from idx left_ outs) /\ total (take_from idx left_ outs) = total outs - left_.
Proof.
  induction idx as [|i idx IH]; intros left_ outs Hnd Hpos Hi Hl; cbn [take_from map] in *; [cbn in Hl; lia|].
  rewrite zsum_cons in Hl. inversion_clear Hnd as [|? ? Hni Hnd']. inversion_clear Hi as [|? ? (o & Ho & Hs) Hi'].
  assert (Eo : sats_at outs i = co_sats o) by (unfold sats_at; by rewrite Ho). rewrite Eo in *.
  pose proof (Forall_lookup_1 _ _ _ _ Hpos Ho) as Hop. cbv beta in Hop. set (d := Z.min left_ (co_sats o)).
  destruct (set_sats_debited src i (co_sats o - d) outs o Ho Hs ltac:(lia)) as [D1 D2].
  destruct (Z.eqb_spec (left_ - d) 0); [split; [done|lia]|].
  assert (Same : forall k, k <> i -> set_sats i (co_sats o - d) outs !! k = outs !! k).
  { intros k Hk. unfold set_sats. by apply list_lookup_alter_ne. }
  destruct (IH (left_ - d) (set_sats i (co_sats o - d) outs)) as [I1 I2]; [done| | | |].
  - clear - D1 Hpos. induction D1 as [|x y l1 l2 (_ & _ & H) _ IH]; [constructor|]. inversion_clear Hpos. constructor; auto.
  - apply Forall_forall. intros k Hk. rewrite Same by (intros ->; done). by eapply Forall_forall in Hi'.
  - assert (Em : map (sats_at (set_sats i (co_sats o - d) outs)) idx = map (sats_at outs) idx).
    { apply map_ext_in. intros k Hk%list_elem_of_In. unfold sats_at. rewrite Same; [done|]. intros ->. done. }
    rewrite Em. lia.
  - split; [by eapply debited_trans|lia].
Qed.

Lemma indices_spec src outs :
  NoDup (indices_of src outs) /\ zsum (map (sats_at outs) (indices_of src outs)) = due src outs /\
  Forall (fun i => exists o, outs !! i = Some o /\ co_script o = src) (indices_of src outs).
Proof.
  unfold indices_of. set (all := imap (fun i o => (i, o)) outs).
  assert (Hall : forall e, e ∈ all -> outs !! e.1 = Some e.2).
  { intros [i o] (k & x & [= -> ->] & Hx)%elem_of_lookup_imap_1. done. }
  split; [|split].
  - refine (sublist_NoDup _ (fst <$> all) _ (fmap_sublist fst _ _ (sublist_filter _ _))).
    unfold all. rewrite fmap_imap. rewrite (imap_ext _ (fun i (_ : CoinbaserOutput) => id i)) by done.
    rewrite imap_seq_0, list_fmap_id. apply NoDup_seq.
  - unfold due, for_script, total. assert (E : map co_sats (filter (fun o => co_script o = src) outs)
      = map (fun e => co_sats e.2) (filter (fun io => co_script io.2 = src) all)).
    { unfold all. clear.
      enough (G : forall f : nat -> nat, map co_sats (filter (fun o => co_script o = src) outs)
        = map (fun e => co_sats e.2) (filter (fun io => co_script io.2 = src) (imap (fun i o => (f i, o)) outs))) by apply (G id).
      induction outs as [|o outs IH]; intros f; [done|]. rewrite imap_cons, !filter_cons. cbn [snd].
      specialize (IH (fun i => f (S i))). case_decide; cbn [map snd]; [f_equal|]; exact IH. }
    rewrite E, map_map. f_equal. apply map_ext_in. intros e He%list_elem_of_In. apply list_elem_of_filter in He as [_ He].
    unfold sats_at. by rewrite (Hall _ He).
  - apply Forall_forall. intros i Hi. apply list_elem_of_In, in_map_iff in Hi as (e & <- & He).
    apply list_elem_of_In, list_elem_of_filter in He as [Hs He]. exists e.2. by rewrite (Hall _ He).
Qed.

Lemma debited_others src s l l' : s <> src -> Forall2 (debited src) l l' -> for_script s l' = for_script s l.
Proof.
  intros Hne. unfold for_script. induction 1 as [|o o' l l' (A1 & A2 & _) _ IH]; [done|]. rewrite !filter_cons, A1.
  case_decide as Hd; [|exact IH]. rewrite A2 by congruence. by f_equal.
Qed.

Lemma due_rest src l : total l = due src l + total (filter (fun o => co_script o <> src) l).
Proof.
  unfold due, for_script. induction l as [|o l IH]; [done|]. rewrite !filter_cons, total_cons.
  destruct (decide (co_script o = src)), (decide (co_script o <> src)); rewrite ?total_cons; try done; lia.
Qed.

Lemma rest_unchanged src l l' : Forall2 (debited src) l l' ->
  filter (fun o => co_script o <> src) l' = filter (fun o => co_script o <> src) l.
Proof.
  induction 1 as [|o o' l l' (A1 & A2 & _) _ IH]; [done|]. rewrite !filter_cons, A1.
  case_decide as Hd; [|exact IH]. rewrite A2 by done. by f_equal.
Qed.

Lemma given dst sats outs : 0 <= sats -> Forall (fun o => 0 <= co_sats o) outs -> total outs + sats <= u64_max ->
  total (give dst sats outs) = total outs + sats /\ Forall (fun o => 0 <= co_sats o) (give dst sats outs) /\
  (forall s, s <> dst -> for_script s (give dst sats outs) = for_script s outs) /\
  due dst (give dst sats outs) = due dst outs + sats.
Proof.
  intros Hs. induction outs as [|o outs IH]; intros Ho Ht; cbn [give].
  - rewrite total_cons, due_cons. cbn [co_sats co_script]. rewrite bool_decide_eq_true_2 by done.
    change (total []) with 0. change (due dst []) with 0. split; [lia|]. split; [by repeat constructor|]. split; [|lia].
    intros s Hne. unfold for_script. by rewrite filter_cons, decide_False by (cbn; congruence).
  - inversion_clear Ho as [|? ? H1 H2]. rewrite total_cons in Ht. pose proof (total_nonneg outs H2) as Hn. case_bool_decide as Hd.
    + rewrite !total_cons, !due_cons. cbn [co_sats co_script]. rewrite bool_decide_eq_true_2, bool_decide_eq_true_2 by done.
      split; [sat_lia|]. split; [constructor; [cbn [co_sats]; sat_lia|done]|]. split; [|sat_lia].
      intros s Hne. unfold for_script. rewrite !filter_cons, !decide_False by (cbn; congruence). done.
    + destruct (IH H2 ltac:(lia)) as (I1 & I2 & I3 & I4). rewrite !total_cons, !due_cons.
      split; [lia|]. split; [by constructor|]. split; [|lia]. intros s Hne. unfold for_script in *. rewrite !filter_cons.
      case_decide; [f_equal|]; by apply I3.
Qed.

Lemma dust_total wanted dust : 0 <= wanted -> Forall (fun o => 0 <= co_sats o) dust -> wanted + total dust <= u64_max ->
  foldl (fun a o => trunc u64_max (a + co_sats o)) wanted dust = wanted + total dust.
Proof. intros H1 H2 H3. by apply sum_from. Qed.

Lemma parted (p : CoinbaserOutput -> bool) s l :
  due s l = due s (filter (fun o => p o = true) l) + due s (filter (fun o => p o = false) l) /\
  total l = total (filter (fun o => p o = true) l) + total (filter (fun o => p o = false) l).
Proof.
  induction l as [|o l [IH1 IH2]]; [done|]. rewrite !filter_cons.
  destruct (decide (p o = true)) as [E|E], (decide (p o = false)) as [E'|E']; [congruence| | |by destruct (p o)];
    rewrite !due_cons, !total_cons; lia.
Qed.

Lemma filter_dropped (p : CoinbaserOutput -> bool) s l : (forall o, p o = true -> co_script o <> s) ->
  for_script s (filter (fun o => p o = false) l) = for_script s l.
Proof.
  intros H. unfold for_script. induction l as [|o l IH]; [done|]. rewrite !filter_cons.
  destruct (decide (p o = false)) as [E|E].
  - rewrite filter_cons. case_decide; [f_equal|]; exact IH.
  - apply not_false_iff_true in E. rewrite decide_False by (by apply H). exact IH.
Qed.

(** One make-good: what it moves leaves the source's outputs and comes to the beneficiary's; it is what is
    owed or all the source has, and the dust that would have been left; nobody else is touched. *)
Lemma bonus_applied outs src dst owed min_payout : amounts_ok outs -> 0 <= owed ->
  let '(outs', moved) := apply_bonus outs src dst owed min_payout in
  total outs' = total outs /\ Forall (fun o => 0 <= co_sats o) outs' /\
  (forall s, s <> src -> s <> dst -> for_script s outs' = for_script s outs) /\
  (src = dst -> moved = 0 /\ outs' = outs) /\
  (src <> dst -> Z.min owed (due src outs) <= moved <= due src outs /\
     due src outs' = due src outs - moved /\ due dst outs' = due dst outs + moved).
Proof.
  intros Hok Ho. pose proof Hok as [Hpos Hfit]. unfold apply_bonus. case_bool_decide as Hsd.
  { conjs; [done..|]. by intros. }
  assert (Ea : got_by src outs = due src outs).
  { unfold got_by. apply sum_exact. by apply amounts_filter. }
  rewrite Ea. assert (Hd : 0 <= due src outs) by (apply total_nonneg; by apply amounts_filter).
  set (wanted := Z.min owed (due src outs)). destruct (Z.eqb_spec wanted 0) as [Hz|Hz].
  { conjs; [done..|by intros ->|]. intros _. split; [unfold wanted in Hz; lia|lia]. }
  destruct (indices_spec src outs) as (N1 & N2 & N3).
  set (idx := sort_by (fun i j => sats_at outs j <=? sats_at outs i) (indices_of src outs)).
  assert (P : idx ≡ₚ indices_of src outs) by apply sort_by_perm.
  destruct (taken_exactly src idx wanted outs) as [T1 T2]; [by rewrite P|done|by rewrite P| |].
  { rewrite (zsum_perm _ (map (sats_at outs) (indices_of src outs))) by (by apply Permutation_map). rewrite N2. unfold wanted. lia. }
  set (o1 := take_from idx wanted outs) in *.
  assert (Pos1 : Forall (fun o => 0 <= co_sats o) o1).
  { clear - T1 Hpos. induction T1 as [|x y l1 l2 (_ & _ & H) _ IH]; [constructor|]. inversion_clear Hpos. constructor; auto. }
  assert (D1 : due src o1 = due src outs - wanted).
  { pose proof (due_rest src o1) as R1. rewrite (rest_unchanged _ _ _ T1) in R1. pose proof (due_rest src outs). lia. }
  set (dust := filter (fun o => is_dust src min_payout o = true) o1).
  set (o2 := filter (fun o => is_dust src min_payout o = false) o1).
  assert (Split : forall s, due s o1 = due s dust + due s o2 /\ total o1 = total dust + total o2).
  { intros s. apply parted. }
  assert (Dust : forall o, o ∈ dust -> co_script o = src).
  { intros o [Hq _]%list_elem_of_filter. unfold is_dust in Hq. by bools. }
  assert (Dd : due src dust = total dust).
  { unfold due, for_script. by rewrite filter_all_list by (by apply Forall_forall). }
  assert (Pd : Forall (fun o => 0 <= co_sats o) dust /\ Forall (fun o => 0 <= co_sats o) o2).
  { split; apply Forall_forall; intros o [_ Hin]%list_elem_of_filter; by eapply Forall_forall in Pos1. }
  destruct Pd as [Pd P2]. pose proof (total_nonneg _ Pd) as Gd. pose proof (total_nonneg _ P2) as G2.
  destruct (Split src) as [S1 S2]. pose proof (total_nonneg (for_script src o2)) as G3.
  assert (0 <= due src o2). { apply G3. apply Forall_forall; intros o [_ Hin]%list_elem_of_filter; by eapply Forall_forall in P2. }
  rewrite dust_total by (done || unfold wanted; lia).
  destruct (given dst (wanted + total dust) o2) as (I1 & I2 & I3 & I4); [unfold wanted; lia|done|lia|].
  assert (Others : forall s, s <> src -> for_script s o2 = for_script s outs).
  { intros s Hs. rewrite <- (debited_others src s outs o1 Hs T1). unfold o2. apply filter_dropped. intros o Hq.
    unfold is_dust in Hq. bools. congruence. }
  split; [lia|]. split; [done|]. split; [intros s H1 H2; rewrite I3 by done; by apply Others|].
  split; [done|]. intros _. unfold due in *. rewrite I3 by done. rewrite (Others dst) in I4 by done. unfold wanted in *. lia.
Qed.

Section MakeGoods.
Context (sha256 : list Z -> Hash) (min_payout : Z).

Definition source_of (bs : list Bonus) (s : list Z) : Prop :=
  exists b, b ∈ bs /\ Identity.identity_script sha256 (bo_source b) = Some s.
Definition party_of (bs : list Bonus) (s : list Z) : Prop :=
  source_of bs s \/ exists b, b ∈ bs /\ Identity.identity_script sha256 (bo_beneficiary b) = Some s.

Lemma made_good bs : forall outs moves, amounts_ok outs -> Forall (fun m => 0 < m.2) moves ->
  let '(outs', moves') := foldl (make_good sha256 min_payout) (outs, moves) bs in
  total outs' = total outs /\ Forall (fun o => 0 <= co_sats o) outs' /\ Forall (fun m => 0 < m.2) moves' /\
  (forall s, ~ source_of bs s -> due s outs <= due s outs') /\
  (forall s, ~ party_of bs s -> for_script s outs' = for_script s outs).
Proof.
  induction bs as [|b bs IH]; intros outs moves Hok Hm; cbn [foldl].
  { destruct Hok. conjs; done. }
  assert (K : forall (P : Prop) s, ~ source_of (b :: bs) s -> (~ source_of bs s -> P) -> P).
  { intros P s H G. apply G. intros (b' & Hin & E). apply H. exists b'. split; [by right|done]. }
  assert (K' : forall (P : Prop) s, ~ party_of (b :: bs) s -> (~ party_of bs s -> P) -> P).
  { intros P s H G. apply G. intros [(b' & Hin & E)|(b' & Hin & E)]; apply H; [left|right]; exists b'; by (split; [right|]). }
  assert (Skip : let '(outs', moves') := foldl (make_good sha256 min_payout) (outs, moves) bs in
    total outs' = total outs /\ Forall (fun o => 0 <= co_sats o) outs' /\ Forall (fun m => 0 < m.2) moves' /\
    (forall s, ~ source_of (b :: bs) s -> due s outs <= due s outs') /\
    (forall s, ~ party_of (b :: bs) s -> for_script s outs' = for_script s outs)).
  { specialize (IH outs moves Hok Hm). destruct (foldl _ _ bs) as [o' m']. destruct IH as (I1 & I2 & I3 & I4 & I5).
    conjs; [done..| |]; intros s Hs; [eapply K; [exact Hs|]; by apply I4 | eapply K'; [exact Hs|]; by apply I5]. }
  unfold make_good at 2. destr_if; [exact Skip|]. clear Hif.
  destruct (Identity.identity_script sha256 (bo_source b)) as [src|] eqn:Es; [|exact Skip].
  destruct (Identity.identity_script sha256 (bo_beneficiary b)) as [dst|] eqn:Ed; [|exact Skip]. clear Skip.
  pose proof (bonus_applied outs src dst (remaining b) min_payout Hok ltac:(unfold remaining; sat_lia)) as B.
  destruct (apply_bonus outs src dst (remaining b) min_payout) as [o1 moved]. destruct B as (B1 & B2 & B3 & B4 & B5).
  specialize (IH o1 (if 0 <? moved then moves ++ [(bo_beneficiary b, moved)] else moves)).
  destruct (foldl _ _ bs) as [o' m'].
  destruct IH as (I1 & I2 & I3 & I4 & I5); [split; [done|rewrite B1; apply Hok]| |].
  { destr_if; [|done]. bools. apply Forall_app. split; [done|by repeat constructor]. }
  split; [lia|]. split; [done|]. split; [done|]. split.
  - intros s Hs. etransitivity; [|eapply K; [exact Hs|]; by apply I4].
    destruct (decide (src = dst)) as [He|He]; [destruct (B4 He) as [_ ->]; lia|].
    assert (s <> src) by (intros ->; apply Hs; exists b; split; [by left|done]).
    destruct (decide (s = dst)) as [->|Hd]; [|unfold due; by rewrite B3].
    destruct (B5 He) as (M & _ & ->). unfold remaining in M.
    assert (0 <= due src outs) by (apply total_nonneg; by apply amounts_filter). sat_lia.
  - intros s Hs. transitivity (for_script s o1); [eapply K'; [exact Hs|]; by apply I5|]. apply B3; intros ->; apply Hs.
    + left. exists b. split; [by left|done].
    + right. exists b. split; [by left|done].
Qed.
End MakeGoods.


(** ** Debts *)

Definition owing (ident : list Z) (bs : list Bonus) : Z :=
  zsum (map remaining (filter (fun b => bo_beneficiary b = ident) bs)).
Definition sent_to (ident : list Z) (ms : list (list Z * Z)) : Z := zsum (map snd (filter (fun m => m.1 = ident) ms)).
Definition debt_ok (b : Bonus) : Prop := 0 <= bo_paid b <= bo_owed b /\ bo_owed b <= u64_max.
(** What a debt is, whatever was paid of it. *)
Definition terms (b : Bonus) : list Z * list Z * Z * string := (bo_beneficiary b, bo_source b, bo_owed b, bo_note b).

Lemma owing_cons ident b bs :
  owing ident (b :: bs) = (if bool_decide (bo_beneficiary b = ident) then remaining b else 0) + owing ident bs.
Proof. unfold owing. rewrite filter_cons. case_decide; case_bool_decide; rewrite ?map_cons, ?zsum_cons; try done; lia. Qed.

Lemma owing_none ident bs : ident ∉ map bo_beneficiary bs -> owing ident bs = 0.
Proof.
  induction bs as [|b bs IH]; [done|]. cbn [map]. intros [H1 H2]%not_elem_of_cons. rewrite owing_cons, IH by done.
  by rewrite bool_decide_eq_false_2.
Qed.

Lemma debt_paid ben moved bs : 0 <= moved -> NoDup (map bo_beneficiary bs) -> Forall debt_ok bs ->
  map terms (pay_debt ben moved bs) = map terms bs /\ Forall debt_ok (pay_debt ben moved bs) /\
  forall ident, owing ident (pay_debt ben moved bs) =
    if bool_decide (ben = ident) then Z.max 0 (owing ident bs - moved) else owing ident bs.
Proof.
  intros Hm. induction bs as [|b bs IH]; intros Hnd Hd; cbn [pay_debt].
  { conjs; [done..|]. intros ident. change (owing ident []) with 0. case_bool_decide; lia. }
  inversion_clear Hnd as [|? ? Hni Hnd']. inversion_clear Hd as [|? ? [Hp Ho] Hd'].
  destruct (IH Hnd' Hd') as (I1 & I2 & I3). case_bool_decide as Hb; cbn [andb].
  - pose proof (owing_none ben bs) as N. rewrite <- Hb in N. specialize (N Hni). destruct (Z.ltb_spec 0 (remaining b)) as [Hr|Hr].
    + conjs; [done| |].
      * constructor; [|done]. unfold debt_ok in *. cbn [bo_paid bo_owed]. unfold remaining in Hr. sat_lia.
      * intros ident. rewrite !owing_cons. cbn [bo_beneficiary]. rewrite Hb.
        case_bool_decide as Hi; [|lia]. subst ident. rewrite Hb in N. rewrite N. unfold remaining in *. cbn [bo_owed bo_paid]. sat_lia.
    + cbn [map]. rewrite I1. conjs; [done|by constructor; [split|]|]. intros ident. rewrite !owing_cons, I3, Hb.
      case_bool_decide as Hi; [|lia]. subst ident. rewrite Hb in N. rewrite N. unfold remaining in *. sat_lia.
  - cbn [map]. rewrite I1. conjs; [done|by constructor; [split|]|]. intros ident. rewrite !owing_cons, I3.
    destruct (decide (ben = ident)) as [->|Hi]; [|by rewrite (bool_decide_eq_false_2 (ben = ident))].
    rewrite (bool_decide_eq_true_2 (ident = ident)), (bool_decide_eq_false_2 _ Hb) by done. lia.
Qed.

(** A block settles each debt by what it paid: what is owed to a beneficiary falls by what was moved to
    them, to nothing at most; a debt that is paid up is handed back and kept no longer; no other debt
    changes, and the terms of none. *)
Theorem block_settles_what_it_paid l moves : NoDup (map bo_beneficiary (lg_bonuses l)) -> Forall debt_ok (lg_bonuses l) ->
  Forall (fun m => 0 <= m.2) moves -> moves <> [] ->
  let '(l', retired) := settle_bonuses l moves in
  (forall ident, owing ident (lg_bonuses l') = Z.max 0 (owing ident (lg_bonuses l) - sent_to ident moves)) /\
  Forall (fun b => remaining b = 0) retired /\ Forall (fun b => 0 < remaining b) (lg_bonuses l') /\
  Forall debt_ok (lg_bonuses l') /\ map terms (lg_bonuses l' ++ retired) ≡ₚ map terms (lg_bonuses l) /\
  lg_credits l' = lg_credits l /\ lg_carry l' = lg_carry l /\ lg_total l' = lg_total l.
Proof.
  intros Hnd Hok Hm Hne. unfold settle_bonuses. destruct moves as [|m0 ms]; [done|]. cbn [length Nat.eqb].
  set (moves := m0 :: ms) in *. set (bs := foldl _ (lg_bonuses l) moves).
  assert (G : forall bs0, NoDup (map bo_beneficiary bs0) -> Forall debt_ok bs0 ->
    let bs := foldl (fun bs m => pay_debt m.1 m.2 bs) bs0 moves in
    map terms bs = map terms bs0 /\ Forall debt_ok bs /\
    forall ident, owing ident bs = Z.max 0 (owing ident bs0 - sent_to ident moves)).
  { clearbody moves. clear - Hm. induction Hm as [|m ms Hm0 Hm IH]; intros bs0 Hnd Hok; cbn [foldl].
    - conjs; [done..|]. intros ident. change (sent_to ident []) with 0.
      assert (0 <= owing ident bs0) by (apply zsum_nonneg, Forall_map, Forall_forall; intros; unfold remaining; cbn; sat_lia). lia.
    - destruct (debt_paid m.1 m.2 bs0 Hm0 Hnd Hok) as (D1 & D2 & D3).
      assert (Eb : map bo_beneficiary (pay_debt m.1 m.2 bs0) = map bo_beneficiary bs0).
      { apply (f_equal (map (fun t => t.1.1.1))) in D1. by rewrite !map_map in D1. }
      destruct (IH (pay_debt m.1 m.2 bs0)) as (I1 & I2 & I3); [by rewrite Eb|done|]. split; [congruence|]. split; [done|].
      intros ident. rewrite I3, D3. unfold sent_to. rewrite filter_cons.
      assert (0 <= owing ident bs0) by (apply zsum_nonneg, Forall_map, Forall_forall; intros; unfold remaining; cbn; sat_lia).
      assert (0 <= zsum (map snd (filter (fun m => m.1 = ident) ms))).
      { apply zsum_nonneg, Forall_map, Forall_forall. intros x [_ Hx]%list_elem_of_filter. by eapply Forall_forall in Hm. }
      case_bool_decide as Hi; [rewrite decide_True by done; rewrite map_cons, zsum_cons|rewrite decide_False by done]; lia. }
  destruct (G (lg_bonuses l) Hnd Hok) as (G1 & G2 & G3). fold bs in G1, G2, G3. cbn [lg_bonuses lg_credits lg_carry lg_total].
  assert (P : filter (fun b => ~ remaining b = 0) bs ++ filter (fun b => remaining b = 0) bs ≡ₚ bs).
  { rewrite Permutation_app_comm. clear. induction bs as [|b bs IH]; [done|]. rewrite !filter_cons.
    destruct (decide (remaining b = 0)), (decide (~ remaining b = 0)); try done; cbn [app]; [by rewrite IH|].
    rewrite <- Permutation_middle. by rewrite IH. }
  split; [|conjs; try done].
  - intros ident. rewrite <- G3. unfold owing. clear. induction bs as [|b bs IH]; [done|]. rewrite !filter_cons.
    case_decide; rewrite ?filter_cons; case_decide; cbn [map]; rewrite ?zsum_cons; lia.
  - apply Forall_forall. by intros b [Hb _]%list_elem_of_filter.
  - apply Forall_forall. intros b [Hb _]%list_elem_of_filter. unfold remaining in *. sat_lia.
  - apply Forall_forall. intros b [_ Hb]%list_elem_of_filter. by eapply Forall_forall in G2.
  - by rewrite P, G1.
Qed.

(** * From the gateway's queue to the ledger *)

Section Credited.
Context (sha256 blake2b256 : list Z -> Hash) (cfg : Settings) (extra1 : list Z).

Lemma sections_kept g s : (exists j, su_job s = Some j) -> (exists c, su_coinbase s = Some c) ->
  (keep_sections g s).2 = s /\ gw_seen (keep_sections g s).1 = gw_seen g.
Proof. intros [j Hj] [c Hc]. unfold keep_sections. rewrite Hj, Hc. split; [|done]. destruct s. cbn in *. by subst. Qed.

(** A new share of a payable name that verifies is credited what it proved. *)
Lemma share_credited p g now s v script : (exists j, su_job s = Some j) -> (exists c, su_coinbase s = Some c) ->
  st_verify cfg = Enforce -> Identity.identity_script sha256 (Identity.identity_of (su_username s)) = Some script ->
  share_key sha256 s ∉ gw_seen g ->
  verify_share sha256 blake2b256 s (context cfg p now s) = Ok v ->
  exists p' g', on_share sha256 blake2b256 cfg p g now s = (p', g', (true, 0)) /\
    pr_ledger p' = Books.trim (Books.credit (pr_ledger p) now (Identity.identity_of (su_username s)) (ve_work v)
                                 (share_key sha256 s)).1 (Z.max (pr_window_target p) 1).
Proof.
  intros Hj Hc He Hi Hk Hv. destruct (sections_kept g s Hj Hc) as [K1 K2]. unfold on_share.
  destruct (keep_sections g s) as [g1 s1]. cbn [fst snd] in K1, K2. subst s1. rewrite Hi, K2.
  rewrite bool_decide_eq_false_2 by done. rewrite He, Hv. cbn [bool_decide decide decide_rel VerifyMode_eq_dec VerifyMode_rec VerifyMode_rect].
  rewrite (bool_decide_eq_false_2 (Enforce = Off)) by done.
  cbn [set_counts pr_ledger pr_window_target pr_verified pr_rejected pr_dupes].
  destruct (Books.credit _ _ _ _ _) as [l b]. eexists _, _. split; reflexivity.
Qed.

Lemma share_dispatched p g walk now s : on_message sha256 blake2b256 cfg p g walk now (encode s) =
  let '(p', g', answer) := on_share_message sha256 blake2b256 cfg p g now (encode s) in (p', g', Some answer).
Proof. reflexivity. Qed.

End Credited.

(** ** What the check does not see *)

(** A share may name a target below the pool's floor: it is held to what it names and credited the floor. *)
Lemma credited_at_the_floor sha256 blake2b256 s ctx v : verify_share sha256 blake2b256 s ctx = Ok v ->
  Header.meets_target (ve_hash v) (target_for_pot (su_target_byte s)) = true /\
  ve_work v = Z.max (2 ^ Z.min (su_target_byte s) 63) (cx_min_diff ctx).
Proof.
  unfold verify_share, verify_share_against. intros H. bind_inv H.
  match type of H with (let '(_, _) := ?p in _) = _ => destruct p as [hdr hash] end.
  destruct (Header.meets_target hash _) eqn:M; cbn [negb refuse_when mbind result_bind] in H; [|done]. by injection H as <-.
Qed.

(** A share whose key the ledger knows, from a session that does not, is answered as accepted and credits
    nothing. *)
Lemma repeat_answered_as_accepted sha256 blake2b256 cfg p g now s script :
  (exists j, su_job s = Some j) -> (exists c, su_coinbase s = Some c) -> st_verify cfg = Off ->
  Identity.identity_script sha256 (Identity.identity_of (su_username s)) = Some script ->
  share_key sha256 s ∉ gw_seen g -> share_key sha256 s ∈ lg_seen (pr_ledger p) ->
  (on_share sha256 blake2b256 cfg p g now s).2 = (true, 0) /\
  pr_ledger (on_share sha256 blake2b256 cfg p g now s).1.1 = Books.trim (pr_ledger p) (Z.max (pr_window_target p) 1).
Proof.
  intros Hj Hc He Hi Hk Hl. destruct (sections_kept g s Hj Hc) as [K1 K2]. unfold on_share.
  destruct (keep_sections g s) as [g1 s1]. cbn [fst snd] in K1, K2. subst s1. rewrite Hi, K2.
  rewrite bool_decide_eq_false_2 by done. rewrite He. rewrite (bool_decide_eq_true_2 (Off = Off)) by done.
  unfold Books.credit. rewrite bool_decide_eq_true_2 by done. done.
Qed.

(** The product of a part is saturated: in a window of 2^40 work, the one miner of a block of 3.125 coins
    is paid a twentieth of it. *)
Lemma part_saturates : sat_mul u64_max 312500000 (2 ^ 40) / 2 ^ 40 = 16777215.
Proof. vm_compute. reflexivity. Qed.

(** * A share of a rig *)

Module LazarusDemo.
Definition sha := TemplateDemo.sha.
Definition blake := StratumDemo.blake.
Definition txid : Hash := replicate 32 1.
Definition t : Template :=
  {| tp_height := 962049; tp_value := 998000; tp_prev_notify := ""; tp_nbits := [0x4f; 0x8d; 0; 0x1a]; tp_version := 536870912;
     tp_curtime := 1760000000; tp_branches := coinbase_branches sha [txid]; tp_txids := [txid]; tp_tx_hexes := [[1; 1]];
     tp_txn_count := 2; tp_witness_commit := Some (witness_commitment_script sha [txid]); tp_tag := TemplateDemo.tag;
     tp_weightlimit := Some 4000; tp_tx_weight := 400; tp_trimmed_txs := 0; tp_trimmed_fees := 0; tp_prev_block := replicate 32 5 |}.
(** The split Prime issued, and what the gateway made of it for a smaller block. *)
Definition issued : CoinbaserV2 := TemplateDemo.split.
Definition cb : CoinbaserV2 :=
  {| cv_id := 3; cv_outputs := [{| co_sats := 598800; co_script := TemplateDemo.wpkh 8 |};
                                {| co_sats := 399200; co_script := TemplateDemo.wpkh 9 |}] |}.
Definition leg : list Z := coinbase_legacy 962049 TemplateDemo.tag (extra_of TemplateDemo.extra1) cb (tp_witness_commit t).
Definition job : Job :=
  {| jb_id := job_id_str TemplateDemo.extra1 0; jb_tpl := t; jb_header := job_header sha t TemplateDemo.extra1 leg; jb_coinb1 := leg;
     jb_cb := cb; jb_slot := 1; jb_who := None |}.
Definition en1 : list Z := [0x49; 0x69; 1; 0x4d].
Definition en2 : list Z := [2; 0; 0; 0; 0; 0; 0; 0].
Definition user : string := bytes_str TemplateDemo.ident.
Definition share : PowSubmit :=
  forwarded (submit_of job (share_header job en1 en2 (zeros 8) (zeros 8)) user 12 (en1 ++ en2) (zeros 8) (zeros 8)).
Definition cfg : Settings :=
  {| st_fee_bps := 100; st_min_payout := 546; st_min_diff := 1024; st_pool_script := TemplateDemo.wpkh 1; st_verify := Enforce |}.
Definition prime : Prime :=
  {| pr_ledger := empty_ledger; pr_tip_height := 962048; pr_window_target := 1000000; pr_coinbaser_id := 3;
     pr_issued := {[ 3 := (issued, []) ]}; pr_verified := 0; pr_rejected := 0; pr_dupes := 0 |}.

(** A window with two rows, and a make-good from the one to the other. *)
Definition other : list Z := str_bytes "bc1qrp33g0q5c5txsp9arysrx4k6zdkfs4nce4xj0gdcccefvpysxf3qccfmv3".
Definition window : Ledger :=
  {| lg_credits := [{| cr_ts := 1760000000; cr_identity := TemplateDemo.ident; cr_work := 4096 |};
                    {| cr_ts := 1760000040; cr_identity := other; cr_work := 12288 |}];
     lg_carry := {[ TemplateDemo.ident := 1000 ]}; lg_shares := 2; lg_accepted_work := 16384; lg_total := 16384; lg_seen := ∅;
     lg_last_save := None; lg_dirty := true;
     lg_bonuses := [{| bo_beneficiary := TemplateDemo.ident; bo_source := other; bo_owed := 5000; bo_paid := 0; bo_note := "" |}] |}.

Lemma lazarus_window_ok : ledger_ok window.
Proof.
  constructor; [repeat constructor; cbn; lia|reflexivity| |vm_compute; discriminate].
  apply map_Forall_singleton. cbn. lia.
Qed.

Lemma t_sound : sound_tpl sha t.
Proof. unfold sound_tpl. conjs; try done; vm_compute; try split; discriminate. Qed.

Lemma cb_ok : amounts_ok (cv_outputs cb).
Proof. split; [repeat constructor; cbn; lia|unfold total; cbn; lia]. Qed.

Lemma cb_bindable : bindable TemplateDemo.extra1 t cb.
Proof.
  unfold bindable. conjs; [vm_compute; discriminate|reflexivity|vm_compute; discriminate|reflexivity|vm_compute; discriminate| |vm_compute; lia].
  repeat constructor; try (vm_compute; discriminate).
Qed.

Lemma share_fits : submit_fits share.
Proof.
  constructor.
  - repeat split; vm_compute; discriminate.
  - reflexivity.
  - conjs; [|vm_compute; lia|vm_compute; reflexivity].
    apply (bool_decide_unpack (Forall (fun b => b <> 0) _)). vm_compute. exact I.
  - intros j [= <-]. unfold job_section_fits. conjs; try (split; vm_compute; discriminate); try (vm_compute; reflexivity).
    + vm_compute. lia.
    + apply (bool_decide_unpack (Forall (fun h => length h = 32%nat) _)). vm_compute. exact I.
  - intros c [= <-]. split; vm_compute; discriminate.
  - intros b [= <-]. unfold blake2b_fits. conjs; [reflexivity|reflexivity|split; vm_compute; discriminate].
Qed.
End LazarusDemo.



(** A share, an old carry, and a trim that keeps the newest row. *)
Lemma ledger_stays_exact_witness : exists l, rtc ledger_step empty_ledger l /\ window_work l = 5096 /\ lg_total l = works (lg_credits l).
Proof.
  set (l1 := (Books.credit empty_ledger 1760000000 TemplateDemo.ident 4096 [1]).1).
  set (l2 := merge_carry l1 LazarusDemo.other 1000). set (l3 := Books.trim l2 8192).
  assert (R : rtc ledger_step empty_ledger l3).
  { eapply rtc_l; [exact (credit_step empty_ledger 1760000000 TemplateDemo.ident 4096 [1] ltac:(lia) ltac:(vm_compute; discriminate))|].
    eapply rtc_l; [exact (carry_step l1 LazarusDemo.other 1000 ltac:(lia) ltac:(vm_compute; discriminate))|].
    apply rtc_once. exact (trim_step l2 8192 ltac:(lia)). }
  exists l3. split; [exact R|]. split; [vm_compute; reflexivity|]. exact (proj1 (ledger_stays_exact l3 R)).
Defined.
